(* ===== verification/_CoqProject ===== *)
-Q . S2P
Prelude.v
Prog.v
Posix.v
Protocol.v
EnvUtil.v
PathUtils.v
CopyPolicy.v
ServerState.v
DirCache.v
DirFdCache.v
DirFdInv.v
ServerMeta.v
ServerFiles.v
ServerOps.v
ServerVerify.v
ServerMain.v
ServerPool.v
MetaOk.v
Confine.v
ConfineServer.v
Durability.v
Dirwalk.v
DirNode.v
Edelete.v
EdeleteOk.v
EdeletePass.v
TaskHeap.v
WorkerConfig.v
Extents.v
FsUtil.v
LargePipe.v
LargePipeInv.v
LargePipeLive.v
Scheduler.v
LocalCopy.v
LocalCopyOk.v
LocalCopyRun.v
Hardlinks.v
SchedulerInv.v
SchedulerSys.v
SchedulerLive.v
SshTransport.v
SshWire.v
SshRpc.v
SshBulk.v
SshClient.v
VerifySample.v
VerifyLocal.v
VerifyLocalOk.v
VerifyRemote.v
VerifyServerOk.v
VerifyRemoteOk.v
VerifyTree.v
VerifyPool.v
Traversal.v
TraversalOk.v
RemoteCopy.v
RemoteCopyOk.v
PutFile.v
EdeletePool.v
StatsSlot.v
VerifyPipe.v
VerifyPipeOk.v
Destination.v
DestinationOk.v
