(* ===== verification/Prelude.v ===== *)
(** * ecopy, a parallel copy tool: a model and its properties

    The program (src/) copies a directory tree to another local directory or,
    over ssh, to a directory served by a second instance of itself, optionally
    verifies the copy, and has a companion that deletes trees (edelete). This
    library models its own logic as executable definitions and proves what makes
    it correct. Definitions have the names of the C functions they translate;
    each file's comment names its source.

    ** How the program is put together

    main.c parses the command line, normalises the paths, starts the copy workers
    (workers.c) and, with verification on, the verification pipeline (verify.c),
    and runs the traversal (traversal.c). The traversal is a consumer of the
    generic parallel walker (dirwalk.c): for every directory it creates the
    target, compares the files with what is there, asks the registry of hard
    links (hardlinks.c), and queues batches of files. The workers copy small
    files whole and large ones through a pipeline of readers and writers, into a
    temporary file that is renamed when it is complete (fs_util.c). A remote
    destination is reached through a pool of ssh connections (ssh_transport.c)
    that speak a binary protocol (protocol.c) with the server (server.c), whose
    apply pool runs requests concurrently between barriers. When the tree has
    been walked, hard links are replayed and directories get their metadata,
    deepest first. edelete.c is another consumer of the walker.

    ** How it is modelled

    - Code that talks to the kernel is a program of Prog.v: a free monad over the
      system calls of Posix.v and a state. Nothing is assumed of the kernel in a
      definition. A theorem is stated with a monitor, a ghost automaton that
      says which calls are permitted and which answers are possible, so it
      covers every answer the kernel may give, failures, short transfers and
      interruptions included; [wp_run] carries it to every concrete kernel, and
      witnesses run one.
    - Threads are step relations or executable step functions over the critical
      sections of the C code. A thread that waits on a condition variable sleeps
      until a signal reaches it, and a signal that finds nobody is lost, so
      absence of deadlock is a statement about the code's signals. Spurious
      wake-ups, which could only make more steps possible, are left out.
    - Integers are [Z] with the wrap-around written out where the C type can be
      left; C's double is binary64 (SpecFloat). Strings are lists of bytes.
    - Components meet in type classes: [services] (Traversal.v) is what the
      traversal asks of workers, hard links, verification and transport;
      [remote] (RemoteCopy.v) is what a remote copy asks of the transport, with
      the ssh transport and a recording transport as instances; the consumer
      record of DirNode.v is what the walker asks of its callbacks, with the
      traversal and the deleter as consumers; the signature class of Prog.v is
      what programs ask of the kernel.

    ** Fuel

    Loops whose end depends on the kernel take fuel and are [Stuck] without it.
    The fuel of the protocol's loops is the number of bytes plus the number of
    interruptions tolerated, [eintr]; of an extent walk the length of the range,
    since every round moves forwards; of the copy loops a parameter. The theorems
    show how much is enough (for instance [frame_roundtrip]), or hold for
    every amount and speak of a run that has ended; termination of the threaded
    parts is proved by measures, with explicit bounds on the number of steps.

    ** The files

    Foundations: this file (integers, lists, permutations, automation), Prog.v
    (programs, monitors, [wp], simulation between monitors [wp_sim], programs
    that run to their end), Posix.v (the calls).

    Shared by client and server: Protocol.v (protocol.c: codec and framing; a
    frame written is the frame read), EnvUtil.v (env_util.c, strtol), PathUtils.v
    (path_utils.c and the path helpers of main.c and server.c: normalisation
    computes the component list, both sides agree, [resolve_path] confines).

    The entry (main.c): Destination.v and DestinationOk.v (the destination's path,
    the directories made for it, and the final name of a single file: nothing is
    made outside the resolved destination or when it overlaps the source).

    The server (server.c): ServerState.v, DirCache.v (directories are made once
    and never recorded when absent), DirFdCache.v and DirFdInv.v (the LRU cache of
    handles keeps its structure and its pins), ServerMeta.v, ServerFiles.v
    (streamed files), ServerOps.v (the other requests), ServerVerify.v,
    ServerMain.v (the loop), ServerPool.v (the apply pool: barriers hold, nothing
    is lost, it ends). Their promises: Confine.v and ConfineServer.v (every
    request stays below the root and gives its descriptors back), Durability.v
    and MetaOk.v (COMMIT renames only what is complete and durable; WRITE stores
    exactly its bytes), PutFile.v (PUTFILE publishes whole files).

    Walking and deleting: Dirwalk.v (dirwalk.c: the pass by depth; the walk
    visits everything once and ends), DirNode.v (one directory), Edelete.v,
    EdeleteOk.v, EdeletePass.v and EdeletePool.v (edelete.c: what may be removed,
    in which order, and the queues of the unlink threads).

    Copying (workers.c, fs_util.c, copy_policy.c, traversal.c, hardlinks.c):
    CopyPolicy.v, WorkerConfig.v (every environment gives a working
    configuration), TaskHeap.v (the dispatch heap), Extents.v (only zeros are
    skipped), FsUtil.v, LocalCopy.v, LocalCopyOk.v and LocalCopyRun.v (one file,
    locally), RemoteCopy.v and RemoteCopyOk.v (one file, over the transport, end
    to end with the server's handlers), LargePipe.v, LargePipeInv.v and
    LargePipeLive.v (the pipeline of a large file), Scheduler.v, SchedulerInv.v,
    SchedulerSys.v and SchedulerLive.v (the work queue: limits, no deadlock,
    nothing lost), Hardlinks.v (the table refines a map), Traversal.v and
    TraversalOk.v (a directory is processed faithfully; metadata bottom up).

    The transport (ssh_transport.c): SshTransport.v, SshWire.v (what the client
    encodes the server decodes), SshRpc.v (replies are matched by id), SshBulk.v,
    SshClient.v (quoting, targets, partition).

    Verification (verify.c): VerifySample.v (which blocks), VerifyLocal.v and
    VerifyLocalOk.v (one local item: success means equal), VerifyRemote.v,
    VerifyServerOk.v and VerifyRemoteOk.v (one remote item, end to end),
    VerifyTree.v (verification without a copy reaches the whole tree),
    VerifyPool.v (the checkers), VerifyPipe.v and VerifyPipeOk.v (the intake and
    the feeder: what is queued is verified, after the barrier it needs).

    The display (stats.c): StatsSlot.v (the sequence lock of the current-file
    slots never lets a mixture through).

    ** Not modelled

    - stats.c apart from the counters other components decide with, progress.c,
      telemetry.c, format.c, suggestion.c: what is shown to the user.
    - shutdown.c and the signal handlers: an interruption is a step that may
      happen at any time. compat.h: the fall-backs for other systems.
    - main.c's option table, messages and the order in which [main] starts and
      stops the components.
    - In ssh_transport.c the spawning of ssh, its command line, multiplexing,
      cipher detection, the upload of the binary: [sshx_connect] takes the
      outcome of each connection. The clamp of the worker count to the number of
      connections in workers_start.
    - In edelete.c the status line, the prompt's text, the test delays and the
      summary.
    - qsort(3) (a stable sort here), realpath(3) (a call), BLAKE3 (src/third_party, a
      parameter), the tests.
    - The C memory model: accesses under a lock are the critical sections; the
      relaxed atomics are read and written in some order of the steps. *)

From Stdlib Require Export ZArith Lia Strings.Byte.
From Stdlib Require Import String Sorted.
Export String.StringSyntax.
From stdpp Require Export relations base list gmap numbers option.
From coqutil Require Export Byte.
From coqutil Require Export Word.LittleEndianList.
#[global] Open Scope Z_scope.
#[global] Set Default Goal Selector "!".

(** * Machine integers

    Every C integer is a [Z]; a conversion or an unsigned operation wraps it
    with one of these. *)

Definition u8 (z : Z) : Z := z mod 2 ^ 8.
Definition u32 (z : Z) : Z := z mod 2 ^ 32.
Definition u64 (z : Z) : Z := z mod 2 ^ 64.

(** Two's-complement reading of the low [w] bits. *)
Definition sint (w z : Z) : Z :=
  let m := z mod 2 ^ w in if decide (m < 2 ^ (w - 1)) then m else m - 2 ^ w.
Definition i32 (z : Z) : Z := sint 32 z.
Definition i64 (z : Z) : Z := sint 64 z.

Definition is_u8 (z : Z) : Prop := 0 <= z < 2 ^ 8.
Definition is_u32 (z : Z) : Prop := 0 <= z < 2 ^ 32.
Definition is_u64 (z : Z) : Prop := 0 <= z < 2 ^ 64.
Definition is_i32 (z : Z) : Prop := - 2 ^ 31 <= z < 2 ^ 31.
Definition is_i64 (z : Z) : Prop := - 2 ^ 63 <= z < 2 ^ 63.

Definition UINT64_MAX : Z := 2 ^ 64 - 1.

(** A C truth value. *)
Abbreviation b2z := Z.b2z.

Ltac unfold_ints :=
  unfold u8, u32, u64, i32, i64, sint, is_u8, is_u32, is_u64, is_i32, is_i64, UINT64_MAX in *.

Lemma u8_small z : is_u8 z -> u8 z = z.
Proof. apply Z.mod_small. Qed.
Lemma u32_small z : is_u32 z -> u32 z = z.
Proof. apply Z.mod_small. Qed.
Lemma u64_small z : is_u64 z -> u64 z = z.
Proof. apply Z.mod_small. Qed.

Lemma u8_range z : is_u8 (u8 z).
Proof. apply Z.mod_pos_bound. lia. Qed.
Lemma u32_range z : is_u32 (u32 z).
Proof. apply Z.mod_pos_bound. lia. Qed.
Lemma u64_range z : is_u64 (u64 z).
Proof. apply Z.mod_pos_bound. lia. Qed.

Lemma sint_mod w z : 0 < w -> sint w (z mod 2 ^ w) = sint w z.
Proof. intros Hw. unfold sint. rewrite Z.mod_mod; [done | lia]. Qed.

Lemma sint_small w z : 0 < w -> - 2 ^ (w - 1) <= z < 2 ^ (w - 1) -> sint w z = z.
Proof.
  intros Hw Hz. unfold sint.
  assert (Hp : 2 ^ w = 2 * 2 ^ (w - 1)).
  { rewrite <- Z.pow_succ_r by lia. f_equal; lia. }
  destruct (decide (0 <= z)).
  - rewrite Z.mod_small by lia. case_decide; lia.
  - replace (z mod 2 ^ w) with (z + 2 ^ w).
    + case_decide; lia.
    + apply (Z.mod_unique_pos _ _ (-1)); lia.
Qed.

Lemma sint_range w z : 0 < w -> - 2 ^ (w - 1) <= sint w z < 2 ^ (w - 1).
Proof.
  intros Hw. unfold sint.
  assert (Hp : 2 ^ w = 2 * 2 ^ (w - 1)).
  { rewrite <- Z.pow_succ_r by lia. f_equal; lia. }
  pose proof (Z.mod_pos_bound z (2 ^ w)).
  case_decide; lia.
Qed.

Lemma i32_u32 z : is_i32 z -> i32 (u32 z) = z.
Proof. intros. unfold i32, u32. rewrite sint_mod by lia. by apply sint_small. Qed.
Lemma i64_u64 z : is_i64 z -> i64 (u64 z) = z.
Proof. intros. unfold i64, u64. rewrite sint_mod by lia. by apply sint_small. Qed.
Lemma i64_range z : is_i64 (i64 z).
Proof. by apply (sint_range 64). Qed.

(** * Bytes and C strings *)

#[global] Instance byte_eq_dec : EqDecision byte := Byte.byte_eq_dec.

Definition byte_decode (n : N) : option byte := Byte.of_N n.
Lemma byte_decode_encode b : byte_decode (Byte.to_N b) = Some b.
Proof. apply Byte.of_to_N. Qed.
#[global] Instance byte_countable : Countable byte :=
  inj_countable Byte.to_N byte_decode byte_decode_encode.

Abbreviation bytes := (list byte).

(** A string literal as its bytes. *)
Definition str (s : string) : bytes := list_byte_of_string s.
Arguments str _%_string.

Definition NUL : byte := x00.
Definition SLASH : byte := x2f.

(** The C string stored at the start of a byte array: everything before the
    first NUL. *)
Fixpoint cstr (l : bytes) : bytes :=
  match l with
  | [] => []
  | b :: l => if decide (b = NUL) then [] else b :: cstr l
  end.

(** A well-formed C string value: no NUL inside. *)
Definition is_cstr (l : bytes) : Prop := Forall (fun b => b <> NUL) l.

Lemma cstr_is_cstr l : is_cstr (cstr l).
Proof. induction l as [|b l IH]; simpl; [constructor|]. case_decide; constructor; auto. Qed.

Lemma cstr_id l : is_cstr l -> cstr l = l.
Proof.
  induction 1 as [|b l Hb _ IH]; simpl; [done|]. rewrite decide_False by done. by rewrite IH.
Qed.

Lemma cstr_app_nul l k : is_cstr l -> cstr (l ++ NUL :: k) = l.
Proof. induction 1 as [|b l Hb _ IH]; [done|]. simpl. by rewrite decide_False, IH. Qed.

Lemma cstr_length l : (length (cstr l) <= length l)%nat.
Proof. induction l as [|b l IH]; simpl; [lia|]. case_decide; simpl; lia. Qed.

(** Length of a string as the C code sees it ([strlen], a [size_t]). *)
Definition zlen {A} (l : list A) : Z := Z.of_nat (length l).

Lemma zlen_nonneg {A} (l : list A) : 0 <= zlen l.
Proof. unfold zlen. lia. Qed.
Lemma zlen_app {A} (l1 l2 : list A) : zlen (l1 ++ l2) = zlen l1 + zlen l2.
Proof. unfold zlen. rewrite length_app. lia. Qed.
Lemma zlen_cons {A} (x : A) l : zlen (x :: l) = 1 + zlen l.
Proof. unfold zlen. simpl. lia. Qed.
Lemma zlen_nil {A} : zlen (@nil A) = 0.
Proof. done. Qed.

(** [snprintf(buf, size, "%s", s)]: at most [size - 1] characters are kept. *)
Definition snprintf_s (size : Z) (s : bytes) : bytes := take (Z.to_nat (size - 1)) s.

Lemma snprintf_s_id size s : zlen s < size -> snprintf_s size s = s.
Proof. intros. unfold snprintf_s, zlen in *. apply take_ge. lia. Qed.

Definition PATH_MAX : Z := 4096.

(** * Positions in byte strings *)

Definition at_ (l : bytes) (i : nat) : byte := default NUL (l !! i).

(** Index of the last ['/'] ([strrchr(s, '/') - s]). *)
Fixpoint strrchr_slash (s : bytes) : option nat :=
  match s with
  | [] => None
  | b :: s =>
      match strrchr_slash s with
      | Some i => Some (S i)
      | None => if decide (b = SLASH) then Some 0%nat else None
      end
  end.

Lemma strrchr_slash_None s : strrchr_slash s = None <-> SLASH ∉ s.
Proof.
  induction s as [|b s IH]; simpl; [set_solver|].
  destruct (strrchr_slash s) as [i|].
  - split; [done|]. intros Hn. exfalso.
    assert (Some i = None) by (apply IH; set_solver). done.
  - assert (SLASH ∉ s) by (by apply IH).
    case_decide; simplify_eq; set_solver.
Qed.

(** The last slash splits the string into what precedes it and a slash-free
    rest. *)
Lemma strrchr_slash_Some s i :
  strrchr_slash s = Some i <->
  (i < length s)%nat /\ s = take i s ++ SLASH :: drop (S i) s /\ SLASH ∉ drop (S i) s.
Proof.
  revert i. induction s as [|b s IH]; intros i; simpl; [split; [done|simpl; lia]|].
  destruct (strrchr_slash s) as [j|] eqn:Hj.
  - destruct (proj1 (IH j) eq_refl) as (Hl & Heq & Hn). split.
    + intros [= <-]. simpl. split; [lia|]. split; [by f_equal|done].
    + destruct i as [|i]; simpl.
      * intros (_ & _ & Hni). rewrite Heq in Hni. set_solver.
      * intros (Hil & Hieq & Hni). f_equal.
        assert (Some j = Some i) by (apply IH; split_and!; [lia|congruence|done]).
        congruence.
  - apply strrchr_slash_None in Hj. case_decide as Hb.
    + split; [intros [= <-]; simpl; split_and!; [lia|by rewrite Hb, drop_0|done]|].
      destruct i as [|i]; simpl; [done|].
      intros (_ & Hieq & _). exfalso. apply Hj. injection Hieq as Hieq. rewrite Hieq. set_solver.
    + split; [done|]. destruct i as [|i]; simpl.
      * intros (_ & Hieq & _). by injection Hieq.
      * intros (_ & Hieq & _). exfalso. apply Hj. injection Hieq as Hieq. rewrite Hieq. set_solver.
Qed.

(** Decimal digits of a non-negative integer ([printf("%u")], ["%llu"]). *)
Fixpoint dec_digits (fuel : nat) (z : Z) (acc : bytes) : bytes :=
  match fuel with
  | O => acc
  | S n =>
      let acc := byte.of_Z (48 + z mod 10) :: acc in
      if decide (z / 10 = 0) then acc else dec_digits n (z / 10) acc
  end.
Definition dec (z : Z) : bytes := dec_digits 20 z [].

(** * Hints and tactics *)

Create HintDb ecopy.
#[export] Hint Resolve u8_range u32_range u64_range i64_range zlen_nonneg cstr_is_cstr : ecopy.
#[export] Hint Rewrite @zlen_app @zlen_cons @zlen_nil : ecopy.

(** Linear arithmetic over list lengths. *)
Ltac zlen_lia :=
  autorewrite with ecopy in *; unfold zlen in *; lia.

(** * Permutations of concatenations

    [perm] proves [l1 ++ ... ≡ₚ k1 ++ ...] when both sides have the same parts:
    the parts are numbered and the two lists of numbers compared. *)
Section perm.
Context {A : Type}.
Definition parts (env : list (list A)) (e : list nat) : list A := concat ((fun n => default [] (env !! n)) <$> e).
Fixpoint take_out (n : nat) (e : list nat) : option (list nat) :=
  match e with
  | [] => None
  | m :: e => if decide (n = m) then Some e else match take_out n e with Some e => Some (m :: e) | None => None end
  end.
Fixpoint same_parts (e1 e2 : list nat) : bool :=
  match e1 with
  | [] => bool_decide (e2 = [])
  | n :: e1 => match take_out n e2 with Some e2 => same_parts e1 e2 | None => false end
  end.
Lemma take_out_perm n e e' : take_out n e = Some e' -> e ≡ₚ n :: e'.
Proof.
  revert e'. induction e as [|m e IH]; intros e' H; simpl in H; [done|]. case_decide; [by simplify_eq|].
  destruct (take_out n e) as [e1|]; simplify_eq. etrans; [by apply perm_skip, IH|apply perm_swap].
Qed.
Lemma same_parts_perm e1 e2 : same_parts e1 e2 = true -> e1 ≡ₚ e2.
Proof.
  revert e2. induction e1 as [|n e1 IH]; intros e2 H; simpl in H; [by apply bool_decide_eq_true in H as ->|].
  destruct (take_out n e2) as [e2'|] eqn:E; [|done]. apply take_out_perm in E. etrans; [by apply perm_skip, (IH e2')|done].
Qed.
Lemma concat_perm (l k : list (list A)) : l ≡ₚ k -> concat l ≡ₚ concat k.
Proof.
  induction 1 as [|x l k _ IH|x y l|l1 l2 l3 _ IH1 _ IH2]; simpl; [done|by apply Permutation_app_head| |by etrans].
  apply Permutation_app_swap_app.
Qed.
Lemma parts_perm env e1 e2 : same_parts e1 e2 = true -> parts env e1 ≡ₚ parts env e2.
Proof. intros H. unfold parts. apply concat_perm, fmap_Permutation, same_parts_perm, H. Qed.
End perm.
Ltac perm_index x env :=
  lazymatch env with
  | x :: _ => constr:(0%nat)
  | _ :: ?env => let n := perm_index x env in constr:(S n)
  end.
Ltac perm_env e env :=
  lazymatch e with
  | ?a ++ ?b => let env := perm_env a env in perm_env b env
  | [] => env
  | ?x :: [] => match env with context [([x]) :: _] => env | _ => constr:([x] :: env) end
  | ?x :: ?b => let env := perm_env ([x]) env in perm_env b env
  | _ => match env with context [e :: _] => env | _ => constr:(e :: env) end
  end.
Ltac perm_reify e env :=
  lazymatch e with
  | ?a ++ ?b => let x := perm_reify a env in let y := perm_reify b env in eval cbv [app] in (x ++ y)
  | [] => constr:(@nil nat)
  | ?x :: [] => let n := perm_index ([x]) env in constr:([n])
  | ?x :: ?b => let n := perm_index ([x]) env in let y := perm_reify b env in constr:(n :: y)
  | _ => let n := perm_index e env in constr:([n])
  end.
Ltac perm :=
  lazymatch goal with
  | |- @Permutation ?A ?l ?k =>
      let env := perm_env l (@nil (list A)) in let env := perm_env k env in
      let x := perm_reify l env in let y := perm_reify k env in
      let H := fresh in
      assert (H : parts env x ≡ₚ parts env y) by (apply parts_perm; vm_compute; reflexivity);
      cbv [parts] in H; cbn [fmap list_fmap concat lookup list_lookup default from_option id] in H;
      rewrite ?app_nil_r in H; rewrite <- ?(assoc_L (++)) in H;
      rewrite ?app_nil_r, <- ?(assoc_L (++)); cbn [app] in H |- *; rewrite ?app_nil_r; exact H
  end.

(** * Sums and contents over a list of threads *)

Definition sumZ {A} (f : A -> Z) (l : list A) : Z := foldr (fun x a => f x + a) 0 l.

Lemma sumZ_insert {A} (f : A -> Z) l i a b : l !! i = Some a -> sumZ f (<[i := b]> l) = sumZ f l - f a + f b.
Proof.
  revert i. induction l as [|x l IH]; intros [|i] Hi; simplify_eq/=; [lia|]. rewrite (IH i Hi). lia.
Qed.
Lemma sumZ_nonneg {A} (f : A -> Z) l : (forall x, 0 <= f x) -> 0 <= sumZ f l.
Proof. intros Hf. induction l as [|x l IH]; simpl; [lia|]. specialize (Hf x). lia. Qed.
Lemma sumZ_elem {A} (f : A -> Z) l i a : (forall x, 0 <= f x) -> l !! i = Some a -> f a <= sumZ f l.
Proof.
  intros Hf. revert i. induction l as [|x l IH]; intros [|i] Hi; simplify_eq/=.
  - pose proof (sumZ_nonneg f l Hf). lia.
  - specialize (IH i Hi). specialize (Hf x). lia.
Qed.
Lemma sumZ_zero {A} (f : A -> Z) l : Forall (fun x => f x = 0) l -> sumZ f l = 0.
Proof. induction 1; simpl; lia. Qed.
Lemma sumZ_zero_inv {A} (f : A -> Z) l : (forall x, 0 <= f x) -> sumZ f l = 0 -> Forall (fun x => f x = 0) l.
Proof.
  intros Hf. induction l as [|x l IH]; simpl; [done|]. intros H. pose proof (sumZ_nonneg f l Hf). pose proof (Hf x).
  constructor; [lia|]. apply IH. lia.
Qed.
Lemma sumZ_Forall2 {A} (f : A -> Z) (R : A -> A -> Prop) l l' :
  (forall x y, R x y -> f y = f x) -> Forall2 R l l' -> sumZ f l' = sumZ f l.
Proof. intros Hf. induction 1; simpl; [done|]. by rewrite (Hf x y), IHForall2. Qed.
Lemma sumZ_fmap {A} (f : A -> Z) (g : A -> A) l : (forall x, f (g x) = f x) -> sumZ f (g <$> l) = sumZ f l.
Proof.
  intros Hf. apply (sumZ_Forall2 f (fun x y => y = g x)); [by intros x y ->|].
  by apply Forall2_fmap_r, Forall_Forall2_diag, Forall_true.
Qed.
Lemma sumZ_replicate {A} (f : A -> Z) n x : f x = 0 -> sumZ f (replicate n x) = 0.
Proof. intros H. apply sumZ_zero. by apply Forall_replicate. Qed.

Lemma forallb_Forall {A} (f : A -> bool) l : forallb f l = true <-> Forall (fun x => f x = true) l.
Proof. induction l as [|x l IH]; simpl; [by split|]. by rewrite andb_true_iff, IH, Forall_cons_iff. Qed.

(** The contents around one element. *)
Lemma concat_at {A B} (f : A -> list B) l i a :
  l !! i = Some a ->
  exists R, concat (f <$> l) ≡ₚ f a ++ R /\ forall b, concat (f <$> <[i := b]> l) ≡ₚ f b ++ R.
Proof.
  revert i. induction l as [|x l IH]; intros [|i] Hi; simplify_eq/=.
  - exists (concat (f <$> l)). by split.
  - destruct (IH i Hi) as (R & H1 & H2). exists (f x ++ R). split; [|intros b; specialize (H2 b)].
    all: etrans; [apply Permutation_app_head; eassumption|apply Permutation_app_swap_app].
Qed.
Lemma concat_Forall2 {A B} (f : A -> list B) (R : A -> A -> Prop) l l' :
  (forall x y, R x y -> f y = f x) -> Forall2 R l l' -> concat (f <$> l') = concat (f <$> l).
Proof. intros Hf. induction 1; [done|]. rewrite !fmap_cons. cbn [concat]. by rewrite (Hf x y), IHForall2. Qed.

(** * File contents *)

Lemma elem_of_concat {A} (x : A) (ls : list (list A)) : x ∈ concat ls <-> exists l, l ∈ ls /\ x ∈ l.
Proof. rewrite list_elem_of_In, in_concat. by setoid_rewrite <- list_elem_of_In. Qed.

(** Positions in a sorted list. *)
Lemma sorted_lookup {A} (R : A -> A -> Prop) l :
  StronglySorted R l -> forall i j x y, (i < j)%nat -> l !! i = Some x -> l !! j = Some y -> R x y.
Proof.
  induction 1 as [|z l Hs IH Hz]; intros [|i] [|j] x y Hij Hx Hy; simplify_eq/=; try lia.
  - by eapply Forall_lookup_1.
  - by eapply (IH i j); [lia|done|done].
Qed.
(** Positioned store into file contents. *)
Fixpoint store (off : Z) (d : bytes) (m : gmap Z byte) : gmap Z byte :=
  match d with
  | [] => m
  | b :: d => store (off + 1) d (<[off := b]> m)
  end.

Lemma store_app off d1 d2 m : store off (d1 ++ d2) m = store (off + zlen d1) d2 (store off d1 m).
Proof.
  revert off m. induction d1 as [|b d1 IH]; intros off m; simpl.
  - by rewrite zlen_nil, Z.add_0_r.
  - rewrite IH, zlen_cons. f_equal. lia.
Qed.

(** Every byte is where it belongs and nothing else has changed. *)
Lemma store_lookup off d m i :
  store off d m !! i = if decide (off <= i < off + zlen d) then d !! Z.to_nat (i - off) else m !! i.
Proof.
  revert off m. induction d as [|b d IH]; intros off m; simpl.
  - by rewrite zlen_nil, decide_False by lia.
  - rewrite IH, zlen_cons, lookup_insert. pose proof (zlen_nonneg d).
    destruct (decide (off + 1 <= i < off + 1 + zlen d)) as [Hin|Hin].
    + rewrite decide_True by lia. by replace (Z.to_nat (i - off)) with (S (Z.to_nat (i - (off + 1)))) by lia.
    + case_decide as He.
      * subst. rewrite decide_True by lia. by rewrite Z.sub_diag.
      * by rewrite decide_False by lia.
Qed.
