(* ===== verification/Prog.v ===== *)
(** Programs that talk to an operating system: a free monad over a signature
    of system calls, a state monad on top of it, and a program logic.

    A handler of the C code is a value of [prog E A]: it returns, or it issues
    one call of the signature [E] and continues with whatever the kernel
    answers, or it is [Stuck] (a loop whose fuel ran out, a wait nobody can
    end).  Nothing is assumed of the kernel in the definitions.  A [monitor]
    is a ghost automaton that watches the calls: [mpre] says which call may be
    issued in a ghost state, [madm] which answers the kernel may give (the
    documented behaviour a theorem relies on), [mupd] how the ghost state
    moves.  [wp m p g Q] holds when [p], started in ghost state [g], only
    issues permitted calls whatever admissible answers it gets, and ends with
    [Q].  [wp_run] is the adequacy theorem: against every concrete kernel
    that answers admissibly, the executable interpreter [run] reaches [Q]. *)

From S2P Require Export Prelude.

Inductive prog (E : Type -> Type) (A : Type) : Type :=
| Ret (a : A)
| Sys (R : Type) (e : E R) (k : R -> prog E A)
| Stuck.
Arguments Ret {E A} a.
Arguments Sys {E A R} e k.
Arguments Stuck {E A}.

Fixpoint prog_bind {E A B} (f : A -> prog E B) (p : prog E A) : prog E B :=
  match p with
  | Ret a => f a
  | Sys e k => Sys e (fun r => prog_bind f (k r))
  | Stuck => Stuck
  end.

#[export] Instance prog_mret E : MRet (prog E) := fun A a => Ret a.
#[export] Instance prog_mbind E : MBind (prog E) := fun A B f p => prog_bind f p.

(** Issue one call. *)
Definition sys {E : Type -> Type} {R} (e : E R) : prog E R := Sys e Ret.

(** Interpretation against a kernel [h] with state [K]. *)
Fixpoint run {E : Type -> Type} {K A} (h : forall R, E R -> K -> R * K)
    (p : prog E A) (k : K) : option (A * K) :=
  match p with
  | Ret a => Some (a, k)
  | Sys e c => let '(r, k) := h _ e k in run h (c r) k
  | Stuck => None
  end.

(** * The state monad over programs *)

Definition M (E : Type -> Type) (S A : Type) : Type := S -> prog E (A * S).

#[export] Instance M_mret E S : MRet (M E S) := fun A a s => Ret (a, s).
#[export] Instance M_mbind E S : MBind (M E S) :=
  fun A B f c s => prog_bind (fun '(a, s) => f a s) (c s).

Definition get {E S} : M E S S := fun s => Ret (s, s).
Definition gets {E S A} (f : S -> A) : M E S A := fun s => Ret (f s, s).
Definition modify {E S} (f : S -> S) : M E S unit := fun s => Ret (tt, f s).
Definition state {E S A} (f : S -> A * S) : M E S A := fun s => Ret (f s).
Definition call {E : Type -> Type} {S R} (e : E R) : M E S R := fun s => Sys e (fun r => Ret (r, s)).
Definition lift {E S A} (p : prog E A) : M E S A := fun s => prog_bind (fun a => Ret (a, s)) p.
Definition stuck {E S A} : M E S A := fun _ => Stuck.

(** Conditional execution: [if (b) c;]. *)
Definition when {E S} (b : bool) (c : M E S unit) : M E S unit :=
  if b then c else mret tt.

(** * Monitors and weakest preconditions *)

Record monitor (E : Type -> Type) : Type := Monitor {
  mstate : Type;
  mpre : mstate -> forall R, E R -> Prop;
  madm : mstate -> forall R, E R -> R -> Prop;
  mupd : mstate -> forall R, E R -> R -> mstate;
  (** what [Stuck] means for the property: [False] for total correctness *)
  mstuck : Prop
}.
Arguments Monitor {E}.
Arguments mstate {E}.
Arguments mpre {E} m g {R} e : rename.
Arguments madm {E} m g {R} e r : rename.
Arguments mupd {E} m g {R} e r : rename.
Arguments mstuck {E}.

Section wp.
Context {E : Type -> Type} (m : monitor E).

Fixpoint wp {A} (p : prog E A) (g : mstate m) (Q : mstate m -> A -> Prop) : Prop :=
  match p with
  | Ret a => Q g a
  | Sys e k => mpre m g e /\ forall r, madm m g e r -> wp (k r) (mupd m g e r) Q
  | Stuck => mstuck m
  end.

Lemma wp_mono {A} (p : prog E A) g (Q Q' : mstate m -> A -> Prop) :
  wp p g Q -> (forall g a, Q g a -> Q' g a) -> wp p g Q'.
Proof.
  intros H HQ. revert g H.
  induction p as [a|R e k IH|]; intros g H; simpl in *; [by apply HQ| |done].
  destruct H as [Hp Hk]. split; [done|]. intros r Hr. by apply IH, Hk.
Qed.

Lemma wp_bind {A B} (f : A -> prog E B) (p : prog E A) g Q :
  wp (prog_bind f p) g Q <-> wp p g (fun g a => wp (f a) g Q).
Proof.
  revert g. induction p as [a|R e k IH|]; intros g; simpl; [done| |done].
  split; intros [Hp Hk]; (split; [done|]); intros r Hr; apply IH; auto.
Qed.

Lemma wp_and {A} (p : prog E A) g (Q1 Q2 : mstate m -> A -> Prop) :
  wp p g Q1 -> wp p g Q2 -> wp p g (fun g a => Q1 g a /\ Q2 g a).
Proof.
  revert g. induction p as [a|R e k IH|]; intros g; simpl; [done| |done].
  intros [Hp H1] [_ H2]. split; [done|]. intros r Hr. apply IH; auto.
Qed.

(** The same for stateful programs. *)
Definition wpM {S A} (c : M E S A) (s : S) (g : mstate m)
    (Q : mstate m -> A -> S -> Prop) : Prop :=
  wp (c s) g (fun g '(a, s) => Q g a s).

Lemma wpM_mono {S A} (c : M E S A) s g (Q Q' : mstate m -> A -> S -> Prop) :
  wpM c s g Q -> (forall g a s, Q g a s -> Q' g a s) -> wpM c s g Q'.
Proof. intros H HQ. eapply wp_mono; [exact H|]. intros g' [a s']. apply HQ. Qed.

Lemma wpM_ret {S A} (a : A) (s : S) g (Q : mstate m -> A -> S -> Prop) :
  Q g a s -> wpM (mret a) s g Q.
Proof. done. Qed.

Lemma wpM_bind {S A B} (f : A -> M E S B) (c : M E S A) s g (Q : mstate m -> B -> S -> Prop) :
  wpM c s g (fun g a s => wpM (f a) s g Q) -> wpM (c ≫= f) s g Q.
Proof.
  intros H. unfold wpM, mbind, M_mbind. apply wp_bind.
  eapply wp_mono; [exact H|]. intros g' [a s']. done.
Qed.

Lemma wpM_gets {S A} (f : S -> A) s g (Q : mstate m -> A -> S -> Prop) :
  Q g (f s) s -> wpM (gets f) s g Q.
Proof. done. Qed.

Lemma wpM_get {S} s g (Q : mstate m -> S -> S -> Prop) :
  Q g s s -> wpM get s g Q.
Proof. done. Qed.

Lemma wpM_modify {S} (f : S -> S) s g (Q : mstate m -> unit -> S -> Prop) :
  Q g tt (f s) -> wpM (modify f) s g Q.
Proof. done. Qed.

Lemma wpM_state {S A} (f : S -> A * S) s g (Q : mstate m -> A -> S -> Prop) :
  (forall a s', f s = (a, s') -> Q g a s') -> wpM (state f) s g Q.
Proof. intros H. unfold wpM, state. simpl. destruct (f s). by apply H. Qed.

Lemma wpM_call {S R} (e : E R) (s : S) g (Q : mstate m -> R -> S -> Prop) :
  mpre m g e -> (forall r, madm m g e r -> Q (mupd m g e r) r s) -> wpM (call e) s g Q.
Proof. intros Hp Hk. split; [done|]. intros r Hr. by apply Hk. Qed.

Lemma wpM_lift {S A} (p : prog E A) (s : S) g (Q : mstate m -> A -> S -> Prop) :
  wp p g (fun g a => Q g a s) -> wpM (lift p) s g Q.
Proof. intros H. unfold wpM, lift. by apply wp_bind. Qed.

Lemma wpM_when {S} (b : bool) (c : M E S unit) s g (Q : mstate m -> unit -> S -> Prop) :
  (b = true -> wpM c s g Q) -> (b = false -> Q g tt s) -> wpM (when b c) s g Q.
Proof. intros Ht Hf. destruct b; simpl; [auto|]. by apply wpM_ret, Hf. Qed.

(** ** Adequacy *)

(** A kernel [h] whose states relate to ghost states by [I], and that
    answers every permitted call admissibly. *)
Definition kernel_ok {K} (h : forall R, E R -> K -> R * K) (I : K -> mstate m -> Prop) : Prop :=
  forall k g R (e : E R), I k g -> mpre m g e ->
    madm m g e (h R e k).1 /\ I (h R e k).2 (mupd m g e (h R e k).1).

Theorem wp_run {A K} (h : forall R, E R -> K -> R * K) (I : K -> mstate m -> Prop)
    (p : prog E A) k g Q :
  ~ mstuck m -> kernel_ok h I -> I k g -> wp p g Q ->
  exists a k' g', run h p k = Some (a, k') /\ I k' g' /\ Q g' a.
Proof.
  intros Hs Hh. revert k g.
  induction p as [a|R e c IH|]; intros k g HI Hwp; simpl in *; [by eauto 6| |done].
  destruct Hwp as [Hp Hk]. destruct (Hh k g R e HI Hp) as [Ha HI'].
  destruct (h R e k) as [r k'] eqn:Hr. simpl in *.
  by apply (IH r k' (mupd m g e r)); auto.
Qed.
End wp.

(** * Verification tactics

    [wp_step] takes one structural step of a stateful program. *)
Ltac wp_step_pure :=
  match goal with
  | |- wpM _ (mret _) _ _ _ => apply wpM_ret
  | |- wpM _ (mbind _ _) _ _ _ => apply wpM_bind
  | |- wpM _ (gets _) _ _ _ => apply wpM_gets
  | |- wpM _ get _ _ _ => apply wpM_get
  | |- wpM _ (modify _) _ _ _ => apply wpM_modify
  end.
Ltac wp_step :=
  match goal with
  | |- wpM _ (mret _) _ _ _ => apply wpM_ret
  | |- wpM _ (mbind _ _) _ _ _ => apply wpM_bind
  | |- wpM _ (gets _) _ _ _ => apply wpM_gets
  | |- wpM _ get _ _ _ => apply wpM_get
  | |- wpM _ (modify _) _ _ _ => apply wpM_modify
  | |- wpM _ (call _) _ _ _ => apply wpM_call; [|intros ?r ?Hr]
  | |- wpM _ (when _ _) _ _ _ => apply wpM_when; intros ?Hb
  end.

(** [wp_call r H]: issue the next call, naming its answer and what the
    monitor admits about it; the permission goal is left to [done]. *)
Tactic Notation "wp_call" ident(r) ident(H) :=
  repeat wp_step_pure; apply wpM_call; [try done|intros r H; cbn beta in H].

(** * Monitors that see more

    A fact proved with a monitor [m] holds with a monitor [m'] that permits no
    less, admits no more, and keeps its ghost state in step. *)
Section sim.
Context {E : Type -> Type} (m m' : monitor E) (R : mstate m -> mstate m' -> Prop).
Context (Hstep : forall g g' T (e : E T), R g g' -> mpre m g e ->
  mpre m' g' e /\ forall r, madm m' g' e r -> madm m g e r /\ R (mupd m g e r) (mupd m' g' e r)).
Context (Hstuck : mstuck m -> mstuck m').

Lemma wp_sim {A} (p : prog E A) g g' Q :
  R g g' -> wp m p g Q -> wp m' p g' (fun g1' a => exists g1, R g1 g1' /\ Q g1 a).
Proof.
  revert g g'. induction p as [a|T e k IH|]; intros g g' HR; simpl; [by eauto| |done].
  intros [Hp Hk]. destruct (Hstep _ _ _ e HR Hp) as [Hp' Hr]. split; [done|]. intros r Ha. destruct (Hr r Ha) as [Ha' HR'].
  eapply IH; [exact HR'|by apply Hk].
Qed.
Lemma wpM_sim {S A} (c : M E S A) s g g' (Q : mstate m -> A -> S -> Prop) :
  R g g' -> wpM m c s g Q -> wpM m' c s g' (fun g1' a s' => exists g1, R g1 g1' /\ Q g1 a s').
Proof. intros HR H. unfold wpM in *. eapply wp_mono; [by eapply wp_sim|]. by intros g1 [a s'] (g2 & ? & ?); exists g2. Qed.
End sim.

(** * The monitor that observes nothing

    [free] permits every call and admits every answer; what holds against it
    holds whatever the kernel does, and can be added to a fact proved with any
    other monitor. *)
Definition free (E : Type -> Type) : monitor E :=
  Monitor unit (fun _ _ _ => True) (fun _ _ _ _ => True) (fun _ _ _ _ => tt) False.

Lemma wp_free_and {E : Type -> Type} (m : monitor E) {A} (p : prog E A) g Q (P : A -> Prop) :
  wp (free E) p tt (fun _ a => P a) -> wp m p g Q -> wp m p g (fun g a => Q g a /\ P a).
Proof.
  revert g. induction p as [a|R e k IH|]; intros g; simpl; [done| |done].
  intros [_ Hf] [Hp Hk]. split; [done|]. intros r Hr. apply IH; [by apply Hf|by apply Hk].
Qed.

Lemma wpM_free_and {E : Type -> Type} (m : monitor E) {S A} (c : M E S A) s g Q (P : A -> S -> Prop) :
  wpM (free E) c s tt (fun _ a s => P a s) -> wpM m c s g Q ->
  wpM m c s g (fun g a s => Q g a s /\ P a s).
Proof.
  intros Hf Hm. unfold wpM in *.
  eapply wp_mono; [eapply (wp_free_and m _ _ _ (fun x => P x.1 x.2)); [|exact Hm]|].
  - eapply wp_mono; [exact Hf|]. by intros [] [].
  - by intros g' [].
Qed.

(** * Programs that run to their end

    under a monitor, whatever is answered. *)
Section completes.
Context {E : Type -> Type} (m : monitor E) {S : Type}.

Definition completes {A} (c : M E S A) : Prop := forall s g, wpM m c s g (fun _ _ _ => True).
Lemma completes_ret {A} (a : A) : completes (mret a).
Proof. done. Qed.
Lemma completes_bind {A B} (f : A -> M E S B) (c : M E S A) : completes c -> (forall a, completes (f a)) -> completes (c ≫= f).
Proof. intros Hc Hf s g. apply wpM_bind. eapply wpM_mono; [apply Hc|]. cbn beta. intros g' a s' _. apply Hf. Qed.
Lemma completes_call {R} (e : E R) : (forall g, mpre m g e) -> completes (call e).
Proof. intros He s g. by apply wpM_call. Qed.
Lemma completes_modify f : completes (modify f).
Proof. done. Qed.
Lemma completes_gets {A} (f : S -> A) : completes (gets f).
Proof. done. Qed.
Lemma completes_when b c : completes c -> completes (when b c).
Proof. intros Hc. by destruct b. Qed.
End completes.

(** Calls of closed arguments are permitted by computation, or always. *)
Ltac completes_step :=
  first
    [ done | apply completes_ret | apply completes_modify | apply completes_gets | apply completes_when
    | apply completes_bind; [|intros ?] | apply completes_call; intros ?; exact I | apply completes_call; intros ?; by vm_compute
    | progress case_decide | match goal with |- completes _ (if ?b then _ else _) => destruct b end
    | match goal with |- completes _ (match ?r with _ => _ end) => destruct r end ].
Ltac completes_solve := repeat completes_step.
