(* ===== verification/Posix.v ===== *)
(** The system-call interface the C code is written against: the constants of
    the Linux headers it uses, [struct stat], and the signature [posix] of the
    calls it issues.  Only the *shape* of the calls is here (arguments and
    results); what the kernel does is left to the monitor or to the concrete
    kernel of a theorem.  [answers_ok] collects the documented return-value
    contract of the calls (a [write] never reports more than it was given). *)

From S2P Require Export Prog.

(** * Constants of <errno.h>, <fcntl.h>, <sys/stat.h> (Linux) *)

Definition EPERM : Z := 1.
Definition ENOENT : Z := 2.
Definition EINTR : Z := 4.
Definition EIO : Z := 5.
Definition EBADF : Z := 9.
Definition ENOMEM : Z := 12.
Definition EACCES : Z := 13.
Definition EEXIST : Z := 17.
Definition EXDEV : Z := 18.
Definition ENXIO : Z := 6.
Definition ENOTDIR : Z := 20.
Definition EISDIR : Z := 21.
Definition EINVAL : Z := 22.
Definition EBUSY : Z := 16.
Definition ENAMETOOLONG : Z := 36.
Definition ENOTEMPTY : Z := 39.
Definition ENOSYS : Z := 38.
Definition ELOOP : Z := 40.
Definition EOPNOTSUPP : Z := 95.
Definition ENOTSUP : Z := 95.
Definition ESTALE : Z := 116.

Definition O_RDONLY : Z := 0x0.
Definition O_WRONLY : Z := 0x1.
Definition O_CREAT : Z := 0x40.
Definition O_EXCL : Z := 0x80.
Definition O_TRUNC : Z := 0x200.
Definition O_NONBLOCK : Z := 0x800.
Definition O_DIRECT : Z := 0x4000.
Definition O_DIRECTORY : Z := 0x10000.
Definition O_NOFOLLOW : Z := 0x20000.
Definition O_NOATIME : Z := 0x40000.
Definition O_CLOEXEC : Z := 0x80000.
Definition O_PATH : Z := 0x200000.

Definition AT_FDCWD : Z := -100.
Definition AT_SYMLINK_NOFOLLOW : Z := 0x100.
Definition AT_REMOVEDIR : Z := 0x200.

(** [d_type] of a directory entry. *)
Definition DT_UNKNOWN : Z := 0.
Definition DT_DIR : Z := 4.
Definition DT_REG : Z := 8.

Definition S_IFMT : Z := 0xF000.
Definition S_IFDIR : Z := 0x4000.
Definition S_IFREG : Z := 0x8000.
Definition S_IFLNK : Z := 0xA000.
Definition S_ISUID : Z := 0x800.
Definition S_ISGID : Z := 0x400.
Definition S_IRWXU : Z := 0x1C0.
Definition S_IRUSR : Z := 0x100.
Definition S_IWUSR : Z := 0x80.
Definition S_IXUSR : Z := 0x40.

(** Octal literals of the C source. *)
Definition o0777 : Z := 0x1FF.
Definition o07777 : Z := 0xFFF.
Definition o0755 : Z := 0x1ED.

Definition POSIX_FADV_RANDOM : Z := 1.
Definition POSIX_FADV_SEQUENTIAL : Z := 2.
Definition POSIX_FADV_WILLNEED : Z := 3.
Definition POSIX_FADV_DONTNEED : Z := 4.

Definition FIEMAP_FLAG_SYNC : Z := 0x1.
Definition FIEMAP_EXTENT_LAST : Z := 0x1.
Definition FIEMAP_EXTENT_DELALLOC : Z := 0x4.
Definition FIEMAP_EXTENT_UNWRITTEN : Z := 0x800.

Definition STDIN_FILENO : Z := 0.
Definition STDOUT_FILENO : Z := 1.

(** [(uid_t)-1] and [(gid_t)-1]. *)
Definition ID_NONE : Z := 2 ^ 32 - 1.

(** Bit-set operations as in C. *)
Notation "a '|.' b" := (Z.lor a b) (at level 50, left associativity).
Notation "a '&.' b" := (Z.land a b) (at level 40, left associativity).
Definition has_bits (flags mask : Z) : bool := negb (Z.land flags mask =? 0).

(** * Data *)

Record timespec := Timespec { tv_sec : Z; tv_nsec : Z }.
#[export] Instance timespec_eq_dec : EqDecision timespec.
Proof. solve_decision. Defined.

Record stat := Stat {
  st_dev : Z; st_ino : Z; st_mode : Z; st_nlink : Z; st_uid : Z; st_gid : Z;
  st_size : Z; st_blocks : Z; st_atim : timespec; st_mtim : timespec; st_ctim : timespec
}.
#[export] Instance stat_eq_dec : EqDecision stat.
Proof. solve_decision. Defined.

Definition S_ISDIR (m : Z) : bool := m &. S_IFMT =? S_IFDIR.
Definition S_ISREG (m : Z) : bool := m &. S_IFMT =? S_IFREG.
Definition S_ISLNK (m : Z) : bool := m &. S_IFMT =? S_IFLNK.

(** A call that fails reports an [errno]. *)
Inductive res (A : Type) := Ok (a : A) | Err (errno : Z).
Arguments Ok {A} a.
Arguments Err {A} errno.
#[export] Instance res_eq_dec `{EqDecision A} : EqDecision (res A).
Proof. solve_decision. Defined.

Definition is_ok {A} (r : res A) : bool := match r with Ok _ => true | Err _ => false end.

(** [struct fiemap_extent]. *)
Record fiemap_extent := FiemapExtent { fe_logical : Z; fe_length : Z; fe_flags : Z }.

(** * The calls *)

Inductive posix : Type -> Type :=
| open (path : bytes) (flags mode : Z) : posix (res Z)
| openat (dfd : Z) (name : bytes) (flags mode : Z) : posix (res Z)
| close (fd : Z) : posix (res unit)
| read (fd n : Z) : posix (res bytes)
| write (fd : Z) (data : bytes) : posix (res Z)
| pread (fd n off : Z) : posix (res bytes)
| pwrite (fd : Z) (data : bytes) (off : Z) : posix (res Z)
| fsync (fd : Z) : posix (res unit)
| sync : posix unit
| ftruncate (fd size : Z) : posix (res unit)
| fallocate (fd mode off len : Z) : posix (res unit)
| posix_fadvise (fd off len advice : Z) : posix Z
| fcntl_getfl (fd : Z) : posix (res Z)
| fcntl_setfl (fd flags : Z) : posix (res unit)
| fchown (fd uid gid : Z) : posix (res unit)
| fchownat (dfd : Z) (name : bytes) (uid gid flags : Z) : posix (res unit)
| fchmod (fd mode : Z) : posix (res unit)
| futimens (fd : Z) (at_ mt : timespec) : posix (res unit)
| utimensat (dfd : Z) (name : bytes) (at_ mt : timespec) (flags : Z) : posix (res unit)
| fstat (fd : Z) : posix (res stat)
| lstat (path : bytes) : posix (res stat)
| fstatat (dfd : Z) (name : bytes) (flags : Z) : posix (res stat)
| mkdir (path : bytes) (mode : Z) : posix (res unit)
| rename (old new : bytes) : posix (res unit)
| renameat (odfd : Z) (old : bytes) (ndfd : Z) (new : bytes) : posix (res unit)
| unlink (path : bytes) : posix (res unit)
| unlinkat (dfd : Z) (name : bytes) (flags : Z) : posix (res unit)
| seek_data (fd pos : Z) : posix (res Z)        (* lseek SEEK_DATA / SEEK_HOLE *)
| seek_hole (fd pos : Z) : posix (res Z)
| fiemap (fd start len flags count : Z) : posix (res (list fiemap_extent))
| copy_file_range (fd_in off_in fd_out off_out len : Z) : posix (res Z)
| fstatfs (fd : Z) : posix (res Z)              (* f_type *)
| fchmodat (dfd : Z) (name : bytes) (mode flags : Z) : posix (res unit)
| link (old new : bytes) : posix (res unit)
| symlinkat (target : bytes) (dfd : Z) (name : bytes) : posix (res unit)
| linkat (odfd : Z) (old : bytes) (ndfd : Z) (new : bytes) (flags : Z) : posix (res unit)
| getenv (name : bytes) : posix (option bytes)
| getpid : posix Z
| geteuid : posix Z
| getegid : posix Z
| getgroups : posix (list Z)
| umask (mask : Z) : posix unit
| uname : posix (res (bytes * bytes))
| getrlimit_nofile : posix (option Z)        (* None: unlimited or the call failed *)
| clock_gettime : posix timespec
| malloc (size : Z) : posix bool             (* did the allocation succeed? *)
| grow_pipe (fd : Z) : posix unit
| dup (fd : Z) : posix (res Z)
| fdopendir (fd : Z) : posix (res unit)      (* the stream is named by its descriptor *)
| readdir (fd : Z) : posix (res (option (bytes * Z)))   (* name and d_type; None at the end *)
| closedir (fd : Z) : posix unit
| getdents64 (fd n : Z) : posix (res bytes)
| readlinkat (dfd : Z) (name : bytes) (n : Z) : posix (res bytes)
| shutdown_requested : posix bool            (* the flag the signal handler sets *)
| eprintf (line : bytes) : posix unit.       (* a diagnostic on stderr *)

(** The return-value contract of the I/O calls (read(2), write(2), open(2)). *)
Definition answers_ok {R} (e : posix R) : R -> Prop :=
  match e in posix R return R -> Prop with
  | read _ n => fun r => match r with Ok d => zlen d <= Z.max 0 n | Err _ => True end
  | pread _ n _ => fun r => match r with Ok d => zlen d <= Z.max 0 n | Err _ => True end
  | write _ d => fun r => match r with Ok w => 0 <= w <= zlen d | Err _ => True end
  | pwrite _ d _ => fun r => match r with Ok w => 0 <= w <= zlen d | Err _ => True end
  | open _ _ _ => fun r => match r with Ok fd => 0 <= fd | Err e => 0 < e end
  | openat _ _ _ _ => fun r => match r with Ok fd => 0 <= fd | Err e => 0 < e end
  | copy_file_range _ _ _ _ n => fun r => match r with Ok w => 0 <= w <= n | Err _ => True end
  | getdents64 _ n | readlinkat _ _ n => fun r => match r with Ok d => zlen d <= Z.max 0 n | Err _ => True end
  | _ => fun _ => True
  end.

(** * Permission bits

    of a file, when they are known: writing to it or changing its owner may
    clear the set-id bits. *)
Definition strip (m : option Z) : option Z :=
  match m with Some m => if has_bits m (S_ISUID |. S_ISGID) then None else Some m | None => None end.

Lemma strip_idem m : strip (strip m) = strip m.
Proof. destruct m as [m|]; [|done]. simpl. destruct (has_bits m _) eqn:E; simpl; [done|]. by rewrite E. Qed.

(** * A permissive kernel

    For evaluating programs on concrete inputs: every call succeeds, the
    descriptors are numbered upwards, every path is a directory, no
    environment variable is set, and standard input is a byte stream. Each call
    is logged. *)
Record kstate := Kstate { k_next_fd : Z; k_stdin : bytes }.

Definition dir_stat : stat :=
  Stat 1 1 (S_IFDIR |. o0755) 2 0 0 4096 8 (Timespec 0 0) (Timespec 0 0) (Timespec 0 0).

Definition permissive (R : Type) (e : posix R) : kstate -> R * kstate :=
  match e in posix R return kstate -> R * kstate with
  | open _ _ _ | openat _ _ _ _ => fun k => (Ok (k_next_fd k), Kstate (k_next_fd k + 1) (k_stdin k))
  | read _ n => fun k =>
      (Ok (take (Z.to_nat n) (k_stdin k)), Kstate (k_next_fd k) (drop (Z.to_nat n) (k_stdin k)))
  | pread _ n _ => fun k => (Ok (replicate (Z.to_nat n) x00), k)
  | write _ d | pwrite _ d _ => fun k => (Ok (zlen d), k)
  | close _ | fsync _ | ftruncate _ _ | fallocate _ _ _ _ | fcntl_setfl _ _ | fchown _ _ _
  | fchownat _ _ _ _ _ | fchmod _ _ | futimens _ _ _ | utimensat _ _ _ _ _ | mkdir _ _
  | rename _ _ | renameat _ _ _ _ | unlink _ | unlinkat _ _ _ | symlinkat _ _ _
  | linkat _ _ _ _ _ | fchmodat _ _ _ _ | link _ _ => fun k => (Ok tt, k)
  | seek_data _ _ | seek_hole _ _ => fun k => (Err EINVAL, k)
  | fiemap _ _ _ _ _ => fun k => (Err EOPNOTSUPP, k)
  | copy_file_range _ _ _ _ n => fun k => (Ok n, k)
  | fstatfs _ => fun k => (Ok 0, k)
  | sync | umask _ | grow_pipe _ | closedir _ | eprintf _ => fun k => (tt, k)
  | dup _ => fun k => (Ok (k_next_fd k), Kstate (k_next_fd k + 1) (k_stdin k))
  | fdopendir _ => fun k => (Ok tt, k)
  | readdir _ => fun k => (Ok None, k)
  | getdents64 _ _ | readlinkat _ _ _ => fun k => (Ok [], k)
  | shutdown_requested => fun k => (false, k)
  | fcntl_getfl _ => fun k => (Ok 0, k)
  | fstat _ | lstat _ | fstatat _ _ _ => fun k => (Ok dir_stat, k)
  | getenv _ => fun k => (None, k)
  | posix_fadvise _ _ _ _ | getpid | geteuid | getegid => fun k => (0, k)
  | getgroups => fun k => ([], k)
  | uname => fun k => (Ok ([], []), k)
  | getrlimit_nofile => fun k => (Some 1024, k)
  | clock_gettime => fun k => (Timespec 0 0, k)
  | malloc _ => fun k => (true, k)
  end.

Definition event : Type := { R : Type & posix R }.
Definition ev {R} (e : posix R) : event := existT R e.

Definition logging (R : Type) (e : posix R) (k : kstate * list event) : R * (kstate * list event) :=
  let '(r, k') := permissive R e k.1 in (r, (k', k.2 ++ [ev e])).

(** Result, final state and log of a stateful program on that kernel. *)
Definition simulate {S A} (c : M posix S A) (s : S) (stdin : bytes) : option (A * S * list event) :=
  match run logging (c s) (Kstate 3 stdin, []) with
  | Some (a, s', (_, log)) => Some (a, s', log)
  | None => None
  end.
