(* ===== verification/Protocol.v ===== *)
(** The wire protocol (src/protocol.h, src/protocol.c): message types and
    flags, the little-endian cursor encoder [penc] and decoder [pdec], the
    blocking full read/write loops and the 13-byte frame header.

    Encoding and decoding are pure functions on cursors; the I/O loops are
    programs over [posix].  A loop's fuel is the number of bytes still to move
    plus [eintr], the number of interrupted calls tolerated; the theorems show
    that this many iterations are enough against every kernel that interrupts
    at most [eintr] times. *)

From S2P Require Export Posix.

(** * Constants (protocol.h) *)

Definition ECOPY_PROTO_VERSION : Z := 10.
Definition ECOPY_MAX_FRAME : Z := 16 * 1024 * 1024.

Inductive msg_type :=
| MSG_HELLO | MSG_HELLO_OK | MSG_MKDIR | MSG_STAT | MSG_STAT_RESP
| MSG_STAT_BULK | MSG_STAT_BULK_RESP | MSG_OPEN | MSG_WRITE | MSG_FTRUNCATE
| MSG_COMMIT | MSG_ABORT | MSG_SETMETA | MSG_UNLINK | MSG_STATUS | MSG_BYE
| MSG_PUTFILE | MSG_BARRIER | MSG_VERIFY_PATH | MSG_SYMLINK | MSG_LINK.
#[export] Instance msg_type_eq_dec : EqDecision msg_type.
Proof. solve_decision. Defined.

(** The code a message type has on the wire. *)
Definition msg_code (t : msg_type) : Z :=
  match t with
  | MSG_HELLO => 1 | MSG_HELLO_OK => 2 | MSG_MKDIR => 3 | MSG_STAT => 4
  | MSG_STAT_RESP => 5 | MSG_STAT_BULK => 6 | MSG_STAT_BULK_RESP => 7
  | MSG_OPEN => 8 | MSG_WRITE => 9 | MSG_FTRUNCATE => 10 | MSG_COMMIT => 11
  | MSG_ABORT => 12 | MSG_SETMETA => 13 | MSG_UNLINK => 14 | MSG_STATUS => 15
  | MSG_BYE => 16 | MSG_PUTFILE => 17 | MSG_BARRIER => 18 | MSG_VERIFY_PATH => 19
  | MSG_SYMLINK => 20 | MSG_LINK => 21
  end.

Definition all_msg_types : list msg_type :=
  [MSG_HELLO; MSG_HELLO_OK; MSG_MKDIR; MSG_STAT; MSG_STAT_RESP; MSG_STAT_BULK;
   MSG_STAT_BULK_RESP; MSG_OPEN; MSG_WRITE; MSG_FTRUNCATE; MSG_COMMIT; MSG_ABORT;
   MSG_SETMETA; MSG_UNLINK; MSG_STATUS; MSG_BYE; MSG_PUTFILE; MSG_BARRIER;
   MSG_VERIFY_PATH; MSG_SYMLINK; MSG_LINK].

(** The [switch] on a received type byte: [None] is the [default] branch. *)
Definition msg_of_code (c : Z) : option msg_type :=
  list_find (fun t => msg_code t = c) all_msg_types ≫= fun p => Some p.2.

Definition ECOPY_OPEN_SPARSE : Z := 0x1.
Definition ECOPY_OPEN_INPLACE : Z := 0x2.
Definition ECOPY_VERIFY_DIRECTORY : Z := 0x1.
Definition ECOPY_VERIFY_METADATA : Z := 0x2.
Definition ECOPY_VERIFY_PRESERVE_TIME : Z := 0x4.
Definition ECOPY_VERIFY_SEQUENTIAL : Z := 0x8.
Definition ECOPY_CAP_FALLOCATE : Z := 0x1.
Definition ECOPY_CAP_SPARSE : Z := 0x2.
Definition ECOPY_OPT_PRESERVE_TIMES : Z := 0x1.
Definition ECOPY_OPT_SERVER_BUFFERED : Z := 0x2.
Definition ECOPY_HDR_LEN : Z := 13.

(** * Encoder *)

(** [pe_buf] is the written part of the buffer, so [e->len] is its length. *)
Record penc := Penc { pe_cap : Z; pe_buf : bytes; pe_overflow : bool }.

Definition pe_len (e : penc) : Z := zlen (pe_buf e).
Definition penc_init (cap : Z) : penc := Penc cap [] false.

Definition penc_bytes (e : penc) (p : bytes) : penc :=
  if decide (pe_cap e < pe_len e + zlen p)
  then Penc (pe_cap e) (pe_buf e) true
  else Penc (pe_cap e) (pe_buf e ++ p) (pe_overflow e).

Definition penc_u8 (e : penc) (v : Z) : penc := penc_bytes e [byte.of_Z v].

Definition penc_u32 (e : penc) (v : Z) : penc :=
  penc_bytes e [byte.of_Z v; byte.of_Z (Z.shiftr v 8); byte.of_Z (Z.shiftr v 16);
                byte.of_Z (Z.shiftr v 24)].

(** [for (i = 0; i < 8; i++) b[i] = (uint8_t)(v >> (8 * i))] *)
Definition u64_bytes (v : Z) : bytes :=
  (fun i => byte.of_Z (Z.shiftr v (8 * Z.of_nat i))) <$> seq 0 8.

Definition penc_u64 (e : penc) (v : Z) : penc := penc_bytes e (u64_bytes v).
Definition penc_i64 (e : penc) (v : Z) : penc := penc_u64 e (u64 v).

Definition penc_str (e : penc) (s : bytes) : penc :=
  let n := u32 (zlen s) in
  penc_bytes (penc_u32 e n) (take (Z.to_nat n) s).

(** * Decoder *)

Record pdec := Pdec { pd_buf : bytes; pd_off : nat; pd_error : bool }.
Definition pd_len (d : pdec) : nat := length (pd_buf d).
Definition pdec_init (buf : bytes) : pdec := Pdec buf 0 false.

(** Decoding actions thread the cursor. *)
Definition D (A : Type) : Type := pdec -> A * pdec.
#[export] Instance D_mret : MRet D := fun A a d => (a, d).
#[export] Instance D_mbind : MBind D := fun A B f c d => let '(a, d) := c d in f a d.

(** [None] is the [-1] return. *)
Definition pdec_bytes (n : nat) : D (option bytes) := fun d =>
  if pd_error d || bool_decide (pd_len d < pd_off d + n)%nat
  then (None, Pdec (pd_buf d) (pd_off d) true)
  else (Some (take n (drop (pd_off d) (pd_buf d))), Pdec (pd_buf d) (pd_off d + n) (pd_error d)).

Definition byte_at (b : bytes) (i : nat) : Z := byte.unsigned (at_ b i).

Definition pdec_u8 : D Z := fun d =>
  let '(r, d) := pdec_bytes 1 d in
  (match r with None => 0 | Some b => byte_at b 0 end, d).

Definition pdec_u32 : D Z := fun d =>
  let '(r, d) := pdec_bytes 4 d in
  (match r with
   | None => 0
   | Some b => byte_at b 0 |. Z.shiftl (byte_at b 1) 8 |. Z.shiftl (byte_at b 2) 16
               |. Z.shiftl (byte_at b 3) 24
   end, d).

(** [for (i = 0; i < 8; i++) v |= ((uint64_t)b[i]) << (8 * i)] *)
Definition u64_of_bytes (b : bytes) : Z :=
  foldl (fun v i => Z.lor v (Z.shiftl (byte_at b i) (8 * Z.of_nat i))) 0 (seq 0 8).

Definition pdec_u64 : D Z := fun d =>
  let '(r, d) := pdec_bytes 8 d in
  (match r with None => 0 | Some b => u64_of_bytes b end, d).

Definition pdec_i64 : D Z := v ← pdec_u64; mret (i64 v).

(** The bytes copied to [out]; [None] is the [-1] return. *)
Definition pdec_str (outsz : Z) : D (option bytes) := fun d =>
  let '(n, d) := pdec_u32 d in
  if pd_error d || bool_decide (outsz <= n)
     || bool_decide (pd_len d < pd_off d + Z.to_nat n)%nat
  then (None, Pdec (pd_buf d) (pd_off d) true)
  else (Some (take (Z.to_nat n) (drop (pd_off d) (pd_buf d))),
        Pdec (pd_buf d) (pd_off d + Z.to_nat n) (pd_error d)).

(** [d.error], read by the handlers. *)
Definition pdec_error : D bool := fun d => (pd_error d, d).

(** * Blocking full read and write (protocol.c) *)

Section io.
(** How many interrupted calls a loop tolerates. *)
Context (eintr : nat).

(** The loop of [io_write_all], on the bytes still to be written; [true] is
    the [0] return, [false] the [-1]. *)
Fixpoint write_loop (fuel : nat) (fd : Z) (data : bytes) : prog posix bool :=
  match data with
  | [] => Ret true
  | _ :: _ =>
      match fuel with
      | O => Stuck
      | S fuel =>
          Sys (write fd data) (fun w =>
            match w with
            | Err e => if decide (e = EINTR) then write_loop fuel fd data else Ret false
            | Ok w => if decide (w = 0) then Ret false
                      else write_loop fuel fd (drop (Z.to_nat w) data)
            end)
      end
  end.

Definition io_write_all (fd : Z) (buf : bytes) : prog posix bool :=
  write_loop (length buf + eintr) fd buf.

(** The loop of [io_read_all]: [want] bytes still missing, [got] read. *)
Fixpoint read_loop (fuel : nat) (fd : Z) (want : nat) (got : bytes) : prog posix (option bytes) :=
  match want with
  | O => Ret (Some got)
  | S _ =>
      match fuel with
      | O => Stuck
      | S fuel =>
          Sys (read fd (Z.of_nat want)) (fun r =>
            match r with
            | Err e => if decide (e = EINTR) then read_loop fuel fd want got else Ret None
            | Ok [] => Ret None
            | Ok d => read_loop fuel fd (want - length d) (got ++ d)
            end)
      end
  end.

Definition io_read_all (fd : Z) (len : nat) : prog posix (option bytes) :=
  read_loop (len + eintr) fd len [].

(** ** Framing *)

Definition encode_header (type id plen : Z) : bytes :=
  [byte.of_Z type] ++ u64_bytes id ++
  [byte.of_Z plen; byte.of_Z (Z.shiftr plen 8); byte.of_Z (Z.shiftr plen 16);
   byte.of_Z (Z.shiftr plen 24)].

(** [if (cond && io_write_all(...) != 0) return -1;] for a segment. *)
Definition write_segment (fd : Z) (seg : bytes) : prog posix bool :=
  if decide (seg = []) then Ret true else io_write_all fd seg.

(** [payload] is the [plen] bytes the caller passes. *)
Definition frame_write (fd type id : Z) (payload : bytes) : prog posix bool :=
  ok ← io_write_all fd (encode_header type id (u32 (zlen payload)));
  if negb ok then mret false else
  write_segment fd payload.

Definition frame_write_data (fd id file_id offset : Z) (data : bytes) : prog posix bool :=
  let plen := u32 (16 + zlen data) in
  let prefix := u64_bytes file_id ++ u64_bytes (u64 offset) in
  ok ← io_write_all fd (encode_header (msg_code MSG_WRITE) id plen);
  if negb ok then mret false else
  ok ← io_write_all fd prefix;
  if negb ok then mret false else
  write_segment fd data.

Definition frame_write_parts (fd type id : Z) (head data : bytes) : prog posix bool :=
  let plen := u32 (zlen head + zlen data) in
  ok ← io_write_all fd (encode_header type id plen);
  if negb ok then mret false else
  ok ← write_segment fd head;
  if negb ok then mret false else
  write_segment fd data.

(** Type, request id and payload length of the next frame. *)
Definition frame_read_header (fd : Z) : prog posix (option (Z * Z * Z)) :=
  r ← io_read_all fd (Z.to_nat ECOPY_HDR_LEN);
  match r with
  | None => mret None
  | Some hdr =>
      mret (Some (byte_at hdr 0,
                  u64_of_bytes (drop 1 hdr),
                  byte_at hdr 9 |. Z.shiftl (byte_at hdr 10) 8
                  |. Z.shiftl (byte_at hdr 11) 16 |. Z.shiftl (byte_at hdr 12) 24))
  end.
End io.

(** * Codec lemmas *)

Definition u32_bytes (v : Z) : bytes :=
  [byte.of_Z v; byte.of_Z (Z.shiftr v 8); byte.of_Z (Z.shiftr v 16); byte.of_Z (Z.shiftr v 24)].

#[global] Arguments u32_bytes : simpl never.
#[global] Arguments u64_bytes : simpl never.

Lemma u32_bytes_le v : u32_bytes v = le_split 4 v.
Proof.
  unfold u32_bytes. cbv [le_split]. by rewrite !Z.shiftr_shiftr by lia.
Qed.

Lemma u64_bytes_le v : u64_bytes v = le_split 8 v.
Proof.
  unfold u64_bytes. cbn [seq fmap list_fmap]. cbv [le_split].
  rewrite !Z.shiftr_shiftr by lia. rewrite Z.shiftr_0_r. done.
Qed.

Lemma u32_bytes_length v : length (u32_bytes v) = 4%nat.
Proof. done. Qed.
Lemma u64_bytes_length v : length (u64_bytes v) = 8%nat.
Proof. done. Qed.

Ltac le_lor :=
  cbv [le_combine]; cbn [at_ lookup list_lookup default];
  rewrite ?Z.shiftl_lor, ?Z.shiftl_shiftl, ?Z.shiftl_0_l, ?Z.lor_0_r, ?Z.lor_0_l, ?Z.shiftl_0_r
    by lia.

Lemma u32_of_bytes_le b0 b1 b2 b3 :
  byte.unsigned b0 |. Z.shiftl (byte.unsigned b1) 8 |. Z.shiftl (byte.unsigned b2) 16
    |. Z.shiftl (byte.unsigned b3) 24 = le_combine [b0; b1; b2; b3].
Proof. le_lor. rewrite <- !Z.lor_assoc. done. Qed.

Lemma u64_of_bytes_le b rest : length b = 8%nat -> u64_of_bytes (b ++ rest) = le_combine b.
Proof.
  intros Hb. do 8 (destruct b as [|? b]; [done|]). destruct b; [|done].
  unfold u64_of_bytes, byte_at. cbn [seq foldl app]. unfold at_.
  cbn [lookup list_lookup default].
  le_lor. rewrite <- !Z.lor_assoc. done.
Qed.

(** Stdlib's [nat] round trip of the byte codec. *)
Lemma u32_bytes_combine v : le_combine (u32_bytes v) = u32 v.
Proof. rewrite u32_bytes_le. apply (le_combine_split 4). Qed.
Lemma u64_bytes_combine v : le_combine (u64_bytes v) = u64 v.
Proof. rewrite u64_bytes_le. apply (le_combine_split 8). Qed.

(** ** Encoders append a word *)

(** [emits f w]: where it fits, [f] appends exactly [w]. *)
Definition emits (f : penc -> penc) (w : bytes) : Prop :=
  forall cap buf ov, zlen buf + zlen w <= cap ->
    f (Penc cap buf ov) = Penc cap (buf ++ w) ov.

Lemma emits_bytes p : emits (fun e => penc_bytes e p) p.
Proof. intros cap buf ov H. unfold penc_bytes, pe_len. simpl. by rewrite decide_False by lia. Qed.

Lemma emits_u8 v : emits (fun e => penc_u8 e v) [byte.of_Z v].
Proof. apply emits_bytes. Qed.
Lemma emits_u32 v : emits (fun e => penc_u32 e v) (u32_bytes v).
Proof. apply emits_bytes. Qed.
Lemma emits_u64 v : emits (fun e => penc_u64 e v) (u64_bytes v).
Proof. apply emits_bytes. Qed.
Lemma emits_i64 v : emits (fun e => penc_i64 e v) (u64_bytes (u64 v)).
Proof. apply emits_bytes. Qed.

Lemma emits_comp f1 f2 w1 w2 :
  emits f1 w1 -> emits f2 w2 -> emits (fun e => f2 (f1 e)) (w1 ++ w2).
Proof.
  intros H1 H2 cap buf ov H. rewrite zlen_app in H. pose proof (zlen_nonneg w2).
  rewrite H1 by lia. rewrite H2 by (rewrite zlen_app; lia). by rewrite (assoc_L (++)).
Qed.

Definition str_bytes (s : bytes) : bytes := u32_bytes (zlen s) ++ s.

Lemma emits_str s : zlen s < 2 ^ 32 -> emits (fun e => penc_str e s) (str_bytes s).
Proof.
  intros Hs. unfold penc_str. pose proof (zlen_nonneg s).
  rewrite (u32_small (zlen s)) by (unfold is_u32; lia).
  rewrite take_ge by (unfold zlen; lia).
  apply (emits_comp (fun e => penc_u32 e (zlen s)) (fun e => penc_bytes e s)).
  - apply emits_u32.
  - apply emits_bytes.
Qed.

(** ** Decoders consume a word *)

(** [reads c w a]: on a cursor standing before [w], [c] consumes exactly [w]
    and returns [a], whatever surrounds it. *)
Definition reads {A} (c : D A) (w : bytes) (a : A) : Prop :=
  forall pre rest,
    c (Pdec (pre ++ w ++ rest) (length pre) false) =
    (a, Pdec (pre ++ w ++ rest) (length pre + length w) false).

Lemma reads_ret {A} (a : A) : reads (mret a) [] a.
Proof. intros pre rest. unfold mret, D_mret. simpl. by rewrite Nat.add_0_r. Qed.

Lemma reads_bind {A B} (c : D A) (f : A -> D B) w1 w2 a b :
  reads c w1 a -> reads (f a) w2 b -> reads (c ≫= f) (w1 ++ w2) b.
Proof.
  intros H1 H2 pre rest. unfold mbind, D_mbind.
  rewrite <- (assoc_L (++)). rewrite H1.
  specialize (H2 (pre ++ w1) rest). rewrite <- (assoc_L (++)) in H2.
  rewrite length_app in H2. rewrite H2. rewrite !length_app. do 2 f_equal. lia.
Qed.

Lemma reads_error : reads pdec_error [] false.
Proof. intros pre rest. unfold pdec_error. simpl. by rewrite Nat.add_0_r. Qed.

Lemma pdec_bytes_at n w pre rest :
  length w = n ->
  pdec_bytes n (Pdec (pre ++ w ++ rest) (length pre) false) =
  (Some w, Pdec (pre ++ w ++ rest) (length pre + length w) false).
Proof.
  intros <-. unfold pdec_bytes, pd_len. simpl.
  rewrite bool_decide_eq_false_2 by (rewrite !length_app; lia).
  rewrite drop_app_length, take_app_length. done.
Qed.

Lemma reads_bytes w : reads (pdec_bytes (length w)) w (Some w).
Proof. intros pre rest. by apply pdec_bytes_at. Qed.

Lemma reads_u8 v : reads pdec_u8 [byte.of_Z v] (u8 v).
Proof.
  intros pre rest. unfold pdec_u8. rewrite pdec_bytes_at by done.
  unfold byte_at, at_. simpl. by rewrite byte.unsigned_of_Z.
Qed.

Lemma reads_u32 v : reads pdec_u32 (u32_bytes v) (u32 v).
Proof.
  intros pre rest. unfold pdec_u32. rewrite pdec_bytes_at by done.
  rewrite <- u32_bytes_combine. unfold u32_bytes. by rewrite <- u32_of_bytes_le.
Qed.

Lemma reads_u64 v : reads pdec_u64 (u64_bytes v) (u64 v).
Proof.
  intros pre rest. unfold pdec_u64. rewrite pdec_bytes_at by done.
  pose proof (u64_of_bytes_le (u64_bytes v) [] eq_refl) as H. rewrite app_nil_r in H.
  by rewrite H, u64_bytes_combine.
Qed.

Lemma u64_u64 v : u64 (u64 v) = u64 v.
Proof. unfold u64. by rewrite Z.mod_mod. Qed.

Lemma reads_i64 v : is_i64 v -> reads pdec_i64 (u64_bytes (u64 v)) v.
Proof.
  intros Hv. unfold pdec_i64. rewrite <- (app_nil_r (u64_bytes _)).
  eapply reads_bind; [apply reads_u64|]. rewrite u64_u64, i64_u64 by done. apply reads_ret.
Qed.

Lemma reads_str s outsz :
  zlen s < outsz -> zlen s < 2 ^ 32 -> reads (pdec_str outsz) (str_bytes s) (Some s).
Proof.
  intros Ho Hs pre rest. unfold pdec_str, str_bytes. pose proof (zlen_nonneg s).
  rewrite <- (assoc_L (++)). rewrite (reads_u32 (zlen s) pre (s ++ rest)).
  rewrite u32_small by (unfold is_u32; lia).
  cbn [pd_error pd_off pd_buf orb]. unfold pd_len. cbn [pd_buf].
  rewrite bool_decide_eq_false_2 by lia.
  rewrite bool_decide_eq_false_2 by (rewrite !length_app, ?u32_bytes_length; unfold zlen; lia).
  cbn [orb]. unfold zlen. rewrite Nat2Z.id.
  replace (drop _ _) with (s ++ rest).
  - rewrite take_app_length. do 2 f_equal. rewrite length_app, u32_bytes_length. lia.
  - rewrite (assoc_L (++)), drop_app_ge by (rewrite ?length_app, u32_bytes_length; lia).
    rewrite length_app, u32_bytes_length, Nat.sub_diag. done.
Qed.

(** * The I/O loops over a channel

    [Sink m fd] is what a writer relies on: in a live ghost state a write of
    [fd] is permitted, accepts a positive number of the bytes offered or is
    interrupted, at most [sk_budget] times, and changes nothing else
    ([sk_same]).  [Source m fd] is the same for a reader: a read delivers a
    non-empty prefix of what is in the channel, or end of file when it is
    empty.  The loops and frames are verified against these two interfaces,
    and every monitor with a channel is an instance. *)

Class Sink (m : monitor posix) (fd : Z) := {
  sk_live : mstate m -> Prop;
  sk_out : mstate m -> bytes;
  sk_budget : mstate m -> nat;
  sk_same : relation (mstate m);
  sk_pre : PreOrder sk_same;
  sk_write : forall g d, sk_live g ->
    mpre m g (write fd d) /\
    forall r, madm m g (write fd d) r ->
      let g' := mupd m g (write fd d) r in
      sk_live g' /\ sk_same g g' /\
      match r with
      | Ok w => 0 < w <= zlen d /\ sk_out g' = sk_out g ++ take (Z.to_nat w) d /\ sk_budget g' = sk_budget g
      | Err e => e = EINTR /\ sk_out g' = sk_out g /\ sk_budget g = S (sk_budget g')
      end
}.
#[export] Existing Instance sk_pre.

Class Source (m : monitor posix) (fd : Z) := {
  sr_live : mstate m -> Prop;
  sr_in : mstate m -> bytes;
  sr_budget : mstate m -> nat;
  sr_same : relation (mstate m);
  sr_pre : PreOrder sr_same;
  sr_read : forall g n, sr_live g ->
    mpre m g (read fd n) /\
    forall r, madm m g (read fd n) r ->
      let g' := mupd m g (read fd n) r in
      sr_live g' /\ sr_same g g' /\
      match r with
      | Ok d => sr_in g = d ++ sr_in g' /\ zlen d <= n /\ (d = [] -> sr_in g = []) /\ sr_budget g' = sr_budget g
      | Err e => e = EINTR /\ sr_in g' = sr_in g /\ sr_budget g = S (sr_budget g')
      end
}.
#[export] Existing Instance sr_pre.

Section sink.
Context {m : monitor posix} {fd : Z} `{!Sink m fd}.

(** [data] has gone out, and nothing else has changed. *)
Definition sent (data : bytes) (g g' : mstate m) : Prop :=
  sk_live g' /\ sk_same g g' /\ sk_out g' = sk_out g ++ data /\ (sk_budget g' <= sk_budget g)%nat.

Lemma sent_nil g : sk_live g -> sent [] g g.
Proof. intros. split_and!; [done|done|by rewrite app_nil_r|lia]. Qed.
Lemma sent_trans d1 d2 g1 g2 g3 : sent d1 g1 g2 -> sent d2 g2 g3 -> sent (d1 ++ d2) g1 g3.
Proof.
  intros (_ & Hs1 & Ho1 & Hb1) (Hl & Hs2 & Ho2 & Hb2).
  split_and!; [done|by etrans|by rewrite Ho2, Ho1, (assoc_L (++))|lia].
Qed.

Lemma write_loop_sink fuel data g :
  sk_live g -> (length data + sk_budget g <= fuel)%nat ->
  wp m (write_loop fuel fd data) g (fun g' ok => ok = true /\ sent data g g').
Proof.
  revert data g. induction fuel as [|fuel IH]; intros [|x data] g Hl Hf; simpl.
  1,3: split; [done|by apply sent_nil].
  - simpl in Hf. lia.
  - destruct (sk_write g (x :: data) Hl) as [Hp Ha]. split; [done|]. intros r Hr.
    destruct (Ha r Hr) as (Hl' & Hs & H). clear Ha. destruct r as [w|e].
    + destruct H as (Hw & Ho & Hb). rewrite decide_False by lia.
      eapply wp_mono; [apply (IH (drop (Z.to_nat w) (x :: data))); [done|rewrite length_drop; simpl in *; lia]|].
      intros g' ok (-> & H). split; [done|]. rewrite <- (take_drop (Z.to_nat w) (x :: data)).
      eapply sent_trans; [|exact H]. split_and!; [done|done|done|lia].
    + destruct H as (-> & Ho & Hb). rewrite decide_True by done.
      eapply wp_mono; [apply IH; [done|simpl in *; lia]|]. intros g' ok (-> & H). split; [done|].
      rewrite <- (app_nil_l (x :: data)). eapply sent_trans; [|exact H]. split_and!; [done|done|by rewrite app_nil_r|lia].
Qed.

Context (eintr : nat).

Lemma io_write_all_sink data g :
  sk_live g -> (sk_budget g <= eintr)%nat ->
  wp m (io_write_all eintr fd data) g (fun g' ok => ok = true /\ sent data g g').
Proof. intros. apply write_loop_sink; [done|lia]. Qed.

Lemma write_segment_sink data g :
  sk_live g -> (sk_budget g <= eintr)%nat ->
  wp m (write_segment eintr fd data) g (fun g' ok => ok = true /\ sent data g g').
Proof.
  intros. unfold write_segment. case_decide; [|by apply io_write_all_sink].
  subst. split; [done|by apply sent_nil].
Qed.

(** [write_seq] steps through the [if (...) return -1] chains of the frame
    writers. *)
Ltac write_seq lem :=
  apply wp_bind; (eapply wp_mono; [apply lem; [by eauto|lia]|]);
  let H := fresh "H" in intros ? ok [-> H]; pose proof H as (? & _ & _ & ?); cbn [negb].

Lemma frame_write_sink type id payload g :
  sk_live g -> (sk_budget g <= eintr)%nat -> zlen payload < 2 ^ 32 ->
  wp m (frame_write eintr fd type id payload) g
    (fun g' ok => ok = true /\ sent (encode_header type id (zlen payload) ++ payload) g g').
Proof.
  intros Hl Hb Hp. unfold frame_write. pose proof (zlen_nonneg payload).
  rewrite u32_small by (unfold is_u32; lia). write_seq io_write_all_sink.
  eapply wp_mono; [apply write_segment_sink; [done|lia]|]. intros g' ok (-> & H'). split; [done|].
  by eapply sent_trans; [eassumption|exact H'].
Qed.

Lemma frame_write_data_sink id file_id offset data g :
  sk_live g -> (sk_budget g <= eintr)%nat -> 16 + zlen data < 2 ^ 32 ->
  wp m (frame_write_data eintr fd id file_id offset data) g
    (fun g' ok => ok = true /\
       sent (encode_header (msg_code MSG_WRITE) id (16 + zlen data)
               ++ (u64_bytes file_id ++ u64_bytes (u64 offset)) ++ data) g g').
Proof.
  intros Hl Hb Hp. unfold frame_write_data. pose proof (zlen_nonneg data).
  rewrite u32_small by (unfold is_u32; lia).
  write_seq io_write_all_sink. write_seq io_write_all_sink.
  eapply wp_mono; [apply write_segment_sink; [done|lia]|]. intros g' ok (-> & H'). split; [done|].
  by eapply sent_trans; [eassumption|eapply sent_trans; [eassumption|exact H']].
Qed.

Lemma frame_write_parts_sink type id head data g :
  sk_live g -> (sk_budget g <= eintr)%nat -> zlen head + zlen data < 2 ^ 32 ->
  wp m (frame_write_parts eintr fd type id head data) g
    (fun g' ok => ok = true /\ sent (encode_header type id (zlen (head ++ data)) ++ head ++ data) g g').
Proof.
  intros Hl Hb Hp. unfold frame_write_parts. rewrite zlen_app.
  pose proof (zlen_nonneg data). pose proof (zlen_nonneg head).
  rewrite u32_small by (unfold is_u32; lia).
  write_seq io_write_all_sink. write_seq write_segment_sink.
  eapply wp_mono; [apply write_segment_sink; [done|lia]|]. intros g' ok (-> & H'). split; [done|].
  by eapply sent_trans; [eassumption|eapply sent_trans; [eassumption|exact H']].
Qed.
End sink.

Section source.
Context {m : monitor posix} {fd : Z} `{!Source m fd}.

(** [data] has been taken, and nothing else has changed. *)
Definition received (data : bytes) (g g' : mstate m) : Prop :=
  sr_live g' /\ sr_same g g' /\ sr_in g = data ++ sr_in g' /\ (sr_budget g' <= sr_budget g)%nat.

Lemma received_nil g : sr_live g -> received [] g g.
Proof. intros. split_and!; [done|done|done|lia]. Qed.
Lemma received_trans d1 d2 g1 g2 g3 : received d1 g1 g2 -> received d2 g2 g3 -> received (d1 ++ d2) g1 g3.
Proof.
  intros (_ & Hs1 & Ho1 & Hb1) (Hl & Hs2 & Ho2 & Hb2).
  split_and!; [done|by etrans|by rewrite Ho1, Ho2, (assoc_L (++))|lia].
Qed.

(** The loop returns the first [want] bytes, or [None] when there are not so
    many. *)
Lemma read_loop_source fuel want got g :
  sr_live g -> (want + sr_budget g <= fuel)%nat ->
  wp m (read_loop fuel fd want got) g (fun g' r =>
    if decide (want <= length (sr_in g))%nat
    then r = Some (got ++ take want (sr_in g)) /\ received (take want (sr_in g)) g g'
    else r = None).
Proof.
  revert want got g. induction fuel as [|fuel IH]; intros [|want] got g Hl Hf; cbn [read_loop wp].
  1,3: rewrite decide_True by lia; rewrite take_0, app_nil_r; split; [done|by apply received_nil].
  - lia.
  - destruct (sr_read g (Z.of_nat (S want)) Hl) as [Hp Ha]. split; [done|]. intros r Hr.
    destruct (Ha r Hr) as (Hl' & Hs & H). clear Ha. set (g1 := mupd m g _ r) in *. destruct r as [d|e].
    + destruct H as (Hin & Hn & Hnil & Hb). rewrite Hin. destruct d as [|x d].
      { rewrite Hnil in Hin by done. rewrite <- Hin. by case_decide; [simpl in *; lia|]. }
      unfold zlen in Hn. assert (0 < length (x :: d))%nat by (simpl; lia).
      assert (Hd : take (S want) ((x :: d) ++ sr_in g1) = (x :: d) ++ take (S want - length (x :: d)) (sr_in g1)).
      { rewrite take_app_ge by lia. done. }
      eapply wp_mono; [apply IH; [done|lia]|]. intros g' r'.
      rewrite length_app. repeat case_decide; try done; try lia. intros [-> H'].
      split; [by rewrite Hd, (assoc_L (++))|]. rewrite Hd. eapply received_trans; [|exact H'].
      split_and!; [done|done|done|lia].
    + destruct H as (-> & Hin & Hb). rewrite decide_True by done.
      eapply wp_mono; [apply IH; [done|lia]|]. intros g' r'. rewrite Hin. case_decide; [|done].
      intros [-> H']. split; [done|]. rewrite <- (app_nil_l (take _ _)). eapply received_trans; [|exact H'].
      split_and!; [done|done|done|lia].
Qed.

Context (eintr : nat).

Lemma io_read_all_source w rest g :
  sr_live g -> (sr_budget g <= eintr)%nat -> sr_in g = w ++ rest ->
  wp m (io_read_all eintr fd (length w)) g (fun g' r => r = Some w /\ received w g g').
Proof.
  intros Hl Hb Hin. eapply wp_mono; [apply read_loop_source; [done|lia]|]. intros g' r.
  rewrite Hin, length_app, decide_True by lia. by rewrite take_app_length.
Qed.

(** A short stream makes [io_read_all] report end of file. *)
Lemma io_read_all_eof n g :
  sr_live g -> (sr_budget g <= eintr)%nat -> (length (sr_in g) < n)%nat ->
  wp m (io_read_all eintr fd n) g (fun _ r => r = None).
Proof.
  intros Hl Hb Hin. eapply wp_mono; [apply read_loop_source; [done|lia]|]. intros g' r.
  case_decide; [lia|done].
Qed.
End source.

(** ** Frames *)

Lemma encode_header_eq type id plen :
  encode_header type id plen = [byte.of_Z type] ++ u64_bytes id ++ u32_bytes plen.
Proof. done. Qed.

Lemma encode_header_length type id plen : length (encode_header type id plen) = 13%nat.
Proof. done. Qed.

Lemma header_fields type id plen :
  is_u8 type -> is_u64 id -> is_u32 plen ->
  let hdr := encode_header type id plen in
  byte_at hdr 0 = type /\ u64_of_bytes (drop 1 hdr) = id /\
  byte_at hdr 9 |. Z.shiftl (byte_at hdr 10) 8 |. Z.shiftl (byte_at hdr 11) 16
    |. Z.shiftl (byte_at hdr 12) 24 = plen.
Proof.
  intros Ht Hi Hp hdr. subst hdr. rewrite encode_header_eq. split_and!.
  - unfold byte_at, at_. simpl. rewrite byte.unsigned_of_Z. by apply u8_small.
  - change (u64_of_bytes (u64_bytes id ++ u32_bytes plen) = id).
    rewrite u64_of_bytes_le by done. rewrite u64_bytes_combine. by apply u64_small.
  - transitivity (u32 plen); [|by apply u32_small].
    rewrite <- u32_bytes_combine. unfold u32_bytes. by rewrite <- u32_of_bytes_le.
Qed.

Lemma frame_read_header_source `{!Source m fd} eintr type id plen rest g :
  sr_live g -> (sr_budget g <= eintr)%nat -> sr_in g = encode_header type id plen ++ rest ->
  is_u8 type -> is_u64 id -> is_u32 plen ->
  wp m (frame_read_header eintr fd) g
    (fun g' r => r = Some (type, id, plen) /\ received (encode_header type id plen) g g').
Proof.
  intros Hl Hb Hin Ht Hi Hp. unfold frame_read_header. apply wp_bind.
  change (Z.to_nat ECOPY_HDR_LEN) with (length (encode_header type id plen)).
  eapply wp_mono; [by eapply io_read_all_source|]. intros g' r [-> H].
  destruct (header_fields type id plen Ht Hi Hp) as (E1 & E2 & E3).
  cbv zeta in *. rewrite E1, E2, E3. done.
Qed.

(** ** A pipe

    A pipe holding a byte stream, the simplest channel: both ends of it, and
    the number of interruptions still to come. *)
Definition pipe_adm (g : bytes * nat) R (e : posix R) : R -> Prop :=
  match e in posix R return R -> Prop with
  | write _ d => fun r =>
      match r with Ok w => 0 < w <= zlen d | Err e => e = EINTR /\ (0 < g.2)%nat end
  | read _ n => fun r =>
      match r with
      | Ok d => d `prefix_of` g.1 /\ zlen d <= n /\ (d = [] -> g.1 = [])
      | Err e => e = EINTR /\ (0 < g.2)%nat
      end
  | _ => fun _ => False
  end.

Definition pipe_upd (g : bytes * nat) R (e : posix R) : R -> bytes * nat :=
  match e in posix R return R -> bytes * nat with
  | write _ d => fun r =>
      match r with Ok w => (g.1 ++ take (Z.to_nat w) d, g.2) | Err _ => (g.1, pred g.2) end
  | read _ n => fun r =>
      match r with Ok d => (drop (length d) g.1, g.2) | Err _ => (g.1, pred g.2) end
  | _ => fun _ => g
  end.

Definition pipe_pre (g : bytes * nat) R (e : posix R) : Prop :=
  match e with read _ _ | write _ _ => True | _ => False end.

Definition pipe : monitor posix := Monitor (bytes * nat) pipe_pre pipe_adm pipe_upd False.

Lemma any_preorder {A} : PreOrder (fun _ _ : A => True).
Proof. by split. Qed.

#[local] Obligation Tactic := idtac.
#[export] Program Instance pipe_sink fd : Sink pipe fd := {|
  sk_live := fun _ => True; sk_out := fst; sk_budget := snd; sk_same := fun _ _ => True; sk_pre := any_preorder |}.
Next Obligation.
  intros fd [s b] d _. split; [done|]. intros [w|e] Hr; simpl in *; [by destruct Hr; split_and!|].
  destruct Hr as [-> ?]. split_and!; [done|done|done|done|lia].
Qed.

#[export] Program Instance pipe_source fd : Source pipe fd := {|
  sr_live := fun _ => True; sr_in := fst; sr_budget := snd; sr_same := fun _ _ => True; sr_pre := any_preorder |}.
Next Obligation.
  intros fd [s b] n _. split; [done|]. intros [d|e] Hr; simpl in *.
  - destruct Hr as ([rest ->] & Hn & Hnil). rewrite drop_app_length. by split_and!.
  - destruct Hr as [-> ?]. split_and!; [done|done|done|done|lia].
Qed.

(** C12.  A frame survives the channel: whatever pieces the kernel accepts and
    delivers, and however it interrupts (within the tolerated number), writing
    a frame and reading it back with [frame_read_header] and [io_read_all]
    terminates, returns the same type, request id and payload, and leaves in
    the channel exactly what followed the frame. *)
Theorem frame_roundtrip eintr fd type id payload b :
  (b <= eintr)%nat -> is_u8 type -> is_u64 id -> zlen payload < 2 ^ 32 ->
  wp pipe
    (ok ← frame_write eintr fd type id payload;
     h ← frame_read_header eintr fd;
     p ← io_read_all eintr fd (length payload);
     mret (ok, h, p)) ([], b)
    (fun g r => r = (true, Some (type, id, zlen payload), Some payload) /\ g.1 = []).
Proof.
  intros Hb Ht Hi Hp. apply wp_bind.
  eapply wp_mono; [by apply frame_write_sink|]. intros [s n] ok (-> & _ & _ & Hs & Hn). simpl in Hs, Hn. subst s.
  apply wp_bind. eapply wp_mono; [eapply frame_read_header_source; [done|simpl; lia|done|done|done|]|].
  { split; [apply zlen_nonneg|done]. }
  intros [s n'] h (-> & _ & _ & Hs & Hn'). simpl in Hs, Hn'. injection Hs as <-. apply wp_bind.
  eapply wp_mono; [eapply (io_read_all_source eintr payload []); [done|simpl; lia|by rewrite app_nil_r]|].
  intros [s n''] p (-> & _ & _ & Hs & _). simpl in Hs. split; [done|]. simpl.
  apply (app_inv_head payload). by rewrite <- Hs, app_nil_r.
Qed.

Lemma frame_roundtrip_witness :
  wp pipe
    (ok ← frame_write 3 1 17 5 (str "hello");
     h ← frame_read_header 3 1;
     p ← io_read_all 3 1 5;
     mret (ok, h, p)) ([], 2%nat)
    (fun g r => r = (true, Some (17, 5, 5), Some (str "hello")) /\ g.1 = []).
Proof.
  apply (frame_roundtrip 3 1 17 5 (str "hello") 2);
    [lia|by vm_compute|by vm_compute|by vm_compute].
Defined.
