(* ===== verification/EnvUtil.v ===== *)
(** Numbers from text: the parts of strtol(3) and strtoull(3) the program
    uses, src/env_util.c, and the numeric command-line arguments of
    src/main.c (those of src/edelete.c are in Edelete.v). *)

From S2P Require Export Posix.

(** * strtol / strtoull, base 10 *)

Definition LONG_MAX : Z := 2 ^ 63 - 1.
Definition LONG_MIN : Z := - 2 ^ 63.
Definition ULLONG_MAX : Z := 2 ^ 64 - 1.

(** isspace(3) in the C locale. *)
Definition isspace (b : byte) : bool :=
  let c := byte.unsigned b in (c =? 32) || ((9 <=? c) && (c <=? 13)).
Definition isdigit (b : byte) : bool :=
  let c := byte.unsigned b in (48 <=? c) && (c <=? 57).
Definition digit (b : byte) : Z := byte.unsigned b - 48.

Fixpoint skip_spaces (s : bytes) : bytes :=
  match s with b :: s' => if isspace b then skip_spaces s' else s | [] => [] end.

(** The optional sign. *)
Definition sign (s : bytes) : bool * bytes :=
  match s with
  | b :: s' => if decide (b = x2d) then (true, s') else if decide (b = x2b) then (false, s') else (false, s)
  | [] => (false, [])
  end.

(** The longest run of digits: its value and what follows. *)
Fixpoint digits (acc : Z) (s : bytes) : Z * bytes :=
  match s with
  | b :: s' => if isdigit b then digits (acc * 10 + digit b) s' else (acc, s)
  | [] => (acc, [])
  end.

Definition starts_digit (s : bytes) : bool := match s with b :: _ => isdigit b | [] => false end.

(** Result, the rest of the string ([*end]) and whether [errno] is set. *)
Record strto := Strto { st_val : Z; st_end : bytes; st_erange : bool }.

Definition strtol (s : bytes) : strto :=
  let '(neg, t) := sign (skip_spaces s) in
  if starts_digit t then
    let '(v, e) := digits 0 t in
    let v := if neg then - v else v in
    if decide (LONG_MAX < v) then Strto LONG_MAX e true
    else if decide (v < LONG_MIN) then Strto LONG_MIN e true
    else Strto v e false
  else Strto 0 s false.

Definition strtoull (s : bytes) : strto :=
  let '(neg, t) := sign (skip_spaces s) in
  if starts_digit t then
    let '(v, e) := digits 0 t in
    if decide (ULLONG_MAX < v) then Strto ULLONG_MAX e true
    else Strto (if neg then u64 (- v) else v) e false
  else Strto 0 s false.

(** * env_util.c *)

(** [getenv] is the argument: [None] is an unset variable. *)
Definition env_int_or_default (env : option bytes) (defval minval maxval : Z) : Z :=
  match env with
  | None | Some [] => defval
  | Some s =>
      let r := strtol s in
      if st_erange r || bool_decide (st_end r = s) || negb (bool_decide (st_end r = [])) then defval
      else if decide (st_val r < minval) then minval
      else if decide (maxval < st_val r) then maxval
      else st_val r
  end.

Definition env_flag_set (env : option bytes) : bool :=
  match env with
  | None | Some [] => false
  | Some s => negb (bool_decide (s = str "0"))
  end.

(** * main.c: parse_id_arg *)

Definition parse_id_arg (s : bytes) : option Z :=
  if decide (s = []) then None else
  let r := strtoull s in
  if st_erange r || bool_decide (st_end r = s) || negb (bool_decide (st_end r = []))
     || bool_decide (4294967294 < st_val r) then None
  else Some (u32 (st_val r)).

(** * Theorems *)

(** Base-10 digit strings. *)
Definition is_digits (s : bytes) : Prop := s <> [] /\ Forall (fun b => isdigit b = true) s.
Definition value (s : bytes) : Z := foldl (fun a b => a * 10 + digit b) 0 s.

Lemma digits_all acc s : Forall (fun b => isdigit b = true) s ->
  digits acc s = (foldl (fun a b => a * 10 + digit b) acc s, []).
Proof.
  intros H. revert acc. induction H as [|b s Hb _ IH]; intros acc; simpl; [done|]. by rewrite Hb.
Qed.

Lemma isdigit_not_space b : isdigit b = true -> isspace b = false /\ b <> x2d /\ b <> x2b.
Proof.
  unfold isdigit, isspace. intros H. apply andb_true_iff in H as [H1 H2].
  apply Z.leb_le in H1, H2. split_and!; [|intros ->; by vm_compute in H1..].
  rewrite orb_false_iff, andb_false_iff, Z.eqb_neq, !Z.leb_gt. lia.
Qed.

Lemma digits_head s : is_digits s -> skip_spaces s = s /\ sign s = (false, s) /\ starts_digit s = true.
Proof.
  intros [Hne Hd]. destruct Hd as [|b s Hb _]; [done|]. simpl.
  destruct (isdigit_not_space b Hb) as (-> & ? & ?). by rewrite !decide_False by done.
Qed.

Lemma value_nonneg s : Forall (fun b => isdigit b = true) s -> 0 <= value s.
Proof.
  intros H. unfold value. cut (forall acc, 0 <= acc -> 0 <= foldl (fun a b => a * 10 + digit b) acc s).
  { intros Hc. by apply Hc. }
  induction H as [|b s Hb _ IH]; intros acc Ha; simpl; [done|].
  apply IH. unfold isdigit, digit in *. apply andb_true_iff in Hb as [Hb _].
  apply Z.leb_le in Hb. lia.
Qed.

(** An environment override is clamped: whatever the variable holds, the
    result lies in the permitted interval as soon as the default does, and a
    plain decimal number inside the interval is taken exactly. *)
Theorem env_int_bounds env d lo hi :
  lo <= d <= hi ->
  lo <= env_int_or_default env d lo hi <= hi /\
  (forall s, env = Some s -> is_digits s -> lo <= value s <= hi -> hi <= LONG_MAX ->
     env_int_or_default env d lo hi = value s).
Proof.
  intros Hd. split.
  - unfold env_int_or_default. destruct env as [[|b s]|]; [done| |done].
    repeat case_match; lia.
  - intros s -> Hs Hv Hhi. destruct (digits_head s Hs) as (E1 & E2 & E3).
    destruct Hs as [Hne Hf]. pose proof (value_nonneg s Hf).
    unfold env_int_or_default. destruct s as [|b s]; [done|]. set (t := b :: s) in *.
    assert (Hst : strtol t = Strto (value t) [] false).
    { unfold strtol. rewrite E1, E2, E3. rewrite digits_all by done. fold (value t).
      unfold LONG_MAX, LONG_MIN in *. rewrite !decide_False by lia. done. }
    rewrite Hst. cbn [st_erange st_end st_val orb].
    rewrite bool_decide_eq_false_2 by done. rewrite bool_decide_eq_true_2 by done. simpl.
    by rewrite !decide_False by lia.
Qed.

Lemma env_int_bounds_witness :
  1 <= env_int_or_default (Some (str "99999999999999999999")) 8 1 64 <= 64 /\
  env_int_or_default (Some (str "16")) 8 1 64 = 16.
Proof.
  split.
  - apply (env_int_bounds (Some (str "99999999999999999999")) 8 1 64); lia.
  - refine (proj2 (env_int_bounds (Some (str "16")) 8 1 64 _) (str "16") eq_refl _ _ _);
      [lia|split; [done|by repeat constructor]|by vm_compute|by vm_compute].
Defined.

(** [parse_id_arg] never yields the all-ones sentinel, and is exact on digits. *)
Theorem parse_id_arg_range s v : parse_id_arg s = Some v -> 0 <= v < ID_NONE.
Proof.
  unfold parse_id_arg, ID_NONE. case_decide; [done|].
  destruct (st_erange (strtoull s) || _ || _ || _) eqn:Hb; [done|].
  intros [= <-]. rewrite !orb_false_iff in Hb. destruct Hb as [_ Hb].
  apply bool_decide_eq_false in Hb.
  assert (0 <= st_val (strtoull s)).
  { unfold strtoull. destruct (sign (skip_spaces s)) as [neg t].
    destruct (starts_digit t) eqn:Ht; [|done].
    assert (Hd : forall acc u, 0 <= acc -> 0 <= (digits acc u).1).
    { intros acc u. revert acc. induction u as [|b u IH]; intros acc Ha; simpl; [done|].
      destruct (isdigit b) eqn:Hb'; [|done]. apply IH. unfold isdigit, digit in *.
      apply andb_true_iff in Hb' as [Hb' _]. apply Z.leb_le in Hb'. lia. }
    specialize (Hd 0 t ltac:(lia)). destruct (digits 0 t) as [v e]. simpl in *.
    case_decide; simpl; [by vm_compute|]. destruct neg; [apply u64_range|done]. }
  rewrite u32_small by (unfold is_u32; lia). lia.
Qed.
