(* ===== verification/PathUtils.v ===== *)
(** Path handling: src/path_utils.c, the lexical helpers of src/server.c and
    of src/main.c.

    The C functions work in place on NUL-terminated buffers; here a buffer's
    content is the byte string before the NUL.  The specification view of an
    absolute path is its list of components, [render]ed with one slash before
    each.  [normalize_abs] (server), [normalize_abs_path_lexically] (client)
    and the prefix tests are shown to compute on components. *)

From S2P Require Export Posix.

(** * path_utils.c *)

(** [while (n > 1 && s[n-1] == '/') s[--n] = '\0'], on the reversed string. *)
Fixpoint rstrip_rev (r : bytes) : bytes :=
  match r with
  | b :: ((_ :: _) as r') => if decide (b = SLASH) then rstrip_rev r' else r
  | _ => r
  end.
Definition path_rstrip_slashes (s : bytes) : bytes := reverse (rstrip_rev (reverse s)).

(** [None] is the [-1] return. *)
Definition path_join_fast (base name : bytes) (out_sz : Z) : option bytes :=
  if decide (out_sz = 0) then None else
  let base := if decide (base = [SLASH]) then [] else base in
  let need := zlen base + 1 + zlen name + 1 in
  if decide (out_sz < need) then None else
  Some (base ++ [SLASH] ++ name).

(** [strncmp(path, root, strlen(root)) == 0]. *)
Definition has_prefix (root path : bytes) : bool := bool_decide (take (length root) path = root).

(** [path[n] == '\0' || path[n] == '/'] after a prefix of [n] bytes matched. *)
Definition ends_component (path : bytes) (n : nat) : bool :=
  match path !! n with None => true | Some b => bool_decide (b = SLASH) end.

Definition path_is_under_root (path root : bytes) : bool :=
  if decide (root = [SLASH]) then bool_decide (path <> [SLASH])
  else has_prefix root path && ends_component path (length root).

(** * Tokenising *)

(** The pieces between slashes, empty ones included. *)
Fixpoint split_slash (s : bytes) : list bytes :=
  match s with
  | [] => [[]]
  | b :: s =>
      if decide (b = SLASH) then [] :: split_slash s
      else match split_slash s with
           | [] => [[b]]
           | t :: ts => (b :: t) :: ts
           end
  end.

(** The tokens [strtok_r(s, "/")] delivers: the non-empty pieces, in order. *)
Definition tokens (s : bytes) : list bytes := filter (fun t => t <> []) (split_slash s).

Definition DOT : bytes := [x2e].
Definition DOTDOT : bytes := [x2e; x2e].

(** * server.c: normalize_abs *)

(** One iteration of the token loop, on the output so far. *)
Definition normalize_step (outsz : Z) (out tok : bytes) : option bytes :=
  if decide (tok = DOT) then Some out
  else if decide (tok = DOTDOT) then
    match strrchr_slash out with
    | Some (S i) => Some (take (S i) out)
    | _ => Some (take 1 out)
    end
  else
    let olen := zlen out in
    let need := (if decide (olen = 1) then 0 else 1) + zlen tok in
    if decide (outsz < olen + need + 1) then None
    else Some ((if decide (olen = 1) then out else out ++ [SLASH]) ++ tok).

Fixpoint normalize_loop (outsz : Z) (out : bytes) (toks : list bytes) : option bytes :=
  match toks with
  | [] => Some out
  | t :: ts => out ← normalize_step outsz out t; normalize_loop outsz out ts
  end.

Definition normalize_abs (in_ : bytes) (outsz : Z) : res bytes :=
  if decide (head in_ <> Some SLASH \/ outsz < 2) then Err EINVAL
  else if decide (PATH_MAX <= zlen in_) then Err ENAMETOOLONG
  else match normalize_loop outsz [SLASH] (tokens in_) with
       | Some out => Ok out
       | None => Err ENAMETOOLONG
       end.

(** [path_under_root(norm)] against the confinement root [g_root_norm]. *)
Definition path_under_root (root norm : bytes) : bool :=
  if decide (root = [SLASH]) then bool_decide (head norm = Some SLASH)
  else has_prefix root norm && ends_component norm (length root).

Definition resolve_path (root in_ : bytes) (outsz : Z) : res bytes :=
  match normalize_abs in_ outsz with
  | Err e => Err e
  | Ok out => if path_under_root root out then Ok out else Err EACCES
  end.

Definition split_dir_base (path : bytes) (dirsz basesz : Z) : bytes * bytes :=
  match strrchr_slash path with
  | None => (snprintf_s dirsz (str "."), snprintf_s basesz path)
  | Some dl =>
      let dir :=
        if decide (dl = 0%nat) then snprintf_s dirsz [SLASH]
        else let dl := if decide (dirsz <= Z.of_nat dl) then Z.to_nat (dirsz - 1) else dl in
             take dl path in
      (dir, snprintf_s basesz (drop (S dl) path))
  end.

(** * main.c: the client's versions *)

Definition remove_last_path_component (path : bytes) : bytes :=
  if decide (path = [SLASH]) then path else
  match strrchr_slash path with
  | Some (S i) => take (S i) path
  | _ => take 1 path
  end.

Definition append_path_component (path : bytes) (path_sz : Z) (component : bytes) : option bytes :=
  let extra_slash := if decide (path = [SLASH]) then 0 else 1 in
  if decide (path_sz <= zlen path + extra_slash + zlen component) then None
  else Some ((if decide (path = [SLASH]) then path else path ++ [SLASH]) ++ component).

Fixpoint normalize_lexically_loop (out_sz : Z) (out : bytes) (toks : list bytes) : option bytes :=
  match toks with
  | [] => Some out
  | component :: ts =>
      if decide (component = DOT) then normalize_lexically_loop out_sz out ts
      else if decide (component = DOTDOT) then
        normalize_lexically_loop out_sz (remove_last_path_component out) ts
      else out ← append_path_component out out_sz component;
           normalize_lexically_loop out_sz out ts
  end.

Definition normalize_abs_path_lexically (in_ : bytes) (out_sz : Z) : res bytes :=
  if decide (head in_ <> Some SLASH \/ out_sz < 2) then Err EINVAL
  else if decide (PATH_MAX <= zlen in_) then Err ENAMETOOLONG
  else match normalize_lexically_loop out_sz (snprintf_s out_sz [SLASH]) (tokens in_) with
       | Some out => Ok out
       | None => Err ENAMETOOLONG
       end.

Definition prepend_suffix_component (suffix : bytes) (suffix_sz : Z) (component : bytes) : option bytes :=
  if decide (suffix = []) then
    if decide (suffix_sz <= zlen component) then None else Some component
  else
    tmp ← path_join_fast component suffix PATH_MAX;
    if decide (suffix_sz <= zlen tmp) then None else Some tmp.

Definition join_parent_suffix (parent suffix : bytes) (out_sz : Z) : option bytes :=
  if decide (suffix = []) then
    if decide (out_sz <= zlen parent) then None else Some parent
  else path_join_fast parent suffix out_sz.

Definition is_same_or_child_path (base path : bytes) : bool :=
  if decide (base = [SLASH]) then bool_decide (head path = Some SLASH)
  else has_prefix base path && ends_component path (length base).

Definition split_parent_name (abs : bytes) (psz nsz : Z) : bytes * bytes :=
  match strrchr_slash abs with
  | None => (snprintf_s psz (str "."), snprintf_s nsz abs)
  | Some plen =>
      let parent :=
        if decide (plen = 0%nat) then snprintf_s psz [SLASH]
        else let plen := if decide (psz <= Z.of_nat plen) then Z.to_nat (psz - 1) else plen in
             take plen abs in
      (parent, snprintf_s nsz (drop (S plen) abs))
  end.

(** * Specification: absolute paths as component lists *)

Fixpoint slashed (cs : list bytes) : bytes :=
  match cs with
  | [] => []
  | c :: cs => SLASH :: c ++ slashed cs
  end.

Definition render (cs : list bytes) : bytes :=
  match cs with [] => [SLASH] | _ => slashed cs end.

(** What a token can be, and what a component of a normalised path can be. *)
Definition good (c : bytes) : Prop := c <> [] /\ SLASH ∉ c.
Definition proper (c : bytes) : Prop := good c /\ c <> DOT /\ c <> DOTDOT.

#[export] Instance good_dec c : Decision (good c).
Proof. unfold good. apply _. Defined.
#[export] Instance proper_dec c : Decision (proper c).
Proof. unfold proper. apply _. Defined.

(** Meaning of one token. *)
Definition comp_step (cs : list bytes) (tok : bytes) : list bytes :=
  if decide (tok = DOT) then cs
  else if decide (tok = DOTDOT) then take (pred (length cs)) cs
  else cs ++ [tok].

Definition norm_comps (toks : list bytes) : list bytes := foldl comp_step [] toks.

Lemma slashed_app cs1 cs2 : slashed (cs1 ++ cs2) = slashed cs1 ++ slashed cs2.
Proof. induction cs1 as [|c cs1 IH]; simpl; [done|]. by rewrite IH, (assoc_L (++)). Qed.

Lemma slashed_snoc cs c : slashed (cs ++ [c]) = slashed cs ++ SLASH :: c.
Proof. rewrite slashed_app. simpl. by rewrite app_nil_r. Qed.

Lemma render_snoc cs c : render (cs ++ [c]) = slashed cs ++ SLASH :: c.
Proof. rewrite <- slashed_snoc. by destruct cs. Qed.

Lemma render_cons cs : cs <> [] -> render cs = slashed cs.
Proof. by destruct cs. Qed.

Lemma slashed_length_pos cs : Forall good cs -> cs <> [] -> (2 <= length (slashed cs))%nat.
Proof.
  intros [|c cs' [Hc _] _]; [done|]. intros _. simpl.
  destruct c; [done|]. simpl. rewrite length_app. lia.
Qed.

Lemma render_length_1 cs : Forall good cs -> zlen (render cs) = 1 <-> cs = [].
Proof.
  intros Hg. destruct cs as [|c cs]; [done|].
  pose proof (slashed_length_pos (c :: cs) Hg ltac:(done)) as H.
  change (render (c :: cs)) with (slashed (c :: cs)). unfold zlen. split; [lia|done].
Qed.

Lemma render_root cs : Forall good cs -> render cs = [SLASH] <-> cs = [].
Proof.
  intros Hg. split; [|by intros ->]. intros H. apply (render_length_1 cs Hg). by rewrite H.
Qed.

Lemma render_head cs : head (render cs) = Some SLASH.
Proof. by destruct cs. Qed.

Lemma strrchr_slashed u c : SLASH ∉ c -> strrchr_slash (u ++ SLASH :: c) = Some (length u).
Proof.
  intros Hc. apply strrchr_slash_Some.
  assert (Hd : drop (S (length u)) (u ++ SLASH :: c) = c).
  { rewrite drop_app_ge by lia. by replace (S (length u) - length u)%nat with 1%nat by lia. }
  rewrite Hd, take_app_length, length_app. simpl. split_and!; [lia|done|done].
Qed.

(** Two slash-free heads followed by "nothing or a slash" are equal. *)
Lemma segment_inj (x y u v : bytes) :
  SLASH ∉ x -> SLASH ∉ y ->
  (u = [] \/ head u = Some SLASH) -> (v = [] \/ head v = Some SLASH) ->
  x ++ u = y ++ v -> x = y /\ u = v.
Proof.
  revert y. induction x as [|a x IH]; intros [|b y] Hx Hy Hu Hv; simpl; intros H.
  - done.
  - subst u. destruct Hu as [?|[= ->]]; [done|]. set_solver.
  - subst v. destruct Hv as [?|[= ->]]; [done|]. set_solver.
  - injection H as -> H. destruct (IH y) as [-> ->]; try done; set_solver.
Qed.

Lemma slashed_head cs : slashed cs = [] \/ head (slashed cs) = Some SLASH.
Proof. destruct cs; [by left|by right]. Qed.

(** A rendered path followed by "nothing or a slash" determines a prefix of the
    components. *)
Lemma slashed_prefix rs cs rest :
  Forall good rs -> Forall good cs -> (rest = [] \/ head rest = Some SLASH) ->
  slashed cs = slashed rs ++ rest -> rs `prefix_of` cs.
Proof.
  intros Hr. revert cs. induction Hr as [|r rs [_ Hr] _ IH]; intros cs Hc Hrest H.
  { apply prefix_nil. }
  destruct Hc as [|c cs [_ Hc] Hcs]; [done|]. simpl in H. injection H as H.
  rewrite <- (assoc_L (++)) in H.
  apply segment_inj in H as [-> H]; try done.
  - apply prefix_cons. by apply IH.
  - apply slashed_head.
  - destruct (slashed_head rs) as [->|Hh]; [done|].
    right. by destruct (slashed rs).
Qed.

Lemma has_prefix_app root path :
  has_prefix root path && ends_component path (length root) = true <->
  exists rest, path = root ++ rest /\ (rest = [] \/ head rest = Some SLASH).
Proof.
  unfold has_prefix, ends_component. rewrite andb_true_iff, bool_decide_eq_true. split.
  - intros [Hp He]. exists (drop (length root) path). split.
    + rewrite <- Hp at 1. by rewrite take_drop.
    + rewrite <- (Nat.add_0_r (length root)), <- lookup_drop in He.
      destruct (drop (length root) path) as [|b l]; [by left|].
      right. simpl in *. apply bool_decide_eq_true in He. by subst.
  - intros (rest & -> & Hrest). rewrite take_app_length. split; [done|].
    rewrite lookup_app_r by lia. rewrite Nat.sub_diag.
    destruct Hrest as [->|H]; [done|]. destruct rest; [done|].
    simpl in *. simplify_eq. by apply bool_decide_eq_true.
Qed.

(** The server's prefix test is the prefix order on components. *)
Lemma path_under_root_spec rs cs :
  Forall good rs -> Forall good cs ->
  path_under_root (render rs) (render cs) = true <-> rs `prefix_of` cs.
Proof.
  intros Hr Hc. unfold path_under_root.
  destruct (decide (render rs = [SLASH])) as [H0|H0].
  { apply (render_root rs Hr) in H0. subst rs. rewrite bool_decide_eq_true, render_head.
    split; [intros _; apply prefix_nil|done]. }
  rewrite has_prefix_app.
  assert (Hne : rs <> []) by (intros ->; done).
  rewrite (render_cons rs Hne). split.
  - intros (rest & Heq & Hrest).
    destruct cs as [|c cs].
    + exfalso. pose proof (slashed_length_pos rs Hr Hne).
      apply (f_equal length) in Heq. rewrite length_app in Heq. simpl in Heq. lia.
    + by eapply slashed_prefix.
  - intros [ks ->]. exists (slashed ks). rewrite render_cons.
    + split; [apply slashed_app|apply slashed_head].
    + by destruct rs.
Qed.

(** ** Tokens *)

Lemma split_slash_free s : Forall (fun t => SLASH ∉ t) (split_slash s).
Proof.
  induction s as [|b s IH]; simpl.
  - repeat constructor. set_solver.
  - case_decide; [constructor; [set_solver|done]|].
    destruct IH as [|t ts Ht Hts]; repeat constructor; set_solver.
Qed.

Lemma tokens_good s : Forall good (tokens s).
Proof.
  unfold tokens. apply list.Forall_forall. intros t Ht.
  apply list_elem_of_filter in Ht as [Hne Ht]. split; [done|].
  by apply (proj1 (list.Forall_forall _ _) (split_slash_free s)).
Qed.

Definition total (ts : list bytes) : Z := foldr (fun t n => 1 + zlen t + n) 0 ts.

Lemma total_nonneg ts : 0 <= total ts.
Proof. induction ts as [|t ts IH]; simpl; [done|]. pose proof (zlen_nonneg t). lia. Qed.

Lemma split_slash_total s : total (split_slash s) = 1 + zlen s.
Proof.
  induction s as [|b s IH]; simpl; [done|].
  case_decide; simpl; [rewrite IH, zlen_cons, zlen_nil; lia|].
  destruct (split_slash s) as [|t ts]; simpl in *; rewrite zlen_cons in *; zlen_lia.
Qed.

Lemma total_filter ts : total (filter (fun t => t <> []) ts) <= total ts.
Proof.
  induction ts as [|t ts IH]; [done|]. rewrite filter_cons. pose proof (zlen_nonneg t).
  case_decide; simpl; lia.
Qed.

Lemma tokens_total s : head s = Some SLASH -> total (tokens s) <= zlen s.
Proof.
  destruct s as [|b s]; [done|]. intros [= ->]. unfold tokens. simpl.
  rewrite filter_cons. rewrite decide_False by naive_solver.
  rewrite zlen_cons, <- split_slash_total. apply total_filter.
Qed.

Lemma split_slash_app x u :
  SLASH ∉ x -> u = [] \/ head u = Some SLASH ->
  split_slash (x ++ u) = x :: tail (split_slash u).
Proof.
  intros Hx Hu. induction x as [|b x IH]; simpl.
  - destruct Hu as [->|Hh]; [done|]. destruct u as [|a u]; [done|].
    injection Hh as ->. done.
  - rewrite decide_False by set_solver. rewrite IH by set_solver. done.
Qed.

Lemma tokens_slashed cs : Forall good cs -> filter (fun t => t <> []) (tail (split_slash (slashed cs))) = cs.
Proof.
  induction 1 as [|c cs [Hne Hs] _ IH]; simpl; [done|].
  rewrite split_slash_app by (try done; apply slashed_head).
  rewrite filter_cons, decide_True by done. by rewrite IH.
Qed.

Lemma tokens_render cs : Forall good cs -> tokens (render cs) = cs.
Proof.
  intros Hg. destruct cs as [|c cs]; [done|].
  unfold tokens, render. simpl. rewrite filter_cons, decide_False by naive_solver.
  apply (tokens_slashed (c :: cs) Hg).
Qed.

Lemma split_slash_join a b : split_slash (a ++ SLASH :: b) = split_slash a ++ split_slash b.
Proof.
  induction a as [|c a IH]; simpl; [done|]. rewrite IH. case_decide; [done|].
  pose proof (split_slash_total a). pose proof (zlen_nonneg a).
  destruct (split_slash a); [simpl in *; lia|done].
Qed.

Lemma tokens_join a b : tokens (a ++ SLASH :: b) = tokens a ++ tokens b.
Proof. unfold tokens. by rewrite split_slash_join, list.filter_app. Qed.

Lemma tokens_slash b : tokens (SLASH :: b) = tokens b.
Proof. apply (tokens_join []). Qed.

Lemma tokens_plain n : SLASH ∉ n -> tokens n = if decide (n = []) then [] else [n].
Proof.
  intros Hn. unfold tokens. rewrite <- (app_nil_r n) at 1.
  rewrite split_slash_app by (by auto). simpl. rewrite filter_cons. by repeat case_decide.
Qed.

(** Trailing slashes do not matter. *)
Lemma rstrip_rev_spec r : exists k, r = replicate k SLASH ++ rstrip_rev r /\ (r <> [] -> rstrip_rev r <> []).
Proof.
  induction r as [|b [|c r] IH]; [by exists 0%nat|by exists 0%nat|]. destruct IH as (k & He & Hn).
  change (rstrip_rev (b :: c :: r)) with (if decide (b = SLASH) then rstrip_rev (c :: r) else b :: c :: r).
  case_decide as Hd; [|by exists 0%nat]. exists (S k). split; [by rewrite Hd, He at 1|]. intros _. by apply Hn.
Qed.
Lemma rstrip_slashes_spec s : exists k, s = path_rstrip_slashes s ++ replicate k SLASH /\ (s <> [] -> path_rstrip_slashes s <> []).
Proof.
  destruct (rstrip_rev_spec (reverse s)) as (k & He & Hn). exists k. unfold path_rstrip_slashes. split.
  - rewrite <- (reverse_involutive s) at 1. rewrite He at 1. by rewrite reverse_app, reverse_replicate.
  - intros Hs. rewrite <- (reverse_nil (A := byte)), (inj_iff reverse). apply Hn. by rewrite <- (reverse_nil (A := byte)), (inj_iff reverse).
Qed.
Lemma tokens_rstrip s : tokens (path_rstrip_slashes s) = tokens s.
Proof.
  destruct (rstrip_slashes_spec s) as (k & He & _). rewrite He at 2. clear He.
  assert (H : tokens (replicate k SLASH) = []) by (induction k; [done|simpl; by rewrite tokens_slash]).
  destruct k; [by rewrite app_nil_r|]. simpl in *. rewrite tokens_slash in H. by rewrite tokens_join, H, app_nil_r.
Qed.

(** ** The normalisation loops compute [norm_comps] *)

Lemma comp_step_good cs tok : Forall good cs -> good tok -> Forall good (comp_step cs tok).
Proof.
  intros Hcs Ht. unfold comp_step. repeat case_decide; [done|by apply Forall_take|].
  apply Forall_app. split; [done|by constructor].
Qed.

Lemma comp_step_proper cs tok : Forall proper cs -> good tok -> Forall proper (comp_step cs tok).
Proof.
  intros Hcs Ht. unfold comp_step. repeat case_decide; [done|by apply Forall_take|].
  apply Forall_app. split; [done|by constructor].
Qed.

Lemma Forall_proper_good cs : Forall proper cs -> Forall good cs.
Proof. apply Forall_impl. by intros c []. Qed.

Lemma norm_comps_proper toks : Forall good toks -> Forall proper (norm_comps toks).
Proof.
  unfold norm_comps. assert (H : Forall proper (@nil bytes)) by constructor. revert H.
  generalize (@nil bytes). intros cs Hcs Ht. revert cs Hcs.
  induction Ht as [|t ts Ht _ IH]; intros cs Hcs; simpl; [done|].
  by apply IH, comp_step_proper.
Qed.

(** [comp_step] leaves canonical components alone. *)
Lemma norm_comps_id cs : Forall proper cs -> norm_comps cs = cs.
Proof.
  unfold norm_comps. assert (H : forall pre, Forall proper cs -> foldl comp_step pre cs = pre ++ cs).
  { induction cs as [|c cs IH]; intros pre Hp; simpl; [by rewrite app_nil_r|].
    inversion_clear Hp as [|? ? (? & Hd & Hdd) Hcs]. rewrite IH by done. unfold comp_step.
    rewrite !decide_False by done. by rewrite <- (assoc_L (++)). }
  intros. by rewrite H.
Qed.

Lemma drop_last_render cs :
  Forall good cs ->
  match strrchr_slash (render cs) with Some (S i) => take (S i) (render cs) | _ => take 1 (render cs) end
  = render (take (pred (length cs)) cs).
Proof.
  intros Hg. induction cs as [|c cs _] using rev_ind; [done|].
  apply Forall_app in Hg as [Hcs Hc]. inversion_clear Hc as [|? ? [_ Hs] _].
  rewrite render_snoc, (strrchr_slashed _ _ Hs).
  replace (take _ (cs ++ [c])) with cs
    by (rewrite length_app; simpl; rewrite Nat.add_1_r; simpl; by rewrite take_app_length).
  destruct cs as [|d cs]; [done|].
  pose proof (slashed_length_pos (d :: cs) Hcs ltac:(done)) as Hl.
  change (render (d :: cs)) with (slashed (d :: cs)).
  destruct (length (slashed (d :: cs))) as [|n] eqn:Hn; [lia|].
  rewrite <- Hn. by rewrite take_app_length.
Qed.

Lemma push_render cs tok :
  Forall good cs ->
  (if decide (zlen (render cs) = 1) then render cs else render cs ++ [SLASH]) ++ tok
  = render (cs ++ [tok]).
Proof.
  intros Hg. rewrite render_snoc. case_decide as Hd.
  - apply (render_length_1 cs Hg) in Hd. by subst.
  - rewrite render_cons; [by rewrite <- (assoc_L (++))|].
    intros ->. by destruct Hd.
Qed.

Lemma normalize_step_render outsz cs tok :
  Forall good cs -> good tok -> zlen (slashed cs) + 1 + zlen tok < outsz ->
  normalize_step outsz (render cs) tok = Some (render (comp_step cs tok)).
Proof.
  intros Hg Ht Hlen. unfold normalize_step, comp_step.
  destruct (decide (tok = DOT)); [done|].
  destruct (decide (tok = DOTDOT)).
  { rewrite <- drop_last_render by done. by destruct (strrchr_slash (render cs)) as [[|i]|]. }
  rewrite push_render by done. rewrite decide_False; [done|].
  case_decide as Hd; [rewrite Hd in *; apply (render_length_1 cs Hg) in Hd; subst cs|].
  - simpl in Hlen. unfold zlen in *. simpl in *. lia.
  - rewrite render_cons by (by intros ->; destruct Hd). lia.
Qed.

Lemma slashed_comp_step cs tok :
  zlen (slashed (comp_step cs tok)) <= zlen (slashed cs) + 1 + zlen tok.
Proof.
  unfold comp_step. pose proof (zlen_nonneg tok). repeat case_decide; [lia| |].
  - assert (Hsp : zlen (slashed cs) =
      zlen (slashed (take (pred (length cs)) cs)) + zlen (slashed (drop (pred (length cs)) cs))).
    { rewrite <- (take_drop (pred (length cs)) cs) at 1. by rewrite slashed_app, zlen_app. }
    pose proof (zlen_nonneg (slashed (drop (pred (length cs)) cs))). lia.
  - rewrite slashed_snoc, zlen_app, zlen_cons. lia.
Qed.

Lemma normalize_loop_render outsz toks cs :
  Forall good cs -> Forall good toks -> zlen (slashed cs) + total toks < outsz ->
  normalize_loop outsz (render cs) toks = Some (render (foldl comp_step cs toks)).
Proof.
  intros Hcs Ht. revert cs Hcs. induction Ht as [|t ts Ht Hts IH]; intros cs Hcs Hlen; simpl; [done|].
  simpl in Hlen. pose proof (total_nonneg ts).
  rewrite normalize_step_render by (done || lia). simpl.
  apply IH; [by apply comp_step_good|]. pose proof (slashed_comp_step cs t). lia.
Qed.

Lemma normalize_abs_eq in_ :
  head in_ = Some SLASH -> zlen in_ < PATH_MAX ->
  normalize_abs in_ PATH_MAX = Ok (render (norm_comps (tokens in_))).
Proof.
  intros Hh Hl. unfold normalize_abs.
  rewrite decide_False by (intros [?|?]; [done|unfold PATH_MAX in *; lia]).
  rewrite decide_False by lia.
  change [SLASH] with (render []).
  rewrite normalize_loop_render; [done|constructor|apply tokens_good|].
  pose proof (tokens_total in_ Hh). simpl. unfold zlen at 1. simpl. lia.
Qed.

(** The result is canonical, and normalising again changes nothing. *)
Lemma normalize_abs_inv in_ outsz out :
  normalize_abs in_ outsz = Ok out -> head in_ = Some SLASH /\ zlen in_ < PATH_MAX /\ 2 <= outsz.
Proof.
  unfold normalize_abs. case_decide as H1; [done|]. case_decide as H2; [done|].
  intros _. split_and!; [|lia|lia]. destruct (decide (head in_ = Some SLASH)); naive_solver.
Qed.

Lemma normalize_abs_comps in_ out :
  normalize_abs in_ PATH_MAX = Ok out ->
  exists cs, out = render cs /\ Forall proper cs /\ cs = norm_comps (tokens in_).
Proof.
  intros H. destruct (normalize_abs_inv _ _ _ H) as (Hh & Hl & _).
  rewrite normalize_abs_eq in H by done. injection H as <-.
  eexists. split; [done|]. split; [|done]. apply norm_comps_proper, tokens_good.
Qed.

Lemma normalize_abs_idempotent cs :
  Forall proper cs -> zlen (render cs) < PATH_MAX ->
  normalize_abs (render cs) PATH_MAX = Ok (render cs).
Proof.
  intros Hp Hl. rewrite normalize_abs_eq by (done || apply render_head).
  by rewrite tokens_render, norm_comps_id by (done || by apply Forall_proper_good).
Qed.

(** C13.  Confinement, for a root that is a normalised path: [resolve_path]
    accepts exactly the absolute paths shorter than PATH_MAX whose list of
    components, with "." and ".." resolved, extends the component list of the
    root, and what it hands out is the canonical path of that list. A relative
    path is refused with EINVAL, one too long with ENAMETOOLONG, and one outside
    the root with EACCES. *)
Theorem resolve_path_confines rs in_ :
  Forall proper rs ->
  resolve_path (render rs) in_ PATH_MAX =
    if decide (head in_ <> Some SLASH) then Err EINVAL
    else if decide (PATH_MAX <= zlen in_) then Err ENAMETOOLONG
    else if decide (rs `prefix_of` norm_comps (tokens in_))
    then Ok (render (norm_comps (tokens in_))) else Err EACCES.
Proof.
  intros Hr. unfold resolve_path. destruct (decide (head in_ = Some SLASH)) as [Hh|Hh].
  2:{ rewrite decide_True by done. unfold normalize_abs. by rewrite decide_True by auto. }
  rewrite (decide_False (P := head in_ <> Some SLASH)) by naive_solver. destruct (decide (PATH_MAX <= zlen in_)) as [Hl|Hl].
  { unfold normalize_abs. rewrite decide_False by (intros [?|?]; [done|by vm_compute in *]). by rewrite decide_True. }
  rewrite normalize_abs_eq by (done || lia).
  pose proof (path_under_root_spec rs (norm_comps (tokens in_))
    (Forall_proper_good _ Hr) (Forall_proper_good _ (norm_comps_proper _ (tokens_good in_)))) as Hs.
  destruct (path_under_root _ _); case_decide; naive_solver.
Qed.

Lemma resolve_path_confines_witness :
  resolve_path (render [str "srv"; str "dst"]) (str "/srv/dst/../dst2/x") PATH_MAX = Err EACCES
  /\ resolve_path (render [str "srv"; str "dst"]) (str "/srv/./dst/x") PATH_MAX = Ok (str "/srv/dst/x")
  /\ resolve_path (render [str "srv"; str "dst"]) (str "srv/dst/x") PATH_MAX = Err EINVAL.
Proof.
  assert (Hr : Forall proper [str "srv"; str "dst"]) by (apply (bool_decide_unpack _); by vm_compute).
  split; [|split]; (etransitivity; [apply (resolve_path_confines [str "srv"; str "dst"] _ Hr)|by vm_compute]).
Defined.

Lemma resolve_path_Ok rs in_ out :
  Forall proper rs -> resolve_path (render rs) in_ PATH_MAX = Ok out ->
  exists cs, out = render cs /\ Forall proper cs /\ rs `prefix_of` cs.
Proof.
  intros Hr H. unfold resolve_path in H.
  destruct (normalize_abs in_ PATH_MAX) as [o|e] eqn:Hn; [|done].
  destruct (normalize_abs_comps _ _ Hn) as (cs & -> & Hp & _).
  destruct (path_under_root _ _) eqn:Hu; [|done]. injection H as <-.
  exists cs. split_and!; [done|done|].
  by apply (path_under_root_spec rs cs); try apply Forall_proper_good.
Qed.

(** Normalising never lengthens a path. *)
Lemma foldl_comp_step_length toks cs :
  zlen (slashed (foldl comp_step cs toks)) <= zlen (slashed cs) + total toks.
Proof.
  revert cs. induction toks as [|t ts IH]; intros cs; simpl; [lia|].
  pose proof (IH (comp_step cs t)). pose proof (slashed_comp_step cs t). lia.
Qed.

Lemma norm_comps_length in_ :
  head in_ = Some SLASH -> zlen (render (norm_comps (tokens in_))) <= zlen in_.
Proof.
  intros Hh. pose proof (tokens_total in_ Hh). pose proof (foldl_comp_step_length (tokens in_) []) as H1.
  unfold norm_comps in *. destruct (foldl comp_step [] (tokens in_)) as [|c cs] eqn:He.
  - destruct in_; [done|]. unfold zlen. simpl. lia.
  - change (render (c :: cs)) with (slashed (c :: cs)). change (zlen (slashed [])) with 0 in H1. lia.
Qed.

Lemma resolve_path_Ok_length rs in_ out :
  resolve_path rs in_ PATH_MAX = Ok out -> zlen out < PATH_MAX.
Proof.
  unfold resolve_path. destruct (normalize_abs in_ PATH_MAX) as [o|] eqn:Hn; [|done].
  destruct (normalize_abs_inv _ _ _ Hn) as (Hh & Hl & _). destruct (path_under_root _ _); [|done].
  intros [= <-]. rewrite normalize_abs_eq in Hn by done. injection Hn as <-.
  pose proof (norm_comps_length in_ Hh). lia.
Qed.

(** C14.  The server's lexical normalisation is total on absolute paths that
    fit a [PATH_MAX] buffer and computes exactly the component list: "." and
    empty components vanish, ".." removes the component before it (and nothing
    at the root). No spurious ENAMETOOLONG is possible, and normalising the
    result again changes nothing. *)
Theorem normalize_abs_spec in_ :
  head in_ = Some SLASH -> zlen in_ < PATH_MAX ->
  let out := render (norm_comps (tokens in_)) in
  normalize_abs in_ PATH_MAX = Ok out /\ normalize_abs out PATH_MAX = Ok out.
Proof.
  intros Hh Hl out. split; [by apply normalize_abs_eq|].
  apply normalize_abs_idempotent; [apply norm_comps_proper, tokens_good|].
  pose proof (norm_comps_length in_ Hh). subst out. lia.
Qed.

Lemma normalize_abs_spec_witness :
  normalize_abs (str "/a/./b//../c") PATH_MAX = Ok (str "/a/c").
Proof.
  rewrite (proj1 (normalize_abs_spec (str "/a/./b//../c") eq_refl ltac:(by vm_compute))); by vm_compute.
Defined.

(** The client's and the server's normalisation agree on every input. *)
Lemma append_path_component_eq out sz tok :
  head out = Some SLASH ->
  append_path_component out sz tok =
    if decide (tok = DOT \/ tok = DOTDOT) then append_path_component out sz tok
    else normalize_step sz out tok.
Proof.
  intros Hh. case_decide as Hd; [done|]. unfold append_path_component, normalize_step.
  destruct (decide (tok = DOT)); [by destruct Hd; left|].
  destruct (decide (tok = DOTDOT)); [by destruct Hd; right|].
  assert (H1 : out = [SLASH] <-> zlen out = 1).
  { destruct out as [|b [|c out]]; [done| |]; unfold zlen; simpl in *; simplify_eq; split; try done; lia. }
  destruct (decide (out = [SLASH])) as [->|Hne].
  - repeat case_decide; try done; lia.
  - destruct (decide (zlen out = 1)); [naive_solver|]. repeat case_decide; try done; lia.
Qed.

Lemma remove_last_eq out sz :
  head out = Some SLASH -> normalize_step sz out DOTDOT = Some (remove_last_path_component out).
Proof.
  intros Hh. unfold normalize_step, remove_last_path_component.
  rewrite decide_False by done. rewrite decide_True by done.
  case_decide; [by subst|]. by destruct (strrchr_slash out) as [[|i]|].
Qed.

Lemma normalize_step_head sz out tok out' :
  head out = Some SLASH -> normalize_step sz out tok = Some out' -> head out' = Some SLASH.
Proof.
  unfold normalize_step. intros Hh. destruct out as [|b out]; [done|].
  injection Hh as ->. repeat case_decide; intros; simplify_eq/=; try done.
  by destruct (strrchr_slash out); simplify_eq/=.
Qed.

Lemma normalize_lexically_eq in_ outsz :
  normalize_abs_path_lexically in_ outsz = normalize_abs in_ outsz.
Proof.
  unfold normalize_abs_path_lexically, normalize_abs.
  case_decide as H1; [done|]. case_decide; [done|].
  rewrite snprintf_s_id by (unfold zlen; simpl; lia).
  assert (Hloop : forall toks out, head out = Some SLASH ->
    normalize_lexically_loop outsz out toks = normalize_loop outsz out toks).
  { induction toks as [|t ts IH]; intros out Hh; [done|]. cbn [normalize_lexically_loop normalize_loop].
    destruct (decide (t = DOT)) as [->|Hd]; [simpl; by apply IH|].
    destruct (decide (t = DOTDOT)) as [->|Hdd].
    - rewrite remove_last_eq by done. simpl. apply IH.
      by eapply (normalize_step_head outsz out DOTDOT), remove_last_eq.
    - rewrite append_path_component_eq by done. rewrite decide_False by naive_solver.
      destruct (normalize_step outsz out t) as [out'|] eqn:Hs; [|done]. simpl.
      by eapply IH, normalize_step_head. }
  by rewrite Hloop.
Qed.

(** C40.  Client and server normalise identically: main.c's
    [normalize_abs_path_lexically] and server.c's [normalize_abs] return the
    same path or the same error on every input and buffer size. *)
Theorem normalize_client_server in_ outsz :
  normalize_abs_path_lexically in_ outsz = normalize_abs in_ outsz.
Proof. apply normalize_lexically_eq. Qed.

(** ** Splitting and joining *)

Lemma split_dir_base_render cs c dsz bsz :
  Forall good cs -> good c -> zlen (render cs) < dsz -> zlen c < bsz ->
  split_dir_base (render (cs ++ [c])) dsz bsz = (render cs, c).
Proof.
  intros Hcs [Hne Hs] Hd Hb. unfold split_dir_base. rewrite render_snoc.
  rewrite strrchr_slashed by done.
  replace (drop (S (length (slashed cs))) (slashed cs ++ SLASH :: c)) with c.
  2:{ rewrite drop_app_ge by lia. by replace (S (length (slashed cs)) - length (slashed cs))%nat with 1%nat by lia. }
  rewrite (snprintf_s_id bsz c) by done. f_equal.
  destruct cs as [|d cs]; [simpl; by rewrite snprintf_s_id by done|].
  rewrite decide_False by (pose proof (slashed_length_pos (d :: cs) Hcs ltac:(done)); lia).
  rewrite decide_False by (unfold zlen, render in Hd; lia).
  by rewrite take_app_length.
Qed.

(** main.c's [split_parent_name] is the same function. *)
Lemma split_parent_name_eq p a b : split_parent_name p a b = split_dir_base p a b.
Proof. done. Qed.

Lemma zlen_render_snoc cs c : good c -> zlen (render cs) <= zlen (render (cs ++ [c])) - zlen c.
Proof.
  intros [Hc _]. rewrite render_snoc. destruct cs as [|d cs]; [|change (render (d :: cs)) with (slashed (d :: cs))].
  - rewrite zlen_app, zlen_cons. unfold zlen. simpl. lia.
  - rewrite zlen_app, zlen_cons. lia.
Qed.

Lemma path_join_fast_render cs c sz :
  Forall good cs -> zlen (render (cs ++ [c])) < sz ->
  path_join_fast (render cs) c sz = Some (render (cs ++ [c])).
Proof.
  intros Hg Hsz. pose proof (zlen_nonneg (render (cs ++ [c]))). unfold path_join_fast.
  rewrite decide_False by lia. rewrite render_snoc in *. rewrite zlen_app, zlen_cons in Hsz.
  destruct (decide (render cs = [SLASH])) as [H0|H0].
  - apply (render_root cs Hg) in H0. subst cs. rewrite decide_False; [done|].
    simpl in *. zlen_lia.
  - rewrite render_cons by (by intros ->). rewrite decide_False by lia. done.
Qed.
