(* ===== verification/CopyPolicy.v ===== *)
(** The client's copy policy (src/copy_policy.c): a few process-wide switches
    set once at start-up and read everywhere. *)

From S2P Require Export Posix EnvUtil.

Record policy := Policy {
  g_destination_fresh : bool;
  g_auto_inplace_fresh : bool;
  pol_preserve_times : bool;
  g_explicit_inplace : bool;
  g_uid_override : option Z;      (* None: not set *)
  g_gid_override : option Z
}.

(** [s && *s && strcmp(s, "0") != 0] *)
Definition env_on (s : option bytes) : bool :=
  match s with None | Some [] => false | Some s => negb (bool_decide (s = str "0")) end.

(** [small_inplace], [no_times] are the two environment variables. *)
Definition copy_policy_init (preserve_times : bool) (small_inplace no_times : option bytes) (p : policy) : policy :=
  Policy false false (preserve_times && negb (env_on no_times)) (env_on small_inplace)
    (g_uid_override p) (g_gid_override p).

Definition copy_policy_set_destination (destination_fresh auto_inplace_fresh : bool) (p : policy) : policy :=
  Policy destination_fresh auto_inplace_fresh (pol_preserve_times p) (g_explicit_inplace p)
    (g_uid_override p) (g_gid_override p).

Definition copy_policy_destination_fresh (p : policy) : bool := g_destination_fresh p.
Definition copy_policy_preserve_times (p : policy) : bool := pol_preserve_times p.
Definition copy_policy_small_inplace (p : policy) : bool :=
  g_explicit_inplace p || (g_destination_fresh p && g_auto_inplace_fresh p).

Definition copy_policy_set_id_override (uid gid : option Z) (p : policy) : policy :=
  Policy (g_destination_fresh p) (g_auto_inplace_fresh p) (pol_preserve_times p) (g_explicit_inplace p) uid gid.

Definition copy_policy_apply_id_override (p : policy) (st : stat) : stat :=
  let '(Stat dev ino mode nlink uid gid size blocks a m c) := st in
  Stat dev ino mode nlink (default uid (g_uid_override p)) (default gid (g_gid_override p)) size blocks a m c.

(** Applying the override twice is applying it once, and only ownership
    changes. *)
Lemma apply_id_override_idem p st :
  copy_policy_apply_id_override p (copy_policy_apply_id_override p st) = copy_policy_apply_id_override p st.
Proof. destruct st. simpl. by destruct (g_uid_override p), (g_gid_override p). Qed.
