(* ===== verification/ServerState.v ===== *)
(** The server's state (the file-scope variables of src/server.c), split by
    component, and the operations that only touch it: the error log and the
    open-file table.

    A pointer into a list is the element it designates: [file_find] returns
    the first entry with an id, and an update through that pointer changes
    this entry.  The setters below are what assignments to the C variables
    become. *)

From S2P Require Export PathUtils Protocol.

(** * Records *)

(** [open_file_t] *)
Record open_file := OpenFile {
  f_id : Z;
  f_fd : Z;
  f_inplace : bool;
  f_direct : bool;
  f_failed : bool;
  f_err : Z;
  f_tmp_path : bytes;
  f_final_path : bytes
}.

Definition set_f_id (x : Z) (s : open_file) : open_file :=
  OpenFile x (f_fd s) (f_inplace s) (f_direct s) (f_failed s) (f_err s) (f_tmp_path s) (f_final_path s).
Definition set_f_fd (x : Z) (s : open_file) : open_file :=
  OpenFile (f_id s) x (f_inplace s) (f_direct s) (f_failed s) (f_err s) (f_tmp_path s) (f_final_path s).
Definition set_f_inplace (x : bool) (s : open_file) : open_file :=
  OpenFile (f_id s) (f_fd s) x (f_direct s) (f_failed s) (f_err s) (f_tmp_path s) (f_final_path s).
Definition set_f_direct (x : bool) (s : open_file) : open_file :=
  OpenFile (f_id s) (f_fd s) (f_inplace s) x (f_failed s) (f_err s) (f_tmp_path s) (f_final_path s).
Definition set_f_failed (x : bool) (s : open_file) : open_file :=
  OpenFile (f_id s) (f_fd s) (f_inplace s) (f_direct s) x (f_err s) (f_tmp_path s) (f_final_path s).
Definition set_f_err (x : Z) (s : open_file) : open_file :=
  OpenFile (f_id s) (f_fd s) (f_inplace s) (f_direct s) (f_failed s) x (f_tmp_path s) (f_final_path s).
Definition set_f_tmp_path (x : bytes) (s : open_file) : open_file :=
  OpenFile (f_id s) (f_fd s) (f_inplace s) (f_direct s) (f_failed s) (f_err s) x (f_final_path s).
Definition set_f_final_path (x : bytes) (s : open_file) : open_file :=
  OpenFile (f_id s) (f_fd s) (f_inplace s) (f_direct s) (f_failed s) (f_err s) (f_tmp_path s) x.

(** Identity, options and confinement root, fixed at start-up and by HELLO. *)
Record config := Config {
  g_root_norm : bytes;
  g_caps : Z;
  g_root_present : bool;
  g_euid : Z;
  g_egid : Z;
  g_groups : list Z;
  g_preserve_times : bool;
  g_server_direct_io : bool
}.

Definition set_g_root_norm (x : bytes) (s : config) : config :=
  Config x (g_caps s) (g_root_present s) (g_euid s) (g_egid s) (g_groups s) (g_preserve_times s) (g_server_direct_io s).
Definition set_g_caps (x : Z) (s : config) : config :=
  Config (g_root_norm s) x (g_root_present s) (g_euid s) (g_egid s) (g_groups s) (g_preserve_times s) (g_server_direct_io s).
Definition set_g_root_present (x : bool) (s : config) : config :=
  Config (g_root_norm s) (g_caps s) x (g_euid s) (g_egid s) (g_groups s) (g_preserve_times s) (g_server_direct_io s).
Definition set_g_euid (x : Z) (s : config) : config :=
  Config (g_root_norm s) (g_caps s) (g_root_present s) x (g_egid s) (g_groups s) (g_preserve_times s) (g_server_direct_io s).
Definition set_g_egid (x : Z) (s : config) : config :=
  Config (g_root_norm s) (g_caps s) (g_root_present s) (g_euid s) x (g_groups s) (g_preserve_times s) (g_server_direct_io s).
Definition set_g_groups (x : list Z) (s : config) : config :=
  Config (g_root_norm s) (g_caps s) (g_root_present s) (g_euid s) (g_egid s) x (g_preserve_times s) (g_server_direct_io s).
Definition set_g_preserve_times (x : bool) (s : config) : config :=
  Config (g_root_norm s) (g_caps s) (g_root_present s) (g_euid s) (g_egid s) (g_groups s) x (g_server_direct_io s).
Definition set_g_server_direct_io (x : bool) (s : config) : config :=
  Config (g_root_norm s) (g_caps s) (g_root_present s) (g_euid s) (g_egid s) (g_groups s) (g_preserve_times s) x.

(** The deferred error log and the verification counters ([g_err_lock]). *)
Record errlog := Errlog {
  g_err_count : Z;
  g_err_first : Z;
  g_err_first_path : bytes;
  g_verify_metadata_mismatches : Z;
  g_verify_data_mismatches : Z;
  g_verify_zero_mismatches : Z;
  g_verify_io_failures : Z;
  g_verify_malformed_batches : Z;
  g_verify_ownership_unpreserved : Z
}.

Definition set_g_err_count (x : Z) (s : errlog) : errlog :=
  Errlog x (g_err_first s) (g_err_first_path s) (g_verify_metadata_mismatches s) (g_verify_data_mismatches s) (g_verify_zero_mismatches s) (g_verify_io_failures s) (g_verify_malformed_batches s) (g_verify_ownership_unpreserved s).
Definition set_g_err_first (x : Z) (s : errlog) : errlog :=
  Errlog (g_err_count s) x (g_err_first_path s) (g_verify_metadata_mismatches s) (g_verify_data_mismatches s) (g_verify_zero_mismatches s) (g_verify_io_failures s) (g_verify_malformed_batches s) (g_verify_ownership_unpreserved s).
Definition set_g_err_first_path (x : bytes) (s : errlog) : errlog :=
  Errlog (g_err_count s) (g_err_first s) x (g_verify_metadata_mismatches s) (g_verify_data_mismatches s) (g_verify_zero_mismatches s) (g_verify_io_failures s) (g_verify_malformed_batches s) (g_verify_ownership_unpreserved s).
Definition set_g_verify_metadata_mismatches (x : Z) (s : errlog) : errlog :=
  Errlog (g_err_count s) (g_err_first s) (g_err_first_path s) x (g_verify_data_mismatches s) (g_verify_zero_mismatches s) (g_verify_io_failures s) (g_verify_malformed_batches s) (g_verify_ownership_unpreserved s).
Definition set_g_verify_data_mismatches (x : Z) (s : errlog) : errlog :=
  Errlog (g_err_count s) (g_err_first s) (g_err_first_path s) (g_verify_metadata_mismatches s) x (g_verify_zero_mismatches s) (g_verify_io_failures s) (g_verify_malformed_batches s) (g_verify_ownership_unpreserved s).
Definition set_g_verify_zero_mismatches (x : Z) (s : errlog) : errlog :=
  Errlog (g_err_count s) (g_err_first s) (g_err_first_path s) (g_verify_metadata_mismatches s) (g_verify_data_mismatches s) x (g_verify_io_failures s) (g_verify_malformed_batches s) (g_verify_ownership_unpreserved s).
Definition set_g_verify_io_failures (x : Z) (s : errlog) : errlog :=
  Errlog (g_err_count s) (g_err_first s) (g_err_first_path s) (g_verify_metadata_mismatches s) (g_verify_data_mismatches s) (g_verify_zero_mismatches s) x (g_verify_malformed_batches s) (g_verify_ownership_unpreserved s).
Definition set_g_verify_malformed_batches (x : Z) (s : errlog) : errlog :=
  Errlog (g_err_count s) (g_err_first s) (g_err_first_path s) (g_verify_metadata_mismatches s) (g_verify_data_mismatches s) (g_verify_zero_mismatches s) (g_verify_io_failures s) x (g_verify_ownership_unpreserved s).
Definition set_g_verify_ownership_unpreserved (x : Z) (s : errlog) : errlog :=
  Errlog (g_err_count s) (g_err_first s) (g_err_first_path s) (g_verify_metadata_mismatches s) (g_verify_data_mismatches s) (g_verify_zero_mismatches s) (g_verify_io_failures s) (g_verify_malformed_batches s) x.

(** ** The directory-creation cache *)

Inductive dir_cache_state := DIR_CREATING | DIR_READY | DIR_FAILED.
#[export] Instance dir_cache_state_eq_dec : EqDecision dir_cache_state.
Proof. solve_decision. Defined.

Record dir_cache_entry := DirEntry {
  dc_state : dir_cache_state;
  dc_err : Z;
  dc_mode_known : bool;
  dc_mode : Z;
  dc_path : bytes
}.

Definition set_dc_state (x : dir_cache_state) (s : dir_cache_entry) : dir_cache_entry :=
  DirEntry x (dc_err s) (dc_mode_known s) (dc_mode s) (dc_path s).
Definition set_dc_err (x : Z) (s : dir_cache_entry) : dir_cache_entry :=
  DirEntry (dc_state s) x (dc_mode_known s) (dc_mode s) (dc_path s).
Definition set_dc_mode_known (x : bool) (s : dir_cache_entry) : dir_cache_entry :=
  DirEntry (dc_state s) (dc_err s) x (dc_mode s) (dc_path s).
Definition set_dc_mode (x : Z) (s : dir_cache_entry) : dir_cache_entry :=
  DirEntry (dc_state s) (dc_err s) (dc_mode_known s) x (dc_path s).
Definition set_dc_path (x : bytes) (s : dir_cache_entry) : dir_cache_entry :=
  DirEntry (dc_state s) (dc_err s) (dc_mode_known s) (dc_mode s) x.

(** [g_dir_cache] (bucket index to chain) and the thread-local last hit. *)
Record dircache := DirCache {
  g_dir_cache : gmap Z (list dir_cache_entry);
  g_last_dir : bytes
}.

Definition set_g_dir_cache (x : gmap Z (list dir_cache_entry)) (s : dircache) : dircache :=
  DirCache x (g_last_dir s).
Definition set_g_last_dir (x : bytes) (s : dircache) : dircache :=
  DirCache (g_dir_cache s) x.

(** ** The directory-handle cache *)

Record dfd_entry := DfdEntry {
  de_fd : Z;
  de_refcount : Z;
  de_hash : Z;
  de_path : bytes
}.

Definition set_de_fd (x : Z) (s : dfd_entry) : dfd_entry :=
  DfdEntry x (de_refcount s) (de_hash s) (de_path s).
Definition set_de_refcount (x : Z) (s : dfd_entry) : dfd_entry :=
  DfdEntry (de_fd s) x (de_hash s) (de_path s).
Definition set_de_hash (x : Z) (s : dfd_entry) : dfd_entry :=
  DfdEntry (de_fd s) (de_refcount s) x (de_path s).
Definition set_de_path (x : bytes) (s : dfd_entry) : dfd_entry :=
  DfdEntry (de_fd s) (de_refcount s) (de_hash s) x.

(** Entries live in a heap and are named by their address; the hash chains
    and the LRU list (most recently used first) hold addresses. *)
Record dfdcache := DfdCache {
  dfd_heap : gmap nat dfd_entry;
  dfd_brk : nat;
  g_dfd_buckets : gmap Z (list nat);
  g_dfd_lru : list nat;
  g_dfd_count : Z;
  g_dfd_cap : Z
}.

Definition set_dfd_heap (x : gmap nat dfd_entry) (s : dfdcache) : dfdcache :=
  DfdCache x (dfd_brk s) (g_dfd_buckets s) (g_dfd_lru s) (g_dfd_count s) (g_dfd_cap s).
Definition set_dfd_brk (x : nat) (s : dfdcache) : dfdcache :=
  DfdCache (dfd_heap s) x (g_dfd_buckets s) (g_dfd_lru s) (g_dfd_count s) (g_dfd_cap s).
Definition set_g_dfd_buckets (x : gmap Z (list nat)) (s : dfdcache) : dfdcache :=
  DfdCache (dfd_heap s) (dfd_brk s) x (g_dfd_lru s) (g_dfd_count s) (g_dfd_cap s).
Definition set_g_dfd_lru (x : list nat) (s : dfdcache) : dfdcache :=
  DfdCache (dfd_heap s) (dfd_brk s) (g_dfd_buckets s) x (g_dfd_count s) (g_dfd_cap s).
Definition set_g_dfd_count (x : Z) (s : dfdcache) : dfdcache :=
  DfdCache (dfd_heap s) (dfd_brk s) (g_dfd_buckets s) (g_dfd_lru s) x (g_dfd_cap s).
Definition set_g_dfd_cap (x : Z) (s : dfdcache) : dfdcache :=
  DfdCache (dfd_heap s) (dfd_brk s) (g_dfd_buckets s) (g_dfd_lru s) (g_dfd_count s) x.

(** ** The whole server *)

Record server := Server {
  s_cfg : config;
  g_files : list open_file;
  s_err : errlog;
  s_dirs : dircache;
  s_dfd : dfdcache;
  g_drain_bytes : Z;
  g_drain_ns : Z;
  g_wbuf_cap : Z;
  g_chown_permission_warned : bool;
  g_verify_atime_warned : bool;
  put_seq : Z;
  sym_seq : Z;
  link_seq : Z;
  g_pool_n : Z;
  g_pool_limit : Z
}.

Definition set_s_cfg (x : config) (s : server) : server :=
  Server x (g_files s) (s_err s) (s_dirs s) (s_dfd s) (g_drain_bytes s) (g_drain_ns s) (g_wbuf_cap s) (g_chown_permission_warned s) (g_verify_atime_warned s) (put_seq s) (sym_seq s) (link_seq s) (g_pool_n s) (g_pool_limit s).
Definition set_g_files (x : list open_file) (s : server) : server :=
  Server (s_cfg s) x (s_err s) (s_dirs s) (s_dfd s) (g_drain_bytes s) (g_drain_ns s) (g_wbuf_cap s) (g_chown_permission_warned s) (g_verify_atime_warned s) (put_seq s) (sym_seq s) (link_seq s) (g_pool_n s) (g_pool_limit s).
Definition set_s_err (x : errlog) (s : server) : server :=
  Server (s_cfg s) (g_files s) x (s_dirs s) (s_dfd s) (g_drain_bytes s) (g_drain_ns s) (g_wbuf_cap s) (g_chown_permission_warned s) (g_verify_atime_warned s) (put_seq s) (sym_seq s) (link_seq s) (g_pool_n s) (g_pool_limit s).
Definition set_s_dirs (x : dircache) (s : server) : server :=
  Server (s_cfg s) (g_files s) (s_err s) x (s_dfd s) (g_drain_bytes s) (g_drain_ns s) (g_wbuf_cap s) (g_chown_permission_warned s) (g_verify_atime_warned s) (put_seq s) (sym_seq s) (link_seq s) (g_pool_n s) (g_pool_limit s).
Definition set_s_dfd (x : dfdcache) (s : server) : server :=
  Server (s_cfg s) (g_files s) (s_err s) (s_dirs s) x (g_drain_bytes s) (g_drain_ns s) (g_wbuf_cap s) (g_chown_permission_warned s) (g_verify_atime_warned s) (put_seq s) (sym_seq s) (link_seq s) (g_pool_n s) (g_pool_limit s).
Definition set_g_drain_bytes (x : Z) (s : server) : server :=
  Server (s_cfg s) (g_files s) (s_err s) (s_dirs s) (s_dfd s) x (g_drain_ns s) (g_wbuf_cap s) (g_chown_permission_warned s) (g_verify_atime_warned s) (put_seq s) (sym_seq s) (link_seq s) (g_pool_n s) (g_pool_limit s).
Definition set_g_drain_ns (x : Z) (s : server) : server :=
  Server (s_cfg s) (g_files s) (s_err s) (s_dirs s) (s_dfd s) (g_drain_bytes s) x (g_wbuf_cap s) (g_chown_permission_warned s) (g_verify_atime_warned s) (put_seq s) (sym_seq s) (link_seq s) (g_pool_n s) (g_pool_limit s).
Definition set_g_wbuf_cap (x : Z) (s : server) : server :=
  Server (s_cfg s) (g_files s) (s_err s) (s_dirs s) (s_dfd s) (g_drain_bytes s) (g_drain_ns s) x (g_chown_permission_warned s) (g_verify_atime_warned s) (put_seq s) (sym_seq s) (link_seq s) (g_pool_n s) (g_pool_limit s).
Definition set_g_chown_permission_warned (x : bool) (s : server) : server :=
  Server (s_cfg s) (g_files s) (s_err s) (s_dirs s) (s_dfd s) (g_drain_bytes s) (g_drain_ns s) (g_wbuf_cap s) x (g_verify_atime_warned s) (put_seq s) (sym_seq s) (link_seq s) (g_pool_n s) (g_pool_limit s).
Definition set_g_verify_atime_warned (x : bool) (s : server) : server :=
  Server (s_cfg s) (g_files s) (s_err s) (s_dirs s) (s_dfd s) (g_drain_bytes s) (g_drain_ns s) (g_wbuf_cap s) (g_chown_permission_warned s) x (put_seq s) (sym_seq s) (link_seq s) (g_pool_n s) (g_pool_limit s).
Definition set_put_seq (x : Z) (s : server) : server :=
  Server (s_cfg s) (g_files s) (s_err s) (s_dirs s) (s_dfd s) (g_drain_bytes s) (g_drain_ns s) (g_wbuf_cap s) (g_chown_permission_warned s) (g_verify_atime_warned s) x (sym_seq s) (link_seq s) (g_pool_n s) (g_pool_limit s).
Definition set_sym_seq (x : Z) (s : server) : server :=
  Server (s_cfg s) (g_files s) (s_err s) (s_dirs s) (s_dfd s) (g_drain_bytes s) (g_drain_ns s) (g_wbuf_cap s) (g_chown_permission_warned s) (g_verify_atime_warned s) (put_seq s) x (link_seq s) (g_pool_n s) (g_pool_limit s).
Definition set_link_seq (x : Z) (s : server) : server :=
  Server (s_cfg s) (g_files s) (s_err s) (s_dirs s) (s_dfd s) (g_drain_bytes s) (g_drain_ns s) (g_wbuf_cap s) (g_chown_permission_warned s) (g_verify_atime_warned s) (put_seq s) (sym_seq s) x (g_pool_n s) (g_pool_limit s).
Definition set_g_pool_n (x : Z) (s : server) : server :=
  Server (s_cfg s) (g_files s) (s_err s) (s_dirs s) (s_dfd s) (g_drain_bytes s) (g_drain_ns s) (g_wbuf_cap s) (g_chown_permission_warned s) (g_verify_atime_warned s) (put_seq s) (sym_seq s) (link_seq s) x (g_pool_limit s).
Definition set_g_pool_limit (x : Z) (s : server) : server :=
  Server (s_cfg s) (g_files s) (s_err s) (s_dirs s) (s_dfd s) (g_drain_bytes s) (g_drain_ns s) (g_wbuf_cap s) (g_chown_permission_warned s) (g_verify_atime_warned s) (put_seq s) (sym_seq s) (link_seq s) (g_pool_n s) x.

(** The state of a freshly started process. *)
Definition errlog0 : errlog := Errlog 0 0 [] 0 0 0 0 0 0.
Definition dircache0 : dircache := DirCache ∅ [].
Definition dfdcache0 : dfdcache := DfdCache ∅ 0 ∅ [] 0 0.
Definition config0 : config := Config [] 0 false 0 0 [] true true.
Definition server0 : server :=
  Server config0 [] errlog0 dircache0 dfdcache0 0 0 0 false false 0 0 0 0 0.

(** * Programs over a part of the state *)

Record lens (S T : Type) := Lens { lget : S -> T; lset : T -> S -> S }.
Arguments Lens {S T}.
Arguments lget {S T}.
Arguments lset {S T}.

Definition zoom {E S T A} (l : lens S T) (c : M E T A) : M E S A := fun s =>
  prog_bind (fun '(a, t) => Ret (a, lset l t s)) (c (lget l s)).

Lemma wpM_zoom {E S T A} (m : monitor E) (l : lens S T) (c : M E T A) s g
    (Q : mstate m -> A -> S -> Prop) :
  wpM m c (lget l s) g (fun g a t => Q g a (lset l t s)) -> wpM m (zoom l c) s g Q.
Proof.
  intros H. unfold wpM, zoom. apply wp_bind. eapply wp_mono; [exact H|]. by intros g' [a t].
Qed.

Definition l_dirs : lens server dircache := Lens s_dirs set_s_dirs.
Definition l_dfd : lens server dfdcache := Lens s_dfd set_s_dfd.

(** Programs of the server. *)
Abbreviation SM := (M posix server).

(** * The error log *)

Inductive verify_error_kind :=
| VERIFY_ERR_METADATA | VERIFY_ERR_DATA | VERIFY_ERR_ZERO | VERIFY_ERR_IO | VERIFY_ERR_MALFORMED.

(** The part both logging functions share: remember the first failure, count. *)
Definition log_op_error_log (path : bytes) (err : Z) (l : errlog) : errlog :=
  let l := if decide (g_err_count l = 0)
           then set_g_err_first_path (snprintf_s PATH_MAX path)
                  (set_g_err_first (- Z.abs err) l)
           else l in
  set_g_err_count (u64 (g_err_count l + 1)) l.

Definition log_op_error (path : bytes) (err : Z) : SM unit :=
  modify (fun s => set_s_err (log_op_error_log path err (s_err s)) s).

Definition count_verify_error (kind : verify_error_kind) (l : errlog) : errlog :=
  match kind with
  | VERIFY_ERR_METADATA => set_g_verify_metadata_mismatches (u64 (g_verify_metadata_mismatches l + 1)) l
  | VERIFY_ERR_DATA => set_g_verify_data_mismatches (u64 (g_verify_data_mismatches l + 1)) l
  | VERIFY_ERR_ZERO => set_g_verify_zero_mismatches (u64 (g_verify_zero_mismatches l + 1)) l
  | VERIFY_ERR_IO => set_g_verify_io_failures (u64 (g_verify_io_failures l + 1)) l
  | VERIFY_ERR_MALFORMED => set_g_verify_malformed_batches (u64 (g_verify_malformed_batches l + 1)) l
  end.

Definition log_verify_error (kind : verify_error_kind) (path : bytes) (err : Z) : SM unit :=
  modify (fun s => set_s_err (log_op_error_log path err (count_verify_error kind (s_err s))) s).

Definition note_verify_ownership_unpreserved : SM unit :=
  modify (fun s => set_s_err
    (set_g_verify_ownership_unpreserved (u64 (g_verify_ownership_unpreserved (s_err s) + 1)) (s_err s)) s).

(** * The open-file table *)

Fixpoint file_find (id : Z) (l : list open_file) : option open_file :=
  match l with
  | [] => None
  | f :: l => if decide (f_id f = id) then Some f else file_find id l
  end.

(** Unlink the entry [file_find id] designates. *)
Fixpoint file_remove (id : Z) (l : list open_file) : list open_file :=
  match l with
  | [] => []
  | f :: l => if decide (f_id f = id) then l else f :: file_remove id l
  end.

(** Assignment through the pointer [file_find id] returned. *)
Fixpoint file_update (id : Z) (u : open_file -> open_file) (l : list open_file) : list open_file :=
  match l with
  | [] => []
  | f :: l => if decide (f_id f = id) then u f :: l else f :: file_update id u l
  end.

Definition push_file (f : open_file) : SM unit := modify (fun s => set_g_files (f :: g_files s) s).
Definition update_file (id : Z) (u : open_file -> open_file) : SM unit :=
  modify (fun s => set_g_files (file_update id u (g_files s)) s).
Definition remove_file (id : Z) : SM unit := modify (fun s => set_g_files (file_remove id (g_files s)) s).
