(* ===== verification/DirCache.v ===== *)
(** The server's directory-creation cache (src/server.c, "Directory creation
    cache"): hashing, the bucketed table, the optimistic [mkdir] that climbs
    to the parent only on ENOENT, and the record of which mode a directory was
    created with.

    The model is the cache as one thread of the server uses it: an entry is
    CREATING only between its insertion and the end of the same call, so the
    wait on a CREATING entry (another thread's) is [stuck].  The theorems show
    that a lone caller never waits, that the table implements a map from paths,
    that READY is only ever recorded for a directory that exists, and that a
    READY or FAILED answer costs no system call. *)

From S2P Require Export ServerState.

Definition DIR_CACHE_BUCKETS : Z := 2 ^ 20.

(** 64-bit FNV-1a, folded to 32 bits. *)
Definition dir_cache_hash (path : bytes) : Z :=
  let h := foldl (fun h b => u64 (Z.lxor h (byte.unsigned b) * 1099511628211))
             1469598103934665603 path in
  u32 (Z.lxor h (Z.shiftr h 32)).

Definition dir_bucket (path : bytes) : Z := dir_cache_hash path &. (DIR_CACHE_BUCKETS - 1).

Definition chain (dc : dircache) (bucket : Z) : list dir_cache_entry :=
  default [] (g_dir_cache dc !! bucket).

Fixpoint find_entry (path : bytes) (l : list dir_cache_entry) : option dir_cache_entry :=
  match l with
  | [] => None
  | e :: l => if decide (dc_path e = path) then Some e else find_entry path l
  end.

Definition dir_cache_find_locked (dc : dircache) (path : bytes) (bucket : Z) : option dir_cache_entry :=
  find_entry path (chain dc bucket).

(** [entry->next = g_dir_cache[bucket]; g_dir_cache[bucket] = entry]. *)
Definition dir_cache_push (bucket : Z) (e : dir_cache_entry) (dc : dircache) : dircache :=
  set_g_dir_cache (<[bucket := e :: chain dc bucket]> (g_dir_cache dc)) dc.

(** Assignment through the entry pointer of [path]. *)
Fixpoint update_entry (path : bytes) (u : dir_cache_entry -> dir_cache_entry)
    (l : list dir_cache_entry) : list dir_cache_entry :=
  match l with
  | [] => []
  | e :: l => if decide (dc_path e = path) then u e :: l else e :: update_entry path u l
  end.

Definition dir_cache_update (path : bytes) (u : dir_cache_entry -> dir_cache_entry)
    (dc : dircache) : dircache :=
  set_g_dir_cache (<[dir_bucket path := update_entry path u (chain dc (dir_bucket path))]>
                     (g_dir_cache dc)) dc.

Definition existing_path_is_dir (path : bytes) : M posix dircache (res unit) :=
  r ← call (lstat path);
  match r with
  | Err e => mret (Err e)
  | Ok st => if S_ISDIR (st_mode st) then mret (Ok tt) else mret (Err ENOTDIR)
  end.

Definition creating_entry (dir : bytes) : dir_cache_entry := DirEntry DIR_CREATING 0 false 0 dir.

(** [entry->mode_known = 1; entry->mode = mode & 07777]. *)
Definition record_mode (dir : bytes) (mode : Z) : M posix dircache unit :=
  modify (dir_cache_update dir (fun e => set_dc_mode (mode &. o07777) (set_dc_mode_known true e))).

(** The recursion climbs towards the root; [fuel] bounds its depth. *)
Fixpoint ensure_dir_rec (fuel : nat) (dir : bytes) (mode : Z) : M posix dircache (res unit) :=
  match fuel with
  | O => stuck
  | S fuel =>
      dc ← get;
      if decide (dir = g_last_dir dc) then mret (Ok tt) else
      let bucket := dir_bucket dir in
      match dir_cache_find_locked dc dir bucket with
      | Some entry =>
          match dc_state entry with
          | DIR_CREATING => stuck
          | DIR_READY => modify (set_g_last_dir (snprintf_s PATH_MAX dir));; mret (Ok tt)
          | DIR_FAILED => mret (Err (dc_err entry))
          end
      | None =>
          allocated ← call (malloc (72 + zlen dir + 1));
          if negb allocated then mret (Err ENOMEM) else
          modify (dir_cache_push bucket (creating_entry dir));;
          r ← call (mkdir dir mode);
          rc ← match r with
               | Ok _ => record_mode dir mode;; mret (Ok tt)
               | Err e =>
                   if decide (e = EEXIST) then existing_path_is_dir dir
                   else if decide (e = ENOENT) then
                     let parent := (split_dir_base dir PATH_MAX PATH_MAX).1 in
                     if decide (parent = dir) then mret (Err ENOENT) else
                     rp ← ensure_dir_rec fuel parent o0777;
                     match rp with
                     | Err e => mret (Err e)
                     | Ok _ =>
                         r ← call (mkdir dir mode);
                         match r with
                         | Ok _ => record_mode dir mode;; mret (Ok tt)
                         | Err e => if decide (e = EEXIST) then existing_path_is_dir dir
                                    else mret (Err e)
                         end
                     end
                   else mret (Err e)
               end;
          match rc with
          | Ok _ =>
              modify (dir_cache_update dir (set_dc_state DIR_READY));;
              modify (set_g_last_dir (snprintf_s PATH_MAX dir));;
              mret (Ok tt)
          | Err saved_err =>
              let err := if decide (saved_err = 0) then EIO else saved_err in
              modify (dir_cache_update dir (fun e => set_dc_err err (set_dc_state DIR_FAILED e)));;
              mret (Err err)
          end
      end
  end.

(** A path has fewer ancestors than characters. *)
Definition ensure_dir_cached_mode (dir : bytes) (mode : Z) : M posix dircache (res unit) :=
  ensure_dir_rec (2 + length dir) dir mode.

Definition dir_cache_mode_matches (dc : dircache) (dir : bytes) (mode : Z) : bool :=
  match dir_cache_find_locked dc dir (dir_bucket dir) with
  | Some e => bool_decide (dc_state e = DIR_READY) && dc_mode_known e
              && bool_decide (dc_mode e = mode &. o07777)
  | None => false
  end.

(** [dir_cache_destroy] frees every chain. *)
Definition dir_cache_destroy (dc : dircache) : dircache := set_g_dir_cache ∅ dc.

(** * The table as a map from paths *)

(** Specification view of the table. *)
Definition dir_lookup (dc : dircache) (path : bytes) : option dir_cache_entry :=
  dir_cache_find_locked dc path (dir_bucket path).

Lemma find_update p q u l :
  (forall e, dc_path (u e) = dc_path e) ->
  find_entry q (update_entry p u l) =
    if decide (p = q) then u <$> find_entry q l else find_entry q l.
Proof.
  intros Hu. induction l as [|e l IH]; simpl; [by case_decide|].
  destruct (decide (dc_path e = p)) as [Hp|Hp]; simpl; rewrite ?Hu; repeat case_decide;
    simplify_eq; try done.
Qed.

Lemma dir_lookup_update dc p q u :
  (forall e, dc_path (u e) = dc_path e) ->
  dir_lookup (dir_cache_update p u dc) q =
    if decide (p = q) then u <$> dir_lookup dc q else dir_lookup dc q.
Proof.
  intros Hu. unfold dir_lookup, dir_cache_find_locked, dir_cache_update, chain. simpl.
  destruct (decide (dir_bucket p = dir_bucket q)) as [Hb|Hb].
  - rewrite Hb, lookup_insert_eq. simpl. by apply find_update.
  - rewrite lookup_insert_ne by done. by case_decide; [congruence|].
Qed.

Lemma dir_lookup_push dc p e q :
  dc_path e = p ->
  dir_lookup (dir_cache_push (dir_bucket p) e dc) q =
    if decide (p = q) then Some e else dir_lookup dc q.
Proof.
  intros Hp. unfold dir_lookup, dir_cache_find_locked, dir_cache_push, chain. simpl.
  destruct (decide (dir_bucket p = dir_bucket q)) as [Hb|Hb].
  - rewrite Hb, lookup_insert_eq. simpl. rewrite Hp. done.
  - rewrite lookup_insert_ne by done. by case_decide; [congruence|].
Qed.

Lemma dir_lookup_last dc x q : dir_lookup (set_g_last_dir x dc) q = dir_lookup dc q.
Proof. done. Qed.

(** The state recorded for a path. *)
Definition dstate (dc : dircache) (p : bytes) : option dir_cache_state :=
  dc_state <$> dir_lookup dc p.

Lemma dstate_push dc p q :
  dstate (dir_cache_push (dir_bucket p) (creating_entry p) dc) q =
    if decide (p = q) then Some DIR_CREATING else dstate dc q.
Proof. unfold dstate. rewrite dir_lookup_push by done. by case_decide. Qed.

Lemma dstate_record_mode dc p mode q :
  dstate (dir_cache_update p (fun e => set_dc_mode mode (set_dc_mode_known true e)) dc) q = dstate dc q.
Proof.
  unfold dstate. rewrite dir_lookup_update by done. case_decide; [|done].
  by destruct (dir_lookup dc q).
Qed.

Lemma dstate_ready dc p q :
  dstate (dir_cache_update p (set_dc_state DIR_READY) dc) q =
    if decide (p = q) then (fun _ => DIR_READY) <$> dstate dc q else dstate dc q.
Proof.
  unfold dstate. rewrite dir_lookup_update by done. case_decide; [|done].
  by destruct (dir_lookup dc q).
Qed.

Lemma dstate_failed dc p q err :
  dstate (dir_cache_update p (fun e => set_dc_err err (set_dc_state DIR_FAILED e)) dc) q =
    if decide (p = q) then (fun _ => DIR_FAILED) <$> dstate dc q else dstate dc q.
Proof.
  unfold dstate. rewrite dir_lookup_update by done. case_decide; [|done].
  by destruct (dir_lookup dc q).
Qed.

Lemma dstate_last dc x q : dstate (set_g_last_dir x dc) q = dstate dc q.
Proof. done. Qed.

#[export] Hint Rewrite dstate_push dstate_record_mode dstate_ready dstate_failed dstate_last : dstate.

(** * A file system of directories *)

(** Ghost state: which component lists exist, and whether as directories. *)
Abbreviation dirfs := (gmap (list bytes) bool).

Definition parent_of (cs : list bytes) : list bytes := take (pred (length cs)) cs.

Section fs.
(** Errors the kernel may give for reasons of its own (EACCES, ENOSPC, ...),
    and whether allocations may fail. *)
Context (err_ok : Z -> Prop) (malloc_may_fail : Prop).

(** mkdir(2) and lstat(2) on that file system. *)
Definition fs_adm (g : dirfs) R (e : posix R) : R -> Prop :=
  match e in posix R return R -> Prop with
  | malloc _ => fun ok => ok = false -> malloc_may_fail
  | mkdir p _ => fun r => forall cs, p = render cs -> Forall good cs ->
      match r with
      | Ok _ => g !! cs = None /\ g !! parent_of cs = Some true
      | Err e =>
          (e = EEXIST /\ is_Some (g !! cs)) \/
          (e = ENOENT /\ cs <> [] /\ g !! cs = None /\ g !! parent_of cs = None) \/
          (e = ENOTDIR /\ g !! parent_of cs = Some false) \/
          (e <> EEXIST /\ e <> ENOENT /\ err_ok e)
      end
  | lstat p => fun r => forall cs, p = render cs -> Forall good cs ->
      match r with
      | Ok st => g !! cs = Some (S_ISDIR (st_mode st))
      | Err e => (e = ENOENT /\ g !! cs = None) \/ err_ok e
      end
  | _ => fun _ => True
  end.

(** The only calls the cache makes. *)
Definition fs_pre (g : dirfs) R (e : posix R) : Prop :=
  match e with malloc _ | mkdir _ _ | lstat _ => True | _ => False end.

(** A successful mkdir adds the directory. *)
Definition fs_upd (g : dirfs) R (e : posix R) : R -> dirfs :=
  match e in posix R return R -> dirfs with
  | mkdir p _ => fun r =>
      match r with
      | Ok _ => <[tokens p := true]> g
      | Err _ => g
      end
  | _ => fun _ => g
  end.

Definition fs : monitor posix := Monitor dirfs fs_pre fs_adm fs_upd False.

Definition creating (dc : dircache) (p : bytes) : Prop :=
  dstate dc p = Some DIR_CREATING.

(** Only directories that exist are READY, and so is the last hit. *)
Definition ready_ok (dc : dircache) (g : dirfs) : Prop :=
  forall cs, Forall good cs ->
    (dstate dc (render cs) = Some DIR_READY \/ g_last_dir dc = render cs) ->
    g !! cs = Some true.

(** Only [cs] and its ancestors may have been added, as directories. *)
Definition grows (g g' : dirfs) (cs : list bytes) : Prop :=
  forall ks, g' !! ks = g !! ks \/
    (g !! ks = None /\ g' !! ks = Some true /\ ks `prefix_of` cs).

(** Why a call can fail. *)
Definition fail_cause (dc : dircache) (g : dirfs) (cs : list bytes) (e : Z) : Prop :=
  (e = ENOMEM /\ malloc_may_fail) \/ err_ok e \/ (e = EIO /\ err_ok 0) \/
  (exists ks, ks `prefix_of` cs /\ g !! ks = Some false) \/
  g !! [] = None \/
  (exists ks, ks `prefix_of` cs /\ dstate dc (render ks) = Some DIR_FAILED).

Definition ensure_post (dc : dircache) (g : dirfs) (cs : list bytes)
    (g' : dirfs) (r : res unit) (dc' : dircache) : Prop :=
  grows g g' cs /\ ready_ok dc' g' /\ (forall p, creating dc' p <-> creating dc p) /\
  match r with
  | Ok _ => g' !! cs = Some true
  | Err e => fail_cause dc g cs e
  end.

(** The state between the insertion of the entry and its resolution. *)
Definition mid_post (dc : dircache) (g : dirfs) (cs : list bytes)
    (g' : dirfs) (r : res unit) (dc' : dircache) : Prop :=
  grows g g' cs /\ ready_ok dc' g' /\ (forall p, creating dc' p <-> creating dc p \/ p = render cs) /\
  match r with
  | Ok _ => g' !! cs = Some true
  | Err e => fail_cause dc g cs e \/ (e = 0 /\ err_ok 0)
  end.

Lemma grows_refl g cs : grows g g cs.
Proof. intros ks. by left. Qed.

Lemma grows_insert g0 g cs : g !! cs = None -> grows g0 g cs -> grows g0 (<[cs := true]> g) cs.
Proof.
  intros Hn Hg ks. rewrite lookup_insert. case_decide as Hd; [subst|apply Hg].
  right. destruct (Hg ks) as [H|(? & H & _)]; split_and!; try done; congruence.
Qed.

Lemma grows_prefix g g' ks cs : ks `prefix_of` cs -> grows g g' ks -> grows g g' cs.
Proof.
  intros Hp Hg x. destruct (Hg x) as [?|(? & ? & ?)]; [by left|right].
  split_and!; [done|done|by etransitivity].
Qed.

Lemma grows_false g g' cs ks : grows g g' cs -> g' !! ks = Some false -> g !! ks = Some false.
Proof. intros Hg H. destruct (Hg ks) as [?|(? & ? & _)]; congruence. Qed.

Lemma grows_None g g' cs ks : grows g g' cs -> g' !! ks = None -> g !! ks = None.
Proof. intros Hg H. destruct (Hg ks) as [?|(? & ? & _)]; congruence. Qed.

Hint Resolve grows_refl : core.

Lemma mid_push dc g cs :
  ready_ok dc g -> ~ is_Some (dstate dc (render cs)) ->
  ready_ok (dir_cache_push (dir_bucket (render cs)) (creating_entry (render cs)) dc) g /\
  (forall p, creating (dir_cache_push (dir_bucket (render cs)) (creating_entry (render cs)) dc) p
     <-> creating dc p \/ p = render cs).
Proof.
  intros Hr Hn. split.
  - intros ks Hks [H|H]; [|by apply Hr; [|right]].
    rewrite dstate_push in H. case_decide; [done|]. apply Hr; auto.
  - intros p. unfold creating. rewrite dstate_push. case_decide as Hd.
    + subst. naive_solver.
    + split; [by left|intros [?| ->]; [done|congruence]].
Qed.

(** Resolution of the entry: READY with the last hit, or FAILED. *)
Lemma mid_finish dc g cs g1 rc dc1 :
  Forall good cs -> zlen (render cs) < PATH_MAX -> ~ creating dc (render cs) ->
  mid_post dc g cs g1 rc dc1 ->
  match rc with
  | Ok _ => ensure_post dc g cs g1 (Ok tt)
              (set_g_last_dir (snprintf_s PATH_MAX (render cs))
                 (dir_cache_update (render cs) (set_dc_state DIR_READY) dc1))
  | Err e => let err := if decide (e = 0) then EIO else e in
      ensure_post dc g cs g1 (Err err)
        (dir_cache_update (render cs) (fun x => set_dc_err err (set_dc_state DIR_FAILED x)) dc1)
  end.
Proof.
  intros Hg Hl Hc (Hsub & Hr & Hcr & Hrc).
  assert (Hin : is_Some (dstate dc1 (render cs))).
  { assert (creating dc1 (render cs)) as H by (apply Hcr; by right). unfold creating in H. eauto. }
  destruct rc as [[]|e]; simpl.
  - split_and!; [done| | |done].
    + intros ks Hks. autorewrite with dstate. case_decide as Hd.
      * apply (f_equal tokens) in Hd. rewrite !tokens_render in Hd by done. by subst.
      * intros [H|H]; [by apply Hr; auto|]. simpl in H.
        rewrite snprintf_s_id in H by done. done.
    + intros p. unfold creating in *. autorewrite with dstate. specialize (Hcr p).
      case_decide; [subst|naive_solver]. destruct Hin as [x Hx]. rewrite Hx in *. naive_solver.
  - split_and!; [done| | |].
    + intros ks Hks. autorewrite with dstate. case_decide as Hd.
      * intros [H|H]; [by destruct (dstate dc1 (render ks))|apply Hr; auto].
      * intros H. apply Hr; auto.
    + intros p. unfold creating in *. autorewrite with dstate. specialize (Hcr p).
      case_decide; [subst|naive_solver]. destruct Hin as [x Hx]. rewrite Hx in *. naive_solver.
    + unfold fail_cause in *. case_decide; naive_solver.
Qed.

(** What [existing_path_is_dir] says after an EEXIST. *)
Lemma existing_path_fs dc0 dc g0 g cs :
  Forall good cs -> is_Some (g !! cs) -> grows g0 g cs -> ready_ok dc g ->
  (forall p, creating dc p <-> creating dc0 p \/ p = render cs) ->
  wpM fs (existing_path_is_dir (render cs)) dc g
    (fun g' r dc' => mid_post dc0 g0 cs g' r dc').
Proof.
  intros Hg [b Hb] Hsub Hr Hc. unfold existing_path_is_dir. wp_step. wp_step; [done|].
  specialize (Hr0 cs eq_refl Hg). destruct r as [st|e].
  - destruct (S_ISDIR (st_mode st)); wp_step; (split_and!; [done..|]); [done|].
    left. do 3 right. left. exists cs. split; [done|by eapply grows_false].
  - wp_step. split_and!; [done..|]. left. destruct Hr0 as [[_ ?]|?]; [congruence|].
    by right; left.
Qed.

Lemma mkdir_ok_fs dc0 dc g0 g cs mode :
  Forall good cs -> g !! cs = None -> grows g0 g cs -> ready_ok dc g ->
  (forall p, creating dc p <-> creating dc0 p \/ p = render cs) ->
  mid_post dc0 g0 cs (<[tokens (render cs) := true]> g) (Ok tt)
    (dir_cache_update (render cs)
       (fun e => set_dc_mode (mode &. o07777) (set_dc_mode_known true e)) dc).
Proof.
  intros Hg Hn Hsub Hr Hc. rewrite tokens_render by done. split_and!.
  - by apply grows_insert.
  - intros ks Hks H. rewrite dstate_record_mode in H. rewrite lookup_insert.
    case_decide; [done|]. by apply Hr.
  - intros p. unfold creating in *. by rewrite dstate_record_mode.
  - by rewrite lookup_insert_eq.
Qed.

(** An error of the kernel's own, reported by mkdir. *)
Lemma mkdir_err_fs dc g0 g cs e :
  grows g0 g cs ->
  (e = ENOTDIR /\ g !! parent_of cs = Some false) \/ (e <> EEXIST /\ e <> ENOENT /\ err_ok e) ->
  fail_cause dc g0 cs e \/ (e = 0 /\ err_ok 0).
Proof.
  intros Hg [[-> H]|(_ & _ & H)]; left; unfold fail_cause; [|by right; left].
  do 3 right. left. exists (parent_of cs). split; [apply prefix_take|by eapply grows_false].
Qed.

Lemma parent_of_snoc cs c : parent_of (cs ++ [c]) = cs.
Proof. unfold parent_of. rewrite length_app, Nat.add_1_r. simpl. by rewrite take_app_length. Qed.

Lemma fail_cause_parent dc g cs c e :
  Forall good (cs ++ [c]) ->
  fail_cause (dir_cache_push (dir_bucket (render (cs ++ [c]))) (creating_entry (render (cs ++ [c]))) dc) g cs e ->
  fail_cause dc g (cs ++ [c]) e.
Proof.
  intros Hg. unfold fail_cause.
  intros [?|[?|[?|[(ks & Hp & ?)|[?|(ks & Hp & Hs)]]]]]; [tauto..| | |].
  - do 3 right. left. exists ks. split; [by apply prefix_app_r|done].
  - tauto.
  - do 5 right. exists ks. split; [by apply prefix_app_r|].
    rewrite dstate_push in Hs. by case_decide.
Qed.
End fs.

#[export] Hint Resolve grows_refl : core.

(** Steps a stateful program over the [fs] monitor. *)
Ltac fs_step := repeat wp_step; try done.

Section fs_ensure.
Context (err_ok : Z -> Prop) (malloc_may_fail : Prop).
Abbreviation FS := (fs err_ok malloc_may_fail).

Lemma ensure_dir_rec_fs fuel cs mode dc g :
  Forall good cs -> zlen (render cs) < PATH_MAX -> (length cs < fuel)%nat ->
  ready_ok dc g -> (forall p, creating dc p -> zlen (render cs) < zlen p) ->
  wpM FS (ensure_dir_rec fuel (render cs) mode) dc g (ensure_post err_ok malloc_may_fail dc g cs).
Proof.
  revert cs mode dc g. induction fuel as [|fuel IH]; intros cs mode dc g Hg Hl Hf Hr Hc; [lia|].
  simpl. wp_step. wp_step.
  destruct (decide (render cs = g_last_dir dc)) as [Hlast|Hlast].
  { wp_step. split_and!; [done..|]. apply Hr; auto. }
  destruct (dir_cache_find_locked dc (render cs) (dir_bucket (render cs))) as [en|] eqn:Hfind.
  - assert (Hs : dstate dc (render cs) = Some (dc_state en)) by (unfold dstate, dir_lookup; by rewrite Hfind).
    destruct (dc_state en) eqn:He.
    + exfalso. specialize (Hc _ Hs). lia.
    + fs_step. split_and!; [done| |done|by apply Hr; auto].
      intros ks Hks [H|H]; [by apply Hr; auto|]. simpl in H. rewrite snprintf_s_id in H by done.
      apply (f_equal tokens) in H. rewrite !tokens_render in H by done. subst. apply Hr; auto.
    + wp_step. split_and!; [done..|]. do 5 right. by exists cs.
  - assert (Hs : ~ is_Some (dstate dc (render cs))).
    { unfold dstate, dir_lookup. rewrite Hfind. by intros [? ?]. }
    assert (Hncr : ~ creating dc (render cs)) by (intros H; specialize (Hc _ H); lia).
    wp_step. wp_step; [done|]. destruct r; simpl; [|wp_step; split_and!; [done..|]; left; by auto].
    wp_step. wp_step. destruct (mid_push dc g cs Hr Hs) as [Hr1 Hc1].
    set (dc1 := dir_cache_push _ _ dc) in *.
    wp_step. wp_step; [done|]. specialize (Hr2 cs eq_refl Hg). wp_step.
    apply (wpM_mono FS _ _ _ (mid_post err_ok malloc_may_fail dc g cs)); cycle 1.
    { intros g1 rc dc2 Hmid. pose proof (mid_finish _ _ _ _ _ _ _ _ Hg Hl Hncr Hmid) as Hfin.
      destruct rc as [[]|e]; fs_step. }
    destruct r as [[]|e].
    + fs_step. destruct Hr2. by apply mkdir_ok_fs.
    + simpl. destruct (decide (e = EEXIST)) as [->|Hne].
      { apply existing_path_fs; try done. by destruct Hr2 as [[_ ?]|[[? _]|[[? _]|[? _]]]]. }
      destruct (decide (e = ENOENT)) as [->|Hnn].
      * destruct Hr2 as [[? _]|[(_ & Hroot & Hn & Hpn)|[[? _]|(_ & ? & _)]]]; try done.
        destruct cs as [|c ks _] using rev_ind; [done|]. rewrite parent_of_snoc in Hpn.
        apply Forall_app in Hg as Hg'. destruct Hg' as [Hks Hgc]. inversion_clear Hgc as [|? ? Hgc' _].
        pose proof (zlen_render_snoc ks c Hgc') as Hlen. pose proof (zlen_nonneg c).
        pose proof (zlen_nonneg (render ks)).
        assert (0 < zlen c) by (destruct Hgc', c; [done|]; unfold zlen; simpl; lia).
        rewrite split_dir_base_render by (done || lia). simpl.
        rewrite decide_False by (intros Heq; rewrite <- Heq in Hlen; lia).
        wp_step. eapply wpM_mono.
        { apply IH; try done; [lia|rewrite length_app in Hf; simpl in Hf; lia|].
          intros p Hp. apply Hc1 in Hp as [Hp| ->]; [specialize (Hc _ Hp)|]; lia. }
        intros g1 rp dc2 (Hsub & Hr3 & Hc3 & Hrp). destruct rp as [[]|e]; cycle 1.
        { wp_step. split_and!; [eapply grows_prefix; [|done]; by apply prefix_app_r|done| |].
          - intros p. by rewrite Hc3.
          - left. by eapply fail_cause_parent. }
        assert (Hsub2 : grows g g1 (ks ++ [c])) by (eapply grows_prefix; [|done]; by apply prefix_app_r).
        assert (Hc4 : forall p, creating dc2 p <-> creating dc p \/ p = render (ks ++ [c]))
          by (intros p; rewrite Hc3; apply Hc1).
        wp_call r Hr4. specialize (Hr4 _ eq_refl Hg). rewrite parent_of_snoc in Hr4.
        destruct r as [[]|e].
        { fs_step. destruct Hr4. by apply mkdir_ok_fs. }
        destruct (decide (e = EEXIST)) as [->|Hne2].
        { apply existing_path_fs; try done. by destruct Hr4 as [[_ ?]|[[? _]|[[? _]|[? _]]]]. }
        wp_step. split_and!; [done|done|done|]. eapply mkdir_err_fs; [done|]. rewrite parent_of_snoc.
        destruct Hr4 as [[? _]|[(_ & _ & _ & ?)|[?|?]]]; [done|congruence|auto..].
      * wp_step. split_and!; [done..|]. eapply mkdir_err_fs; [done|]. destruct Hr2 as [[? _]|[[? _]|[?|?]]]; auto; done.
Qed.
End fs_ensure.

(** C16.  [ensure_dir_cached_mode] makes directories: against any kernel whose
    mkdir and lstat follow the directory tree, from a cache whose READY
    entries exist and which no other thread is populating, the call terminates
    (it never waits and never exhausts the climb), answers success only when
    the directory exists, keeps the cache honest, and an error has a cause in
    the kernel: an error of its own, a non-directory on the way, or a failure
    already recorded for an ancestor. *)
Theorem ensure_dir_correct err_ok malloc_may_fail cs mode dc g :
  Forall good cs -> zlen (render cs) < PATH_MAX ->
  ready_ok dc g -> (forall p, ~ creating dc p) ->
  wpM (fs err_ok malloc_may_fail) (ensure_dir_cached_mode (render cs) mode) dc g
    (ensure_post err_ok malloc_may_fail dc g cs).
Proof.
  intros Hg Hl Hr Hc. apply ensure_dir_rec_fs; [done|done| |done|].
  - assert (length cs <= length (slashed cs))%nat.
    { clear. induction cs as [|c cs IH]; simpl; [lia|]. rewrite length_app. lia. }
    destruct cs; simpl in *; lia.
  - intros p Hp. by destruct (Hc p).
Qed.


Lemma ready_ok_start g : ready_ok dircache0 g.
Proof. intros cs _ [H|H]; [done|]. by destruct cs. Qed.
Lemma creating_start p : ~ creating dircache0 p.
Proof. by intros H. Qed.

Lemma ensure_dir_correct_witness :
  wpM (fs (fun _ => False) False)
    (ensure_dir_cached_mode (render [str "srv"; str "a"; str "b"]) 0x1ED) dircache0 {[ [] := true ]}
    (ensure_post (fun _ => False) False dircache0 {[ [] := true ]} [str "srv"; str "a"; str "b"]).
Proof.
  apply ensure_dir_correct;
    [apply (bool_decide_unpack _); by vm_compute|by vm_compute|apply ready_ok_start|apply creating_start].
Defined.

(** ** The answer of the cache costs nothing *)

(** A monitor that permits no call at all. *)
Definition silent : monitor posix :=
  Monitor unit (fun _ _ _ => False) (fun _ _ _ _ => True) (fun _ _ _ _ => tt) False.

(** Single flight: once a directory is recorded, asking for it again
    issues no system call whatever; READY answers success, FAILED answers the
    recorded error, and the recorded table is unchanged. *)
Theorem ensure_dir_cached_silent dc dir mode e :
  dir_lookup dc dir = Some e -> dc_state e <> DIR_CREATING -> g_last_dir dc <> dir ->
  wpM silent (ensure_dir_cached_mode dir mode) dc tt
    (fun _ r dc' =>
       r = (if decide (dc_state e = DIR_READY) then Ok tt else Err (dc_err e)) /\
       forall p, dir_lookup dc' p = dir_lookup dc p).
Proof.
  intros Hl Hc Hlast. unfold ensure_dir_cached_mode. simpl. wp_step. wp_step.
  rewrite decide_False by done. unfold dir_lookup in Hl. rewrite Hl.
  destruct (dc_state e) eqn:He; [done| |]; by repeat wp_step_pure.
Qed.

Lemma ensure_dir_cached_silent_witness :
  wpM silent (ensure_dir_cached_mode (str "/a") 0)
    (dir_cache_push (dir_bucket (str "/a")) (DirEntry DIR_FAILED EACCES false 0 (str "/a")) dircache0) tt
    (fun _ r _ => r = Err EACCES).
Proof.
  eapply wpM_mono.
  - apply (ensure_dir_cached_silent _ (str "/a") 0 (DirEntry DIR_FAILED EACCES false 0 (str "/a")));
      [by vm_compute|done|done].
  - intros g a s [-> _]. done.
Defined.
