(* ===== verification/DirFdCache.v ===== *)
(** The server's directory-handle cache (src/server.c, "directory fd cache"):
    a hash table and an LRU list over the same entries, pinning by reference
    count, eviction of unpinned entries from the cold end, and the acquisition
    that opens a missing directory relative to its cached parent.

    Entries are heap cells named by address; a hash chain is a list of
    addresses and the doubly linked LRU list is the list of addresses from the
    most to the least recently used. *)

From S2P Require Export DirCache EnvUtil.

Definition DFD_BUCKETS : Z := 2 ^ 16.

(** [dir_fd_cache_init]: [cur] is RLIMIT_NOFILE's soft limit, [env] the
    override variable. *)
Definition dir_fd_cache_init (cur : option Z) (env : option bytes) : Z :=
  let cap := match cur with
             | None => 8192
             | Some cur => if decide (1024 < cur) then i32 (cur - 512) else i32 (Z.quot cur 2)
             end in
  let cap := match env with
             | None | Some [] => cap
             | Some s => let r := strtol s in
                 if decide (st_end r = [] /\ 0 <= st_val r) then i32 (st_val r) else cap
             end in
  let cap := if decide (cap < 16) then 16 else cap in
  if decide (262144 < cap) then 262144 else cap.

(** Unlink one address from a list. *)
Fixpoint remove_addr (e : nat) (l : list nat) : list nat :=
  match l with
  | [] => []
  | x :: l => if decide (x = e) then l else x :: remove_addr e l
  end.

Definition dfd_lru_unlink (e : nat) (c : dfdcache) : dfdcache :=
  set_g_dfd_lru (remove_addr e (g_dfd_lru c)) c.
Definition dfd_lru_push_front (e : nat) (c : dfdcache) : dfdcache :=
  set_g_dfd_lru (e :: g_dfd_lru c) c.

Definition dfd_bucket (hash : Z) : Z := hash &. (DFD_BUCKETS - 1).
Definition dfd_chain (c : dfdcache) (hash : Z) : list nat :=
  default [] (g_dfd_buckets c !! dfd_bucket hash).

Definition set_entry (e : nat) (en : dfd_entry) (c : dfdcache) : dfdcache :=
  set_dfd_heap (<[e := en]> (dfd_heap c)) c.

(** The chain walk: first address whose entry has this hash and path. *)
Fixpoint chain_find (heap : gmap nat dfd_entry) (hash : Z) (path : bytes) (l : list nat) : option nat :=
  match l with
  | [] => None
  | a :: l =>
      match heap !! a with
      | Some en => if decide (de_hash en = hash /\ de_path en = path) then Some a
                   else chain_find heap hash path l
      | None => chain_find heap hash path l
      end
  end.

(** Find, pin, promote to the front. *)
Definition dfd_lookup_pin_locked (path : bytes) (hash : Z) (c : dfdcache) : option (nat * Z) * dfdcache :=
  match chain_find (dfd_heap c) hash path (dfd_chain c hash) with
  | None => (None, c)
  | Some a =>
      match dfd_heap c !! a with
      | None => (None, c)
      | Some en =>
          (Some (a, de_fd en),
           dfd_lru_push_front a (dfd_lru_unlink a
             (set_entry a (set_de_refcount (de_refcount en + 1) en) c)))
      end
  end.

Definition lookup_pin (path : bytes) (hash : Z) : M posix dfdcache (option (nat * Z)) :=
  state (dfd_lookup_pin_locked path hash).

(** Take an entry out of its chain, the LRU list and the heap. *)
Definition dfd_drop (a : nat) (en : dfd_entry) (c : dfdcache) : dfdcache :=
  let c := set_g_dfd_buckets
             (<[dfd_bucket (de_hash en) := remove_addr a (dfd_chain c (de_hash en))]> (g_dfd_buckets c)) c in
  let c := dfd_lru_unlink a c in
  set_g_dfd_count (g_dfd_count c - 1) (set_dfd_heap (delete a (dfd_heap c)) c).

(** The walk from the tail; [todo] is the rest of the list, coldest first. *)
Fixpoint evict_loop (todo : list nat) : M posix dfdcache unit :=
  match todo with
  | [] => mret tt
  | a :: todo =>
      c ← get;
      if decide (g_dfd_count c <= g_dfd_cap c) then mret tt else
      match dfd_heap c !! a with
      | None => stuck
      | Some en =>
          (if decide (de_refcount en = 0) then
             modify (dfd_drop a en);; _ ← call (close (de_fd en)); mret tt
           else mret tt);;
          evict_loop todo
      end
  end.
Definition dfd_evict_locked : M posix dfdcache unit := c ← get; evict_loop (reverse (g_dfd_lru c)).

Definition dir_fd_release_addr (a : nat) (c : dfdcache) : dfdcache :=
  match dfd_heap c !! a with
  | Some en => if decide (0 < de_refcount en) then set_entry a (set_de_refcount (de_refcount en - 1) en) c
               else c
  | None => c
  end.

(** [if (e) dir_fd_release(e)]. *)
Definition dir_fd_release (e : option nat) : M posix dfdcache unit :=
  match e with
  | None => mret tt
  | Some a => modify (dir_fd_release_addr a)
  end.

(** The insertion of a fresh entry, pinned once. *)
Definition dfd_insert (fd hash : Z) (dir : bytes) (c : dfdcache) : nat * dfdcache :=
  let a := dfd_brk c in
  let c := set_entry a (DfdEntry fd 1 hash dir) (set_dfd_brk (S a) c) in
  let c := set_g_dfd_buckets (<[dfd_bucket hash := a :: dfd_chain c hash]> (g_dfd_buckets c)) c in
  let c := dfd_lru_push_front a c in
  (a, set_g_dfd_count (g_dfd_count c + 1) c).

Definition insert_entry (fd hash : Z) (dir : bytes) : M posix dfdcache nat :=
  state (dfd_insert fd hash dir).

Definition DIR_OPEN_FLAGS : Z := O_PATH |. O_DIRECTORY |. O_NOFOLLOW |. O_CLOEXEC.
Definition DIR_OPEN_ABS_FLAGS : Z := O_PATH |. O_DIRECTORY |. O_CLOEXEC.

(** The fd and the pinned entry; on failure nothing is pinned. *)
Fixpoint dir_fd_acquire_rec (root : bytes) (fuel : nat) (dir : bytes) : M posix dfdcache (res (Z * nat)) :=
  match fuel with
  | O => stuck
  | S fuel =>
      cap ← gets g_dfd_cap;
      if decide (cap <= 0) then mret (Err EINVAL) else
      let hash := dir_cache_hash dir in
      hit ← lookup_pin dir hash;
      match hit with
      | Some (a, fd) => mret (Ok (fd, a))
      | None =>
          let '(parent, base) := split_dir_base dir PATH_MAX PATH_MAX in
          let use_parent := bool_decide (dir <> root) && bool_decide (parent <> dir)
                            && bool_decide (base <> []) && bool_decide (base <> [SLASH])
                            && path_under_root root parent in
          (* the descriptor opened through the parent, and the parent's pin *)
          '(fd, pe) ← (if use_parent then
                         rp ← dir_fd_acquire_rec root fuel parent;
                         match rp with
                         | Err _ => mret (None, None)
                         | Ok (pfd, pe) =>
                             r ← call (openat pfd base DIR_OPEN_FLAGS 0);
                             mret (match r with Ok fd => Some fd | Err _ => None end, Some pe)
                         end
                       else mret (None, None));
          r ← (match fd with
               | Some fd => mret (Ok fd)
               | None => call (open dir DIR_OPEN_ABS_FLAGS 0)
               end);
          dir_fd_release pe;;
          match r with
          | Err e => mret (Err e)
          | Ok fd =>
              again ← lookup_pin dir hash;
              match again with
              | Some (a, cached) => _ ← call (close fd); mret (Ok (cached, a))
              | None =>
                  allocated ← call (malloc (40 + zlen dir + 1));
                  if negb allocated then _ ← call (close fd); mret (Err ENOMEM) else
                  a ← insert_entry fd hash dir;
                  dfd_evict_locked;;
                  mret (Ok (fd, a))
              end
          end
      end
  end.

Definition dir_fd_acquire (root dir : bytes) : M posix dfdcache (res (Z * nat)) :=
  dir_fd_acquire_rec root (2 + length dir) dir.

(** Close every handle, hottest first, and forget everything. *)
Fixpoint close_entries (l : list nat) : M posix dfdcache unit :=
  match l with
  | [] => mret tt
  | a :: l =>
      c ← get;
      match dfd_heap c !! a with
      | None => stuck
      | Some en => _ ← call (close (de_fd en)); modify (set_dfd_heap (delete a (dfd_heap c)));; close_entries l
      end
  end.
Definition dir_fd_cache_destroy : M posix dfdcache unit :=
  c ← get;
  close_entries (g_dfd_lru c);;
  modify (fun c => set_g_dfd_buckets ∅ (set_g_dfd_count 0 (set_g_dfd_lru [] c))).
