(* ===== verification/DirFdInv.v ===== *)
(** Structural invariant of the directory-handle cache: the hash chains, the
    LRU list and the heap describe the same set of entries, the count is its
    size, there is one entry per path, and reference counts balance.  Proved
    against the [free] monitor: whatever the kernel answers. *)

From S2P Require Export DirFdCache.

Record dfd_wf (c : dfdcache) : Prop := DfdWf {
  wf_lru_nodup : NoDup (g_dfd_lru c);
  wf_lru : forall a, a ∈ g_dfd_lru c <-> is_Some (dfd_heap c !! a);
  wf_count : g_dfd_count c = zlen (g_dfd_lru c);
  wf_chain : forall a en, dfd_heap c !! a = Some en -> a ∈ dfd_chain c (de_hash en);
  wf_hash : forall a en, dfd_heap c !! a = Some en -> de_hash en = dir_cache_hash (de_path en);
  wf_path : forall a b ea eb, dfd_heap c !! a = Some ea -> dfd_heap c !! b = Some eb ->
    de_path ea = de_path eb -> a = b;
  wf_rc : forall a en, dfd_heap c !! a = Some en -> 0 <= de_refcount en;
  wf_brk : forall a, is_Some (dfd_heap c !! a) -> (a < dfd_brk c)%nat
}.

(** Pins on an entry; an entry that is not there has none. *)
Definition rc (c : dfdcache) (a : nat) : Z :=
  match dfd_heap c !! a with Some en => de_refcount en | None => 0 end.

(** * Lists of addresses *)

Lemma elem_of_remove_addr a e l : NoDup l -> a ∈ remove_addr e l <-> a ∈ l /\ a <> e.
Proof.
  induction 1 as [|x l Hx Hl IH]; simpl; [set_solver|]. case_decide; set_solver.
Qed.

Lemma elem_of_remove_addr_ne a e l : a <> e -> a ∈ l -> a ∈ remove_addr e l.
Proof. intros Hne. induction l as [|x l IH]; simpl; [done|]. case_decide; set_solver. Qed.

Lemma NoDup_remove_addr e l : NoDup l -> NoDup (remove_addr e l).
Proof.
  induction 1 as [|x l Hx Hl IH]; simpl; [constructor|]. case_decide; [done|].
  constructor; [|done]. rewrite elem_of_remove_addr by done. naive_solver.
Qed.

Lemma length_remove_addr e l : e ∈ l -> zlen (remove_addr e l) = zlen l - 1.
Proof.
  induction l as [|x l IH]; simpl; [set_solver|]. case_decide as Hd; [intros _; zlen_lia|].
  rewrite elem_of_cons. intros [->|Hin]; [done|]. rewrite !zlen_cons, IH by done. lia.
Qed.

(** * The pure operations *)

Lemma chain_find_None heap hash path l a en :
  chain_find heap hash path l = None -> a ∈ l -> heap !! a = Some en -> de_hash en = hash ->
  de_path en <> path.
Proof.
  induction l as [|b l IH]; simpl; [set_solver|]. intros Hf Hin Ha Hh.
  apply elem_of_cons in Hin as [<-|Hin].
  - rewrite Ha in Hf. case_decide; naive_solver.
  - apply IH; [|done|done|done]. destruct (heap !! b); [|done]. by case_decide.
Qed.

Lemma chain_find_elem heap hash path l a :
  chain_find heap hash path l = Some a ->
  a ∈ l /\ exists en, heap !! a = Some en /\ de_hash en = hash /\ de_path en = path.
Proof.
  induction l as [|b l IH]; simpl; [done|].
  destruct (heap !! b) as [en|] eqn:Hb; [|intros H; destruct (IH H); set_solver].
  case_decide as Hd; [|intros H; destruct (IH H); set_solver]. intros [= <-]. split; [set_solver|].
  naive_solver.
Qed.

(** The table finds exactly the entry of the path. *)
Lemma chain_find_wf c path :
  dfd_wf c ->
  match chain_find (dfd_heap c) (dir_cache_hash path) path (dfd_chain c (dir_cache_hash path)) with
  | Some a => exists en, dfd_heap c !! a = Some en /\ de_path en = path
  | None => forall a en, dfd_heap c !! a = Some en -> de_path en <> path
  end.
Proof.
  intros Hwf. destruct (chain_find _ _ _ _) as [a|] eqn:Hf.
  - destruct (chain_find_elem _ _ _ _ _ Hf) as (_ & en & ? & _ & ?). by exists en.
  - intros a en Ha Hp. eapply (chain_find_None _ _ _ _ a en Hf); [|done| |done].
    + pose proof (wf_chain _ Hwf a en Ha) as Hin. by rewrite (wf_hash _ Hwf a en Ha), Hp in Hin.
    + by rewrite (wf_hash _ Hwf a en Ha), Hp.
Qed.

Lemma set_refcount_wf c a en n :
  dfd_heap c !! a = Some en -> 0 <= n -> dfd_wf c -> dfd_wf (set_entry a (set_de_refcount n en) c).
Proof.
  intros Ha Hn [].
  assert (Hl : forall b eb, dfd_heap (set_entry a (set_de_refcount n en) c) !! b = Some eb ->
    exists e0, dfd_heap c !! b = Some e0 /\ de_hash e0 = de_hash eb /\ de_path e0 = de_path eb /\
      0 <= de_refcount eb).
  { intros b eb. simpl. rewrite lookup_insert. case_decide; [|by eauto 6]. intros [= <-]. subst. by exists en. }
  split; try done.
  - intros b. rewrite wf_lru0. simpl. rewrite lookup_insert_is_Some. split; [|naive_solver].
    intros. destruct (decide (a = b)); naive_solver.
  - intros b eb Hb. destruct (Hl _ _ Hb) as (e0 & H0 & <- & _ & _). by apply wf_chain0.
  - intros b eb Hb. destruct (Hl _ _ Hb) as (e0 & H0 & <- & <- & _). by apply (wf_hash0 b).
  - intros b b' eb eb' Hb Hb' Hp. destruct (Hl _ _ Hb) as (e0 & H0 & _ & E0 & _).
    destruct (Hl _ _ Hb') as (e1 & H1 & _ & E1 & _). apply (wf_path0 b b' e0 e1); [done|done|congruence].
  - intros b eb Hb. by destruct (Hl _ _ Hb) as (? & _ & _ & _ & ?).
  - intros b [eb Hb]. destruct (Hl _ _ Hb) as (e0 & H0 & _). apply wf_brk0. by eexists.
Qed.

(** Moving an entry to the front. *)
Lemma promote_wf c a :
  is_Some (dfd_heap c !! a) -> dfd_wf c -> dfd_wf (dfd_lru_push_front a (dfd_lru_unlink a c)).
Proof.
  intros Ha []. pose proof (proj2 (wf_lru0 a) Ha) as Hin. split; simpl; try done.
  - constructor; [|by apply NoDup_remove_addr]. rewrite elem_of_remove_addr by done. naive_solver.
  - intros b. rewrite elem_of_cons, elem_of_remove_addr, <- wf_lru0 by done.
    destruct (decide (b = a)); naive_solver.
  - rewrite zlen_cons, length_remove_addr by done. lia.
Qed.

Lemma rc_set_entry c a en b : rc (set_entry a en c) b = if decide (a = b) then de_refcount en else rc c b.
Proof. unfold rc. simpl. rewrite lookup_insert. by case_decide. Qed.

Lemma lookup_pin_wf path c r c' :
  dfd_lookup_pin_locked path (dir_cache_hash path) c = (r, c') -> dfd_wf c ->
  dfd_wf c' /\ g_dfd_cap c' = g_dfd_cap c /\ g_dfd_count c' = g_dfd_count c /\
  match r with
  | Some (a, fd) => (forall b, rc c' b = rc c b + (if decide (b = a) then 1 else 0)) /\
      exists en, dfd_heap c' !! a = Some en /\ de_fd en = fd /\ de_path en = path
  | None => c' = c /\ forall a en, dfd_heap c !! a = Some en -> de_path en <> path
  end.
Proof.
  intros H Hwf. pose proof (chain_find_wf c path Hwf) as Hc. unfold dfd_lookup_pin_locked in H.
  destruct (chain_find _ _ _ _) as [a|]; [|simplify_eq; by split_and!].
  destruct Hc as (en & Ha & Hp). rewrite Ha in H. simplify_eq. split_and!; [|done|done| |].
  - apply promote_wf; [simpl; rewrite lookup_insert_eq; by eexists|].
    apply set_refcount_wf; [done| |done]. pose proof (wf_rc _ Hwf a en Ha). lia.
  - intros b. etransitivity; [apply (rc_set_entry c a)|]. simpl. repeat case_decide; subst; try done; try lia.
    unfold rc. by rewrite Ha.
  - eexists. simpl. by rewrite lookup_insert_eq.
Qed.

Lemma release_wf a c :
  dfd_wf c -> dfd_wf (dir_fd_release_addr a c) /\ g_dfd_cap (dir_fd_release_addr a c) = g_dfd_cap c /\
    g_dfd_count (dir_fd_release_addr a c) = g_dfd_count c /\
    forall b, rc (dir_fd_release_addr a c) b = rc c b - (if decide (b = a /\ 0 < rc c a) then 1 else 0).
Proof.
  intros Hwf. unfold dir_fd_release_addr. destruct (dfd_heap c !! a) as [en|] eqn:Ha.
  - assert (Hrc : rc c a = de_refcount en) by (unfold rc; by rewrite Ha). case_decide as Hp.
    + split_and!; [apply set_refcount_wf; [done|lia|done]|done|done|].
      intros b. rewrite rc_set_entry. repeat case_decide; subst; simpl in *; try lia; naive_solver.
    + split_and!; [done|done|done|]. intros b. case_decide; [|lia]. lia.
  - split_and!; [done|done|done|]. intros b. case_decide; [|lia].
    assert (rc c a = 0) by (unfold rc; by rewrite Ha). lia.
Qed.

Lemma insert_wf fd dir c :
  (forall a en, dfd_heap c !! a = Some en -> de_path en <> dir) -> dfd_wf c ->
  let '(a, c') := dfd_insert fd (dir_cache_hash dir) dir c in
  dfd_wf c' /\ g_dfd_cap c' = g_dfd_cap c /\ (forall b, rc c' b = rc c b + (if decide (b = a) then 1 else 0)) /\
  dfd_heap c' !! a = Some (DfdEntry fd 1 (dir_cache_hash dir) dir) /\ g_dfd_count c' = g_dfd_count c + 1.
Proof.
  intros Hnew Hwf. destruct Hwf as [].
  assert (Hf : dfd_heap c !! dfd_brk c = None).
  { destruct (dfd_heap c !! dfd_brk c) eqn:He; [|done].
    specialize (wf_brk0 (dfd_brk c) ltac:(eauto)). lia. }
  assert (Hnl : dfd_brk c ∉ g_dfd_lru c) by (rewrite wf_lru0, Hf; by intros []).
  simpl. split_and!; [|done| |by rewrite lookup_insert_eq|done].
  - split; simpl.
    + by constructor.
    + intros b. rewrite elem_of_cons, wf_lru0, lookup_insert_is_Some.
      destruct (decide (dfd_brk c = b)); naive_solver.
    + rewrite zlen_cons. lia.
    + intros b en. rewrite lookup_insert. unfold dfd_chain. simpl. case_decide as Hb.
      * intros [= <-]. simpl. rewrite lookup_insert_eq. subst. set_solver.
      * intros He. specialize (wf_chain0 _ _ He). unfold dfd_chain in wf_chain0.
        rewrite lookup_insert. case_decide as Hk; [|done]. simpl. rewrite Hk. set_solver.
    + intros b en. rewrite lookup_insert. case_decide; [by intros [= <-]|apply wf_hash0].
    + intros a b ea eb. rewrite !lookup_insert. repeat case_decide; [congruence| | |apply wf_path0].
      * intros [= <-] He. simpl. intros Hp. by destruct (Hnew _ _ He).
      * intros He [= <-]. simpl. intros Hp. by destruct (Hnew _ _ He).
    + intros b en. rewrite lookup_insert. case_decide; [by intros [= <-]|apply wf_rc0].
    + intros b. rewrite lookup_insert_is_Some. intros [->|[_ Hb]]; [lia|]. specialize (wf_brk0 b Hb). lia.
  - intros b. unfold rc. simpl. rewrite lookup_insert. repeat case_decide; subst; simpl; try done.
    + by rewrite Hf.
    + lia.
Qed.

Lemma drop_wf c a en :
  dfd_heap c !! a = Some en -> de_refcount en = 0 -> dfd_wf c ->
  dfd_wf (dfd_drop a en c) /\ g_dfd_cap (dfd_drop a en c) = g_dfd_cap c /\
  g_dfd_count (dfd_drop a en c) = g_dfd_count c - 1 /\
  (forall b, rc (dfd_drop a en c) b = rc c b).
Proof.
  intros Ha Hz []. assert (Hin : a ∈ g_dfd_lru c) by (apply wf_lru0; by eexists).
  split_and!; [|done|done|].
  - split; simpl.
    + by apply NoDup_remove_addr.
    + intros b. rewrite elem_of_remove_addr, wf_lru0, lookup_delete_is_Some by done. naive_solver.
    + rewrite length_remove_addr by done. lia.
    + intros b eb. rewrite lookup_delete. case_decide as Hd; [done|]. intros Hb.
      specialize (wf_chain0 b eb Hb). unfold dfd_chain in *. simpl. rewrite lookup_insert.
      case_decide as Hk; [|done]. simpl. unfold dfd_chain. rewrite Hk. apply elem_of_remove_addr_ne; [done|done].
    + intros b eb. rewrite lookup_delete. case_decide; [done|]. apply wf_hash0.
    + intros b b' eb eb'. rewrite !lookup_delete. repeat case_decide; try done. apply wf_path0.
    + intros b eb. rewrite lookup_delete. case_decide; [done|]. apply wf_rc0.
    + intros b. rewrite lookup_delete_is_Some. intros [_ Hb]. by apply wf_brk0.
  - intros b. unfold rc. simpl. rewrite lookup_delete. case_decide; [|done]. subst. by rewrite Ha.
Qed.

(** * The programs *)

Lemma evict_loop_wf todo c :
  dfd_wf c -> NoDup todo -> (forall a, a ∈ todo -> is_Some (dfd_heap c !! a)) ->
  wpM (free posix) (evict_loop todo) c tt (fun _ _ c' =>
    dfd_wf c' /\ g_dfd_cap c' = g_dfd_cap c /\ (forall b, rc c' b = rc c b) /\
    (forall a en, dfd_heap c' !! a = Some en -> dfd_heap c !! a = Some en) /\
    (g_dfd_count c' <= g_dfd_cap c \/ forall a, a ∈ todo -> is_Some (dfd_heap c' !! a) -> rc c a <> 0)).
Proof.
  revert c. induction todo as [|a todo IH]; intros c Hwf Hnd Hin; simpl.
  { wp_step. split_and!; [done|done|done|done|]. right. set_solver. }
  inversion_clear Hnd as [|? ? Hna Hnd']. wp_step. wp_step. case_decide as Hcap.
  { wp_step. split_and!; [done|done|done|done|by left]. }
  destruct (Hin a ltac:(set_solver)) as [en Ha]. rewrite Ha. wp_step. case_decide as Hz.
  - wp_call r Hr. wp_step. destruct (drop_wf c a en Ha Hz Hwf) as (Hwf' & Hcap' & Hcount & Hrc).
    eapply wpM_mono; [apply IH; [done|done|]|].
    { intros b Hb. simpl. rewrite lookup_delete_ne by (intros ->; done). apply Hin. set_solver. }
    intros [] [] c' (H1 & H2 & H3 & H4 & H5). split_and!; [done|congruence|intros b; by rewrite H3, Hrc| |].
    + intros b eb Hb. apply H4 in Hb. simpl in Hb. by apply lookup_delete_Some in Hb as [_ ?].
    + rewrite Hcap' in H5. destruct H5 as [?|H5]; [by left|right]. intros b Hb [eb He].
      apply elem_of_cons in Hb as [->|Hb]; [|rewrite <- Hrc; apply H5; [done|by eexists]].
      apply H4 in He. simpl in He. by rewrite lookup_delete_eq in He.
  - wp_step. eapply wpM_mono; [apply IH; [done|done|set_solver]|].
    intros [] [] c' (H1 & H2 & H3 & H4 & H5). split_and!; [done|done|done|done|].
    destruct H5 as [?|H5]; [by left|right]. intros b Hb He.
    apply elem_of_cons in Hb as [->|Hb]; [|by apply H5]. unfold rc. by rewrite Ha.
Qed.

(** No handle is pinned and the cache is within its capacity. *)
Definition at_rest (c : dfdcache) : Prop := (forall b, rc c b = 0) /\ g_dfd_count c <= g_dfd_cap c.

(** The pin a result carries. *)
Definition pin (r : res (Z * nat)) (b : nat) : Z :=
  match r with Ok (_, a) => if decide (b = a) then 1 else 0 | Err _ => 0 end.

(** What an acquisition does to the cache. *)
Definition acquired (dir : bytes) (c : dfdcache) (r : res (Z * nat)) (c' : dfdcache) : Prop :=
  dfd_wf c' /\ g_dfd_cap c' = g_dfd_cap c /\ (forall b, rc c' b = rc c b + pin r b) /\
  (at_rest c -> g_dfd_count c' <= g_dfd_cap c') /\
  match r with
  | Ok (fd, a) => exists en, dfd_heap c' !! a = Some en /\ de_fd en = fd /\ de_path en = dir
  | Err _ => True
  end.

(** Room after the eviction that follows an insertion at rest. *)
Lemma one_pin_fits c a :
  dfd_wf c -> 0 < g_dfd_cap c -> (forall b, is_Some (dfd_heap c !! b) -> b = a) ->
  g_dfd_count c <= g_dfd_cap c.
Proof.
  intros [] Hcap Hone. rewrite wf_count0. assert (zlen (g_dfd_lru c) <= 1); [|lia].
  destruct (g_dfd_lru c) as [|x [|y l]]; [done|done|]. exfalso.
  assert (x = a) by (apply Hone, wf_lru0; set_solver). assert (y = a) by (apply Hone, wf_lru0; set_solver).
  subst. inversion_clear wf_lru_nodup0. set_solver.
Qed.

Lemma acquire_finish_wf dir fd c :
  dfd_wf c -> 0 < g_dfd_cap c ->
  wpM (free posix)
    (again ← lookup_pin dir (dir_cache_hash dir);
     match again with
     | Some (a, cached) => _ ← call (close fd); mret (Ok (cached, a))
     | None =>
         allocated ← call (malloc (40 + zlen dir + 1));
         if negb allocated then _ ← call (close fd); mret (Err ENOMEM) else
         a ← insert_entry fd (dir_cache_hash dir) dir;
         dfd_evict_locked;;
         mret (Ok (fd, a))
     end) c tt (fun _ r c' => acquired dir c r c').
Proof.
  intros Hwf Hcap. wp_step. apply wpM_state. intros r c1 Hl.
  destruct (lookup_pin_wf _ _ _ _ Hl Hwf) as (Hwf1 & Hc1 & Hn1 & Hr). destruct r as [[a cached]|].
  { destruct Hr as [Hrc He]. wp_call r Hr2. wp_step. split_and!; [done|done|done| |done].
    intros [_ Hle]. lia. }
  destruct Hr as [-> Hnew]. wp_call ok Hok. destruct ok; simpl.
  2:{ wp_call r Hr2. wp_step. split_and!; [done|done|intros b; simpl; lia|by intros [_ ?]|done]. }
  wp_step. apply wpM_state. intros a c2 Hc2.
  pose proof (insert_wf fd dir c Hnew Hwf) as Hins. rewrite Hc2 in Hins.
  destruct Hins as (Hwf2 & Hcap2 & Hrc2 & Ha2 & Hcount2).
  wp_step. unfold dfd_evict_locked. wp_step. wp_step.
  eapply wpM_mono; [apply evict_loop_wf; [done|rewrite reverse_Permutation; apply Hwf2|]|].
  { intros b. rewrite elem_of_reverse. apply Hwf2. }
  intros [] [] c3 (Hwf3 & Hcap3 & Hrc3 & Hold3 & Hroom). wp_step.
  assert (Ha3 : dfd_heap c3 !! a = Some (DfdEntry fd 1 (dir_cache_hash dir) dir)).
  { assert (Hpin : rc c3 a <> 0). { rewrite Hrc3. unfold rc. by rewrite Ha2. }
    unfold rc in Hpin. destruct (dfd_heap c3 !! a) as [e3|] eqn:He; [|done].
    apply Hold3 in He as He'. congruence. }
  split_and!; [done|congruence|intros b; by rewrite Hrc3, Hrc2| |by eexists].
  intros [Hz _]. destruct Hroom as [?|Hroom]; [lia|]. apply (one_pin_fits c3 a); [done|lia|].
  intros b Hb. specialize (Hroom b). rewrite elem_of_reverse, Hrc2, Hz in Hroom.
  destruct (decide (b = a)); [done|]. exfalso.
  destruct Hb as [eb Hb]. apply Hroom; [apply Hwf2; exists eb; by apply Hold3|by eexists|done].
Qed.

(** The directory above is shorter: the recursion ends. *)
Lemma split_dir_base_shorter dir parent base :
  split_dir_base dir PATH_MAX PATH_MAX = (parent, base) -> base <> [] -> parent <> dir ->
  (length parent < length dir)%nat \/ parent = str ".".
Proof.
  unfold split_dir_base. destruct (strrchr_slash dir) as [i|] eqn:Hi.
  - intros [= <- <-] Hb Hp. left. apply strrchr_slash_Some in Hi as (Hl & Heq & _).
    case_decide as H0.
    + unfold snprintf_s in *. simpl. subst i.
      destruct dir as [|x [|y dir]]; simpl in *; [lia|by destruct Hb|lia].
    + case_decide; rewrite length_take; unfold PATH_MAX in *; lia.
  - intros [= <- <-] _ _. by right.
Qed.

Lemma acquire_rec_wf root fuel dir c :
  (2 + length dir <= fuel)%nat \/ (dir = str "." /\ (1 <= fuel)%nat) -> dfd_wf c ->
  wpM (free posix) (dir_fd_acquire_rec root fuel dir) c tt (fun _ r c' => acquired dir c r c').
Proof.
  revert dir c. induction fuel as [|fuel IH]; intros dir c Hfuel Hwf; [lia|].
  cbn [dir_fd_acquire_rec]. wp_step. wp_step. case_decide as Hcap.
  { wp_step. split_and!; [done|done|intros b; simpl; lia|by intros [_ ?]|done]. }
  wp_step. apply wpM_state. intros hit c1 Hl.
  destruct (lookup_pin_wf _ _ _ _ Hl Hwf) as (Hwf1 & Hc1 & Hn1 & Hr). destruct hit as [[a fd]|].
  { destruct Hr as [Hrc He]. wp_step. split_and!; [done|done|done| |done]. intros [_ ?]. lia. }
  destruct Hr as [-> _]. clear Hl Hwf1 Hc1 Hn1.
  destruct (split_dir_base dir PATH_MAX PATH_MAX) as [parent base] eqn:Hsplit.
  wp_step.
  (* after the attempt through the parent, one pin to give back *)
  apply (wpM_mono (free posix) _ _ _ (fun _ r c' => dfd_wf c' /\ g_dfd_cap c' = g_dfd_cap c /\
    (forall b, rc c' b = rc c b + (match r.2 with Some a => if decide (b = a) then 1 else 0 | None => 0 end)) /\
    (at_rest c -> g_dfd_count c' <= g_dfd_cap c'))).
  { destruct (_ && path_under_root root parent) eqn:Huse.
    2:{ wp_step. split_and!; [done|done|intros b; simpl; lia|by intros [_ ?]]. }
    rewrite !andb_true_iff, !bool_decide_eq_true in Huse. destruct Huse as ((((_ & Hpd) & Hbne) & _) & _).
    wp_step. eapply wpM_mono; [apply IH; [|done]|].
    { destruct (split_dir_base_shorter _ _ _ Hsplit Hbne Hpd) as [Hlt| ->].
      - left. destruct Hfuel as [?|[-> _]]; [lia|]. vm_compute in Hsplit. by simplify_eq.
      - right. split; [done|]. destruct Hfuel as [?|[-> _]]; [lia|]. vm_compute in Hsplit. by simplify_eq. }
    intros [] rp c' (H1 & H2 & H3 & H4 & H5). destruct rp as [[pfd pe]|e].
    - wp_call r Hr. wp_step. split_and!; [done|done|done|done].
    - wp_step. split_and!; [done|done|done|done]. }
  intros [] [fd pe] c' (Hwf' & Hcap' & Hrc' & Hroom'). simpl in Hrc'. wp_step.
  apply (wpM_mono (free posix) _ _ _ (fun _ _ c2 => c2 = c')).
  { destruct fd as [fd|]; [by wp_step|]. by wp_call r Hr. }
  intros [] r c2 ->. wp_step.
  apply (wpM_mono (free posix) _ _ _ (fun _ _ c3 => dfd_wf c3 /\ g_dfd_cap c3 = g_dfd_cap c /\
    (forall b, rc c3 b = rc c b) /\ (at_rest c -> at_rest c3))).
  { assert (Hpos : forall b, 0 <= rc c b).
    { intros b. unfold rc. destruct (dfd_heap c !! b) as [en|] eqn:Hb; [by apply (wf_rc c Hwf b)|done]. }
    destruct pe as [pe|]; simpl; wp_step.
    - destruct (release_wf pe c' Hwf') as (R1 & R2 & R3 & R4).
      assert (Hb : forall b, rc (dir_fd_release_addr pe c') b = rc c b).
      { intros b. rewrite R4, !Hrc'. specialize (Hpos pe). repeat case_decide; subst; lia || naive_solver lia. }
      split_and!; [done|congruence|done|]. intros Hr0. split; [intros b; rewrite Hb; apply Hr0|].
      rewrite R3, R2. auto.
    - split_and!; [done|done|intros b; rewrite Hrc'; lia|]. intros Hr0.
      split; [intros b; rewrite Hrc'; destruct Hr0 as [-> _]; lia|auto]. }
  intros [] [] c3 (Hwf3 & Hcap3 & Hrc3 & Hrest3). destruct r as [fd'|e].
  - eapply wpM_mono; [apply acquire_finish_wf; [done|lia]|].
    intros [] r c4 (F1 & F2 & F3 & F4 & F5). split_and!; [done|congruence|intros b; by rewrite F3, Hrc3| |done].
    auto.
  - wp_step. split_and!; [done|done|intros b; rewrite Hrc3; simpl; lia| |done]. intros Hr0. by apply Hrest3.
Qed.

Lemma dir_fd_acquire_wf root dir c :
  dfd_wf c -> wpM (free posix) (dir_fd_acquire root dir) c tt (fun _ r c' => acquired dir c r c').
Proof. intros Hwf. apply acquire_rec_wf; [left; lia|done]. Qed.

(** C15.  Acquiring a directory handle always terminates and, whatever
    the kernel answers, keeps hash chains, LRU list and heap consistent: the
    result is the one entry filed under the directory's path, exactly one pin
    is added to it and to nothing else, no pinned entry is evicted, and a
    cache that was at rest stays within its capacity. *)
Theorem dir_fd_acquire_sound root dir c :
  dfd_wf c ->
  wpM (free posix) (dir_fd_acquire root dir) c tt (fun _ r c' =>
    acquired dir c r c' /\
    (forall a, rc c a <> 0 -> is_Some (dfd_heap c' !! a)) /\
    forall fd a b en, r = Ok (fd, a) -> dfd_heap c' !! b = Some en -> de_path en = dir -> b = a).
Proof.
  intros Hwf. eapply wpM_mono; [by apply dir_fd_acquire_wf|]. intros [] r c' Hacq.
  split; [done|]. destruct Hacq as (Hwf' & _ & Hrc & _ & He). split.
  - intros a Ha. destruct (dfd_heap c' !! a) eqn:Hn; [by eexists|]. exfalso.
    assert (Hz : rc c' a = 0) by (unfold rc; by rewrite Hn). specialize (Hrc a). rewrite Hz in Hrc.
    assert (0 <= rc c a). { unfold rc. destruct (dfd_heap c !! a) eqn:Hc; [by apply (wf_rc c Hwf a)|done]. }
    unfold pin in Hrc. destruct r as [[fd e]|]; [case_decide|]; lia.
  - intros fd a b en -> Hb Hp. destruct He as (ea & Ha & _ & Hpa).
    apply (wf_path _ Hwf' b a en ea); [done|done|congruence].
Qed.

Lemma dfd_wf_start cap : dfd_wf (set_g_dfd_cap cap dfdcache0).
Proof.
  split; simpl; try done; try (intros; by simplify_map_eq).
  - constructor.
  - intros a. rewrite lookup_empty. split; [set_solver|by intros []].
Qed.

Lemma dir_fd_acquire_sound_witness :
  wpM (free posix) (dir_fd_acquire (str "/srv") (str "/srv/a/b")) (set_g_dfd_cap 16 dfdcache0) tt
    (fun _ r c' => acquired (str "/srv/a/b") (set_g_dfd_cap 16 dfdcache0) r c' /\ g_dfd_count c' <= 16).
Proof.
  eapply wpM_mono; [apply dir_fd_acquire_sound, dfd_wf_start|].
  intros [] r c' [Ha _]. split; [done|]. destruct Ha as (_ & Hcap & _ & Hroom & _). simpl in Hcap.
  rewrite <- Hcap. apply Hroom. by split.
Defined.

(** ** Shutting the cache down *)

Lemma close_entries_wf l c :
  NoDup l -> (forall a, a ∈ l <-> is_Some (dfd_heap c !! a)) ->
  wpM (free posix) (close_entries l) c tt (fun _ _ c' => dfd_heap c' = ∅).
Proof.
  revert c. induction l as [|a l IH]; intros c Hnd Hin; simpl.
  - wp_step. apply map_eq. intros a. rewrite lookup_empty. destruct (dfd_heap c !! a) eqn:Ha; [|done].
    assert (a ∈ []) by (apply Hin; by eexists). set_solver.
  - inversion_clear Hnd as [|? ? Hna Hnd']. wp_step. wp_step.
    destruct (proj1 (Hin a)) as [en Ha]; [set_solver|]. rewrite Ha. wp_call r Hr. wp_step. wp_step.
    apply IH; [done|]. intros b. simpl. rewrite lookup_delete_is_Some, <- Hin, elem_of_cons.
    split; [|naive_solver]. intros Hb. split; [by intros ->|by right].
Qed.

Lemma dir_fd_cache_destroy_wf c :
  dfd_wf c -> wpM (free posix) dir_fd_cache_destroy c tt (fun _ _ c' => dfd_heap c' = ∅ /\ g_dfd_lru c' = []).
Proof.
  intros Hwf. unfold dir_fd_cache_destroy. wp_step. wp_step. wp_step.
  eapply wpM_mono; [apply close_entries_wf; apply Hwf|]. intros [] [] c' Hc'. by wp_step.
Qed.
