(* ===== verification/ServerMeta.v ===== *)
(** Metadata on the server (src/server.c): creation modes, which ownership
    changes are possible, [apply_meta], and the comparison behind
    verification. *)

From S2P Require Export DirFdCache.

(** * Modes *)

Definition copy_data_mode (final_mode : Z) : Z := final_mode &. o0777 |. S_IRUSR |. S_IWUSR.

Definition copy_dir_mode (final_mode : Z) : Z :=
  let mode := final_mode &. o07777 in
  if decide (mode &. (S_IWUSR |. S_IXUSR) = S_IWUSR |. S_IXUSR) then mode else mode |. S_IRWXU.

(** * Ownership *)

Definition chown_permission_errno (err : Z) : bool := bool_decide (err = EPERM \/ err = EACCES).

Definition chown_uid_doomed (cfg : config) (uid : Z) : bool :=
  bool_decide (g_euid cfg <> 0 /\ uid <> g_euid cfg).

Definition chown_gid_settable (cfg : config) (gid : Z) : bool :=
  bool_decide (g_euid cfg = 0) || bool_decide (gid = g_egid cfg) || bool_decide (gid ∈ g_groups cfg).

(** The ids to hand to chown: [(uid_t)-1] leaves a side untouched. *)
Definition want_ids (cfg : config) (uid gid : Z) : Z * Z :=
  let want_uid := if chown_uid_doomed cfg uid then ID_NONE else uid in
  let want_gid := if chown_gid_settable cfg gid then gid else ID_NONE in
  (if decide (want_uid = g_euid cfg) then ID_NONE else want_uid,
   if decide (want_gid = g_egid cfg) then ID_NONE else want_gid).

(** Ownership this server could not apply. *)
Definition ownership_unpreserved (cfg : config) (uid gid : Z) : bool :=
  (chown_uid_doomed cfg uid && bool_decide (uid <> g_euid cfg)) ||
  (negb (chown_gid_settable cfg gid) && bool_decide (gid <> g_egid cfg)).

Definition CHOWN_WARNING : bytes :=
  str "ecopy: remote chown not fully permitted; continuing without preserving some uid/gid ownership".

(** [if (atomic_exchange(&g_chown_permission_warned, 1) == 0) fprintf(...)]. *)
Definition warn_chown : SM unit :=
  warned ← gets g_chown_permission_warned;
  modify (set_g_chown_permission_warned true);;
  when (negb warned) (call (eprintf CHOWN_WARNING)).

(** * apply_meta *)

Record meta := Meta { mt_uid : Z; mt_gid : Z; mt_mode : Z; mt_at : timespec; mt_mt : timespec }.

Definition FORCE_EPERM_ENV : bytes := str "ECOPY_TEST_FORCE_CHOWN_EPERM".
Definition FORCE_OWNERSHIP_ENV : bytes := str "ECOPY_TEST_FORCE_OWNERSHIP_MISMATCH".

(** The first failure so far: its errno and the operation's name. *)
Abbreviation first_failure := (option (Z * bytes)).

Definition note_failure (cur : first_failure) (r : res unit) (op : bytes) : first_failure :=
  match r, cur with
  | Err e, None => Some (e, op)
  | _, _ => cur
  end.

(** The ownership part: only a hard error of fchown is a failure. *)
Definition apply_owner (fd uid gid : Z) : SM first_failure :=
  cfg ← gets s_cfg;
  force ← call (getenv FORCE_EPERM_ENV);
  let force_eperm := bool_decide (force <> None) in
  if force_eperm || bool_decide (uid <> g_euid cfg) || bool_decide (gid <> g_egid cfg) then
    '(chown_err, unpreserved) ←
      (if force_eperm then mret (0, true)
       else
         let '(want_uid, want_gid) := want_ids cfg uid gid in
         e ← (if decide (want_uid <> ID_NONE \/ want_gid <> ID_NONE) then
                r ← call (fchown fd want_uid want_gid);
                mret (match r with Ok _ => 0 | Err e => e end)
              else mret 0);
         mret (e, ownership_unpreserved cfg uid gid));
    if negb (bool_decide (chown_err = 0)) && negb (chown_permission_errno chown_err)
    then mret (Some (chown_err, str "fchown"))
    else when (unpreserved || negb (bool_decide (chown_err = 0))) warn_chown;; mret None
  else mret None.

(** Status ([0] or a negative errno) and the operation that failed first. *)
Definition apply_meta (fd : Z) (m : meta) (mode_is_set : bool) : SM (Z * option bytes) :=
  first ← apply_owner fd (mt_uid m) (mt_gid m);
  first ← (if mode_is_set then mret first
           else r ← call (fchmod fd (mt_mode m &. o07777)); mret (note_failure first r (str "fchmod")));
  cfg ← gets s_cfg;
  first ← (if g_preserve_times cfg
           then r ← call (futimens fd (mt_at m) (mt_mt m)); mret (note_failure first r (str "futimens"))
           else mret first);
  mret (match first with None => (0, None) | Some (e, op) => (- e, Some op) end).

(** * Comparison for verification *)

(** [ECOPY_VERIFY_ATIME] is 1 on Linux. The result is the first field that
    differs; [forced] is the test hook's environment variable. *)
Definition metadata_mismatch_stat (st : stat) (m : meta) (is_dir check_times forced : bool) : option bytes :=
  if (negb is_dir && negb (S_ISREG (st_mode st))) || (is_dir && negb (S_ISDIR (st_mode st)))
  then Some (str "type")
  else if decide (st_mode st &. o07777 <> mt_mode m &. o07777) then Some (str "mode")
  else if check_times && negb (bool_decide (st_atim st = mt_at m)) then Some (str "atime")
  else if check_times && negb (bool_decide (st_mtim st = mt_mt m)) then Some (str "mtime")
  else if decide (st_uid st <> mt_uid m) then Some (str "uid")
  else if decide (st_gid st <> mt_gid m) then Some (str "gid")
  else if forced then Some (str "uid")
  else None.

Definition metadata_ownership_unpreservable (cfg : config) (field : option bytes) (forced : bool) : bool :=
  match field with
  | None => false
  | Some f =>
      (bool_decide (g_euid cfg <> 0) || forced) && bool_decide (f = str "uid" \/ f = str "gid")
  end.
