(* ===== verification/ServerFiles.v ===== *)
(** Streamed files on the server (src/server.c): OPEN, WRITE, FTRUNCATE,
    COMMIT and ABORT on the open-file table, with the O_DIRECT path and its
    fall-backs.

    A handler is a program over [posix] and the server state.  [eintr] is the
    number of interrupted calls a write loop tolerates before it is [Stuck]. *)

From S2P Require Export ServerMeta.

Definition ECOPY_DIRECT_ALIGN : Z := 4096.

(** * Requests on the wire *)

Record open_req := OpenReq { or_fid : Z; or_mode : Z; or_expected : Z; or_flags : Z;
                             or_parent_mode : Z; or_final : bytes }.

Definition decode_open : D (option open_req) :=
  fid ← pdec_u64; mode ← pdec_u32; expected ← pdec_i64; flags ← pdec_u32;
  parent_mode ← pdec_u32; final_in ← pdec_str PATH_MAX; error ← pdec_error;
  mret (match final_in with
        | Some p => if error : bool then None
                    else Some (OpenReq fid mode expected flags parent_mode (cstr p))
        | None => None
        end).

(** The meta block of COMMIT: ids, mode, times. *)
Definition decode_meta : D meta :=
  uid ← pdec_u32; gid ← pdec_u32; mode ← pdec_u32;
  at_s ← pdec_i64; at_ns ← pdec_i64; mt_s ← pdec_i64; mt_ns ← pdec_i64;
  mret (Meta uid gid mode (Timespec at_s at_ns) (Timespec mt_s mt_ns)).

Definition decode_commit : D (Z * meta) := fid ← pdec_u64; m ← decode_meta; mret (fid, m).

(** * Small helpers *)

Definition server_ns : SM Z :=
  ts ← call clock_gettime; mret (u64 (u64 (tv_sec ts * 1000000000) + tv_nsec ts)).

Definition add_drain_bytes (n : Z) : SM unit :=
  modify (fun s => set_g_drain_bytes (u64 (g_drain_bytes s + n)) s).
(** [atomic_fetch_add(&g_drain_ns, server_ns() - t0)]. *)
Definition add_drain_ns (t0 : Z) : SM unit :=
  t1 ← server_ns; modify (fun s => set_g_drain_ns (u64 (g_drain_ns s + u64 (t1 - t0))) s).

Definition ensure_dir (dir : bytes) (mode : Z) : SM (res unit) :=
  zoom l_dirs (ensure_dir_cached_mode dir mode).
Definition acquire_dir (dir : bytes) : SM (res (Z * nat)) :=
  cfg ← gets s_cfg; zoom l_dfd (dir_fd_acquire (g_root_norm cfg) dir).
Definition release_dir (e : option nat) : SM unit := zoom l_dfd (dir_fd_release e).
Definition resolve (in_ : bytes) : SM (res bytes) :=
  cfg ← gets s_cfg; mret (resolve_path (g_root_norm cfg) in_ PATH_MAX).

Definition direct_open_fallback_errno (e : Z) : bool :=
  bool_decide (e = EINVAL \/ e = EOPNOTSUPP \/ e = ENOTSUP \/ e = ENOSYS \/ e = EPERM).

(** [while (want < need) want <<= 1] *)
Fixpoint grow_want (fuel : nat) (want need : Z) : Z :=
  match fuel with
  | O => want
  | S n => if decide (want < need) then grow_want n (Z.shiftl want 1) need else want
  end.

(** Is there an aligned buffer of [need] bytes? *)
Definition wbuf_ensure (need : Z) : SM bool :=
  cap ← gets g_wbuf_cap;
  if decide (need <= cap) then mret true else
  let want := grow_want 64 ECOPY_DIRECT_ALIGN need in
  ok ← call (malloc want);
  if negb ok then mret false else
  modify (set_g_wbuf_cap want);; mret true.

Definition set_failed (err : Z) (f : open_file) : open_file :=
  set_f_err err (set_f_failed true f).

(** On Linux [ecopy_clear_direct_io] does nothing. *)
Definition drop_direct (f : open_file) : SM unit :=
  fl ← call (fcntl_getfl (f_fd f));
  match fl with
  | Ok fl => _ ← call (fcntl_setfl (f_fd f) (Z.land fl (Z.lnot O_DIRECT))); mret tt
  | Err _ => mret tt
  end;;
  update_file (f_id f) (set_f_direct false).

(** * OPEN *)

Definition TMP_PREFIX : bytes := str ".ecopy.tmp.".

(** [snprintf(..., "%s/.ecopy.tmp.%u.%llu", dir, getpid(), fid)] before
    truncation. *)
Definition open_tmp_path (dir : bytes) (pid fid : Z) : bytes :=
  dir ++ [SLASH] ++ TMP_PREFIX ++ dec (u32 pid) ++ str "." ++ dec fid.

(** Open [tmp_path], with O_DIRECT first when wanted: the descriptor and
    whether it bypasses the cache. *)
Definition open_maybe_direct (path : bytes) (flags mode : Z) (want_direct : bool) : SM (res (Z * bool)) :=
  r ← (if want_direct then
         r ← call (open path (flags |. O_DIRECT) mode);
         match r with
         | Ok fd => mret (Some (Ok (fd, true)))
         | Err e => if direct_open_fallback_errno e then mret None else mret (Some (Err e))
         end
       else mret None);
  match r with
  | Some r => mret r
  | None =>
      r ← call (open path flags mode);
      mret (match r with Ok fd => Ok (fd, false) | Err e => Err e end)
  end.

(** Best-effort preallocation; its outcome is ignored. *)
Definition preallocate (fd expected : Z) : SM unit :=
  r ← call (fallocate fd 0 0 expected);
  match r with
  | Err e => if decide (e = EOPNOTSUPP \/ e = ENOSYS)
             then _ ← call (ftruncate fd expected); mret tt else mret tt
  | Ok _ => mret tt
  end.

Definition handle_open (payload : bytes) : SM unit :=
  match (decode_open (pdec_init payload)).1 with
  | None => mret tt
  | Some q =>
      allocated ← call (malloc 8232);
      if negb allocated then mret tt else
      let inplace := has_bits (or_flags q) ECOPY_OPEN_INPLACE in
      let sparse := has_bits (or_flags q) ECOPY_OPEN_SPARSE in
      let f := OpenFile (or_fid q) (-1) inplace false false 0 [] [] in
      r ← resolve (or_final q);
      match r with
      | Err e => push_file (set_failed (- e) f)
      | Ok finalp =>
          let f := set_f_final_path (snprintf_s PATH_MAX finalp) f in
          let dir := (split_dir_base finalp PATH_MAX PATH_MAX).1 in
          r ← ensure_dir dir (copy_dir_mode (or_parent_mode q));
          match r with
          | Err e => push_file (set_failed (- e) f)
          | Ok _ =>
              cfg ← gets s_cfg;
              let want_direct := g_server_direct_io cfg && negb sparse in
              let base_flags := if inplace
                                then O_WRONLY |. O_CREAT |. O_TRUNC |. O_NOFOLLOW |. O_CLOEXEC
                                else O_WRONLY |. O_CREAT |. O_EXCL |. O_NOFOLLOW |. O_CLOEXEC in
              let create_mode := copy_data_mode (or_mode q) in
              tmp ← (if inplace then mret finalp
                     else pid ← call getpid; mret (open_tmp_path dir pid (or_fid q)));
              let f := set_f_tmp_path (snprintf_s PATH_MAX tmp) f in
              if negb inplace && bool_decide (PATH_MAX <= zlen tmp)
              then push_file (set_failed (- ENAMETOOLONG) f) else
              r ← open_maybe_direct (f_tmp_path f) base_flags create_mode want_direct;
              match r with
              | Err e => push_file (set_failed (- e) f)
              | Ok (fd, direct) =>
                  when (negb sparse && bool_decide (0 < or_expected q)) (preallocate fd (or_expected q));;
                  push_file (set_f_direct direct (set_f_fd fd f))
              end
          end
      end
  end.

(** * WRITE *)

Section handlers.
Context (eintr : nat).

(** How the O_DIRECT loop ends. *)
Inductive direct_end := DirectDone | DirectFellBack | DirectFailed (err : Z).

(** [data] is what is left to write, [done] what has been written. *)
Fixpoint direct_loop (fuel : nat) (fd : Z) (data : bytes) (done offset : Z) : prog posix (Z * direct_end) :=
  match data with
  | [] => Ret (done, DirectDone)
  | _ :: _ =>
      match fuel with
      | O => Stuck
      | S fuel =>
          Sys (pwrite fd data (offset + done)) (fun w =>
            match w with
            | Err e =>
                if decide (e = EINTR) then direct_loop fuel fd data done offset
                else if decide (e = EINVAL /\ done = 0) then Ret (done, DirectFellBack)
                else Ret (done, DirectFailed (- e))
            | Ok w =>
                if decide (w = 0) then Ret (done, DirectFailed (- EIO))
                else direct_loop fuel fd (drop (Z.to_nat w) data) (done + w) offset
            end)
      end
  end.

(** The buffered loop: bytes written and the error, if any. *)
Fixpoint buffered_loop (fuel : nat) (fd : Z) (data : bytes) (done offset : Z) : prog posix (Z * option Z) :=
  match data with
  | [] => Ret (done, None)
  | _ :: _ =>
      match fuel with
      | O => Stuck
      | S fuel =>
          Sys (pwrite fd data (offset + done)) (fun w =>
            match w with
            | Err e =>
                if decide (e = EINTR) then buffered_loop fuel fd data done offset
                else Ret (done, Some (- e))
            | Ok w =>
                if decide (w = 0) then Ret (done, Some (- EIO))
                else buffered_loop fuel fd (drop (Z.to_nat w) data) (done + w) offset
            end)
      end
  end.

(** The direct attempt: [true] when the frame is dealt with, [false] when
    the buffered path must write it. *)
Definition write_direct (f : open_file) (data : bytes) (offset t0 : Z) : SM bool :=
  if negb (f_direct f) then mret false else
  let aligned := bool_decide (Z.rem offset ECOPY_DIRECT_ALIGN = 0)
                 && bool_decide (zlen data mod ECOPY_DIRECT_ALIGN = 0) in
  if negb aligned then drop_direct f;; mret false else
  ok ← wbuf_ensure (zlen data);
  if negb ok then drop_direct f;; mret false else
  '(done, e) ← lift (direct_loop (length data + eintr) (f_fd f) data 0 offset);
  match e with
  | DirectFellBack => drop_direct f;; mret false
  | DirectFailed err =>
      update_file (f_id f) (set_failed err);;
      add_drain_bytes done;; add_drain_ns t0;; mret true
  | DirectDone => add_drain_bytes done;; add_drain_ns t0;; mret true
  end.

Definition handle_write (payload : bytes) : SM unit :=
  if decide (zlen payload < 16) then mret tt else
  let '(fid, offset) := ((fid ← pdec_u64; offset ← pdec_i64; mret (fid, offset)) (pdec_init payload)).1 in
  let data := drop 16 payload in
  files ← gets g_files;
  match file_find fid files with
  | None => mret tt
  | Some f =>
      if f_failed f || bool_decide (f_fd f < 0) then mret tt else
      t0 ← server_ns;
      handled ← write_direct f data offset t0;
      if handled : bool then mret tt else
      '(done, e) ← lift (buffered_loop (length data + eintr) (f_fd f) data 0 offset);
      match e with Some err => update_file fid (set_failed err) | None => mret tt end;;
      add_drain_bytes done;; add_drain_ns t0
  end.

(** * FTRUNCATE *)

Definition handle_ftruncate (payload : bytes) : SM unit :=
  let '(fid, size) := ((fid ← pdec_u64; size ← pdec_i64; mret (fid, size)) (pdec_init payload)).1 in
  files ← gets g_files;
  match file_find fid files with
  | None => mret tt
  | Some f =>
      if f_failed f || bool_decide (f_fd f < 0) then mret tt else
      r ← call (ftruncate (f_fd f) size);
      match r with
      | Ok _ => mret tt
      | Err e => update_file fid (set_failed (- e))
      end
  end.

(** * COMMIT and ABORT *)

Definition reply_status (id status : Z) : SM bool :=
  lift (frame_write eintr STDOUT_FILENO (msg_code MSG_STATUS) id
          (pe_buf (penc_u32 (penc_init 8) (u32 status)))).

(** [if (status == 0 && call fails) status = -errno]. *)
Definition status_of (status : Z) (r : res unit) : Z :=
  match r with Err e => if decide (status = 0) then - e else status | Ok _ => status end.

(** fsync, metadata, close and rename of a healthy file. *)
Definition commit_file (f : open_file) (m : meta) : SM Z :=
  t0 ← server_ns;
  r ← call (fsync (f_fd f));
  let status := status_of 0 r in
  add_drain_ns t0;;
  status ← (if decide (status = 0) then '(st, _) ← apply_meta (f_fd f) m false; mret st
            else mret status);
  r ← call (close (f_fd f));
  let status := status_of status r in
  update_file (f_id f) (set_f_fd (-1));;
  if bool_decide (status = 0) && negb (f_inplace f) then
    r ← call (rename (f_tmp_path f) (f_final_path f));
    mret (status_of status r)
  else mret status.

Definition handle_commit (id : Z) (payload : bytes) : SM bool :=
  let '(fid, m) := (decode_commit (pdec_init payload)).1 in
  files ← gets g_files;
  match file_find fid files with
  | None => reply_status id (- EBADF)
  | Some f =>
      status ← (if f_failed f then mret (if decide (f_err f = 0) then - EIO else f_err f)
                else if decide (f_fd f < 0) then mret (- EBADF)
                else commit_file f m);
      (* the descriptor is still open only when the file had failed *)
      files ← gets g_files;
      let fd := match file_find fid files with Some f => f_fd f | None => -1 end in
      when (bool_decide (status <> 0) && bool_decide (0 <= fd))
        (_ ← call (close fd); update_file fid (set_f_fd (-1)));;
      when (bool_decide (status <> 0) && negb (f_inplace f))
        (_ ← call (unlink (f_tmp_path f)); mret tt);;
      ok ← reply_status id status;
      remove_file fid;;
      mret ok
  end.

Definition handle_abort (payload : bytes) : SM unit :=
  let fid := (pdec_u64 (pdec_init payload)).1 in
  files ← gets g_files;
  match file_find fid files with
  | None => mret tt
  | Some f =>
      when (bool_decide (0 <= f_fd f)) (_ ← call (close (f_fd f)); mret tt);;
      when (negb (f_inplace f)) (_ ← call (unlink (f_tmp_path f)); mret tt);;
      remove_file fid
  end.
End handlers.
