(* ===== verification/ServerOps.v ===== *)
(** The server's remaining write-side and query handlers (src/server.c):
    MKDIR, STAT, STAT_BULK, SETMETA, PUTFILE, UNLINK, SYMLINK, LINK, BARRIER
    and HELLO. *)

From S2P Require Export ServerFiles.

(** * Diagnostics and temp names *)

(** ["%.*s (%s)"] with precision [PATH_MAX - 32], or the plain path. *)
Definition diagnostic (path : bytes) (op : option bytes) : bytes :=
  match op with
  | Some op => snprintf_s PATH_MAX (take (Z.to_nat (PATH_MAX - 32)) path ++ str " (" ++ op ++ str ")")
  | None => snprintf_s PATH_MAX path
  end.

Definition put_tmp_name (pid seq : Z) : bytes := TMP_PREFIX ++ dec (u32 pid) ++ str ".p" ++ dec seq.
Definition sym_tmp_name (pid seq : Z) : bytes := TMP_PREFIX ++ str "sym." ++ dec (u32 pid) ++ str "." ++ dec seq.
Definition link_tmp_name (pid seq : Z) : bytes := TMP_PREFIX ++ str "lnk." ++ dec (u32 pid) ++ str "." ++ dec seq.

(** [atomic_fetch_add(&counter, 1) + 1] *)
Definition next_put_seq : SM Z :=
  s ← get; let n := u64 (put_seq s + 1) in modify (set_put_seq n);; mret n.
Definition next_sym_seq : SM Z :=
  s ← get; let n := u64 (sym_seq s + 1) in modify (set_sym_seq n);; mret n.
Definition next_link_seq : SM Z :=
  s ← get; let n := u64 (link_seq s + 1) in modify (set_link_seq n);; mret n.

(** * MKDIR *)

Definition decode_mkdir : D (option (bytes * Z)) :=
  p ← pdec_str PATH_MAX;
  match p with
  | None => mret None
  | Some p => mode ← pdec_u32; error ← pdec_error;
              mret (if error : bool then None else Some (cstr p, mode))
  end.

Definition handle_mkdir (payload : bytes) : SM unit :=
  match (decode_mkdir (pdec_init payload)).1 with
  | None => mret tt
  | Some (in_, mode) =>
      r ← resolve in_;
      match r with
      | Err e => log_op_error in_ e
      | Ok path =>
          r ← ensure_dir path (mode &. o07777 |. S_IRWXU);
          match r with Err e => log_op_error path e | Ok _ => mret tt end
      end
  end.

(** * STAT and STAT_BULK *)

(** One 29-byte entry. *)
Definition encode_entry (e : penc) (present mode size mt_s mt_ns : Z) : penc :=
  penc_i64 (penc_i64 (penc_i64 (penc_u32 (penc_u8 e present) mode) size) mt_s) mt_ns.
Definition encode_absent (e : penc) : penc := encode_entry e 0 0 0 0 0.

Definition encode_stat (e : penc) (path : bytes) : SM penc :=
  r ← call (lstat path);
  mret (match r with
        | Ok st => encode_entry e 1 (st_mode st) (st_size st) (tv_sec (st_mtim st)) (tv_nsec (st_mtim st))
        | Err _ => encode_absent e
        end).

Section handlers.
Context (eintr : nat).

Definition reply (type : msg_type) (id : Z) (e : penc) : SM bool :=
  lift (frame_write eintr STDOUT_FILENO (msg_code type) id (pe_buf e)).

Definition handle_stat (id : Z) (payload : bytes) : SM bool :=
  match (pdec_str PATH_MAX (pdec_init payload)).1 with
  | None => reply_status eintr id (- EINVAL)
  | Some p =>
      r ← resolve (cstr p);
      let e := penc_init 64 in
      e ← (match r with Err _ => mret (encode_absent e) | Ok path => encode_stat e path end);
      reply MSG_STAT_RESP id e
  end.

(** The loop over the [n] names still to decode; [None] is a malformed
    request. *)
Fixpoint stat_bulk_loop (n : nat) (base : option bytes) (d : pdec) (e : penc) : SM (option penc) :=
  match n with
  | O => mret (Some e)
  | S n =>
      let '(name, d) := pdec_str PATH_MAX d in
      match name with
      | None => mret None
      | Some name =>
          let name := cstr name in
          let full := base ≫= fun base => path_join_fast base name PATH_MAX in
          e ← (match full with Some full => encode_stat e full | None => mret (encode_absent e) end);
          stat_bulk_loop n base d e
      end
  end.

Definition handle_stat_bulk (id : Z) (payload : bytes) : SM bool :=
  let '(base_in, d) := pdec_str PATH_MAX (pdec_init payload) in
  match base_in with
  | None => reply_status eintr id (- EINVAL)
  | Some base_in =>
      let '(count, d) := pdec_u32 d in
      if pd_error d || bool_decide (1000000 < count) then reply_status eintr id (- EINVAL) else
      r ← resolve (cstr base_in);
      let base := match r with Ok b => Some b | Err _ => None end in
      let rcap := 8 + count * 40 in
      allocated ← call (malloc rcap);
      if negb allocated then reply_status eintr id (- ENOMEM) else
      r ← stat_bulk_loop (Z.to_nat count) base d (penc_u32 (penc_init rcap) count);
      match r with
      | None => reply_status eintr id (- EINVAL)
      | Some e => reply MSG_STAT_BULK_RESP id e
      end
  end.

(** * SETMETA *)

Definition decode_setmeta : D (option (bytes * meta * bool)) :=
  p ← pdec_str PATH_MAX;
  match p with
  | None => mret None
  | Some p =>
      m ← decode_meta; is_dir ← pdec_u8; error ← pdec_error;
      mret (if error : bool then None else Some (cstr p, m, negb (is_dir =? 0)))
  end.

Definition SETMETA_FLAGS : Z := O_RDONLY |. O_NOFOLLOW |. O_CLOEXEC.
Definition SETMETA_DIR_FLAGS : Z := O_RDONLY |. O_DIRECTORY |. O_NOFOLLOW |. O_CLOEXEC.

(** Open the target, through the cached parent when there is one. *)
Definition open_setmeta (path : bytes) : SM (res Z * option nat) :=
  cfg ← gets s_cfg;
  let root := g_root_norm cfg in
  let '(sdir, sbase) := split_dir_base path PATH_MAX PATH_MAX in
  let parent_ok := bool_decide (path <> root) && bool_decide (sdir <> path)
                   && bool_decide (sbase <> []) && bool_decide (sbase <> [SLASH])
                   && path_under_root root sdir in
  '(fd, de) ← (if parent_ok then
                 r ← acquire_dir sdir;
                 match r with
                 | Err _ => mret (None, None)
                 | Ok (dfd, de) =>
                     r ← call (openat dfd sbase SETMETA_FLAGS 0);
                     match r with
                     | Ok fd => mret (Some fd, Some de)
                     | Err _ =>
                         r ← call (openat dfd sbase SETMETA_DIR_FLAGS 0);
                         mret (match r with Ok fd => Some fd | Err _ => None end, Some de)
                     end
                 end
               else mret (None, None));
  match fd with
  | Some fd => mret (Ok fd, de)
  | None =>
      r ← call (open path SETMETA_FLAGS 0);
      match r with
      | Ok fd => mret (Ok fd, de)
      | Err _ => r ← call (open path SETMETA_DIR_FLAGS 0); mret (r, de)
      end
  end.

Definition handle_setmeta (payload : bytes) : SM unit :=
  match (decode_setmeta (pdec_init payload)).1 with
  | None => mret tt
  | Some (in_, m, is_dir) =>
      r ← resolve in_;
      match r with
      | Err e => log_op_error in_ e
      | Ok path =>
          '(r, de) ← open_setmeta path;
          release_dir de;;
          match r with
          | Err e => log_op_error path e
          | Ok fd =>
              s ← get;
              let cfg := s_cfg s in
              let matches := is_dir && dir_cache_mode_matches (s_dirs s) path (mt_mode m) in
              let special := (bool_decide (mt_uid m <> g_euid cfg) || bool_decide (mt_gid m <> g_egid cfg))
                             && has_bits (mt_mode m) (S_ISUID |. S_ISGID) in
              '(status, failed_op) ← apply_meta fd m (matches && negb special);
              r ← call (close fd);
              let status := status_of status r in
              if decide (status = 0) then mret tt
              else log_op_error (diagnostic path failed_op) (- status)
          end
      end
  end.

(** * PUTFILE *)

Record put_req := PutReq { pr_meta : meta; pr_flags : Z; pr_parent_mode : Z; pr_final : bytes;
                           pr_data : bytes }.

Definition decode_putfile (payload : bytes) : option put_req :=
  let '(q, d) := (mode ← pdec_u32; uid ← pdec_u32; gid ← pdec_u32;
                  at_s ← pdec_i64; at_ns ← pdec_i64; mt_s ← pdec_i64; mt_ns ← pdec_i64;
                  flags ← pdec_u32; parent_mode ← pdec_u32; final_in ← pdec_str PATH_MAX;
                  mret (Meta uid gid mode (Timespec at_s at_ns) (Timespec mt_s mt_ns),
                        flags, parent_mode, final_in)) (pdec_init payload) in
  let '(m, flags, parent_mode, final_in) := q in
  match final_in with
  | None => None
  | Some p => if pd_error d then None
              else Some (PutReq m flags parent_mode (cstr p) (drop (pd_off d) payload))
  end.

(** [write] until done: bytes written, and the errno if it failed. *)
Fixpoint put_loop (fuel : nat) (fd : Z) (data : bytes) (done : Z) : prog posix (Z * Z) :=
  match data with
  | [] => Ret (done, 0)
  | _ :: _ =>
      match fuel with
      | O => Stuck
      | S fuel =>
          Sys (write fd data) (fun w =>
            match w with
            | Err e => if decide (e = EINTR) then put_loop fuel fd data done else Ret (done, e)
            | Ok w => if decide (w = 0) then Ret (done, EIO)
                      else put_loop fuel fd (drop (Z.to_nat w) data) (done + w)
            end)
      end
  end.

(** [if (err == 0 && call fails) err = errno]. *)
Definition err_of (err : Z) (r : res unit) : Z :=
  match r with Err e => if decide (err = 0) then e else err | Ok _ => err end.

(** Everything after the descriptor is open: data, metadata, close, rename
    or removal. *)
Definition put_body (q : put_req) (finalp base tmp_name : bytes) (inplace mode_is_set : bool)
    (dfd : Z) (de : nat) (fd : Z) : SM unit :=
  t0 ← server_ns;
  '(done, err) ← lift (put_loop (length (pr_data q) + eintr) fd (pr_data q) 0);
  add_drain_bytes done;; add_drain_ns t0;;
  '(err, failed_op) ←
    (if decide (err = 0) then
       '(status, op) ← apply_meta fd (pr_meta q) mode_is_set;
       mret (if decide (status = 0) then 0 else - status, op)
     else mret (err, None));
  r ← call (close fd);
  let err := err_of err r in
  err ← (if bool_decide (err = 0) && negb inplace
         then r ← call (renameat dfd tmp_name dfd base); mret (err_of err r)
         else mret err);
  when (negb (bool_decide (err = 0)) && negb inplace)
    (_ ← call (unlinkat dfd tmp_name 0); mret tt);;
  release_dir (Some de);;
  if decide (err = 0) then mret tt else log_op_error (diagnostic finalp failed_op) err.

Definition handle_putfile (payload : bytes) : SM unit :=
  match decode_putfile payload with
  | None => mret tt
  | Some q =>
      r ← resolve (pr_final q);
      match r with
      | Err e => log_op_error (pr_final q) e
      | Ok finalp =>
          let '(dir, base) := split_dir_base finalp PATH_MAX PATH_MAX in
          r ← ensure_dir dir (copy_dir_mode (pr_parent_mode q));
          match r with
          | Err e => log_op_error dir e
          | Ok _ =>
              let inplace := has_bits (pr_flags q) ECOPY_OPEN_INPLACE in
              let mode := mt_mode (pr_meta q) in
              let mode_is_set := has_bits mode S_IWUSR in
              let create_mode := if mode_is_set then mode &. o07777 else copy_data_mode mode in
              r ← acquire_dir dir;
              match r with
              | Err e => log_op_error dir e
              | Ok (dfd, de) =>
                  '(tmp_name, r) ←
                    (if inplace then
                       r ← call (openat dfd base
                                  (O_WRONLY |. O_CREAT |. O_TRUNC |. O_NOFOLLOW |. O_CLOEXEC) create_mode);
                       mret (base, r)
                     else
                       seq ← next_put_seq;
                       pid ← call getpid;
                       let tmp_name := put_tmp_name pid seq in
                       if decide (PATH_MAX <= zlen tmp_name) then mret (tmp_name, Err ENAMETOOLONG) else
                       r ← call (openat dfd tmp_name
                                  (O_WRONLY |. O_CREAT |. O_EXCL |. O_NOFOLLOW |. O_CLOEXEC) create_mode);
                       mret (tmp_name, r));
                  match r with
                  | Err e => release_dir (Some de);; log_op_error finalp e
                  | Ok fd => put_body q finalp base tmp_name inplace mode_is_set dfd de fd
                  end
              end
          end
      end
  end.

(** * UNLINK *)

Definition handle_unlink (payload : bytes) : SM unit :=
  match (pdec_str PATH_MAX (pdec_init payload)).1 with
  | None => mret tt
  | Some p =>
      r ← resolve (cstr p);
      match r with
      | Err _ => mret tt
      | Ok path => _ ← call (unlink path); mret tt
      end
  end.

(** * SYMLINK *)

Record symlink_req := SymlinkReq { sr_target : bytes; sr_link : bytes; sr_uid : Z; sr_gid : Z;
                                   sr_at : timespec; sr_mt : timespec }.

Definition decode_symlink : D (option symlink_req) :=
  target ← pdec_str PATH_MAX;
  match target with
  | None => mret None
  | Some target =>
      link_in ← pdec_str PATH_MAX;
      match link_in with
      | None => mret None
      | Some link_in =>
          uid ← pdec_u32; gid ← pdec_u32;
          at_s ← pdec_i64; at_ns ← pdec_i64; mt_s ← pdec_i64; mt_ns ← pdec_i64;
          error ← pdec_error;
          mret (if error : bool then None
                else Some (SymlinkReq (cstr target) (cstr link_in) uid gid
                             (Timespec at_s at_ns) (Timespec mt_s mt_ns)))
      end
  end.

(** Best-effort ownership of the fresh link. *)
Definition symlink_owner (dfd : Z) (tmp link_path : bytes) (uid gid : Z) : SM unit :=
  cfg ← gets s_cfg;
  if bool_decide (uid <> g_euid cfg) || bool_decide (gid <> g_egid cfg) then
    let '(want_uid, want_gid) := want_ids cfg uid gid in
    cerr ← (if decide (want_uid <> ID_NONE \/ want_gid <> ID_NONE) then
              r ← call (fchownat dfd tmp want_uid want_gid AT_SYMLINK_NOFOLLOW);
              mret (match r with Ok _ => 0 | Err e => e end)
            else mret 0);
    if negb (bool_decide (cerr = 0)) && negb (chown_permission_errno cerr)
    then log_op_error link_path cerr
    else when (ownership_unpreserved cfg uid gid || negb (bool_decide (cerr = 0))) warn_chown
  else mret tt.

Definition handle_symlink (payload : bytes) : SM unit :=
  match (decode_symlink (pdec_init payload)).1 with
  | None => mret tt
  | Some q =>
      r ← resolve (sr_link q);
      match r with
      | Err e => log_op_error (sr_link q) e
      | Ok link_path =>
          let '(dir, base) := split_dir_base link_path PATH_MAX PATH_MAX in
          r ← ensure_dir dir o0755;
          match r with
          | Err e => log_op_error dir e
          | Ok _ =>
              r ← acquire_dir dir;
              match r with
              | Err e => log_op_error dir e
              | Ok (dfd, de) =>
                  seq ← next_sym_seq;
                  pid ← call getpid;
                  let tmp := sym_tmp_name pid seq in
                  if decide (PATH_MAX <= zlen tmp)
                  then release_dir (Some de);; log_op_error link_path ENAMETOOLONG else
                  r ← call (symlinkat (sr_target q) dfd tmp);
                  match r with
                  | Err e => release_dir (Some de);; log_op_error link_path e
                  | Ok _ =>
                      symlink_owner dfd tmp link_path (sr_uid q) (sr_gid q);;
                      cfg ← gets s_cfg;
                      when (g_preserve_times cfg)
                        (_ ← call (utimensat dfd tmp (sr_at q) (sr_mt q) AT_SYMLINK_NOFOLLOW); mret tt);;
                      r ← call (renameat dfd tmp dfd base);
                      match r with
                      | Err e => log_op_error link_path e;; _ ← call (unlinkat dfd tmp 0); mret tt
                      | Ok _ => mret tt
                      end;;
                      release_dir (Some de)
                  end
              end
          end
      end
  end.

(** * LINK *)

Definition decode_link : D (option (bytes * bytes)) :=
  pri_in ← pdec_str PATH_MAX;
  match pri_in with
  | None => mret None
  | Some pri_in =>
      link_in ← pdec_str PATH_MAX; error ← pdec_error;
      mret (match link_in with
            | None => None
            | Some link_in => if error : bool then None else Some (cstr pri_in, cstr link_in)
            end)
  end.

(** Are primary and existing name already the same inode? *)
Definition already_linked (pri : bytes) (dfd : Z) (base : bytes) : SM bool :=
  r ← call (fstatat AT_FDCWD pri 0);
  match r with
  | Err _ => mret false
  | Ok pst =>
      r ← call (fstatat dfd base AT_SYMLINK_NOFOLLOW);
      match r with
      | Err _ => mret false
      | Ok lst => mret (bool_decide (st_dev pst = st_dev lst /\ st_ino pst = st_ino lst))
      end
  end.

(** Replace an existing name: link to a temp name, rename over. *)
Definition link_over (pri : bytes) (dfd : Z) (base link_path : bytes) (de : nat) : SM unit :=
  seq ← next_link_seq;
  pid ← call getpid;
  let tmp := link_tmp_name pid seq in
  if decide (PATH_MAX <= zlen tmp)
  then release_dir (Some de);; log_op_error link_path ENAMETOOLONG else
  r ← call (linkat AT_FDCWD pri dfd tmp 0);
  match r with
  | Err e => release_dir (Some de);; log_op_error link_path e
  | Ok _ =>
      r ← call (renameat dfd tmp dfd base);
      match r with
      | Err e => log_op_error link_path e;; _ ← call (unlinkat dfd tmp 0); mret tt
      | Ok _ => mret tt
      end;;
      release_dir (Some de)
  end.

Definition handle_link (payload : bytes) : SM unit :=
  match (decode_link (pdec_init payload)).1 with
  | None => mret tt
  | Some (pri_in, link_in) =>
      r ← resolve pri_in;
      match r with
      | Err e => log_op_error pri_in e
      | Ok pri =>
          r ← resolve link_in;
          match r with
          | Err e => log_op_error link_in e
          | Ok link_path =>
              let '(dir, base) := split_dir_base link_path PATH_MAX PATH_MAX in
              r ← ensure_dir dir o0755;
              match r with
              | Err e => log_op_error dir e
              | Ok _ =>
                  r ← acquire_dir dir;
                  match r with
                  | Err e => log_op_error dir e
                  | Ok (dfd, de) =>
                      r ← call (linkat AT_FDCWD pri dfd base 0);
                      match r with
                      | Ok _ => release_dir (Some de)
                      | Err e =>
                          if decide (e = EEXIST) then
                            same ← already_linked pri dfd base;
                            if same : bool then release_dir (Some de)
                            else link_over pri dfd base link_path de
                          else release_dir (Some de);; log_op_error link_path e
                      end
                  end
              end
          end
      end
  end.

(** * BARRIER and HELLO *)

Definition barrier_payload (s : server) : penc :=
  let l := s_err s in
  let e := penc_init (PATH_MAX + 96) in
  let e := penc_u32 e (u32 (if decide (g_err_count l = 0) then 0 else g_err_first l)) in
  let e := penc_u32 e (if decide (0xffffffff < g_err_count l) then 0xffffffff else g_err_count l) in
  let e := penc_str e (g_err_first_path l) in
  let e := penc_u64 e (g_verify_metadata_mismatches l) in
  let e := penc_u64 e (g_verify_data_mismatches l) in
  let e := penc_u64 e (g_verify_zero_mismatches l) in
  let e := penc_u64 e (g_verify_io_failures l) in
  let e := penc_u64 e (g_verify_malformed_batches l) in
  let e := penc_u64 e (g_verify_ownership_unpreserved l) in
  penc_u64 (penc_u64 e (g_drain_bytes s)) (g_drain_ns s).

Definition handle_barrier (id : Z) (payload : bytes) : SM bool :=
  let flush := (pdec_u8 (pdec_init payload)).1 in
  when (negb (flush =? 0)) (call sync);;
  s ← get;
  reply MSG_STATUS id (barrier_payload s).

(** Requested pool size and option bits: absent fields read as 0. *)
Definition decode_hello (payload : bytes) : Z * Z * Z * bool :=
  let '(_, d) := pdec_u32 (pdec_init payload) in
  let '(ccaps, d) := pdec_u32 d in
  let '(_, d) := pdec_str 128 d in
  let '(_, d) := pdec_str PATH_MAX d in
  let '(want, d) := pdec_u32 d in
  let want_threads := if pd_error d then 0 else want in
  let '(opts, d) := pdec_u32 d in
  (ccaps, want_threads, opts, pd_error d).

Definition hello_payload (uname_s root : bytes) (present : bool) : penc :=
  let e := penc_init 512 in
  let e := penc_u32 e ECOPY_PROTO_VERSION in
  let e := penc_u32 e (ECOPY_CAP_FALLOCATE |. ECOPY_CAP_SPARSE) in
  let e := penc_str e uname_s in
  let e := penc_str e root in
  penc_u8 e (b2z present).

(** The options of a HELLO, before the pool is started. *)
Definition hello_options (ccaps opts : Z) (error : bool) (cfg : config) : config :=
  let cfg := set_g_preserve_times (error || has_bits opts ECOPY_OPT_PRESERVE_TIMES) cfg in
  let cfg := if negb error && has_bits opts ECOPY_OPT_SERVER_BUFFERED
             then set_g_server_direct_io false cfg else cfg in
  set_g_caps ccaps cfg.

(** [pool_start]: [start n] tells how many threads could be created, [None]
    when their table could not be allocated. *)
Definition pool_start (start : Z -> option Z) (n : Z) (s : server) : server :=
  if decide (n <= 1) then set_g_pool_n 0 s
  else match start n with
       | None => set_g_pool_n 0 s
       | Some started => set_g_pool_n started (set_g_pool_limit (n * 4) s)
       end.

Definition handle_hello (start : Z -> option Z) (id : Z) (payload : bytes) : SM bool :=
  let '(ccaps, want_threads, opts, error) := decode_hello payload in
  modify (fun s => set_s_cfg (hello_options ccaps opts error (s_cfg s)) s);;
  s ← get;
  when (bool_decide (g_pool_n s = 0))
    (let n := i32 want_threads in
     modify (pool_start start (if decide (256 < n) then 256 else n)));;
  u ← call uname;
  let uname_s := match u with
                 | Ok (sysname, machine) => snprintf_s 160 (sysname ++ str " " ++ machine)
                 | Err _ => str "unknown unknown"
                 end in
  cfg ← gets s_cfg;
  reply MSG_HELLO_OK id (hello_payload uname_s (g_root_norm cfg) (g_root_present cfg)).
End handlers.
