(* ===== verification/ServerVerify.v ===== *)
(** Read-only verification on the server (src/server.c: [pread_exact],
    [handle_verify_path]).  The digest function BLAKE3 (src/third_party) is a
    parameter. *)

From S2P Require Export ServerOps.

Definition VERIFY_BLOCK_SIZE : Z := 4096.
Definition VERIFY_DIGEST_SIZE : Z := 32.
Definition VERIFY_BATCH_MAX : Z := 256.
Definition VERIFY_SAMPLE_EXPECT_ZERO : Z := 1.

(** * The request *)

Record verify_req := VerifyReq { vr_path : bytes; vr_meta : meta; vr_size : Z; vr_flags : Z; vr_count : Z }.

(** The header; the cursor is left at the samples. *)
Definition decode_verify (payload : bytes) : option (verify_req * pdec) :=
  let '(p, d) := pdec_str PATH_MAX (pdec_init payload) in
  match p with
  | None => None
  | Some p =>
      let '((m, size, flags, count), d) :=
        (m ← decode_meta; size ← pdec_i64; flags ← pdec_u8; count ← pdec_u32;
         mret (m, size, flags, count)) d in
      Some (VerifyReq (cstr p) m size flags count, d)
  end.

Record sample := Sample { sm_offset : Z; sm_length : Z; sm_flags : Z; sm_digest : bytes }.

(** One sample of the request; [None] when the frame ends inside it. *)
Definition decode_sample (d : pdec) : option sample * pdec :=
  let '((offset, length, flags, digest), d) :=
    (offset ← pdec_i64; length ← pdec_u32; flags ← pdec_u8; digest ← pdec_bytes (Z.to_nat VERIFY_DIGEST_SIZE);
     mret (offset, length, flags, digest)) d in
  (match digest with Some g => Some (Sample offset length flags g) | None => None end, d).

(** The range check on a sample. *)
Definition sample_ok (size : Z) (s : sample) : bool :=
  negb (has_bits (sm_flags s) (Z.lnot VERIFY_SAMPLE_EXPECT_ZERO)
        || bool_decide (sm_offset s < 0) || bool_decide (sm_length s = 0)
        || bool_decide (VERIFY_BLOCK_SIZE < sm_length s)
        || bool_decide (size < sm_offset s)
        || bool_decide (u64 (size - sm_offset s) < sm_length s)).

(** * Reading exactly a range *)

Section handlers.
Context (eintr : nat) (blake3_hash : bytes -> bytes).

Fixpoint pread_loop (fuel : nat) (fd : Z) (want : nat) (got : bytes) (offset : Z) : prog posix (option bytes) :=
  match want with
  | O => Ret (Some got)
  | S _ =>
      match fuel with
      | O => Stuck
      | S fuel =>
          Sys (pread fd (Z.of_nat want) (offset + zlen got)) (fun r =>
            match r with
            | Err e => if decide (e = EINTR) then pread_loop fuel fd want got offset else Ret None
            | Ok [] => Ret None
            | Ok d => pread_loop fuel fd (want - length d) (got ++ d) offset
            end)
      end
  end.

Definition pread_exact (fd : Z) (len : nat) (offset : Z) : prog posix (option bytes) :=
  pread_loop (len + eintr) fd len [] offset.

(** * The checks *)

(** The verdict so far. *)
Record verdict := Verdict { v_failed : bool; v_bad_offset : option Z;
                            v_data_bad : bool; v_zero_bad : bool; v_io_bad : bool }.

Definition compare_block (data : bytes) (s : sample) : bool :=
  if has_bits (sm_flags s) VERIFY_SAMPLE_EXPECT_ZERO
  then existsb (fun b => negb (bool_decide (b = x00))) data
  else negb (bool_decide (blake3_hash data = sm_digest s)).

(** One sample against the file, when nothing has failed yet. *)
Definition check_sample (fd : Z) (s : sample) (v : verdict) : SM verdict :=
  if v_failed v then mret v else
  r ← lift (pread_exact fd (Z.to_nat (sm_length s)) (sm_offset s));
  mret (match r with
        | None => Verdict true (Some (sm_offset s)) (v_data_bad v) (v_zero_bad v) true
        | Some data =>
            if compare_block data s then
              if has_bits (sm_flags s) VERIFY_SAMPLE_EXPECT_ZERO
              then Verdict true (Some (sm_offset s)) (v_data_bad v) true (v_io_bad v)
              else Verdict true (Some (sm_offset s)) true (v_zero_bad v) (v_io_bad v)
            else v
        end).

(** [for (i < count && !d.error)]; also the final cursor. *)
Fixpoint sample_loop (n : nat) (fd size : Z) (d : pdec) (v : verdict) : SM (verdict * pdec) :=
  match n with
  | O => mret (v, d)
  | S n =>
      if pd_error d then mret (v, d) else
      let '(s, d) := decode_sample d in
      match s with
      | None => mret (v, d)
      | Some s =>
          if sample_ok size s then
            v ← check_sample fd s v;
            sample_loop n fd size d v
          else mret (v, Pdec (pd_buf d) (pd_off d) true)
      end
  end.

(** The test hook's variable. [getenv] has no effect, so it is read before
    the comparison that may use it. *)
Definition forced_ownership : SM bool :=
  f ← call (getenv FORCE_OWNERSHIP_ENV); mret (bool_decide (f <> None)).

(** The metadata verdict: a field that differs, unless it is ownership this
    server could not have preserved, which is only counted. *)
Definition judge_field (field : option bytes) : SM (option bytes) :=
  cfg ← gets s_cfg;
  forced ← forced_ownership;
  match field with
  | None => mret None
  | Some f =>
      if metadata_ownership_unpreservable cfg (Some f) forced
      then note_verify_ownership_unpreserved;; mret None
      else mret (Some f)
  end.

Definition type_size_bad (st : stat) (q : verify_req) (is_dir : bool) : bool :=
  (if is_dir then negb (S_ISDIR (st_mode st)) else negb (S_ISREG (st_mode st)))
  || (negb is_dir && negb (bool_decide (st_size st = vr_size q))).

(** Metadata only: one stat that does not follow links. *)
Definition verify_stat_only (path : bytes) (q : verify_req) (is_dir check_metadata check_times : bool) : SM unit :=
  r ← call (fstatat AT_FDCWD path AT_SYMLINK_NOFOLLOW);
  match r with
  | Err e => log_verify_error VERIFY_ERR_IO path e
  | Ok st =>
      forced ← forced_ownership;
      let field := if type_size_bad st q is_dir then Some (str "type/size")
                   else if check_metadata
                   then metadata_mismatch_stat st (vr_meta q) is_dir check_times forced
                   else None in
      field ← judge_field field;
      match field with
      | None => mret tt
      | Some f => log_verify_error VERIFY_ERR_METADATA (diagnostic path (Some f)) EIO
      end
  end.

Definition verify_diagnostic (path : bytes) (bad_offset : option Z) (field : option bytes) : bytes :=
  match bad_offset with
  | Some off => snprintf_s PATH_MAX (take (Z.to_nat (PATH_MAX - 48)) path ++ str " at offset " ++ dec off)
  | None => diagnostic path field
  end.

(** The data samples of an open regular file, then its metadata. *)
Definition verify_data (path : bytes) (q : verify_req) (d : pdec)
    (check_metadata check_times : bool) (fd : Z) : SM unit :=
  let sequential := has_bits (vr_flags q) ECOPY_VERIFY_SEQUENTIAL in
  _ ← call (posix_fadvise fd 0 0 (if sequential then POSIX_FADV_SEQUENTIAL else POSIX_FADV_RANDOM));
  st ← call (fstat fd);
  let v0 := Verdict false None false false false in
  let '(v, metadata_bad, field) :=
    match st with
    | Err _ => (Verdict true None false false true, false, Some (str "stat"))
    | Ok st => if type_size_bad st q false
               then (Verdict true None false false false, true, Some (str "type/size"))
               else (v0, false, None)
    end in
  '(v, d) ← sample_loop (Z.to_nat (vr_count q)) fd (vr_size q) d v;
  let malformed := pd_error d || negb (bool_decide (pd_off d = pd_len d)) in
  when malformed (log_verify_error VERIFY_ERR_MALFORMED path EINVAL);;
  let failed := v_failed v || malformed in
  '(failed, metadata_bad, field) ←
    (match st with
     | Ok st =>
         if check_metadata && negb (v_io_bad v) then
           forced ← forced_ownership;
           meta_field ← judge_field (metadata_mismatch_stat st (vr_meta q) false check_times forced);
           match meta_field with
           | None => mret (failed, metadata_bad, field)
           | Some f => mret (true, true, match field with None => Some f | _ => field end)
           end
         else mret (failed, metadata_bad, field)
     | Err _ => mret (failed, metadata_bad, field)
     end);
  _ ← call (close fd);
  when failed
    (let diagnostic := verify_diagnostic path (v_bad_offset v) field in
     when metadata_bad (log_verify_error VERIFY_ERR_METADATA diagnostic EIO);;
     when (v_data_bad v) (log_verify_error VERIFY_ERR_DATA diagnostic EIO);;
     when (v_zero_bad v) (log_verify_error VERIFY_ERR_ZERO diagnostic EIO);;
     when (v_io_bad v) (log_verify_error VERIFY_ERR_IO diagnostic EIO)).

Definition ATIME_WARNING : bytes :=
  str "ecopy: remote verification data reads may update atime because timestamps are not being checked".
(** Without strerror's text. *)
Definition noatime_warning (path : bytes) : bytes :=
  str "ecopy: remote verification cannot open " ++ path ++
  str " with O_NOATIME: use --verify-metadata or --no-preserve-times".

Definition handle_verify_path (payload : bytes) : SM unit :=
  match decode_verify payload with
  | None => log_verify_error VERIFY_ERR_MALFORMED (str "(malformed verify path)") EINVAL
  | Some (q, d) =>
      let is_dir := has_bits (vr_flags q) ECOPY_VERIFY_DIRECTORY in
      let check_metadata := has_bits (vr_flags q) ECOPY_VERIFY_METADATA in
      let check_times := has_bits (vr_flags q) ECOPY_VERIFY_PRESERVE_TIME in
      let bad := pd_error d || bool_decide (vr_size q < 0) || bool_decide (VERIFY_BATCH_MAX < vr_count q)
                 || has_bits (vr_flags q) (Z.lnot 15) || (is_dir && negb (bool_decide (vr_count q = 0))) in
      r ← (if bad then mret (Err EINVAL) else resolve (vr_path q));
      match r with
      | Err _ => log_verify_error VERIFY_ERR_MALFORMED (vr_path q) EINVAL
      | Ok path =>
          if decide (vr_count q = 0) then verify_stat_only path q is_dir check_metadata check_times else
          let open_flags := O_RDONLY |. O_NOFOLLOW |. O_CLOEXEC
                            |. (if check_times then O_NOATIME else 0) in
          warned ← gets g_verify_atime_warned;
          when (negb check_times)
            (modify (set_g_verify_atime_warned true);;
             when (negb warned) (call (eprintf ATIME_WARNING)));;
          r ← call (open path open_flags 0);
          match r with
          | Err e =>
              when (check_times && bool_decide (e = EPERM \/ e = EACCES)) (call (eprintf (noatime_warning path)));;
              log_verify_error VERIFY_ERR_IO path e
          | Ok fd => verify_data path q d check_metadata check_times fd
          end
      end
  end.
End handlers.
