(* ===== verification/ServerMain.v ===== *)
(** The server's main loop (src/server.c: [mkdir_p], [server_main]): start-up,
    frame dispatch and shutdown.

    This is the server as a single thread of control. A frame the C code hands
    to the apply pool (PUTFILE, MKDIR, SETMETA, VERIFY_PATH) is applied where
    it is submitted, which is one of the schedules the pool allows and the
    only one when the pool has no thread; the queue itself is modelled in
    ServerPool.v. *)

From S2P Require Export ServerVerify.

Section server.
Context (eintr : nat) (blake3_hash : bytes -> bytes) (start_threads : Z -> option Z).

(** * Dispatch *)

(** What the loop does next: read on, stop because of BYE, or stop because a
    reply could not be written. *)
Inductive next := Continue | Goodbye | Broken.
#[export] Instance next_eq_dec : EqDecision next.
Proof. solve_decision. Defined.

Definition fire (c : SM unit) : SM next := c;; mret Continue.
Definition replied (c : SM bool) : SM next := ok ← c; mret (if ok : bool then Continue else Broken).

Definition dispatch (type id : Z) (payload : bytes) : SM next :=
  match msg_of_code type with
  | Some MSG_HELLO => replied (handle_hello eintr start_threads id payload)
  | Some MSG_OPEN => fire (handle_open payload)
  | Some MSG_WRITE => fire (handle_write eintr payload)
  | Some MSG_FTRUNCATE => fire (handle_ftruncate payload)
  | Some MSG_COMMIT => replied (handle_commit eintr id payload)
  | Some MSG_ABORT => fire (handle_abort payload)
  | Some MSG_PUTFILE => fire (handle_putfile eintr payload)
  | Some MSG_MKDIR => fire (handle_mkdir payload)
  | Some MSG_STAT => replied (handle_stat eintr id payload)
  | Some MSG_STAT_BULK => replied (handle_stat_bulk eintr id payload)
  | Some MSG_SETMETA => fire (handle_setmeta payload)
  | Some MSG_VERIFY_PATH => fire (handle_verify_path eintr blake3_hash payload)
  | Some MSG_BARRIER => replied (handle_barrier eintr id payload)
  | Some MSG_UNLINK => fire (handle_unlink payload)
  | Some MSG_SYMLINK => fire (handle_symlink payload)
  | Some MSG_LINK => fire (handle_link payload)
  | Some MSG_BYE => mret Goodbye
  | Some (MSG_HELLO_OK | MSG_STAT_RESP | MSG_STAT_BULK_RESP | MSG_STATUS) | None => mret Continue
  end.

(** * The loop *)

(** One frame: [None] when the channel ended or the frame is unacceptable. *)
Definition read_frame : SM (option (Z * Z * bytes)) :=
  hdr ← lift (frame_read_header eintr STDIN_FILENO);
  match hdr with
  | None => mret None
  | Some (type, id, plen) =>
      if decide (ECOPY_MAX_FRAME < plen)
      then call (eprintf (str "ecopy --server: oversized frame"));; mret None else
      if decide (plen = 0) then mret (Some (type, id, [])) else
      allocated ← call (malloc plen);
      if negb allocated then mret None else
      payload ← lift (io_read_all eintr STDIN_FILENO (Z.to_nat plen));
      mret (match payload with Some p => Some (type, id, p) | None => None end)
  end.

(** [true] when the loop was left through BYE. [frames] bounds the number of
    frames served. *)
Fixpoint server_loop (frames : nat) : SM bool :=
  match frames with
  | O => stuck
  | S frames =>
      f ← read_frame;
      match f with
      | None => mret false
      | Some (type, id, payload) =>
          n ← dispatch type id payload;
          match n with
          | Continue => server_loop frames
          | Goodbye => mret true
          | Broken => mret false
          end
      end
  end.

(** Temp files of unfinished transfers. *)
Fixpoint cleanup_files (l : list open_file) : SM unit :=
  match l with
  | [] => modify (set_g_files [])
  | f :: l =>
      when (bool_decide (0 <= f_fd f)) (_ ← call (close (f_fd f)); mret tt);;
      when (negb (f_inplace f) && bool_decide (f_tmp_path f <> []))
        (_ ← call (unlink (f_tmp_path f)); mret tt);;
      cleanup_files l
  end.

Definition server_shutdown (bye : bool) : SM unit :=
  modify (set_g_pool_n 0);;
  zoom l_dfd dir_fd_cache_destroy;;
  zoom l_dirs (modify dir_cache_destroy);;
  (if bye then mret tt else files ← gets g_files; cleanup_files files);;
  modify (set_g_wbuf_cap 0).

(** * Start-up *)

(** The prefixes of [path] that end before a slash, the leading one aside. *)
Definition slash_prefixes (path : bytes) : list bytes :=
  (fun i => take i path) <$>
    filter (fun i => path !! i = Some SLASH) (seq 1 (pred (length path))).

Fixpoint mkdir_all (ps : list bytes) : SM (res unit) :=
  match ps with
  | [] => mret (Ok tt)
  | p :: ps =>
      r ← call (mkdir p o0777);
      match r with
      | Err e => if decide (e = EEXIST) then mkdir_all ps else mret (Err e)
      | Ok _ => mkdir_all ps
      end
  end.

Definition mkdir_p (path : bytes) : SM (res unit) :=
  if decide (PATH_MAX <= zlen path) then mret (Err ENAMETOOLONG)
  else mkdir_all (slash_prefixes path ++ [path]).

Definition DIRFD_ENV : bytes := str "DIRECT_COPY_SSH_SERVER_DIRFD_CACHE".

(** [true] when the server is ready to serve. *)
Definition server_start (root : bytes) (read_only : bool) : SM bool :=
  if decide (head root <> Some SLASH)
  then call (eprintf (str "ecopy --server: root must be an absolute path"));; mret false else
  call (grow_pipe STDIN_FILENO);; call (grow_pipe STDOUT_FILENO);;
  euid ← call geteuid; egid ← call getegid; groups ← call getgroups;
  modify (fun s => set_s_cfg (set_g_groups groups (set_g_egid egid (set_g_euid euid (s_cfg s)))) s);;
  call (umask 0);;
  r ← call (lstat root);
  let present := match r with Ok st => S_ISDIR (st_mode st) | Err _ => false end in
  modify (fun s => set_s_cfg (set_g_root_present present (s_cfg s)) s);;
  ok ← (if read_only then
          if present : bool then mret true
          else call (eprintf (str "ecopy --server-readonly: target root must already exist: " ++ root));;
               mret false
        else
          r ← mkdir_p root;
          match r with
          | Ok _ => mret true
          | Err _ => call (eprintf (str "ecopy --server: cannot create root " ++ root));; mret false
          end);
  if negb ok then mret false else
  match normalize_abs root PATH_MAX with
  | Err _ => call (eprintf (str "ecopy --server: bad root path"));; mret false
  | Ok norm =>
      modify (fun s => set_s_cfg (set_g_root_norm norm (s_cfg s)) s);;
      lim ← call getrlimit_nofile;
      env ← call (getenv DIRFD_ENV);
      modify (fun s => set_s_dfd (set_g_dfd_cap (dir_fd_cache_init lim env) (s_dfd s)) s);;
      mret true
  end.

(** The exit status. *)
Definition server_main (frames : nat) (root : bytes) (read_only : bool) : SM Z :=
  ready ← server_start root read_only;
  if negb ready then mret 1 else
  bye ← server_loop frames;
  server_shutdown bye;;
  mret 0.
End server.
