(* ===== verification/ServerPool.v ===== *)
(** The server's apply pool (src/server.c, "apply pool"): the job queue, the
    worker threads, the reader that submits jobs, drains the pool before every
    other frame, and shuts it down.

    The type of frames and which of them are pooled are parameters; what
    applying a frame does is not part of the pool. [pstep] interleaves the
    critical sections under g_pool_lock; a thread that waits on a condition
    variable sleeps until a signal or broadcast reaches it.  The case of no
    pool (g_pool_n = 0), where the reader applies every frame itself, is
    ServerMain.v. *)

From S2P Require Export Prelude.

Section pool.
Context {J : Type} (pooled : J -> bool).

(** The job list, [g_job_queued], [g_job_active] and [g_pool_stop]. *)
Record jobs := Jobs { j_list : list J; j_queued : Z; j_active : Z; j_stop : bool }.

(** A [pool_worker]: about to lock, asleep on g_pool_work_cv, signalled,
    running a job, gone. *)
Inductive worker := WIdle | WParked | WWoken | WRun (j : J) | WExit.

(** The reader: between frames; in [pool_submit], asleep on g_pool_space_cv,
    signalled, applying the job itself; in [pool_drain] before a frame or,
    with [None], in [pool_shutdown], asleep on g_pool_drain_cv, signalled;
    applying a frame inline; about to stop the workers; joining them; done. *)
Inductive reader :=
| RRead | RSubmit (j : J) | RSpace (j : J) | RSpaceWoken (j : J) | RSelf (j : J)
| RDrain (f : option J) | RDrainParked (f : option J) | RDrainWoken (f : option J)
| RInline (f : J) | RStop | RJoin | RDone.

(** [y_todo] are the frames still to come, [y_done] the applied ones in the
    order they finished. *)
Record psys := PSys { y_jobs : jobs; y_workers : list worker; y_reader : reader; y_todo : list J; y_done : list J }.

(** ** Critical sections *)

(** What a worker does with the lock. *)
Definition pool_take (b : jobs) : jobs * worker :=
  match j_list b with
  | [] => (b, if j_stop b then WExit else WParked)
  | j :: l => (Jobs l (j_queued b - 1) (j_active b + 1) (j_stop b), WRun j)
  end.
Definition pool_finish (b : jobs) : jobs := Jobs (j_list b) (j_queued b) (j_active b - 1) (j_stop b).
Definition pool_push (j : J) (b : jobs) : jobs := Jobs (j_list b ++ [j]) (j_queued b + 1) (j_active b) (j_stop b).
Definition pool_full (limit : Z) (b : jobs) : bool := bool_decide (limit <= j_queued b + j_active b).
Definition pool_busy (b : jobs) : bool := bool_decide (0 < j_queued b) || bool_decide (0 < j_active b).

(** ** Condition variables *)

Inductive work_signal : list worker -> list worker -> Prop :=
| work_hit ws i : ws !! i = Some WParked -> work_signal ws (<[i := WWoken]> ws)
| work_lost ws : WParked ∉ ws -> work_signal ws ws.
Definition wake_worker (w : worker) : worker := match w with WParked => WWoken | _ => w end.
Definition space_signal (p : reader) : reader := match p with RSpace j => RSpaceWoken j | _ => p end.
Definition drain_broadcast (p : reader) : reader := match p with RDrainParked f => RDrainWoken f | _ => p end.

Definition submitting (p : reader) (j : J) : Prop := p = RSubmit j \/ p = RSpaceWoken j.
Definition draining (p : reader) (f : option J) : Prop := p = RDrain f \/ p = RDrainWoken f.

(** ** Steps *)

(** [bye] is MSG_BYE; [oom] says whether allocations may fail, [cut] whether
    the channel may break at any point. *)
Inductive pstep (bye : J -> bool) (oom cut : bool) (limit : Z) : psys -> psys -> Prop :=
(** A worker takes a job, goes to sleep, or leaves. *)
| ps_take i w b ws p todo dn :
    ws !! i = Some w -> w = WIdle \/ w = WWoken ->
    pstep bye oom cut limit (PSys b ws p todo dn) (PSys (pool_take b).1 (<[i := (pool_take b).2]> ws) p todo dn)
(** A worker has applied its job. *)
| ps_finish i j b ws p todo dn :
    ws !! i = Some (WRun j) ->
    let b' := pool_finish b in
    pstep bye oom cut limit (PSys b ws p todo dn)
      (PSys b' (<[i := WIdle]> ws) (let p := space_signal p in if pool_busy b' then p else drain_broadcast p)
         todo (dn ++ [j]))
(** The reader gets a frame. *)
| ps_frame f b ws todo dn :
    pstep bye oom cut limit (PSys b ws RRead (f :: todo) dn)
      (PSys b ws (if pooled f then RSubmit f else RDrain (Some f)) todo dn)
(** End of input, or a frame that cannot be read. *)
| ps_eof b ws todo dn :
    todo = [] \/ cut = true -> pstep bye oom cut limit (PSys b ws RRead todo dn) (PSys b ws (RDrain None) todo dn)
(** [pool_submit]: no memory; no room; room. *)
| ps_oom j b ws todo dn :
    oom = true -> pstep bye oom cut limit (PSys b ws (RSubmit j) todo dn) (PSys b ws (RSelf j) todo dn)
| ps_self j b ws todo dn : pstep bye oom cut limit (PSys b ws (RSelf j) todo dn) (PSys b ws RRead todo (dn ++ [j]))
| ps_full p j b ws todo dn :
    submitting p j -> pool_full limit b = true ->
    pstep bye oom cut limit (PSys b ws p todo dn) (PSys b ws (RSpace j) todo dn)
| ps_push p j b ws ws' todo dn :
    submitting p j -> pool_full limit b = false -> work_signal ws ws' ->
    pstep bye oom cut limit (PSys b ws p todo dn) (PSys (pool_push j b) ws' RRead todo dn)
(** [pool_drain]: something is left; nothing is. *)
| ps_busy p f b ws todo dn :
    draining p f -> pool_busy b = true ->
    pstep bye oom cut limit (PSys b ws p todo dn) (PSys b ws (RDrainParked f) todo dn)
| ps_drained p f b ws todo dn :
    draining p f -> pool_busy b = false ->
    pstep bye oom cut limit (PSys b ws p todo dn)
      (PSys b ws (match f with Some f => RInline f | None => RStop end) todo dn)
(** The frame is handled inline; the loop ends at BYE or when a reply cannot
    be written. *)
| ps_inline f (stop : bool) b ws todo dn :
    (bye f = true -> stop = true) -> (stop = true -> bye f = true \/ cut = true) ->
    pstep bye oom cut limit (PSys b ws (RInline f) todo dn)
      (PSys b ws (if stop then RDrain None else RRead) todo (dn ++ [f]))
(** [pool_shutdown]. *)
| ps_stop b ws todo dn :
    pstep bye oom cut limit (PSys b ws RStop todo dn)
      (PSys (Jobs (j_list b) (j_queued b) (j_active b) true) (wake_worker <$> ws) RJoin todo dn)
| ps_join b ws todo dn :
    Forall (eq WExit) ws -> pstep bye oom cut limit (PSys b ws RJoin todo dn) (PSys b ws RDone todo dn).

(** [pool_start n] with [started] threads. *)
Definition psys0 (started : nat) (input : list J) : psys :=
  PSys (Jobs [] 0 0 false) (replicate started WIdle) RRead input [].
End pool.
Arguments jobs : clear implicits.
Arguments worker : clear implicits.
Arguments reader : clear implicits.
Arguments psys : clear implicits.

(** * Invariant *)

Section pool.
Context {J : Type} (pooled bye : J -> bool) (oom cut : bool) (limit : Z) (started : nat) (input : list J).
Implicit Types (b : jobs J) (ws : list (worker J)) (p : reader J) (y : psys J).

Definition job_of (w : worker J) : list J := match w with WRun j => [j] | _ => [] end.
Definition running ws : list J := concat (job_of <$> ws).
(** The frame in the reader's hands. *)
Definition held p : list J :=
  match p with
  | RSubmit j | RSpace j | RSpaceWoken j | RSelf j | RInline j => [j]
  | RDrain f | RDrainParked f | RDrainWoken f => option_list f
  | _ => []
  end.
Definition held_ok p : Prop :=
  match p with
  | RSubmit j | RSpace j | RSpaceWoken j | RSelf j => pooled j = true
  | RDrain (Some f) | RDrainParked (Some f) | RDrainWoken (Some f) | RInline f => pooled f = false
  | _ => True
  end.
(** The reader knows that the pool is empty. *)
Definition sees_empty p : bool := match p with RInline _ | RStop | RJoin | RDone => true | _ => false end.
(** The loop has been left. *)
Definition closing p : bool :=
  match p with RDrain None | RDrainParked None | RDrainWoken None | RStop | RJoin | RDone => true | _ => false end.
Definition stopped p : bool := match p with RJoin | RDone => true | _ => false end.
Definition gone (w : worker J) : Prop := w = WParked \/ w = WExit.
#[local] Instance gone_dec w : Decision (gone w).
Proof. destruct w; first [left; by left|left; by right|right; by intros [?|?]]. Defined.

(** Every frame that is not pooled was applied after all the frames before it
    and before all the frames after it. *)
Definition in_order (dn : list J) : Prop :=
  forall a f c, dn = a ++ f :: c -> pooled f = false -> exists pre post, input = pre ++ f :: post /\ a ≡ₚ pre.

Record pinv y : Prop := PInv {
  pv_queued : j_queued (y_jobs y) = zlen (j_list (y_jobs y));
  pv_active : j_active (y_jobs y) = zlen (running (y_workers y));
  pv_limit : j_queued (y_jobs y) + j_active (y_jobs y) <= limit;
  pv_len : length (y_workers y) = started;
  pv_held : held_ok (y_reader y);
  pv_empty : sees_empty (y_reader y) = true -> pool_busy (y_jobs y) = false;
  pv_stop : j_stop (y_jobs y) = stopped (y_reader y);
  pv_exit : WExit ∈ y_workers y -> j_stop (y_jobs y) = true;
  pv_parked : j_stop (y_jobs y) = true -> WParked ∉ y_workers y;
  pv_done : y_reader y = RDone -> Forall (eq WExit) (y_workers y);
  pv_input : exists pre, input = pre ++ held (y_reader y) ++ y_todo y /\
    y_done y ++ running (y_workers y) ++ j_list (y_jobs y) ≡ₚ pre;
  pv_jobs : Forall (fun j => pooled j = true) (running (y_workers y) ++ j_list (y_jobs y));
  pv_order : in_order (y_done y);
  pv_close : closing (y_reader y) = true ->
    y_todo y = [] \/ cut = true \/ (pool_busy (y_jobs y) = false /\ exists dn f, y_done y = dn ++ [f] /\ bye f = true);
  (** nothing waits for a wake-up that has been missed *)
  pv_awake : Forall gone (y_workers y) -> j_list (y_jobs y) = [];
  pv_space : forall j, y_reader y = RSpace j -> pool_full limit (y_jobs y) = true;
  pv_drain : forall f, y_reader y = RDrainParked f -> pool_busy (y_jobs y) = true
}.

Lemma running_at ws i w :
  ws !! i = Some w -> exists R, running ws ≡ₚ job_of w ++ R /\ forall w', running (<[i := w']> ws) ≡ₚ job_of w' ++ R.
Proof. apply (concat_at job_of). Qed.
Lemma running_zlen ws i w w' :
  ws !! i = Some w -> zlen (running (<[i := w']> ws)) = zlen (running ws) - zlen (job_of w) + zlen (job_of w').
Proof.
  intros H. destruct (running_at ws i w H) as (R & H1 & H2). specialize (H2 w').
  apply Permutation_length in H1, H2. unfold zlen. rewrite H1, H2, !length_app. lia.
Qed.
Lemma busy_spec b : 0 <= j_queued b -> 0 <= j_active b -> pool_busy b = bool_decide (0 < j_queued b + j_active b).
Proof. intros H1 H2. unfold pool_busy. repeat case_bool_decide; try done; lia. Qed.
Lemma not_busy b ws :
  j_queued b = zlen (j_list b) -> j_active b = zlen (running ws) -> pool_busy b = false -> j_list b = [] /\ running ws = [].
Proof.
  intros Hq Ha. pose proof (zlen_nonneg (j_list b)). pose proof (zlen_nonneg (running ws)).
  rewrite busy_spec by lia. intros Hb%bool_decide_eq_false. unfold zlen in *. split; apply nil_length_inv; lia.
Qed.

(** What taking a job does to the counts and contents. *)
Lemma pool_take_spec b ws i w :
  ws !! i = Some w -> w = WIdle \/ w = WWoken -> j_queued b = zlen (j_list b) -> j_active b = zlen (running ws) ->
  let b' := (pool_take b).1 in let ws' := <[i := (pool_take b).2]> ws in
  j_queued b' = zlen (j_list b') /\ j_active b' = zlen (running ws') /\
  j_queued b' + j_active b' = j_queued b + j_active b /\ j_stop b' = j_stop b /\
  running ws' ++ j_list b' ≡ₚ running ws ++ j_list b.
Proof.
  intros Hi Hw Hq Ha. assert (Hj : job_of w = []) by (by destruct Hw; subst).
  pose proof (running_zlen ws i w (pool_take b).2 Hi) as Hz. destruct (running_at ws i w Hi) as (R & H1 & H2).
  specialize (H2 (pool_take b).2). rewrite Hj in *. change (zlen (@nil J)) with 0 in Hz. cbn [app] in H1.
  unfold pool_take in *. destruct (j_list b) as [|j l] eqn:El; cbn [fst snd j_list j_queued j_active j_stop] in *.
  - rewrite El. assert (E : job_of (if j_stop b then WExit else WParked) = []) by (by destruct (j_stop b)).
    rewrite E in *. change (zlen (@nil J)) with 0 in *. split_and!; [done|lia|done|done|]. by rewrite H1, H2.
  - rewrite zlen_cons in Hq. cbn [job_of] in *. change (zlen [j]) with 1 in Hz.
    split_and!; [lia|lia|lia|done|]. rewrite H1, H2. perm.
Qed.

Lemma gone_insert ws i w : ws !! i = Some w -> ~ gone w -> ~ Forall gone ws.
Proof. intros Hi Hn Hall. by apply Hn, (Forall_lookup_1 _ _ _ _ Hall Hi). Qed.
Lemma elem_insert ws i w x : x ∈ <[i := w]> ws -> x = w \/ x ∈ ws.
Proof.
  intros (k & Hk)%list_elem_of_lookup_1. destruct (decide (k = i)) as [->|Hne].
  - left. assert (i < length ws)%nat by (apply lookup_lt_Some in Hk; by rewrite length_insert in Hk).
    rewrite list_lookup_insert_eq in Hk by done. congruence.
  - right. rewrite list_lookup_insert_ne in Hk by done. by eapply list_elem_of_lookup_2.
Qed.

Lemma in_order_snoc dn x :
  in_order dn -> (pooled x = false -> exists pre post, input = pre ++ x :: post /\ dn ≡ₚ pre) -> in_order (dn ++ [x]).
Proof.
  intros Hord Hx a f c Heq Hf. destruct c as [|z c _] using rev_ind.
  - apply app_inj_tail in Heq as [-> ->]. by apply Hx.
  - rewrite app_comm_cons, (assoc_L (++)) in Heq. apply app_inj_tail in Heq as [-> ->]. by eapply Hord.
Qed.

Lemma pinv_take i w b ws p todo dn :
  pinv (PSys b ws p todo dn) -> ws !! i = Some w -> w = WIdle \/ w = WWoken ->
  pinv (PSys (pool_take b).1 (<[i := (pool_take b).2]> ws) p todo dn).
Proof.
  intros [Hq Ha Hlim Hlen Hh He Hs Hx Hpk Hd Hin Hjobs Hord Hcl Haw Hsp Hdr] Hi Hw.
  cbn [y_jobs y_workers y_reader y_todo y_done] in *.
  destruct (pool_take_spec b ws i w Hi Hw Hq Ha) as (Tq & Ta & Tsum & Ts & Tp).
  pose proof (zlen_nonneg (j_list b)). pose proof (zlen_nonneg (running ws)).
  pose proof (zlen_nonneg (j_list (pool_take b).1)). pose proof (zlen_nonneg (running (<[i:=(pool_take b).2]> ws))).
  assert (Tb : pool_busy (pool_take b).1 = pool_busy b) by (rewrite !busy_spec by lia; by rewrite Tsum).
  assert (Hsleep : j_list b <> [] -> (pool_take b).2 <> WExit /\ (pool_take b).2 <> WParked).
  { unfold pool_take. by destruct (j_list b). }
  assert (Hnil : j_list b = [] -> (pool_take b).2 = if j_stop b then WExit else WParked).
  { unfold pool_take. by intros ->. }
  split; cbn [y_jobs y_workers y_reader y_todo y_done]; try done.
  - lia.
  - by rewrite length_insert.
  - by rewrite Tb.
  - by rewrite Ts.
  - rewrite Ts. intros [Hin'|?]%elem_insert; [|by auto]. destruct (j_list b) eqn:El; [|by destruct Hsleep].
    rewrite Hnil in Hin' by done. by destruct (j_stop b).
  - rewrite Ts. intros Hst [Hin'|?]%elem_insert; [|by apply Hpk]. destruct (j_list b) eqn:El; [|by destruct Hsleep].
    rewrite Hnil in Hin' by done. by rewrite Hst in Hin'.
  - intros ->. specialize (Hd eq_refl). pose proof (Forall_lookup_1 _ _ _ _ Hd Hi) as E. subst w. by destruct Hw.
  - destruct Hin as (pre & E & Hp). exists pre. split; [done|]. by rewrite Tp.
  - by rewrite Tp.
  - by rewrite Tb.
  - intros Hall. destruct (j_list b) eqn:El; [unfold pool_take; by rewrite El|]. exfalso.
    destruct Hsleep as [? ?]; [done|].
    pose proof (Forall_lookup_1 _ _ _ _ Hall (list_lookup_insert_eq ws i (pool_take b).2 ltac:(by eapply lookup_lt_Some))) as [?|?]; done.
  - intros j ->. specialize (Hsp j eq_refl). unfold pool_full in *. by rewrite Tsum.
  - intros f ->. rewrite Tb. by eapply Hdr.
Qed.

Lemma pinv_finish i j b ws p todo dn :
  pinv (PSys b ws p todo dn) -> ws !! i = Some (WRun j) ->
  let b' := pool_finish b in
  pinv (PSys b' (<[i := WIdle]> ws) (let p := space_signal p in if pool_busy b' then p else drain_broadcast p) todo (dn ++ [j])).
Proof.
  intros [Hq Ha Hlim Hlen Hh He Hs Hx Hpk Hd Hin Hjobs Hord Hcl Haw Hsp Hdr] Hi b'.
  cbn [y_jobs y_workers y_reader y_todo y_done] in *. cbv zeta.
  set (p' := if pool_busy b' then _ else _).
  assert (Hheld : held p' = held p /\ held_ok p' = held_ok p /\ stopped p' = stopped p /\ (sees_empty p' = true -> sees_empty p = true) /\
    (p' = RDone -> p = RDone)).
  { subst p'. destruct p, (pool_busy b'); done. }
  destruct Hheld as (E1 & E2 & E3 & E4 & E5).
  pose proof (running_zlen ws i _ WIdle Hi) as Hz. cbn [job_of] in Hz. change (zlen [j]) with 1 in Hz. change (zlen (@nil J)) with 0 in Hz.
  destruct (running_at ws i _ Hi) as (R & H1 & H2). specialize (H2 WIdle). cbn [job_of app] in H1, H2.
  pose proof (zlen_nonneg (j_list b)). pose proof (zlen_nonneg (running (<[i:=WIdle]> ws))).
  assert (Hbusy : sees_empty p = false).
  { destruct (sees_empty p) eqn:E; [|done]. specialize (He eq_refl). rewrite busy_spec in He by lia.
    apply bool_decide_eq_false in He. lia. }
  split; cbn [y_jobs y_workers y_reader y_todo y_done]; unfold b', pool_finish; cbn [j_list j_queued j_active j_stop].
  - done.
  - lia.
  - lia.
  - by rewrite length_insert.
  - by rewrite E2.
  - intros E. rewrite E4 in Hbusy; done.
  - by rewrite E3.
  - intros [?|?]%elem_insert; [done|auto].
  - intros Hst [?|?]%elem_insert; [done|]. by apply Hpk.
  - intros E. rewrite E5 in Hbusy; done.
  - destruct Hin as (pre & E & Hp). exists pre. rewrite E1. split; [done|]. rewrite <- Hp, H1, H2. perm.
  - rewrite H1 in Hjobs. rewrite H2. by apply Forall_cons_1 in Hjobs as [_ Hjobs].
  - apply in_order_snoc; [done|]. intros Hf. rewrite H1 in Hjobs. apply Forall_cons_1 in Hjobs as [Hj _]. congruence.
  - assert (Ec : closing p' = closing p) by (subst p'; by destruct p as [|?|?|?|?|[]|[]|[]|?| | |], (pool_busy b')).
    rewrite Ec. intros Hc. destruct (Hcl Hc) as [?|[?|[Hb _]]]; [by left|by right; left|].
    rewrite busy_spec in Hb by lia. apply bool_decide_eq_false in Hb. lia.
  - intros Hall. by apply (gone_insert _ i WIdle) in Hall; [|apply list_lookup_insert_eq; by eapply lookup_lt_Some|intros [?|?]].
  - intros k. subst p'. by destruct p, (pool_busy b').
  - intros f. subst p'. destruct (pool_busy b') eqn:Eb; [done|]. by destruct p.
Qed.

(** Steps of the reader alone: it hands over or applies the frames [x]. *)
Lemma pinv_reader x p' todo' b ws p todo dn :
  pinv (PSys b ws p todo dn) -> held p ++ todo = x ++ held p' ++ todo' ->
  held_ok p' -> (sees_empty p' = true -> pool_busy b = false) -> stopped p' = stopped p ->
  (p' = RDone -> Forall (eq WExit) ws) -> in_order (dn ++ x) ->
  (forall j, p' = RSpace j -> pool_full limit b = true) -> (forall f, p' = RDrainParked f -> pool_busy b = true) ->
  (closing p' = true -> todo' = [] \/ cut = true \/ (pool_busy b = false /\ exists d f, dn ++ x = d ++ [f] /\ bye f = true)) ->
  pinv (PSys b ws p' todo' (dn ++ x)).
Proof.
  intros [Hq Ha Hlim Hlen Hh He Hs Hx Hpk Hd Hin Hjobs Hord Hcl Haw Hsp Hdr] E ? ? Est ? ? ? ? ?.
  cbn [y_jobs y_workers y_reader y_todo y_done] in *.
  split; cbn [y_jobs y_workers y_reader y_todo y_done]; try done.
  - by rewrite Est.
  - destruct Hin as (pre & Ei & Hp). exists (pre ++ x). rewrite Ei, E, !(assoc_L (++)). split; [done|]. rewrite <- Hp. perm.
Qed.

Lemma pinv_push p j b ws ws' todo dn :
  pinv (PSys b ws p todo dn) -> submitting p j -> pool_full limit b = false -> work_signal ws ws' -> (0 < started)%nat ->
  pinv (PSys (pool_push j b) ws' RRead todo dn).
Proof.
  intros [Hq Ha Hlim Hlen Hh He Hs Hx Hpk Hd Hin Hjobs Hord Hcl Haw Hsp Hdr] Hp Hroom Hsig Hst.
  cbn [y_jobs y_workers y_reader y_todo y_done] in *.
  assert (Hheld : held p = [j] /\ pooled j = true /\ stopped p = false) by (by destruct Hp; subst).
  destruct Hheld as (Eh & Ej & Es). rewrite Es in Hs. apply bool_decide_eq_false in Hroom.
  assert (Hw : running ws' = running ws /\ length ws' = length ws /\ (WExit ∈ ws' -> WExit ∈ ws) /\ ~ Forall gone ws').
  { assert (Hne : WExit ∉ ws) by (intros Hin'; apply Hx in Hin'; congruence). destruct Hsig as [ws i Hi|ws Hno].
    - split_and!; [|by rewrite length_insert|intros [?|?]%elem_insert; done|].
      + unfold running. rewrite list_fmap_insert. rewrite list_insert_id; [done|]. by rewrite list_lookup_fmap, Hi.
      + apply (gone_insert _ i WWoken); [apply list_lookup_insert_eq; by eapply lookup_lt_Some|by intros [?|?]].
    - split_and!; try done. destruct ws as [|w ws]; [simpl in Hlen; lia|]. intros [Hg _]%Forall_cons_1.
      destruct Hg; subst w; [apply Hno|apply Hne]; apply list_elem_of_here. }
  destruct Hw as (Er & El & Ex & Eg).
  split; cbn [y_jobs y_workers y_reader y_todo y_done]; unfold pool_push; cbn [j_list j_queued j_active j_stop]; try done.
  - rewrite zlen_app. change (zlen [j]) with 1. lia.
  - by rewrite Er.
  - lia.
  - by rewrite El.
  - intros Hin'%Ex. by apply Hx in Hin'.
  - congruence.
  - destruct Hin as (pre & E & Hpm). exists (pre ++ [j]). rewrite E, Eh, <- !(assoc_L (++)). split; [done|]. rewrite Er, <- Hpm. perm.
  - rewrite Er, (assoc_L (++)). apply Forall_app. split; [done|]. by constructor.
Qed.

Lemma pinv_stop b ws todo dn :
  pinv (PSys b ws RStop todo dn) ->
  pinv (PSys (Jobs (j_list b) (j_queued b) (j_active b) true) (wake_worker <$> ws) RJoin todo dn).
Proof.
  intros [Hq Ha Hlim Hlen Hh He Hs Hx Hpk Hd Hin Hjobs Hord Hcl Haw Hsp Hdr].
  cbn [y_jobs y_workers y_reader y_todo y_done] in *.
  assert (Er : running (wake_worker <$> ws) = running ws).
  { unfold running. rewrite <- list_fmap_compose. f_equal. apply list_fmap_ext. by intros k [] _. }
  destruct (not_busy b ws Hq Ha (He eq_refl)) as [El _].
  split; cbn [y_jobs y_workers y_reader y_todo y_done j_list j_queued j_active j_stop]; rewrite ?Er, ?length_fmap; try done.
  intros _ (w & Hw & _)%list_elem_of_fmap. by destruct w.
Qed.

Ltac reader_step x :=
  lazymatch goal with Hinv : pinv (PSys ?b ?ws ?p ?todo ?dn) |- pinv (PSys ?b ?ws ?p' ?todo' ?dn') =>
    pose proof (pv_order _ Hinv); pose proof (pv_held _ Hinv); pose proof (pv_close _ Hinv) as Hclose;
    cbn [y_reader y_done y_todo y_jobs held_ok] in *;
    cut (pinv (PSys b ws p' todo' (dn ++ x))); [by rewrite ?app_nil_r|];
    apply (pinv_reader x p' todo' b ws p todo dn Hinv)
  end.

Lemma pinv_step y y' : (0 < started)%nat -> pinv y -> pstep pooled bye oom cut limit y y' -> pinv y'.
Proof.
  intros Hn Hinv Hst. destruct Hst as
    [i w b ws p todo dn Hi Hw|i j b ws p todo dn Hi b'|f b ws todo dn|b ws todo dn Hend|j b ws todo dn Hoom|j b ws todo dn
    |p j b ws todo dn Hp Hf|p j b ws ws' todo dn Hp Hf Hsig|p f b ws todo dn Hp Hb|p f b ws todo dn Hp Hb
    |f stop b ws todo dn Hbye Hstop|b ws todo dn|b ws todo dn Hall].
  - by eapply pinv_take.
  - by eapply pinv_finish.
  - reader_step (@nil J). all: try by destruct (pooled f) eqn:?. by rewrite app_nil_r.
  - reader_step (@nil J). all: try done.
    + by rewrite app_nil_r.
    + rewrite app_nil_r. naive_solver.
  - reader_step (@nil J). all: try done. by rewrite app_nil_r.
  - reader_step [j]. all: try done. by apply in_order_snoc; [|intros ?; congruence].
  - reader_step (@nil J). all: try (by destruct Hp; subst). by rewrite app_nil_r.
  - by eapply pinv_push.
  - reader_step (@nil J). all: try (by destruct Hp; subst).
    + by rewrite app_nil_r.
    + intros Hc. rewrite app_nil_r. apply Hclose. by destruct Hp; subst.
  - reader_step (@nil J). all: try (by destruct Hp, f; subst).
    + by rewrite app_nil_r.
    + intros Hc. rewrite app_nil_r. apply Hclose. by destruct Hp, f; subst.
  - reader_step [f]. all: try by destruct stop.
    + apply in_order_snoc; [done|]. intros _. destruct Hinv as [Hq Ha _ _ _ He _ _ _ _ (pre & E & Hp) _ _ _ _ _ _].
      cbn [y_jobs y_workers y_reader y_todo y_done held] in *. destruct (not_busy b ws Hq Ha (He eq_refl)) as [El Er].
      exists pre, todo. split; [done|]. by rewrite <- Hp, El, Er, app_nil_r.
    + destruct stop; [|done]. intros _. right. destruct (Hstop eq_refl) as [?|?]; [right|by left].
      split; [by apply (pv_empty _ Hinv)|by eexists _, _].
  - by apply pinv_stop.
  - reader_step (@nil J). all: try done.
    + intros _. by apply (pv_empty _ Hinv).
    + by rewrite app_nil_r.
    + intros _. rewrite app_nil_r. by apply Hclose.
Qed.

Lemma pinv_init : 0 <= limit -> pinv (psys0 started input).
Proof.
  intros Hl. assert (Er : running (replicate started WIdle) = []).
  { unfold running. rewrite fmap_replicate. by induction started. }
  assert (Hne : forall w : worker J, w ∈ replicate started WIdle -> w = WIdle) by (by intros w [-> _]%elem_of_replicate).
  split; cbn [y_jobs y_workers y_reader y_todo y_done psys0 j_list j_queued j_active j_stop]; rewrite ?Er; try done.
  - by rewrite length_replicate.
  - by intros ?%Hne.
  - by exists [].
  - by intros [] ? ? ?.
Qed.

Lemma pinv_reach y : 0 <= limit -> (0 < started)%nat -> rtc (pstep pooled bye oom cut limit) (psys0 started input) y -> pinv y.
Proof.
  intros Hl Hn Hr. assert (H0 : pinv (psys0 started input)) by (by apply pinv_init).
  induction Hr as [|y1 y2 y3 Hst _ IH]; [done|]. apply IH. by eapply pinv_step.
Qed.

(** * Progress and termination *)

(** A worker that is neither asleep nor gone can act. *)
Lemma worker_step b ws p todo dn :
  ~ Forall gone ws -> exists y', pstep pooled bye oom cut limit (PSys b ws p todo dn) y'.
Proof.
  intros Hn. apply (not_Forall_Exists gone) in Hn.
  apply Exists_exists in Hn as (w & (i & Hi)%list_elem_of_In%list_elem_of_lookup_1 & Hg).
  destruct w; [eexists; by eapply ps_take; [|left]|by destruct Hg; left|eexists; by eapply ps_take; [|right]
    |eexists; by eapply ps_finish|by destruct Hg; right].
Qed.
Lemma gone_running ws : Forall gone ws -> running ws = [].
Proof. induction 1 as [|w ws [->| ->] _ IH]; [done|exact IH..]. Qed.

Lemma parked_dec ws : (exists i, ws !! i = Some WParked) \/ WParked ∉ ws.
Proof.
  induction ws as [|w ws [(i & Hi)|IH]]; [right; by intros ?%not_elem_of_nil|left; by exists (S i)|].
  destruct w; [|left; by exists 0%nat|..]; right; by intros [?|?]%elem_of_cons.
Qed.
Lemma submit_step p j b ws todo dn :
  submitting p j -> exists y', pstep pooled bye oom cut limit (PSys b ws p todo dn) y'.
Proof.
  intros Hp. destruct (pool_full limit b) eqn:E; [eexists; by eapply ps_full|].
  destruct (parked_dec ws) as [[i Hi]|Hno].
  - eexists. eapply ps_push; [done..|by apply work_hit].
  - eexists. eapply ps_push; [done..|by apply work_lost].
Qed.
Lemma drain_step p f b ws todo dn :
  draining p f -> exists y', pstep pooled bye oom cut limit (PSys b ws p todo dn) y'.
Proof. intros Hp. destruct (pool_busy b) eqn:E; eexists; [by eapply ps_busy|by eapply ps_drained]. Qed.

(** Nobody has to run out of memory or lose the channel for the pool to move. *)
Lemma pool_progress y :
  1 <= limit -> pinv y -> y_reader y = RDone \/ exists y', pstep pooled bye oom cut limit y y'.
Proof.
  intros Hlim Hinv. destruct y as [b ws p todo dn]. pose proof Hinv as [Hq Ha _ Hlen Hheld _ Hs Hx Hpk _ _ _ _ _ Haw Hsp Hdr].
  cbn [y_jobs y_workers y_reader y_todo y_done] in *.
  assert (Hbusy : 0 < j_queued b + j_active b -> exists y', pstep pooled bye oom cut limit (PSys b ws p todo dn) y').
  { intros Hb. apply worker_step. intros Hg. pose proof (gone_running _ Hg) as Er. rewrite Haw in Hq by done. rewrite Er in Ha.
    change (zlen (@nil J)) with 0 in *. lia. }
  destruct p as [|j|j|j|j|f|f|f|f| | |]; [right..|by left].
  - destruct todo; eexists; [apply ps_eof; by left|apply ps_frame].
  - eapply submit_step. by left.
  - apply Hbusy. specialize (Hsp j eq_refl). apply bool_decide_eq_true in Hsp. lia.
  - eapply submit_step. by right.
  - eexists. apply ps_self.
  - eapply drain_step. by left.
  - apply Hbusy. specialize (Hdr f eq_refl). pose proof (zlen_nonneg (j_list b)). pose proof (zlen_nonneg (running ws)).
    rewrite busy_spec in Hdr by lia. by apply bool_decide_eq_true in Hdr.
  - eapply drain_step. by right.
  - eexists. apply (ps_inline _ _ _ _ _ f (bye f)); [done|by left].
  - eexists. apply ps_stop.
  - destruct (decide (Forall gone ws)) as [Hg|Hg]; [|by apply worker_step].
    eexists. apply ps_join. apply Forall_lookup. intros i w Hi. destruct (Forall_lookup_1 _ _ _ _ Hg Hi) as [->|E]; [|done].
    destruct Hpk; [done|]. by eapply list_elem_of_lookup_2.
Qed.

(** Work left, in steps. *)
Definition worker_work (w : worker J) : nat :=
  match w with WIdle | WWoken => 1 | WRun _ => 3 | WParked | WExit => 0 end.
Definition reader_work p : nat :=
  match p with
  | RRead => started + 5 | RSubmit _ | RSpaceWoken _ => started + 10 | RSpace _ => started + 9
  | RSelf _ | RInline _ => started + 6
  | RDrain (Some _) | RDrainWoken (Some _) => started + 8 | RDrainParked (Some _) => started + 7
  | RDrain None | RDrainWoken None => started + 4 | RDrainParked None => started + 3
  | RStop => started + 2 | RJoin => 1 | RDone => 0
  end.
Definition pool_work y : nat :=
  6 * length (y_todo y) + reader_work (y_reader y) + 3 * length (j_list (y_jobs y)) + sum_list_with worker_work (y_workers y).

Lemma work_at ws i w w' :
  ws !! i = Some w ->
  (sum_list_with worker_work (<[i := w']> ws) + worker_work w = sum_list_with worker_work ws + worker_work w')%nat.
Proof. revert i. induction ws as [|x ws IH]; intros [|i] Hi; simplify_eq/=; [lia|]. specialize (IH i Hi). lia. Qed.
Lemma work_broadcast ws : (sum_list_with worker_work (wake_worker <$> ws) <= sum_list_with worker_work ws + length ws)%nat.
Proof.
  induction ws as [|w ws IH]; [done|]. rewrite fmap_cons. cbn [sum_list_with length].
  assert (worker_work (wake_worker w) <= worker_work w + 1)%nat by (destruct w; simpl; lia). lia.
Qed.
Lemma work_replicate n w : sum_list_with worker_work (replicate n w) = (n * worker_work w)%nat.
Proof. induction n as [|n IH]; simpl; lia. Qed.

Lemma pool_work_step y y' : length (y_workers y) = started -> pstep pooled bye oom cut limit y y' -> (pool_work y' < pool_work y)%nat.
Proof.
  intros Hlen Hst. unfold pool_work. destruct Hst; cbn [y_jobs y_workers y_reader y_todo] in *.
  - pose proof (work_at ws i w (pool_take b).2 H). unfold pool_take in *.
    destruct (j_list b) eqn:El; cbn [fst snd j_list] in *; rewrite ?El; cbn [length worker_work] in *;
      destruct H0; subst; cbn [worker_work] in *; repeat case_match; cbn [worker_work] in *; lia.
  - pose proof (work_at ws i _ WIdle H). subst b'. cbn [worker_work pool_finish j_list] in *.
    assert (reader_work (let p := space_signal p in if pool_busy (pool_finish b) then p else drain_broadcast p) <= reader_work p + 1)%nat; [|cbv zeta in *; lia].
    destruct p as [|?|?|?|?|[]|[]|[]|?| | |], (pool_busy _); simpl; lia.
  - destruct (pooled f); cbn [reader_work length]; lia.
  - cbn [reader_work]. lia.
  - cbn [reader_work]. lia.
  - cbn [reader_work]. lia.
  - destruct H; subst; cbn [reader_work]; lia.
  - cbn [pool_push j_list reader_work]. rewrite length_app. cbn [length].
    assert (sum_list_with worker_work ws' <= sum_list_with worker_work ws + 1)%nat.
    { destruct H1 as [ws i Hi|]; [|lia]. pose proof (work_at ws i _ WWoken Hi). cbn [worker_work] in *. lia. }
    destruct H; subst; cbn [reader_work]; lia.
  - destruct H; subst; destruct f; cbn [reader_work]; lia.
  - destruct H; subst; destruct f; cbn [reader_work]; lia.
  - destruct stop; cbn [reader_work]; lia.
  - pose proof (work_broadcast ws). cbn [reader_work j_list]. lia.
  - cbn [reader_work]. lia.
Qed.

Lemma pool_work_run k y :
  (0 < started)%nat -> 0 <= limit -> nsteps (pstep pooled bye oom cut limit) k (psys0 started input) y ->
  (k + pool_work y <= pool_work (psys0 started input))%nat.
Proof.
  intros Hn Hl. revert y. induction k as [|k IH]; intros y Hr; [inversion Hr; lia|].
  apply nsteps_inv_r in Hr as (z & Hz & Hst). specialize (IH z Hz).
  assert (Hinv : pinv z) by (by eapply pinv_reach, rtc_nsteps_2).
  pose proof (pool_work_step z y (pv_len _ Hinv) Hst). lia.
Qed.
End pool.

(** C30.  Barriers hold. Whatever the workers do, at most [limit] jobs are queued
    or running; a frame that is not pooled (OPEN, COMMIT, BARRIER, LINK and so
    on) is handled when every frame received before it has been applied and
    nothing else is running; and in the log of finished frames every such
    frame comes after exactly the frames received before it. *)
Theorem pool_barrier {J} (pooled bye : J -> bool) oom cut limit started input (y : psys J) :
  1 <= limit -> (0 < started)%nat -> rtc (pstep pooled bye oom cut limit) (psys0 started input) y ->
  zlen (j_list (y_jobs y)) + zlen (running (y_workers y)) <= limit /\
  (forall f, y_reader y = RInline f ->
     exists pre, input = pre ++ f :: y_todo y /\ y_done y ≡ₚ pre /\ running (y_workers y) = [] /\ j_list (y_jobs y) = []) /\
  in_order pooled input (y_done y).
Proof.
  intros Hlim Hn Hr. assert (Hl : 0 <= limit) by lia.
  pose proof (pinv_reach pooled bye oom cut limit started input y Hl Hn Hr) as [Hq Ha Hb _ _ He _ _ _ _ (pre & E & Hp) _ Hord _ _ _].
  split_and!; [lia| |done]. intros f Hf. rewrite Hf in *. destruct (not_busy _ _ Hq Ha (He eq_refl)) as [El Er].
  exists pre. split_and!; [done| |done|done]. by rewrite <- Hp, El, Er, app_nil_r.
Qed.

(** C32.  The pool always finishes: no run has more steps than six per frame, two
    per worker and five, and a run that cannot go on has ended: the workers
    have been joined, none is left, and the frames received are exactly the
    ones applied, each once. If the channel never broke, these are all frames,
    or the last one applied is BYE. *)
Theorem pool_finishes {J} (pooled bye : J -> bool) oom cut limit started input k (y : psys J) :
  1 <= limit -> (0 < started)%nat -> nsteps (pstep pooled bye oom cut limit) k (psys0 started input) y ->
  (k <= 6 * length input + 2 * started + 5)%nat /\
  ((exists y', pstep pooled bye oom cut limit y y') \/
   (y_reader y = RDone /\ Forall (eq WExit) (y_workers y) /\
    (exists pre, input = pre ++ y_todo y /\ y_done y ≡ₚ pre) /\
    (cut = false -> y_done y ≡ₚ input \/ exists dn f, y_done y = dn ++ [f] /\ bye f = true))).
Proof.
  intros Hlim Hn Hr. assert (Hl : 0 <= limit) by lia. split.
  - pose proof (pool_work_run pooled bye oom cut limit started input k y Hn Hl Hr) as Hk. unfold psys0 in Hk. unfold pool_work at 2 in Hk.
    cbn [y_jobs y_workers y_reader y_todo j_list length reader_work] in Hk. rewrite work_replicate in Hk. cbn [worker_work] in Hk. lia.
  - assert (Hinv : pinv pooled bye cut limit started input y) by (by eapply pinv_reach, rtc_nsteps_2).
    destruct (pool_progress pooled bye oom cut limit started input y Hlim Hinv) as [Hd|?]; [right|by left].
    destruct Hinv as [Hq Ha _ _ _ He _ _ _ Hex (pre & E & Hp) _ _ Hcl _ _ _]. rewrite Hd in *.
    destruct (not_busy _ _ Hq Ha (He eq_refl)) as [El Er]. rewrite El, Er, !app_nil_r in Hp. cbn [held app] in E.
    split_and!; [done|by apply Hex|by exists pre|]. intros Hcut.
    destruct (Hcl eq_refl) as [Ht|[?|[_ ?]]]; [left|congruence|by right]. by rewrite E, Ht, app_nil_r.
Qed.

(** Two threads, frames 0 to 9 of which 5 is a barrier and 9 is BYE: the
    reader submits the first frame, a worker runs it and finishes. *)
Definition demo_pooled (n : nat) : bool := negb (bool_decide (n = 5%nat)) && negb (bool_decide (n = 9%nat)).
Definition demo_input : list nat := seq 0 10.
Abbreviation demo_step := (pstep demo_pooled (fun n => bool_decide (n = 9%nat)) false false 8).

Lemma demo_run : exists y, nsteps demo_step 5 (psys0 2 demo_input) y /\ y_done y = [0%nat] /\ y_reader y = RSubmit 1%nat.
Proof.
  eexists. split.
  - eapply nsteps_l; [apply ps_frame|]. eapply nsteps_l.
    { eapply (ps_push _ _ _ _ _ _ 0%nat); [by left|by vm_compute|apply work_lost]. by intros [? _]%elem_of_replicate. }
    eapply nsteps_l; [eapply (ps_take _ _ _ _ _ 0%nat); [done|by left]|].
    eapply nsteps_l; [apply ps_frame|].
    eapply nsteps_l; [eapply (ps_finish _ _ _ _ _ 0%nat); done|apply nsteps_O].
  - by vm_compute.
Qed.

Lemma pool_barrier_witness : exists y : psys nat, y_done y = [0%nat] /\ in_order demo_pooled demo_input (y_done y).
Proof.
  destruct demo_run as (y & Hr & Hd & _). exists y. split; [done|].
  apply (pool_barrier demo_pooled (fun n => bool_decide (n = 9%nat)) false false 8 2 demo_input y); [lia|lia|].
  by eapply rtc_nsteps_2.
Defined.

Lemma pool_finishes_witness : exists y : psys nat, y_reader y = RSubmit 1%nat /\ exists y', demo_step y y'.
Proof.
  destruct demo_run as (y & Hr & _ & Hd). exists y. split; [done|].
  destruct (pool_finishes demo_pooled (fun n => bool_decide (n = 9%nat)) false false 8 2 demo_input 5 y) as [_ [?|(E & _)]];
    [lia|lia|done|done|congruence].
Defined.
