(* ===== verification/MetaOk.v ===== *)
(** What applying a file's metadata on the server does to it, for the handlers
    that publish files: COMMIT and PUTFILE. *)

From S2P Require Export ServerOps.
From stdpp Require Import list.
#[local] Open Scope Z_scope.

(** * The monitor

    [mg_ok]: no call has failed hard; [mg_mode]: the permission bits;
    [mg_done]: the last ownership that was set or refused for want of
    privilege, the last times set, and whether the test hook that skips
    ownership was found. *)
Record mdone := MD { md_owner : option (Z * Z); md_times : option (timespec * timespec); md_hook : bool }.
Record mghost := MG { mg_ok : bool; mg_mode : option Z; mg_done : mdone }.
Definition nothing_done : mdone := MD None None false.

(** Ownership and times of [m] have been applied as far as the server may:
    nothing to change, the hook, or an fchown with exactly the wanted ids. *)
Definition owned (cfg : config) (uid gid : Z) (d : mdone) : Prop :=
  md_hook d = true \/ want_ids cfg uid gid = (ID_NONE, ID_NONE) \/ md_owner d = Some (want_ids cfg uid gid).
Definition applied (cfg : config) (m : meta) (d : mdone) : Prop :=
  owned cfg (mt_uid m) (mt_gid m) d /\
  (g_preserve_times cfg = true -> md_times d = Some (mt_at m, mt_mt m)).

Lemma want_ids_own cfg uid gid : uid = g_euid cfg -> gid = g_egid cfg -> want_ids cfg uid gid = (ID_NONE, ID_NONE).
Proof.
  intros -> ->. unfold want_ids, chown_uid_doomed, chown_gid_settable. rewrite bool_decide_eq_false_2 by naive_solver.
  rewrite (bool_decide_eq_true_2 (g_egid cfg = g_egid cfg)), orb_true_r by done. simpl. by rewrite !decide_True.
Qed.

(** The table of open files, the configuration and the error log. *)
Definition same_server (s s' : server) : Prop := g_files s' = g_files s /\ s_cfg s' = s_cfg s /\ s_err s' = s_err s.
#[export] Instance same_server_preorder : PreOrder same_server.
Proof. split; [by intros s|]. intros a b c (? & ? & ?) (? & ? & ?). split_and!; congruence. Qed.

Section meta.
Context (fd : Z).

Definition meta_pre (g : mghost) R (e : posix R) : Prop :=
  match e with
  | fchown d _ _ | fchmod d _ | futimens d _ _ => d = fd
  | getenv _ | clock_gettime | eprintf _ => True
  | _ => False
  end.
(** Errors are positive numbers. *)
Definition positive_err {A} (r : res A) : Prop := match r with Ok _ => True | Err e => 0 < e end.
Definition meta_adm (g : mghost) R (e : posix R) : R -> Prop :=
  match e in posix R return R -> Prop with
  | fchown _ _ _ | fchmod _ _ | futimens _ _ _ => positive_err
  | _ => fun _ => True
  end.
Definition meta_upd (g : mghost) R (e : posix R) : R -> mghost :=
  let '(MG ok mode (MD owner times hook)) := g in
  match e in posix R return R -> mghost with
  | fchown _ u v => fun r =>
      match r with
      | Ok _ => MG ok (strip mode) (MD (Some (u, v)) times hook)
      | Err e => MG (ok && chown_permission_errno e) mode (MD (if chown_permission_errno e then Some (u, v) else owner) times hook)
      end
  | fchmod _ m => fun r => match r with Ok _ => MG ok (Some (m &. o07777)) (MD owner times hook) | Err _ => MG false mode (MD owner times hook) end
  | futimens _ a m => fun r => MG (ok && is_ok r) mode (MD owner (if is_ok r then Some (a, m) else times) hook)
  | getenv name => fun r => MG ok mode (MD owner times (hook || bool_decide (name = FORCE_EPERM_ENV /\ r <> None)))
  | _ => fun _ => g
  end.
Definition metadata : monitor posix := Monitor mghost meta_pre meta_adm meta_upd False.
Abbreviation MM := metadata.

(** What has failed first, as against the ghost state. *)
Definition tracks (first : first_failure) (g : mghost) : Prop :=
  (first = None <-> mg_ok g = true) /\ forall e op, first = Some (e, op) -> 0 < e.

Lemma warn_chown_ok s (g : mstate MM) : wpM MM warn_chown s g (fun g' _ s' => g' = g /\ same_server s s').
Proof.
  unfold warn_chown. wp_step. wp_step. wp_step. wp_step. apply wpM_when; intros _; [|done]. wp_call r Hr. by destruct g as [? ? []].
Qed.
Lemma apply_owner_server_ok uid gid s (g : mstate MM) :
  mg_ok g = true ->
  wpM MM (apply_owner fd uid gid) s g (fun g' first s' =>
    same_server s s' /\ tracks first g' /\ (mg_mode g' = mg_mode g \/ mg_mode g' = strip (mg_mode g)) /\
    (mg_ok g' = true -> owned (s_cfg s) uid gid (mg_done g'))).
Proof.
  destruct g as [ok mode [owner times hook]]. cbn [mg_ok]. intros ->. unfold apply_owner. wp_step. wp_step. wp_call f Hf.
  cbn [mupd MM metadata meta_upd]. rewrite (bool_decide_ext (FORCE_EPERM_ENV = FORCE_EPERM_ENV /\ f <> None) (f <> None)) by naive_solver.
  destruct (_ || _ || _) eqn:Hneed.
  2:{ wp_step. split_and!; [done|by split|by left|]. intros _. right. left. apply orb_false_iff in Hneed as [[_ Hu]%orb_false_iff Hg].
      apply bool_decide_eq_false, dec_stable in Hu, Hg. by apply want_ids_own. }
  clear Hneed. wp_step.
  apply (wpM_mono MM _ _ _ (fun (g' : mghost) r s' => s' = s /\ (mg_mode g' = mode \/ mg_mode g' = strip mode) /\
    (r.1 = 0 /\ mg_ok g' = true \/ 0 < r.1 /\ mg_ok g' = chown_permission_errno r.1) /\
    (mg_ok g' = true -> owned (s_cfg s) uid gid (mg_done g')))).
  { destruct (bool_decide (f <> None)).
    { wp_step. split_and!; [done|by left|by left|]. intros _. left. by rewrite orb_true_r. }
    unfold owned. destruct (want_ids _ uid gid) as [wu wg] eqn:Hw. wp_step. case_decide as Hd.
    - wp_call r Hr. wp_step. wp_step. split; [done|]. destruct r as [[]|e]; cbn [mupd MM metadata meta_upd mg_ok mg_mode mg_done md_owner fst].
      + split_and!; [by right|by left|]. intros _. by right; right.
      + split_and!; [by left|by right|]. simpl. intros ->. by right; right.
    - wp_step. wp_step. split_and!; [done|by left|by left|]. intros _. right. left. f_equal; by apply dec_stable; intros ?; apply Hd; auto. }
  intros g1 [e unp] s1 (-> & Hmode & He & How). cbn [fst] in He.
  destruct (negb (bool_decide (e = 0)) && negb (chown_permission_errno e)) eqn:Hhard.
  - apply andb_true_iff in Hhard as [H1 H2]. apply negb_true_iff in H1, H2. apply bool_decide_eq_false in H1.
    wp_step. destruct He as [[? _]|[Hpos Hme]]; [done|]. split_and!; [done| |done|done]. split; [split; [done|congruence]|by intros ? ? [= <- _]].
  - assert (Hme : mg_ok g1 = true).
    { destruct He as [[_ ?]|[Hpos ->]]; [done|]. rewrite bool_decide_eq_false_2 in Hhard by lia. cbn in Hhard. by apply negb_false_iff in Hhard. }
    wp_step. apply (wpM_mono MM _ _ _ (fun (g' : mghost) (_ : unit) s' => g' = g1 /\ same_server s s')).
    { apply wpM_when; intros _; [apply warn_chown_ok|done]. }
    intros g2 [] s2 [-> Hs]. wp_step. by split_and!.
Qed.

(** One more call that may fail. *)
Lemma note_tracks first (r : res unit) op g g' :
  tracks first g -> positive_err r -> mg_ok g' = mg_ok g && is_ok r -> tracks (note_failure first r op) g'.
Proof.
  intros [H1 H2] Hr Hg. unfold tracks. rewrite Hg. destruct r as [[]|e]; cbn; rewrite ?andb_true_r, ?andb_false_r; [done|].
  destruct first as [[e0 o0]|]; cbn; (split; [done|]); [done|by intros ? ? [= <- _]].
Qed.

Lemma apply_meta_ok m set s (g : mstate MM) :
  mg_ok g = true ->
  wpM MM (apply_meta fd m set) s g (fun g' r s' =>
    same_server s s' /\ r.1 <= 0 /\ (r.1 = 0 <-> mg_ok g' = true) /\
    (mg_ok g' = true -> applied (s_cfg s) m (mg_done g') /\
      if set then mg_mode g' = mg_mode g \/ mg_mode g' = strip (mg_mode g) else mg_mode g' = Some (mt_mode m &. o07777))).
Proof.
  intros Hm. unfold apply_meta. wp_step. eapply wpM_mono; [by apply apply_owner_server_ok|]. cbn beta. intros g1 first s1 (Hs & Ht & Hmode & How).
  wp_step. apply (wpM_mono MM _ _ _ (fun (g' : mghost) f s' => s' = s1 /\ tracks f g' /\
    (mg_ok g' = true -> owned (s_cfg s) (mt_uid m) (mt_gid m) (mg_done g') /\
      if set then mg_mode g' = mg_mode g \/ mg_mode g' = strip (mg_mode g) else mg_mode g' = Some (mt_mode m &. o07777)))).
  { destruct set; [wp_step; by split_and!; [| |split; [apply How|]]|]. destruct g1 as [ok mode [owner times hook]]. wp_call r Hr. wp_step. split; [done|]. split.
    - eapply note_tracks; [exact Ht|exact Hr|]. destruct r as [[]|e]; cbn; [by rewrite andb_true_r|by rewrite andb_false_r].
    - destruct r as [[]|e]; cbn; [|done]. rewrite <- Z.land_assoc. intros Ho. split; [by apply How|done]. }
  intros g2 f2 s2 (-> & Ht2 & Hm2). wp_step. wp_step. wp_step.
  assert (Hcfg : s_cfg s1 = s_cfg s) by apply Hs. rewrite Hcfg.
  apply (wpM_mono MM _ _ _ (fun (g' : mghost) f s' => s' = s1 /\ tracks f g' /\ mg_mode g' = mg_mode g2 /\
    (mg_ok g' = true -> mg_ok g2 = true /\ applied (s_cfg s) m (mg_done g')))).
  { destruct (g_preserve_times _) eqn:Hp; [|wp_step; split_and!; [done|done|done|]].
    - destruct g2 as [ok mode [owner times hook]]. wp_call r Hr. wp_step. split_and!; [done|by eapply note_tracks|done|]. cbn.
      intros [-> Hr']%andb_true_iff. rewrite Hr'. split; [done|]. by split; [apply Hm2|].
    - intros Ho. split; [done|]. split; [by apply Hm2|congruence]. }
  intros g3 f3 s3 (-> & [Ht3 Hp3] & Hm3 & Ho3). wp_step. split; [done|].
  assert (Hend : mg_ok g3 = true -> applied (s_cfg s) m (mg_done g3) /\
      if set then mg_mode g3 = mg_mode g \/ mg_mode g3 = strip (mg_mode g) else mg_mode g3 = Some (mt_mode m &. o07777)).
  { intros H. destruct (Ho3 H) as [H2 Ha]. split; [done|]. rewrite Hm3. by apply Hm2. }
  destruct f3 as [[e op]|]; cbn [fst].
  - specialize (Hp3 e op eq_refl). split_and!; [lia| |done]. split; [lia|]. intros H. by apply Ht3 in H.
  - split_and!; [lia|by split; [intros _; apply Ht3|]|done].
Qed.
End meta.
