(* ===== verification/Confine.v ===== *)
(** Confinement and descriptor ownership of the server, stated with a ghost
    automaton.

    The ghost state maps every open descriptor to the path it was opened with.
    [confine rs] permits a path call only on a path that stays below the root
    [rs], an *at call only through an open handle of such a directory and with
    a single proper name, and a descriptor call only on an open descriptor. The
    only thing assumed of the kernel is that it hands out descriptors that are
    not in use and that the root directory is not taken away (mkdir of the root
    does not answer ENOENT). *)

From S2P Require Export ServerMain.

Abbreviation fdmap := (gmap Z bytes).

(** A name that stays in its directory. *)
Definition plain_name (n : bytes) : Prop := (SLASH ∉ n) /\ n <> [] /\ n <> DOTDOT.

(** The path of entry [n] of directory [p]. *)
Definition join (p n : bytes) : bytes := (if decide (p = [SLASH]) then [] else p) ++ SLASH :: n.

Section confine.
Context (rs : list bytes).

(** A lexically confined path; the empty path designates nothing. *)
Definition confined (p : bytes) : Prop :=
  p = [] \/
  (head p = Some SLASH /\ (DOTDOT ∉ tokens p) /\ rs `prefix_of` norm_comps (tokens p)).

(** A canonical path below (or equal to) the root. *)
Definition below (p : bytes) : Prop :=
  exists ks, p = render ks /\ Forall proper ks /\ rs `prefix_of` ks /\ zlen p < PATH_MAX.

Definition at_ok (g : fdmap) (dfd : Z) (n : bytes) : Prop :=
  plain_name n /\ exists p, g !! dfd = Some p /\ below p.

Definition path_or_at (g : fdmap) (dfd : Z) (n : bytes) : Prop :=
  (dfd = AT_FDCWD /\ confined n) \/ at_ok g dfd n.

Definition opened (g : fdmap) (fd : Z) : Prop := is_Some (g !! fd).

Definition confine_pre (g : fdmap) R (e : posix R) : Prop :=
  match e with
  | open p _ _ | mkdir p _ | unlink p | lstat p => confined p
  | rename p q => confined p /\ confined q
  | openat d n _ _ | unlinkat d n _ | symlinkat _ d n | fchownat d n _ _ _ | utimensat d n _ _ _ => at_ok g d n
  | renameat d n d' n' => at_ok g d n /\ at_ok g d' n'
  | fstatat d n _ => path_or_at g d n
  | linkat d n d' n' _ => path_or_at g d n /\ at_ok g d' n'
  | write fd _ => fd = STDOUT_FILENO \/ opened g fd
  | read fd _ => fd = STDIN_FILENO \/ opened g fd
  | close fd | pwrite fd _ _ | pread fd _ _ | fsync fd | ftruncate fd _ | fallocate fd _ _ _
  | posix_fadvise fd _ _ _ | fcntl_getfl fd | fcntl_setfl fd _ | fchown fd _ _ | fchmod fd _
  | futimens fd _ _ | fstat fd => opened g fd
  | _ => True
  end.

Definition confine_adm (g : fdmap) R (e : posix R) : R -> Prop :=
  match e in posix R return R -> Prop with
  | open _ _ _ | openat _ _ _ _ => fun r => match r with Ok fd => 0 <= fd /\ g !! fd = None | Err _ => True end
  | mkdir p _ => fun r => p = render rs -> r <> Err ENOENT
  | _ => fun _ => True
  end.

Definition confine_upd (g : fdmap) R (e : posix R) : R -> fdmap :=
  match e in posix R return R -> fdmap with
  | open p _ _ => fun r => match r with Ok fd => <[fd := p]> g | Err _ => g end
  | openat d n _ _ => fun r =>
      match r with Ok fd => <[fd := join (default [] (g !! d)) n]> g | Err _ => g end
  | close fd => fun _ => delete fd g
  | _ => fun _ => g
  end.

Definition confine : monitor posix := Monitor fdmap confine_pre confine_adm confine_upd True.

(** * Paths *)

Lemma below_confined p : below p -> confined p.
Proof.
  intros (ks & -> & Hp & Hr & _). right. split; [apply render_head|].
  rewrite tokens_render by (by apply Forall_proper_good).
  rewrite norm_comps_id by done. split; [|done].
  intros Hin. apply (proj1 (list.Forall_forall _ _) Hp) in Hin. by destruct Hin as (_ & _ & ?).
Qed.

Lemma confined_nil : confined [].
Proof. by left. Qed.

(** The parent of a path strictly below the root. *)
Lemma below_parent p :
  below p -> p <> render rs ->
  exists ks c, p = render (ks ++ [c]) /\ Forall proper ks /\ proper c /\ below (render ks) /\
    split_dir_base p PATH_MAX PATH_MAX = (render ks, c).
Proof.
  intros (ks & -> & Hp & Hr & Hl) Hne.
  destruct ks as [|c ks _] using rev_ind; [apply prefix_nil_inv in Hr; by rewrite Hr in Hne|].
  apply Forall_app in Hp as [Hks Hc]. inversion_clear Hc as [|? ? Hc' _].
  pose proof (zlen_render_snoc ks c (proj1 Hc')) as Hlen. pose proof (zlen_nonneg c).
  exists ks, c. split_and!; [done|done|done| |].
  - exists ks. split_and!; [done|done| |lia].
    destruct Hr as [ls Hls]. destruct ls as [|l ls _] using rev_ind.
    + rewrite app_nil_r in Hls. by rewrite Hls in Hne.
    + rewrite (assoc_L (++)) in Hls. apply app_inj_tail in Hls as [-> _]. by exists ls.
  - apply split_dir_base_render; [by apply Forall_proper_good|by destruct Hc'|lia|].
    pose proof (zlen_nonneg (render ks)). lia.
Qed.

Lemma proper_plain c : proper c -> plain_name c.
Proof. by intros ([? ?] & ? & ?). Qed.

Lemma join_render ks c : Forall proper ks -> join (render ks) c = render (ks ++ [c]).
Proof.
  intros Hp. unfold join. rewrite render_snoc. case_decide as Hd.
  - apply render_root in Hd; [by subst|by apply Forall_proper_good].
  - by rewrite render_cons by (by intros ->).
Qed.

(** * The directory cache *)

Lemma existing_path_confined path dc g :
  confined path -> wpM confine (existing_path_is_dir path) dc g (fun g' _ _ => g' = g).
Proof.
  intros Hc. unfold existing_path_is_dir. wp_call r Hr.
  by destruct r as [st|]; [destruct (S_ISDIR _)|]; wp_step.
Qed.

(** Every directory it creates or looks at is below the root. *)
Lemma ensure_dir_confined fuel dir mode dc g :
  below dir -> wpM confine (ensure_dir_rec fuel dir mode) dc g (fun g' _ _ => g' = g).
Proof.
  revert dir mode dc g. induction fuel as [|fuel IH]; intros dir mode dc g Hb; [done|].
  pose proof (below_confined dir Hb) as Hconf. simpl. wp_step. wp_step.
  destruct (decide (dir = g_last_dir dc)); [by wp_step|].
  destruct (dir_cache_find_locked dc dir (dir_bucket dir)) as [en|].
  { destruct (dc_state en); [done|by repeat wp_step_pure|by wp_step]. }
  wp_call ok Hok. destruct ok; simpl; [|by wp_step].
  wp_step. wp_step. wp_call r Hr. wp_step.
  apply (wpM_mono confine _ _ _ (fun g' _ _ => g' = g)); cycle 1.
  { by intros g' [[]|e] dc' ->; repeat wp_step_pure. }
  destruct r as [[]|e]; [by repeat wp_step_pure|].
  destruct (decide (e = EEXIST)); [by apply existing_path_confined|].
  destruct (decide (e = ENOENT)) as [->|]; [|by wp_step].
  destruct (below_parent dir Hb) as (ks & c & -> & _ & Hc & Hbp & Hsplit).
  { intros ->. by apply Hr. }
  rewrite Hsplit. simpl. case_decide; [by wp_step|]. wp_step.
  eapply wpM_mono; [by apply IH|]. simpl. intros g' [[]|e] dc' ->; [|by wp_step].
  wp_call r Hr2. destruct r as [[]|e]; [by repeat wp_step_pure|].
  case_decide; [by apply existing_path_confined|by wp_step].
Qed.

(** * The handle cache owns its descriptors *)

(** [g] is the descriptors [X] of the rest of the server together with those
    of the cache, and every cached descriptor was opened with the path it is
    filed under. *)
Record dfd_ok (c : dfdcache) (g X : fdmap) : Prop := DfdOk {
  do_sub : X ⊆ g;
  do_heap : forall a en, dfd_heap c !! a = Some en ->
    g !! de_fd en = Some (de_path en) /\ X !! de_fd en = None /\ below (de_path en);
  do_inj : forall a b ea eb, dfd_heap c !! a = Some ea -> dfd_heap c !! b = Some eb ->
    de_fd ea = de_fd eb -> a = b;
  do_all : forall fd, opened g fd -> opened X fd \/ exists a en, dfd_heap c !! a = Some en /\ de_fd en = fd;
  do_brk : forall a, is_Some (dfd_heap c !! a) -> (a < dfd_brk c)%nat
}.

(** Only heap and break matter. *)
Lemma dfd_ok_ext c c' g X :
  dfd_heap c' = dfd_heap c -> dfd_brk c' = dfd_brk c -> dfd_ok c g X -> dfd_ok c' g X.
Proof. intros Hh Hb []. split; rewrite ?Hh, ?Hb; done. Qed.

(** Changing the reference count of an entry. *)
Lemma dfd_ok_refcount c g X a en n :
  dfd_heap c !! a = Some en -> dfd_ok c g X -> dfd_ok (set_entry a (set_de_refcount n en) c) g X.
Proof.
  intros Ha [Hs Hh Hi Hall Hb].
  assert (Hl : forall b eb, dfd_heap (set_entry a (set_de_refcount n en) c) !! b = Some eb ->
    exists e0, dfd_heap c !! b = Some e0 /\ de_fd e0 = de_fd eb /\ de_path e0 = de_path eb).
  { intros b eb. simpl. rewrite lookup_insert. case_decide; [|by eauto].
    intros [= <-]. subst. by exists en. }
  split; [done| | | |].
  - intros b eb Hb'. destruct (Hl b eb Hb') as (e0 & He0 & <- & <-). by apply (Hh b).
  - intros b b' eb eb' H1 H2. destruct (Hl _ _ H1) as (e1 & ? & <- & _).
    destruct (Hl _ _ H2) as (e2 & ? & <- & _). by apply Hi.
  - intros fd Hfd. destruct (Hall fd Hfd) as [?|(b & eb & Hb' & <-)]; [by left|right].
    simpl. destruct (decide (a = b)) as [->|Hne].
    + exists b, (set_de_refcount n en). rewrite lookup_insert_eq. split; [done|]. by simplify_eq.
    + exists b, eb. by rewrite lookup_insert_ne.
  - intros b Hb'. simpl in *. rewrite lookup_insert in Hb'. case_decide; [subst|]; apply Hb; eauto.
Qed.

(** A descriptor opened and owned by the rest of the server. *)
Lemma dfd_ok_open c g X fd p :
  g !! fd = None -> dfd_ok c g X -> dfd_ok c (<[fd := p]> g) (<[fd := p]> X).
Proof.
  intros Hn [Hs Hh Hi Hall Hb]. split; [by apply insert_mono| |done| |done].
  - intros a en Ha. destruct (Hh a en Ha) as (H1 & H2 & H3).
    assert (fd <> de_fd en) by (intros ->; congruence).
    by rewrite !lookup_insert_ne by done.
  - intros fd' [q Hq]. rewrite lookup_insert in Hq. case_decide as Hd.
    + left. subst. exists p. by rewrite lookup_insert_eq.
    + destruct (Hall fd') as [[r Hr]|?]; [by eexists| |by right].
      left. exists r. by rewrite lookup_insert_ne.
Qed.

Lemma dfd_ok_close c g X fd :
  opened X fd -> dfd_ok c g X -> dfd_ok c (delete fd g) (delete fd X).
Proof.
  intros [p Hp] [Hs Hh Hi Hall Hb]. split; [by apply delete_mono| |done| |done].
  - intros a en Ha. destruct (Hh a en Ha) as (H1 & H2 & H3).
    assert (fd <> de_fd en) by (intros ->; congruence).
    by rewrite !lookup_delete_ne by done.
  - intros fd' [q Hq]. rewrite lookup_delete in Hq. case_decide; [done|].
    destruct (Hall fd') as [[r Hr]|?]; [by eexists| |by right].
    left. exists r. by rewrite lookup_delete_ne.
Qed.

(** An entry leaves the cache and its descriptor is closed. *)
Lemma dfd_ok_drop c g X a en :
  dfd_heap c !! a = Some en -> dfd_ok c g X ->
  dfd_ok (dfd_drop a en c) (delete (de_fd en) g) X.
Proof.
  intros Ha [Hs Hh Hi Hall Hb]. destruct (Hh a en Ha) as (Hg & HX & _).
  split; simpl.
  - apply map_subseteq_spec. intros fd p Hp. rewrite lookup_delete_ne by (intros <-; congruence).
    by eapply lookup_weaken.
  - intros b eb Hb'. rewrite lookup_delete in Hb'. case_decide; [done|].
    destruct (Hh b eb Hb') as (? & ? & ?). rewrite lookup_delete_ne; [done|].
    intros Heq. by apply (Hi a b en eb) in Heq.
  - intros b b' eb eb'. rewrite !lookup_delete. repeat case_decide; try done. apply Hi.
  - intros fd [q Hq]. rewrite lookup_delete in Hq. case_decide; [done|].
    destruct (Hall fd) as [?|(b & eb & Hb' & <-)]; [by eexists|by left|right].
    exists b, eb. rewrite lookup_delete_ne; [done|]. intros ->. by simplify_eq.
  - intros b. rewrite lookup_delete. case_decide; [by intros []|]. apply Hb.
Qed.

(** A fresh entry takes over an open descriptor. *)
Lemma dfd_ok_insert c g X fd hash dir :
  g !! fd = None -> below dir -> dfd_ok c g X ->
  dfd_ok (dfd_insert fd hash dir c).2 (<[fd := dir]> g) X.
Proof.
  intros Hn Hb [Hs Hh Hi Hall Hbrk].
  assert (Hf : dfd_heap c !! dfd_brk c = None).
  { destruct (dfd_heap c !! dfd_brk c) eqn:He; [|done].
    specialize (Hbrk (dfd_brk c) ltac:(eauto)). lia. }
  assert (HX : X !! fd = None) by (by eapply lookup_weaken_None).
  split; simpl.
  - by apply insert_subseteq_r.
  - intros a en. rewrite lookup_insert. case_decide.
    + intros [= <-]. simpl. by rewrite lookup_insert_eq.
    + intros Ha. destruct (Hh a en Ha) as (H1 & H2 & H3).
      rewrite lookup_insert_ne by (intros ->; congruence). done.
  - intros a b ea eb. rewrite !lookup_insert. repeat case_decide; [congruence| | |apply Hi].
    + intros [= <-] He Heq. simpl in Heq. destruct (Hh _ _ He) as (? & _). congruence.
    + intros He [= <-] Heq. simpl in Heq. destruct (Hh _ _ He) as (? & _). congruence.
  - intros fd' [q Hq]. rewrite lookup_insert in Hq. case_decide.
    + right. subst. eexists (dfd_brk c), _. by rewrite lookup_insert_eq.
    + destruct (Hall fd') as [?|(b & eb & Hb' & <-)]; [by eexists|by left|right].
      exists b, eb. rewrite lookup_insert_ne; [done|]. intros <-. congruence.
  - intros a [en Ha]. rewrite lookup_insert in Ha. case_decide; [lia|].
    specialize (Hbrk a ltac:(eauto)). lia.
Qed.

Lemma chain_find_Some heap hash path l a :
  chain_find heap hash path l = Some a -> exists en, heap !! a = Some en /\ de_path en = path.
Proof.
  induction l as [|b l IH]; simpl; [done|].
  destruct (heap !! b) as [en|] eqn:Hb; [|done]. case_decide as Hd; [|done].
  intros [= <-]. exists en. naive_solver.
Qed.

Lemma lookup_pin_ok path hash c g X r c' :
  dfd_lookup_pin_locked path hash c = (r, c') -> dfd_ok c g X ->
  dfd_ok c' g X /\ match r with Some (_, fd) => g !! fd = Some path | None => c' = c end.
Proof.
  unfold dfd_lookup_pin_locked. intros H Hok.
  destruct (chain_find _ _ _ _) as [a|] eqn:Hf; [|by simplify_eq].
  destruct (chain_find_Some _ _ _ _ _ Hf) as (en & Ha & Hp). rewrite Ha in H. simplify_eq.
  split; [|by destruct (do_heap _ _ _ Hok a en Ha)].
  eapply dfd_ok_ext, (dfd_ok_refcount c g X a en); done.
Qed.

Lemma release_ok e c g X : dfd_ok c g X -> dfd_ok (dir_fd_release_addr e c) g X.
Proof.
  intros Hok. unfold dir_fd_release_addr. destruct (dfd_heap c !! e) as [en|] eqn:He; [|done].
  case_decide; [by apply dfd_ok_refcount|done].
Qed.

Lemma dir_fd_release_confined e c g X :
  dfd_ok c g X -> wpM confine (dir_fd_release e) c g (fun g' _ c' => g' = g /\ dfd_ok c' g X).
Proof. intros Hok. destruct e; simpl; wp_step; (split; [done|]); [by apply release_ok|done]. Qed.

(** Eviction closes only what it takes out, and never a pinned entry. *)
Lemma evict_loop_confined todo c g X :
  dfd_ok c g X ->
  wpM confine (evict_loop todo) c g (fun g' _ c' => dfd_ok c' g' X /\
    forall a en, dfd_heap c !! a = Some en -> de_refcount en <> 0 -> dfd_heap c' !! a = Some en).
Proof.
  revert c g. induction todo as [|a todo IH]; intros c g Hok; simpl; [by wp_step|].
  wp_step. wp_step. case_decide; [by wp_step|].
  destruct (dfd_heap c !! a) as [en|] eqn:Ha; [|done]. wp_step. case_decide as Hz.
  - wp_call r Hr.
    { destruct (do_heap _ _ _ Hok a en Ha) as (? & _). by eexists. }
    wp_step. eapply wpM_mono; [apply IH; by apply dfd_ok_drop|].
    intros g' [] c' [Hok' Hkeep]. split; [done|]. intros b eb Hb Hnz.
    apply Hkeep; [|done]. simpl. rewrite lookup_delete_ne; [done|]. intros ->. congruence.
  - wp_step. by apply IH.
Qed.

(** What [dir_fd_acquire] guarantees: the descriptor it returns is an open
    handle of exactly the directory asked for. *)
Definition acquire_post (X : fdmap) (dir : bytes) (g' : fdmap) (r : res (Z * nat)) (c' : dfdcache) : Prop :=
  dfd_ok c' g' X /\ match r with Ok (fd, _) => g' !! fd = Some dir | Err _ => True end.

(** From the moment the fresh descriptor is there. *)
Lemma acquire_finish_confined dir hash fd c g X :
  below dir -> dfd_ok c g X -> g !! fd = None ->
  wpM confine
    (again ← lookup_pin dir hash;
     match again with
     | Some (a, cached) => _ ← call (close fd); mret (Ok (cached, a))
     | None =>
         allocated ← call (malloc (40 + zlen dir + 1));
         if negb allocated then _ ← call (close fd); mret (Err ENOMEM) else
         a ← insert_entry fd hash dir;
         dfd_evict_locked;;
         mret (Ok (fd, a))
     end) c (<[fd := dir]> g) (acquire_post X dir).
Proof.
  intros Hb Hok Hfd.
  assert (Hopen : opened (<[fd := dir]> g) fd) by (exists dir; by rewrite lookup_insert_eq).
  wp_step. apply wpM_state. intros r c' Hl.
  destruct (lookup_pin_ok _ _ _ _ _ _ _ Hl Hok) as [Hok' Hr].
  destruct r as [[a cached]|].
  - wp_call r Hr2. wp_step. simpl. rewrite delete_insert_id by done. by split.
  - subst c'. wp_call ok Hok2. destruct ok; simpl.
    + wp_step. apply wpM_state. intros a c2 Hc2.
      pose proof (dfd_ok_insert c g X fd hash dir Hfd Hb Hok) as Hins. rewrite Hc2 in Hins.
      wp_step. unfold dfd_evict_locked. wp_step. wp_step.
      eapply wpM_mono; [by apply evict_loop_confined|].
      intros g' [] c3 [Hok3 Hkeep]. wp_step. split; [done|].
      assert (Ha : dfd_heap c2 !! a = Some (DfdEntry fd 1 hash dir)).
      { unfold dfd_insert in Hc2. injection Hc2 as <- <-. simpl. by rewrite lookup_insert_eq. }
      by destruct (do_heap _ _ _ Hok3 a _ (Hkeep _ _ Ha ltac:(done))).
    + wp_call r Hr2. wp_step. simpl. rewrite delete_insert_id by done. by split.
Qed.

Lemma acquire_confined fuel dir c g X :
  Forall proper rs -> below dir -> dfd_ok c g X ->
  wpM confine (dir_fd_acquire_rec (render rs) fuel dir) c g (acquire_post X dir).
Proof.
  intros Hrs. revert dir c g. induction fuel as [|fuel IH]; intros dir c g Hb Hok; [done|].
  cbn [dir_fd_acquire_rec]. wp_step. wp_step. case_decide; [by wp_step|].
  wp_step. apply wpM_state. intros hit c' Hl.
  destruct (lookup_pin_ok _ _ _ _ _ _ _ Hl Hok) as [Hok' Hhit].
  destruct hit as [[a fd]|]; [by wp_step|]. subst c'. clear Hl Hok'.
  destruct (split_dir_base dir PATH_MAX PATH_MAX) as [parent base] eqn:Hsplit.
  set (use := bool_decide (dir <> render rs) && _ && _ && _ && _).
  wp_step.
  (* the parent-relative open *)
  apply (wpM_mono confine _ _ _ (fun g' r c' => exists g1,
    dfd_ok c' g1 X /\
    match r.1 with
    | Some fd => g1 !! fd = None /\ g' = <[fd := dir]> g1
    | None => g' = g1
    end)).
  { destruct use eqn:Huse; [|wp_step; by exists g].
    subst use. rewrite !andb_true_iff, bool_decide_eq_true in Huse.
    destruct Huse as ((((Hne & _) & _) & _) & _).
    destruct (below_parent dir Hb Hne) as (ks & b & -> & Hpk & Hpb & Hbp & Hs).
    rewrite Hsplit in Hs. injection Hs as -> ->.
    wp_step. eapply wpM_mono; [by apply IH|]. intros g1 rp c1 [Hok1 Hpfd].
    destruct rp as [[pfd pe]|e]; [|wp_step; by exists g1].
    wp_call r Hr.
    { split; [by apply proper_plain|]. by eexists. }
    destruct r as [fd|e]; wp_step; exists g1; [|done]. destruct Hr as [_ Hfd].
    split; [done|]. split; [done|]. simpl. rewrite Hpfd. simpl.
    by rewrite join_render. }
  intros g' [fd pe] c' (g1 & Hok1 & Hfd). simpl in Hfd.
  (* the absolute open when the first did not succeed *)
  wp_step.
  apply (wpM_mono confine _ _ _ (fun g' r c' => exists g1,
    dfd_ok c' g1 X /\
    match r with
    | Ok fd => g1 !! fd = None /\ g' = <[fd := dir]> g1
    | Err _ => g' = g1
    end)).
  { destruct fd as [fd|]; [wp_step; by exists g1|]. subst g'.
    wp_call r Hr; [by apply below_confined|]. exists g1. destruct r; naive_solver. }
  clear dependent g1 fd g'. intros g' r c2 (g1 & Hok1 & Hr).
  wp_step. unfold dir_fd_release.
  apply (wpM_mono confine _ _ _ (fun g2 _ c3 => g2 = g' /\ dfd_ok c3 g1 X)).
  { destruct pe; wp_step; (split; [done|]); [by apply release_ok|done]. }
  intros g2 [] c3 [-> Hok3]. destruct r as [fd|e]; [|wp_step; by subst].
  destruct Hr as [Hfd ->]. by apply acquire_finish_confined.
Qed.

(** * Quiet programs

    The part of the server state the invariant speaks of; a quiet program
    leaves it and the open descriptors alone. *)

Definition core (s : server) : bytes * dfdcache * list open_file :=
  (g_root_norm (s_cfg s), s_dfd s, g_files s).

Definition quiet {A} (c : SM A) (g : fdmap) : Prop :=
  forall s, wpM confine c s g (fun g' _ s' => g' = g /\ core s' = core s).

Lemma quiet_ret {A} (a : A) g : quiet (mret a) g.
Proof. intros s. by wp_step. Qed.

Lemma quiet_bind {A B} (c : SM A) (f : A -> SM B) g :
  quiet c g -> (forall a, quiet (f a) g) -> quiet (c ≫= f) g.
Proof.
  intros Hc Hf s. wp_step. eapply wpM_mono; [apply Hc|]. intros g' a s' [-> Hs].
  eapply wpM_mono; [apply Hf|]. intros g' b s2 [-> Hs2]. split; [done|congruence].
Qed.

Lemma quiet_gets {A} (f : server -> A) g : quiet (gets f) g.
Proof. intros s. by wp_step. Qed.
Lemma quiet_get g : quiet get g.
Proof. intros s. by wp_step. Qed.
Lemma quiet_modify f g : (forall s, core (f s) = core s) -> quiet (modify f) g.
Proof. intros H s. by wp_step. Qed.
Lemma quiet_when b c g : (b = true -> quiet c g) -> quiet (when b c) g.
Proof. intros H. destruct b; [by apply H|apply quiet_ret]. Qed.

Lemma quiet_call {R} (e : posix R) g :
  confine_pre g R e -> (forall r, confine_upd g R e r = g) -> quiet (call e) g.
Proof. intros Hp Hu s. wp_call r Hr. by rewrite Hu. Qed.

Lemma quiet_lift {A} (p : prog posix A) g :
  wp confine p g (fun g' _ => g' = g) -> quiet (lift p) g.
Proof. intros H s. apply wpM_lift. eapply wp_mono; [exact H|]. by intros g' a ->. Qed.

Lemma quiet_dirs {A} (c : M posix dircache A) g :
  (forall t, wpM confine c t g (fun g' _ _ => g' = g)) -> quiet (zoom l_dirs c) g.
Proof. intros H s. apply wpM_zoom. eapply wpM_mono; [apply H|]. by intros g' a t ->. Qed.

Lemma wpM_quiet {A} (c : SM A) s g (Q : fdmap -> A -> server -> Prop) :
  quiet c g -> (forall a s', core s' = core s -> Q g a s') -> wpM confine c s g Q.
Proof. intros H HQ. eapply wpM_mono; [apply H|]. intros g' a s' [-> Hs]. by apply HQ. Qed.
End confine.

(** [quiet_tac] walks a program whose calls leave the descriptors alone. *)
Ltac quiet_step :=
  match goal with
  | |- quiet _ (mret _) _ => apply quiet_ret
  | |- quiet _ (mbind _ _) _ => apply quiet_bind; [|intros ?]
  | |- quiet _ (gets _) _ => apply quiet_gets
  | |- quiet _ get _ => apply quiet_get
  | |- quiet _ (modify _) _ => apply quiet_modify; intros ?; reflexivity
  | |- quiet _ (when _ _) _ => apply quiet_when; intros ?
  | |- quiet _ (call _) _ => apply quiet_call; [try done|try done]
  | |- quiet _ (match ?x with _ => _ end) _ => destruct x
  | |- _ => solve [auto with quiet]
  end.
Ltac quiet_tac := repeat quiet_step.
Create HintDb quiet.

Section quiet_ops.
Context (rs : list bytes) (g : fdmap).

Lemma quiet_log path err : quiet rs (log_op_error path err) g.
Proof. unfold log_op_error. quiet_tac. Qed.
Lemma quiet_log_verify kind path err : quiet rs (log_verify_error kind path err) g.
Proof. unfold log_verify_error. quiet_tac. Qed.
Lemma quiet_note : quiet rs note_verify_ownership_unpreserved g.
Proof. unfold note_verify_ownership_unpreserved. quiet_tac. Qed.
Lemma quiet_ns : quiet rs server_ns g.
Proof. unfold server_ns. quiet_tac. Qed.
Lemma quiet_drain_bytes n : quiet rs (add_drain_bytes n) g.
Proof. unfold add_drain_bytes. quiet_tac. Qed.
Lemma quiet_drain_ns t : quiet rs (add_drain_ns t) g.
Proof. unfold add_drain_ns. quiet_step; [apply quiet_ns|quiet_tac]. Qed.
Lemma quiet_warn_chown : quiet rs warn_chown g.
Proof. unfold warn_chown. quiet_tac. Qed.
Lemma quiet_wbuf n : quiet rs (wbuf_ensure n) g.
Proof. unfold wbuf_ensure. quiet_tac. Qed.
Lemma quiet_put_seq : quiet rs next_put_seq g.
Proof. unfold next_put_seq. quiet_tac. Qed.
Lemma quiet_sym_seq : quiet rs next_sym_seq g.
Proof. unfold next_sym_seq. quiet_tac. Qed.
Lemma quiet_link_seq : quiet rs next_link_seq g.
Proof. unfold next_link_seq. quiet_tac. Qed.
Lemma quiet_forced : quiet rs forced_ownership g.
Proof. unfold forced_ownership. quiet_tac. Qed.
Hint Resolve quiet_log quiet_log_verify quiet_note quiet_ns quiet_drain_bytes quiet_drain_ns
  quiet_warn_chown quiet_forced : quiet.
Lemma quiet_judge f : quiet rs (judge_field f) g.
Proof. unfold judge_field. quiet_tac. Qed.
Lemma quiet_ensure dir mode : below rs dir -> quiet rs (ensure_dir dir mode) g.
Proof. intros Hb. apply quiet_dirs. intros t. by apply ensure_dir_confined. Qed.

Lemma quiet_owner fd uid gid : opened g fd -> quiet rs (apply_owner fd uid gid) g.
Proof. intros Ho. unfold apply_owner. quiet_tac. Qed.
Lemma quiet_apply_meta fd m b : opened g fd -> quiet rs (apply_meta fd m b) g.
Proof.
  intros Ho. unfold apply_meta. quiet_step; [by apply quiet_owner|]. quiet_tac.
Qed.

Lemma write_loop_confined fuel eintr fd data :
  fd = STDOUT_FILENO \/ opened g fd ->
  wp (confine rs) (write_loop fuel fd data) g (fun g' _ => g' = g) /\
  wp (confine rs) (io_write_all eintr fd data) g (fun g' _ => g' = g).
Proof.
  intros Ho. assert (H : forall n data, wp (confine rs) (write_loop n fd data) g (fun g' _ => g' = g)).
  { induction n as [|n IH]; intros [|b l]; simpl; try done. split; [done|].
    intros [w|e] _; case_decide; simpl; auto. }
  split; apply H.
Qed.

Lemma quiet_reply eintr type id e : quiet rs (reply eintr type id e) g.
Proof.
  apply quiet_lift. unfold frame_write. apply wp_bind.
  eapply wp_mono; [apply (write_loop_confined 0); by left|]. intros g' ok ->.
  destruct ok; simpl; [|done]. unfold write_segment. case_decide; [done|].
  apply (write_loop_confined 0). by left.
Qed.
Lemma quiet_reply_status eintr id st : quiet rs (reply_status eintr id st) g.
Proof. apply (quiet_reply eintr MSG_STATUS id (penc_u32 (penc_init 8) (u32 st))). Qed.

Lemma quiet_resolve p : quiet rs (resolve p) g.
Proof. unfold resolve. quiet_tac. Qed.
End quiet_ops.

#[export] Hint Resolve quiet_log quiet_log_verify quiet_note quiet_ns quiet_drain_bytes quiet_drain_ns
  quiet_warn_chown quiet_wbuf quiet_put_seq quiet_sym_seq quiet_link_seq quiet_forced quiet_judge
  quiet_ensure quiet_apply_meta quiet_reply quiet_reply_status quiet_resolve : quiet.
