(* ===== verification/ConfineServer.v ===== *)
(** Every request handler of the server keeps to the confinement root and
    gives back the descriptors it opens: the invariant of the whole server
    state against the automaton of Confine.v, and its preservation by each
    handler and by the main loop. *)

From S2P Require Export Confine DirFdInv.

(** * Paths the handlers build *)

(** Without ".." a path only grows. *)
Lemma norm_comps_grows toks cs : DOTDOT ∉ toks -> cs `prefix_of` foldl comp_step cs toks.
Proof.
  revert cs. induction toks as [|t ts IH]; intros cs Hn; simpl; [done|].
  transitivity (comp_step cs t); [|apply IH; set_solver].
  unfold comp_step. case_decide; [done|]. rewrite decide_False by set_solver. by eexists.
Qed.

Lemma confined_join rs p n :
  confined rs p -> p <> [] -> DOTDOT ∉ tokens n -> confined rs (p ++ SLASH :: n).
Proof.
  intros [->|(Hh & Hd & Hp)] Hne Hn; [done|]. right. rewrite tokens_join. split_and!.
  - by destruct p.
  - set_solver.
  - unfold norm_comps. rewrite foldl_app. etransitivity; [exact Hp|]. by apply norm_comps_grows.
Qed.

Lemma render_nonnil cs : render cs <> [].
Proof. intros H. pose proof (render_head cs) as Hh. by rewrite H in Hh. Qed.

Lemma resolve_below rs p out :
  Forall proper rs -> resolve_path (render rs) p PATH_MAX = Ok out -> below rs out.
Proof.
  intros Hrs H. destruct (resolve_path_Ok _ _ _ Hrs H) as (cs & -> & Hc & Hp).
  exists cs. split_and!; [done|done|done|]. by eapply resolve_path_Ok_length.
Qed.

(** Decimal numbers and temp names. *)
Lemma dec_digits_plain fuel z acc : SLASH ∉ acc -> 0 <= z -> SLASH ∉ dec_digits fuel z acc.
Proof.
  revert z acc. induction fuel as [|n IH]; intros z acc Ha Hz; simpl; [done|].
  assert (Hd : SLASH ∉ byte.of_Z (48 + z mod 10) :: acc).
  { apply not_elem_of_cons. split; [|done]. intros Heq.
    pose proof (Z.mod_pos_bound z 10 ltac:(lia)).
    assert (byte.unsigned SLASH = 48 + z mod 10).
    { rewrite Heq, byte.unsigned_of_Z. unfold byte.wrap. apply Z.mod_small. lia. }
    change (byte.unsigned SLASH) with 47 in *. lia. }
  case_decide; [done|]. apply IH; [done|]. apply Z.div_pos; lia.
Qed.

Lemma dec_plain z : 0 <= z -> SLASH ∉ dec z.
Proof. intros. apply dec_digits_plain; [set_solver|done]. Qed.

Lemma tmp_prefix_plain k n : SLASH ∉ n -> DOTDOT ∉ tokens (take k (TMP_PREFIX ++ n)).
Proof.
  intros Hn. rewrite tokens_plain.
  - case_decide; [set_solver|]. rewrite list_elem_of_singleton. by destruct k as [|[|k]].
  - intros Hin. assert (Hi : SLASH ∈ TMP_PREFIX ++ n).
    { rewrite <- (take_drop k (TMP_PREFIX ++ n)). apply elem_of_app. by left. }
    apply elem_of_app in Hi as [Hi|]; [|done].
    revert Hi. apply (bool_decide_unpack _). by vm_compute.
Qed.

Lemma plain_tmp n : SLASH ∉ n -> plain_name (TMP_PREFIX ++ n).
Proof.
  intros Hn. split_and!; [|done|done]. apply not_elem_of_app. split; [|done].
  apply (bool_decide_unpack _). by vm_compute.
Qed.

Create HintDb keeps.

(** * The invariant of the server *)

(** Descriptors the open-file table owns. *)
Definition owned (l : list open_file) : list Z :=
  filter (fun fd => 0 <= fd) (f_fd <$> l).

Section server.
Context (rs : list bytes) (Hrs : Forall proper rs).

Record files_ok (l : list open_file) (X : fdmap) : Prop := FilesOk {
  fo_fds : forall fd, opened X fd <-> fd ∈ owned l;
  fo_nodup : NoDup (owned l);
  fo_paths : Forall (fun f => confined rs (f_tmp_path f) /\ confined rs (f_final_path f)) l
}.

(** The handle cache: consistent, its descriptors accounted for, within its
    capacity, and [P] the only pinned entry. *)
Record cache_ok (P : option nat) (c : dfdcache) (g X : fdmap) : Prop := CacheOk {
  co_ok : dfd_ok rs c g X;
  co_wf : dfd_wf c;
  co_rc : forall b, rc c b = if decide (P = Some b) then 1 else 0;
  co_cap : g_dfd_count c <= g_dfd_cap c
}.

Definition cinv (P : option nat) (c : bytes * dfdcache * list open_file) (g : fdmap) : Prop :=
  c.1.1 = render rs /\ exists X, cache_ok P c.1.2 g X /\ files_ok c.2 X.

(** Root as configured; every open descriptor is owned by the handle cache or
    by exactly one entry of the open-file table; stored paths are confined.
    Between requests no handle is pinned. *)
Definition sinvP (P : option nat) (s : server) (g : fdmap) : Prop := cinv P (core s) g.
Abbreviation sinv := (sinvP None).

Lemma cache_ok_fds P c g X g' X' : dfd_ok rs c g' X' -> cache_ok P c g X -> cache_ok P c g' X'.
Proof. by intros H []. Qed.

(** A program that preserves it. *)
Definition keeps {A} (c : SM A) : Prop :=
  forall s g, sinv s g -> wpM (confine rs) c s g (fun g' _ s' => sinv s' g').

Lemma sinv_core P s s' g : core s' = core s -> sinvP P s g -> sinvP P s' g.
Proof. unfold sinvP. by intros ->. Qed.

Lemma keeps_quiet {A} (c : SM A) : (forall g, quiet rs c g) -> keeps c.
Proof.
  intros H s g Hs. eapply wpM_quiet; [apply H|]. intros a s' Hc. by eapply sinv_core.
Qed.

Lemma keeps_bind {A B} (c : SM A) (f : A -> SM B) :
  keeps c -> (forall a, keeps (f a)) -> keeps (c ≫= f).
Proof.
  intros Hc Hf s g Hs. wp_step. eapply wpM_mono; [by apply Hc|]. intros g' a s' Hs'. by apply Hf.
Qed.

Lemma keeps_ret {A} (a : A) : keeps (mret a).
Proof. intros s g Hs. by wp_step. Qed.

(** ** Path resolution and the two caches *)

Lemma wp_resolve p s g (Q : fdmap -> res bytes -> server -> Prop) :
  sinv s g ->
  (forall r, r = resolve_path (render rs) p PATH_MAX ->
     (forall out, r = Ok out -> below rs out) -> Q g r s) ->
  wpM (confine rs) (resolve p) s g Q.
Proof.
  intros [Hr _] HQ. unfold resolve. repeat wp_step_pure. change (g_root_norm (s_cfg s)) with (core s).1.1.
  rewrite Hr. apply HQ; [done|]. intros out Ho. by apply (resolve_below rs p).
Qed.

Lemma cache_ok_release a c g X :
  cache_ok (Some a) c g X -> cache_ok None (dir_fd_release_addr a c) g X.
Proof.
  intros [Hok Hwf Hrc Hcap]. destruct (release_wf a c Hwf) as (R1 & R2 & R3 & R4).
  split; [by apply release_ok|done| |lia]. intros b. rewrite R4, !Hrc.
  repeat case_decide; simplify_eq; lia || naive_solver lia.
Qed.

Lemma wp_release e s g (Q : fdmap -> unit -> server -> Prop) :
  (forall s', (forall g0, sinvP e s g0 -> sinv s' g0) -> Q g tt s') ->
  wpM (confine rs) (release_dir e) s g Q.
Proof.
  intros HQ. unfold release_dir. apply wpM_zoom. destruct e as [a|]; simpl; wp_step; apply HQ; try done.
  intros g0 (Hr & X & Hd & Hf). split; [done|]. exists X. split; [by apply cache_ok_release|done].
Qed.

(** The last thing a handler does with its directory. *)
Lemma release_done e s g :
  sinvP e s g -> wpM (confine rs) (release_dir e) s g (fun g' _ s' => sinv s' g').
Proof. intros Hs. apply wp_release. auto. Qed.

Definition pin_of (r : res (Z * nat)) : option nat := match r with Ok (_, e) => Some e | Err _ => None end.

Lemma wp_acquire dir s g (Q : fdmap -> res (Z * nat) -> server -> Prop) :
  below rs dir -> sinv s g ->
  (forall g' r s', sinvP (pin_of r) s' g' -> (forall fd e, r = Ok (fd, e) -> g' !! fd = Some dir) -> Q g' r s') ->
  wpM (confine rs) (acquire_dir dir) s g Q.
Proof.
  intros Hb (Hr & X & [Hd Hwf Hrc Hcap] & Hf) HQ. unfold acquire_dir. repeat wp_step_pure. apply wpM_zoom.
  simpl in Hr, Hd, Hwf, Hrc, Hcap. rewrite Hr.
  eapply wpM_mono; [apply wpM_free_and; [by apply dir_fd_acquire_wf|by apply acquire_confined]|].
  intros g' r c [[Hok Hfd] (Hwf' & Hcap' & Hrc' & Hroom & _)]. apply HQ.
  - split; [done|]. exists X. split; [|done]. split; [done|done| |by apply Hroom].
    intros b. simpl. rewrite Hrc', Hrc. unfold pin, pin_of. destruct r as [[fd e]|err]; [|done].
    repeat case_decide; naive_solver.
  - intros fd e ->. done.
Qed.

(** ** The open-file table *)

Lemma owned_cons f l : owned (f :: l) = if decide (0 <= f_fd f) then f_fd f :: owned l else owned l.
Proof. unfold owned. simpl. by rewrite filter_cons. Qed.

Lemma owned_find id l f :
  file_find id l = Some f -> 0 <= f_fd f -> f_fd f ∈ owned l.
Proof.
  induction l as [|x l IH]; simpl; [done|]. rewrite owned_cons.
  case_decide as Hd; [intros [= ->] Hp; rewrite decide_True by done; set_solver|].
  intros Hf Hp. case_decide; set_solver.
Qed.

Lemma file_find_Some id l f : file_find id l = Some f -> f_id f = id /\ f ∈ l.
Proof.
  induction l as [|x l IH]; simpl; [done|]. case_decide; [intros [= ->]; set_solver|].
  intros Hf. destruct (IH Hf). set_solver.
Qed.

(** Updates that keep descriptor and paths. *)
Lemma files_ok_update id u l X :
  (forall f, f_fd (u f) = f_fd f /\ f_tmp_path (u f) = f_tmp_path f /\ f_final_path (u f) = f_final_path f) ->
  files_ok l X -> files_ok (file_update id u l) X.
Proof.
  intros Hu [Hf Hn Hp].
  assert (Ho : owned (file_update id u l) = owned l).
  { clear -Hu. induction l as [|x l IH]; simpl; [done|].
    case_decide; rewrite !owned_cons; [by rewrite (proj1 (Hu x))|by rewrite IH]. }
  split; [by rewrite Ho|by rewrite Ho|].
  clear -Hu Hp. induction Hp as [|x l Hx Hl IH]; simpl; [constructor|].
  destruct (Hu x) as (_ & E1 & E2). case_decide; constructor; auto. by rewrite E1, E2.
Qed.

Lemma files_ok_push f l X :
  (0 <= f_fd f -> X !! f_fd f = None) -> confined rs (f_tmp_path f) -> confined rs (f_final_path f) ->
  files_ok l X ->
  forall p, files_ok (f :: l) (if decide (0 <= f_fd f) then <[f_fd f := p]> X else X).
Proof.
  intros Hnew Ht Hfi [Hf Hn Hp] p. split; [intros fd| |by constructor]; rewrite owned_cons; case_decide as Hd.
  - unfold opened. rewrite lookup_insert_is_Some, elem_of_cons, <- Hf. unfold opened.
    destruct (decide (f_fd f = fd)); naive_solver.
  - done.
  - constructor; [|done]. rewrite <- Hf. intros [q Hq]. rewrite Hnew in Hq by done. done.
  - done.
Qed.

(** Dropping the entry an id designates, or forgetting its descriptor, gives
    its descriptor up. *)
Lemma owned_minus id l f l' :
  file_find id l = Some f -> NoDup (owned l) ->
  (l' = file_remove id l \/ l' = file_update id (set_f_fd (-1)) l) ->
  NoDup (owned l') /\ forall fd, fd ∈ owned l' <-> fd ∈ owned l /\ fd <> f_fd f.
Proof.
  intros Hf Hn Hl'. revert l' Hl'. induction l as [|x l IH]; intros l' Hl'; simpl in *; [done|].
  rewrite owned_cons in *. destruct (decide (f_id x = id)) as [Hid|Hid].
  - injection Hf as ->. assert (Ho : owned l' = owned l).
    { destruct Hl' as [->| ->]; [done|]. by rewrite owned_cons. }
    rewrite Ho. destruct (decide (0 <= f_fd f)) as [Hpos|Hneg].
    + inversion_clear Hn as [|? ? Hni Hn']. split; [done|]. intros fd. set_solver.
    + split; [done|]. intros fd. split; [|by intros []]. intros Hin. split; [done|].
      intros ->. unfold owned in Hin. apply list_elem_of_filter in Hin as [? _]. lia.
  - assert (Hc : exists l2, l' = x :: l2 /\ (l2 = file_remove id l \/ l2 = file_update id (set_f_fd (-1)) l)).
    { destruct Hl' as [->| ->]; eauto. }
    destruct Hc as (l2 & -> & Hl2). rewrite owned_cons. case_decide as Hpos.
    + inversion_clear Hn as [|? ? Hni Hn']. destruct (IH Hf Hn' l2 Hl2) as [H1 H2]. split.
      * constructor; [|done]. rewrite H2. naive_solver.
      * intros fd. rewrite elem_of_cons, H2, elem_of_cons. split; [|naive_solver].
        intros [->|[? ?]]; [|naive_solver]. split; [by left|]. intros Heq.
        apply Hni. rewrite Heq. eapply owned_find; [done|]. lia.
    + by apply IH.
Qed.

Lemma files_ok_minus id l f l' X :
  file_find id l = Some f -> 0 <= f_fd f ->
  (l' = file_remove id l \/ l' = file_update id (set_f_fd (-1)) l) ->
  files_ok l X -> files_ok l' (delete (f_fd f) X).
Proof.
  intros Hff Hpos Hl' [Hf Hn Hp]. destruct (owned_minus id l f l' Hff Hn Hl') as [H1 H2]. split.
  - intros fd. rewrite H2, <- Hf. unfold opened. rewrite lookup_delete_is_Some. naive_solver.
  - done.
  - clear -Hp Hl'. revert l' Hl'. induction Hp as [|x l Hx Hl IH]; intros l' [->| ->]; simpl; try constructor.
    + case_decide; [done|]. constructor; auto.
    + case_decide; constructor; auto.
Qed.

Lemma files_ok_remove_closed id l f X :
  file_find id l = Some f -> f_fd f < 0 -> files_ok l X -> files_ok (file_remove id l) X.
Proof.
  intros Hff Hneg [Hf Hn Hp].
  destruct (owned_minus id l f _ Hff Hn (or_introl eq_refl)) as [H1 H2]. split.
  - intros fd. rewrite H2, Hf. split; [|by intros []]. intros Hin. split; [done|].
    intros ->. unfold owned in Hin. apply list_elem_of_filter in Hin as [? _]. lia.
  - done.
  - clear -Hp. induction Hp as [|x l Hx Hl IH]; simpl; [constructor|]. case_decide; [done|]. by constructor.
Qed.

(** ** Handlers without descriptors of their own *)

Lemma keeps_log p e : keeps (log_op_error p e).
Proof. apply keeps_quiet. auto with quiet. Qed.
Lemma keeps_log_verify k p e : keeps (log_verify_error k p e).
Proof. apply keeps_quiet. auto with quiet. Qed.
Lemma keeps_reply_status eintr id st : keeps (reply_status eintr id st).
Proof. apply keeps_quiet. auto with quiet. Qed.
Hint Resolve keeps_log keeps_log_verify keeps_reply_status keeps_ret : keeps.

(** A quiet program after a resolved path. *)
Lemma keeps_resolve {A} p (f : res bytes -> SM A) :
  (forall r, r = resolve_path (render rs) p PATH_MAX -> (forall out, r = Ok out -> below rs out) -> keeps (f r)) ->
  keeps (r ← resolve p; f r).
Proof. intros Hf s g Hs. wp_step. apply wp_resolve; [done|]. intros r Hr Hb. by apply Hf. Qed.

Lemma keeps_handle_mkdir payload : keeps (handle_mkdir payload).
Proof.
  unfold handle_mkdir. destruct (decode_mkdir _).1 as [[in_ mode]|]; [|auto with keeps].
  apply keeps_resolve. intros [path|e] _ Hb; [|auto with keeps].
  apply keeps_quiet. intros g. apply quiet_bind; [by apply quiet_ensure, Hb|]. intros r. quiet_tac.
Qed.

Lemma quiet_stat e path g : confined rs path -> quiet rs (encode_stat e path) g.
Proof. intros Hc. unfold encode_stat. quiet_tac. Qed.

Lemma keeps_handle_stat eintr id payload : keeps (handle_stat eintr id payload).
Proof.
  unfold handle_stat. destruct (pdec_str _ _).1; [|auto with keeps].
  apply keeps_resolve. intros r _ Hb. apply keeps_quiet. intros g. apply quiet_bind; [|intros ?; quiet_tac].
  destruct r as [path|]; [|apply quiet_ret]. apply quiet_stat, below_confined. by apply Hb.
Qed.

Lemma keeps_handle_unlink payload : keeps (handle_unlink payload).
Proof.
  unfold handle_unlink. destruct (pdec_str _ _).1; [|auto with keeps].
  apply keeps_resolve. intros [path|] _ Hb; [|auto with keeps]. apply keeps_quiet. intros g.
  pose proof (below_confined _ _ (Hb path eq_refl)). quiet_tac.
Qed.

Lemma keeps_handle_barrier eintr id payload : keeps (handle_barrier eintr id payload).
Proof. apply keeps_quiet. intros g. unfold handle_barrier. quiet_tac. Qed.

Lemma keeps_handle_hello eintr start id payload : keeps (handle_hello eintr start id payload).
Proof.
  apply keeps_quiet. intros g. unfold handle_hello.
  destruct (decode_hello payload) as [[[ccaps want] opts] error]. cbn zeta.
  apply quiet_bind; [|intros _].
  { apply quiet_modify. intros s. unfold core, hello_options. simpl. by destruct (negb error && _). }
  quiet_step; [quiet_tac|]. intros. apply quiet_bind; [|intros; quiet_tac]. apply quiet_when. intros _.
  apply quiet_modify. intros s. unfold pool_start. case_decide; [done|]. by destruct (start _).
Qed.

(** The names of a STAT_BULK request, as far as the loop decodes them. *)
Fixpoint bulk_names (n : nat) (d : pdec) : list bytes :=
  match n with
  | O => []
  | S n => let '(name, d) := pdec_str PATH_MAX d in
           match name with None => [] | Some name => cstr name :: bulk_names n d end
  end.

Lemma quiet_bulk n base d e g :
  (forall b, base = Some b -> below rs b) -> Forall (fun nm => DOTDOT ∉ tokens nm) (bulk_names n d) ->
  quiet rs (stat_bulk_loop n base d e) g.
Proof.
  intros Hb. revert d e. induction n as [|n IH]; intros d e Hn; simpl in *; [apply quiet_ret|].
  destruct (pdec_str PATH_MAX d) as [[name|] d']; [|apply quiet_ret].
  inversion_clear Hn as [|? ? Hd Hn']. apply quiet_bind; [|intros e'; by apply IH].
  destruct base as [b|]; simpl; [|apply quiet_ret].
  destruct (path_join_fast b (cstr name) PATH_MAX) as [full|] eqn:Hj; [|apply quiet_ret].
  apply quiet_stat. destruct (Hb b eq_refl) as (ks & -> & Hk & Hp & _).
  unfold path_join_fast in Hj. repeat case_decide; try done; injection Hj as <-.
  - right. split; [done|]. cbn [app]. rewrite tokens_slash. split; [done|].
    match goal with H : render ks = _ |- _ => apply render_root in H; [|by apply Forall_proper_good]; subst ks end.
    apply prefix_nil_inv in Hp. subst rs. apply prefix_nil.
  - apply confined_join; [|by apply render_nonnil|done]. apply below_confined. exists ks.
    split_and!; try done.  zlen_lia.
Qed.

Lemma keeps_handle_stat_bulk eintr id payload :
  Forall (fun nm => DOTDOT ∉ tokens nm)
    (let d := (pdec_str PATH_MAX (pdec_init payload)).2 in
     bulk_names (Z.to_nat (pdec_u32 d).1) (pdec_u32 d).2) ->
  keeps (handle_stat_bulk eintr id payload).
Proof.
  intros Hn. unfold handle_stat_bulk.
  destruct (pdec_str PATH_MAX (pdec_init payload)) as [[base_in|] d]; [|auto with keeps]. simpl in Hn.
  destruct (pdec_u32 d) as [count d']. simpl in Hn.
  destruct (pd_error d' || _); [auto with keeps|]. apply keeps_resolve. intros r _ Hb.
  apply keeps_quiet. intros g. quiet_step; [quiet_tac|].
  match goal with |- quiet _ (if negb ?x then _ else _) _ => destruct x; simpl; [|quiet_tac] end.
  apply quiet_bind; [|intros [e|]; quiet_tac].
  apply quiet_bulk; [|done]. intros b. destruct r as [out|]; [|done]. intros [= <-]. by apply Hb.
Qed.

(** ** A descriptor held by the running handler *)

Definition heldP (P : option nat) (s : server) (g : fdmap) (fd : Z) : Prop :=
  exists g0 p, g0 !! fd = None /\ sinvP P s g0 /\ g = <[fd := p]> g0.
Abbreviation held := (heldP None).

Lemma held_opened P s g fd : heldP P s g fd -> opened g fd.
Proof. intros (g0 & p & _ & _ & ->). exists p. apply lookup_insert_eq. Qed.

Lemma held_core P s s' g fd : core s' = core s -> heldP P s g fd -> heldP P s' g fd.
Proof. intros Hc (g0 & p & ? & ? & ?). exists g0, p. split_and!; [done| |done]. by eapply sinv_core. Qed.

Lemma held_close P s g fd : heldP P s g fd -> sinvP P s (delete fd g).
Proof. intros (g0 & p & Hn & Hs & ->). by rewrite delete_insert_id. Qed.

Lemma wp_close_held P s g fd (Q : fdmap -> res unit -> server -> Prop) :
  heldP P s g fd -> (forall r g', sinvP P s g' -> g' = delete fd g -> Q g' r s) ->
  wpM (confine rs) (call (close fd)) s g Q.
Proof.
  intros Hh HQ. wp_call r Hr; [by eapply held_opened|]. apply HQ; [by apply held_close|done].
Qed.

Lemma wp_open P p fl md s g (Q : fdmap -> res Z -> server -> Prop) :
  confined rs p -> sinvP P s g ->
  (forall g' r, match r with Ok fd => heldP P s g' fd /\ g' = <[fd := p]> g /\ g !! fd = None /\ 0 <= fd | Err _ => g' = g end ->
     Q g' r s) ->
  wpM (confine rs) (call (open p fl md)) s g Q.
Proof.
  intros Hc Hs HQ. wp_call r Hr. apply HQ. destruct r as [fd|e]; [|done].
  destruct Hr as [Hpos Hn]. split_and!; [|done|done|done]. by exists g, p.
Qed.

Lemma wp_openat P d n fl md s g (Q : fdmap -> res Z -> server -> Prop) :
  at_ok rs g d n -> sinvP P s g ->
  (forall g' r, match r with
                | Ok fd => heldP P s g' fd /\ (forall d p, g !! d = Some p -> g' !! d = Some p) /\ g = delete fd g'
                | Err _ => g' = g end ->
     Q g' r s) ->
  wpM (confine rs) (call (openat d n fl md)) s g Q.
Proof.
  intros Hc Hs HQ. wp_call r Hr. apply HQ. destruct r as [fd|e]; [|done].
  destruct Hr as [Hpos Hn]. simpl. split_and!; [by eexists g, _| |by rewrite delete_insert_id].
  intros d' p Hd. rewrite lookup_insert_ne; [done|]. intros ->. congruence.
Qed.

(** ** SETMETA *)

Definition opened_post (g : fdmap) (rd : res Z * option nat) (s : server) : Prop :=
  match rd.1 with Ok fd => heldP rd.2 s g fd | Err _ => sinvP rd.2 s g end.

Lemma open_abs_confined path s g de :
  below rs path -> sinvP de s g ->
  wpM (confine rs)
    (r ← call (open path SETMETA_FLAGS 0);
     match r with
     | Ok fd => mret (Ok fd, de)
     | Err _ => r ← call (open path SETMETA_DIR_FLAGS 0); mret (r, de)
     end) s g opened_post.
Proof.
  intros Hb Hs. apply below_confined in Hb. wp_step. eapply wp_open; [done|done|].
  intros g' [fd|e] Hr; [by wp_step; destruct Hr|]. subst g'. wp_step. eapply wp_open; [done|done|].
  intros g' r Hr. wp_step. unfold opened_post. destruct r; simpl; [by destruct Hr|by subst].
Qed.

Lemma open_setmeta_confined path s g :
  below rs path -> sinv s g -> wpM (confine rs) (open_setmeta path) s g opened_post.
Proof.
  intros Hb Hs. unfold open_setmeta. wp_step. wp_step.
  destruct (split_dir_base path PATH_MAX PATH_MAX) as [sdir sbase] eqn:Hsp.
  assert (Hroot : g_root_norm (s_cfg s) = render rs) by apply Hs.
  destruct (bool_decide (path <> _) && _ && _ && _ && _) eqn:Hok.
  2:{ wp_step. wp_step. by apply open_abs_confined. }
  rewrite !andb_true_iff, bool_decide_eq_true, Hroot in Hok. destruct Hok as ((((Hne & _) & _) & _) & _).
  destruct (below_parent rs path Hb Hne) as (ks & c & -> & Hks & Hc & Hbp & Hsplit).
  rewrite Hsplit in Hsp. injection Hsp as <- <-.
  wp_step. wp_step. apply wp_acquire; [done|done|]. intros g1 r1 s1 Hs1 Hfd.
  destruct r1 as [[dfd de]|e1]; [|wp_step; by apply open_abs_confined].
  specialize (Hfd dfd de eq_refl).
  assert (Hat : at_ok rs g1 dfd c) by (split; [by apply proper_plain|by eexists]).
  wp_step. eapply wp_openat; [done|done|]. intros g2 [fd|e2] Hr2.
  { wp_step. wp_step. by destruct Hr2. }
  subst g2. wp_step. eapply wp_openat; [done|done|]. intros g2 [fd|e3] Hr2; wp_step; [wp_step; by destruct Hr2|].
  subst g2. by apply open_abs_confined.
Qed.

Lemma wp_release_held e fd s g (Q : fdmap -> unit -> server -> Prop) :
  heldP e s g fd -> (forall s', held s' g fd -> Q g tt s') -> wpM (confine rs) (release_dir e) s g Q.
Proof.
  intros (g0 & p & Hn & Hs & ->) HQ. apply wp_release. intros s' Hk. apply HQ. exists g0, p. auto.
Qed.

Lemma keeps_handle_setmeta payload : keeps (handle_setmeta payload).
Proof.
  unfold handle_setmeta. destruct (decode_setmeta _).1 as [[[in_ m] is_dir]|]; [|auto with keeps].
  apply keeps_resolve. intros [path|e] _ Hb; [|auto with keeps]. specialize (Hb path eq_refl).
  intros s g Hs. wp_step. eapply wpM_mono; [by apply open_setmeta_confined|].
  intros g1 [r de] s1 Hr. unfold opened_post in Hr. simpl in Hr. destruct r as [fd|e].
  - wp_step. eapply wp_release_held; [done|]. intros s2 Hh. wp_step. wp_step. wp_step.
    eapply wpM_quiet; [apply quiet_apply_meta; by eapply held_opened|].
    intros [status op] s3 Hc. wp_step. eapply (wp_close_held _ _ _ fd).
    { by eapply held_core. }
    intros r g' Hs' _. case_decide; [by wp_step|]. by apply keeps_log.
  - wp_step. apply wp_release. intros s2 Hk. apply keeps_log. by apply Hk.
Qed.

(** ** PUTFILE, SYMLINK, LINK *)

(** The path does not designate the root directory itself. *)
Definition inside (p : bytes) : Prop := resolve_path (render rs) p PATH_MAX <> Ok (render rs).

(** What follows from a resolved path strictly below the root. *)
Lemma inside_parent p out :
  inside p -> resolve_path (render rs) p PATH_MAX = Ok out -> below rs out ->
  exists dir base, split_dir_base out PATH_MAX PATH_MAX = (dir, base) /\ below rs dir /\ plain_name base.
Proof.
  intros Hi Hr Hb. destruct (below_parent rs out Hb) as (ks & c & -> & _ & Hc & Hbp & Hs).
  { intros ->. by apply Hi. }
  exists (render ks), c. split_and!; [done|done|by apply proper_plain].
Qed.

Lemma put_loop_confined fuel fd data dn g :
  opened g fd -> wp (confine rs) (put_loop fuel fd data dn) g (fun g' _ => g' = g).
Proof.
  intros Ho. revert data dn. induction fuel as [|n IH]; intros [|b l] dn; simpl; try done.
  split; [by right|]. intros [w|e] _; case_decide; simpl; auto.
Qed.

Lemma seq_plain pid n : SLASH ∉ dec (u32 pid) ++ str ".p" ++ dec (u64 n).
Proof.
  rewrite !not_elem_of_app. split_and!; [apply dec_plain, u32_range| |apply dec_plain, u64_range].
  apply (bool_decide_unpack _). by vm_compute.
Qed.

Lemma keeps_at {A} (e : posix A) s g (Q : fdmap -> A -> server -> Prop) :
  confine_pre rs g A e -> (forall r, confine_upd g A e r = g) -> (forall r, Q g r s) ->
  wpM (confine rs) (call e) s g Q.
Proof. intros Hp Hu HQ. wp_call r Hr. by rewrite Hu. Qed.

Lemma put_body_confined eintr q finalp base tmp inplace mset dfd de fd dir s g :
  heldP (Some de) s g fd -> delete fd g !! dfd = Some dir -> below rs dir -> plain_name base -> plain_name tmp ->
  wpM (confine rs) (put_body eintr q finalp base tmp inplace mset dfd de fd) s g (fun g' _ s' => sinv s' g').
Proof.
  intros Hh Hd Hb Hbase Htmp. unfold put_body. pose proof (held_opened _ _ _ _ Hh) as Ho.
  wp_step. eapply wpM_quiet; [apply quiet_ns|]. intros t0 s1 E1.
  wp_step. apply wpM_lift. eapply wp_mono; [by apply put_loop_confined|]. intros g' [dn err] ->.
  wp_step. eapply wpM_quiet; [apply quiet_drain_bytes|]. intros [] s2 E2.
  wp_step. eapply wpM_quiet; [apply quiet_drain_ns|]. intros [] s3 E3.
  wp_step. apply (wpM_quiet rs _ _ _ (fun g' r s' =>
    wpM (confine rs) _ s' g' (fun g' _ s' => sinv s' g'))).
  { destruct (decide (err = 0)); [|apply quiet_ret]. apply quiet_bind; [by apply quiet_apply_meta|].
    intros [st op]. apply quiet_ret. }
  intros [err' op] s4 E4. wp_step. eapply (wp_close_held _ _ _ fd).
  { eapply held_core; [|done]. congruence. }
  intros r g' Hs' ->.
  assert (Hat : forall n, plain_name n -> at_ok rs (delete fd g) dfd n) by (split; [done|by exists dir]).
  wp_step. eapply wpM_quiet.
  { destruct (bool_decide (err_of err' r = 0) && negb inplace); [|apply quiet_ret].
    apply quiet_bind; [apply quiet_call; [split; by apply Hat|done]|]. intros ?. apply quiet_ret. }
  intros err2 s5 E5. wp_step. eapply wpM_quiet.
  { apply quiet_when. intros _. apply quiet_bind; [apply quiet_call; [by apply Hat|done]|].
    intros ?. apply quiet_ret. }
  intros [] s6 E6. wp_step. apply wp_release. intros s7 Hk.
  assert (sinv s7 (delete fd g)).
  { apply Hk. eapply sinv_core; [|exact Hs']. congruence. }
  case_decide; [by wp_step|]. by apply keeps_log.
Qed.

Lemma keeps_handle_putfile eintr payload :
  (forall q, decode_putfile payload = Some q -> inside (pr_final q)) ->
  keeps (handle_putfile eintr payload).
Proof.
  intros Hin. unfold handle_putfile. destruct (decode_putfile payload) as [q|]; [|auto with keeps].
  specialize (Hin q eq_refl). apply keeps_resolve. intros [out|e] Hr Hb; [|auto with keeps].
  destruct (inside_parent _ _ Hin (eq_sym Hr) (Hb _ eq_refl)) as (dir & base & -> & Hbd & Hpl).
  intros s g Hs. wp_step. eapply wpM_quiet; [by apply quiet_ensure|]. intros re s1 E1.
  apply (sinv_core _ _ s1) in Hs; [|done]. destruct re as [[]|e]; [|by apply keeps_log].
  wp_step. apply wp_acquire; [done|done|]. intros g2 ra s2 Hs2 Hfd.
  destruct ra as [[dfd de]|e]; [|by apply keeps_log]. specialize (Hfd dfd de eq_refl).
  set (flags := has_bits (pr_flags q) ECOPY_OPEN_INPLACE).
  wp_step. apply (wpM_mono (confine rs) _ _ _ (fun g' (tr : bytes * res Z) s' =>
    plain_name tr.1 /\ match tr.2 with Ok fd => heldP (Some de) s' g' fd /\ delete fd g' !! dfd = Some dir
                     | Err _ => sinvP (Some de) s' g' end)).
  { destruct flags.
    - wp_step. eapply wp_openat; [by split; [|exists dir]|done|]. intros g3 r H3. wp_step. split; [done|].
      destruct r; simpl; [destruct H3 as (? & ? & <-)|subst]; done.
    - wp_step. unfold next_put_seq. wp_step. wp_step. wp_step. wp_step. wp_step. wp_step.
      apply keeps_at; [done|done|]. intros pid.
      assert (Hpt : plain_name (put_tmp_name pid (u64 (put_seq s2 + 1)))) by apply plain_tmp, seq_plain.
      case_decide; [by wp_step|]. wp_step. eapply wp_openat; [by split; [|exists dir]|done|].
      intros g3 r H3. wp_step. split; [done|]. destruct r; simpl; [destruct H3 as (? & ? & <-)|subst]; done. }
  intros g3 [tmp [fd|e]] s3 [Hpt H3].
  - destruct H3. by eapply put_body_confined.
  - wp_step. apply wp_release. intros s4 Hk. apply keeps_log. by apply Hk.
Qed.

Lemma special_plain kind pid n :
  SLASH ∉ kind -> plain_name (TMP_PREFIX ++ kind ++ dec (u32 pid) ++ str "." ++ dec (u64 n)).
Proof.
  intros Hk. apply plain_tmp. rewrite !not_elem_of_app.
  split_and!; [done|apply dec_plain, u32_range| |apply dec_plain, u64_range].
  apply (bool_decide_unpack _). by vm_compute.
Qed.

(** Release the directory, then log. *)
Lemma release_log de p e s g :
  sinvP de s g -> wpM (confine rs) (release_dir de;; log_op_error p e) s g (fun g' _ s' => sinv s' g').
Proof. intros Hs. wp_step. apply wp_release. intros s' Hk. apply keeps_log. auto. Qed.

(** The beginning the two handlers share. *)
Lemma keeps_in_dir p out mode (f : bytes -> Z * nat -> SM unit) :
  inside p -> resolve_path (render rs) p PATH_MAX = Ok out ->
  (forall dir base dfd de s g, split_dir_base out PATH_MAX PATH_MAX = (dir, base) -> below rs dir ->
     (forall n, plain_name n -> at_ok rs g dfd n) -> plain_name base -> sinvP (Some de) s g ->
     wpM (confine rs) (f base (dfd, de)) s g (fun g' _ s' => sinv s' g')) ->
  keeps (let '(dir, base) := split_dir_base out PATH_MAX PATH_MAX in
         r ← ensure_dir dir mode;
         match r with
         | Err e => log_op_error dir e
         | Ok _ =>
             r ← acquire_dir dir;
             match r with
             | Err e => log_op_error dir e
             | Ok (dfd, de) => f base (dfd, de)
             end
         end).
Proof.
  intros Hin Hr Hf. pose proof (resolve_below _ _ _ Hrs Hr) as Hb.
  destruct (inside_parent _ _ Hin Hr Hb) as (dir & base & Hsp & Hbd & Hpl). rewrite Hsp.
  intros s g Hs. wp_step. eapply wpM_quiet; [by apply quiet_ensure|]. intros re s1 E1.
  apply (sinv_core _ _ s1) in Hs; [|done]. destruct re as [[]|e]; [|by apply keeps_log].
  wp_step. apply wp_acquire; [done|done|]. intros g2 ra s2 Hs2 Hfd.
  destruct ra as [[dfd de]|e]; [|by apply keeps_log]. specialize (Hfd dfd de eq_refl).
  eapply Hf; try done. intros n Hn. split; [done|]. by exists dir.
Qed.

Lemma quiet_symlink_owner dfd tmp link_path uid gid g :
  at_ok rs g dfd tmp -> quiet rs (symlink_owner dfd tmp link_path uid gid) g.
Proof. intros Hat. unfold symlink_owner. quiet_tac. Qed.

Lemma keeps_handle_symlink payload :
  (forall q, (decode_symlink (pdec_init payload)).1 = Some q -> inside (sr_link q)) ->
  keeps (handle_symlink payload).
Proof.
  intros Hin. unfold handle_symlink. destruct (decode_symlink _).1 as [q|]; [|auto with keeps].
  specialize (Hin q eq_refl). apply keeps_resolve. intros [out|e] Hr _; [|auto with keeps].
  eapply (keeps_in_dir _ out o0755 (fun base '(dfd, de) => _) Hin (eq_sym Hr)).
  intros dir base dfd de s g _ _ Hat Hpl Hs. cbn beta iota.
  wp_step. unfold next_sym_seq. do 6 wp_step. apply keeps_at; [done|done|]. intros pid.
  set (tmp := sym_tmp_name pid _).
  assert (Hpt : plain_name tmp).
  { subst tmp. unfold sym_tmp_name. apply special_plain. apply (bool_decide_unpack _). by vm_compute. }
  match goal with |- wpM _ _ ?s' _ _ => assert (Hs' : sinvP (Some de) s' g) by done end.
  case_decide; [by apply release_log|]. wp_step. apply keeps_at; [by apply Hat|done|].
  intros [[]|e]; [|by apply release_log].
  wp_step. eapply wpM_quiet; [by apply quiet_symlink_owner, Hat|]. intros [] s2 E2.
  wp_step. wp_step. wp_step. eapply wpM_quiet.
  { apply quiet_when. intros _. apply quiet_bind; [apply quiet_call; [by apply Hat|done]|].
    intros ?. apply quiet_ret. }
  intros [] s3 E3. wp_step. apply keeps_at; [split; by apply Hat|done|]. intros r.
  wp_step. eapply wpM_quiet.
  { destruct r; [apply quiet_ret|]. apply quiet_bind; [apply quiet_log|intros _].
    apply quiet_bind; [apply quiet_call; [by apply Hat|done]|]. intros ?. apply quiet_ret. }
  intros [] s4 E4. apply release_done. eapply sinv_core; [|exact Hs']. congruence.
Qed.

Lemma quiet_already_linked pri dfd base g :
  confined rs pri -> at_ok rs g dfd base -> quiet rs (already_linked pri dfd base) g.
Proof.
  intros Hp Hat. unfold already_linked.
  apply quiet_bind; [apply quiet_call; [by left|done]|]. intros [st|]; [|apply quiet_ret].
  apply quiet_bind; [apply quiet_call; [by right|done]|]. intros [st'|]; apply quiet_ret.
Qed.

Lemma link_over_confined pri dfd base link_path de s g :
  confined rs pri -> (forall n, plain_name n -> at_ok rs g dfd n) -> plain_name base -> sinvP (Some de) s g ->
  wpM (confine rs) (link_over pri dfd base link_path de) s g (fun g' _ s' => sinv s' g').
Proof.
  intros Hp Hat Hpl Hs. unfold link_over.
  wp_step. unfold next_link_seq. do 6 wp_step. apply keeps_at; [done|done|]. intros pid.
  set (tmp := link_tmp_name pid _).
  assert (Hpt : plain_name tmp).
  { subst tmp. unfold link_tmp_name. apply special_plain. apply (bool_decide_unpack _). by vm_compute. }
  match goal with |- wpM _ _ ?s' _ _ => assert (Hs' : sinvP (Some de) s' g) by done end.
  case_decide; [by apply release_log|]. wp_step.
  apply keeps_at; [split; [by left|by apply Hat]|done|].
  intros [[]|e]; [|by apply release_log].
  wp_step. apply keeps_at; [split; by apply Hat|done|]. intros r. wp_step. eapply wpM_quiet.
  { destruct r; [apply quiet_ret|]. apply quiet_bind; [apply quiet_log|intros _].
    apply quiet_bind; [apply quiet_call; [by apply Hat|done]|]. intros ?. apply quiet_ret. }
  intros [] s4 E4. apply release_done. eapply sinv_core; [|exact Hs']. congruence.
Qed.

Lemma keeps_handle_link payload :
  (forall p q, (decode_link (pdec_init payload)).1 = Some (p, q) -> inside q) ->
  keeps (handle_link payload).
Proof.
  intros Hin. unfold handle_link. destruct (decode_link _).1 as [[pri_in link_in]|]; [|auto with keeps].
  specialize (Hin _ _ eq_refl). apply keeps_resolve. intros [pri|e] _ Hbp; [|auto with keeps].
  pose proof (below_confined _ _ (Hbp pri eq_refl)) as Hp.
  apply keeps_resolve. intros [out|e] Hr _; [|auto with keeps].
  eapply (keeps_in_dir _ out o0755 (fun base '(dfd, de) => _) Hin (eq_sym Hr)).
  intros dir base dfd de s g _ _ Hat Hpl Hs. cbn beta iota.
  wp_step. apply keeps_at; [split; [by left|by apply Hat]|done|]. intros [[]|e]; [by apply release_done|].
  case_decide; [|by apply release_log]. wp_step.
  eapply wpM_quiet; [by apply quiet_already_linked; [|apply Hat]|]. intros same s2 E2.
  apply (sinv_core _ _ s2) in Hs; [|done]. destruct same; [by apply release_done|]. by apply link_over_confined.
Qed.

(** ** VERIFY_PATH *)

Lemma pread_loop_confined fuel fd want got off g :
  opened g fd -> wp (confine rs) (pread_loop fuel fd want got off) g (fun g' _ => g' = g).
Proof.
  intros Ho. revert want got. induction fuel as [|n IH]; intros [|w] got; simpl; try done.
  split; [done|]. intros [[|b d]|e] _; simpl; auto. case_decide; simpl; auto.
Qed.

Lemma quiet_check_sample eintr h fd sm v g : opened g fd -> quiet rs (check_sample eintr h fd sm v) g.
Proof.
  intros Ho. unfold check_sample. destruct (v_failed v); [apply quiet_ret|].
  apply quiet_bind; [by apply quiet_lift, pread_loop_confined|]. intros ?. apply quiet_ret.
Qed.

Lemma quiet_sample_loop eintr h n fd size d v g : opened g fd -> quiet rs (sample_loop eintr h n fd size d v) g.
Proof.
  intros Ho. revert d v. induction n as [|n IH]; intros d v; simpl; [apply quiet_ret|].
  destruct (pd_error d); [apply quiet_ret|]. destruct (decode_sample d) as [[sm|] d']; [|apply quiet_ret].
  destruct (sample_ok size sm); [|apply quiet_ret].
  apply quiet_bind; [by apply quiet_check_sample|]. intros v'. apply IH.
Qed.

Lemma quiet_when_log b k p e g : quiet rs (when b (log_verify_error k p e)) g.
Proof. apply quiet_when. auto with quiet. Qed.
Hint Resolve quiet_when_log : quiet.

Lemma verify_data_confined eintr h path q d cm ct fd s g :
  held s g fd ->
  wpM (confine rs) (verify_data eintr h path q d cm ct fd) s g (fun g' _ s' => sinv s' g').
Proof.
  intros Hh. pose proof (held_opened _ _ _ _ Hh) as Ho. unfold verify_data. wp_step.
  apply keeps_at; [done|done|]. intros _. wp_step. apply keeps_at; [done|done|]. intros st.
  set (init := match st with Ok _ => _ | Err _ => _ end). destruct init as [[v mb] field].
  wp_step. eapply wpM_quiet; [by apply quiet_sample_loop|]. intros [v' d'] s1 E1.
  wp_step. eapply wpM_quiet; [apply quiet_when_log|]. intros [] s2 E2.
  wp_step. apply (wpM_quiet rs _ _ _ (fun g' r s' =>
    wpM (confine rs) _ s' g' (fun g' _ s' => sinv s' g'))).
  { destruct st as [st|]; [|apply quiet_ret]. destruct (cm && _); [|apply quiet_ret].
    apply quiet_bind; [apply quiet_forced|intros f]. apply quiet_bind; [apply quiet_judge|].
    intros [fl|]; apply quiet_ret. }
  intros [[failed mb'] field'] s3 E3. wp_step. eapply (wp_close_held _ _ _ fd).
  { eapply held_core; [|done]. congruence. }
  intros r g' Hs' _. eapply keeps_quiet; [|done]. intros g1. apply quiet_when. intros _.
  repeat (apply quiet_bind; [apply quiet_when_log|intros _]). apply quiet_when_log.
Qed.

Lemma keeps_handle_verify eintr h payload : keeps (handle_verify_path eintr h payload).
Proof.
  unfold handle_verify_path. destruct (decode_verify payload) as [[q d]|]; [|auto with keeps].
  cbn zeta. intros s g Hs. wp_step. destruct (pd_error d || _ || _ || _ || _).
  { wp_step. by apply keeps_log_verify. }
  apply wp_resolve; [done|]. intros [path|] _ Hb; [|by apply keeps_log_verify].
  pose proof (below_confined _ _ (Hb path eq_refl)) as Hc. case_decide.
  { eapply keeps_quiet; [|done]. intros g1. unfold verify_stat_only.
    apply quiet_bind; [apply quiet_call; [by left|done]|]. intros [st|]; quiet_tac. }
  wp_step. wp_step. wp_step. eapply wpM_quiet; [quiet_tac|]. intros [] s1 E1.
  apply (sinv_core _ _ s1) in Hs; [|done]. wp_step. eapply wp_open; [done|done|].
  intros g' [fd|e] Hr; [by apply verify_data_confined; destruct Hr|]. subst g'.
  apply keeps_quiet; [|done]. intros g1. quiet_tac.
Qed.

(** ** The streamed files *)

Lemma push_closed f s g :
  f_fd f < 0 -> confined rs (f_tmp_path f) -> confined rs (f_final_path f) -> sinv s g ->
  wpM (confine rs) (push_file f) s g (fun g' _ s' => sinv s' g').
Proof.
  intros Hf Ht Hfi (Hr & X & Hd & Hfo). unfold push_file. wp_step. split; [done|]. exists X. split; [done|].
  pose proof (files_ok_push f _ X ltac:(lia) Ht Hfi Hfo []) as H. by rewrite decide_False in H by lia.
Qed.

Lemma push_open f p s g :
  0 <= f_fd f -> g !! f_fd f = None -> confined rs (f_tmp_path f) -> confined rs (f_final_path f) -> sinv s g ->
  wpM (confine rs) (push_file f) s (<[f_fd f := p]> g) (fun g' _ s' => sinv s' g').
Proof.
  intros Hf Hn Ht Hfi (Hr & X & Hd & Hfo). unfold push_file. wp_step. split; [done|].
  exists (<[f_fd f := p]> X). split; [by eapply cache_ok_fds, Hd; apply dfd_ok_open; [|apply Hd]|].
  assert (HX : X !! f_fd f = None) by (eapply lookup_weaken_None; [done|apply Hd]).
  pose proof (files_ok_push f _ X (fun _ => HX) Ht Hfi Hfo p) as H. by rewrite decide_True in H by lia.
Qed.

(** The temp path of OPEN is confined, also when it had to be cut. *)
Lemma open_tmp_confined dir pid fid :
  below rs dir -> 0 <= fid -> confined rs (snprintf_s PATH_MAX (open_tmp_path dir pid fid)).
Proof.
  intros Hb Hfid. pose proof (below_confined _ _ Hb) as Hc. destruct Hb as (ks & -> & _ & _ & Hl).
  unfold snprintf_s, open_tmp_path. rewrite take_app, take_ge by (unfold zlen in Hl; lia).
  destruct (Z.to_nat (PATH_MAX - 1) - length (render ks))%nat as [|k]; [by rewrite app_nil_r|].
  cbn [app firstn take]. apply confined_join; [done|apply render_nonnil|].
  apply tmp_prefix_plain. rewrite !not_elem_of_app.
  split_and!; [apply dec_plain, u32_range| |by apply dec_plain].
  apply (bool_decide_unpack _). by vm_compute.
Qed.

Lemma pdec_u64_nonneg d : 0 <= (pdec_u64 d).1.
Proof.
  unfold pdec_u64. destruct (pdec_bytes 8 d) as [[b|] d']; simpl; [|done].
  unfold u64_of_bytes.
  cut (forall l v, 0 <= v -> 0 <= foldl (fun v i => Z.lor v (Z.shiftl (byte_at b i) (8 * Z.of_nat i))) v l).
  { intros H. by apply H. }
  induction l as [|i l IH]; intros v Hv; simpl; [done|]. apply IH. apply Z.lor_nonneg. split; [done|].
  apply Z.shiftl_nonneg. unfold byte_at. pose proof (byte.unsigned_range (at_ b i)). lia.
Qed.

Lemma decode_open_fid d q : (decode_open d).1 = Some q -> 0 <= or_fid q.
Proof.
  unfold decode_open, mbind, D_mbind. pose proof (pdec_u64_nonneg d) as Hf.
  destruct (pdec_u64 d) as [fid d1]. destruct (pdec_u32 d1) as [m d2]. destruct (pdec_i64 d2) as [ex d3].
  destruct (pdec_u32 d3) as [fl d4]. destruct (pdec_u32 d4) as [pm d5].
  destruct (pdec_str PATH_MAX d5) as [[p|] d6]; simpl; [|done].
  destruct (pd_error d6); [done|]. by intros [= <-].
Qed.

Lemma quiet_preallocate fd n g : opened g fd -> quiet rs (preallocate fd n) g.
Proof. intros Ho. unfold preallocate. quiet_tac. Qed.

Lemma wp_open_maybe_direct p fl md wd s g (Q : fdmap -> res (Z * bool) -> server -> Prop) :
  confined rs p ->
  (forall g' r, match r with Ok (fd, _) => g' = <[fd := p]> g /\ g !! fd = None /\ 0 <= fd | Err _ => g' = g end ->
     Q g' r s) ->
  wpM (confine rs) (open_maybe_direct p fl md wd) s g Q.
Proof.
  intros Hc HQ. unfold open_maybe_direct. wp_step.
  assert (Hplain : wpM (confine rs) (r ← call (open p fl md);
                     mret (match r with Ok fd => Ok (fd, false) | Err e => Err e end)) s g Q).
  { wp_call r Hr. wp_step. apply HQ. by destruct r as [fd|e]; [destruct Hr|]. }
  destruct wd; [|by wp_step]. wp_call r Hr. destruct r as [fd|e].
  - wp_step. wp_step. apply HQ. by destruct Hr.
  - destruct (direct_open_fallback_errno e); wp_step; [done|]. wp_step. by apply HQ.
Qed.

Lemma keeps_handle_open payload :
  (forall q, (decode_open (pdec_init payload)).1 = Some q -> inside (or_final q)) ->
  keeps (handle_open payload).
Proof.
  intros Hin. unfold handle_open. pose proof (decode_open_fid (pdec_init payload)) as Hfid.
  destruct (decode_open _).1 as [q|]; [|auto with keeps].
  specialize (Hin q eq_refl). specialize (Hfid q eq_refl).
  intros s g Hs. wp_step. apply keeps_at; [done|done|]. intros [|]; simpl; [|by wp_step].
  wp_step. apply wp_resolve; [done|]. intros [out|e] Hr Hb; [|apply push_closed; try done; by left].
  specialize (Hb out eq_refl). pose proof (below_confined _ _ Hb) as Hco.
  assert (Hfin : snprintf_s PATH_MAX out = out).
  { apply snprintf_s_id. by destruct Hb as (? & _ & _ & _ & ?). }
  destruct (inside_parent _ _ Hin (eq_sym Hr) Hb) as (dir & base & -> & Hbd & Hpl).
  wp_step. eapply wpM_quiet; [by apply quiet_ensure|]. intros re s1 E1.
  apply (sinv_core _ _ s1) in Hs; [|done].
  destruct re as [[]|e]; [|apply push_closed; simpl; try rewrite Hfin; try done; by left].
  wp_step. wp_step. set (inplace := has_bits (or_flags q) ECOPY_OPEN_INPLACE).
  wp_step. apply (wpM_mono (confine rs) _ _ _ (fun g' tmp s' => g' = g /\ s' = s1 /\
    confined rs (snprintf_s PATH_MAX tmp))).
  { destruct inplace; [wp_step; by rewrite Hfin|]. wp_step. apply keeps_at; [done|done|].
    intros pid. wp_step. split_and!; [done|done|by apply open_tmp_confined]. }
  intros g' tmp s' (-> & -> & Htmp).
  destruct (negb inplace && _); [apply push_closed; simpl; by rewrite ?Hfin|].
  wp_step. apply wp_open_maybe_direct; [done|]. intros g2 [[fd direct]|e] H2.
  - destruct H2 as (-> & Hn & Hpos). wp_step. eapply wpM_quiet.
    { apply quiet_when. intros _. apply quiet_preallocate. eexists. apply lookup_insert_eq. }
    intros [] s3 E3. apply (sinv_core _ _ s3) in Hs; [|done].
    apply (push_open (set_f_direct direct (set_f_fd fd _))); simpl; by rewrite ?Hfin.
  - subst g2. apply push_closed; simpl; by rewrite ?Hfin.
Qed.

(** A healthy entry's descriptor is open. *)
Lemma found_opened id s g f :
  sinv s g -> file_find id (g_files s) = Some f -> 0 <= f_fd f -> opened g (f_fd f).
Proof.
  intros (_ & X & Hd & Hf) Hff Hpos. assert (opened X (f_fd f)) as [p Hp].
  { apply Hf. by eapply owned_find. }
  exists p. eapply lookup_weaken; [done|apply Hd].
Qed.

Lemma keeps_update id u :
  (forall f, f_fd (u f) = f_fd f /\ f_tmp_path (u f) = f_tmp_path f /\ f_final_path (u f) = f_final_path f) ->
  keeps (update_file id u).
Proof.
  intros Hu s g (Hr & X & Hd & Hf). unfold update_file. wp_step. split; [done|].
  exists X. split; [done|]. by apply files_ok_update.
Qed.

Lemma keeps_handle_ftruncate payload : keeps (handle_ftruncate payload).
Proof.
  unfold handle_ftruncate. destruct (_ (pdec_init payload)).1 as [fid size]. intros s g Hs.
  wp_step. wp_step. destruct (file_find fid (g_files s)) as [f|] eqn:Hf; [|by wp_step].
  destruct (f_failed f || bool_decide (f_fd f < 0)) eqn:Hbad; [by wp_step|].
  apply orb_false_iff in Hbad as [_ Hpos]. apply bool_decide_eq_false in Hpos.
  wp_step. apply keeps_at; [eapply found_opened; [done|done|lia]|done|].
  intros [[]|e]; [by wp_step|]. by apply keeps_update.
Qed.

Lemma pwrite_loops_confined fuel fd data dn off g :
  opened g fd ->
  wp (confine rs) (direct_loop fuel fd data dn off) g (fun g' _ => g' = g) /\
  wp (confine rs) (buffered_loop fuel fd data dn off) g (fun g' _ => g' = g).
Proof.
  intros Ho. revert data dn. induction fuel as [|n IH]; intros [|b l] dn; simpl; try done.
  split; (split; [done|]); intros [w|e] _; repeat (case_decide; simpl; try done); by apply IH.
Qed.

(** Programs that keep the invariant and the descriptors. *)
Definition steady {A} (c : SM A) (s : server) (g : fdmap) : Prop :=
  wpM (confine rs) c s g (fun g' _ s' => g' = g /\ sinv s' g').

Lemma steady_quiet {A} (c : SM A) s g : quiet rs c g -> sinv s g -> steady c s g.
Proof. intros Hq Hs. eapply wpM_quiet; [done|]. intros a s' Hc. split; [done|]. by eapply sinv_core. Qed.

Lemma steady_bind {A B} (c : SM A) (f : A -> SM B) s g :
  steady c s g -> (forall a s', sinv s' g -> steady (f a) s' g) -> steady (c ≫= f) s g.
Proof.
  intros Hc Hf. unfold steady. wp_step. eapply wpM_mono; [exact Hc|]. intros g' a s' [-> Hs']. by apply Hf.
Qed.

Lemma steady_update id u s g :
  (forall f, f_fd (u f) = f_fd f /\ f_tmp_path (u f) = f_tmp_path f /\ f_final_path (u f) = f_final_path f) ->
  sinv s g -> steady (update_file id u) s g.
Proof. intros Hu Hs. pose proof (keeps_update id u Hu s g Hs) as H. unfold steady, update_file in *. by split. Qed.

Lemma steady_drop_direct f s g : opened g (f_fd f) -> sinv s g -> steady (drop_direct f) s g.
Proof.
  intros Ho Hs. unfold drop_direct. apply steady_bind; [apply steady_quiet; [quiet_tac|done]|].
  intros fl s1 H1. apply steady_bind; [apply steady_quiet; [quiet_tac|done]|].
  intros [] s2 H2. by apply steady_update.
Qed.

Lemma steady_write_direct eintr f data off t0 s g :
  opened g (f_fd f) -> sinv s g -> steady (write_direct eintr f data off t0) s g.
Proof.
  intros Ho Hs. unfold write_direct. destruct (f_direct f); simpl; [|by apply steady_quiet; [quiet_tac|]].
  assert (Hdrop : forall s, sinv s g -> steady (drop_direct f;; mret false) s g).
  { intros s' Hs'. apply steady_bind; [by apply steady_drop_direct|]. intros [] ? ?.
    by apply steady_quiet; [quiet_tac|]. }
  destruct (negb _); [by apply Hdrop|].
  apply steady_bind; [by apply steady_quiet; [apply quiet_wbuf|]|]. intros [|] s1 H1; simpl; [|by apply Hdrop].
  apply steady_bind.
  { apply steady_quiet; [|done]. apply quiet_lift. by apply pwrite_loops_confined. }
  intros [dn [| |err]] s2 H2; [by apply steady_quiet; [quiet_tac|]|by apply Hdrop|].
  apply steady_bind; [by apply steady_update|]. intros [] s3 H3. by apply steady_quiet; [quiet_tac|].
Qed.

Lemma keeps_handle_write eintr payload : keeps (handle_write eintr payload).
Proof.
  unfold handle_write. case_decide; [auto with keeps|].
  destruct (_ (pdec_init payload)).1 as [fid offset]. intros s g Hs.
  wp_step. wp_step. destruct (file_find fid (g_files s)) as [f|] eqn:Hf; [|by wp_step].
  destruct (f_failed f || bool_decide (f_fd f < 0)) eqn:Hbad; [by wp_step|].
  apply orb_false_iff in Hbad as [_ Hpos]. apply bool_decide_eq_false in Hpos.
  assert (Ho : opened g (f_fd f)) by (eapply found_opened; [done|done|lia]).
  match goal with |- wpM _ ?c _ _ _ => cut (steady c s g) end.
  { intros Hst. eapply wpM_mono; [exact Hst|]. by intros g' a s' [_ Hs']. }
  apply steady_bind; [by apply steady_quiet; [apply quiet_ns|]|]. intros t0 s1 H1.
  apply steady_bind; [by apply steady_write_direct|]. intros [|] s2 H2; [by apply steady_quiet; [quiet_tac|]|].
  apply steady_bind.
  { apply steady_quiet; [|done]. apply quiet_lift. by apply pwrite_loops_confined. }
  intros [dn e] s3 H3. apply steady_bind.
  { destruct e; [by apply steady_update|by apply steady_quiet; [quiet_tac|]]. }
  intros [] s4 H4. by apply steady_quiet; [quiet_tac|].
Qed.

Lemma found_confined id s g f :
  sinv s g -> file_find id (g_files s) = Some f -> confined rs (f_tmp_path f) /\ confined rs (f_final_path f).
Proof.
  intros (_ & X & _ & Hf) Hff. apply file_find_Some in Hff as [_ Hin].
  exact (proj1 (list.Forall_forall _ _) (fo_paths _ _ Hf) f Hin).
Qed.

(** Close the descriptor of an entry and forget it. *)
Lemma sinv_give_up id s g f l' :
  sinv s g -> file_find id (g_files s) = Some f -> 0 <= f_fd f ->
  (l' = file_remove id (g_files s) \/ l' = file_update id (set_f_fd (-1)) (g_files s)) ->
  sinv (set_g_files l' s) (delete (f_fd f) g).
Proof.
  intros (Hr & X & Hd & Hf) Hff Hpos Hl. split; [done|]. exists (delete (f_fd f) X).
  split; [|by eapply files_ok_minus].
  eapply cache_ok_fds, Hd. apply dfd_ok_close; [|apply Hd]. apply Hf. by eapply owned_find.
Qed.

Lemma sinv_remove_closed id s g f :
  sinv s g -> file_find id (g_files s) = Some f -> f_fd f < 0 ->
  sinv (set_g_files (file_remove id (g_files s)) s) g.
Proof.
  intros (Hr & X & Hd & Hf) Hff Hneg. split; [done|]. exists X. split; [done|]. by eapply files_ok_remove_closed.
Qed.

Lemma file_find_forget id l f :
  file_find id l = Some f -> file_find id (file_update id (set_f_fd (-1)) l) = Some (set_f_fd (-1) f).
Proof.
  induction l as [|x l IH]; simpl; [done|]. case_decide as Hx.
  - intros [= ->]. simpl. by rewrite decide_True.
  - intros Hf. simpl. rewrite decide_False by done. auto.
Qed.

Lemma core_files s s' : core s' = core s -> g_files s' = g_files s.
Proof. unfold core. by intros [=]. Qed.

(** What is known once COMMIT has its status: a success has given the
    descriptor back already. *)
Definition committed (id : Z) (f0 : open_file) (g : fdmap) (status : Z) (s : server) : Prop :=
  sinv s g /\ exists f, file_find id (g_files s) = Some f /\ f_tmp_path f = f_tmp_path f0 /\
    (status = 0 -> f_fd f < 0).

Lemma commit_file_confined id f m s g :
  sinv s g -> file_find id (g_files s) = Some f -> 0 <= f_fd f ->
  wpM (confine rs) (commit_file f m) s g (fun g' st s' => committed id f g' st s').
Proof.
  intros Hs Hff Hpos. destruct (file_find_Some _ _ _ Hff) as [Hid _].
  pose proof (found_opened _ _ _ _ Hs Hff Hpos) as Ho.
  destruct (found_confined _ _ _ _ Hs Hff) as [Htmp Hfin]. unfold commit_file.
  wp_step. eapply wpM_quiet; [apply quiet_ns|]. intros t0 s1 E1.
  wp_step. apply keeps_at; [done|done|]. intros r1.
  wp_step. eapply wpM_quiet; [apply quiet_drain_ns|]. intros [] s2 E2.
  wp_step. eapply (wpM_quiet rs _ _ _ (fun g' r s' =>
    wpM (confine rs) _ s' g' (fun g' st s' => committed id f g' st s'))).
  { case_decide; [|apply quiet_ret]. apply quiet_bind; [by apply quiet_apply_meta|].
    intros [st op]. apply quiet_ret. }
  intros st s3 E3. assert (E : core s3 = core s) by congruence.
  assert (Hs3 : sinv s3 g) by (by eapply sinv_core).
  rewrite <- (core_files _ _ E) in Hff.
  wp_step. wp_call r2 Hr2. unfold update_file. wp_step. wp_step. rewrite Hid. cbn [confine_upd mupd confine].
  pose proof (sinv_give_up _ _ _ _ _ Hs3 Hff Hpos (or_intror eq_refl)) as Hs4.
  pose proof (file_find_forget _ _ _ Hff) as Hff4.
  assert (Hdone : forall st, committed id f (delete (f_fd f) g) st
    (set_g_files (file_update id (set_f_fd (-1)) (g_files s3)) s3)).
  { intros st'. split; [done|]. eexists. split; [exact Hff4|]. by split. }
  destruct (bool_decide (status_of st r2 = 0) && _); [|by wp_step].
  wp_step. apply keeps_at; [done|done|]. intros r. by wp_step.
Qed.

Lemma keeps_handle_commit eintr id payload : keeps (handle_commit eintr id payload).
Proof.
  unfold handle_commit. destruct (decode_commit _).1 as [fid m]. intros s g Hs.
  wp_step. wp_step. destruct (file_find fid (g_files s)) as [f|] eqn:Hff; [|by apply keeps_reply_status].
  destruct (found_confined _ _ _ _ Hs Hff) as [Htmp _].
  wp_step. apply (wpM_mono (confine rs) _ _ _ (fun g' st s' => committed fid f g' st s')).
  { destruct (f_failed f).
    - wp_step. split; [done|]. exists f. split_and!; [done|done|]. by case_decide.
    - case_decide; [|by apply commit_file_confined; [| |lia]].
      wp_step. split; [done|]. exists f. by split_and!. }
  intros g1 st s1 (Hs1 & f1 & Hf1 & Htp & Hz). wp_step. wp_step. rewrite Hf1.
  wp_step. apply (wpM_mono (confine rs) _ _ _ (fun g' _ s' => sinv s' g' /\
    exists f, file_find fid (g_files s') = Some f /\ f_fd f < 0)).
  { apply wpM_when; intros Hb.
    - apply andb_true_iff in Hb as [_ Hpos]. apply bool_decide_eq_true in Hpos.
      wp_call r Hr; [by eapply found_opened|]. unfold update_file. wp_step. split.
      + eapply sinv_give_up; [done|done|done|by right].
      + eexists. split; [by apply file_find_forget|done].
    - apply andb_false_iff in Hb. split; [done|]. exists f1. split; [done|].
      destruct Hb as [Hb|Hb]; apply bool_decide_eq_false in Hb; [|lia].
      apply Hz. by apply dec_stable. }
  intros g2 [] s2 (Hs2 & f2 & Hf2 & Hneg). wp_step. eapply wpM_quiet.
  { apply quiet_when. intros _. apply quiet_bind; [by apply quiet_call|]. intros ?. apply quiet_ret. }
  intros [] s3 E3. wp_step. eapply wpM_quiet; [apply quiet_reply_status|]. intros ok s4 E4.
  assert (E : core s4 = core s2) by congruence. rewrite <- (core_files _ _ E) in Hf2.
  unfold remove_file. wp_step. wp_step. wp_step. eapply sinv_remove_closed; [|done|done].
  by eapply sinv_core.
Qed.

Lemma keeps_handle_abort payload : keeps (handle_abort payload).
Proof.
  unfold handle_abort. set (fid := (pdec_u64 _).1). intros s g Hs.
  wp_step. wp_step. destruct (file_find fid (g_files s)) as [f|] eqn:Hff; [|by wp_step].
  destruct (found_confined _ _ _ _ Hs Hff) as [Htmp _].
  assert (Hrest : forall g', sinv (set_g_files (file_remove fid (g_files s)) s) g' ->
    wpM (confine rs) (when (negb (f_inplace f)) (_ ← call (unlink (f_tmp_path f)); mret tt);;
      remove_file fid) s g' (fun g' _ s' => sinv s' g')).
  { intros g' Hs'. wp_step. apply wpM_when; intros _; [wp_call r Hr; wp_step|]; unfold remove_file; by wp_step. }
  wp_step. apply wpM_when; intros Hb.
  - apply bool_decide_eq_true in Hb. wp_call r Hr; [by eapply found_opened|]. wp_step. apply Hrest.
    eapply sinv_give_up; [done|done|done|by left].
  - apply bool_decide_eq_false in Hb. apply Hrest. eapply sinv_remove_closed; [done|done|lia].
Qed.

(** ** Every frame *)

(** The requests the confinement argument covers: a created object lies
    strictly below the root, and the names of a bulk query do not climb. *)
Definition frame_ok (type : Z) (payload : bytes) : Prop :=
  match msg_of_code type with
  | Some MSG_OPEN => forall q, (decode_open (pdec_init payload)).1 = Some q -> inside (or_final q)
  | Some MSG_PUTFILE => forall q, decode_putfile payload = Some q -> inside (pr_final q)
  | Some MSG_SYMLINK => forall q, (decode_symlink (pdec_init payload)).1 = Some q -> inside (sr_link q)
  | Some MSG_LINK => forall p q, (decode_link (pdec_init payload)).1 = Some (p, q) -> inside q
  | Some MSG_STAT_BULK =>
      Forall (fun nm => DOTDOT ∉ tokens nm)
        (let d := (pdec_str PATH_MAX (pdec_init payload)).2 in
         bulk_names (Z.to_nat (pdec_u32 d).1) (pdec_u32 d).2)
  | _ => True
  end.

Lemma keeps_fire c : keeps c -> keeps (fire c).
Proof. intros Hc. apply keeps_bind; [done|]. intros _. apply keeps_ret. Qed.
Lemma keeps_replied c : keeps c -> keeps (replied c).
Proof. intros Hc. apply keeps_bind; [done|]. intros ok. apply keeps_ret. Qed.
Hint Resolve keeps_fire keeps_replied keeps_handle_hello keeps_handle_open keeps_handle_write
  keeps_handle_ftruncate keeps_handle_commit keeps_handle_abort keeps_handle_putfile keeps_handle_mkdir
  keeps_handle_stat keeps_handle_stat_bulk keeps_handle_setmeta keeps_handle_verify keeps_handle_barrier
  keeps_handle_unlink keeps_handle_symlink keeps_handle_link : keeps.

Lemma keeps_dispatch eintr h start type id payload :
  frame_ok type payload -> keeps (dispatch eintr h start type id payload).
Proof.
  unfold frame_ok, dispatch. destruct (msg_of_code type) as [[]|]; intros H; auto with keeps.
Qed.

(** ** Shutdown *)

Lemma close_entries_confined l c g X :
  dfd_ok rs c g X -> wpM (confine rs) (close_entries l) c g (fun g' _ c' => dfd_ok rs c' g' X).
Proof.
  revert c g. induction l as [|a l IH]; intros c g Hok; simpl; [by wp_step|].
  wp_step. wp_step. destruct (dfd_heap c !! a) as [en|] eqn:Ha; [|done].
  wp_call r Hr; [destruct (do_heap _ _ _ _ Hok a en Ha) as (? & _); by eexists|].
  wp_step. wp_step. apply IH. by eapply (dfd_ok_ext _ (dfd_drop a en c)), dfd_ok_drop.
Qed.

(** The cache gives back everything it opened. *)
Lemma destroy_confined c g X :
  dfd_ok rs c g X -> dfd_wf c ->
  wpM (confine rs) dir_fd_cache_destroy c g (fun g' _ c' => X ⊆ g' /\ forall fd, opened g' fd -> opened X fd).
Proof.
  intros Hok Hwf.
  eapply wpM_mono; [apply (wpM_free_and (confine rs)); [by apply dir_fd_cache_destroy_wf|]|].
  - unfold dir_fd_cache_destroy. wp_step. wp_step. wp_step.
    eapply wpM_mono; [by apply close_entries_confined|]. intros g' [] c' Hok'. wp_step.
    instantiate (1 := fun g' _ c' => dfd_ok rs c' g' X). by eapply dfd_ok_ext, Hok'.
  - intros g' [] c' [Hok' [Hempty _]]. split; [apply Hok'|]. intros fd Hfd.
    destruct (do_all _ _ _ _ Hok' fd Hfd) as [?|(a & en & Ha & _)]; [done|]. by rewrite Hempty in Ha.
Qed.

Lemma cleanup_confined l s X :
  files_ok l X -> wpM (confine rs) (cleanup_files l) s X (fun g' _ s' => g' = (∅ : fdmap) /\ g_files s' = []).
Proof.
  revert s X. induction l as [|f l IH]; intros s X Hf; cbn [cleanup_files].
  { wp_step. split; [|done]. change (X = (∅ : fdmap)). apply map_eq. intros fd. rewrite lookup_empty.
    destruct (X !! fd) as [p|] eqn:He; [|done].
    assert (fd ∈ owned []) by (apply Hf; by exists p). set_solver. }
  assert (Hfind : file_find (f_id f) (f :: l) = Some f) by (simpl; by rewrite decide_True).
  assert (Hrm : file_remove (f_id f) (f :: l) = l) by (simpl; by rewrite decide_True).
  destruct (Forall_inv (fo_paths _ _ Hf)) as [Htmp _].
  assert (Hrest : forall X s, files_ok l X -> wpM (confine rs)
    (when (negb (f_inplace f) && bool_decide (f_tmp_path f <> []))
       (_ ← call (unlink (f_tmp_path f)); mret tt);; cleanup_files l) s X
    (fun g' _ s' => g' = (∅ : fdmap) /\ g_files s' = [])).
  { intros X' s' HX'. wp_step. apply wpM_when; intros _; [wp_call r Hr; wp_step|]; by apply IH. }
  wp_step. apply wpM_when; intros Hb.
  - apply bool_decide_eq_true in Hb. wp_call r Hr; [apply Hf; by eapply owned_find|].
    wp_step. apply Hrest. rewrite <- Hrm. eapply files_ok_minus; [done|done|by left|done].
  - apply bool_decide_eq_false in Hb. apply Hrest. rewrite <- Hrm.
    eapply files_ok_remove_closed; [done|lia|done].
Qed.

Lemma shutdown_confined bye s g :
  sinv s g ->
  wpM (confine rs) (server_shutdown bye) s g (fun g' _ s' =>
    if bye then forall fd, opened g' fd -> fd ∈ owned (g_files s) else g' = (∅ : fdmap)).
Proof.
  intros (Hr & X & [Hd Hwf _ _] & Hf). unfold server_shutdown. wp_step. wp_step. wp_step. apply wpM_zoom.
  eapply wpM_mono; [by apply destroy_confined|]. intros g1 [] c1 [Hsub Hall].
  wp_step. apply wpM_zoom. wp_step. wp_step. destruct bye.
  - repeat wp_step_pure. intros fd Hfd. by apply Hf, Hall.
  - wp_step. wp_step. assert ((g1 : fdmap) = X) as ->.
    { apply (map_eq (M := gmap Z) (A := bytes)). intros fd. destruct (X !! fd) as [p|] eqn:He; [by eapply lookup_weaken|].
      destruct (g1 !! fd) as [p|] eqn:Hg; [|done]. destruct (Hall fd) as [q Hq]; [by exists p|congruence]. }
    eapply wpM_mono; [by apply cleanup_confined|]. intros g' [] s' [-> _]. by wp_step.
Qed.
End server.

(** A freshly configured server satisfies the invariant. *)
Lemma sinv_start rs s cap :
  g_root_norm (s_cfg s) = render rs -> g_files s = [] -> s_dfd s = set_g_dfd_cap cap dfdcache0 -> 0 <= cap ->
  sinvP rs None s ∅.
Proof.
  intros Hr Hf Hd Hc. split; [done|]. exists ∅. simpl. rewrite Hd, Hf. split.
  - split; [|apply dfd_wf_start|done|done].
    split; [done|by intros ? ? Ha; simpl in Ha; simplify_map_eq|by intros ? ? ? ? Ha; simpl in Ha; simplify_map_eq| |].
    + intros fd [p Hp]. simplify_map_eq.
    + intros a [en Ha]. simpl in Ha. simplify_map_eq.
  - split; [|constructor|constructor]. intros fd. split; [|set_solver]. intros [p Hp]. by rewrite lookup_empty in Hp.
Qed.

(** * Theorems *)

(** C1.  Confinement and descriptor hygiene of every request: from a
    state in which all open descriptors are owned and no directory handle is
    pinned, applying any frame that creates its object strictly below the root
    (and whose bulk names do not climb) touches only paths below the root,
    uses only open descriptors, and ends in such a state again: no descriptor
    and no pin leaks, on any error path. *)
Theorem dispatch_confined rs eintr h start type id payload s g :
  Forall proper rs -> frame_ok rs type payload -> sinvP rs None s g ->
  wpM (confine rs) (dispatch eintr h start type id payload) s g (fun g' _ s' => sinvP rs None s' g').
Proof. intros Hrs Hf. by apply keeps_dispatch. Qed.

(** The configured server of the examples: root "/srv/dst". *)
Definition srv_root : list bytes := [str "srv"; str "dst"].
Definition srv : server :=
  set_s_dfd (set_g_dfd_cap 16 dfdcache0) (set_s_cfg (set_g_root_norm (render srv_root) config0) server0).

Lemma srv_proper : Forall proper srv_root.
Proof. apply (bool_decide_unpack _). by vm_compute. Qed.

(** A PUTFILE payload: metadata, flags, parent mode, path, data. *)
Definition put_payload (path data : bytes) : bytes :=
  let e := penc_u32 (penc_u32 (penc_u32 (penc_init 8192) 420) 0) 0 in
  let e := penc_i64 (penc_i64 (penc_i64 (penc_i64 e 0) 0) 0) 0 in
  pe_buf (penc_str (penc_u32 (penc_u32 e 0) 493) path) ++ data.

Lemma dispatch_confined_witness :
  wpM (confine srv_root)
    (dispatch 3 (fun d => d) (fun _ => None) 17 0 (put_payload (str "/srv/dst/d/f") (str "hello"))) srv ∅
    (fun g' _ s' => sinvP srv_root None s' g').
Proof.
  apply dispatch_confined; [apply srv_proper| |by apply (sinv_start _ _ 16)].
  intros q Hq. vm_compute in Hq. injection Hq as <-. unfold inside. by vm_compute.
Defined.

(** Shutdown gives everything back: when the channel ends without
    BYE, no descriptor stays open; after BYE only those of unfinished streamed
    files do. *)
Theorem server_shutdown_closes rs bye s g :
  Forall proper rs -> sinvP rs None s g ->
  wpM (confine rs) (server_shutdown bye) s g (fun g' _ s' =>
    if bye then forall fd, opened g' fd -> fd ∈ owned (g_files s) else g' = (∅ : fdmap)).
Proof. intros. by apply shutdown_confined. Qed.

Lemma server_shutdown_closes_witness :
  wpM (confine srv_root) (server_shutdown false) srv ∅ (fun g' _ _ => g' = (∅ : fdmap)).
Proof.
  apply (server_shutdown_closes srv_root false); [apply srv_proper|by apply (sinv_start _ _ 16)].
Defined.

(** ** Where the confinement argument stops

    Two requests the server accepts and that reach outside the root. *)

(** The paths a run opened or looked at. *)
Definition paths_of (log : list event) : list bytes :=
  omap (fun e => match projT2 e with
                 | open p _ _ | mkdir p _ | lstat p => Some p
                 | openat _ n _ _ => Some n
                 | _ => None
                 end) log.

(** A PUTFILE whose path is the root itself makes its temp file in the
    directory above the root. *)
Example putfile_on_root_escapes :
  (fun r => paths_of r.2) <$> simulate (handle_putfile 3 (put_payload (str "/srv/dst") (str "x"))) srv [] =
  Some [str "/srv"; str "/srv"; str ".ecopy.tmp.0.p1"].
Proof. by vm_compute. Qed.

(** A STAT_BULK name may climb out of the confined base directory. *)
Example stat_bulk_escapes :
  let payload := pe_buf (penc_str (penc_u32 (penc_str (penc_init 256) (str "/srv/dst")) 1) (str "../../etc/shadow")) in
  (fun r => paths_of r.2) <$> simulate (handle_stat_bulk 3 0 payload) srv [] =
  Some [str "/srv/dst/../../etc/shadow"].
Proof. by vm_compute. Qed.
