(* ===== verification/Durability.v ===== *)
(** What COMMIT and WRITE promise about the stored file.

    [commit_mon] watches one streamed file through COMMIT: its fsync, its
    metadata calls, its close, the rename onto the final name, the removal of
    the temp file and what goes to standard output.  The rename is permitted
    only once everything before it has succeeded. [disk] gives the descriptor's
    contents as a map from offsets to bytes and follows the positioned writes. *)

From S2P Require Export ServerMain MetaOk.

(** * COMMIT *)

Record cstate := Cstate {
  cs_out : bytes;          (* bytes accepted on standard output *)
  cs_synced : bool;        (* fsync has succeeded *)
  cs_meta : mghost;        (* what the metadata calls have done *)
  cs_closed : bool;        (* the descriptor has been given up *)
  cs_close_ok : bool;      (* ... and close reported success *)
  cs_renamed : bool;
  cs_unlinked : option bool; (* an unlink of the temp file, and whether it succeeded *)
  cs_intr : nat            (* interruptions of write still to come *)
}.

(** At the start of a COMMIT of [f]. *)
Definition cstate0 (f : open_file) (intr : nat) : cstate :=
  Cstate [] false (MG true None nothing_done) (bool_decide (f_fd f < 0)) false false None intr.

Definition with_cmeta (a : mghost) (g : cstate) : cstate :=
  Cstate (cs_out g) (cs_synced g) a (cs_closed g) (cs_close_ok g) (cs_renamed g) (cs_unlinked g) (cs_intr g).

Section commit.
Context (fd : Z) (tmp final : bytes) (cfg : config) (m : meta).

(** The file carries [m]: no call failed hard, its permission bits are those of
    [m], and its times and ownership were set as far as the server may. *)
Definition meta_set (g : cstate) : Prop :=
  mg_ok (cs_meta g) = true /\ mg_mode (cs_meta g) = Some (mt_mode m &. o07777) /\ applied cfg m (mg_done (cs_meta g)).

Definition commit_pre (g : cstate) R (e : posix R) : Prop :=
  match e with
  | fsync d | fchown d _ _ | fchmod d _ | futimens d _ _ | close d => d = fd /\ cs_closed g = false
  | rename p q => p = tmp /\ q = final /\ cs_synced g = true /\ meta_set g /\ cs_close_ok g = true
  | unlink p => p = tmp /\ cs_renamed g = false
  | write d _ => d = STDOUT_FILENO /\ cs_closed g = true
  | getenv _ | clock_gettime | eprintf _ => True
  | _ => False
  end.

(** Errors are positive numbers; a write accepts part of what it is given. *)
Definition res_adm {A} (r : res A) : Prop := match r with Ok _ => True | Err e => 0 < e end.
Definition commit_adm (g : cstate) R (e : posix R) : R -> Prop :=
  match e in posix R return R -> Prop with
  | fsync _ | fchown _ _ _ | fchmod _ _ | futimens _ _ _ | close _ | rename _ _ | unlink _ => res_adm
  | write _ d => fun r => match r with Ok w => 0 <= w <= zlen d | Err e => 0 < e /\ (e = EINTR -> (0 < cs_intr g)%nat) end
  | _ => fun _ => True
  end.

Definition commit_upd (g : cstate) R (e : posix R) : R -> cstate :=
  let '(Cstate out synced meta closed close_ok renamed unlinked intr) := g in
  match e in posix R return R -> cstate with
  | fsync _ => fun r => Cstate out (is_ok r) meta closed close_ok renamed unlinked intr
  | fchown d u v => fun r => with_cmeta (meta_upd meta _ (fchown d u v) r) g
  | fchmod d p => fun r => with_cmeta (meta_upd meta _ (fchmod d p) r) g
  | futimens d a t => fun r => with_cmeta (meta_upd meta _ (futimens d a t) r) g
  | getenv n => fun r => with_cmeta (meta_upd meta _ (getenv n) r) g
  | close _ => fun r => Cstate out synced meta true (is_ok r) renamed unlinked intr
  | rename _ _ => fun r => Cstate out synced meta closed close_ok (is_ok r) unlinked intr
  | unlink _ => fun r => Cstate out synced meta closed close_ok renamed (Some (is_ok r)) intr
  | write _ d => fun r =>
      match r with
      | Ok w => Cstate (out ++ take (Z.to_nat w) d) synced meta closed close_ok renamed unlinked intr
      | Err e => Cstate out synced meta closed close_ok renamed unlinked
                   (if decide (e = EINTR) then pred intr else intr)
      end
  | _ => fun _ => g
  end.

Definition commit_mon : monitor posix := Monitor cstate commit_pre commit_adm commit_upd False.

(** ** Programs that only read clocks or warn *)

Definition idle {A} (c : SM A) : Prop :=
  forall s g, wpM commit_mon c s g (fun g' _ s' => g' = g /\ s_cfg s' = s_cfg s /\ g_files s' = g_files s).

Lemma idle_ns : idle server_ns.
Proof. intros s g. unfold server_ns. wp_call r Hr. wp_step. by destruct g. Qed.
Lemma idle_drain_ns t : idle (add_drain_ns t).
Proof.
  intros s g. unfold add_drain_ns. wp_step. eapply wpM_mono; [apply idle_ns|].
  intros g' t1 s' (-> & H1 & H2). by wp_step.
Qed.
(** Metadata succeeds exactly when no call fails hard, and then it is all there. *)
Lemma apply_meta_commit s g :
  cs_closed g = false -> mg_ok (cs_meta g) = true -> s_cfg s = cfg ->
  wpM commit_mon (apply_meta fd m false) s g (fun g' r s' =>
    exists a, g' = with_cmeta a g /\ g_files s' = g_files s /\ (r.1 <> 0 \/ r.1 = 0 /\ meta_set g')).
Proof.
  intros Hc Hm Hcfg. pose (R := fun (a : mghost) (c : cstate) => c = with_cmeta a g).
  eapply wpM_mono; [eapply (wpM_sim (metadata fd) commit_mon R) with (g := cs_meta g); [| |unfold R; by destruct g|by apply apply_meta_ok]|].
  - intros [ok mo [ow ti ho]] c T e -> Hp. destruct e; cbn in Hp; try done; (split; [done|]); intros r Hr; (split; [exact Hr|done]).
  - done.
  - intros g' r s' (a & -> & (Hf & _) & _ & Hr & Ha). exists a. split_and!; [done|done|]. destruct (decide (r.1 = 0)) as [H0|]; [right|by left].
    apply Hr in H0 as H1. split; [done|]. destruct (Ha H1) as [Ha1 Ha2]. split; [exact H1|]. rewrite Hcfg in Ha1. by split.
Qed.

(** ** The reply *)

(** Only standard output and the interruption count move. *)
Definition same_but_out (g g' : cstate) : Prop :=
  g' = Cstate (cs_out g') (cs_synced g) (cs_meta g) (cs_closed g) (cs_close_ok g) (cs_renamed g) (cs_unlinked g)
         (cs_intr g') /\ (cs_intr g' <= cs_intr g)%nat.

Lemma write_loop_commit fuel data g :
  cs_closed g = true -> (length data + cs_intr g <= fuel)%nat ->
  wp commit_mon (write_loop fuel STDOUT_FILENO data) g (fun g' ok =>
    same_but_out g g' /\ (ok = true -> cs_out g' = cs_out g ++ data)).
Proof.
  revert data g. induction fuel as [|n IH]; intros data [o sy me cl co re un ni] Hc Hf; simpl in Hc; subst cl.
  { destruct data; simpl in Hf; [|lia]. simpl. by rewrite app_nil_r. }
  destruct data as [|b data]; simpl; [by rewrite app_nil_r|]. split; [done|]. intros [w|e]; simpl.
  - intros Hw. case_decide as Hz; simpl.
    { rewrite Hz. simpl. rewrite app_nil_r. by split. }
    eapply wp_mono; [apply IH; [done|cbn [cs_intr] in *; rewrite length_drop; cbn [length] in *; lia]|].
    intros g' ok [[H1 H2] H3]. simpl in *. split; [by split|]. intros Hok. rewrite (H3 Hok), <- (assoc_L (++)). f_equal.
    apply take_drop.
  - intros [Hpos Hi]. case_decide as He; simpl.
    + specialize (Hi He). destruct ni as [|ni]; [simpl in Hi; lia|]. eapply wp_mono; [apply IH; [done|simpl in *; lia]|].
      intros g' ok [[H1 H2] H3]. simpl in *. split; [split; [done|simpl; lia]|done].
    + split; [by split|done].
Qed.

Lemma reply_status_commit eintr id st s g :
  cs_closed g = true -> (cs_intr g <= eintr)%nat ->
  wpM commit_mon (reply_status eintr id st) s g (fun g' ok s' =>
    s' = s /\ same_but_out g g' /\
    (ok = true -> cs_out g' = cs_out g ++ encode_header (msg_code MSG_STATUS) id 4 ++ u32_bytes (u32 st))).
Proof.
  intros Hc Hi. unfold reply_status. apply wpM_lift.
  set (pl := pe_buf _). assert (pl = u32_bytes (u32 st)) as -> by done. unfold frame_write.
  apply wp_bind. eapply wp_mono; [apply write_loop_commit; [done|simpl; lia]|].
  intros g1 ok [[H1 H2] H3]. destruct ok; cbn [negb]; [|by split_and!].
  specialize (H3 eq_refl). unfold write_segment. rewrite decide_False by done. unfold io_write_all.
  eapply wp_mono; [apply write_loop_commit; [by rewrite H1|lia]|].
  intros g2 ok [[H4 H5] H6]. split; [done|]. split.
  - split; [|lia]. rewrite H4. by rewrite H1.
  - intros Hok. rewrite (H6 Hok), H3. by rewrite <- (assoc_L (++)).
Qed.

(** ** The whole COMMIT *)

(** What the status says about the file. *)
Definition commit_outcome (inplace : bool) (g : cstate) (st : Z) : Prop :=
  (st = 0 /\ cs_synced g = true /\ meta_set g /\ cs_close_ok g = true /\ cs_renamed g = negb inplace)
  \/ (st <> 0 /\ cs_renamed g = false).

Lemma commit_file_commit f s g :
  f_fd f = fd -> f_tmp_path f = tmp -> f_final_path f = final ->
  cs_closed g = false -> mg_ok (cs_meta g) = true -> cs_renamed g = false -> s_cfg s = cfg ->
  wpM commit_mon (commit_file f m) s g (fun g' st s' =>
    commit_outcome (f_inplace f) g' st /\ cs_closed g' = true /\ cs_out g' = cs_out g /\
    cs_unlinked g' = cs_unlinked g /\ cs_intr g' = cs_intr g /\
    g_files s' = file_update (f_id f) (set_f_fd (-1)) (g_files s)).
Proof.
  intros Hfd Htmp Hfin Hc Hm Hre Hcfg. unfold commit_file. rewrite Hfd, Htmp, Hfin.
  wp_step. eapply wpM_mono; [apply idle_ns|]. intros g1 t0 s1 (-> & C1 & F1).
  wp_call r1 Hr1. destruct g as [o sy me cl co re un ni]. simpl in Hc, Hm, Hre. subst cl re. cbn [mupd commit_mon commit_upd].
  wp_step. eapply wpM_mono; [apply idle_drain_ns|]. intros g1 [] s2 (-> & C2 & F2). wp_step.
  apply (wpM_mono commit_mon _ _ _ (fun g' st s' => g_files s' = g_files s /\ exists me,
    g' = Cstate o (is_ok r1) me false co false un ni /\ (st = 0 -> is_ok r1 = true /\ meta_set g'))).
  { destruct r1 as [[]|e1]; simpl in *.
    - wp_step. eapply wpM_mono; [apply apply_meta_commit; [done|done|congruence]|]. cbn beta. intros g3 [st op] s3 (a & -> & F3 & Hst).
      wp_step. split; [congruence|]. exists a. split; [done|]. intros ->. split; [done|]. by destruct Hst as [[]|[_ ?]].
    - rewrite decide_False by lia. wp_step. split; [congruence|]. exists me. split; [done|]. lia. }
  intros g3 st s3 (F3 & me' & -> & Hst). wp_call r2 Hr2. unfold update_file. wp_step. wp_step. simpl.
  assert (Hst2 : status_of st r2 = 0 -> st = 0 /\ is_ok r2 = true).
  { destruct r2 as [[]|e2]; simpl in *; [done|]. case_decide; [lia|done]. }
  destruct (bool_decide (status_of st r2 = 0)) eqn:Hd; simpl.
  - apply bool_decide_eq_true in Hd. destruct (Hst2 Hd) as [H0 E2]. destruct (Hst H0) as [E1 Hset].
    destruct (f_inplace f) eqn:Hin; simpl.
    + wp_step. split_and!; simpl; try done; [|by rewrite F3]. left. by rewrite E1, E2.
    + wp_call r3 Hr3. wp_step. rewrite Hd. split_and!; simpl; try done; [|by rewrite F3].
      destruct r3 as [[]|e3]; simpl in *; [left; by rewrite E1, E2|right]. split; [lia|done].
  - apply bool_decide_eq_false in Hd. wp_step. split_and!; simpl; try done; [by right|by rewrite F3].
Qed.
End commit.

Lemma file_remove_forget id l : file_remove id (file_update id (set_f_fd (-1)) l) = file_remove id l.
Proof.
  induction l as [|x l IH]; simpl; [done|]. case_decide as Hx; simpl.
  - by rewrite decide_True.
  - by rewrite decide_False, IH.
Qed.

Lemma file_find_fd id l f :
  file_find id l = Some f ->
  file_find id (file_update id (set_f_fd (-1)) l) = Some (set_f_fd (-1) f).
Proof.
  induction l as [|x l IH]; simpl; [done|]. case_decide as Hx.
  - intros [= ->]. simpl. by rewrite decide_True.
  - intros Hf. simpl. rewrite decide_False by done. auto.
Qed.

Lemma file_find_id id l f : file_find id l = Some f -> f_id f = id.
Proof. induction l as [|x l IH]; simpl; [done|]. case_decide; [by intros [= ->]|auto]. Qed.


(** A COMMIT payload. *)
Definition commit_payload (fid : Z) (m : meta) : bytes :=
  let e := penc_u32 (penc_u32 (penc_u32 (penc_u64 (penc_init 64) fid) (mt_uid m)) (mt_gid m)) (mt_mode m) in
  pe_buf (penc_i64 (penc_i64 (penc_i64 (penc_i64 e (tv_sec (mt_at m))) (tv_nsec (mt_at m)))
    (tv_sec (mt_mt m))) (tv_nsec (mt_mt m))).

Definition sample_file : open_file :=
  OpenFile 7 5 false false false 0 (str "/srv/dst/.ecopy.tmp.0.7") (str "/srv/dst/f").
Definition sample_meta : meta := Meta 1000 1000 420 (Timespec 5 6) (Timespec 7 8).


(** * WRITE *)

Section disk.
Context (fd : Z).

Abbreviation dstate := (gmap Z byte * nat)%type.

Definition disk_pre (g : dstate) R (e : posix R) : Prop :=
  match e with
  | pwrite d _ _ | fcntl_getfl d | fcntl_setfl d _ => d = fd
  | clock_gettime | malloc _ => True
  | _ => False
  end.
Definition disk_adm (g : dstate) R (e : posix R) : R -> Prop :=
  match e in posix R return R -> Prop with
  | pwrite _ d _ => fun r =>
      match r with Ok w => 0 <= w <= zlen d | Err e => 0 < e /\ (e = EINTR -> (0 < g.2)%nat) end
  | _ => fun _ => True
  end.
Definition disk_upd (g : dstate) R (e : posix R) : R -> dstate :=
  match e in posix R return R -> dstate with
  | pwrite _ d off => fun r =>
      match r with
      | Ok w => (store off (take (Z.to_nat w) d) g.1, g.2)
      | Err e => (g.1, if decide (e = EINTR) then pred g.2 else g.2)
      end
  | _ => fun _ => g
  end.
Definition disk : monitor posix := Monitor dstate disk_pre disk_adm disk_upd False.

(** One accepted piece leaves the rest of the job. *)
Lemma store_piece off dn w d c :
  0 <= w <= zlen d ->
  store (off + (dn + w)) (drop (Z.to_nat w) d) (store (off + dn) (take (Z.to_nat w) d) c) = store (off + dn) d c.
Proof.
  intros Hw. rewrite <- (take_drop (Z.to_nat w) d) at 3. rewrite store_app.
  replace (off + dn + zlen (take (Z.to_nat w) d)) with (off + (dn + w)); [done|].
  unfold zlen in *. rewrite length_take. lia.
Qed.

Lemma direct_loop_disk fuel data dn off c b :
  0 <= dn -> (length data + b <= fuel)%nat ->
  wp disk (direct_loop fuel fd data dn off) (c, b) (fun g r => (g.2 <= b)%nat /\
    match r.2 with
    | DirectDone => g.1 = store (off + dn) data c
    | DirectFellBack => dn = 0 /\ g.1 = c
    | DirectFailed e => e < 0
    end).
Proof.
  revert data dn c b. induction fuel as [|n IH]; intros data dn c b Hdn Hf.
  { destruct data; [done|simpl in Hf; lia]. }
  destruct data as [|x data]; [done|]. cbn [direct_loop wp]. split; [done|]. intros [w|e]; cbn [madm mupd disk disk_adm disk_upd fst snd].
  - intros Hw. case_decide as Hz; [simpl; by split|].
    eapply wp_mono; [apply IH; [lia|rewrite length_drop; cbn [length] in *; lia]|].
    intros g [dn' e] [Hb H]. split; [done|]. cbn [snd] in *. destruct e; [|lia|done].
    rewrite H. by apply store_piece.
  - intros [Hpos Hi]. case_decide as He.
    + specialize (Hi He). destruct b as [|b]; [simpl in Hi; lia|].
      eapply wp_mono; [apply IH; [done|simpl in *; lia]|]. intros g r [Hb H]. simpl in *. split; [lia|done].
    + case_decide as Hfb; cbn [wp snd]; (split; [done|]); [by destruct Hfb|lia].
Qed.

Lemma buffered_loop_disk fuel data dn off c b :
  0 <= dn -> (length data + b <= fuel)%nat ->
  wp disk (buffered_loop fuel fd data dn off) (c, b) (fun g r => (g.2 <= b)%nat /\
    match r.2 with None => g.1 = store (off + dn) data c | Some e => e < 0 end).
Proof.
  revert data dn c b. induction fuel as [|n IH]; intros data dn c b Hdn Hf.
  { destruct data; [done|simpl in Hf; lia]. }
  destruct data as [|x data]; [done|]. cbn [buffered_loop wp]. split; [done|]. intros [w|e]; cbn [madm mupd disk disk_adm disk_upd fst snd].
  - intros Hw. case_decide as Hz; [simpl; by split|].
    eapply wp_mono; [apply IH; [lia|rewrite length_drop; cbn [length] in *; lia]|].
    intros g [dn' e] [Hb H]. split; [done|]. cbn [snd] in *. destruct e; [done|].
    rewrite H. by apply store_piece.
  - intros [Hpos Hi]. case_decide as He.
    + specialize (Hi He). destruct b as [|b]; [simpl in Hi; lia|].
      eapply wp_mono; [apply IH; [done|simpl in *; lia]|]. intros g r [Hb H]. simpl in *. split; [lia|done].
    + cbn [wp snd]. split; [done|lia].
Qed.
End disk.

(** ** The handler *)

(** An update through the pointer to an entry. *)
Lemma file_find_update id u l f :
  (forall f, f_id (u f) = f_id f) -> file_find id l = Some f -> file_find id (file_update id u l) = Some (u f).
Proof.
  intros Hu. induction l as [|x l IH]; simpl; [done|]. case_decide as Hx.
  - intros [= ->]. simpl. by rewrite decide_True by (by rewrite Hu).
  - intros Hf. simpl. rewrite decide_False by done. auto.
Qed.

(** The entry of [fid] is healthy and holds descriptor [fd]. *)
Definition healthy (fid fd : Z) (s : server) : Prop :=
  exists f, file_find fid (g_files s) = Some f /\ f_failed f = false /\ f_fd f = fd /\ f_id f = fid.
Definition broken (fid fd : Z) (s : server) : Prop :=
  exists f, file_find fid (g_files s) = Some f /\ f_failed f = true /\ f_err f < 0 /\ f_fd f = fd.

Lemma healthy_files fid fd s s' : g_files s' = g_files s -> healthy fid fd s -> healthy fid fd s'.
Proof. unfold healthy. by intros ->. Qed.

Lemma healthy_fail fid fd s e :
  e < 0 -> healthy fid fd s -> broken fid fd (set_g_files (file_update fid (set_failed e) (g_files s)) s).
Proof.
  intros He (f & Hf & _ & Hfd & _). exists (set_failed e f). split; [by apply file_find_update|done].
Qed.

Section write.
Context (fid fd : Z).

(** Programs that neither write nor touch the entry. *)
Lemma ns_disk s g : wpM (disk fd) server_ns s g (fun g' _ s' => g' = g /\ s' = s).
Proof. unfold server_ns. wp_call r Hr. by wp_step. Qed.
Lemma drain_disk n t s g :
  wpM (disk fd) (add_drain_bytes n;; add_drain_ns t) s g (fun g' _ s' => g' = g /\ g_files s' = g_files s).
Proof.
  unfold add_drain_bytes, add_drain_ns. wp_step. wp_step. wp_step.
  eapply wpM_mono; [apply ns_disk|]. intros g' a s' [-> ->]. by wp_step.
Qed.

Lemma drop_direct_disk f s g :
  f_fd f = fd -> f_id f = fid -> healthy fid fd s ->
  wpM (disk fd) (drop_direct f) s g (fun g' _ s' => g' = g /\ healthy fid fd s').
Proof.
  intros Hfd Hid Hh. unfold drop_direct. wp_call r Hr. wp_step.
  apply (wpM_mono (disk fd) _ _ _ (fun g' _ s' => g' = g /\ s' = s)).
  { destruct r; [|by wp_step]. wp_call r2 Hr2. by wp_step. }
  intros g' [] s' [-> ->]. unfold update_file. wp_step. split; [done|]. rewrite Hid.
  destruct Hh as (f0 & Hf0 & ? & ? & ?). exists (set_f_direct false f0). split; [by apply file_find_update|done].
Qed.

(** The direct attempt either deals with the frame or leaves everything to
    the buffered path. *)
Lemma write_direct_disk eintr f data off t0 s c b :
  (b <= eintr)%nat -> f_fd f = fd -> f_id f = fid -> healthy fid fd s ->
  wpM (disk fd) (write_direct eintr f data off t0) s (c, b) (fun g' handled s' => (g'.2 <= b)%nat /\
    (if handled then healthy fid fd s' /\ g'.1 = store off data c \/ broken fid fd s'
     else healthy fid fd s' /\ g'.1 = c)).
Proof.
  intros Hb Hfd Hid Hh. unfold write_direct.
  assert (Hdrop : forall s c b', (b' <= b)%nat -> healthy fid fd s ->
    wpM (disk fd) (drop_direct f;; mret false) s (c, b') (fun g' (handled : bool) s' => (g'.2 <= b)%nat /\
      (if handled then healthy fid fd s' /\ g'.1 = store off data c \/ broken fid fd s'
       else healthy fid fd s' /\ g'.1 = c))).
  { intros s' c' b' Hb' Hh'. wp_step. eapply wpM_mono; [by apply drop_direct_disk|].
    intros g' [] s2 [-> H2]. by wp_step. }
  destruct (f_direct f); simpl; [|by wp_step]. destruct (negb _); [by apply Hdrop|].
  wp_step. apply (wpM_mono (disk fd) _ _ _ (fun g' _ s' => g' = (c, b) /\ g_files s' = g_files s)).
  { unfold wbuf_ensure. wp_step. wp_step. case_decide; [by wp_step|]. wp_call ok Hok.
    destruct ok; simpl; [|by wp_step]. wp_step. wp_step. by wp_step. }
  intros g1 ok s1 [-> F1]. apply (healthy_files _ _ _ s1) in Hh; [|done].
  destruct ok; simpl; [|by apply Hdrop]. rewrite Hfd. wp_step. apply wpM_lift.
  eapply wp_mono; [apply direct_loop_disk; [done|lia]|]. intros [c' b'] [dn e] [Hb' He]. cbn [fst snd] in *.
  destruct e as [| |err].
  - rewrite Z.add_0_r in He. subst c'. unfold add_drain_bytes, add_drain_ns. repeat wp_step_pure.
    eapply wpM_mono; [apply ns_disk|]. intros g' a s' [-> ->]. wp_step. wp_step. split; [done|]. left. split; [|done].
    by eapply healthy_files, Hh.
  - destruct He as [_ ->]. by apply Hdrop.
  - unfold update_file, add_drain_bytes, add_drain_ns. repeat wp_step_pure.
    eapply wpM_mono; [apply ns_disk|]. intros g' a s' [-> ->]. wp_step. wp_step. split; [done|]. right.
    rewrite Hid. by destruct (healthy_fail fid fd s1 err He Hh) as (f' & ?); exists f'.
Qed.
End write.

(** WRITE on a healthy file, with the interrupts still to come. *)
Lemma handle_write_disk eintr b fid offset data f s c :
  is_u64 fid -> is_i64 offset -> file_find fid (g_files s) = Some f -> f_failed f = false -> 0 <= f_fd f ->
  (b <= eintr)%nat ->
  wpM (disk (f_fd f)) (handle_write eintr (u64_bytes fid ++ u64_bytes (u64 offset) ++ data)) s (c, b)
    (fun g' _ s' => (g'.2 <= b)%nat /\ (healthy fid (f_fd f) s' /\ g'.1 = store offset data c \/ broken fid (f_fd f) s')).
Proof.
  intros Hfid Hoff Hff Hok Hpos Hb. unfold handle_write.
  rewrite decide_False by (rewrite !zlen_app; unfold zlen; rewrite !u64_bytes_length; lia).
  assert (Hdec : reads (fid ← pdec_u64; offset ← pdec_i64; mret (fid, offset))
    (u64_bytes fid ++ u64_bytes (u64 offset)) (fid, offset)).
  { eapply (reads_bind _ _ _ _ fid); [rewrite <- (u64_small fid Hfid) at 2; apply reads_u64|].
    rewrite <- (app_nil_r (u64_bytes (u64 offset))). eapply reads_bind; [by apply reads_i64|apply reads_ret]. }
  specialize (Hdec [] data). rewrite app_nil_l, <- (assoc_L (++)) in Hdec. unfold pdec_init.
  change (length []) with 0%nat in Hdec. rewrite Hdec. cbn [fst].
  assert (drop 16 (u64_bytes fid ++ u64_bytes (u64 offset) ++ data) = data) as -> by done.
  wp_step. wp_step. rewrite Hff. rewrite Hok, bool_decide_eq_false_2 by lia. cbn [orb].
  pose proof (file_find_id _ _ _ Hff) as Hid.
  assert (Hh : healthy fid (f_fd f) s) by (by exists f).
  wp_step. eapply wpM_mono; [apply ns_disk|]. intros g1 t0 s1 [-> ->]. wp_step.
  eapply wpM_mono; [by apply write_direct_disk|]. intros [c1 b1] handled s2 [Hb1 H2]. cbn [fst snd] in *.
  destruct handled; [by wp_step|]. destruct H2 as [Hh2 ->]. wp_step. apply wpM_lift.
  eapply wp_mono; [apply buffered_loop_disk; [done|lia]|]. intros [c2 b2] [dn e] [Hb2 He]. cbn [fst snd] in *.
  rewrite Z.add_0_r in He. wp_step.
  destruct e as [err|].
  - unfold update_file. wp_step. eapply wpM_mono; [apply drain_disk|]. intros g3 [] s3 [-> F3]. split; [cbn in *; lia|]. right.
    destruct (healthy_fail fid (f_fd f) s2 err He Hh2) as (f' & Hf'). exists f'. by rewrite F3.
  - wp_step. eapply wpM_mono; [apply drain_disk|]. intros g3 [] s3 [-> F3]. split; [cbn in *; lia|]. left. split; [|done].
    by eapply healthy_files, Hh2.
Qed.

(** A WRITE for a file that has failed is dropped. *)
Lemma handle_write_broken eintr fid fd offset data s m g :
  is_u64 fid -> is_i64 offset -> broken fid fd s ->
  wpM m (handle_write eintr (u64_bytes fid ++ u64_bytes (u64 offset) ++ data)) s g (fun g' _ s' => g' = g /\ s' = s).
Proof.
  intros Hfid Hoff (f & Hff & Hfl & _). unfold handle_write.
  rewrite decide_False by (rewrite !zlen_app; unfold zlen; rewrite !u64_bytes_length; lia).
  assert (Hdec : reads (fid ← pdec_u64; offset ← pdec_i64; mret (fid, offset))
    (u64_bytes fid ++ u64_bytes (u64 offset)) (fid, offset)).
  { eapply (reads_bind _ _ _ _ fid); [rewrite <- (u64_small fid Hfid) at 2; apply reads_u64|].
    rewrite <- (app_nil_r (u64_bytes (u64 offset))). eapply reads_bind; [by apply reads_i64|apply reads_ret]. }
  specialize (Hdec [] data). rewrite app_nil_l, <- (assoc_L (++)) in Hdec. unfold pdec_init.
  change (length []) with 0%nat in Hdec. rewrite Hdec. cbn [fst]. wp_step. wp_step. rewrite Hff, Hfl. cbn [orb]. by apply wpM_ret.
Qed.

(** C11.  WRITE stores exactly the frame's data. However the kernel cuts
    and interrupts the writes, with or without O_DIRECT and its fall-backs, a
    WRITE on a healthy file either leaves it healthy with exactly the bytes of
    the frame stored at the frame's offset and nothing else changed, or marks
    it failed with a negative errno, which is what its COMMIT will report. *)
Theorem write_stores eintr b fid offset data f s c :
  is_u64 fid -> is_i64 offset -> file_find fid (g_files s) = Some f -> f_failed f = false -> 0 <= f_fd f ->
  (b <= eintr)%nat ->
  wpM (disk (f_fd f)) (handle_write eintr (u64_bytes fid ++ u64_bytes (u64 offset) ++ data)) s (c, b)
    (fun g' _ s' => healthy fid (f_fd f) s' /\ g'.1 = store offset data c \/ broken fid (f_fd f) s').
Proof. intros. eapply wpM_mono; [by apply handle_write_disk|]. by intros g' [] s' [_ H']. Qed.

Lemma write_stores_witness :
  wpM (disk 5) (handle_write 4 (u64_bytes 7 ++ u64_bytes (u64 4096) ++ str "abc"))
    (set_g_files [set_f_direct true sample_file] server0) (∅, 3%nat)
    (fun g' _ s' => healthy 7 5 s' /\ g'.1 = store 4096 (str "abc") ∅ \/ broken 7 5 s').
Proof.
  apply (write_stores 4 3 7 4096 (str "abc") (set_f_direct true sample_file));
    [by vm_compute|by vm_compute|done|done|by vm_compute|lia].
Defined.
