(* ===== verification/Dirwalk.v ===== *)
(** The parallel directory walker (src/dirwalk.c): the pass over a list sorted
    deepest first, in groups of equal depth, and the walk itself, a queue of
    directories served by threads.

    [depth_groups] follows [dirwalk_depth_groups_ex]: threads of one group run
    concurrently, so a group is the list of the calls it makes, thread by
    thread, and only the order between groups means anything. The walk is a step
    relation over the critical sections of [worker_main] and [push_locked]; the
    directory tree, as the consumer's callbacks see it, is its input. *)

From S2P Require Export Prog.
From stdpp Require Import list sorting.
#[local] Open Scope nat_scope.

(** * The pass by depth *)

(** [group_ctx_t], without the lock and what is shared. *)
Record group := Group { g_start : nat; g_end : nat; g_count : nat }.

Section groups.
Context (n threads : nat) (depth_of : nat -> Z).
Context (contiguous : bool) (same_run : option (nat -> nat -> bool)).

(** [fuel] is the distance to the end of the group. *)
Fixpoint snap_loop (fuel start end_ pos : nat) (same : nat -> nat -> bool) : nat :=
  match fuel with
  | O => pos
  | S fuel =>
      if bool_decide (start < pos) && bool_decide (pos < end_) && same (pos - 1) pos
      then snap_loop fuel start end_ (pos + 1) same else pos
  end.
Definition snap_to_run_start (c : group) (pos : nat) : nat :=
  match same_run with
  | None => pos
  | Some same => snap_loop (g_end c - pos) (g_start c) (g_end c) pos same
  end.

(** The slice of the thread that drew number [idx]. *)
Definition slice_bound (c : group) (idx : nat) : nat :=
  snap_to_run_start c (g_start c + (g_end c - g_start c) * idx / g_count c).
Definition slice (c : group) (idx : nat) : list nat := seq (slice_bound c idx) (slice_bound c (S idx) - slice_bound c idx).

(** What the threads that could be created call [fn] with. Threads that take
    indices one at a time take all of them between them. *)
Definition group_calls (c : group) (created : nat) : list nat :=
  if contiguous then concat (slice c <$> seq 0 created)
  else match created with O => [] | _ => seq (g_start c) (g_end c - g_start c) end.

Fixpoint group_end (fuel end_ : nat) (depth : Z) : nat :=
  match fuel with
  | O => end_
  | S fuel => if bool_decide (end_ < n) && bool_decide (depth_of end_ = depth) then group_end fuel (end_ + 1) depth else end_
  end.
Definition group_at (start : nat) : group :=
  let end_ := group_end (n - start) (start + 1) (depth_of start) in
  let threads := if decide (threads < 1) then 1 else threads in
  let count := if decide (end_ - start < threads) then end_ - start else threads in
  Group start end_ count.

(** What happens around the groups: whether [fn], [between_groups] and the
    allocation succeed, and how many threads of a group can be created. *)
Context (fn : nat -> bool) (between_groups : nat -> bool) (alloc : nat -> bool) (creatable : nat -> nat).

(** The calls made, group by group, and the result. *)
Fixpoint groups_loop (fuel start : nat) : list (list nat) * bool :=
  match fuel with
  | O => ([], true)
  | S fuel =>
      if decide (start < n) then
        let c := group_at start in
        if negb (alloc start) then ([], false) else
        let created := creatable start `min` g_count c in
        let calls := group_calls c created in
        let failed := bool_decide (created < g_count c) || negb (forallb fn calls) in
        if failed then ([calls], false)
        else if negb (between_groups start) then ([calls], false)
        else let '(rest, rc) := groups_loop fuel (g_end c) in (calls :: rest, rc)
      else ([], true)
  end.
Definition depth_groups : list (list nat) * bool := groups_loop n 0.

(** ** Slices *)

Lemma snap_loop_spec fuel start end_ pos same :
  end_ - pos <= fuel -> pos <= end_ ->
  pos <= snap_loop fuel start end_ pos same <= end_ /\
  (forall i, pos <= i < snap_loop fuel start end_ pos same -> start < i /\ same (i - 1) i = true) /\
  (let q := snap_loop fuel start end_ pos same in start < q < end_ -> same (q - 1) q = false).
Proof.
  revert pos. induction fuel as [|fuel IH]; intros pos Hf Hp; cbn [snap_loop]; [cbn zeta; split_and!; try lia|].
  destruct (bool_decide (start < pos)) eqn:E1; [apply bool_decide_eq_true in E1|apply bool_decide_eq_false in E1; cbn; split_and!; lia].
  destruct (bool_decide (pos < end_)) eqn:E2; [apply bool_decide_eq_true in E2|apply bool_decide_eq_false in E2; cbn; split_and!; lia].
  destruct (same (pos - 1) pos) eqn:E3; cbn [andb]; [|split_and!; try lia; done].
  destruct (IH (pos + 1)) as (H1 & H2 & H3); [lia|lia|]. split_and!; [lia|lia| |done].
  intros i Hi. destruct (decide (i = pos)) as [->|]; [done|]. apply H2. lia.
Qed.

(** Snapping is monotonic: a later position is never snapped before an earlier one. *)
Lemma snap_mono c p q : p <= q -> q <= g_end c -> snap_to_run_start c p <= snap_to_run_start c q.
Proof.
  intros Hpq Hq. unfold snap_to_run_start. destruct same_run as [same|]; [|done].
  destruct (snap_loop_spec (g_end c - p) (g_start c) (g_end c) p same) as (H1 & H2 & H3); [lia|lia|].
  destruct (snap_loop_spec (g_end c - q) (g_start c) (g_end c) q same) as (H4 & H5 & H6); [lia|lia|].
  set (sp := snap_loop (g_end c - p) _ _ p same) in *. set (sq := snap_loop (g_end c - q) _ _ q same) in *.
  destruct (decide (sp <= sq)); [done|]. destruct (H2 sq) as [? Hs]; [lia|]. rewrite H6 in Hs; [done|lia].
Qed.
Lemma slice_bound_mono c i j : 0 < g_count c -> i <= j -> j <= g_count c -> g_start c <= g_end c -> slice_bound c i <= slice_bound c j.
Proof.
  intros Hc Hij Hj Hse. apply snap_mono.
  - assert ((g_end c - g_start c) * i / g_count c <= (g_end c - g_start c) * j / g_count c); [|lia].
    apply Nat.Div0.div_le_mono. nia.
  - assert ((g_end c - g_start c) * j / g_count c <= g_end c - g_start c); [|lia].
    apply Nat.Div0.div_le_upper_bound. nia.
Qed.
Lemma slice_bound_first c : 0 < g_count c -> g_start c <= g_end c -> slice_bound c 0 = g_start c.
Proof.
  intros Hc Hse. unfold slice_bound. rewrite Nat.mul_0_r, Nat.Div0.div_0_l, Nat.add_0_r.
  unfold snap_to_run_start. destruct same_run as [same|]; [|done].
  destruct (snap_loop_spec (g_end c - g_start c) (g_start c) (g_end c) (g_start c) same) as (H1 & H2 & _); [lia|lia|].
  destruct (decide (snap_loop (g_end c - g_start c) (g_start c) (g_end c) (g_start c) same = g_start c)); [done|].
  destruct (H2 (g_start c)); lia.
Qed.
Lemma slice_bound_last c : 0 < g_count c -> g_start c <= g_end c -> slice_bound c (g_count c) = g_end c.
Proof.
  intros Hc Hse. unfold slice_bound. rewrite Nat.div_mul by lia.
  replace (g_start c + (g_end c - g_start c)) with (g_end c) by lia.
  unfold snap_to_run_start. destruct same_run as [same|]; [|done].
  destruct (snap_loop_spec (g_end c - g_end c) (g_start c) (g_end c) (g_end c) same); lia.
Qed.

(** The slices of the first [k] threads are the start of the group, in order. *)
Lemma slices_concat c k :
  0 < g_count c -> k <= g_count c -> g_start c <= g_end c ->
  concat (slice c <$> seq 0 k) = seq (g_start c) (slice_bound c k - g_start c).
Proof.
  intros Hc Hk Hse. induction k as [|k IH]; [by rewrite slice_bound_first, Nat.sub_diag|].
  rewrite seq_S, fmap_app, concat_app, IH by lia. cbn [fmap list_fmap concat plus]. rewrite app_nil_r. unfold slice.
  pose proof (slice_bound_mono c k (S k) Hc ltac:(lia) Hk Hse).
  pose proof (slice_bound_mono c 0 k Hc ltac:(lia) ltac:(lia) Hse) as H0. rewrite slice_bound_first in H0 by done.
  replace (slice_bound c (S k) - g_start c) with ((slice_bound c k - g_start c) + (slice_bound c (S k) - slice_bound c k)) by lia.
  rewrite seq_app. f_equal. f_equal. lia.
Qed.

(** ** Groups *)

Lemma group_end_spec fuel end_ d :
  n - end_ <= fuel -> end_ <= n ->
  end_ <= group_end fuel end_ d <= n /\ (forall i, end_ <= i < group_end fuel end_ d -> depth_of i = d) /\
  (group_end fuel end_ d < n -> depth_of (group_end fuel end_ d) <> d).
Proof.
  revert end_. induction fuel as [|fuel IH]; intros end_ Hf He; cbn [group_end]; [split_and!; lia|].
  destruct (bool_decide (end_ < n)) eqn:E1; [apply bool_decide_eq_true in E1|apply bool_decide_eq_false in E1; cbn; split_and!; lia].
  destruct (bool_decide (depth_of end_ = d)) eqn:E2; [apply bool_decide_eq_true in E2|apply bool_decide_eq_false in E2; cbn; split_and!; [lia..|done]].
  cbn [andb]. destruct (IH (end_ + 1)) as (H1 & H2 & H3); [lia|lia|]. split_and!; [lia|lia| |done].
  intros i Hi. destruct (decide (i = end_)) as [->|]; [done|apply H2; lia].
Qed.

Lemma group_at_spec start :
  start < n ->
  let c := group_at start in
  g_start c = start /\ start < g_end c <= n /\ 0 < g_count c /\ (forall i, start <= i < g_end c -> depth_of i = depth_of start) /\
  (g_end c < n -> depth_of (g_end c) <> depth_of start).
Proof.
  intros Hs. unfold group_at. cbn zeta. cbn [g_start g_end g_count].
  destruct (group_end_spec (n - start) (start + 1) (depth_of start)) as (H1 & H2 & H3); [lia|lia|].
  split_and!; [done|lia|lia| | |done].
  - repeat case_decide; lia.
  - intros i Hi. destruct (decide (i = start)) as [->|]; [done|apply H2; lia].
Qed.

(** A run stays within one slice. *)
Lemma run_in_slice same start i :
  same_run = Some same -> start < n -> let c := group_at start in
  g_start c < i < g_end c -> same (i - 1) i = true ->
  exists idx, idx < g_count c /\ i - 1 ∈ slice c idx /\ i ∈ slice c idx.
Proof.
  intros Hrun Hst c Hi Hsame. destruct (group_at_spec start Hst) as (Hs & He & Hc & _). fold c in Hs, He, Hc.
  assert (Hin : i - 1 ∈ concat (slice c <$> seq 0 (g_count c))).
  { rewrite slices_concat by lia. rewrite slice_bound_last by lia. apply elem_of_seq. lia. }
  apply elem_of_concat in Hin as (l & Hl & Hin).
  apply list_elem_of_fmap in Hl as (idx & -> & Hidx). apply elem_of_seq in Hidx. exists idx. split_and!; [lia|done|].
  unfold slice in *. apply elem_of_seq in Hin. apply elem_of_seq. split; [lia|].
  destruct (decide (i = slice_bound c (S idx))) as [E|]; [|lia]. exfalso.
  assert (Hlast : slice_bound c (S idx) < g_end c) by lia.
  unfold slice_bound, snap_to_run_start in E, Hlast. rewrite Hrun in E, Hlast.
  set (pos := g_start c + _) in *. destruct (decide (pos <= g_end c)).
  - destruct (snap_loop_spec (g_end c - pos) (g_start c) (g_end c) pos same) as (_ & _ & H); [lia|done|].
    cbn zeta in H. rewrite <- E in H. specialize (H Hi). congruence.
  - replace (g_end c - pos) with 0 in Hlast by lia. cbn [snap_loop] in Hlast. lia.
Qed.

Lemma slice_unique c i idx1 idx2 :
  0 < g_count c -> g_start c <= g_end c -> idx1 < g_count c -> idx2 < g_count c ->
  i ∈ slice c idx1 -> i ∈ slice c idx2 -> idx1 = idx2.
Proof.
  intros Hc Hse H1 H2 Hi1%elem_of_seq Hi2%elem_of_seq.
  destruct (decide (idx1 < idx2)); [pose proof (slice_bound_mono c (S idx1) idx2 Hc ltac:(lia) ltac:(lia) Hse); lia|].
  destruct (decide (idx2 < idx1)); [pose proof (slice_bound_mono c (S idx2) idx1 Hc ltac:(lia) ltac:(lia) Hse); lia|]. lia.
Qed.
(** Also the two ends of a longer run. *)
Lemma long_run_in_slice same start i k :
  same_run = Some same -> start < n -> let c := group_at start in
  g_start c <= i -> i + S k < g_end c -> (forall x, i < x <= i + S k -> same (x - 1) x = true) ->
  exists idx, idx < g_count c /\ i ∈ slice c idx /\ i + S k ∈ slice c idx.
Proof.
  intros Hrun Hst c Hi Hk Hsame. destruct (group_at_spec start Hst) as (Hs & He & Hc & _). fold c in Hs, He, Hc.
  assert (Hse : g_start c <= g_end c) by lia.
  induction k as [|k IH].
  - destruct (run_in_slice same start (i + 1) Hrun Hst) as (idx & H1 & H2 & H3); [fold c; lia|apply Hsame; lia|].
    exists idx. split_and!; [done|by replace i with (i + 1 - 1) by lia|done].
  - destruct IH as (idx & H1 & H2 & H3); [lia|intros x Hx; apply Hsame; lia|].
    destruct (run_in_slice same start (i + S (S k)) Hrun Hst) as (idx' & H4 & H5 & H6); [fold c; lia|apply Hsame; lia|]. fold c in H4, H5, H6.
    replace (i + S (S k) - 1) with (i + S k) in H5 by lia.
    assert (idx = idx') as -> by (by apply (slice_unique c (i + S k))). by exists idx'.
Qed.

(** The calls of a group: its indices from the first on; all of them when all
    its threads run. *)
Lemma group_calls_seq c k :
  0 < g_count c -> k <= g_count c -> g_start c <= g_end c ->
  exists m, group_calls c k = seq (g_start c) m /\ m <= g_end c - g_start c /\ (k = g_count c -> m = g_end c - g_start c).
Proof.
  intros Hc Hk Hse. unfold group_calls. destruct contiguous.
  - exists (slice_bound c k - g_start c). split; [by apply slices_concat|].
    pose proof (slice_bound_mono c k (g_count c) Hc Hk ltac:(lia) Hse) as H. rewrite slice_bound_last in H by done.
    split; [lia|]. intros ->. by rewrite slice_bound_last.
  - destruct k; [exists 0; split_and!; [done|lia|lia]|]. exists (g_end c - g_start c). by split_and!.
Qed.

Definition before (c1 c2 : list nat) : Prop := forall i j, i ∈ c1 -> j ∈ c2 -> (depth_of j < depth_of i)%Z.

(** All calls of a group are for entries of one depth. *)
Lemma groups_flat fuel start :
  Forall (fun c => forall i j, i ∈ c -> j ∈ c -> depth_of i = depth_of j) (groups_loop fuel start).1.
Proof.
  revert start. induction fuel as [|fuel IH]; intros start; cbn [groups_loop]; [constructor|]. case_decide as Hlt; [|constructor].
  destruct (group_at_spec start Hlt) as (Hst & Hend & Hcnt & Hsame & _). set (c := group_at start) in *. cbv zeta.
  destruct (negb (alloc start)); [constructor|]. set (k := creatable start `min` g_count c).
  assert (Hone : forall i j, i ∈ group_calls c k -> j ∈ group_calls c k -> depth_of i = depth_of j).
  { destruct (group_calls_seq c k) as (m & -> & Hm & _); [done|lia|lia|]. intros i j Hi%elem_of_seq Hj%elem_of_seq.
    rewrite (Hsame i), (Hsame j); [done|lia|lia]. }
  destruct (bool_decide _ || _); [by repeat constructor|]. destruct (negb (between_groups start)); [by repeat constructor|].
  specialize (IH (g_end c)). destruct (groups_loop fuel (g_end c)) as [rest rc]. by constructor.
Qed.

Lemma groups_loop_spec fuel start :
  (forall i j, i <= j < n -> (depth_of j <= depth_of i)%Z) -> start <= n -> n - start <= fuel ->
  exists m, concat (groups_loop fuel start).1 = seq start m /\ start + m <= n /\
    StronglySorted before (groups_loop fuel start).1 /\
    (forall a ca i, S a < length (groups_loop fuel start).1 -> (groups_loop fuel start).1 !! a = Some ca -> i ∈ ca -> fn i = true) /\
    ((groups_loop fuel start).2 = true -> start + m = n /\ forall i, start <= i < n -> fn i = true).
Proof.
  intros Hdepth. revert start. induction fuel as [|fuel IH]; intros start Hs Hf; cbn [groups_loop].
  { exists 0. cbn [fst snd]. split_and!; [done|lia|constructor|simpl; lia|]. intros _. split; [lia|]. intros i. lia. }
  destruct (decide (start < n)) as [Hlt|].
  2: { exists 0. cbn [fst snd]. split_and!; [done|lia|constructor|simpl; lia|]. intros _. split; [lia|]. intros i. lia. }
  destruct (group_at_spec start Hlt) as (Hst & Hend & Hcnt & Hsame & Hnext). set (c := group_at start) in *. cbv zeta.
  destruct (alloc start); cbn [negb]; [|exists 0; cbn [fst snd]; split_and!; [done|lia|apply SSorted_nil|simpl; lia|done]].
  set (k := creatable start `min` g_count c).
  destruct (group_calls_seq c k) as (m & Hm & Hml & Hmk); [done|lia|lia|]. rewrite Hst in Hm, Hml, Hmk. rewrite Hm.
  assert (Hone : forall ok, (ok = true -> False) -> exists m', concat ([seq start m], ok).1 = seq start m' /\ start + m' <= n /\
    StronglySorted before ([seq start m], ok).1 /\
    (forall a ca i, S a < length ([seq start m], ok).1 -> ([seq start m], ok).1 !! a = Some ca -> i ∈ ca -> fn i = true) /\
    (([seq start m], ok).2 = true -> start + m' = n /\ forall i, start <= i < n -> fn i = true)).
  { intros ok Hok. exists m. cbn [fst snd concat]. rewrite app_nil_r. split_and!; [done|lia|by repeat constructor|simpl; lia|done]. }
  destruct (bool_decide (k < g_count c)) eqn:Ek; cbn [orb]; [by apply Hone|]. apply bool_decide_eq_false in Ek.
  assert (Hm2 : m = g_end c - start) by (apply Hmk; lia).
  destruct (forallb fn (seq start m)) eqn:Efn; cbn [negb]; [|by apply Hone].
  destruct (between_groups start); cbn [negb]; [|by apply Hone].
  assert (Hfn : forall i, start <= i < g_end c -> fn i = true).
  { intros i Hi. rewrite forallb_Forall in Efn. eapply Forall_forall in Efn; [exact Efn|]. apply elem_of_seq. lia. }
  destruct (IH (g_end c)) as (m2 & H1 & H2 & H3 & H4 & H5); [lia|lia|].
  destruct (groups_loop fuel (g_end c)) as [rest rc]. cbn [fst snd] in *.
  exists (m + m2). split_and!.
  - cbn [concat]. rewrite H1, seq_app. do 2 f_equal. lia.
  - lia.
  - constructor; [done|]. apply Forall_forall. intros cb Hcb i j Hi Hj.
    assert (Hj2 : j ∈ seq (g_end c) m2).
    { rewrite <- H1. apply elem_of_concat. by exists cb. }
    apply elem_of_seq in Hi, Hj2. rewrite (Hsame i) by lia. specialize (Hnext ltac:(lia)).
    pose proof (Hdepth start (g_end c) ltac:(lia)). pose proof (Hdepth (g_end c) j ltac:(lia)). lia.
  - intros [|a] ca i Ha Hca Hi; cbn in Ha, Hca; [injection Hca as <-; apply elem_of_seq in Hi; apply Hfn; lia|].
    eapply (H4 a); [lia|done|done].
  - intros Hrc. destruct (H5 Hrc) as [H6 H7]. split; [lia|]. intros i Hi.
    destruct (decide (i < g_end c)); [apply Hfn; lia|apply H7; lia].
Qed.
End groups.

(** The pass over a list sorted deepest first. The calls made are an
    initial part of the list, each index once, however the work is split between
    threads; every call of a group comes before any call for a shallower entry,
    and a group is only started when all calls of the ones before succeeded.
    When the pass succeeds, every index has been handled, successfully. In the
    contiguous mode two neighbours of one run are always in the slice of the same
    thread. *)
Theorem depth_groups_correct n threads depth_of contiguous same_run fn between alloc creatable :
  (forall i j, i <= j < n -> (depth_of j <= depth_of i)%Z) ->
  let '(calls, ok) := depth_groups n threads depth_of contiguous same_run fn between alloc creatable in
  (exists m, concat calls = seq 0 m /\ m <= n /\ (ok = true -> m = n)) /\
  (forall a b ca cb i j, a < b -> calls !! a = Some ca -> calls !! b = Some cb -> i ∈ ca -> j ∈ cb -> (depth_of j < depth_of i)%Z) /\
  (forall a ca i, S a < length calls -> calls !! a = Some ca -> i ∈ ca -> fn i = true) /\
  (ok = true -> forall i, i < n -> fn i = true) /\
  (forall same start i, same_run = Some same -> start < n ->
     let c := group_at n threads depth_of start in
     g_start c < i < g_end c -> same (i - 1) i = true ->
     exists idx, idx < g_count c /\ i - 1 ∈ slice same_run c idx /\ i ∈ slice same_run c idx).
Proof.
  intros Hdepth. unfold depth_groups.
  destruct (groups_loop_spec n threads depth_of contiguous same_run fn between alloc creatable n 0 Hdepth) as (m & H1 & H2 & H3 & H4 & H5); [lia|lia|].
  destruct (groups_loop _ _ _ _ _ _ _ _ _ n 0) as [calls ok]. cbn [fst snd] in *. split_and!.
  - exists m. split_and!; [done|lia|]. intros Hok. destruct (H5 Hok). lia.
  - intros a b ca cb i j Hab Ha Hb. by apply (sorted_lookup _ _ H3 a b ca cb Hab Ha Hb).
  - done.
  - intros Hok i Hi. apply H5; [done|lia].
  - intros same start i Hrun Hst. by apply (run_in_slice n threads depth_of same_run same).
Qed.

Definition sample_depth (i : nat) : Z := nth i [2; 2; 2; 1; 1; 0]%Z 0%Z.
Lemma depth_groups_correct_witness :
  let same a b := bool_decide (a = 0 /\ b = 1) in
  let run := depth_groups 6 2 sample_depth true (Some same) (fun _ => true) (fun _ => true) (fun _ => true) (fun _ => 2) in
  run = ([[0; 1; 2]; [3; 4]; [5]], true) /\
  (exists m, concat run.1 = seq 0 m /\ m <= 6 /\ (run.2 = true -> m = 6)).
Proof.
  split; [by vm_compute|].
  pose proof (depth_groups_correct 6 2 sample_depth true (Some (fun a b => bool_decide (a = 0 /\ b = 1)))
    (fun _ => true) (fun _ => true) (fun _ => true) (fun _ => 2)) as H. cbv zeta.
  destruct (depth_groups _ _ _ _ _ _ _ _ _) as [calls ok]. apply H.
  intros i j [Hij Hj]. do 6 (destruct i as [|i]; [do 6 (destruct j as [|j]; [vm_compute; congruence || lia|]); lia|]). lia.
Defined.

(** * The walk *)

(** A directory and the directories below it that the consumer descends into. *)
Inductive tree := Dir (path : list Z) (kids : list tree).
Definition kids (t : tree) : list tree := let 'Dir _ k := t in k.
Fixpoint nodes (t : tree) : list tree := t :: (let 'Dir _ k := t in concat (nodes <$> k)).

Definition all_nodes (l : list tree) : list tree := concat (nodes <$> l).

(** Where a thread of [worker_main] is. *)
Inductive wthread :=
| WTop                            (* about to take the lock *)
| WWait                           (* in pthread_cond_wait *)
| WBusy (rest : list tree)        (* in process_node, with these children to push *)
| WOut.                           (* returned *)

Record walk := Walk {
  w_queue : list tree; w_active : nat; w_done : bool;
  w_stop : bool;                  (* the external stop flag *)
  w_asked : bool;                 (* dirwalk_request_stop has run *)
  w_threads : list wthread;
  w_visited : list tree;          (* directories whose enumeration has begun, latest first *)
  w_dropped : list tree           (* directories that could not be queued, or not opened *)
}.

Definition wake_thread (t : wthread) : wthread := match t with WWait => WTop | t => t end.
Definition wake_all (ts : list wthread) : list wthread := wake_thread <$> ts.
(** A signal wakes one waiter, if there is one. *)
Definition wake_one (ts ts' : list wthread) : Prop :=
  ((WWait ∉ ts) /\ ts' = ts) \/ (exists i, ts !! i = Some WWait /\ ts' = <[i := WTop]> ts).

Inductive wstep : walk -> walk -> Prop :=
| w_leave_stop q a d k ts v x i :
    ts !! i = Some WTop ->
    wstep (Walk q a d true k ts v x) (Walk q a d true k (<[i := WOut]> ts) v x)
| w_pop t q a d k ts v x i :
    ts !! i = Some WTop ->
    wstep (Walk (t :: q) a d false k ts v x) (Walk q (S a) d false k (<[i := WBusy (kids t)]> ts) (t :: v) x)
| w_pop_fails t q a d k ts v x i :      (* the directory cannot be opened, or is skipped *)
    ts !! i = Some WTop ->
    wstep (Walk (t :: q) a d false k ts v x) (Walk q (S a) d false k (<[i := WBusy []]> ts) v (t :: x))
| w_leave_done a k ts v x i :
    ts !! i = Some WTop ->
    wstep (Walk [] a true false k ts v x) (Walk [] a true false k (<[i := WOut]> ts) v x)
| w_wait a k ts v x i :
    ts !! i = Some WTop ->
    wstep (Walk [] a false false k ts v x) (Walk [] a false false k (<[i := WWait]> ts) v x)
| w_push q a d s k ts v x i c cs ts' :  (* [push_locked]: onto the tail, and signal *)
    ts !! i = Some (WBusy (c :: cs)) -> wake_one (<[i := WBusy cs]> ts) ts' ->
    wstep (Walk q a d s k ts v x) (Walk (q ++ [c]) a d s k ts' v x)
| w_drop q a d s k ts v x i c cs :      (* the path is too long, or malloc fails *)
    ts !! i = Some (WBusy (c :: cs)) ->
    wstep (Walk q a d s k ts v x) (Walk q a d s k (<[i := WBusy cs]> ts) v (c :: x))
| w_break q a d k ts v x i c cs :       (* stop requested between two entries *)
    ts !! i = Some (WBusy (c :: cs)) ->
    wstep (Walk q a d true k ts v x) (Walk q a d true k (<[i := WBusy []]> ts) v x)
| w_finish q a d s k ts v x i :
    ts !! i = Some (WBusy []) -> ~ (q = [] /\ a = 0) ->
    wstep (Walk q (S a) d s k ts v x) (Walk q a d s k (<[i := WTop]> ts) v x)
| w_finish_last d s k ts v x i :
    ts !! i = Some (WBusy []) ->
    wstep (Walk [] 1 d s k ts v x) (Walk [] 0 true s k (wake_all (<[i := WTop]> ts)) v x)
| w_signal q a d k ts v x :
    wstep (Walk q a d false k ts v x) (Walk q a d true k ts v x)
| w_request_stop q a d s ts v x :       (* dirwalk_request_stop *)
    wstep (Walk q a d s false ts v x) (Walk q a true s true (wake_all ts) v x).

(** [dirwalk_start] on [root] with [n] threads. *)
Definition walk0 (root : tree) (n : nat) : walk := Walk [root] 0 false false false (replicate n WTop) [] [].
Definition all_out (w : walk) : Prop := Forall (fun t => t = WOut) (w_threads w).

(** ** Invariants *)

Definition busy1 (t : wthread) : Z := match t with WBusy _ => 1 | _ => 0 end.
Definition pending (t : wthread) : list tree := match t with WBusy r => r | _ => [] end.
Definition wherever (w : walk) : list tree := w_queue w ++ concat (pending <$> w_threads w) ++ w_dropped w.

Record winv (root : tree) (w : walk) : Prop := Winv {
  wi_active : Z.of_nat (w_active w) = sumZ busy1 (w_threads w);
  wi_done : w_done w = true -> WWait ∉ w_threads w;
  wi_live : w_done w = false -> w_queue w <> [] \/ (0 < w_active w);
  wi_idle : w_stop w = false -> w_done w = false \/ w_queue w <> [] -> exists t, t ∈ w_threads w /\ t <> WWait /\ t <> WOut;
  wi_asked : w_asked w = true -> w_done w = true;
  (** nothing is lost and nothing is done twice *)
  wi_parts : w_stop w = false -> w_visited w ++ all_nodes (wherever w) ≡ₚ nodes root
}.

Lemma wi_active_busy ts a : Z.of_nat a = sumZ busy1 ts -> 0 < a -> exists t, t ∈ ts /\ t <> WWait /\ t <> WOut.
Proof.
  intros Ha Hpos. assert (H : sumZ busy1 ts <> 0%Z) by lia. clear a Ha Hpos.
  induction ts as [|t ts IH]; [done|]. cbn in H. destruct t as [| |r|]; cbn in H.
  - exists WTop. split; [by left|done].
  - destruct IH as (t & ? & ?); [done|]. exists t. split; [by right|done].
  - exists (WBusy r). split; [by left|done].
  - destruct IH as (t & ? & ?); [done|]. exists t. split; [by right|done].
Qed.

#[export] Instance all_nodes_proper : Proper ((≡ₚ) ==> (≡ₚ)) all_nodes.
Proof. intros l k H. unfold all_nodes. by apply concat_perm, fmap_Permutation. Qed.
Lemma all_nodes_app l k : all_nodes (l ++ k) = all_nodes l ++ all_nodes k.
Proof. unfold all_nodes. by rewrite fmap_app, concat_app. Qed.
Lemma all_nodes_cons t l : all_nodes (t :: l) = nodes t ++ all_nodes l.
Proof. done. Qed.
Lemma nodes_kids t : nodes t = t :: all_nodes (kids t).
Proof. by destruct t. Qed.

Ltac nodes_perm :=
  repeat first [rewrite all_nodes_app | rewrite all_nodes_cons]; change (all_nodes []) with (@nil tree); perm.

(** Waking threads does not change what they hold. *)
Lemma wake_thread_holds t : busy1 (wake_thread t) = busy1 t /\ pending (wake_thread t) = pending t.
Proof. by destruct t. Qed.
Lemma wake_all_busy ts : sumZ busy1 (wake_all ts) = sumZ busy1 ts.
Proof. induction ts as [|t ts IH]; [done|]. cbn. unfold wake_all, sumZ in *. rewrite IH. by rewrite (proj1 (wake_thread_holds t)). Qed.
Lemma wake_all_pending ts : concat (pending <$> wake_all ts) = concat (pending <$> ts).
Proof. induction ts as [|t ts IH]; [done|]. cbn. unfold wake_all in IH. rewrite IH. by rewrite (proj2 (wake_thread_holds t)). Qed.
Lemma wake_all_none ts : WWait ∉ wake_all ts.
Proof. intros ([] & ? & ?)%list_elem_of_fmap; done. Qed.

Lemma wake_one_busy ts ts' : wake_one ts ts' -> sumZ busy1 ts' = sumZ busy1 ts.
Proof. intros [[_ ->]|(i & Hi & ->)]; [done|]. rewrite (sumZ_insert _ _ _ WWait) by done. cbn [busy1]. lia. Qed.
Lemma wake_one_pending ts ts' : wake_one ts ts' -> concat (pending <$> ts') ≡ₚ concat (pending <$> ts).
Proof. intros [[_ ->]|(i & Hi & ->)]; [done|]. destruct (concat_at pending ts i WWait Hi) as (R & H1 & H2). by rewrite H1, H2. Qed.
Lemma wake_one_keeps ts ts' t : wake_one ts ts' -> t ∈ ts -> t <> WWait -> t ∈ ts'.
Proof.
  intros [[_ ->]|(i & Hi & ->)] Ht Hw; [done|]. apply list_elem_of_lookup_1 in Ht as [j Hj].
  apply list_elem_of_lookup. exists j. rewrite list_lookup_insert_ne; [done|]. intros ->. congruence.
Qed.
Lemma wake_one_new ts ts' : wake_one ts ts' -> WWait ∈ ts' -> WWait ∈ ts.
Proof.
  intros [[_ ->]|(i & Hi & ->)] H; [done|]. apply list_elem_of_lookup. by exists i.
Qed.

Lemma insert_elem {A} (ts : list A) i a t : ts !! i = Some a -> t ∈ <[i := t]> ts.
Proof. intros Hi. apply list_elem_of_lookup. exists i. apply list_lookup_insert_eq. by eapply lookup_lt_Some. Qed.
Lemma insert_not_wait (ts : list wthread) (i : nat) t : WWait ∉ ts -> t <> WWait -> WWait ∉ <[i := t]> ts.
Proof.
  intros H Ht [j Hj]%list_elem_of_lookup_1. apply list_lookup_insert_Some in Hj as [(_ & ? & _)|[_ Hj]]; [done|].
  apply H, list_elem_of_lookup. by exists j.
Qed.

Lemma winv_init root n : 0 < n -> winv root (walk0 root n).
Proof.
  intros Hn. split; try done.
  - unfold walk0. cbn [w_threads w_active]. by rewrite sumZ_replicate.
  - by left.
  - intros _ _. exists WTop. split; [|done]. apply list_elem_of_lookup. exists 0. by apply lookup_replicate_2.
  - intros _. unfold wherever, walk0. cbn [w_queue w_threads w_dropped w_visited].
    assert (concat (pending <$> replicate n WTop) = []) as -> by (clear; induction n; simpl; done). cbn. by rewrite app_nil_r.
Qed.

Lemma parts_top ts i t : ts !! i = Some WTop -> pending t = [] -> concat (pending <$> <[i := t]> ts) ≡ₚ concat (pending <$> ts).
Proof. intros Hi Ht. destruct (concat_at pending ts i WTop Hi) as (R & H1 & H2). by rewrite H1, H2, Ht. Qed.
Lemma parts_busy ts i r t : ts !! i = Some (WBusy r) ->
  exists R, concat (pending <$> ts) ≡ₚ r ++ R /\ concat (pending <$> <[i := t]> ts) ≡ₚ pending t ++ R.
Proof. intros Hi. destruct (concat_at pending ts i (WBusy r) Hi) as (R & H1 & H2). exists R. by split. Qed.

Lemma winv_step root w w' : winv root w -> wstep w w' -> winv root w'.
Proof.
  intros Hw Hs. destruct Hw as [Ha Hd Hl Hi Hk Hp]. inversion Hs; subst; cbn [w_queue w_active w_done w_stop w_asked w_threads w_visited w_dropped] in *.
  - (* leave, stopped *)
    split; cbn [w_queue w_active w_done w_stop w_asked w_threads w_visited w_dropped]; try done.
    + rewrite (sumZ_insert _ _ _ WTop) by done. cbn [busy1]. lia.
    + intros H1. apply insert_not_wait; [by apply Hd|done].
  - (* pop *)
    destruct (concat_at pending ts i WTop) as (R & H1 & H2); [done|]. split; cbn [w_queue w_active w_done w_stop w_asked w_threads w_visited w_dropped]; try done.
    + rewrite (sumZ_insert _ _ _ WTop) by done. cbn [busy1]. lia.
    + intros H3. apply insert_not_wait; [by apply Hd|done].
    + intros _. right. lia.
    + intros _ _. exists (WBusy (kids t)). split; [by eapply insert_elem|done].
    + intros _. rewrite <- (Hp eq_refl). unfold wherever. cbn [w_queue w_threads w_dropped w_visited]. rewrite H1, H2. cbn [pending app].
      rewrite all_nodes_cons, nodes_kids. nodes_perm.
  - (* pop, not opened *)
    destruct (concat_at pending ts i WTop) as (R & H1 & H2); [done|]. split; cbn [w_queue w_active w_done w_stop w_asked w_threads w_visited w_dropped]; try done.
    + rewrite (sumZ_insert _ _ _ WTop) by done. cbn [busy1]. lia.
    + intros H3. apply insert_not_wait; [by apply Hd|done].
    + intros _. right. lia.
    + intros _ _. exists (WBusy []). split; [by eapply insert_elem|done].
    + intros _. rewrite <- (Hp eq_refl). unfold wherever. cbn [w_queue w_threads w_dropped w_visited]. rewrite H1, H2. cbn [pending app].
      nodes_perm.
  - (* leave, done *)
    split; cbn [w_queue w_active w_done w_stop w_asked w_threads w_visited w_dropped]; try done.
    + rewrite (sumZ_insert _ _ _ WTop) by done. cbn [busy1]. lia.
    + intros _. apply insert_not_wait; [by apply Hd|done].
    + by intros _ [?|?].
    + intros _. rewrite <- (Hp eq_refl). unfold wherever. cbn [w_queue w_threads w_dropped w_visited]. by rewrite parts_top.
  - (* wait *)
    assert (Hb : sumZ busy1 (<[i := WWait]> ts) = sumZ busy1 ts) by (rewrite (sumZ_insert _ _ _ WTop) by done; cbn [busy1]; lia).
    split; cbn [w_queue w_active w_done w_stop w_asked w_threads w_visited w_dropped]; try done.
    + by rewrite Hb.
    + intros _ _. destruct (Hl eq_refl) as [?|Hpos]; [done|]. eapply wi_active_busy; [|exact Hpos]. by rewrite Hb.
    + intros _. rewrite <- (Hp eq_refl). unfold wherever. cbn [w_queue w_threads w_dropped w_visited]. by rewrite parts_top.
  - (* push *)
    destruct (parts_busy ts i (c :: cs) (WBusy cs)) as (R & H1 & H2); [done|].
    assert (Hb : sumZ busy1 ts' = sumZ busy1 ts).
    { rewrite (wake_one_busy _ _ H0), (sumZ_insert _ _ _ (WBusy (c :: cs))) by done. cbn [busy1]. lia. }
    assert (Hin : WBusy cs ∈ ts') by (eapply wake_one_keeps; [done|by eapply insert_elem|done]).
    split; cbn [w_queue w_active w_done w_stop w_asked w_threads w_visited w_dropped]; try done.
    + by rewrite Hb.
    + intros H3 H4. apply (wake_one_new _ _ H0) in H4. by apply (insert_not_wait ts i (WBusy cs)) in H4; [|apply Hd|].
    + intros _. left. by destruct q.
    + intros _ _. by exists (WBusy cs).
    + intros Hst. rewrite <- (Hp Hst). unfold wherever. cbn [w_queue w_threads w_dropped w_visited]. rewrite (wake_one_pending _ _ H0), H1, H2. cbn [pending app].
      nodes_perm.
  - (* drop *)
    destruct (parts_busy ts i (c :: cs) (WBusy cs)) as (R & H1 & H2); [done|].
    split; cbn [w_queue w_active w_done w_stop w_asked w_threads w_visited w_dropped]; try done.
    + rewrite (sumZ_insert _ _ _ (WBusy (c :: cs))) by done. cbn [busy1]. lia.
    + intros H3. apply insert_not_wait; [by apply Hd|done].
    + intros _ _. exists (WBusy cs). split; [by eapply insert_elem|done].
    + intros Hst. rewrite <- (Hp Hst). unfold wherever. cbn [w_queue w_threads w_dropped w_visited]. rewrite H1, H2. cbn [pending app].
      nodes_perm.
  - (* break *)
    split; cbn [w_queue w_active w_done w_stop w_asked w_threads w_visited w_dropped]; try done.
    + rewrite (sumZ_insert _ _ _ (WBusy (c :: cs))) by done. cbn [busy1]. lia.
    + intros H3. apply insert_not_wait; [by apply Hd|done].
  - (* finish *)
    destruct (parts_busy ts i [] WTop) as (R & H1 & H2); [done|].
    split; cbn [w_queue w_active w_done w_stop w_asked w_threads w_visited w_dropped]; try done.
    + rewrite (sumZ_insert _ _ _ (WBusy [])) by done. cbn [busy1]. lia.
    + intros H3. apply insert_not_wait; [by apply Hd|done].
    + intros _. destruct (decide (q = [])) as [->|]; [right; destruct a; [by destruct H0|lia]|by left].
    + intros _ _. exists WTop. split; [by eapply insert_elem|done].
    + intros Hst. rewrite <- (Hp Hst). unfold wherever. cbn [w_queue w_threads w_dropped w_visited]. rewrite H1, H2. done.
  - (* the last one finishes *)
    destruct (parts_busy ts i [] WTop) as (R & H1 & H2); [done|].
    split; cbn [w_queue w_active w_done w_stop w_asked w_threads w_visited w_dropped]; try done.
    + rewrite wake_all_busy, (sumZ_insert _ _ _ (WBusy [])) by done. cbn [busy1]. lia.
    + intros _. apply wake_all_none.
    + by intros _ [?|?].
    + intros Hst. rewrite <- (Hp Hst). unfold wherever. cbn [w_queue w_threads w_dropped w_visited]. rewrite wake_all_pending, H1, H2. done.
  - (* the signal *) by split.
  - (* the stop request *)
    split; cbn [w_queue w_active w_done w_stop w_asked w_threads w_visited w_dropped]; try done.
    + by rewrite wake_all_busy.
    + intros _. apply wake_all_none.
    + intros Hst [?|Hq]; [done|]. destruct (Hi Hst (or_intror Hq)) as (t & Ht & Hw & Ho). exists t. split; [|done].
      apply list_elem_of_fmap. exists t. by destruct t.
    + intros Hst. rewrite <- (Hp Hst). unfold wherever. cbn [w_queue w_threads w_dropped w_visited]. by rewrite wake_all_pending.
Qed.

Lemma winv_reachable root n w : 0 < n -> rtc wstep (walk0 root n) w -> winv root w.
Proof.
  intros Hn Hr. assert (G : forall w1 w2, rtc wstep w1 w2 -> winv root w1 -> winv root w2).
  { induction 1 as [|w1 w2 w3 Hs _ IH]; [done|]. intros Hw. by eapply IH, winv_step. }
  eapply G; [exact Hr|by apply winv_init].
Qed.

(** ** Progress *)

Definition can_move (t : wthread) : bool := match t with WTop | WBusy _ => true | _ => false end.
Definition is_wait (t : wthread) : bool := match t with WWait => true | _ => false end.

Lemma find_walker (f : wthread -> bool) ts : (exists i t, ts !! i = Some t /\ f t = true) \/ Forall (fun t => f t = false) ts.
Proof.
  induction ts as [|t ts [(i & x & Hx & Hf)|IH]]; [by right|by left; exists (S i), x|].
  destruct (f t) eqn:E; [by left; exists 0, t|by right; constructor].
Qed.
Lemma wake_one_total ts : exists ts', wake_one ts ts'.
Proof.
  destruct (find_walker is_wait ts) as [(i & t & Hi & Ht)|Hf].
  - exists (<[i := WTop]> ts). right. exists i. by destruct t.
  - exists ts. left. split; [|done]. intros H. by eapply Forall_forall in Hf; [|exact H].
Qed.

(** A step a thread takes by itself: neither the stop flag nor the stop request
    comes from outside, and nothing fails. *)
Definition thread_step (w w' : walk) : Prop :=
  wstep w w' /\ w_stop w' = w_stop w /\ w_asked w' = w_asked w /\ w_dropped w' = w_dropped w.
(** The stop flag has been set and dirwalk_request_stop is still to come. *)
Definition stop_pending (w : walk) : Prop := w_stop w = true /\ w_asked w = false.

Lemma walk_progress root w : winv root w -> all_out w \/ stop_pending w \/ exists w', thread_step w w'.
Proof.
  intros [Ha Hd Hl Hi Hk Hp]. destruct w as [q a d s k ts v x]. unfold all_out, stop_pending.
  cbn [w_queue w_active w_done w_stop w_asked w_threads w_visited w_dropped] in *.
  destruct (find_walker can_move ts) as [(i & t & Hti & Ht)|Hnone].
  - right. right. destruct t as [| |[|c cs]|]; try done.
    + destruct s; [eexists; split; [by eapply w_leave_stop|done]|]. destruct q as [|t q]; [|eexists; split; [by eapply w_pop|done]].
      destruct d; eexists; [split; [by eapply w_leave_done|done]|split; [by eapply w_wait|done]].
    + assert (0 < a) as Hpos.
      { pose proof (sumZ_elem busy1 ts i _ ltac:(by intros []) Hti) as H. cbn [busy1] in H. lia. }
      destruct a as [|a]; [lia|]. destruct a as [|a]; [|eexists; split; [eapply w_finish; [done|by intros []]|done]].
      destruct q as [|t q]; eexists; [split; [by eapply w_finish_last|done]|split; [eapply w_finish; [done|by intros []]|done]].
    + destruct (wake_one_total (<[i := WBusy cs]> ts)) as [ts' Hw]. eexists. split; [by eapply w_push|done].
  - destruct (find_walker is_wait ts) as [(i & t & Hti & Ht)|Hnw].
    + right. left. destruct t; try done. assert (Hw : WWait ∈ ts) by (by eapply list_elem_of_lookup_2).
      destruct d; [by destruct (Hd eq_refl)|]. destruct s; [split; [done|]; destruct k; [by discriminate Hk|done]|].
      destruct (Hi eq_refl (or_introl eq_refl)) as (t & Hin & Hw1 & Hw2). eapply Forall_forall in Hnone; [|exact Hin]. by destruct t.
    + left. apply Forall_forall. intros t Hin. eapply Forall_forall in Hnone; [|exact Hin]. eapply Forall_forall in Hnw; [|exact Hin].
      by destruct t.
Qed.

(** ** Termination: every step uses up some of this *)

Section measure.
Context (n : nat).
Local Open Scope Z_scope.

Fixpoint tree_cost (t : tree) : Z := let 'Dir _ k := t in Z.of_nat n + 4 + foldr (fun c a => tree_cost c + 2 + a) 0 k.
Definition list_cost (l : list tree) : Z := foldr (fun c a => tree_cost c + 2 + a) 0 l.
Definition queue_cost (l : list tree) : Z := foldr (fun c a => tree_cost c + a) 0 l.
Definition thread_cost (t : wthread) : Z :=
  match t with WTop => 1 | WBusy r => Z.of_nat n + 2 + list_cost r | WWait | WOut => 0 end.
Definition cost (w : walk) : Z :=
  queue_cost (w_queue w) + sumZ thread_cost (w_threads w) + (if w_stop w then 0 else 1) + (if w_asked w then 0 else Z.of_nat n + 1).

Lemma tree_cost_pos t : 0 <= tree_cost t.
Proof.
  revert t. fix IH 1. intros [p k]. cbn [tree_cost].
  assert (0 <= foldr (fun c a => tree_cost c + 2 + a) 0 k); [|lia].
  induction k as [|c k IHk]; [done|]. cbn [foldr]. pose proof (IH c). lia.
Qed.
Lemma list_cost_cons c l : list_cost (c :: l) = tree_cost c + 2 + list_cost l.
Proof. done. Qed.
Lemma queue_cost_cons c l : queue_cost (c :: l) = tree_cost c + queue_cost l.
Proof. done. Qed.
Lemma list_cost_pos l : 0 <= list_cost l.
Proof. induction l as [|c l IH]; [done|]. rewrite list_cost_cons. pose proof (tree_cost_pos c). lia. Qed.
Lemma queue_cost_app l k : queue_cost (l ++ k) = queue_cost l + queue_cost k.
Proof. induction l as [|c l IH]; [done|]. cbn [app]. rewrite !queue_cost_cons, IH. lia. Qed.
Lemma queue_cost_pos l : 0 <= queue_cost l.
Proof. induction l as [|c l IH]; [done|]. rewrite queue_cost_cons. pose proof (tree_cost_pos c). lia. Qed.
Lemma thread_cost_pos t : 0 <= thread_cost t.
Proof. destruct t; cbn; try done. pose proof (list_cost_pos rest). lia. Qed.
Lemma cost_pos w : 0 <= cost w.
Proof.
  unfold cost. pose proof (queue_cost_pos (w_queue w)). pose proof (sumZ_nonneg thread_cost (w_threads w) thread_cost_pos).
  destruct (w_stop w), (w_asked w); lia.
Qed.
Lemma tree_cost_kids t : tree_cost t = Z.of_nat n + 4 + list_cost (kids t).
Proof. by destruct t. Qed.

Lemma wake_all_cost ts : sumZ thread_cost (wake_all ts) <= sumZ thread_cost ts + zlen ts.
Proof.
  induction ts as [|t ts IH]; [done|]. rewrite zlen_cons.
  change (sumZ thread_cost (wake_all (t :: ts))) with (thread_cost (wake_thread t) + sumZ thread_cost (wake_all ts)).
  change (sumZ thread_cost (t :: ts)) with (thread_cost t + sumZ thread_cost ts).
  destruct t; cbn [wake_thread thread_cost]; lia.
Qed.
Lemma wake_one_cost ts ts' : wake_one ts ts' -> sumZ thread_cost ts' <= sumZ thread_cost ts + 1.
Proof. intros [[_ ->]|(i & Hi & ->)]; [lia|]. rewrite (sumZ_insert _ _ _ WWait) by done. cbn. lia. Qed.
Lemma wake_one_length ts ts' : wake_one ts ts' -> length ts' = length ts.
Proof. intros [[_ ->]|(i & Hi & ->)]; [done|]. apply length_insert. Qed.

Lemma cost_step w w' : zlen (w_threads w) = Z.of_nat n -> wstep w w' -> cost w' < cost w /\ zlen (w_threads w') = Z.of_nat n.
Proof.
  intros Hn Hs. inversion Hs; subst; unfold cost; cbn [w_queue w_active w_done w_stop w_asked w_threads] in *;
    (split; [|unfold zlen, wake_all in *; rewrite ?length_fmap, ?length_insert; rewrite ?(wake_one_length _ _ H0), ?length_insert; done]).
  - rewrite (sumZ_insert _ _ _ WTop) by done. cbn [thread_cost]. lia.
  - rewrite (sumZ_insert _ _ _ WTop), queue_cost_cons, tree_cost_kids by done. cbn [thread_cost]. lia.
  - rewrite (sumZ_insert _ _ _ WTop), queue_cost_cons, tree_cost_kids by done. cbn [thread_cost].
    pose proof (list_cost_pos (kids t)). change (list_cost []) with 0. lia.
  - rewrite (sumZ_insert _ _ _ WTop) by done. cbn [thread_cost]. lia.
  - rewrite (sumZ_insert _ _ _ WTop) by done. cbn [thread_cost]. lia.
  - pose proof (wake_one_cost _ _ H0) as Hw. rewrite (sumZ_insert _ _ _ (WBusy (c :: cs))) in Hw by done.
    rewrite queue_cost_app, queue_cost_cons. cbn [thread_cost] in *. rewrite list_cost_cons in Hw. change (queue_cost []) with 0. lia.
  - rewrite (sumZ_insert _ _ _ (WBusy (c :: cs))) by done. cbn [thread_cost]. rewrite list_cost_cons. pose proof (tree_cost_pos c). lia.
  - rewrite (sumZ_insert _ _ _ (WBusy (c :: cs))) by done. cbn [thread_cost]. rewrite list_cost_cons. pose proof (tree_cost_pos c).
    pose proof (list_cost_pos cs). change (list_cost []) with 0. lia.
  - rewrite (sumZ_insert _ _ _ (WBusy [])) by done. cbn [thread_cost]. change (list_cost []) with 0. lia.
  - pose proof (wake_all_cost (<[i := WTop]> ts)) as Hw. rewrite (sumZ_insert _ _ _ (WBusy [])) in Hw by done.
    unfold zlen in *. rewrite length_insert in Hw. cbn [thread_cost] in Hw. change (list_cost []) with 0 in Hw. lia.
  - lia.
  - pose proof (wake_all_cost ts). lia.
Qed.
End measure.

(** C21.  The walk visits the whole tree, once. Whatever the interleaving of
    its threads: as long as some thread has not returned, one of them can take a
    step by itself (no signal and no broadcast is lost), unless the stop flag
    has been set and dirwalk_request_stop is still to come; every run is finite,
    with a bound computed from the tree and the number of threads; and when all
    threads have returned and the stop flag was not set, the directories whose
    enumeration began are exactly those of the tree, except the ones below
    directories that could not be opened or queued. This also holds when
    dirwalk_request_stop has been called: without the stop flag it makes no
    thread leave work undone. *)
Theorem walk_visits_all root n w :
  0 < n -> rtc wstep (walk0 root n) w ->
  (all_out w \/ stop_pending w \/ exists w', thread_step w w') /\
  (forall k, nsteps wstep k (walk0 root n) w -> (Z.of_nat k <= cost n (walk0 root n))%Z) /\
  (all_out w -> w_stop w = false -> w_visited w ++ all_nodes (w_dropped w) ≡ₚ nodes root).
Proof.
  intros Hn Hr. pose proof (winv_reachable root n w Hn Hr) as Hw. split_and!.
  - by eapply walk_progress.
  - intros k Hk. assert (G : forall k w1 w2, nsteps wstep k w1 w2 -> zlen (w_threads w1) = Z.of_nat n ->
      (Z.of_nat k <= cost n w1)%Z).
    { clear. induction 1 as [w|k w1 w2 w3 Hs _ IH]; intros Hl; [pose proof (cost_pos n w); lia|].
      destruct (cost_step n _ _ Hl Hs) as [Hc Hl2]. specialize (IH Hl2). lia. }
    eapply G; [exact Hk|]. unfold walk0, zlen. cbn [w_threads]. by rewrite length_replicate.
  - intros Hout Hst. rewrite <- (wi_parts root w Hw Hst). unfold wherever.
    assert (Hq : w_queue w = []).
    { destruct (decide (w_queue w = [])) as [|Hq]; [done|]. destruct (wi_idle root w Hw Hst (or_intror Hq)) as (t & Ht & _ & Ho).
      by eapply Forall_forall in Hout; [|exact Ht]. }
    assert (Hp : concat (pending <$> w_threads w) = []).
    { unfold all_out in Hout. clear -Hout. induction Hout as [|t ts -> _ IH]; [done|]. by cbn. }
    by rewrite Hq, Hp.
Qed.

(** One thread, a directory with two directories in it. *)
Definition small_tree : tree := Dir [] [Dir [1%Z] []; Dir [2%Z] []].
Lemma walk_visits_all_witness :
  exists w, all_out w /\ w_stop w = false /\ w_dropped w = [] /\ w_visited w ++ all_nodes (w_dropped w) ≡ₚ nodes small_tree.
Proof.
  set (a := Dir [1%Z] []). set (b := Dir [2%Z] []).
  assert (Hr : rtc wstep (walk0 small_tree 1) (Walk [] 0 true false false [WOut] [b; a; small_tree] [])).
  { unfold walk0. cbn [replicate].
    eapply rtc_l; [by eapply (w_pop _ _ _ _ _ _ _ _ 0)|]. cbn [kids small_tree insert list_insert].
    eapply rtc_l; [eapply (w_push _ _ _ _ _ _ _ _ 0); [done|left; split; [|done]; by intros ?%list_elem_of_singleton]|]. cbn [insert list_insert app].
    eapply rtc_l; [eapply (w_push _ _ _ _ _ _ _ _ 0); [done|left; split; [|done]; by intros ?%list_elem_of_singleton]|]. cbn [insert list_insert app].
    eapply rtc_l; [eapply (w_finish _ _ _ _ _ _ _ _ 0); [done|by intros []]|]. cbn [insert list_insert].
    eapply rtc_l; [by eapply (w_pop _ _ _ _ _ _ _ _ 0)|]. cbn [kids insert list_insert].
    eapply rtc_l; [eapply (w_finish _ _ _ _ _ _ _ _ 0); [done|by intros []]|]. cbn [insert list_insert].
    eapply rtc_l; [by eapply (w_pop _ _ _ _ _ _ _ _ 0)|]. cbn [kids insert list_insert].
    eapply rtc_l; [by eapply (w_finish_last _ _ _ _ _ _ 0)|]. cbn [wake_all fmap list_fmap wake_thread insert list_insert].
    eapply rtc_l; [by eapply (w_leave_done _ _ _ _ _ 0)|]. apply rtc_refl. }
  eexists. split_and!; [| | |apply (walk_visits_all small_tree 1 _ ltac:(lia) Hr)]; try done; by repeat constructor.
Defined.
