(* ===== verification/DirNode.v ===== *)
(** One directory of the walk (src/dirwalk.c): the reader of its entry stream,
    raw [getdents64] or [readdir], and [process_node].

    The consumer's callbacks are a record of programs over its own state [C];
    the [void *] context of a directory is part of that state. Children are
    queued in the order they are pushed; the threads that take them are the
    subject of Dirwalk.v. *)

From S2P Require Export Posix PathUtils.
#[local] Open Scope Z_scope.

(** * Data *)

(** [dirwalk_node_t]. *)
Record node := Node { nd_path : bytes; nd_st : stat; nd_depth : Z }.

(** [dirwalk_cfg_t], without the number of threads; [cf_stop] tells whether the
    consumer passed a stop flag. *)
Record dirwalk_cfg := DirwalkCfg { cf_getdents_buf : Z; cf_stop : bool; cf_lazy_stat : bool }.

(** What a walker thread keeps: the size of its getdents buffer (0 when it has
    none), the nodes it has pushed and the consumer's state. *)
Record walker (C : Type) := Walker { wk_scratch : Z; wk_pushed : list node; wk_user : C }.
Arguments Walker {C}.
Arguments wk_scratch {C}.
Arguments wk_pushed {C}.
Arguments wk_user {C}.

(** [dirwalk_ops_t]. [op_entry] answers [true] for DIRWALK_DESCEND. *)
Record dirwalk_ops (C : Type) := DirwalkOps {
  op_dir_begin : node -> Z -> M posix C bool;
  op_entry : node -> Z -> bytes -> option stat -> M posix C bool;
  op_dir_end : node -> Z -> bool -> M posix C unit;
  op_error : bytes -> M posix C unit
}.
Arguments DirwalkOps {C}.
Arguments op_dir_begin {C}.
Arguments op_entry {C}.
Arguments op_dir_end {C}.
Arguments op_error {C}.

(** [dirreader_t]: the raw descriptor or -1, the libc stream, the room in the
    buffer and what is left of it. *)
Record dirreader := Dirreader { rd_fd : Z; rd_dirp : Z; rd_cap : Z; rd_rest : bytes }.

Inductive next_entry := Entry (name : bytes) (dtype : Z) | End | Fail.

Section walker.
Context {C : Type} (cfg : dirwalk_cfg) (ops : dirwalk_ops C).

Abbreviation WM := (M posix (walker C)).

(** Run a callback of the consumer. *)
Definition user {A} (c : M posix C A) : WM A :=
  fun w => prog_bind (fun '(a, u) => Ret (a, Walker (wk_scratch w) (wk_pushed w) u)) (c (wk_user w)).

Definition stop_requested : WM bool := if cf_stop cfg then call shutdown_requested else mret false.
Definition report_error (path : bytes) : WM unit := user (op_error ops path).

Definition push_locked (path : bytes) (st : stat) (depth : Z) : WM bool :=
  ok ← call (malloc (160 + zlen path + 1));
  if negb ok then call (eprintf (str "malloc"));; mret false else
  modify (fun w => Walker (wk_scratch w) (wk_pushed w ++ [Node path st depth]) (wk_user w));;
  mret true.

(** * The entry stream *)

(** [struct dirwalk_dirent64] at the start of the buffer. *)
Definition d_reclen (b : bytes) : Z := le_combine (take 2 (drop 16 b)).
Definition d_type (b : bytes) : Z := byte.unsigned (at_ b 18).
Definition d_name (b : bytes) : bytes := cstr (drop 19 b).

Definition thread_scratch : WM bool :=
  have ← gets wk_scratch;
  if decide (have <> 0) then mret true else
  ok ← call (malloc (cf_getdents_buf cfg));
  when ok (modify (fun w => Walker (cf_getdents_buf cfg) (wk_pushed w) (wk_user w)));;
  mret ok.
Definition thread_scratch_free : WM unit := modify (fun w => Walker 0 (wk_pushed w) (wk_user w)).

Definition dirreader_open (stream_fd : Z) : WM (option dirreader) :=
  raw ← (if decide (0 < cf_getdents_buf cfg) then thread_scratch else mret false);
  if (raw : bool) then
    cap ← gets wk_scratch;
    mret (Some (Dirreader stream_fd (-1) cap []))
  else
    r ← call (fdopendir stream_fd);
    mret (match r with Ok _ => Some (Dirreader (-1) stream_fd 0 []) | Err _ => None end).

(** The record at the start of the buffer, and the reader after it. *)
Definition take_entry (rd : dirreader) : next_entry * dirreader :=
  let b := rd_rest rd in
  if decide (d_reclen b = 0) then (End, rd)
  else (Entry (d_name b) (d_type b), Dirreader (rd_fd rd) (rd_dirp rd) (rd_cap rd) (drop (Z.to_nat (d_reclen b)) b)).

Definition dirreader_next (rd : dirreader) : WM (next_entry * dirreader) :=
  if decide (rd_fd rd < 0) then
    de ← call (readdir (rd_dirp rd));
    mret (match de with Ok (Some (name, type)) => Entry name type | _ => End end, rd)
  else if decide (rd_rest rd = []) then
    n ← call (getdents64 (rd_fd rd) (rd_cap rd));
    match n with
    | Err _ => call (eprintf (str "getdents64"));; mret (Fail, rd)
    | Ok [] => mret (End, rd)
    | Ok buf => mret (take_entry (Dirreader (rd_fd rd) (rd_dirp rd) (rd_cap rd) buf))
    end
  else mret (take_entry rd).

Definition dirreader_close (rd : dirreader) : WM unit :=
  if decide (0 <= rd_fd rd) then call (close (rd_fd rd));; mret tt
  else call (closedir (rd_dirp rd)).

(** * One directory *)

Definition same_entry (a b : stat) : bool :=
  bool_decide (st_dev a = st_dev b) && bool_decide (st_ino a = st_ino b) &&
  bool_decide (st_mode a &. S_IFMT = st_mode b &. S_IFMT).

(** The descriptor and what [fstat] tells of it. *)
Definition open_verified_dir (path : bytes) (st : stat) : WM (option (Z * stat)) :=
  fd ← call (open path (O_RDONLY |. O_DIRECTORY |. O_CLOEXEC |. O_NOFOLLOW) 0);
  match fd with
  | Err _ => call (eprintf path);; mret None
  | Ok fd =>
      opened ← call (fstat fd);
      match opened with
      | Err _ => call (eprintf path);; call (close fd);; mret None
      | Ok opened =>
          if negb (S_ISDIR (st_mode opened)) || negb (same_entry st opened) then
            call (eprintf (str "Directory changed during traversal: " ++ path));; call (close fd);; mret None
          else mret (Some (fd, opened))
      end
  end.

Definition is_dot (name : bytes) : bool := bool_decide (name = str "." \/ name = str "..").

(** An entry the consumer descends into is queued as a child. *)
Definition push_child (n : node) (name : bytes) (st : stat) : WM unit :=
  match path_join_fast (nd_path n) name PATH_MAX with
  | None => call (eprintf (str "Path too long: " ++ nd_path n ++ str "/" ++ name));; report_error (nd_path n)
  | Some child =>
      ok ← push_locked child st (nd_depth n + 1);
      when (negb ok) (report_error child)
  end.

(** One round of the loop for an entry that is not "." or "..". *)
Definition deliver_entry (n : node) (dir_fd : Z) (name : bytes) (dtype : Z) : WM unit :=
  if cf_lazy_stat cfg && negb (bool_decide (dtype = DT_UNKNOWN)) && negb (bool_decide (dtype = DT_DIR)) then
    user (op_entry ops n dir_fd name None);; mret tt
  else
    st ← call (fstatat dir_fd name AT_SYMLINK_NOFOLLOW);
    match st with
    | Err _ => call (eprintf name);; report_error (nd_path n)
    | Ok st =>
        descend ← user (op_entry ops n dir_fd name (Some st));
        when (descend && S_ISDIR (st_mode st)) (push_child n name st)
    end.

(** The loop over the entries; [fuel] bounds their number. The result tells
    whether the stream failed. *)
Fixpoint entries_loop (fuel : nat) (n : node) (dir_fd : Z) (rd : dirreader) : WM (bool * dirreader) :=
  match fuel with
  | O => stuck
  | S fuel =>
      '(e, rd) ← dirreader_next rd;
      match e with
      | End => mret (false, rd)
      | Fail => mret (true, rd)
      | Entry name dtype =>
          stop ← stop_requested;
          if (stop : bool) then mret (false, rd)
          else if is_dot name then entries_loop fuel n dir_fd rd
          else deliver_entry n dir_fd name dtype;; entries_loop fuel n dir_fd rd
      end
  end.

Definition process_node (fuel : nat) (n : node) : WM unit :=
  opened ← open_verified_dir (nd_path n) (nd_st n);
  match opened with
  | None => report_error (nd_path n)
  | Some (dir_fd, st) =>
      let n := Node (nd_path n) st (nd_depth n) in
      ok ← user (op_dir_begin ops n dir_fd);
      if negb ok then call (close dir_fd);; mret tt else
      stream ← call (dup dir_fd);
      rd ← (match stream with
            | Err _ => mret None
            | Ok stream_fd =>
                rd ← dirreader_open stream_fd;
                match rd with
                | None => call (eprintf (nd_path n));; call (close stream_fd);; mret None
                | Some rd => mret (Some rd)
                end
            end);
      match rd with
      | None =>
          when (negb (is_ok stream)) (call (eprintf (nd_path n)));;
          report_error (nd_path n);;
          user (op_dir_end ops n dir_fd true);;
          call (close dir_fd);; mret tt
      | Some rd =>
          '(failed, rd) ← entries_loop fuel n dir_fd rd;
          dirreader_close rd;;
          when failed (report_error (nd_path n));;
          user (op_dir_end ops n dir_fd failed);;
          call (close dir_fd);; mret tt
      end
  end.
End walker.

Lemma wpM_user {C A} (m : monitor posix) (c : M posix C A) (w : walker C) g (Q : mstate m -> A -> walker C -> Prop) :
  wpM m c (wk_user w) g (fun g a u => Q g a (Walker (wk_scratch w) (wk_pushed w) u)) -> wpM m (user c) w g Q.
Proof. intros H. unfold wpM, user. apply wp_bind. eapply wp_mono; [exact H|]. by intros g' [a u]. Qed.

(** * What one directory's consumer is told

    The consumer of the theorem writes down what it is told. *)

Inductive note := NBegin (n : node) | NEntry (name : bytes) (st : option stat) | NError (path : bytes) | NEnd (failed : bool).

Section scribe.
Context (begins : bool) (descends : bytes -> option stat -> bool).
Definition log_note (x : note) : M posix (list note) unit := modify (fun l => l ++ [x]).
Definition scribe : dirwalk_ops (list note) :=
  DirwalkOps
    (fun n _ => log_note (NBegin n);; mret begins)
    (fun _ _ name st => log_note (NEntry name st);; mret (descends name st))
    (fun _ _ failed => log_note (NEnd failed))
    (fun path => log_note (NError path)).
End scribe.

(** ** A directory as the kernel presents it *)

Record dent := Dent { de_ino : Z; de_off : Z; de_name : bytes; de_type : Z; de_pad : bytes }.

(** [struct linux_dirent64] (getdents64(2)): the record's length includes the
    padding behind the name's NUL. *)
Definition dent_len (e : dent) : Z := 20 + zlen (de_name e) + zlen (de_pad e).
Definition dent_bytes (e : dent) : bytes :=
  le_split 8 (de_ino e) ++ le_split 8 (de_off e) ++ le_split 2 (dent_len e) ++ [byte.of_Z (de_type e)] ++
  de_name e ++ NUL :: de_pad e.
Record dent_ok (e : dent) : Prop := DentOk {
  deo_name : is_cstr (de_name e); deo_type : is_u8 (de_type e); deo_len : dent_len e < 2 ^ 16
}.

(** The entries left after [n] bytes of them have been returned. *)
Fixpoint skip_dents (n : nat) (l : list dent) : list dent :=
  match l with
  | [] => []
  | e :: l' => if decide (n = 0%nat) then l else skip_dents (n - length (dent_bytes e)) l'
  end.

Lemma dent_bytes_length e : length (dent_bytes e) = Z.to_nat (dent_len e).
Proof.
  unfold dent_bytes, dent_len. rewrite !length_app, !length_le_split. cbn [length]. unfold zlen. lia.
Qed.
Lemma dent_len_pos e : 20 <= dent_len e.
Proof. unfold dent_len. pose proof (zlen_nonneg (de_name e)). pose proof (zlen_nonneg (de_pad e)). lia. Qed.
Lemma skip_dents_app k l : skip_dents (length (concat (dent_bytes <$> k))) (k ++ l) = l.
Proof.
  induction k as [|e k IH]; [by destruct l|]. cbn [fmap list_fmap concat app skip_dents].
  rewrite length_app, dent_bytes_length. pose proof (dent_len_pos e). rewrite decide_False by lia.
  replace (Z.to_nat (dent_len e) + length (concat (dent_bytes <$> k)) - Z.to_nat (dent_len e))%nat
    with (length (concat (dent_bytes <$> k))) by lia. exact IH.
Qed.

(** Reading a record back. *)
Lemma dent_layout e k : exists hdr, length hdr = 16%nat /\
  dent_bytes e ++ k = hdr ++ le_split 2 (dent_len e) ++ [byte.of_Z (de_type e)] ++ de_name e ++ NUL :: (de_pad e ++ k).
Proof.
  exists (le_split 8 (de_ino e) ++ le_split 8 (de_off e)). split; [done|].
  unfold dent_bytes. by rewrite <- !(assoc_L (++)).
Qed.
Lemma dent_reclen e k : dent_ok e -> d_reclen (dent_bytes e ++ k) = dent_len e.
Proof.
  intros [_ _ Hl]. pose proof (dent_len_pos e). destruct (dent_layout e k) as (hdr & Hh & ->). unfold d_reclen.
  rewrite drop_app_length' by done. rewrite take_app_length' by (by rewrite length_le_split).
  rewrite le_combine_split. apply Z.mod_small. lia.
Qed.
Lemma dent_type e k : dent_ok e -> d_type (dent_bytes e ++ k) = de_type e.
Proof.
  intros [_ Ht _]. destruct (dent_layout e k) as (hdr & Hh & ->). unfold d_type, at_.
  rewrite lookup_app_r by lia. rewrite Hh. rewrite lookup_app_r by (rewrite length_le_split; lia). rewrite length_le_split.
  cbn. rewrite byte.unsigned_of_Z. apply Z.mod_small, Ht.
Qed.
Lemma dent_name e k : dent_ok e -> d_name (dent_bytes e ++ k) = de_name e.
Proof.
  intros [Hn _ _]. destruct (dent_layout e k) as (hdr & Hh & ->). unfold d_name.
  rewrite drop_app_ge by lia. rewrite Hh, drop_app_ge by (rewrite length_le_split; lia). rewrite length_le_split.
  cbn [Nat.sub drop app]. by apply cstr_app_nul.
Qed.

(** ** The monitor *)

Record lghost := LG {
  lg_left : list dent;      (* entries the kernel has still to return *)
  lg_fds : gset Z;          (* open descriptors *)
  lg_stop : bool;           (* the stop flag has been seen set *)
  lg_err : bool             (* reading the directory has failed *)
}.

Definition list_pre (g : lghost) R (e : posix R) : Prop :=
  match e with
  | close fd | closedir fd | fstat fd | dup fd | fdopendir fd | readdir fd | getdents64 fd _ | fstatat fd _ _ => fd ∈ lg_fds g
  | open _ _ _ | malloc _ | eprintf _ | shutdown_requested => True
  | _ => False
  end.
Definition list_adm (g : lghost) R (e : posix R) : R -> Prop :=
  match e in posix R return R -> Prop with
  | open _ _ _ | dup _ => fun r => match r with Ok fd => 0 <= fd /\ fd ∉ lg_fds g | Err _ => True end
  | readdir _ => fun r =>
      match r with
      | Ok (Some (name, type)) => exists e l, lg_left g = e :: l /\ name = de_name e /\ type = de_type e
      | Ok None => lg_left g = []
      | Err _ => True
      end
  | getdents64 _ _ => fun r =>
      match r with
      | Ok d => exists k l, lg_left g = k ++ l /\ d = concat (dent_bytes <$> k) /\ (d = [] -> lg_left g = [])
      | Err _ => True
      end
  | _ => fun _ => True
  end.
Definition list_upd (g : lghost) R (e : posix R) : R -> lghost :=
  match e in posix R return R -> lghost with
  | open _ _ _ | dup _ => fun r =>
      match r with Ok fd => LG (lg_left g) ({[fd]} ∪ lg_fds g) (lg_stop g) (lg_err g) | Err _ => g end
  | close fd | closedir fd => fun _ => LG (lg_left g) (lg_fds g ∖ {[fd]}) (lg_stop g) (lg_err g)
  | readdir _ => fun r =>
      match r with
      | Ok (Some _) => LG (tail (lg_left g)) (lg_fds g) (lg_stop g) (lg_err g)
      | Ok None => g
      | Err _ => LG (lg_left g) (lg_fds g) (lg_stop g) true
      end
  | getdents64 _ _ => fun r =>
      match r with
      | Ok d => LG (skip_dents (length d) (lg_left g)) (lg_fds g) (lg_stop g) (lg_err g)
      | Err _ => LG (lg_left g) (lg_fds g) (lg_stop g) true
      end
  | shutdown_requested => fun r => LG (lg_left g) (lg_fds g) (r || lg_stop g) (lg_err g)
  | _ => fun _ => g
  end.
Definition listing : monitor posix := Monitor lghost list_pre list_adm list_upd False.

(** ** What is told of one entry, and of all *)

Section told.
Context (cfg : dirwalk_cfg) (descends : bytes -> option stat -> bool) (n : node).

(** The notes and the children queued for one entry. *)
Inductive told (e : dent) : list note -> list node -> Prop :=
| told_lazy :
    cf_lazy_stat cfg = true -> de_type e <> DT_UNKNOWN -> de_type e <> DT_DIR ->
    told e [NEntry (de_name e) None] []
| told_no_stat : told e [NError (nd_path n)] []
| told_leaf st :
    descends (de_name e) (Some st) && S_ISDIR (st_mode st) = false ->
    told e [NEntry (de_name e) (Some st)] []
| told_child st child :
    descends (de_name e) (Some st) = true -> S_ISDIR (st_mode st) = true ->
    path_join_fast (nd_path n) (de_name e) PATH_MAX = Some child ->
    told e [NEntry (de_name e) (Some st)] [Node child st (nd_depth n + 1)]
| told_child_lost st p :            (* the path is too long, or no memory *)
    descends (de_name e) (Some st) = true -> S_ISDIR (st_mode st) = true ->
    told e [NEntry (de_name e) (Some st); NError p] [].

Inductive tolds : list dent -> list note -> list node -> Prop :=
| tolds_nil : tolds [] [] []
| tolds_dot e es ts ps : de_name e = str "." \/ de_name e = str ".." -> tolds es ts ps -> tolds (e :: es) ts ps
| tolds_cons e es t p ts ps :
    de_name e <> str "." -> de_name e <> str ".." -> told e t p -> tolds es ts ps -> tolds (e :: es) (t ++ ts) (p ++ ps).
End told.

Section reading.
Context (cfg : dirwalk_cfg) (begins : bool) (descends : bytes -> option stat -> bool).
Abbreviation ops := (scribe begins descends).
Abbreviation walker := (walker (list note)).

(** The state after some notes and children. *)
Definition noted (w : walker) (ts : list note) (ps : list node) (w' : walker) : Prop :=
  wk_user w' = wk_user w ++ ts /\ wk_pushed w' = wk_pushed w ++ ps.
Lemma noted_refl w : noted w [] [] w.
Proof. split; by rewrite app_nil_r. Qed.
Lemma noted_trans w1 w2 w3 ts1 ps1 ts2 ps2 : noted w1 ts1 ps1 w2 -> noted w2 ts2 ps2 w3 -> noted w1 (ts1 ++ ts2) (ps1 ++ ps2) w3.
Proof. intros [H1 H2] [H3 H4]. split; [by rewrite H3, H1, (assoc_L (++))|by rewrite H4, H2, (assoc_L (++))]. Qed.

(** A reader over the entries [k] still in its buffer. *)
Definition reads (g : lghost) (rd : dirreader) (k : list dent) : Prop :=
  rd_rest rd = concat (dent_bytes <$> k) /\ Forall dent_ok (k ++ lg_left g) /\
  (rd_fd rd < 0 -> k = [] /\ rd_dirp rd ∈ lg_fds g) /\ (0 <= rd_fd rd -> rd_fd rd ∈ lg_fds g).

Lemma take_entry_ok rd e k :
  rd_rest rd = concat (dent_bytes <$> (e :: k)) -> dent_ok e ->
  take_entry rd = (Entry (de_name e) (de_type e), Dirreader (rd_fd rd) (rd_dirp rd) (rd_cap rd) (concat (dent_bytes <$> k))).
Proof.
  intros Hr He. unfold take_entry. rewrite Hr. cbn [fmap list_fmap concat]. pose proof (dent_len_pos e).
  rewrite dent_reclen, dent_name, dent_type by done. rewrite decide_False by lia.
  by rewrite drop_app_length' by (by rewrite dent_bytes_length).
Qed.
Lemma concat_dents_nil k : concat (dent_bytes <$> k) = [] -> k = [].
Proof.
  destruct k as [|e k]; [done|]. intros H. apply (f_equal length) in H. cbn [fmap list_fmap concat] in H.
  rewrite length_app, dent_bytes_length in H. pose proof (dent_len_pos e). simpl in H. lia.
Qed.

Definition same_but (g g' : lghost) : Prop := lg_fds g' = lg_fds g /\ lg_stop g' = lg_stop g.

Lemma next_ok rd k w g :
  reads g rd k ->
  wpM listing (dirreader_next rd) (w : walker) g (fun g' '((e, rd') : next_entry * dirreader) w' =>
    w' = w /\ same_but g g' /\ rd_fd rd' = rd_fd rd /\ rd_dirp rd' = rd_dirp rd /\
    match e with
    | Entry name type => exists d k', k ++ lg_left g = d :: k' ++ lg_left g' /\ name = de_name d /\ type = de_type d /\
        reads g' rd' k' /\ lg_err g' = lg_err g
    | End => k ++ lg_left g = [] /\ lg_err g' = lg_err g \/ rd_fd rd < 0 /\ lg_err g' = true
    | Fail => lg_err g' = true
    end).
Proof.
  intros (Hr & Hok & Hlibc & Hraw). unfold dirreader_next.
  destruct (decide (rd_fd rd < 0)) as [Hneg|Hpos].
  { destruct (Hlibc Hneg) as [-> Hd]. wp_call de Hde. wp_step. split; [done|].
    destruct de as [[[name type]|]|e].
    - destruct Hde as (d & l & Hl & -> & ->). split_and!; try done. exists d, []. cbn. rewrite Hl. split_and!; try done.
      split_and!; try done. rewrite Hl in Hok. by inversion Hok.
    - split_and!; try done. left. by rewrite Hde.
    - split_and!; try done. by right. }
  specialize (Hraw ltac:(lia)). destruct (decide (rd_rest rd = [])) as [Hnil|Hne].
  { rewrite Hnil in Hr. symmetry in Hr. apply concat_dents_nil in Hr as ->. cbn [app] in *.
    wp_call n Hn. destruct n as [buf|e].
    2: { wp_call u Hu. wp_step. split_and!; try done. }
    destruct Hn as (k & l & Hl & Hbuf & Hempty). destruct buf as [|b buf].
    { wp_step. specialize (Hempty eq_refl). split_and!; try done. left. cbn. by rewrite Hempty. }
    destruct k as [|e k]; [done|]. rewrite Hl in Hok. pose proof (Forall_inv Hok) as He. cbn in He.
    rewrite (take_entry_ok (Dirreader (rd_fd rd) (rd_dirp rd) (rd_cap rd) (b :: buf)) e k Hbuf He). wp_step.
    split_and!; try done. exists e, k. cbn [mupd listing list_upd lg_left lg_err lg_fds]. rewrite Hbuf, Hl, skip_dents_app.
    split_and!; try done. split_and!; try done. cbn [lg_left]. by inversion Hok. }
  destruct k as [|e k]; [done|]. pose proof (Forall_inv Hok) as He. cbn in He.
  rewrite (take_entry_ok rd e k Hr He). wp_step. split_and!; try done.
  exists e, k. split_and!; try done. split_and!; try done. by inversion Hok.
Qed.

(** Writing a note. *)
Definition write_note (x : note) (w : walker) : walker := Walker (wk_scratch w) (wk_pushed w) (wk_user w ++ [x]).
Lemma write_noted x w : noted w [x] [] (write_note x w).
Proof. split; [done|by rewrite app_nil_r]. Qed.
Lemma user_note {A} x (a : A) w g Q :
  Q g a (write_note x w) -> wpM listing (user (log_note x;; mret a)) w g Q.
Proof. done. Qed.
Lemma user_note_ x w g Q : Q g tt (write_note x w) -> wpM listing (user (log_note x)) w g Q.
Proof. done. Qed.

Lemma push_child_ok n e st w g :
  wpM listing (push_child ops n (de_name e) st) w g (fun g' _ w' => g' = g /\ exists ts ps,
    noted w ts ps w' /\
    (descends (de_name e) (Some st) = true -> S_ISDIR (st_mode st) = true ->
     told cfg descends n e (NEntry (de_name e) (Some st) :: ts) ps)).
Proof.
  unfold push_child, report_error. destruct (path_join_fast _ _ _) as [child|] eqn:Hj.
  2: { wp_call u Hu. apply user_note_. split; [done|]. exists [NError (nd_path n)], [].
       split; [apply write_noted|]. by intros; eapply told_child_lost. }
  unfold push_locked. wp_step. wp_call ok Hok. destruct ok.
  - cbn [negb]. wp_step. wp_step. wp_step. cbn [negb when]. wp_step. split; [done|]. exists [], [Node child st (nd_depth n + 1)].
    split; [by split; [rewrite app_nil_r|]|]. by intros; eapply told_child.
  - cbn [negb]. wp_call u Hu. wp_step. cbn [negb when]. apply user_note_. split; [done|]. exists [NError child], [].
    split; [apply write_noted|]. by intros; eapply told_child_lost.
Qed.

Lemma deliver_ok n fd e w g :
  fd ∈ lg_fds g -> 
  wpM listing (deliver_entry cfg ops n fd (de_name e) (de_type e)) w g (fun g' _ w' => g' = g /\ exists ts ps,
    noted w ts ps w' /\ told cfg descends n e ts ps).
Proof.
  intros Hfd. unfold deliver_entry. destruct (_ && _ && _) eqn:Hlazy.
  { wp_step. apply user_note. cbn beta. wp_step. split; [done|]. eexists _, []. split; [apply write_noted|].
    rewrite !andb_true_iff, !negb_true_iff, !bool_decide_eq_false in Hlazy. destruct Hlazy as [[? ?] ?]. by apply told_lazy. }
  wp_call st Hst. destruct st as [st|er].
  2: { wp_call u Hu. apply user_note_. split; [done|]. eexists _, []. split; [apply write_noted|]. apply told_no_stat. }
  wp_step. apply user_note. cbn beta. destruct (descends (de_name e) (Some st) && S_ISDIR (st_mode st)) eqn:Hd; cbn [when].
  - apply andb_true_iff in Hd as [Hd1 Hd2]. eapply wpM_mono; [apply (push_child_ok n e st)|].
    intros g' _ w' (-> & ts & ps & Hn & Ht). split; [done|]. exists (NEntry (de_name e) (Some st) :: ts), ps.
    split; [|by apply Ht]. apply (noted_trans _ _ _ [_] [] ts ps (write_noted _ _) Hn).
  - wp_step. split; [done|]. eexists _, []. split; [apply write_noted|by apply told_leaf].
Qed.

Lemma stop_ok (w : walker) g :
  wpM listing (stop_requested cfg) w g (fun g' stop w' =>
    w' = w /\ lg_fds g' = lg_fds g /\ lg_left g' = lg_left g /\ lg_err g' = lg_err g /\ (stop = true -> lg_stop g' = true)).
Proof. unfold stop_requested. destruct (cf_stop cfg); [wp_call b Hb; cbn|wp_step]; split_and!; try done. by intros ->. Qed.

(** The loop delivers what is left, up to a stop or a failure to read. *)
Lemma entries_ok fuel n fd rd k w g :
  reads g rd k -> fd ∈ lg_fds g -> (length (k ++ lg_left g) < fuel)%nat ->
  wpM listing (entries_loop cfg ops fuel n fd rd) w g (fun g' '((failed, rd') : bool * dirreader) w' =>
    lg_fds g' = lg_fds g /\ rd_fd rd' = rd_fd rd /\ rd_dirp rd' = rd_dirp rd /\
    (lg_err g = false -> 0 <= rd_fd rd -> lg_err g' = failed) /\
    exists es rest ts ps, k ++ lg_left g = es ++ rest /\ (rest = [] \/ lg_stop g' = true \/ lg_err g' = true) /\
      tolds cfg descends n es ts ps /\ noted w ts ps w').
Proof.
  revert rd k w g. induction fuel as [|fuel IH]; intros rd k w g Hr Hfd Hf; [lia|]. cbn [entries_loop].
  wp_step. eapply wpM_mono; [by apply next_ok|]. intros g1 [e rd1] w1 (-> & [Hs1 Hs2] & H1 & H2 & He).
  destruct e as [name type| |].
  - destruct He as (d & k' & Hk & -> & -> & Hr1 & Herr).
    wp_step. eapply wpM_mono; [apply stop_ok|]. intros g2 stop w2 (-> & Hfds & Hleft & Herr2 & Hst).
    destruct stop.
    { wp_step. rewrite Hfds, H1, H2. split_and!; try done.
      - intros Hg. rewrite Herr2, Herr, Hg. done.
      - exists [], (k ++ lg_left g), [], []. split_and!; [done|right; left; auto|constructor|apply noted_refl]. }
    assert (Hr2 : reads g2 rd1 k').
    { destruct Hr1 as (? & ? & ? & ?). unfold reads. by rewrite Hfds, Hleft. }
    assert (Hlen : (length (k' ++ lg_left g2) < fuel)%nat) by (rewrite Hleft; rewrite Hk in Hf; simpl in Hf; lia).
    assert (Hfd2 : fd ∈ lg_fds g2) by (by rewrite Hfds, Hs1).
    (* the rest of the loop, after [ts] and [ps] have been noted for [d] *)
    assert (Hrest : forall w3 ts ps, noted w ts ps w3 ->
        (forall es ts' ps', tolds cfg descends n es ts' ps' -> tolds cfg descends n (d :: es) (ts ++ ts') (ps ++ ps')) ->
        wpM listing (entries_loop cfg ops fuel n fd rd1) w3 g2 (fun g' '((failed, rd') : bool * dirreader) w' =>
          lg_fds g' = lg_fds g /\ rd_fd rd' = rd_fd rd /\ rd_dirp rd' = rd_dirp rd /\
          (lg_err g = false -> 0 <= rd_fd rd -> lg_err g' = failed) /\
          exists es rest ts ps, k ++ lg_left g = es ++ rest /\ (rest = [] \/ lg_stop g' = true \/ lg_err g' = true) /\
            tolds cfg descends n es ts ps /\ noted w ts ps w')).
    { intros w3 ts ps Hn Ht. eapply wpM_mono; [by apply (IH rd1 k')|].
      intros g' [failed rd'] w' (E1 & E2 & E3 & E4 & es & rest & ts' & ps' & E5 & E6 & E7 & E8).
      split_and!; [congruence|congruence|congruence|by rewrite H1, Herr2, Herr in E4|].
      exists (d :: es), rest, (ts ++ ts'), (ps ++ ps'). split_and!; [|done|by apply Ht|by eapply noted_trans].
      by rewrite Hk, <- Hleft, E5. }
    unfold is_dot. destruct (bool_decide _) eqn:Hdot; [apply bool_decide_eq_true in Hdot|apply bool_decide_eq_false in Hdot].
    { apply (Hrest w [] []); [apply noted_refl|]. intros es ts' ps' Ht. by apply tolds_dot. }
    assert (Hdots : de_name d <> str "." /\ de_name d <> str "..") by (by split; intros ?; apply Hdot; [left|right]). destruct Hdots.
    wp_step. eapply wpM_mono; [by apply deliver_ok|]. intros g3 u w3 (-> & ts & ps & Hn & Ht).
    apply (Hrest w3 ts ps Hn). intros es ts' ps' ?. by apply tolds_cons.
  - wp_step. destruct He as [[Hk Herr]|[Hneg Herr]].
    + split_and!; try done; [by intros Hg _; rewrite Herr|]. exists [], [], [], []. rewrite Hk.
      split_and!; [done|by left|constructor|apply noted_refl].
    + split_and!; try done; [lia|]. exists [], (k ++ lg_left g), [], []. split_and!; [done|by right; right|constructor|apply noted_refl].
  - wp_step. split_and!; try done. exists [], (k ++ lg_left g), [], []. split_and!; [done|by right; right|constructor|apply noted_refl].
Qed.

(** ** Descriptors *)

Definition quiet_but_fds (g g' : lghost) : Prop := lg_left g' = lg_left g /\ lg_stop g' = lg_stop g /\ lg_err g' = lg_err g.

Lemma fds_opened (F : gset Z) fd : fd ∉ F -> ({[fd]} ∪ F) ∖ {[fd]} = F.
Proof. set_solver. Qed.

Lemma open_verified_ok path st (w : walker) g :
  wpM listing (open_verified_dir path st) w g (fun g' r w' =>
    w' = w /\ quiet_but_fds g g' /\
    match r with
    | None => lg_fds g' = lg_fds g
    | Some (fd, st') => 0 <= fd /\ (fd ∉ lg_fds g) /\ lg_fds g' = ({[fd]} ∪ lg_fds g) /\ S_ISDIR (st_mode st') = true /\ same_entry st st' = true
    end).
Proof.
  unfold open_verified_dir. wp_call fd Hfd. destruct fd as [fd|e]; [destruct Hfd as [Hpos Hfd]|by wp_call u Hu; wp_step].
  wp_call opened Ho; [cbn; set_solver|]. destruct opened as [opened|e].
  2: { wp_call u Hu. wp_call c Hc; [cbn; set_solver|]. wp_step. split_and!; try done. cbn. by apply fds_opened. }
  destruct (S_ISDIR (st_mode opened)) eqn:Hd; cbn [negb orb]; [destruct (same_entry st opened) eqn:Hs; cbn [negb]|].
  - wp_step. by split_and!.
  - wp_call u Hu. wp_call c Hc; [cbn; set_solver|]. wp_step. split_and!; try done. cbn. by apply fds_opened.
  - wp_call u Hu. wp_call c Hc; [cbn; set_solver|]. wp_step. split_and!; try done. cbn. by apply fds_opened.
Qed.

(** A reader over the duplicate, or nothing kept open. *)
Lemma dirreader_open_ok fd w g :
  0 <= fd -> fd ∈ lg_fds g -> Forall dent_ok (lg_left g) ->
  wpM listing (dirreader_open cfg fd) (w : walker) g (fun g' r w' =>
    g' = g /\ noted w [] [] w' /\
    match r with
    | None => True
    | Some rd => reads g rd [] /\ (rd_fd rd = fd \/ rd_fd rd < 0 /\ rd_dirp rd = fd) /\
        (wk_scratch w <> 0 -> 0 < cf_getdents_buf cfg -> rd_fd rd = fd)
    end).
Proof.
  intros Hpos Hfd Hok. unfold dirreader_open. wp_step.
  apply wpM_mono with (Q := fun g' raw w' => g' = g /\ noted w [] [] w' /\ (wk_scratch w <> 0 -> 0 < cf_getdents_buf cfg -> raw = true)).
  { destruct (decide (0 < cf_getdents_buf cfg)) as [Hbuf|]; [|wp_step; split_and!; [done|apply noted_refl|done]].
    unfold thread_scratch. wp_step. wp_step. destruct (decide (wk_scratch w <> 0)).
    - wp_step. split_and!; [done|apply noted_refl|done].
    - wp_call ok Hmem. wp_step. destruct ok; cbn [when]; wp_step; wp_step; split_and!; try done; split; by rewrite app_nil_r. }
  intros g1 raw w1 (-> & Hn & Hraw). destruct raw.
  - wp_step. wp_step. wp_step. split_and!; [done|done| |by left|done].
    split; [done|split; [done|split; [cbn; lia|done]]].
  - wp_call r Hr. wp_step. split_and!; [done|done|]. destruct r as [[]|e]; [|done].
    split_and!; [|by right; cbn|].
    { split; [done|split; [done|split; [done|cbn; lia]]]. }
    intros H1 H2. by specialize (Hraw H1 H2).
Qed.

Lemma dirreader_close_ok rd F fd w g :
  lg_fds g = {[fd]} ∪ F -> fd ∉ F -> (rd_fd rd = fd /\ 0 <= fd \/ rd_fd rd < 0 /\ rd_dirp rd = fd) ->
  wpM listing (dirreader_close rd) (w : walker) g (fun g' _ w' => w' = w /\ quiet_but_fds g g' /\ lg_fds g' = F).
Proof.
  intros HF Hfd Hrd. unfold dirreader_close. destruct (decide (0 <= rd_fd rd)) as [Hp|Hp].
  - destruct Hrd as [[-> _]|[? _]]; [|lia]. wp_call r Hr; [cbn; set_solver|]. wp_step. split_and!; try done. cbn. rewrite HF. by apply fds_opened.
  - destruct Hrd as [[? ?]|[_ <-]]; [lia|]. wp_call r Hr; [cbn; set_solver|]. split_and!; try done. cbn. rewrite HF. by apply fds_opened.
Qed.
End reading.

(** C22.  What the walker tells its consumer of one directory. However the kernel
    cuts the entry stream into getdents64 buffers, and also when it is read with
    readdir: every descriptor the walker opened is closed; a directory that
    cannot be opened, or is no longer the object found before, is reported and
    left alone; otherwise the entries are delivered in the order of the
    directory, "." and ".." left out, each one once, as an entry with its lstat
    (or without, when the consumer asked not to pay for it and the type is
    known) or as an error; each directory the consumer descends into is queued
    once, with its path and depth, or reported. Nothing is left out unless a
    stop was requested or reading failed, and with the raw reader a failure
    always shows in the result passed to dir_end. *)
Theorem process_node_complete cfg begins descends n scratch es fuel :
  Forall dent_ok es -> (length es < fuel)%nat ->
  wpM listing (process_node cfg (scribe begins descends) fuel n) (Walker scratch [] []) (LG es ∅ false false) (fun g _ w =>
    lg_fds g = ∅ /\
    (wk_user w = [NError (nd_path n)] /\ wk_pushed w = [] \/
     exists st, let n' := Node (nd_path n) st (nd_depth n) in
       S_ISDIR (st_mode st) = true /\ same_entry (nd_st n) st = true /\
       (begins = false /\ wk_user w = [NBegin n'] /\ wk_pushed w = [] \/
        begins = true /\ wk_user w = [NBegin n'; NError (nd_path n); NEnd true] /\ wk_pushed w = [] \/
        begins = true /\ exists failed done rest ts,
          wk_user w = NBegin n' :: ts ++ (if failed : bool then [NError (nd_path n)] else []) ++ [NEnd failed] /\
          es = done ++ rest /\ tolds cfg descends n' done ts (wk_pushed w) /\
          (rest = [] \/ lg_stop g = true \/ lg_err g = true) /\
          (scratch <> 0 -> 0 < cf_getdents_buf cfg -> lg_err g = failed)))).
Proof.
  intros Hes Hf. unfold process_node, report_error. wp_step. eapply wpM_mono; [apply (open_verified_ok descends)|].
  intros g1 opened w1 (-> & (Hl1 & Hs1 & He1) & Ho). destruct opened as [[fd st]|].
  2: { apply user_note_. split; [done|]. by left. }
  destruct Ho as (Hpos & Hfd & Hfds & Hdir & Hsame). cbn [lg_fds lg_left lg_stop lg_err] in *.
  wp_step. apply user_note. cbn beta. destruct begins; cbn [negb].
  2: { wp_call c Hc; [cbn; set_solver|]. wp_step. split; [cbn; set_solver|]. right. exists st. split_and!; [done|done|by left]. }
  set (n' := Node (nd_path n) st (nd_depth n)). set (w1 := write_note (NBegin n') (Walker scratch [] [])).
  wp_call stream Hst; [cbn; set_solver|].
  (* the end of the call, whatever was read *)
  assert (Hend : forall w ts ps failed g, noted w1 ts ps w -> lg_fds g = {[fd]} ->
    (ts = [NError (nd_path n)] /\ ps = [] /\ failed = true \/
     exists es' rest ts', ts = ts' ++ (if failed : bool then [NError (nd_path n)] else []) /\ es = es' ++ rest /\ tolds cfg descends n' es' ts' ps /\
       (rest = [] \/ lg_stop g = true \/ lg_err g = true) /\ (scratch <> 0 -> 0 < cf_getdents_buf cfg -> lg_err g = failed)) ->
    wpM listing (user (op_dir_end (scribe true descends) n' fd failed);; call (close fd);; mret tt) w g (fun g _ w =>
      lg_fds g = ∅ /\
      (wk_user w = [NError (nd_path n)] /\ wk_pushed w = [] \/
       exists st, let n' := Node (nd_path n) st (nd_depth n) in
         S_ISDIR (st_mode st) = true /\ same_entry (nd_st n) st = true /\
         (true = false /\ wk_user w = [NBegin n'] /\ wk_pushed w = [] \/
          true = true /\ wk_user w = [NBegin n'; NError (nd_path n); NEnd true] /\ wk_pushed w = [] \/
          true = true /\ exists failed done rest ts,
            wk_user w = NBegin n' :: ts ++ (if failed : bool then [NError (nd_path n)] else []) ++ [NEnd failed] /\
            es = done ++ rest /\ tolds cfg descends n' done ts (wk_pushed w) /\
            (rest = [] \/ lg_stop g = true \/ lg_err g = true) /\
            (scratch <> 0 -> 0 < cf_getdents_buf cfg -> lg_err g = failed))))).
  { intros w ts ps failed g [Hu Hp] Hg Hcase. wp_step. apply user_note_. wp_call c Hc; [cbn; set_solver|]. wp_step.
    split; [cbn; set_solver|]. right. exists st. split_and!; [done|done|]. right. cbn [write_note wk_user wk_pushed] in *.
    destruct Hcase as [(-> & -> & ->)|(es' & rest & ts' & -> & He & Ht & Hrest & Hraw)]; [by left; rewrite Hu, Hp|right].
    split; [done|]. exists failed, es', rest, ts'. rewrite Hu, Hp. split_and!; try done. unfold w1. cbn [wk_user write_note app]. by rewrite <- (assoc_L (++)). }
  destruct stream as [sfd|e]; cbn [is_ok negb when].
  2: { wp_step. cbn [is_ok negb when]. wp_call u Hu. wp_step. apply user_note_.
       apply (Hend _ [NError (nd_path n)] [] true); [apply (noted_trans _ _ _ [] [] _ _ (noted_refl w1) (write_noted _ _))|by cbn; rewrite Hfds; set_solver|by left]. }
  destruct Hst as [Hspos Hsfd]. cbn [mupd listing list_upd]. rewrite Hfds in *.
  set (g2 := LG (lg_left g1) ({[sfd]} ∪ ({[fd]} ∪ ∅)) (lg_stop g1) (lg_err g1)).
  wp_step. wp_step. eapply wpM_mono; [apply (dirreader_open_ok cfg); [done|cbn; set_solver|cbn; by rewrite Hl1]|].
  intros g3 rd w2 (-> & Hn2 & Hrd). destruct rd as [rd|].
  2: { wp_call u Hu. wp_call c Hc; [cbn; set_solver|]. wp_step. wp_step. cbn [is_ok negb when]. wp_step. wp_step. apply user_note_.
       apply (Hend _ ([] ++ [NError (nd_path n)]) ([] ++ []) true); [by eapply noted_trans, write_noted|cbn; set_solver|by left]. }
  destruct Hrd as (Hreads & Hwhich & Hraw). wp_step. wp_step. eapply wpM_mono.
  { apply (entries_ok cfg true descends fuel n' fd rd [] w2 g2 Hreads); [cbn; set_solver|]. cbn. by rewrite Hl1. }
  intros g4 [failed rd'] w3 (Hf4 & Hr1 & Hr2 & Herr4 & es' & rest & ts & ps & He & Hrest & Ht & Hn3).
  wp_step. eapply wpM_mono; [apply (dirreader_close_ok rd' {[fd]} sfd)|].
  { rewrite Hf4. cbn. set_solver. }
  { set_solver. }
  { rewrite Hr1, Hr2. destruct Hwhich as [?|?]; [by left|by right]. }
  intros g5 u w4 (-> & (Hl5 & Hs5 & He5) & Hf5). wp_step.
  assert (Hn : noted w1 ts ps w3) by apply (noted_trans _ _ _ [] [] _ _ Hn2 Hn3).
  assert (Hcase : forall g, lg_stop g = lg_stop g4 -> lg_err g = lg_err g4 ->
    exists es' rest ts', ts ++ (if failed then [NError (nd_path n)] else []) = ts' ++ (if failed : bool then [NError (nd_path n)] else []) /\ es = es' ++ rest /\ tolds cfg descends n' es' ts' ps /\
       (rest = [] \/ lg_stop g = true \/ lg_err g = true) /\ (scratch <> 0 -> 0 < cf_getdents_buf cfg -> lg_err g = failed)).
  { intros g Hg1 Hg2. exists es', rest, ts. assert (Hes' : es = es' ++ rest) by (rewrite <- Hl1; exact He).
    rewrite Hg1, Hg2. split_and!; try done.
    intros H1 H2. apply Herr4; [done|]. by rewrite (Hraw H1 H2). }
  destruct failed; cbn [when].
  - apply user_note_. apply (Hend _ (ts ++ [NError (nd_path n)]) (ps ++ []) true); [by eapply noted_trans, write_noted|done|].
    right. rewrite app_nil_r. by apply Hcase.
  - wp_step. apply (Hend _ ts ps false); [done|done|]. right. destruct (Hcase g5 Hs5 He5) as (a & b & c & H). rewrite app_nil_r in H. eauto 10.
Qed.

(** ** A kernel with one directory *)

(** It returns all entries at once; every name is a directory. *)
Definition dir_answer (g : lghost) (n : Z) R (e : posix R) : R :=
  match e in posix R return R with
  | open _ _ _ | dup _ => Ok n
  | readdir _ => Ok (match lg_left g with e :: _ => Some (de_name e, de_type e) | [] => None end)
  | getdents64 _ _ => Ok (concat (dent_bytes <$> lg_left g))
  | e => (permissive _ e (Kstate 0 [])).1
  end.
Definition dir_kernel (R : Type) (e : posix R) (k : lghost * Z) : R * (lghost * Z) :=
  let r := dir_answer k.1 k.2 R e in (r, (list_upd k.1 R e r, k.2 + 1)).
Definition dir_kernel_inv (k : lghost * Z) (g : lghost) : Prop := g = k.1 /\ 0 <= k.2 /\ forall fd, fd ∈ lg_fds g -> fd < k.2.

Lemma dir_kernel_ok : kernel_ok listing dir_kernel dir_kernel_inv.
Proof.
  intros [g n] g' R e (-> & Hn & Hfds) Hpre. cbn [fst snd] in *.
  assert (Hadm : list_adm g R e (dir_answer g n R e)).
  { destruct e; cbn; try done.
    - split; [done|]. intros H. specialize (Hfds _ H). lia.
    - split; [done|]. intros H. specialize (Hfds _ H). lia.
    - destruct (lg_left g) as [|e l]; [done|]. by exists e, l.
    - exists (lg_left g), []. rewrite app_nil_r. split_and!; try done. apply concat_dents_nil. }
  split; [exact Hadm|]. split; [done|]. cbn [dir_kernel fst snd]. split; [lia|].
  intros fd Hfd. destruct e; cbn in Hfd; try (specialize (Hfds fd); (specialize (Hfds Hfd) || (apply elem_of_difference in Hfd as [Hfd _]; specialize (Hfds Hfd))); lia);
    try (apply elem_of_union in Hfd as [->%elem_of_singleton|Hfd]; [lia|specialize (Hfds fd Hfd); lia]).
  destruct (lg_left g); cbn in Hfd; specialize (Hfds fd Hfd); lia.
Qed.

Definition sample_dents : list dent :=
  [Dent 1 1 (str ".") 4 []; Dent 2 2 (str "..") 4 []; Dent 3 3 (str "sub") 4 [x00; x00]; Dent 4 4 (str "file") 8 []].
Lemma process_node_complete_witness :
  Forall dent_ok sample_dents /\
  exists w k g, run dir_kernel (process_node (DirwalkCfg 4096 true true) (scribe true (fun _ _ => true)) 5 (Node (str "/src") dir_stat 0) (Walker 0 [] []))
      (LG sample_dents ∅ false false, 3) = Some ((tt, w), k) /\
    wk_user w = [NBegin (Node (str "/src") dir_stat 0); NEntry (str "sub") (Some dir_stat); NEntry (str "file") None; NEnd false] /\
    wk_pushed w = [Node (str "/src/sub") dir_stat 1] /\ lg_fds g = ∅.
Proof.
  assert (Hok : Forall dent_ok sample_dents).
  { repeat constructor; try done; try lia; by vm_compute. }
  split; [done|].
  pose proof (process_node_complete (DirwalkCfg 4096 true true) true (fun _ _ => true) (Node (str "/src") dir_stat 0) 0 sample_dents 5 Hok ltac:(simpl; lia)) as H.
  eapply (wp_run listing dir_kernel dir_kernel_inv _ (LG sample_dents ∅ false false, 3)) in H as ([[] w] & k & g & Hrun & _ & Hfds & _); [|by intros []|apply dir_kernel_ok|].
  - exists w, k, g. split; [exact Hrun|]. vm_compute in Hrun. injection Hrun as <- _. by split_and!.
  - split_and!; [done|cbn; lia|cbn; set_solver].
Defined.

(** With the libc reader a failure of [readdir] looks like the end of the
    directory: the consumer is told that the enumeration succeeded. *)
Example readdir_error_unnoticed :
  let kernel R (e : posix R) (k : unit) : R * unit := (match e in posix R return R with readdir _ => Err EIO | open _ _ _ => Ok 3 | dup _ => Ok 4 | e => (permissive _ e (Kstate 0 [])).1 end, k) in
  exists w, run kernel (process_node (DirwalkCfg 0 true false) (scribe true (fun _ _ => true)) 5 (Node (str "/src") dir_stat 0) (Walker 0 [] [])) tt = Some ((tt, w), tt) /\
    wk_user w = [NBegin (Node (str "/src") dir_stat 0); NEnd false].
Proof. eexists. by vm_compute. Qed.
