(* ===== verification/Edelete.v ===== *)
(** The tree deleter (src/edelete.c): its filters, the walker's callbacks with
    the batches of names, the unlinking of one batch, and the removal of the
    directories that became empty.

    Programs run in [M posix est]. A walker thread appends its batches to
    [es_queued], each with the number of the queue it is routed to; the blocking
    on a full queue and the unlink threads are in EdeletePool.v. The status line
    and the test delays are left out. *)

From S2P Require Export Dirwalk DirNode EnvUtil.
#[local] Open Scope Z_scope.

(** * Options *)

Inductive time_basis := TB_ATIME | TB_MTIME | TB_CTIME.

Record eopts := Eopts {
  o_dry_run : bool; o_force : bool; o_basis : time_basis; o_age_days : Z; o_delete_all : bool;
  o_uid : option Z; o_gid : option Z;        (* g_have_uid_filter and g_filter_uid *)
  o_now : Z; o_uq_count : Z                  (* g_now, g_uq_count *)
}.

(** [g_lazy_stat]. *)
Definition lazy_stat (o : eopts) : bool :=
  o_delete_all o && negb (bool_decide (is_Some (o_uid o))) && negb (bool_decide (is_Some (o_gid o))).

Definition pick_ts (o : eopts) (st : stat) : Z :=
  tv_sec (match o_basis o with TB_ATIME => st_atim st | TB_CTIME => st_ctim st | TB_MTIME => st_mtim st end).

Definition differs (filter : option Z) (id : Z) : bool :=
  match filter with Some f => negb (bool_decide (id = f)) | None => false end.
Definition eligible (o : eopts) (st : stat) : bool :=
  if differs (o_uid o) (st_uid st) then false
  else if differs (o_gid o) (st_gid st) then false
  else if o_delete_all o then true
  else if decide (o_age_days o <= 0) then false
  else bool_decide (pick_ts o st <= o_now o - o_age_days o * 86400).

(** ** The command line *)

Definition parse_basis (s : bytes) : option time_basis :=
  if decide (s = str "atime") then Some TB_ATIME
  else if decide (s = str "mtime") then Some TB_MTIME
  else if decide (s = str "ctime") then Some TB_CTIME else None.

(** [strtoul] is [strtoull] where long has 64 bits. *)
Definition parse_id (s : bytes) : option Z :=
  if decide (s = []) then None else
  let r := strtoull s in
  if st_erange r || bool_decide (st_end r = s) || negb (bool_decide (st_end r = [])) then None else Some (st_val r).

Definition line_confirms_yes (p : bytes) : bool :=
  let p := skip_spaces p in
  bool_decide (take 3 p = str "YES") && bool_decide (skip_spaces (drop 3 p) = []).

(** What the command line asks for; the other outcomes are exit codes. *)
Inductive command := Exit (code : Z) | Command (o : eopts) (path : bytes).

Definition opts0 : eopts := Eopts true false TB_MTIME 0 false None None 0 0.
Definition parse_paths (o : eopts) (args : list bytes) : command :=
  match args with
  | [path] => Command (Eopts (o_dry_run o) (o_force o) (o_basis o) 0 true (o_uid o) (o_gid o) 0 0) path
  | [basis; days; path] =>
      match parse_basis basis with
      | None => Exit 2
      | Some b =>
          let d := strtol days in
          if st_erange d || negb (bool_decide (st_end d = [])) || bool_decide (st_val d < 1) || bool_decide (365000 < st_val d)
          then Exit 2
          else Command (Eopts (o_dry_run o) (o_force o) b (i32 (st_val d)) false (o_uid o) (o_gid o) 0 0) path
      end
  | _ => Exit 2
  end.
Fixpoint parse_args (o : eopts) (args : list bytes) : command :=
  match args with
  | (x2d :: _) as a :: args' =>
      if decide (a = str "--delete") then
        parse_args (Eopts false (o_force o) (o_basis o) (o_age_days o) (o_delete_all o) (o_uid o) (o_gid o) 0 0) args'
      else if decide (a = str "--force") then
        parse_args (Eopts (o_dry_run o) true (o_basis o) (o_age_days o) (o_delete_all o) (o_uid o) (o_gid o) 0 0) args'
      else if decide (a = str "--uid" \/ a = str "--gid") then
        match args' with
        | [] => Exit 2
        | v :: args'' =>
            match parse_id v with
            | None => Exit 2
            | Some v =>
                let uid := if decide (a = str "--uid") then Some (u32 v) else o_uid o in
                let gid := if decide (a = str "--uid") then o_gid o else Some (u32 v) in
                parse_args (Eopts (o_dry_run o) (o_force o) (o_basis o) (o_age_days o) (o_delete_all o) uid gid 0 0) args''
            end
        end
      else if decide (a = str "--help" \/ a = str "-h") then Exit 0
      else Exit 2
  | _ => parse_paths o args
  end.

(** * State *)

Definition UNLINK_BATCH : Z := 512.
Definition UNLINK_BATCH_BYTES : Z := 64 * 1024.
Definition COUNTER_FLUSH : Z := 256.

(** [unlink_item_t]: the directory's path, a NUL, the names with a NUL each. *)
Record item := Item { it_count : Z; it_dir_len : nat; it_dev : Z; it_ino : Z; it_data : bytes }.
(** [dir_rec_t]. *)
Record dir_rec := DirRec { dr_path : bytes; dr_depth : Z; dr_dev : Z; dr_ino : Z }.

(** [tls_counters_t], and the shared counters it is folded into. *)
Record counts := Counts { c_entries : Z; c_dirs : Z; c_files : Z; c_would : Z }.
Definition counts0 : counts := Counts 0 0 0 0.
Definition counts_add (a b : counts) : counts :=
  Counts (c_entries a + c_entries b) (c_dirs a + c_dirs b) (c_files a + c_files b) (c_would a + c_would b).

Record est := Est {
  es_tls : counts; es_total : counts; es_deleted : Z; es_removed : Z; es_errors : Z;
  es_buffer : bool; es_names : bytes; es_count : Z;     (* t_batch *)
  es_queued : list (Z * item);
  es_dirs : list dir_rec; es_dir_cap : Z
}.
Definition est0 : est := Est counts0 counts0 0 0 0 false [] 0 [] [] 0.

Abbreviation EM := (M posix est).

Definition set_counters (tls total : counts) (s : est) : est :=
  Est tls total (es_deleted s) (es_removed s) (es_errors s) (es_buffer s) (es_names s) (es_count s) (es_queued s) (es_dirs s) (es_dir_cap s).
Definition set_done (deleted removed errors : Z) (s : est) : est :=
  Est (es_tls s) (es_total s) deleted removed errors (es_buffer s) (es_names s) (es_count s) (es_queued s) (es_dirs s) (es_dir_cap s).
Definition set_batch (buffer : bool) (names : bytes) (count : Z) (s : est) : est :=
  Est (es_tls s) (es_total s) (es_deleted s) (es_removed s) (es_errors s) buffer names count (es_queued s) (es_dirs s) (es_dir_cap s).
Definition set_queued (q : list (Z * item)) (s : est) : est :=
  Est (es_tls s) (es_total s) (es_deleted s) (es_removed s) (es_errors s) (es_buffer s) (es_names s) (es_count s) q (es_dirs s) (es_dir_cap s).
Definition set_dirs (dirs : list dir_rec) (cap : Z) (s : est) : est :=
  Est (es_tls s) (es_total s) (es_deleted s) (es_removed s) (es_errors s) (es_buffer s) (es_names s) (es_count s) (es_queued s) dirs cap.

Definition say (line : bytes) : EM unit := call (eprintf line).
Definition e_count_error : EM unit := modify (fun s => set_done (es_deleted s) (es_removed s) (es_errors s + 1) s).

(** ** Counters *)

Definition counters_flush : EM unit :=
  modify (fun s => set_counters counts0 (counts_add (es_total s) (es_tls s)) s).
Definition bump (f : counts -> counts) : EM unit := modify (fun s => set_counters (f (es_tls s)) (es_total s) s).
Definition count_entry : EM unit :=
  bump (fun c => Counts (c_entries c + 1) (c_dirs c) (c_files c) (c_would c));;
  n ← gets (fun s => c_entries (es_tls s));
  when (bool_decide (COUNTER_FLUSH <= n)) counters_flush.

Section edelete.
Context (o : eopts).

(** * Batches of names *)

(** FNV-1a over the directory's path. *)
Definition fnv_step (h : Z) (b : byte) : Z := u64 (Z.lxor h (byte.unsigned b) * 1099511628211).
Definition unlink_queue_index_for (it : item) : Z :=
  foldl fnv_step 1469598103934665603 (take (it_dir_len it) (it_data it)) mod o_uq_count o.

(** The batch is dropped once a stop has been requested. *)
Definition unlink_queue_push (it : item) : EM unit :=
  stop ← call shutdown_requested;
  if (stop : bool) then mret tt
  else modify (fun s => set_queued (es_queued s ++ [(unlink_queue_index_for it, it)]) s).

Definition batch_flush (n : node) : EM unit :=
  s ← get;
  if decide (es_count s = 0) then mret tt else
  let dir_len := length (nd_path n) in
  ok ← call (malloc (40 + zlen (nd_path n) + 1 + zlen (es_names s)));
  (if (ok : bool) then
     unlink_queue_push (Item (es_count s) dir_len (st_dev (nd_st n)) (st_ino (nd_st n)) (nd_path n ++ NUL :: es_names s))
   else say (str "malloc");; e_count_error);;
  modify (fun s => set_batch (es_buffer s) [] 0 s).

Definition batch_add (n : node) (name : bytes) : EM unit :=
  let nlen := zlen name + 1 in
  have ← gets es_buffer;
  ok ← (if (have : bool) then mret true else
          ok ← call (malloc UNLINK_BATCH_BYTES);
          (if (ok : bool) then modify (fun s => set_batch true (es_names s) (es_count s) s) else say (str "malloc");; e_count_error);;
          mret ok);
  if negb ok then mret tt else
  s ← get;
  when (bool_decide (es_count s = UNLINK_BATCH \/ UNLINK_BATCH_BYTES < zlen (es_names s) + nlen)) (batch_flush n);;
  if decide (UNLINK_BATCH_BYTES < nlen) then
    say (str "edelete: name too long under " ++ nd_path n);; e_count_error
  else
    modify (fun s => set_batch (es_buffer s) (es_names s ++ name ++ [NUL]) (es_count s + 1) s).

Definition batch_thread_end : EM unit :=
  modify (set_batch false [] 0);; counters_flush.

(** * Unlinking a batch *)

(** [name] steps over [count] NUL-terminated names. *)
Fixpoint unlink_names (count : nat) (fd : Z) (name : bytes) (deleted : Z) : EM Z :=
  match count with
  | O => mret deleted
  | S count =>
      r ← call (unlinkat fd (cstr name) 0);
      deleted ← (match r with
                 | Ok _ => mret (deleted + 1)
                 | Err e => when (negb (bool_decide (e = ENOENT))) (say (str "edelete: unlink " ++ cstr name);; e_count_error);; mret deleted
                 end);
      unlink_names count fd (drop (length (cstr name) + 1) name) deleted
  end.

Definition unlink_batch_run (it : item) : EM unit :=
  let dir := take (it_dir_len it) (it_data it) in
  let name := drop (it_dir_len it + 1) (it_data it) in
  fd ← call (open dir (O_RDONLY |. O_DIRECTORY |. O_CLOEXEC |. O_NOFOLLOW) 0);
  match fd with
  | Err e => when (negb (bool_decide (e = ENOENT))) (say (str "edelete: open " ++ dir);; e_count_error)
  | Ok fd =>
      st ← call (fstat fd);
      let same := match st with
                  | Ok st => S_ISDIR (st_mode st) && bool_decide (st_dev st = it_dev it) && bool_decide (st_ino st = it_ino it)
                  | Err _ => false
                  end in
      if negb same then
        say (str "edelete: " ++ dir ++ str ": directory changed since the scan");; e_count_error;; call (close fd);; mret tt
      else
        deleted ← unlink_names (Z.to_nat (it_count it)) fd name 0;
        call (close fd);;
        modify (fun s => set_done (es_deleted s + deleted) (es_removed s) (es_errors s) s)
  end.

(** The list an unlink thread has taken: dropped from the point a stop is seen. *)
Fixpoint unlink_list (its : list item) : EM unit :=
  match its with
  | [] => mret tt
  | it :: its =>
      stop ← call shutdown_requested;
      when (negb stop) (unlink_batch_run it);;
      unlink_list its
  end.

(** * The callbacks of the walk *)

Definition record_dir (n : node) : EM bool :=
  dup ← call (malloc (zlen (nd_path n) + 1));
  if negb dup then say (str "strdup");; mret false else
  s ← get;
  let nc := if decide (es_dir_cap s = 0) then 1024 else es_dir_cap s * 2 in
  room ← (if decide (zlen (es_dirs s) = es_dir_cap s) then call (malloc (nc * 32)) else mret true);
  if negb room then say (str "realloc");; mret false else
  modify (fun s => set_dirs (es_dirs s ++ [DirRec (nd_path n) (nd_depth n) (st_dev (nd_st n)) (st_ino (nd_st n))])
                     (if decide (zlen (es_dirs s) = es_dir_cap s) then nc else es_dir_cap s) s);;
  mret true.

Definition walk_dir_begin (n : node) (dir_fd : Z) : EM bool :=
  count_entry;;
  bump (fun c => Counts (c_entries c) (c_dirs c + 1) (c_files c) (c_would c));;
  (if o_dry_run o then mret tt else ok ← record_dir n; when (negb ok) e_count_error);;
  mret true.

Definition is_dir (st : option stat) : bool := match st with Some st => S_ISDIR (st_mode st) | None => false end.
Definition filtered (st : option stat) : bool := match st with Some st => negb (eligible o st) | None => false end.
Definition walk_entry (n : node) (dir_fd : Z) (name : bytes) (st : option stat) : EM bool :=
  if is_dir st then mret true else
  count_entry;;
  bump (fun c => Counts (c_entries c) (c_dirs c) (c_files c + 1) (c_would c));;
  if filtered st then mret false
  else if o_dry_run o then bump (fun c => Counts (c_entries c) (c_dirs c) (c_files c) (c_would c + 1));; mret false
  else batch_add n name;; mret false.

Definition walk_dir_end (n : node) (dir_fd : Z) (failed : bool) : EM unit :=
  when failed e_count_error;;
  when (negb (o_dry_run o)) (batch_flush n);;
  counters_flush.

Definition walk_error (path : bytes) : EM unit := e_count_error.

Definition edelete_ops : dirwalk_ops est := DirwalkOps walk_dir_begin walk_entry walk_dir_end walk_error.
Definition GETDENTS_BUF_BYTES : Z := 256 * 1024.
Definition edelete_cfg : dirwalk_cfg := DirwalkCfg GETDENTS_BUF_BYTES true (lazy_stat o).

(** * Removing empty directories *)

(** [strcmp], as its sign. *)
Fixpoint strcmp (a b : bytes) : comparison :=
  match a, b with
  | [], [] => Eq
  | [], _ => Lt
  | _, [] => Gt
  | x :: a, y :: b =>
      match (byte.unsigned x ?= byte.unsigned y) with Eq => strcmp a b | c => c end
  end.
Definition dir_rec_cmp_desc_depth (a b : dir_rec) : comparison :=
  if decide (dr_depth a = dr_depth b) then strcmp (dr_path a) (dr_path b) else (dr_depth b ?= dr_depth a).

Definition parent_len (p : bytes) : nat := match strrchr_slash p with Some i => i | None => O end.
Definition rmdir_same_parent (a b : dir_rec) : bool :=
  bool_decide (parent_len (dr_path a) = parent_len (dr_path b)) &&
  bool_decide (take (parent_len (dr_path a)) (dr_path a) = take (parent_len (dr_path a)) (dr_path b)).

(** Failures the pass expects: another process was faster, or the directory is
    not empty. *)
Definition rmdir_expected (e : Z) : bool :=
  bool_decide (e = ENOTEMPTY) || bool_decide (e = EEXIST) || bool_decide (e = ENOENT) || bool_decide (e = EBUSY) || bool_decide (e = ENOTDIR).

Definition rmdir_one (d : dir_rec) : EM unit :=
  let p := dr_path d in
  let plen := parent_len p in
  let name := drop (plen + 1) p in
  if decide (p = [SLASH]) then mret tt else
  let parent := if decide (plen = 0%nat) then [SLASH] else take plen p in
  pfd ← call (open parent (O_RDONLY |. O_DIRECTORY |. O_CLOEXEC |. O_NOFOLLOW) 0);
  match pfd with
  | Err e => when (negb (bool_decide (e = ENOENT))) (say (str "edelete: open " ++ parent);; e_count_error)
  | Ok pfd =>
      st ← call (fstatat pfd name AT_SYMLINK_NOFOLLOW);
      match st with
      | Err e =>
          when (negb (bool_decide (e = ENOENT))) (say (str "edelete: stat " ++ p);; e_count_error);;
          call (close pfd);; mret tt
      | Ok st =>
          if negb (S_ISDIR (st_mode st)) || negb (bool_decide (st_dev st = dr_dev d)) || negb (bool_decide (st_ino st = dr_ino d)) then
            say (str "edelete: " ++ p ++ str ": directory changed since the scan; not removed");; e_count_error;; call (close pfd);; mret tt
          else
            r ← call (unlinkat pfd name AT_REMOVEDIR);
            (match r with
             | Ok _ => modify (fun s => set_done (es_deleted s) (es_removed s + 1) (es_errors s) s)
             | Err e => when (negb (rmdir_expected e)) (say (str "edelete: rmdir " ++ p);; e_count_error)
             end);;
            call (close pfd);; mret tt
      end
  end.

(** The pass: [sorted] is the list as qsort leaves it. The calls are those of
    [depth_groups], which [rmdir_one] never makes fail. *)
Definition rmdir_groups (sorted : list dir_rec) (threads : nat) (alloc : nat -> bool) (creatable : nat -> nat) : list (list nat) * bool :=
  depth_groups (length sorted) threads (fun i => default 0 (dr_depth <$> sorted !! i)) true
    (Some (fun a b => match sorted !! a, sorted !! b with Some x, Some y => rmdir_same_parent x y | _, _ => false end))
    (fun _ => true) (fun _ => true) alloc creatable.
End edelete.

(** The exit status of [main] after the run. *)
Definition exit_status (interrupted : bool) (errors : Z) : Z :=
  if interrupted then 130 else if decide (errors = 0) then 0 else 1.

(** A user id that does not fit is truncated: this asks for the files of uid 0. *)
Example uid_filter_truncated :
  parse_args opts0 [str "--uid"; str "4294967296"; str "/d"] = Command (Eopts true false TB_MTIME 0 true (Some 0) None 0 0) (str "/d").
Proof. by vm_compute. Qed.
