(* ===== verification/EdeleteOk.v ===== *)
(** What the deleter may remove.

    [contained] watches the calls of the walker, of the unlink threads and of
    the final pass. A name may be unlinked only relative to a descriptor whose
    [fstat] has told the very directory, device and inode, the name was found
    in, and only if it was found to be something the filters select; a
    directory may be removed only right after [fstatat] has shown that its name
    still leads to a directory the process had open under that path. Nothing
    else that changes a file system is permitted. *)

From S2P Require Export Edelete.
From stdpp Require Import list.
#[local] Open Scope Z_scope.

(** * The monitor *)

Abbreviation ident := (Z * Z)%type.
Definition ident_of (st : stat) : ident := (st_dev st, st_ino st).

Record eghost := EG {
  eg_fds : gmap Z (bytes * option ident);   (* open descriptors: the path, and what fstat told *)
  eg_seen : gset (ident * bytes);           (* names that may be unlinked *)
  eg_dirs : gset (bytes * ident);           (* directories that were open under a path *)
  eg_last : option (Z * bytes * ident)      (* the last fstatat, when it showed a directory *)
}.

(** The entries in a getdents64 buffer. *)
Fixpoint dents_of (fuel : nat) (b : bytes) : list (bytes * Z) :=
  match fuel with
  | O => []
  | S fuel =>
      if decide (b = []) then [] else if decide (d_reclen b = 0) then []
      else (d_name b, d_type b) :: dents_of fuel (drop (Z.to_nat (d_reclen b)) b)
  end.

Section contained.
Context (o : eopts).

(** Entries delivered without a stat: only when there is no filter, and only
    when the directory says that they are not directories. *)
Definition lazily (type : Z) : bool := lazy_stat o && negb (bool_decide (type = DT_UNKNOWN)) && negb (bool_decide (type = DT_DIR)).

Definition see (id : option ident) (names : list bytes) (g : eghost) : eghost :=
  match id with
  | Some id => EG (eg_fds g) (list_to_set (pair id <$> names) ∪ eg_seen g) (eg_dirs g) None
  | None => EG (eg_fds g) (eg_seen g) (eg_dirs g) None
  end.
Definition id_at (g : eghost) (fd : Z) : option ident := eg_fds g !! fd ≫= snd.
Definition lazy_names (l : list (bytes * Z)) : list bytes := (filter (fun x => lazily x.2 = true) l).*1.

Definition DIR_FLAGS : Z := O_RDONLY |. O_DIRECTORY |. O_CLOEXEC |. O_NOFOLLOW.
Definition econtained_pre (g : eghost) R (e : posix R) : Prop :=
  match e with
  | open _ fl _ => fl = DIR_FLAGS
  | close fd | closedir fd | fstat fd | dup fd | fdopendir fd | readdir fd | getdents64 fd _ | fstatat fd _ _ => is_Some (eg_fds g !! fd)
  | malloc _ | eprintf _ | shutdown_requested => True
  | unlinkat fd name fl =>
      fl = 0 /\ (exists id, id_at g fd = Some id /\ (id, name) ∈ eg_seen g) \/
      fl = AT_REMOVEDIR /\ exists parent path id, (exists t, eg_fds g !! fd = Some (parent, t)) /\ eg_last g = Some (fd, name, id) /\
        (path, id) ∈ eg_dirs g /\ (path = parent ++ SLASH :: name \/ parent = [SLASH] /\ path = SLASH :: name)
  | _ => False
  end.
Definition econtained_adm (g : eghost) R (e : posix R) : R -> Prop :=
  match e in posix R return R -> Prop with
  | open _ _ _ | dup _ => fun r => match r with Ok fd => 0 <= fd /\ eg_fds g !! fd = None | Err _ => True end
  | readdir _ => fun r => match r with Ok (Some (name, _)) => is_cstr name | _ => True end
  | _ => fun _ => True
  end.
Definition econtained_upd (g : eghost) R (e : posix R) : R -> eghost :=
  match e in posix R return R -> eghost with
  | open p _ _ => fun r => match r with Ok fd => EG (<[fd := (p, None)]> (eg_fds g)) (eg_seen g) (eg_dirs g) None | Err _ => g end
  | dup fd => fun r =>
      match r, eg_fds g !! fd with Ok fd', Some x => EG (<[fd' := x]> (eg_fds g)) (eg_seen g) (eg_dirs g) None | _, _ => g end
  | close fd | closedir fd => fun _ => EG (delete fd (eg_fds g)) (eg_seen g) (eg_dirs g) None
  | fstat fd => fun r =>
      match r, eg_fds g !! fd with
      | Ok st, Some (p, _) =>
          EG (<[fd := (p, Some (ident_of st))]> (eg_fds g)) (eg_seen g)
            (if S_ISDIR (st_mode st) then {[(p, ident_of st)]} ∪ eg_dirs g else eg_dirs g) None
      | _, _ => g
      end
  | fstatat fd name _ => fun r =>
      match r with
      | Ok st =>
          if S_ISDIR (st_mode st) then EG (eg_fds g) (eg_seen g) (eg_dirs g) (Some (fd, name, ident_of st))
          else if eligible o st then see (id_at g fd) [name] g else g
      | Err _ => g
      end
  | readdir fd => fun r => match r with Ok (Some x) => see (id_at g fd) (lazy_names [x]) g | _ => g end
  | getdents64 fd _ => fun r => match r with Ok d => see (id_at g fd) (lazy_names (dents_of (length d) d)) g | Err _ => g end
  | unlinkat _ _ _ => fun _ => EG (eg_fds g) (eg_seen g) (eg_dirs g) None
  | _ => fun _ => g
  end.
(** Safety only: a loop may run out of fuel. *)
Definition contained : monitor posix := Monitor eghost econtained_pre econtained_adm econtained_upd True.

(** ** Names packed with their NULs *)

Definition pack (names : list bytes) : bytes := concat ((fun nm => nm ++ [NUL]) <$> names).
Lemma pack_snoc names nm : pack (names ++ [nm]) = pack names ++ nm ++ [NUL].
Proof. unfold pack. rewrite fmap_app, concat_app. simpl. by rewrite app_nil_r. Qed.
Lemma pack_cons nm names : pack (nm :: names) = nm ++ NUL :: pack names.
Proof. unfold pack. simpl. by rewrite <- (assoc_L (++)). Qed.

(** What an item may name. *)
Definition names_ok (g : eghost) (id : ident) (names : list bytes) : Prop :=
  Forall (fun nm => is_cstr nm /\ (id, nm) ∈ eg_seen g) names.
Definition item_ok (g : eghost) (it : item) : Prop :=
  exists dir names, it_data it = dir ++ NUL :: pack names /\ it_dir_len it = length dir /\ it_count it = zlen names /\
    names_ok g (it_dev it, it_ino it) names /\ zlen names <= UNLINK_BATCH /\ zlen (pack names) <= UNLINK_BATCH_BYTES.

(** What only grows. *)
Definition grows (g g' : eghost) : Prop := eg_seen g ⊆ eg_seen g' /\ eg_dirs g ⊆ eg_dirs g'.
#[export] Instance grows_preorder : PreOrder grows.
Proof. split; [by intros g; split|]. intros g1 g2 g3 [? ?] [? ?]. split; by etrans. Qed.
Lemma names_ok_grows g g' id names : grows g g' -> names_ok g id names -> names_ok g' id names.
Proof. intros [Hs _] H. eapply Forall_impl; [exact H|]. intros nm [? ?]. split; [done|]. by apply Hs. Qed.
Lemma item_ok_grows g g' it : grows g g' -> item_ok g it -> item_ok g' it.
Proof. intros Hg (dir & names & H1 & H2 & H3 & H4 & H5 & H6). exists dir, names. split_and!; try done. by eapply names_ok_grows. Qed.

Lemma see_grows id names g : grows g (see id names g).
Proof. unfold see. destruct id; split; cbn; set_solver. Qed.
Lemma see_fds id names g : eg_fds (see id names g) = eg_fds g.
Proof. by destruct id. Qed.
Lemma see_in id names g nm : nm ∈ names -> (id, nm) ∈ eg_seen (see (Some id) names g).
Proof. intros H. cbn. apply elem_of_union_l, elem_of_list_to_set, list_elem_of_fmap. by exists nm. Qed.

(** * Unlinking a batch *)

Lemma unlink_names_ok n names fd dir id k (s : est) g :
  n = length names -> eg_fds g !! fd = Some (dir, Some id) -> names_ok g id names ->
  wpM contained (unlink_names n fd (pack names) k) s g (fun g' _ _ => eg_fds g' = eg_fds g /\ grows g g').
Proof.
  intros ->. revert k s g. induction names as [|nm names IH]; intros k s g Hfd Hok; cbn [length unlink_names]; [by wp_step|].
  apply Forall_cons_1 in Hok as [[Hc Hin] Hok]. rewrite pack_cons, cstr_app_nul by done.
  rewrite drop_app_ge by lia. replace (length nm + 1 - length nm)%nat with 1%nat by lia. cbn [drop].
  wp_call r Hr.
  { left. split; [done|]. exists id. unfold id_at. by rewrite Hfd. }
  set (g1 := EG (eg_fds g) (eg_seen g) (eg_dirs g) None).
  assert (Hrest : forall k s, wpM contained (unlink_names (length names) fd (pack names) k) s g1 (fun g' _ _ => eg_fds g' = eg_fds g /\ grows g g')).
  { intros k' s'. eapply wpM_mono; [by apply (IH k' s' g1)|]. by intros g' _ _ [? ?]. }
  destruct r as [u|e]; [wp_step; apply Hrest|]. wp_step. wp_step. apply wpM_when; intros _; [|wp_step; apply Hrest].
  unfold say, e_count_error. wp_call u Hu. wp_step. wp_step. apply Hrest.
Qed.

(** Closing the last descriptor opened. *)
Lemma close_opened {A} (a : A) fd x (s : est) g g0 :
  eg_fds g0 !! fd = None -> eg_fds g = <[fd := x]> (eg_fds g0) -> grows g0 g ->
  wpM contained (call (close fd);; mret a) s g (fun g' b s' => eg_fds g' = eg_fds g0 /\ grows g0 g' /\ eg_seen g' = eg_seen g /\ eg_dirs g' = eg_dirs g /\ b = a /\ s' = s).
Proof.
  intros Hnew Hg Hgr. wp_call c Hc; [cbn; rewrite Hg, lookup_insert_eq; by eexists|]. wp_step.
  split_and!; try done. cbn. by rewrite Hg, delete_insert_id.
Qed.

Lemma unlink_batch_ok it (s : est) g :
  item_ok g it ->
  wpM contained (unlink_batch_run it) s g (fun g' _ _ => eg_fds g' = eg_fds g /\ grows g g').
Proof.
  intros (dir & names & Hd & Hl & Hc & Hok & _). unfold unlink_batch_run. rewrite Hd, Hl, Hc.
  rewrite take_app_length, drop_app_ge by lia. replace (length dir + 1 - length dir)%nat with 1%nat by lia. cbn [drop].
  wp_call fd Hfd. destruct fd as [fd|e].
  2: { apply wpM_when; intros _; [|done]. unfold say, e_count_error. wp_call u Hu. by wp_step. }
  destruct Hfd as [_ Hnew]. wp_call st Hst.
  { cbn. rewrite lookup_insert_eq. by eexists. }
  assert (Hbail : forall line (s : est) g1 x, eg_fds g1 = <[fd := x]> (eg_fds g) -> grows g g1 ->
    wpM contained (say line;; e_count_error;; call (close fd);; mret tt) s g1 (fun g' _ _ => eg_fds g' = eg_fds g /\ grows g g')).
  { intros line s1 g1 x Hg1 Hgr. unfold say, e_count_error. wp_call u Hu. wp_step. wp_step.
    eapply wpM_mono; [by apply (close_opened tt fd x)|]. by intros g' ? ? (? & ? & _). }
  destruct st as [st|e].
  2: { by eapply Hbail. }
  set (g1 := mupd contained _ _ _). assert (Hg1 : eg_fds g1 = <[fd := (dir, Some (ident_of st))]> (eg_fds g)).
  { cbn. rewrite lookup_insert_eq. cbn. by rewrite insert_insert_eq. }
  assert (Hgr1 : grows g g1).
  { cbn. rewrite lookup_insert_eq. destruct (S_ISDIR (st_mode st)); split; cbn; set_solver. }
  clearbody g1.
  destruct (S_ISDIR (st_mode st)); cbn [andb negb]; [|by eapply Hbail].
  destruct (bool_decide (st_dev st = it_dev it)) eqn:E1; cbn [andb negb]; [|by eapply Hbail].
  destruct (bool_decide (st_ino st = it_ino it)) eqn:E2; cbn [andb negb]; [|by eapply Hbail].
  apply bool_decide_eq_true in E1, E2. wp_step. eapply wpM_mono.
  { apply (unlink_names_ok _ names fd dir (it_dev it, it_ino it)); [by unfold zlen; lia| |by eapply names_ok_grows].
    rewrite Hg1, lookup_insert_eq. unfold ident_of. by rewrite E1, E2. }
  intros g2 k s2 [Hf2 Hgr2]. wp_call c Hcl; [cbn; rewrite Hf2, Hg1, lookup_insert_eq; by eexists|]. wp_step.
  split; [cbn; by rewrite Hf2, Hg1, delete_insert_id|]. by etrans.
Qed.

Lemma unlink_list_ok its (s : est) g :
  Forall (item_ok g) its ->
  wpM contained (unlink_list its) s g (fun g' _ _ => eg_fds g' = eg_fds g /\ grows g g').
Proof.
  revert s g. induction its as [|it its IH]; intros s g Hok; cbn [unlink_list]; [by wp_step|].
  apply Forall_cons_1 in Hok as [Hit Hok]. wp_call stop Hs.
  assert (H1 : wpM contained (when (negb stop) (unlink_batch_run it)) s g (fun g' _ _ => eg_fds g' = eg_fds g /\ grows g g')).
  { apply wpM_when; intros _; [by apply unlink_batch_ok|done]. }
  wp_step. eapply wpM_mono; [exact H1|]. intros g1 _ s1 [Hf1 Hgr1]. eapply wpM_mono; [apply IH|].
  - eapply Forall_impl; [exact Hok|]. intros it'. by apply item_ok_grows.
  - intros g2 _ _ [Hf2 Hgr2]. split; [congruence|by etrans].
Qed.

(** * Removing a directory *)

Definition rec_ok (g : eghost) (d : dir_rec) : Prop := (dr_path d, (dr_dev d, dr_ino d)) ∈ eg_dirs g.

(** An absolute path is its parent and its last component. *)
Lemma parent_split p i :
  strrchr_slash p = Some i -> take i p ++ SLASH :: drop (i + 1) p = p.
Proof. intros H. apply strrchr_slash_Some in H as (_ & H & _). rewrite Nat.add_1_r. by symmetry. Qed.

Lemma rmdir_one_ok d (s : est) g :
  SLASH ∈ dr_path d -> rec_ok g d ->
  wpM contained (rmdir_one d) s g (fun g' _ _ => eg_fds g' = eg_fds g /\ grows g g').
Proof.
  intros Hslash Hd. unfold rmdir_one. case_decide as Hroot; [by wp_step|].
  assert (Hsplit : exists i, strrchr_slash (dr_path d) = Some i).
  { destruct (strrchr_slash (dr_path d)) as [i|] eqn:E; [by exists i|]. by apply strrchr_slash_None in E. }
  destruct Hsplit as [i Hi]. unfold parent_len. rewrite Hi. pose proof (parent_split _ _ Hi) as Hp.
  set (parent := if decide (i = 0%nat) then [SLASH] else take i (dr_path d)). set (name := drop (i + 1) (dr_path d)) in *.
  assert (Hpath : dr_path d = parent ++ SLASH :: name \/ parent = [SLASH] /\ dr_path d = SLASH :: name).
  { unfold parent. case_decide as H0; [right; split; [done|]; rewrite <- Hp at 1; by rewrite H0|by left]. }
  clearbody parent name.
  wp_call pfd Hpfd. destruct pfd as [pfd|e].
  2: { apply wpM_when; intros _; [|done]. unfold say, e_count_error. wp_call u Hu. by wp_step. }
  destruct Hpfd as [_ Hnew]. wp_call st Hst.
  { cbn. rewrite lookup_insert_eq. by eexists. }
  set (g1 := mupd contained _ _ _).
  assert (Hg1 : eg_fds g1 = <[pfd := (parent, None)]> (eg_fds g) /\ grows g g1).
  { subst g1. destruct st as [st|e]; cbn [mupd contained econtained_upd]; [|by split].
    repeat case_match; rewrite ?see_fds; try done. split; [done|]. etrans; [|apply see_grows]. done. }
  destruct Hg1 as [Hg1 Hgr1].
  assert (Hbail : forall g2 (s : est), eg_fds g2 = eg_fds g1 -> grows g g2 -> wpM contained (call (close pfd);; mret tt) s g2 (fun g' _ _ => eg_fds g' = eg_fds g /\ grows g g')).
  { intros g2 s2 Hf2 Hgr2. eapply wpM_mono; [apply (close_opened tt pfd (parent, None)); [done|by rewrite Hf2|done]|]. by intros g' ? ? (? & ? & _). }
  destruct st as [st|e].
  2: { wp_step. apply wpM_when; intros _; [|by apply Hbail]. unfold say, e_count_error. wp_call u Hu. wp_step. by apply Hbail. }
  destruct (S_ISDIR (st_mode st)) eqn:Edir; cbn [negb orb].
  2: { unfold say, e_count_error. wp_call u Hu. wp_step. wp_step. by apply Hbail. }
  destruct (bool_decide (st_dev st = dr_dev d)) eqn:E1; cbn [negb orb].
  2: { unfold say, e_count_error. wp_call u Hu. wp_step. wp_step. by apply Hbail. }
  destruct (bool_decide (st_ino st = dr_ino d)) eqn:E2; cbn [negb orb].
  2: { unfold say, e_count_error. wp_call u Hu. wp_step. wp_step. by apply Hbail. }
  apply bool_decide_eq_true in E1, E2. wp_call r Hr.
  { right. split; [done|]. exists parent, (dr_path d), (ident_of st).
    split; [exists None; by rewrite Hg1, lookup_insert_eq|]. unfold ident_of.
    split; [subst g1; cbn; rewrite Edir; done|]. split; [rewrite E1, E2; by apply Hgr1|done]. }
  set (g2 := mupd contained g1 _ _). wp_step.
  destruct r as [u|e]; [wp_step; by apply (Hbail g2)|].
  apply wpM_when; intros _; [|by apply (Hbail g2)]. unfold say, e_count_error. wp_call u Hu. wp_step. by apply (Hbail g2).
Qed.

(** * The walker's state *)

(** [names] are in the batch of the directory [id]; what is queued and recorded
    may be worked on; nothing is when nothing is to be deleted. *)
Record einv (g : eghost) (id : ident) (names : list bytes) (s : est) : Prop := Einv {
  ei_names : es_names s = pack names;
  ei_count : es_count s = zlen names;
  ei_seen : names_ok g id names;
  ei_few : zlen names <= UNLINK_BATCH;
  ei_small : zlen (pack names) <= UNLINK_BATCH_BYTES;
  ei_queued : Forall (fun x => item_ok g x.2) (es_queued s);
  ei_dirs : Forall (rec_ok g) (es_dirs s);
  ei_dry : o_dry_run o = true -> names = [] /\ es_queued s = [] /\ es_dirs s = []
}.

Lemma einv_grows g g' id names s : grows g g' -> einv g id names s -> einv g' id names s.
Proof.
  intros Hg []. split; try done.
  - by eapply names_ok_grows.
  - eapply Forall_impl; [done|]. intros x. by apply item_ok_grows.
  - eapply Forall_impl; [done|]. intros x. apply Hg.
Qed.
Lemma einv_idle g id id' s : einv g id [] s -> einv g id' [] s.
Proof. intros []. split; try done. constructor. Qed.
(** Counters do not matter. *)
Lemma einv_counters g id names tls total s : einv g id names s -> einv g id names (set_counters tls total s).
Proof. by intros []. Qed.
Lemma einv_done g id names a b c s : einv g id names s -> einv g id names (set_done a b c s).
Proof. by intros []. Qed.

(** Programs the monitor does not notice, that keep the state fit. *)
Definition keeps {A} (c : M posix est A) (id : ident) (names names' : list bytes) : Prop :=
  forall s g, einv g id names s -> wpM contained c s g (fun g' _ s' => g' = g /\ einv g id names' s').

Lemma keeps_error id names : keeps e_count_error id names names.
Proof. intros s g Hs. unfold e_count_error. wp_step. split; [done|]. by apply einv_done. Qed.
Lemma keeps_complain line id names : keeps (say line;; e_count_error) id names names.
Proof. intros s g Hs. unfold say. wp_call u Hu. by apply keeps_error. Qed.
Lemma keeps_flush_counters id names : keeps counters_flush id names names.
Proof. intros s g Hs. unfold counters_flush. wp_step. split; [done|]. by apply einv_counters. Qed.
Lemma keeps_bump f id names : keeps (bump f) id names names.
Proof. intros s g Hs. unfold bump. wp_step. split; [done|]. by apply einv_counters. Qed.
Lemma keeps_count_entry id names : keeps count_entry id names names.
Proof.
  intros s g Hs. unfold count_entry. wp_step. eapply wpM_mono; [by apply keeps_bump|]. intros g1 _ s1 [-> Hs1].
  wp_step. wp_step. apply wpM_when; intros _; [by apply keeps_flush_counters|done].
Qed.
Lemma keeps_when b c id names : keeps c id names names -> keeps (when b c) id names names.
Proof. intros Hc s g Hs. apply wpM_when; intros _; [by apply Hc|done]. Qed.

Lemma keeps_batch_flush n names : keeps (batch_flush o n) (ident_of (nd_st n)) names [].
Proof.
  intros s g Hs. pose proof Hs as [Hn Hc Hok Hfew Hsmall Hq Hd Hdry]. unfold batch_flush. wp_step. wp_step.
  destruct (decide (es_count s = 0)) as [H0|H0].
  { wp_step. rewrite Hc in H0. destruct names as [|nm names]; [done|]. rewrite zlen_cons in H0. pose proof (zlen_nonneg names). lia. }
  assert (Hlive : o_dry_run o = false).
  { destruct (o_dry_run o); [|done]. destruct (Hdry eq_refl) as (-> & _). by rewrite Hc in H0. }
  assert (Hclear : forall s', es_queued s' = es_queued s \/ (exists it q, es_queued s' = es_queued s ++ [(q, it)] /\ item_ok g it) ->
    es_dirs s' = es_dirs s -> einv g (ident_of (nd_st n)) [] (set_batch (es_buffer s') [] 0 s')).
  { intros s' Hq' Hd'. split; try done; cbn [set_batch es_queued es_dirs]; [constructor| |by rewrite Hd'|by rewrite Hlive].
    destruct Hq' as [->|(it & q & -> & Hit)]; [done|]. apply Forall_app. split; [done|]. by constructor. }
  wp_call ok Hmem. wp_step. destruct ok.
  - unfold unlink_queue_push. wp_call stop Hst. destruct stop; wp_step; wp_step; split; try done; apply Hclear; cbn; try done; [by left|].
    right. eexists _, _. split; [done|]. exists (nd_path n), names. cbn. rewrite Hn. split_and!; try done.
  - unfold say, e_count_error. wp_call u Hu. wp_step. wp_step. split; [done|]. apply Hclear; [by left|done].
Qed.

Lemma keeps_batch_add n name names s g :
  let id := ident_of (nd_st n) in
  o_dry_run o = false -> is_cstr name -> (id, name) ∈ eg_seen g -> einv g id names s ->
  wpM contained (batch_add o n name) s g (fun g' _ s' => g' = g /\ exists names', einv g id names' s').
Proof.
  intros id Hlive Hc Hin Hs. unfold batch_add. wp_step. wp_step. wp_step.
  apply wpM_mono with (Q := fun g' (_ : bool) s' => g' = g /\ einv g id names s').
  { destruct (es_buffer s); [by wp_step|]. wp_call ok Hmem. wp_step. destruct ok.
    - wp_step. wp_step. split; [done|]. by destruct Hs.
    - eapply wpM_mono; [by apply keeps_complain|]. by intros. }
  intros g1 ok s1 [-> Hs1]. destruct ok; cbn [negb]; [|wp_step; by eauto].
  wp_step. wp_step.
  assert (Hfull : forall b, wpM contained (when b (batch_flush o n)) s1 g (fun g' _ s' => g' = g /\ exists names', einv g id names' s' /\
    (b = true -> names' = []) /\ (b = false -> names' = names))).
  { intros []; cbn [when]; [|wp_step; split; [done|]; by exists names]. eapply wpM_mono; [by apply (keeps_batch_flush n names)|].
    intros g2 _ s2 [-> Hs2]. split; [done|]. by exists []. }
  wp_step. eapply wpM_mono; [apply Hfull|]. clear Hfull. intros g2 _ s2 (-> & names' & Hs2 & Hb1 & Hb2).
  destruct (decide (UNLINK_BATCH_BYTES < zlen name + 1)) as [Hlong|Hshort].
  { eapply wpM_mono; [by apply keeps_complain|]. intros g3 _ s3 [-> Hs3]. by eauto. }
  wp_step. split; [done|]. exists (names' ++ [name]).
  assert (Hroom : zlen (names' ++ [name]) <= UNLINK_BATCH /\ zlen (pack (names' ++ [name])) <= UNLINK_BATCH_BYTES).
  { rewrite pack_snoc, !zlen_app. change (zlen [name]) with 1. change (zlen [NUL]) with 1.
    destruct (bool_decide (es_count s1 = UNLINK_BATCH \/ UNLINK_BATCH_BYTES < zlen (es_names s1) + (zlen name + 1))) eqn:E.
    - rewrite (Hb1 eq_refl). change (zlen (pack [])) with 0. rewrite zlen_nil. unfold UNLINK_BATCH in *. lia.
    - rewrite (Hb2 eq_refl). apply bool_decide_eq_false in E. destruct Hs1. rewrite ei_count0, ei_names0 in E. lia. }
  destruct Hs2. split; cbn [set_batch es_names es_count es_queued es_dirs]; try done.
  - by rewrite ei_names0, pack_snoc.
  - rewrite zlen_app, ei_count0. done.
  - apply Forall_app. split; [done|]. by constructor.
  - apply Hroom.
  - apply Hroom.
  - by rewrite Hlive.
Qed.

(** ** The callbacks *)

Lemma record_dir_ok n names s g :
  let id := ident_of (nd_st n) in
  o_dry_run o = false -> (nd_path n, id) ∈ eg_dirs g -> einv g id names s ->
  wpM contained (record_dir n) s g (fun g' _ s' => g' = g /\ einv g id names s').
Proof.
  intros id Hlive Hdir Hs. unfold record_dir. wp_call dup Hdup. destruct dup; cbn [negb].
  2: { unfold say. wp_call u Hu. by wp_step. }
  wp_step. wp_step. wp_step.
  apply wpM_mono with (Q := fun g' (_ : bool) s' => g' = g /\ s' = s).
  { case_decide; [by wp_call r Hr|by wp_step]. }
  intros g1 room s1 [-> ->]. destruct room; cbn [negb].
  2: { unfold say. wp_call u Hu. by wp_step. }
  wp_step. wp_step. wp_step. split; [done|]. destruct Hs. split; try done; cbn [set_dirs es_dirs es_queued].
  - apply Forall_app. split; [done|]. by constructor.
  - by rewrite Hlive.
Qed.

Lemma walk_dir_begin_ok n fd names s g :
  let id := ident_of (nd_st n) in
  (nd_path n, id) ∈ eg_dirs g -> einv g id names s ->
  wpM contained (walk_dir_begin o n fd) s g (fun g' _ s' => g' = g /\ einv g id names s').
Proof.
  intros id Hdir Hs. unfold walk_dir_begin. wp_step. eapply wpM_mono; [by apply keeps_count_entry|]. intros g1 _ s1 [-> Hs1].
  wp_step. eapply wpM_mono; [by apply keeps_bump|]. intros g1 _ s2 [-> Hs2]. wp_step.
  destruct (o_dry_run o) eqn:Hdry; [wp_step; by wp_step|]. wp_step. eapply wpM_mono; [by apply record_dir_ok|].
  intros g1 ok s3 [-> Hs3]. eapply wpM_mono; [by apply (keeps_when (negb ok) _ id names (keeps_error _ _))|].
  intros g1 _ s4 [-> Hs4]. by wp_step.
Qed.

(** The consumer may be told of [name] with [st]. *)
Definition told_of (g : eghost) (id : ident) (name : bytes) (st : option stat) : Prop :=
  is_cstr name /\ (is_dir st = false -> filtered o st = false -> (id, name) ∈ eg_seen g).

Lemma walk_entry_ok n fd name st names s g :
  let id := ident_of (nd_st n) in
  told_of g id name st -> einv g id names s ->
  wpM contained (walk_entry o n fd name st) s g (fun g' _ s' => g' = g /\ exists names', einv g id names' s').
Proof.
  intros id [Hc Hin] Hs. unfold walk_entry. destruct (is_dir st); [wp_step; by eauto|]. specialize (Hin eq_refl).
  wp_step. eapply wpM_mono; [by apply keeps_count_entry|]. intros g1 _ s1 [-> Hs1].
  wp_step. eapply wpM_mono; [by apply keeps_bump|]. intros g1 _ s2 [-> Hs2].
  destruct (filtered o st); [wp_step; by eauto|]. specialize (Hin eq_refl).
  destruct (o_dry_run o) eqn:Hdry.
  - wp_step. eapply wpM_mono; [by apply keeps_bump|]. intros g1 _ s3 [-> Hs3]. wp_step. by eauto.
  - wp_step. eapply wpM_mono; [by apply (keeps_batch_add n name names)|]. intros g1 _ s3 [-> Hs3]. by wp_step.
Qed.

Lemma walk_dir_end_ok n fd failed names s g :
  let id := ident_of (nd_st n) in
  einv g id names s ->
  wpM contained (walk_dir_end o n fd failed) s g (fun g' _ s' => g' = g /\ einv g id [] s').
Proof.
  intros id Hs. unfold walk_dir_end. wp_step. eapply wpM_mono; [by apply (keeps_when failed _ id names (keeps_error _ _))|].
  intros g1 _ s1 [-> Hs1]. wp_step. destruct (o_dry_run o) eqn:Hdry; cbn [negb when].
  - wp_step. eapply wpM_mono; [by apply keeps_flush_counters|]. intros g1 _ s2 [-> Hs2]. split; [done|].
    destruct (ei_dry _ _ _ _ Hs2 Hdry) as (-> & _). done.
  - eapply wpM_mono; [by apply (keeps_batch_flush n names)|]. intros g1 _ s2 [-> Hs2]. by apply keeps_flush_counters.
Qed.

(** ** One directory *)

Definition wfit (g : eghost) (id : ident) (w : walker est) : Prop := exists names, einv g id names (wk_user w).

Lemma user_keeps {A} (c : M posix est A) id (w : walker est) g Q :
  (forall names, keeps c id names names) -> wfit g id w -> (forall a w', wfit g id w' -> Q g a w') -> wpM contained (user c) w g Q.
Proof.
  intros Hc [names Hw] HQ. apply wpM_user. eapply wpM_mono; [by apply Hc|]. intros g1 a u [-> Hu]. apply HQ. by exists names.
Qed.
Lemma report_error_ok path id (w : walker est) g Q :
  wfit g id w -> (forall w', wfit g id w' -> Q g tt w') -> wpM contained (report_error (edelete_ops o) path) w g Q.
Proof. intros Hw HQ. apply (user_keeps _ id); [apply keeps_error|done|]. intros [] w'. apply HQ. Qed.

(** What a reader still holds has been noted when the kernel returned it. *)
Definition offered (g : eghost) (id : ident) (b : bytes) : Prop :=
  Forall (fun x => lazily x.2 = true -> (id, x.1) ∈ eg_seen g) (dents_of (length b) b).
Definition reader_ok (g : eghost) (id : ident) (rd : dirreader) : Prop :=
  (exists p, eg_fds g !! (if decide (rd_fd rd < 0) then rd_dirp rd else rd_fd rd) = Some (p, Some id)) /\ offered g id (rd_rest rd).

Lemma dents_of_fuel m n b : (length b <= m)%nat -> (length b <= n)%nat -> dents_of m b = dents_of n b.
Proof.
  revert n b. induction m as [|m IH]; intros n b Hm Hn.
  { destruct b; [|simpl in Hm; lia]. by destruct n. }
  destruct n as [|n]; [destruct b; [done|simpl in Hn; lia]|]. cbn [dents_of]. case_decide as Hb; [done|]. case_decide as Hr; [done|]. f_equal.
  assert (0 <= d_reclen b) by (unfold d_reclen; apply le_combine_bound).
  assert (length b <> 0%nat) by (by intros ?%nil_length_inv). apply IH; rewrite length_drop; lia.
Qed.
Lemma offered_entry g id rd name type rd' :
  take_entry rd = (Entry name type, rd') -> rd_rest rd <> [] -> offered g id (rd_rest rd) ->
  (lazily type = true -> (id, name) ∈ eg_seen g) /\ offered g id (rd_rest rd') /\ rd_fd rd' = rd_fd rd /\ rd_dirp rd' = rd_dirp rd /\ is_cstr name.
Proof.
  unfold take_entry. intros H Hne Ho. case_decide as Hr; [done|]. injection H as <- <- <-. cbn [rd_rest rd_fd rd_dirp].
  unfold offered in Ho. destruct (rd_rest rd) as [|b l] eqn:Eb; [done|]. rewrite <- Eb in *.
  assert (Hl : length (rd_rest rd) = S (length l)) by (by rewrite Eb). rewrite Hl in Ho. cbn [dents_of] in Ho.
  rewrite decide_False in Ho by (by rewrite Eb). rewrite decide_False in Ho by done. apply Forall_cons_1 in Ho as [H1 H2].
  split_and!; [done| |done|done|apply cstr_is_cstr]. unfold offered. rewrite (dents_of_fuel _ (length l)); [done|lia|].
  assert (0 <= d_reclen (rd_rest rd)) by (unfold d_reclen; apply le_combine_bound). rewrite length_drop. lia.
Qed.
Lemma offered_grows g g' id b : grows g g' -> offered g id b -> offered g' id b.
Proof. intros [Hg _] H. eapply Forall_impl; [exact H|]. intros x Hx Hl. by apply Hg, Hx. Qed.
Lemma wfit_grows g g' id w : grows g g' -> wfit g id w -> wfit g' id w.
Proof. intros Hg [names Hw]. exists names. by eapply einv_grows. Qed.

Lemma lazy_names_in x l : x ∈ l -> lazily x.2 = true -> x.1 ∈ lazy_names l.
Proof. intros H1 H2. apply list_elem_of_fmap. exists x. split; [done|]. by apply list_elem_of_filter. Qed.

Lemma take_entry_keeps rd e rd' : take_entry rd = (e, rd') -> rd_fd rd' = rd_fd rd /\ rd_dirp rd' = rd_dirp rd.
Proof. unfold take_entry. case_decide; by intros [= <- <-]. Qed.

Lemma enext_ok id rd (w : walker est) g :
  reader_ok g id rd ->
  wpM contained (dirreader_next rd) w g (fun g' '((e, rd') : next_entry * dirreader) w' =>
    w' = w /\ eg_fds g' = eg_fds g /\ grows g g' /\ rd_fd rd' = rd_fd rd /\ rd_dirp rd' = rd_dirp rd /\
    match e with
    | Entry name type => offered g' id (rd_rest rd') /\ is_cstr name /\ (lazily type = true -> (id, name) ∈ eg_seen g')
    | _ => True
    end).
Proof.
  intros [[p Hfd] Ho]. unfold dirreader_next. destruct (decide (rd_fd rd < 0)) as [Hneg|Hpos].
  { wp_call de Hde; [by eexists|]. wp_step. split; [done|]. destruct de as [[[name type]|]|e]; try by split_and!.
    cbn [mupd contained econtained_upd]. unfold id_at. rewrite Hfd. cbn [mbind option_bind snd].
    split_and!; try done; [apply (see_grows (Some id))|eapply offered_grows; [apply (see_grows (Some id))|done]|].
    intros Hl. apply see_in. by apply (lazy_names_in (name, type)); [left|]. }
  destruct (decide (rd_rest rd = [])) as [Hnil|Hne].
  { wp_call n Hn; [by eexists|]. destruct n as [buf|e].
    2: { wp_call u Hu. wp_step. by split_and!. }
    destruct buf as [|b buf].
    { wp_step. cbn [mupd contained econtained_upd]. unfold id_at. rewrite Hfd. cbn [mbind option_bind snd]. split_and!; try done; apply (see_grows (Some id)). }
    cbn [mupd contained econtained_upd]. unfold id_at. rewrite Hfd. cbn [mbind option_bind snd].
    set (d := b :: buf) in *. set (g1 := see (Some id) _ g).
    assert (Ho1 : offered g1 id d).
    { apply Forall_forall. intros x Hx Hl. apply see_in. by apply lazy_names_in. }
    destruct (take_entry _) as [e rd'] eqn:Et. destruct (take_entry_keeps _ _ _ Et) as [E1 E2]. wp_step.
    split; [done|]. split; [done|]. split; [apply (see_grows (Some id))|]. split; [done|]. split; [done|].
    destruct e as [name type| |]; try done. apply (offered_entry g1 id) in Et as (H1 & H2 & H3 & H4 & H5); [by split_and!|done|done]. }
  destruct (take_entry rd) as [e rd'] eqn:Et. destruct (take_entry_keeps _ _ _ Et) as [E1 E2]. wp_step.
  split; [done|]. split; [done|]. split; [done|]. split; [done|]. split; [done|].
  destruct e as [name type| |]; try done. apply (offered_entry g id) in Et as (H1 & H2 & H3 & H4 & H5); [by split_and!|done|done].
Qed.

Lemma edeliver_ok n fd name type path (w : walker est) g :
  let id := ident_of (nd_st n) in
  eg_fds g !! fd = Some (path, Some id) -> is_cstr name -> (lazily type = true -> (id, name) ∈ eg_seen g) -> wfit g id w ->
  wpM contained (deliver_entry (edelete_cfg o) (edelete_ops o) n fd name type) w g (fun g' _ w' =>
    eg_fds g' = eg_fds g /\ grows g g' /\ wfit g' id w').
Proof.
  intros id Hfd Hc Hlazy Hw. unfold deliver_entry. cbn [edelete_cfg cf_lazy_stat]. fold (lazily type).
  destruct (lazily type) eqn:El.
  { wp_step. apply wpM_user. destruct Hw as [names Hw]. eapply wpM_mono.
    - apply (walk_entry_ok n fd name None names); [by split; [|intros; apply Hlazy]|done].
    - intros g1 d s1 (-> & Hs1). wp_step. by split_and!. }
  wp_call st Hst; [by eexists|]. set (g1 := mupd contained g _ _).
  assert (Hg1 : eg_fds g1 = eg_fds g /\ grows g g1).
  { subst g1. destruct st as [st|e]; cbn [mupd contained econtained_upd]; [|by split].
    repeat case_match; rewrite ?see_fds; (split; [done|]); try apply see_grows; done. }
  destruct Hg1 as [Hg1 Hgr1]. pose proof (wfit_grows _ _ _ _ Hgr1 Hw) as Hw1.
  destruct st as [st|e].
  2: { wp_call u Hu. apply (report_error_ok _ id); [done|]. by intros w' Hw'. }
  wp_step. apply wpM_user. destruct Hw1 as [names Hs]. eapply wpM_mono.
  { apply (walk_entry_ok n fd name (Some st) names); [|exact Hs]. split; [done|]. cbn [is_dir filtered]. intros Hd He.
    apply negb_false_iff in He. subst g1. cbn [mupd contained econtained_upd]. rewrite Hd, He. unfold id_at. rewrite Hfd. apply see_in. by left. }
  intros g2 descend s2 (-> & Hs2). set (w2 := Walker _ _ _). assert (Hw2 : wfit g1 id w2) by done.
  apply wpM_when; intros _; [|by split_and!]. unfold push_child. destruct (path_join_fast _ _ _) as [child|].
  2: { wp_call u Hu. apply (report_error_ok _ id); [done|]. by intros w' Hw'. }
  unfold push_locked. wp_step. wp_call ok Hok. destruct ok; cbn [negb].
  - wp_step. wp_step. wp_step. cbn [negb when]. by wp_step.
  - wp_call u Hu. wp_step. cbn [negb when]. apply (report_error_ok _ id); [done|]. by intros w' Hw'.
Qed.

Lemma entries_contained fuel n fd rd path (w : walker est) g :
  let id := ident_of (nd_st n) in
  eg_fds g !! fd = Some (path, Some id) -> reader_ok g id rd -> wfit g id w ->
  wpM contained (entries_loop (edelete_cfg o) (edelete_ops o) fuel n fd rd) w g (fun g' '((_, rd') : bool * dirreader) w' =>
    eg_fds g' = eg_fds g /\ grows g g' /\ wfit g' id w' /\ rd_fd rd' = rd_fd rd /\ rd_dirp rd' = rd_dirp rd).
Proof.
  intros id. revert rd w g. induction fuel as [|fuel IH]; intros rd w g Hfd Hr Hw; [done|]. cbn [entries_loop].
  wp_step. eapply wpM_mono; [by apply (enext_ok id)|]. intros g1 [e rd1] w1 (-> & Hf1 & Hg1 & E1 & E2 & He).
  pose proof (wfit_grows _ _ _ _ Hg1 Hw) as Hw1.
  destruct e as [name type| |]; [|wp_step; by split_and!|wp_step; by split_and!].
  destruct He as (Ho & Hc & Hl). wp_step.
  apply wpM_mono with (Q := fun g' (_ : bool) w' => g' = g1 /\ w' = w).
  { unfold stop_requested. cbn [edelete_cfg cf_stop]. by wp_call b Hb. }
  intros g2 stop w2 [-> ->]. destruct stop; [wp_step; by split_and!|].
  assert (Hrest : forall g2 w2, eg_fds g2 = eg_fds g -> grows g1 g2 -> wfit g2 id w2 ->
    wpM contained (entries_loop (edelete_cfg o) (edelete_ops o) fuel n fd rd1) w2 g2 (fun g' '((_, rd') : bool * dirreader) w' =>
      eg_fds g' = eg_fds g /\ grows g g' /\ wfit g' id w' /\ rd_fd rd' = rd_fd rd /\ rd_dirp rd' = rd_dirp rd)).
  { intros g2 w2 Hf2 Hg2 Hw2. eapply wpM_mono.
    - apply IH; [by rewrite Hf2| |done]. destruct Hr as [Hp _]. split; [by rewrite Hf2, E1, E2|by eapply offered_grows].
    - intros g3 [f rd3] w3 (Hf3 & Hg3 & Hw3 & E3 & E4). split_and!; try congruence; try done. etrans; [exact Hg1|by etrans]. }
  destruct (is_dot name); [by apply Hrest|]. wp_step. eapply wpM_mono; [apply (edeliver_ok n fd name type path); [by rewrite Hf1|done..]|].
  intros g2 _ w2 (Hf2 & Hg2 & Hw2). apply Hrest; [congruence|done|done].
Qed.

Lemma eopen_verified_ok path st (w : walker est) g :
  wpM contained (open_verified_dir path st) w g (fun g' r w' =>
    w' = w /\ grows g g' /\
    match r with
    | None => eg_fds g' = eg_fds g
    | Some (fd, st') => 0 <= fd /\ eg_fds g !! fd = None /\ eg_fds g' = <[fd := (path, Some (ident_of st'))]> (eg_fds g) /\
        (path, ident_of st') ∈ eg_dirs g'
    end).
Proof.
  unfold open_verified_dir. wp_call fd Hfd. destruct fd as [fd|e]; [destruct Hfd as [Hpos Hnew]|by wp_call u Hu; wp_step].
  wp_call st' Hst; [cbn; rewrite lookup_insert_eq; by eexists|].
  assert (Hbail : forall line g1 x, eg_fds g1 = <[fd := x]> (eg_fds g) -> grows g g1 ->
    wpM contained (call (eprintf line);; call (close fd);; mret (@None (Z * stat))) w g1 (fun g' r w' =>
      w' = w /\ grows g g' /\ match r with None => eg_fds g' = eg_fds g | Some (fd, st') => 0 <= fd /\ eg_fds g !! fd = None /\ eg_fds g' = <[fd := (path, Some (ident_of st'))]> (eg_fds g) /\
        (path, ident_of st') ∈ eg_dirs g' end)).
  { intros line g1 x Hg1 Hgr. wp_call u Hu. wp_call c Hc; [cbn; rewrite Hg1, lookup_insert_eq; by eexists|]. wp_step.
    split_and!; try done. cbn. by rewrite Hg1, delete_insert_id. }
  destruct st' as [st'|e].
  2: { by eapply Hbail. }
  set (g1 := mupd contained _ _ _). assert (Hg1 : eg_fds g1 = <[fd := (path, Some (ident_of st'))]> (eg_fds g)).
  { subst g1. cbn. rewrite lookup_insert_eq. cbn. by rewrite insert_insert_eq. }
  assert (Hgr1 : grows g g1).
  { subst g1. cbn. rewrite lookup_insert_eq. destruct (S_ISDIR (st_mode st')); split; cbn; set_solver. }
  destruct (S_ISDIR (st_mode st')) eqn:Ed; cbn [negb orb]; [destruct (same_entry st st'); cbn [negb]|]; [|by eapply Hbail..].
  wp_step. split_and!; try done. subst g1. cbn. rewrite lookup_insert_eq, Ed. cbn. set_solver.
Qed.

Lemma edirreader_open_ok fd p id (w : walker est) g :
  0 <= fd -> eg_fds g !! fd = Some (p, Some id) -> wfit g id w ->
  wpM contained (dirreader_open (edelete_cfg o) fd) w g (fun g' r w' =>
    g' = g /\ wfit g id w' /\
    match r with None => True | Some rd => reader_ok g id rd /\ (if decide (rd_fd rd < 0) then rd_dirp rd else rd_fd rd) = fd end).
Proof.
  intros Hpos Hfd Hw. unfold dirreader_open. wp_step.
  apply wpM_mono with (Q := fun g' (_ : bool) w' => g' = g /\ wfit g id w').
  { case_decide; [|by wp_step]. unfold thread_scratch. wp_step. wp_step. case_decide; [by wp_step|].
    wp_call ok Hok. wp_step. destruct ok; cbn [when]; wp_step; by wp_step. }
  intros g1 raw w1 [-> Hw1]. destruct raw.
  - wp_step. wp_step. wp_step. split_and!; try done; cbn [rd_fd rd_dirp].
    + split; [|constructor]. cbn [rd_fd rd_dirp]. rewrite decide_False by lia. by exists p.
    + by rewrite decide_False by lia.
  - wp_call r Hr; [by eexists|]. wp_step. split_and!; try done. destruct r as [u|e]; [|done]. split; [|done]. split; [by exists p|constructor].
Qed.

(** One directory: nothing is unlinked, and what is queued and recorded may be
    worked on. *)
Lemma process_node_contained fuel n id0 (w : walker est) g :
  einv g id0 [] (wk_user w) ->
  wpM contained (process_node (edelete_cfg o) (edelete_ops o) fuel n) w g (fun g' _ w' =>
    eg_fds g' = eg_fds g /\ grows g g' /\ exists id, einv g' id [] (wk_user w')).
Proof.
  intros Hidle. unfold process_node. wp_step. eapply wpM_mono; [apply eopen_verified_ok|].
  intros g1 opened w1 (-> & Hgr1 & Ho). destruct opened as [[fd st]|].
  2: { unfold report_error. apply wpM_user. eapply wpM_mono; [apply (keeps_error id0 []); by eapply einv_grows|].
       intros g2 u s2 [-> Hs2]. split_and!; try done. by exists id0. }
  destruct Ho as (Hpos & Hnew & Hf1 & Hdir). set (n' := Node (nd_path n) st (nd_depth n)). set (id := ident_of (nd_st n')).
  assert (Hw1 : einv g1 id [] (wk_user w)) by (by eapply einv_idle, einv_grows).
  (* closing the directory *)
  assert (Hclose : forall w2 g2 x, eg_fds g2 = <[fd := x]> (eg_fds g) -> grows g g2 -> (exists names, einv g2 id names (wk_user w2)) ->
    (exists id, einv g2 id [] (wk_user w2)) ->
    wpM contained (call (close fd);; mret tt) w2 g2 (fun g' _ w' => eg_fds g' = eg_fds g /\ grows g g' /\ exists id, einv g' id [] (wk_user w'))).
  { intros w2 g2 x Hf2 Hgr2 _ [id2 Hw2]. wp_call c Hc; [cbn; rewrite Hf2, lookup_insert_eq; by eexists|]. wp_step.
    split_and!; try done; [cbn; by rewrite Hf2, delete_insert_id|]. exists id2. apply (einv_grows g2); [by split|done]. }
  assert (Hend : forall failed w2 g2, eg_fds g2 = <[fd := (nd_path n, Some id)]> (eg_fds g) -> grows g g2 -> wfit g2 id w2 ->
    wpM contained (user (op_dir_end (edelete_ops o) n' fd failed);; call (close fd);; mret tt) w2 g2 (fun g' _ w' =>
      eg_fds g' = eg_fds g /\ grows g g' /\ exists id, einv g' id [] (wk_user w'))).
  { intros failed w2 g2 Hf2 Hgr2 [names Hw2]. wp_step. apply wpM_user. eapply wpM_mono; [by apply (walk_dir_end_ok n' fd failed names)|].
    intros g3 u s3 [-> Hs3]. eapply Hclose; [done|done|by exists []|by exists id]. }
  wp_step. apply wpM_user. eapply wpM_mono; [by apply (walk_dir_begin_ok n' fd [])|]. intros g2 ok s2 [-> Hs2].
  set (w2 := Walker _ _ _). assert (Hw2 : wfit g1 id w2) by (by exists []).
  destruct ok; cbn [negb].
  2: { eapply Hclose; [done|done|by exists []|by exists id]. }
  wp_call stream Hst; [cbn; rewrite Hf1, lookup_insert_eq; by eexists|].
  destruct stream as [sfd|e].
  2: { wp_step. cbn [is_ok negb when]. wp_call u Hu. wp_step. eapply report_error_ok; [done|]. intros w3 Hw3. by apply Hend. }
  destruct Hst as [Hspos Hsnew]. set (g2 := mupd contained g1 _ _).
  assert (Hg2 : eg_fds g2 = <[sfd := (nd_path n, Some id)]> (eg_fds g1) /\ grows g1 g2).
  { subst g2. cbn. rewrite Hf1, lookup_insert_eq. by split. }
  destruct Hg2 as [Hf2 Hgr2]. clearbody g2. pose proof (wfit_grows _ _ _ _ Hgr2 Hw2) as Hw2'. assert (Hgr : grows g g2) by (by etrans).
  (* closing the stream *)
  assert (Hback : forall g3, eg_fds g3 = eg_fds g2 -> delete sfd (eg_fds g3) = <[fd := (nd_path n, Some id)]> (eg_fds g)).
  { intros g3 ->. by rewrite Hf2, delete_insert_id. }
  wp_step. wp_step. eapply wpM_mono; [apply (edirreader_open_ok sfd (nd_path n) id); [done|by rewrite Hf2, lookup_insert_eq|done]|].
  intros g3 rd w3 (-> & Hw3 & Hrd). destruct rd as [rd|].
  2: { wp_call u Hu. wp_call c Hc; [cbn; rewrite Hf2, lookup_insert_eq; by eexists|]. wp_step. wp_step. cbn [is_ok negb when]. wp_step. wp_step.
       eapply report_error_ok; [apply (wfit_grows g2); [by split|exact Hw3]|]. intros w4 Hw4. apply Hend; [by apply (Hback g2)|exact Hgr|done]. }
  destruct Hrd as [Hr Hsfd]. wp_step. wp_step. eapply wpM_mono.
  { apply (entries_contained fuel n' fd rd (nd_path n)); [|done|done]. rewrite Hf2, lookup_insert_ne, Hf1, lookup_insert_eq; [done|].
    intros ->. by rewrite Hf1, lookup_insert_eq in Hsnew. }
  intros g4 [failed rd'] w4 (Hf4 & Hgr4 & Hw4 & E1 & E2). wp_step.
  assert (Hopen : is_Some (eg_fds g4 !! sfd)) by (rewrite Hf4, Hf2, lookup_insert_eq; by eexists).
  apply wpM_mono with (Q := fun g' (_ : unit) w' => w' = w4 /\ eg_fds g' = delete sfd (eg_fds g4) /\ grows g4 g').
  { unfold dirreader_close. rewrite E1, E2. destruct (decide (rd_fd rd < 0)); [rewrite decide_False by lia|rewrite decide_True by lia].
    - rewrite Hsfd. by wp_call c Hc.
    - rewrite Hsfd. wp_call c Hc. by wp_step. }
  intros g5 u5 w5 (-> & Hf5 & Hgr5). rewrite Hback in Hf5 by done. pose proof (wfit_grows _ _ _ _ Hgr5 Hw4) as Hw5.
  assert (Hgrows : grows g g5) by (etrans; [exact Hgr|by etrans]). wp_step.
  destruct failed; cbn [when]; [|wp_step; by apply Hend]. eapply report_error_ok; [done|]. intros w6 Hw6. by apply Hend.
Qed.
End contained.

(** C20.  The deleter is contained, whatever the kernel answers and whoever
    changes the tree meanwhile: of all calls that change a file system the walker,
    the unlink threads and the last pass issue only unlinkat, and they issue it
    for a name only relative to a descriptor whose fstat has shown the very
    directory the name was found in (so never through a symbolic link swapped in
    since), and only for names found there as non-directories that the filters
    select; a directory is removed only right after fstatat has shown that its
    name in its parent is still the directory the walker had open under that
    path. Descriptors do not leak. A directory's batch is empty when its walk
    ends, batches keep to their limits, and in a dry run nothing is queued or
    recorded. What one thread has found stays valid while others run ([grows]),
    so the three parts hold in any interleaving. *)
Theorem edelete_contained o :
  (forall fuel n w g id, einv o g id [] (wk_user w) ->
     wpM (contained o) (process_node (edelete_cfg o) (edelete_ops o) fuel n) w g (fun g' _ w' =>
       eg_fds g' = eg_fds g /\ grows g g' /\ exists id, einv o g' id [] (wk_user w'))) /\
  (forall its s g, Forall (item_ok g) its ->
     wpM (contained o) (unlink_list its) s g (fun g' _ _ => eg_fds g' = eg_fds g /\ grows g g')) /\
  (forall d s g, SLASH ∈ dr_path d -> rec_ok g d ->
     wpM (contained o) (rmdir_one d) s g (fun g' _ _ => eg_fds g' = eg_fds g /\ grows g g')).
Proof. split_and!; intros; [by eapply process_node_contained|by apply unlink_list_ok|by apply rmdir_one_ok]. Qed.

Definition sample_opts : eopts :=
  match parse_args opts0 [str "--delete"; str "--uid"; str "0"; str "/d"] with
  | Command o _ => Eopts (o_dry_run o) (o_force o) (o_basis o) (o_age_days o) (o_delete_all o) (o_uid o) (o_gid o) 0 4
  | Exit _ => opts0
  end.
Definition sample_ghost : eghost := EG ∅ {[((1, 7), str "file")]} {[(str "/d/sub", (1, 8))]} None.
Definition sample_item : item := Item 1 2 1 7 (str "/d" ++ NUL :: str "file" ++ [NUL]).
Lemma edelete_contained_witness :
  einv sample_opts sample_ghost (0, 0) [] est0 /\ item_ok sample_ghost sample_item /\
  wpM (contained sample_opts) (unlink_list [sample_item]) est0 sample_ghost (fun g' _ _ => eg_fds g' = ∅) /\
  wpM (contained sample_opts) (rmdir_one (DirRec (str "/d/sub") 1 1 8)) est0 sample_ghost (fun g' _ _ => eg_fds g' = ∅) /\
  exists w k, run dir_kernel (process_node (edelete_cfg sample_opts) (edelete_ops sample_opts) 5 (Node (str "/d") dir_stat 0) (Walker 0 [] est0))
    (LG sample_dents ∅ false false, 3) = Some ((tt, w), k) /\ nd_path <$> wk_pushed w = [str "/d/sub"; str "/d/file"].
Proof.
  pose proof (edelete_contained sample_opts) as (H1 & H2 & H3).
  assert (Hi : item_ok sample_ghost sample_item).
  { exists (str "/d"), [str "file"]. split_and!; try done. repeat constructor; try done. }
  split_and!; [split; try done; constructor|done| | |].
  - eapply wpM_mono; [apply H2; by constructor|]. by intros g' ? ? [-> _].
  - eapply wpM_mono; [apply H3|by intros g' ? ? [-> _]]; [cbn; set_solver|unfold rec_ok; cbn; set_solver].
  - eexists _, _. by vm_compute.
Defined.
