(* ===== verification/EdeletePass.v ===== *)
(** The order of the pass that removes empty directories (src/edelete.c):
    [rmdir_groups] over the list as qsort leaves it. *)

From S2P Require Export Edelete.
From Stdlib Require Import Sorted.
From stdpp Require Import list.
#[local] Open Scope Z_scope.

(** * The order of paths *)

Lemma byte_unsigned_inj (x y : byte) : byte.unsigned x = byte.unsigned y -> x = y.
Proof. intros H. rewrite <- (byte.of_Z_unsigned x), <- (byte.of_Z_unsigned y). by rewrite H. Qed.

Definition str_le (a b : bytes) : Prop := strcmp a b <> Gt.

(** Between two strings with a common prefix there are only strings with it. *)
Lemma str_le_prefix p a b c :
  str_le (p ++ a) b -> str_le b (p ++ c) -> exists b', b = p ++ b'.
Proof.
  unfold str_le. revert b. induction p as [|x p IH]; intros b H1 H2; [by exists b|].
  destruct b as [|y b]; simpl in H1, H2; [done|].
  destruct (Z.compare_spec (byte.unsigned x) (byte.unsigned y)) as [E|E|E].
  - apply byte_unsigned_inj in E as ->. rewrite Z.compare_refl in H2. destruct (IH b) as [b' ->]; [done|done|]. by exists b'.
  - assert ((byte.unsigned y ?= byte.unsigned x) = Gt) as E2 by (by apply Z.compare_gt_iff). by rewrite E2 in H2.
  - done.
Qed.

(** Components. *)
Fixpoint slashes (p : bytes) : Z :=
  match p with [] => 0 | b :: p => (if decide (b = SLASH) then 1 else 0) + slashes p end.
Lemma slashes_app p q : slashes (p ++ q) = slashes p + slashes q.
Proof. induction p as [|b p IH]; simpl; [done|]. rewrite IH. lia. Qed.
Lemma slashes_nonneg p : 0 <= slashes p.
Proof. induction p as [|b p IH]; simpl; [done|]. case_decide; lia. Qed.
Lemma slashes_none p : SLASH ∉ p <-> slashes p = 0.
Proof.
  induction p as [|b p IH]; simpl; [split; [done|intros _; set_solver]|]. pose proof (slashes_nonneg p).
  case_decide as Hb; split; intros Hx; [set_solver|lia| |].
  - assert (slashes p = 0) by (apply IH; set_solver). lia.
  - assert (SLASH ∉ p) by (apply IH; lia). set_solver.
Qed.

Lemma parent_len_app p name : SLASH ∉ name -> strrchr_slash (p ++ SLASH :: name) = Some (length p).
Proof.
  intros Hn. apply strrchr_slash_Some. rewrite length_app. simpl. split; [lia|].
  rewrite take_app_length, drop_app_ge by lia. replace (S (length p) - length p)%nat with 1%nat by lia. done.
Qed.
Lemma same_parent_split x y :
  SLASH ∈ dr_path x -> rmdir_same_parent x y = true ->
  exists p nx ny, dr_path x = p ++ SLASH :: nx /\ (SLASH ∉ nx) /\ (SLASH ∈ dr_path y -> dr_path y = p ++ SLASH :: ny /\ SLASH ∉ ny).
Proof.
  intros Hx. unfold rmdir_same_parent, parent_len. destruct (strrchr_slash (dr_path x)) as [i|] eqn:Ei; [|by apply strrchr_slash_None in Ei].
  intros [H1%bool_decide_eq_true H2%bool_decide_eq_true]%andb_true_iff.
  pose proof (proj1 (strrchr_slash_Some _ _) Ei) as (Hl & Hp & Hn).
  exists (take i (dr_path x)), (drop (S i) (dr_path x)), (drop (S i) (dr_path y)). split_and!; [done|done|].
  intros Hy. destruct (strrchr_slash (dr_path y)) as [j|] eqn:Ej; [|by apply strrchr_slash_None in Ej]. subst j.
  apply strrchr_slash_Some in Ej as (Hl2 & Hp2 & Hn2). by rewrite H2.
Qed.

(** * The pass *)

Section pass.
Context (sorted : list dir_rec) (base : Z).
Context (Hsorted : StronglySorted (fun a b => dir_rec_cmp_desc_depth a b <> Gt) sorted).
(** Paths are absolute, and a depth is the number of components below the root
    of the walk. *)
Context (Hdepth : Forall (fun d => dr_depth d + base = slashes (dr_path d) /\ SLASH ∈ dr_path d) sorted).

Definition depth_at (i : nat) : Z := default 0 (dr_depth <$> sorted !! i).
Lemma depth_sorted i j : (i <= j < length sorted)%nat -> depth_at j <= depth_at i.
Proof.
  intros [Hij Hj]. destruct (decide (i = j)) as [->|]; [done|].
  destruct (lookup_lt_is_Some_2 sorted i) as [x Hx]; [lia|]. destruct (lookup_lt_is_Some_2 sorted j Hj) as [y Hy].
  pose proof (sorted_lookup _ _ Hsorted i j x y ltac:(lia) Hx Hy) as H. unfold depth_at. rewrite Hx, Hy. simpl.
  unfold dir_rec_cmp_desc_depth in H. case_decide; [lia|]. destruct (Z.compare_spec (dr_depth y) (dr_depth x)); [lia|lia|done].
Qed.

Lemma rec_at i x : sorted !! i = Some x -> dr_depth x + base = slashes (dr_path x) /\ SLASH ∈ dr_path x.
Proof. intros Hi. by apply (Forall_lookup_1 _ _ _ _ Hdepth Hi). Qed.

(** Everything between two siblings is a sibling. *)
Lemma siblings_adjacent i j k x y z :
  (i <= k <= j)%nat -> sorted !! i = Some x -> sorted !! j = Some y -> sorted !! k = Some z ->
  dr_depth x = dr_depth y -> rmdir_same_parent x y = true ->
  exists p nz, dr_path z = p ++ SLASH :: nz /\ (SLASH ∉ nz) /\ exists nx, dr_path x = p ++ SLASH :: nx /\ SLASH ∉ nx.
Proof.
  intros Hk Hx Hy Hz Hd Hs. destruct (rec_at i x Hx) as [Dx Sx], (rec_at j y Hy) as [Dy Sy], (rec_at k z Hz) as [Dz Sz].
  destruct (same_parent_split x y Sx Hs) as (p & nx & ny & Px & Nx & Hy'). destruct (Hy' Sy) as [Py Ny].
  assert (Hdz : dr_depth z = dr_depth x).
  { pose proof (depth_sorted i k) as H1. pose proof (depth_sorted k j) as H2. unfold depth_at in H1, H2. rewrite Hx, Hy, Hz in *. simpl in *.
    apply lookup_lt_Some in Hy. lia. }
  assert (Hle : forall a b u v, (a <= b)%nat -> sorted !! a = Some u -> sorted !! b = Some v -> dr_depth u = dr_depth v -> str_le (dr_path u) (dr_path v)).
  { intros a b u v Hab Hu Hv Huv. destruct (decide (a = b)) as [->|].
    - assert (u = v) as -> by congruence. unfold str_le. clear. induction (dr_path v) as [|c l IH]; [done|]. simpl. by rewrite Z.compare_refl.
    - pose proof (sorted_lookup _ _ Hsorted a b u v ltac:(lia) Hu Hv) as H. unfold dir_rec_cmp_desc_depth in H. by rewrite decide_True in H. }
  destruct (str_le_prefix (p ++ [SLASH]) nx (dr_path z) ny) as [nz Pz].
  { rewrite <- (assoc_L (++)). cbn [app]. rewrite <- Px. apply (Hle i k); [lia|done|done|lia]. }
  { rewrite <- (assoc_L (++)). cbn [app]. rewrite <- Py. apply (Hle k j); [lia|done|done|lia]. }
  rewrite <- (assoc_L (++)) in Pz. cbn [app] in Pz. exists p, nz. split_and!; [done| |by exists nx].
  rewrite Px, slashes_app in Dx. rewrite Pz, slashes_app in Dz. cbn [slashes] in Dx, Dz.
  apply slashes_none in Nx. apply slashes_none. lia.
Qed.
Lemma same_parent_intro p nx ny x y :
  dr_path x = p ++ SLASH :: nx -> SLASH ∉ nx -> dr_path y = p ++ SLASH :: ny -> SLASH ∉ ny -> rmdir_same_parent x y = true.
Proof.
  intros Hx Nx Hy Ny. unfold rmdir_same_parent, parent_len. rewrite Hx, Hy, !parent_len_app by done.
  rewrite !take_app_length. by rewrite !bool_decide_eq_true_2.
Qed.
End pass.


Definition sample_dirs : list dir_rec :=
  [DirRec (str "/d/a/x") 2 1 4; DirRec (str "/d/a/y") 2 1 5; DirRec (str "/d/b/z") 2 1 6; DirRec (str "/d/a") 1 1 2; DirRec (str "/d/b") 1 1 3; DirRec (str "/d") 0 1 1].
