(* ===== verification/TaskHeap.v ===== *)
(** The dispatch heap of the copy workers (src/workers.c): a 4-ary max-heap of
    tasks with their keys stored in line, kept in an array.

    The array is a list; the two sift loops move a hole through it as the code
    does and take a number of iterations the loop cannot exceed (it halves the
    index, or moves to a larger one). *)

From Stdlib Require Export Sorting.Sorted.
From S2P Require Export Prelude.

Section heap.
Context {T : Type}.

(** [task_heap_entry_t] and [task_heap_t]; [h_items] are the first [len]
    entries. *)
Record heap_entry := HeapEntry { he_key : Z; he_task : T }.
Record task_heap := TaskHeap { h_items : list heap_entry; h_cap : Z }.

Definition HEAP_ARITY : nat := 4.

(** [while (ncap < need) ncap *= 2] *)
Fixpoint grow_cap (fuel : nat) (ncap need : Z) : Z :=
  match fuel with
  | O => ncap
  | S fuel => if decide (ncap < need) then grow_cap fuel (ncap * 2) need else ncap
  end.

(** [realloc_ok] is whether the allocation of the new array succeeds. *)
Definition heap_reserve (realloc_ok : Z -> bool) (h : task_heap) (need : Z) : option task_heap :=
  if decide (need <= h_cap h) then Some h else
  let ncap := grow_cap 64 (if decide (h_cap h = 0) then 64 else h_cap h * 2) need in
  if realloc_ok ncap then Some (TaskHeap (h_items h) ncap) else None.

(** The loop of [heap_push]: the hole is at [i]. *)
Fixpoint sift_up (fuel : nat) (l : list heap_entry) (i : nat) (e : heap_entry) : list heap_entry :=
  match fuel with
  | O => <[i := e]> l
  | S fuel =>
      if decide (i = 0%nat) then <[i := e]> l else
      let parent := ((i - 1) / HEAP_ARITY)%nat in
      match l !! parent with
      | None => <[i := e]> l
      | Some p => if decide (he_key e <= he_key p) then <[i := e]> l
                  else sift_up fuel (<[i := p]> l) parent e
      end
  end.

(** The slot [len] the array grows by is written by the loop in any case. *)
Definition heap_push (h : task_heap) (key : Z) (t : T) : task_heap :=
  let e := HeapEntry key t in
  TaskHeap (sift_up (length (h_items h)) (h_items h ++ [e]) (length (h_items h)) e) (h_cap h).

(** The scan of the children [child, child + n): the first largest key above
    [best_key]. *)
Fixpoint best_child (l : list heap_entry) (child n : nat) (best : nat) (best_key : Z) : nat * Z :=
  match n with
  | O => (best, best_key)
  | S n =>
      match l !! child with
      | Some c => if decide (best_key < he_key c) then best_child l (S child) n child (he_key c)
                  else best_child l (S child) n best best_key
      | None => (best, best_key)
      end
  end.

(** The loop of [heap_pop_max]. *)
Fixpoint sift_down (fuel : nat) (l : list heap_entry) (i : nat) (node : heap_entry) : list heap_entry :=
  match fuel with
  | O => <[i := node]> l
  | S fuel =>
      let child := (HEAP_ARITY * i + 1)%nat in
      let best := (if decide (child < length l)%nat
                   then let last := Nat.min (child + (HEAP_ARITY - 1)) (length l - 1) in
                        (best_child l child (last - child + 1) i (he_key node)).1
                   else i) in
      if decide (best = i) then <[i := node]> l else
      match l !! best with
      | Some b => sift_down fuel (<[i := b]> l) best node
      | None => <[i := node]> l
      end
  end.

(** The caller makes sure that the heap is not empty. *)
Definition heap_pop_max (h : task_heap) : option (T * task_heap) :=
  match h_items h with
  | [] => None
  | top :: _ =>
      let len := (length (h_items h) - 1)%nat in
      match h_items h !! len with
      | None => None
      | Some node =>
          let l := take len (h_items h) in
          Some (he_task top,
                TaskHeap (if decide (0 < len)%nat then sift_down len l 0 node else l) (h_cap h))
      end
  end.

(** * Order *)

Definition parent (i : nat) : nat := ((i - 1) / 4)%nat.
Definition key_at (l : list heap_entry) (i : nat) : Z := default 0 (he_key <$> l !! i).

(** Every entry but the root is at most its parent. *)
Definition heap_ok (l : list heap_entry) : Prop :=
  forall j, (0 < j < length l)%nat -> key_at l j <= key_at l (parent j).

(** ... except around a hole at [i]. *)
Definition hole_ok (l : list heap_entry) (i : nat) : Prop :=
  (i < length l)%nat /\
  (forall j, (0 < j < length l)%nat -> j <> i -> parent j <> i -> key_at l j <= key_at l (parent j)) /\
  ((0 < i)%nat -> forall j, (0 < j < length l)%nat -> parent j = i -> key_at l j <= key_at l (parent i)).

Lemma parent_lt i : (0 < i)%nat -> (parent i < i)%nat.
Proof. intros Hi. unfold parent. apply Nat.Div0.div_lt_upper_bound. lia. Qed.
Lemma parent_child i j : (0 < j)%nat -> parent j = i <-> (4 * i + 1 <= j <= 4 * i + 4)%nat.
Proof.
  intros Hj. unfold parent. pose proof (Nat.div_mod_eq (j - 1) 4). pose proof (Nat.mod_upper_bound (j - 1) 4). lia.
Qed.

Lemma key_at_insert l i e j :
  (i < length l)%nat -> key_at (<[i := e]> l) j = if decide (j = i) then he_key e else key_at l j.
Proof.
  intros Hi. unfold key_at. case_decide; [subst; by rewrite list_lookup_insert_eq|by rewrite list_lookup_insert_ne].
Qed.
Lemma key_at_lookup l i x : l !! i = Some x -> key_at l i = he_key x.
Proof. intros H. unfold key_at. by rewrite H. Qed.

(** Filling the hole. *)
Lemma hole_fill l i e :
  hole_ok l i -> ((0 < i)%nat -> he_key e <= key_at l (parent i)) ->
  (forall j, (0 < j < length l)%nat -> parent j = i -> key_at l j <= he_key e) -> heap_ok (<[i := e]> l).
Proof.
  intros (Hi & Ha & _) Hup Hdown j Hj. rewrite length_insert in Hj. rewrite !key_at_insert by done.
  pose proof (parent_lt j ltac:(lia)). repeat case_decide; try lia; subst; auto with lia.
Qed.

(** Moving the hole, up or down. *)
Lemma hole_up l i p :
  hole_ok l i -> (0 < i)%nat -> l !! parent i = Some p -> hole_ok (<[i := p]> l) (parent i).
Proof.
  intros (Hi & Ha & Hb) H0 Hp. apply key_at_lookup in Hp as Hk. pose proof (parent_lt i H0).
  split; [rewrite length_insert; lia|]. split.
  - intros j Hj Hne Hpar. rewrite length_insert in Hj. rewrite !key_at_insert by done.
    repeat case_decide; subst; try lia; [rewrite <- Hk; by apply Hb|by apply Ha].
  - intros Hp0 j Hj Hpar. rewrite length_insert in Hj. rewrite !key_at_insert by done.
    pose proof (parent_lt (parent i) Hp0).
    assert (Hpp : key_at l (parent i) <= key_at l (parent (parent i))) by (apply Ha; lia).
    repeat case_decide; subst; try lia. etrans; [|exact Hpp]. rewrite <- Hpar. apply Ha; [done|done|lia].
Qed.
Lemma hole_down l i b x :
  hole_ok l i -> (0 < b < length l)%nat -> parent b = i -> l !! b = Some x ->
  (forall j, (0 < j < length l)%nat -> parent j = i -> key_at l j <= he_key x) -> hole_ok (<[i := x]> l) b.
Proof.
  intros (Hi & Ha & Hb) Hlt Hpar Hx Hmax. apply key_at_lookup in Hx as Hk. pose proof (parent_lt b ltac:(lia)).
  split; [rewrite length_insert; lia|]. split.
  - intros j Hj Hne Hpj. rewrite length_insert in Hj. rewrite !key_at_insert by done.
    pose proof (parent_lt j ltac:(lia)). repeat case_decide; try lia; subst.
    + rewrite <- Hk. apply Hb; [lia|done|done].
    + by apply Hmax.
    + by apply Ha.
  - intros _ j Hj Hpj. rewrite length_insert in Hj. rewrite !key_at_insert by done. pose proof (parent_lt j ltac:(lia)).
    repeat case_decide; try lia. rewrite <- Hk, <- Hpj. apply Ha; [done|lia|lia].
Qed.

(** * The loops *)

Lemma sift_up_spec fuel l i e :
  hole_ok l i -> (i <= fuel)%nat -> (forall j, (0 < j < length l)%nat -> parent j = i -> key_at l j <= he_key e) ->
  heap_ok (sift_up fuel l i e) /\ sift_up fuel l i e ≡ₚ <[i := e]> l.
Proof.
  revert l i. induction fuel as [|fuel IH]; intros l i Hh Hf Hd; cbn [sift_up].
  { split; [|done]. apply hole_fill; [done|lia|done]. }
  case_decide as H0; [split; [|done]; apply hole_fill; [done|lia|done]|].
  change ((i - 1) / HEAP_ARITY)%nat with (parent i). pose proof (parent_lt i ltac:(lia)) as Hlt.
  destruct Hh as (Hi & Ha & Hb). assert (Hh : hole_ok l i) by done.
  destruct (lookup_lt_is_Some_2 l (parent i)) as [p Hp]; [lia|]. rewrite Hp. apply key_at_lookup in Hp as Hk.
  case_decide as Hle; [split; [|done]; apply hole_fill; [done|by rewrite Hk|done]|].
  destruct (IH (<[i := p]> l) (parent i)) as [H1 H2].
  - by apply hole_up; [|lia|].
  - lia.
  - intros j Hj Hpar. rewrite length_insert in Hj. rewrite key_at_insert by done.
    case_decide; [lia|]. etrans; [apply Ha; [done|done|lia]|]. rewrite Hpar, Hk. lia.
  - split; [done|]. rewrite H2. apply symmetry.
    rewrite <- (Permutation_insert_swap (<[i := e]> l) i (parent i) e p).
    + by rewrite list_insert_insert_eq.
    + by apply list_lookup_insert_eq.
    + rewrite list_lookup_insert_ne by lia. done.
Qed.

(** The scan finds a child with the largest key, or stays when none is larger. *)
Lemma best_child_spec l child n i k :
  (child + n <= length l)%nat -> (i < child)%nat ->
  let r := best_child l child n i k in
  (r.1 = i /\ r.2 = k \/ (child <= r.1 < child + n)%nat /\ key_at l r.1 = r.2 /\ k < r.2) /\
  (forall j, (child <= j < child + n)%nat -> key_at l j <= r.2) /\ k <= r.2.
Proof.
  revert child i k. induction n as [|n IH]; intros child i k Hn Hi; cbn [best_child].
  { simpl. split_and!; [by left|lia|lia]. }
  destruct (lookup_lt_is_Some_2 l child) as [c Hc]; [lia|]. rewrite Hc. apply key_at_lookup in Hc as Hk.
  case_decide as Hlt.
  - destruct (IH (S child) child (he_key c) ltac:(lia) ltac:(lia)) as (H1 & H2 & H3). cbv zeta in *. split_and!.
    + right. destruct H1 as [[-> ->]|(? & ? & ?)]; (split; [lia|]); (split; [done|lia]).
    + intros j Hj. destruct (decide (j = child)); [subst; lia|apply H2; lia].
    + lia.
  - destruct (IH (S child) i k ltac:(lia) ltac:(lia)) as (H1 & H2 & H3). cbv zeta in *. split_and!.
    + destruct H1 as [?|(? & ? & ?)]; [by left|right]. split; [lia|done].
    + intros j Hj. destruct (decide (j = child)); [subst; lia|apply H2; lia].
    + lia.
Qed.

Lemma sift_down_spec fuel l i e :
  hole_ok l i -> (length l <= fuel + i)%nat -> ((0 < i)%nat -> he_key e <= key_at l (parent i)) ->
  heap_ok (sift_down fuel l i e) /\ sift_down fuel l i e ≡ₚ <[i := e]> l.
Proof.
  revert l i. induction fuel as [|fuel IH]; intros l i Hh Hf Hu; cbn [sift_down].
  { destruct Hh as [? _]. lia. }
  change (HEAP_ARITY - 1)%nat with 3%nat. change (HEAP_ARITY * i + 1)%nat with (4 * i + 1)%nat.
  destruct (decide (4 * i + 1 < length l)%nat) as [Hc|Hc].
  - remember (Nat.min (4 * i + 1 + 3) (length l - 1) - (4 * i + 1) + 1)%nat as n eqn:En.
    assert (Hn : (4 * i + 1 + n <= length l)%nat) by lia.
    destruct (best_child_spec l (4 * i + 1) n i (he_key e) Hn ltac:(lia)) as (Hb & Hmax & Hge). cbv zeta in *.
    destruct (best_child l (4 * i + 1) n i (he_key e)) as [b k] eqn:Hbest. simpl in Hb, Hmax, Hge |- *.
    assert (Hall : forall j, (0 < j < length l)%nat -> parent j = i -> key_at l j <= k).
    { intros j Hj Hp. apply Hmax. apply parent_child in Hp; lia. }
    case_decide as Hbi.
    + split; [|done]. apply hole_fill; [done|done|]. intros j Hj Hp. specialize (Hall j Hj Hp).
      destruct Hb as [[_ ->]|(? & _ & _)]; [done|lia].
    + destruct Hb as [[? _]|(Hr & Hk & Hlt)]; [done|].
      destruct (lookup_lt_is_Some_2 l b) as [x Hx]; [lia|]. rewrite Hx. apply key_at_lookup in Hx as Hkx.
      assert (Hpb : parent b = i) by (apply parent_child; lia).
      destruct Hh as (Hi & Ha & Hc'). destruct (IH (<[i := x]> l) b) as [H1 H2].
      * apply hole_down; [done|lia|done|done|]. intros j Hj Hp. specialize (Hall j Hj Hp). lia.
      * rewrite length_insert. lia.
      * intros _. rewrite Hpb, key_at_insert by done. rewrite decide_True by done. lia.
      * split; [done|]. rewrite H2. apply symmetry.
        rewrite <- (Permutation_insert_swap (<[i := e]> l) i b e x).
        { by rewrite list_insert_insert_eq. }
        { by apply list_lookup_insert_eq. }
        { rewrite list_lookup_insert_ne by lia. done. }
  - rewrite decide_True by done. split; [|done]. apply hole_fill; [done|done|].
    intros j Hj Hp. apply parent_child in Hp; lia.
Qed.

(** * Operations *)

Lemma heap_push_spec h key t :
  heap_ok (h_items h) ->
  heap_ok (h_items (heap_push h key t)) /\ h_items (heap_push h key t) ≡ₚ HeapEntry key t :: h_items h.
Proof.
  intros Hok. set (l := h_items h) in *. set (e := HeapEntry key t). unfold heap_push. simpl. fold l.
  assert (Hkey : forall j, (j < length l)%nat -> key_at (l ++ [e]) j = key_at l j).
  { intros j Hj. unfold key_at. by rewrite lookup_app_l. }
  destruct (sift_up_spec (length l) (l ++ [e]) (length l) e) as [H1 H2].
  - unfold hole_ok. rewrite length_app. simpl. split; [lia|]. split.
    + intros j Hj Hne Hpar. pose proof (parent_lt j ltac:(lia)). rewrite !Hkey by lia. apply Hok. lia.
    + intros _ j Hj Hp. pose proof (parent_lt j ltac:(lia)). lia.
  - done.
  - intros j Hj Hp. rewrite length_app in Hj. simpl in Hj. pose proof (parent_lt j ltac:(lia)). lia.
  - split; [done|]. etrans; [exact H2|]. rewrite insert_app_r_alt, Nat.sub_diag by lia. simpl. by rewrite Permutation_app_comm.
Qed.

(** The root has the largest key. *)
Lemma heap_ok_max l j : heap_ok l -> (j < length l)%nat -> key_at l j <= key_at l 0.
Proof.
  intros Hok. induction (lt_wf j) as [j _ IH]. intros Hj. destruct (decide (j = 0%nat)) as [->|]; [lia|].
  pose proof (parent_lt j ltac:(lia)). etrans; [apply Hok; lia|]. apply IH; lia.
Qed.

Lemma heap_pop_spec h :
  heap_ok (h_items h) -> h_items h <> [] ->
  exists e h', heap_pop_max h = Some (he_task e, h') /\ e :: h_items h' ≡ₚ h_items h /\ heap_ok (h_items h') /\
    Forall (fun x => he_key x <= he_key e) (h_items h).
Proof.
  destruct h as [l cap]. simpl. intros Hok Hne. destruct l as [|top l]; [done|]. clear Hne.
  unfold heap_pop_max. cbn [h_items h_cap]. replace (length (top :: l) - 1)%nat with (length l) by (simpl; lia).
  assert (Hmax : Forall (fun x => he_key x <= he_key top) (top :: l)).
  { apply Forall_lookup. intros i x Hx. pose proof (lookup_lt_Some _ _ _ Hx).
    rewrite <- (key_at_lookup _ _ _ Hx). by apply (heap_ok_max (top :: l) i). }
  destruct l as [|y l' _] using rev_ind.
  - simpl. exists top, (TaskHeap [] cap). by split_and!.
  - rewrite length_app. cbn [length]. replace (length l' + 1)%nat with (S (length l')) by lia.
    assert (Hnode : (top :: l' ++ [y]) !! S (length l') = Some y) by (simpl; by rewrite list_lookup_middle).
    rewrite Hnode. assert (Htake : take (S (length l')) (top :: l' ++ [y]) = top :: l') by (simpl; by rewrite take_app_length).
    rewrite Htake, decide_True by lia.
    assert (Hkey : forall j, (j < S (length l'))%nat -> key_at (top :: l') j = key_at (top :: l' ++ [y]) j).
    { intros j Hj. unfold key_at. change (top :: l' ++ [y]) with ((top :: l') ++ [y]). by rewrite lookup_app_l. }
    destruct (sift_down_spec (S (length l')) (top :: l') 0 y) as [H1 H2].
    + split; [simpl; lia|]. split; [|lia]. intros j Hj Hn0 Hp0. cbn [length] in Hj. pose proof (parent_lt j ltac:(lia)).
      rewrite !Hkey by lia. apply Hok. cbn [length]. rewrite length_app. simpl. lia.
    + simpl. lia.
    + lia.
    + exists top, (TaskHeap (sift_down (S (length l')) (top :: l') 0 y) cap). split_and!; [done| |done|done].
      cbn [h_items]. rewrite H2. simpl. constructor. by rewrite Permutation_app_comm.
Qed.

(** The invariant of the dispatch queue: ordered, within its capacity, and each
    entry under the key of its task. *)
Definition heap_inv (key : T -> Z) (h : task_heap) : Prop :=
  heap_ok (h_items h) /\ zlen (h_items h) <= h_cap h /\ Forall (fun x => he_key x = key (he_task x)) (h_items h).
Definition heap_tasks (h : task_heap) : list T := he_task <$> h_items h.

Lemma grow_cap_spec fuel c need : 0 < c -> need <= c * 2 ^ Z.of_nat fuel -> need <= grow_cap fuel c need /\ c <= grow_cap fuel c need.
Proof.
  revert c. induction fuel as [|fuel IH]; intros c Hc Hn; cbn [grow_cap]; [simpl in Hn; lia|].
  case_decide; [|lia]. destruct (IH (c * 2) ltac:(lia)); [|lia]. etrans; [exact Hn|].
  rewrite Nat2Z.inj_succ, Z.pow_succ_r by lia. lia.
Qed.

(** Reserving, pushing and popping keep the invariant. *)
Lemma heap_reserve_inv key alloc h need h' :
  heap_inv key h -> need <= 2 ^ 64 -> heap_reserve alloc h need = Some h' ->
  heap_inv key h' /\ h_items h' = h_items h /\ need <= h_cap h'.
Proof.
  intros (H1 & H2 & H3) Hn. unfold heap_reserve. case_decide; [intros [= <-]; by split_and!|].
  pose proof (zlen_nonneg (h_items h)). set (c := if decide (h_cap h = 0) then 64 else h_cap h * 2).
  assert (0 < c /\ h_cap h <= c) by (subst c; case_decide; lia).
  destruct (grow_cap_spec 64 c need) as [Hg1 Hg2]; [lia|change (2 ^ Z.of_nat 64) with (2 ^ 64); nia|].
  revert Hg1 Hg2. generalize (grow_cap 64 c need). intros n Hg1 Hg2.
  destruct (alloc _); [|done]. intros [= <-]. cbn [h_items h_cap]. unfold heap_inv. cbn [h_items h_cap].
  split_and!; [done|lia|done|done|done].
Qed.
Lemma heap_push_inv key h t :
  heap_inv key h -> zlen (h_items h) < h_cap h ->
  heap_inv key (heap_push h (key t) t) /\ heap_tasks (heap_push h (key t) t) ≡ₚ t :: heap_tasks h.
Proof.
  intros (H1 & H2 & H3) Hc. destruct (heap_push_spec h (key t) t H1) as [Ho Hp]. split.
  - split; [done|]. unfold zlen. split; [rewrite Hp; unfold zlen in *; simpl; lia|]. rewrite Hp. by constructor.
  - unfold heap_tasks. by rewrite Hp.
Qed.
Lemma heap_pop_inv key h :
  heap_inv key h -> h_items h <> [] ->
  exists t h', heap_pop_max h = Some (t, h') /\ heap_inv key h' /\ t :: heap_tasks h' ≡ₚ heap_tasks h /\
    (forall x, x ∈ heap_tasks h -> key x <= key t).
Proof.
  intros (H1 & H2 & H3) Hne. destruct (heap_pop_spec h H1 Hne) as (e & h' & Hpop & Hp & Ho & Hmax).
  assert (Hcap : h_cap h' = h_cap h).
  { revert Hpop. unfold heap_pop_max. repeat case_match; try done; intros; by simplify_eq. }
  rewrite <- Hp in H3. apply Forall_cons_1 in H3 as [He H3].
  exists (he_task e), h'. split; [done|]. split.
  - split; [done|]. split; [|done]. rewrite Hcap. etrans; [|exact H2]. unfold zlen. rewrite <- Hp. simpl. lia.
  - unfold heap_tasks. rewrite <- Hp. split; [done|]. intros x Hx. apply list_elem_of_fmap in Hx as (y & -> & Hy).
    rewrite <- He. rewrite <- Hp in Hmax, Hy. pose proof (proj1 (list.Forall_forall _ _) Hmax y Hy) as Hle. cbn beta in Hle.
    assert (Hk : he_key y = key (he_task y)).
    { apply elem_of_cons in Hy as [->|Hy]; [done|].
      by apply (proj1 (list.Forall_forall _ _) H3). }
    by rewrite <- Hk.
Qed.

(** Push a batch; pop everything. *)
Definition push_all (key : T -> Z) (ts : list T) (h : task_heap) : task_heap :=
  foldl (fun h t => heap_push h (key t) t) h ts.
Fixpoint drain (n : nat) (h : task_heap) : list T :=
  match n with
  | O => []
  | S n => match heap_pop_max h with Some (t, h) => t :: drain n h | None => [] end
  end.

Lemma push_all_inv key ts h :
  heap_inv key h -> zlen (h_items h) + zlen ts <= h_cap h ->
  heap_inv key (push_all key ts h) /\ heap_tasks (push_all key ts h) ≡ₚ ts ++ heap_tasks h.
Proof.
  revert h. induction ts as [|t ts IH]; intros h Hi Hc; [done|]. rewrite zlen_cons in Hc. pose proof (zlen_nonneg ts).
  destruct (heap_push_inv key h t Hi ltac:(lia)) as [Hi' Hp]. cbn [push_all foldl].
  assert (Hl : zlen (h_items (heap_push h (key t) t)) = zlen (h_items h) + 1).
  { apply Permutation_length in Hp. unfold heap_tasks in Hp. cbn [length] in Hp.
    rewrite !length_fmap in Hp. unfold zlen. lia. }
  destruct (IH (heap_push h (key t) t) Hi') as [H1 H2]; [change (h_cap (heap_push h (key t) t)) with (h_cap h); lia|].
  split; [done|]. fold (push_all key ts (heap_push h (key t) t)). rewrite H2, Hp. simpl. symmetry. apply Permutation_middle.
Qed.

Lemma drain_sorted key n h :
  heap_inv key h -> length (h_items h) = n ->
  drain n h ≡ₚ heap_tasks h /\ Sorted (fun x y => key y <= key x) (drain n h).
Proof.
  revert h. induction n as [|n IH]; intros h Hi Hn.
  - apply nil_length_inv in Hn. unfold heap_tasks. rewrite Hn. by split; [|constructor].
  - destruct (heap_pop_inv key h Hi) as (t & h' & Hpop & Hi' & Hp & Hmax); [by intros Hnil; rewrite Hnil in Hn|].
    cbn [drain]. rewrite Hpop. destruct (IH h' Hi') as [Hd Hs].
    { apply Permutation_length in Hp. unfold heap_tasks in Hp. simpl in Hp. rewrite !length_fmap in Hp. lia. }
    split; [by rewrite Hd|]. constructor; [done|]. destruct (drain n h') as [|x l] eqn:E; constructor.
    apply Hmax. rewrite <- Hp, <- Hd. set_solver.
Qed.
End heap.
Arguments heap_entry : clear implicits.
Arguments task_heap : clear implicits.

(** C17.  The dispatch heap: whatever is already queued, reserving room
    for a batch and pushing it never exceeds the array, keeps every entry under
    its task's key and loses or duplicates no task; and popping returns all of
    them, each once, the largest key first. *)
Theorem heap_dispatch_order {T} (key : T -> Z) alloc (h h1 : task_heap T) ts :
  heap_inv key h -> zlen (h_items h) + zlen ts <= 2 ^ 64 ->
  heap_reserve alloc h (zlen (h_items h) + zlen ts) = Some h1 ->
  let h2 := push_all key ts h1 in
  heap_inv key h2 /\
  drain (length (h_items h) + length ts) h2 ≡ₚ ts ++ heap_tasks h /\
  Sorted (fun x y => key y <= key x) (drain (length (h_items h) + length ts) h2).
Proof.
  intros Hi Hb Hr h2. destruct (heap_reserve_inv key alloc h _ h1 Hi Hb Hr) as (Hi1 & Hit & Hcap).
  destruct (push_all_inv key ts h1 Hi1) as [Hi2 Hp]; [by rewrite Hit|]. fold h2 in Hi2, Hp.
  assert (Hl : length (h_items h2) = (length (h_items h) + length ts)%nat).
  { apply Permutation_length in Hp. unfold heap_tasks in Hp. rewrite length_app, !length_fmap, Hit in Hp. lia. }
  destruct (drain_sorted key _ h2 Hi2 Hl) as [Hd Hs]. split_and!; [done| |done].
  rewrite Hd, Hp. unfold heap_tasks. by rewrite Hit.
Qed.

Lemma heap_dispatch_order_witness :
  drain 6 (push_all (fun z => z) [5; 1; 9; 7; 9; 2] (TaskHeap [] 64)) ≡ₚ [5; 1; 9; 7; 9; 2] ++ [].
Proof.
  refine (proj1 (proj2 (heap_dispatch_order (fun z => z) (fun _ => true) (TaskHeap [] 0) (TaskHeap [] 64)
    [5; 1; 9; 7; 9; 2] _ _ _))); [|by vm_compute|by vm_compute].
  split_and!; [intros j Hj; simpl in Hj; lia|by vm_compute|constructor].
Defined.
