(* ===== verification/WorkerConfig.v ===== *)
(** Runtime configuration of the copy workers (src/workers.c): the environment
    overrides, the split of large-file workers into readers and writers, and
    the limits derived from them.

    The file-scope variables are one record; a division has non-negative
    operands everywhere.  Warnings are values. *)

From S2P Require Export EnvUtil Protocol.

Definition ALIGNMENT : Z := 4096.
Definition MAX_WORKER_SLOTS : Z := 256.
Definition SMALL_WORKER_SLOTS : Z := 32.
Definition LARGE_FILE_WORKERS : Z := 6.
Definition LARGE_FILE_INFLIGHT : Z := 16.
Definition LARGE_FILE_THRESHOLD_MB : Z := 10.
Definition CHUNK_SIZE : Z := 1024 * 1024.
Definition SIZE_PRIORITY_DEFAULT : Z := 1.
Definition MAX_LARGE_BUFFER_BUDGET_MB : Z := 8192.
Definition LARGE_PIPE_BATCH_MAX : Z := 4.
Definition SPACE_WAKE_MIN : Z := 1024.
Definition MIB : Z := 1024 * 1024.

Record runtime := Runtime {
  g_worker_count : Z;
  g_large_worker_count : Z;
  g_large_file_inflight : Z;
  g_max_active_large_files : Z;
  g_large_reader_count : Z;
  g_large_writer_count : Z;
  g_large_config_clamped : bool;
  g_chunk_size : Z;
  g_large_threshold : Z;
  g_small_write_direct_min : Z;
  g_max_queued_files : Z;
  g_small_worker_limit : Z;
  g_ssh_putfile_max : Z;
  g_size_priority : bool
}.

(** Before the first call. *)
Definition runtime0 : runtime := Runtime 0 0 0 0 0 0 false 0 0 (-1) 0 0 0 true.

Inductive warning :=
| ReadersWritersTogether
| BufferBudget (budget_mb old new : Z)
| SplitClamped (readers writers cost : Z)
| FewActiveFiles (readers writers active : Z)
| ReadersExceedInflight (readers inflight : Z).

Definition large_pipe_batch (r : runtime) : Z :=
  let b := g_large_file_inflight r / 4 in
  let b := if decide (b < 1) then 1 else b in
  if decide (LARGE_PIPE_BATCH_MAX < b) then LARGE_PIPE_BATCH_MAX else b.

(** Readers and writers. *)
Definition split_large_workers (total : Z) : Z * Z :=
  let readers := (total + 1) / 2 in
  let writers := total - readers in
  let '(readers, writers) := if decide (writers < 1) then (total - 1, 1) else (readers, writers) in
  (if decide (readers < 1) then 1 else readers, writers).

(** Readers, writers, slot cost and whether the request was cut. *)
Definition normalize_large_pipeline_config (worker_count readers writers : Z) : Z * Z * Z * bool :=
  let slot_budget := if decide (0 < worker_count) then worker_count else 1 in
  let requested_readers := if decide (readers < 1) then 1 else readers in
  let requested_writers := if decide (writers < 1) then 1 else writers in
  let requested_total := requested_readers + requested_writers in
  if decide (slot_budget < requested_total) then
    if decide (slot_budget = 1) then (1, 1, 1, true) else
    let r := (requested_readers * slot_budget + requested_total / 2) / requested_total in
    let r := if decide (r < 1) then 1 else r in
    let r := if decide (slot_budget - 1 < r) then slot_budget - 1 else r in
    (r, slot_budget - r, slot_budget, true)
  else (requested_readers, requested_writers, requested_total, false).

(** The buffer budget: the number of buffers per file, and the warning. *)
Definition clamp_inflight (chunk_size inflight max_active : Z) : Z * list warning :=
  let chunk_mb := chunk_size / MIB in
  let budget_mb := chunk_mb * inflight * max_active in
  if decide (MAX_LARGE_BUFFER_BUDGET_MB < budget_mb) then
    let c := MAX_LARGE_BUFFER_BUDGET_MB / (chunk_mb * max_active) in
    let c := if decide (c < 1) then 1 else c in
    (c, [BufferBudget budget_mb inflight c])
  else (inflight, []).

Definition initialised (r : runtime) : bool :=
  bool_decide (0 < g_worker_count r) && bool_decide (0 < g_large_worker_count r)
  && bool_decide (0 < g_large_file_inflight r) && bool_decide (0 < g_chunk_size r)
  && bool_decide (0 < g_large_threshold r) && bool_decide (0 < g_max_queued_files r)
  && bool_decide (0 < g_small_worker_limit r).

Section config.
(** [env_of] is getenv, by the name after DIRECT_COPY_. *)
Context (env_of : bytes -> option bytes).
Definition env_int (name : bytes) (d lo hi : Z) : Z := env_int_or_default (env_of name) d lo hi.

Definition init_runtime_config (r : runtime) : runtime * list warning :=
  if initialised r then (r, []) else
  let workers := env_int (str "MAX_WORKERS") MAX_WORKER_SLOTS 2 512 in
  let large_workers := env_int (str "LARGE_WORKERS") LARGE_FILE_WORKERS 2 workers in
  let readers := env_int (str "LARGE_READERS") 4 0 workers in
  let writers := env_int (str "LARGE_WRITERS") 2 0 workers in
  let mixed := xorb (bool_decide (0 < readers)) (bool_decide (0 < writers)) in
  let '(readers, writers, w1) := if mixed then (4, 2, [ReadersWritersTogether]) else (readers, writers, []) in
  let inflight := env_int (str "LARGE_FILE_INFLIGHT") LARGE_FILE_INFLIGHT 1 1024 in
  let chunk_size := env_int (str "CHUNK_MB") (CHUNK_SIZE / MIB) 1 4096 * MIB in
  let threshold := env_int (str "LARGE_THRESHOLD_MB") LARGE_FILE_THRESHOLD_MB 1 (1024 * 1024) * MIB in
  let max_queued := env_int (str "MAX_QUEUED_FILES") 262144 1 10000000 in
  let priority := env_int (str "SIZE_PRIORITY") SIZE_PRIORITY_DEFAULT 0 1 in
  let small_limit := env_int (str "SMALL_MAX_WORKERS") SMALL_WORKER_SLOTS 1 workers in
  let direct_min := env_int (str "SMALL_WRITE_DIRECT_MIN_KB") 64 0 (1024 * 1024) * 1024 in
  let putfile_max := env_int (str "SSH_PUTFILE_MAX") 1024 0 ((ECOPY_MAX_FRAME - 65536) / 1024) * 1024 in
  let '(rd, wr) := if bool_decide (0 < readers) && bool_decide (0 < writers) then (readers, writers)
                   else split_large_workers large_workers in
  let '(rc, wc, cost, clamped) := normalize_large_pipeline_config workers rd wr in
  let max_active := workers / cost in
  let max_active := if decide (max_active < 1) then 1 else max_active in
  let '(inflight, w2) := clamp_inflight chunk_size inflight max_active in
  (Runtime workers cost inflight max_active rc wc clamped chunk_size threshold direct_min max_queued
     small_limit putfile_max (negb (bool_decide (priority = 0))), w1 ++ w2).
End config.

Definition get_pipeline_thread_counts (r : runtime) : Z * Z := (g_large_reader_count r, g_large_writer_count r).

(** The warnings of an initialised configuration. *)
Definition validate_runtime_config (r : runtime) : list warning :=
  let '(readers, writers) := get_pipeline_thread_counts r in
  (if g_large_config_clamped r then [SplitClamped readers writers (g_large_worker_count r)] else []) ++
  (if decide (g_max_active_large_files r < 2) then [FewActiveFiles readers writers (g_max_active_large_files r)] else []) ++
  (if decide (g_large_file_inflight r < readers) then [ReadersExceedInflight readers (g_large_file_inflight r)] else []).

(** Free slots a parked producer should see before it is worth waking. *)
Definition space_wake_min (r : runtime) : Z :=
  let m := g_max_queued_files r / 4 in
  let m := if decide (SPACE_WAKE_MIN < m) then SPACE_WAKE_MIN else m in
  if decide (0 < m) then m else 1.

(** * What holds of a configuration *)

Record config_ok (r : runtime) : Prop := ConfigOk {
  co_workers : 2 <= g_worker_count r <= 512;
  co_readers : 1 <= g_large_reader_count r;
  co_writers : 1 <= g_large_writer_count r;
  co_cost : g_large_reader_count r + g_large_writer_count r = g_large_worker_count r;
  co_slots : g_max_active_large_files r * g_large_worker_count r <= g_worker_count r;
  co_active : 1 <= g_max_active_large_files r;
  co_inflight : 1 <= g_large_file_inflight r <= 1024;
  co_chunk : exists mb, g_chunk_size r = mb * MIB /\ 1 <= mb <= 4096 /\
    (mb * g_large_file_inflight r * g_max_active_large_files r <= MAX_LARGE_BUFFER_BUDGET_MB \/
     g_large_file_inflight r = 1);
  co_threshold : MIB <= g_large_threshold r;
  co_queue : 1 <= g_max_queued_files r <= 10000000;
  co_small : 1 <= g_small_worker_limit r;
  co_putfile : 0 <= g_ssh_putfile_max r /\ g_ssh_putfile_max r + 65536 <= ECOPY_MAX_FRAME
}.

Lemma env_int_range env d lo hi :
  lo <= hi -> env_int_or_default env d lo hi = d \/ lo <= env_int_or_default env d lo hi <= hi.
Proof.
  intros H. unfold env_int_or_default. destruct env as [[|b s]|]; [by left| |by left].
  case_match; [by left|]. right. repeat case_decide; lia.
Qed.
Lemma env_int_default env d lo hi : lo <= d <= hi -> lo <= env_int_or_default env d lo hi <= hi.
Proof. intros H. destruct (env_int_range env d lo hi); lia. Qed.

Lemma split_large_workers_spec total : 2 <= total -> 
  let '(r, w) := split_large_workers total in 1 <= r /\ 1 <= w /\ r + w = total.
Proof.
  intros H. unfold split_large_workers. pose proof (Z.div_mod (total + 1) 2). pose proof (Z.mod_pos_bound (total + 1) 2).
  repeat case_decide; lia.
Qed.

Lemma normalize_spec workers rd wr :
  2 <= workers ->
  let '(r, w, cost, clamped) := normalize_large_pipeline_config workers rd wr in
  1 <= r /\ 1 <= w /\ r + w = cost /\ cost <= workers /\
  (clamped = true <-> workers < Z.max 1 rd + Z.max 1 wr).
Proof.
  intros H. unfold normalize_large_pipeline_config. rewrite (decide_True (P := 0 < workers)) by lia.
  set (a := if decide (rd < 1) then 1 else rd). set (b := if decide (wr < 1) then 1 else wr).
  assert (a = Z.max 1 rd) as -> by (subst a; case_decide; lia).
  assert (b = Z.max 1 wr) as -> by (subst b; case_decide; lia).
  case_decide; [rewrite (decide_False (P := workers = 1)) by lia|split_and!; [lia|lia|lia|lia|split; [done|lia]]].
  set (x := (_ / _)%Z). repeat case_decide; split_and!; try lia; split; done.
Qed.

Lemma clamp_inflight_spec mb inflight active :
  1 <= mb -> 1 <= inflight <= 1024 -> 1 <= active ->
  let i := (clamp_inflight (mb * MIB) inflight active).1 in
  1 <= i <= inflight /\ (mb * i * active <= MAX_LARGE_BUFFER_BUDGET_MB \/ i = 1).
Proof.
  intros Hm Hi Ha. unfold clamp_inflight. rewrite Z.div_mul by (unfold MIB; lia).
  case_decide as Hb; [|simpl; lia]. simpl. set (q := (MAX_LARGE_BUFFER_BUDGET_MB / (mb * active))%Z).
  pose proof (Z.mul_div_le MAX_LARGE_BUFFER_BUDGET_MB (mb * active) ltac:(nia)) as Hq. fold q in Hq.
  assert (q < inflight \/ q < 1) by nia.
  case_decide; [lia|]. split; [lia|]. left. nia.
Qed.

Lemma init_config_ok env_of : config_ok (init_runtime_config env_of runtime0).1.
Proof.
  unfold init_runtime_config. change (initialised runtime0) with false. cbv iota.
  set (workers := env_int env_of (str "MAX_WORKERS") MAX_WORKER_SLOTS 2 512).
  assert (Hw : 2 <= workers <= 512) by (apply env_int_default; by vm_compute).
  set (lw := env_int env_of (str "LARGE_WORKERS") LARGE_FILE_WORKERS 2 workers).
  assert (Hlw : 2 <= lw) by (subst lw; destruct (env_int_range (env_of (str "LARGE_WORKERS")) LARGE_FILE_WORKERS 2 workers) as [H|H];
    [lia|unfold env_int; rewrite H; by vm_compute|unfold env_int; lia]).
  set (inflight := env_int env_of (str "LARGE_FILE_INFLIGHT") LARGE_FILE_INFLIGHT 1 1024).
  assert (Hin : 1 <= inflight <= 1024) by (apply env_int_default; by vm_compute).
  set (chunk := env_int env_of (str "CHUNK_MB") (CHUNK_SIZE / MIB) 1 4096).
  assert (Hch : 1 <= chunk <= 4096) by (apply env_int_default; by vm_compute).
  set (thr := env_int env_of (str "LARGE_THRESHOLD_MB") LARGE_FILE_THRESHOLD_MB 1 (1024 * 1024)).
  assert (Hth : 1 <= thr <= 1024 * 1024) by (apply env_int_default; by vm_compute).
  set (queued := env_int env_of (str "MAX_QUEUED_FILES") 262144 1 10000000).
  assert (Hqu : 1 <= queued <= 10000000) by (apply env_int_default; by vm_compute).
  set (small := env_int env_of (str "SMALL_MAX_WORKERS") SMALL_WORKER_SLOTS 1 workers).
  assert (Hsm : 1 <= small) by (subst small; destruct (env_int_range (env_of (str "SMALL_MAX_WORKERS")) SMALL_WORKER_SLOTS 1 workers) as [H|H];
    [lia|unfold env_int; rewrite H; by vm_compute|unfold env_int; lia]).
  set (put := env_int env_of (str "SSH_PUTFILE_MAX") 1024 0 ((ECOPY_MAX_FRAME - 65536) / 1024)).
  assert (Hput : 0 <= put <= 16320) by (apply (env_int_default _ 1024 0 16320); lia).
  set (prio := env_int env_of (str "SIZE_PRIORITY") SIZE_PRIORITY_DEFAULT 0 1).
  set (dmin := env_int env_of (str "SMALL_WRITE_DIRECT_MIN_KB") 64 0 (1024 * 1024)).
  set (rd0 := env_int env_of (str "LARGE_READERS") 4 0 workers). set (wr0 := env_int env_of (str "LARGE_WRITERS") 2 0 workers).
  destruct (if xorb _ _ then (4, 2, [ReadersWritersTogether]) else (rd0, wr0, [])) as [[rd wr] w1].
  destruct (if bool_decide (0 < rd) && bool_decide (0 < wr) then (rd, wr) else split_large_workers lw) as [rd' wr'].
  pose proof (normalize_spec workers rd' wr' ltac:(lia)) as Hn.
  destruct (normalize_large_pipeline_config workers rd' wr') as [[[rc wc] cost] clamped].
  destruct Hn as (Hr1 & Hw1 & Hsum & Hcost & _).
  pose proof (Z.mul_div_le workers cost ltac:(lia)) as Hdiv.
  pose proof (Z.div_le_lower_bound workers cost 1 ltac:(lia) ltac:(lia)) as Hge.
  rewrite (decide_False (P := workers / cost < 1)) by lia.
  pose proof (clamp_inflight_spec chunk inflight (workers / cost) ltac:(lia) Hin ltac:(lia)) as Hcl.
  destruct (clamp_inflight (chunk * MIB) inflight (workers / cost)) as [infl w2]. simpl in Hcl.
  split; cbn [fst g_worker_count g_large_reader_count g_large_writer_count g_large_worker_count
    g_max_active_large_files g_large_file_inflight g_chunk_size g_large_threshold g_max_queued_files
    g_small_worker_limit g_ssh_putfile_max]; unfold MIB in *; try lia.
  - exists chunk. split_and!; [done|lia|lia|tauto].
  - change ECOPY_MAX_FRAME with 16777216. lia.
Qed.

(** C36.  Every environment gives a working configuration: whatever the
    variables hold, there are at least one reader and one writer per large
    file, their number is the slot cost, all files allowed at once fit the
    worker slots, the chunk buffers fit the 8 GiB budget unless a single buffer
    per file already exceeds it, and a whole-file PUTFILE frame fits the
    protocol's limit with room for its header. Calling it again changes
    nothing. *)
Theorem init_runtime_config_ok env_of :
  let r := (init_runtime_config env_of runtime0).1 in
  config_ok r /\ init_runtime_config env_of r = (r, []) /\
  1 <= large_pipe_batch r <= 4 /\ large_pipe_batch r <= g_large_file_inflight r /\
  1 <= space_wake_min r <= g_max_queued_files r.
Proof.
  intros r. assert (Hok : config_ok r) by apply init_config_ok.
  split; [done|]. destruct Hok. split.
  - unfold init_runtime_config. assert (initialised r = true) as ->; [|done].
    destruct co_chunk0 as (mb & Hmb & Hb & _). unfold initialised, MIB in *.
    rewrite !bool_decide_eq_true_2 by lia. done.
  - unfold large_pipe_batch, space_wake_min, LARGE_PIPE_BATCH_MAX, SPACE_WAKE_MIN.
    pose proof (Z.div_mod (g_large_file_inflight r) 4). pose proof (Z.mod_pos_bound (g_large_file_inflight r) 4).
    pose proof (Z.div_mod (g_max_queued_files r) 4). pose proof (Z.mod_pos_bound (g_max_queued_files r) 4).
    repeat case_decide; lia.
Qed.
