(* ===== verification/Extents.v ===== *)
(** Data-extent maps of sparse files (src/workers.c): the growable extent
    list, the FIEMAP and SEEK_DATA/SEEK_HOLE walks, the map built from them,
    and the reader cursor of the large-file pipeline that cuts a file, dense or
    mapped, into chunks.

    A walk's fuel bounds its rounds; every round moves the position forwards,
    so the length of the range is enough. *)

From S2P Require Export WorkerConfig.
From stdpp Require Import sorting.
#[local] Open Scope Z_scope.

(** * The extent list *)

(** [extent_list_t]: the [start,end) pairs, the capacity, the byte count. *)
Record extent_list := ExtentList { l_ext : list (Z * Z); l_cap : Z; l_bytes : Z }.
Definition extent_list0 : extent_list := ExtentList [] 0 0.

Definition align_down (x : Z) : Z := Z.quot x ALIGNMENT * ALIGNMENT.
Definition align_up (x : Z) : Z := Z.quot (x + ALIGNMENT - 1) ALIGNMENT * ALIGNMENT.

(** [None] when the array could not grow. *)
Definition extent_list_add (l : extent_list) (data hole limit : Z) : prog posix (option extent_list) :=
  let data := align_down data in
  let hole := align_up hole in
  let hole := if decide (limit < hole) then limit else hole in
  let data := if decide (data < 0) then 0 else data in
  if decide (hole <= data) then mret (Some l) else
  let append :=
    cap ← (if decide (zlen (l_ext l) = l_cap l)
           then let ncap := if decide (l_cap l = 0) then 64 else l_cap l * 2 in
                ok ← sys (malloc (ncap * 16)); mret (if ok : bool then Some ncap else None)
           else mret (Some (l_cap l)));
    mret (match cap with
          | None => None
          | Some cap => Some (ExtentList (l_ext l ++ [(data, hole)]) cap (u64 (l_bytes l + (hole - data))))
          end) in
  match list.last (l_ext l) with
  | Some (start, prev_end) =>
      if decide (data <= prev_end) then
        if decide (prev_end < hole) then
          mret (Some (ExtentList (removelast (l_ext l) ++ [(start, hole)]) (l_cap l) (u64 (l_bytes l + (hole - prev_end)))))
        else mret (Some l)
      else append
  | None => append
  end.

(** * Walks *)

(** 1: mapped; 0: not supported; -1: out of memory. *)
Inductive walk_rc := Mapped | Unsupported | WalkOom.
Abbreviation walked := (walk_rc * option extent_list * bool)%type.

Definition unwritten (e : fiemap_extent) : bool :=
  has_bits (fe_flags e) FIEMAP_EXTENT_UNWRITTEN && negb (has_bits (fe_flags e) FIEMAP_EXTENT_DELALLOC).
Definition fe_end (e : fiemap_extent) : Z := u64 (fe_logical e + fe_length e).

(** [goto done] leaves the walk, with or without memory. *)
Inductive batch := Go | Goto_done (oom : bool).

(** The extents of one answer. *)
Fixpoint fiemap_batch (limit : Z) (stop : bool) (es : list fiemap_extent) (l : option extent_list)
    (expect : Z) (has_hole : bool) : prog posix (batch * option extent_list * Z * bool) :=
  match es with
  | [] => mret (Go, l, expect, has_hole)
  | e :: es =>
      let s := fe_logical e in let en := fe_end e in
      let gap := bool_decide (expect < s) || unwritten e in
      let has_hole := has_hole || gap in
      if gap && stop then mret (Goto_done false, l, expect, has_hole) else
      added ← (match l with
               | Some x => if negb (unwritten e) && bool_decide (s < limit)
                           then extent_list_add x s (if decide (en < limit) then en else limit) limit
                           else mret (Some x)
               | None => mret (Some extent_list0)
               end);
      match added with
      | None => mret (Goto_done true, l, expect, has_hole)
      | Some x =>
          fiemap_batch limit stop es (match l with Some _ => Some x | None => None end)
            (if decide (expect < en) then en else expect) has_hole
      end
  end.

Definition FM_BATCH : Z := 512.

Fixpoint fiemap_loop (fuel : nat) (fd limit : Z) (stop : bool) (l : option extent_list) (pos expect : Z)
    (has_hole : bool) : prog posix walked :=
  match fuel with
  | O => Stuck
  | S fuel =>
      r ← sys (fiemap fd pos (u64 (limit - pos)) FIEMAP_FLAG_SYNC FM_BATCH);
      let finish l expect has_hole :=
        mret (Mapped, l, has_hole || bool_decide (expect < limit)) in
      match r with
      | Err _ => mret (Unsupported, l, has_hole)
      | Ok es =>
          match list.last es with
          | None => finish l expect has_hole
          | Some e =>
              '(b, l, expect, has_hole) ← fiemap_batch limit stop es l expect has_hole;
              match b with
              | Goto_done oom => mret (if oom : bool then WalkOom else Mapped, l, has_hole)
              | Go =>
                  if has_bits (fe_flags e) FIEMAP_EXTENT_LAST || bool_decide (limit <= expect) || bool_decide (expect <= pos)
                  then finish l expect has_hole
                  else fiemap_loop fuel fd limit stop l expect expect has_hole
              end
          end
      end
  end.

Definition fiemap_walk (fuel : nat) (fd limit : Z) (l : option extent_list) (stop_at_first_hole : bool) : prog posix walked :=
  ok ← sys (malloc (32 + FM_BATCH * 56));
  if negb ok then mret (WalkOom, l, false)
  else fiemap_loop fuel fd limit stop_at_first_hole l 0 0 false.

Fixpoint seek_loop (fuel : nat) (fd limit : Z) (l : option extent_list) (pos : Z) (has_hole : bool) : prog posix walked :=
  if decide (limit <= pos) then mret (Mapped, l, has_hole) else
  match fuel with
  | O => Stuck
  | S fuel =>
      d ← sys (seek_data fd pos);
      match d with
      | Err e => mret (if decide (e = ENXIO) then (Mapped, l, true) else (Unsupported, l, has_hole))
      | Ok data =>
          if decide (limit <= data) then mret (Mapped, l, true) else
          let has_hole := has_hole || bool_decide (pos < data) in
          h ← sys (seek_hole fd data);
          match h with
          | Err _ => mret (Unsupported, l, has_hole)
          | Ok hole =>
              let has_hole := has_hole || bool_decide (hole < limit) in
              added ← (match l with Some x => extent_list_add x data hole limit | None => mret (Some extent_list0) end);
              match added with
              | None => mret (WalkOom, l, has_hole)
              | Some x => seek_loop fuel fd limit (match l with Some _ => Some x | None => None end) hole has_hole
              end
          end
      end
  end.
Definition seek_walk (fuel : nat) (fd limit : Z) (l : option extent_list) : prog posix walked :=
  seek_loop fuel fd limit l 0 false.

(** The map: [MapUnknown] when neither interface works (the caller then reads
    the whole range). *)
Inductive extent_map := MapOom | MapUnknown | MapIs (ext : list (Z * Z)) (data_bytes : Z).

Definition build_extent_map (fuel : nat) (fd limit : Z) : prog posix extent_map :=
  '(rc, l, _) ← fiemap_walk fuel fd limit (Some extent_list0) false;
  '(rc, l, _) ← (match rc with Unsupported => seek_walk fuel fd limit (Some extent_list0) | _ => mret (rc, l, false) end);
  match rc, l with
  | WalkOom, _ | _, None => mret MapOom
  | Unsupported, _ => mret MapUnknown
  | Mapped, Some l =>
      if decide (l_ext l = [] /\ l_cap l = 0) then
        ok ← sys (malloc 8); mret (if ok : bool then MapIs [] (l_bytes l) else MapOom)
      else mret (MapIs (l_ext l) (l_bytes l))
  end.

Definition HOLE_FLAGS : Z := O_RDONLY |. O_NOFOLLOW |. O_CLOEXEC.
Definition source_has_hole (fuel : nat) (dir_fd : Z) (name : bytes) (size : Z) : prog posix bool :=
  r ← sys (openat dir_fd name HOLE_FLAGS 0);
  match r with
  | Err _ => mret false
  | Ok fd =>
      '(rc, _, has_hole) ← fiemap_walk fuel fd size None true;
      '(rc, has_hole) ← (match rc with
                         | Unsupported => '(rc, _, h) ← seek_walk fuel fd size None; mret (rc, h)
                         | _ => mret (rc, has_hole) end);
      _ ← sys (close fd);
      mret (match rc with Mapped => has_hole | _ => false end)
  end.

(** * The reader cursor *)

(** [next_read_offset] and [ext_idx]; the extents and the end are the file's. *)
Record cursor := Cursor { cr_next : Z; cr_idx : nat }.

Section cursor.
Context (extents : option (list (Z * Z))) (bulk_end : Z).

(** The first extent from [idx] on that ends after [off]. *)
Fixpoint skip_extents (ext : list (Z * Z)) (idx : nat) (off : Z) : nat :=
  match ext with
  | [] => idx
  | (_, e) :: ext => if decide (e <= off) then skip_extents ext (S idx) off else idx
  end.

Definition reader_skip_holes_locked (c : cursor) : cursor :=
  match extents with
  | None => c
  | Some ext =>
      let idx := skip_extents (drop (cr_idx c) ext) (cr_idx c) (cr_next c) in
      match ext !! idx with
      | None => Cursor bulk_end idx
      | Some (s, _) => Cursor (if decide (cr_next c < s) then s else cr_next c) idx
      end
  end.

Definition reader_run_end_locked (c : cursor) : Z :=
  match extents with
  | Some ext => match ext !! cr_idx c with Some (_, e) => e | None => bulk_end end
  | None => bulk_end
  end.

(** Assign the next range, an offset and a length. *)
Definition claim_chunk (chunk_size : Z) (c : cursor) : Z * Z * cursor :=
  let offset := cr_next c in
  let remain := reader_run_end_locked c - offset in
  let len := if decide (chunk_size <= remain) then chunk_size else remain in
  (offset, len, reader_skip_holes_locked (Cursor (offset + len) (cr_idx c))).

(** At the start of a copy. *)
Definition cursor0 : cursor := reader_skip_holes_locked (Cursor 0 0).

(** The ranges claimed from a cursor on, in order. *)
Fixpoint chunks (chunk_size : Z) (fuel : nat) (c : cursor) : list (Z * Z) :=
  match fuel with
  | O => []
  | S fuel =>
      if decide (bulk_end <= cr_next c) then [] else
      let '(offset, len, c) := claim_chunk chunk_size c in (offset, len) :: chunks chunk_size fuel c
  end.
End cursor.

(** * What an extent list means *)

Definition within (e : Z * Z) (x : Z) : Prop := e.1 <= x < e.2.
Definition covers (l : list (Z * Z)) (x : Z) : Prop := Exists (fun e => within e x) l.
Definition total (l : list (Z * Z)) : Z := foldr (fun e a => e.2 - e.1 + a) 0 l.

(** An extent is not empty and lies in [0, limit]; it starts at an aligned
    offset and ends at an aligned offset or at the limit. Between two extents
    there is a gap. *)
Definition extent_ok (limit : Z) (e : Z * Z) : Prop :=
  0 <= e.1 < e.2 /\ e.2 <= limit /\ (ALIGNMENT | e.1) /\ ((ALIGNMENT | e.2) \/ e.2 = limit).
Definition extents_ok (limit : Z) (l : list (Z * Z)) : Prop :=
  Forall (extent_ok limit) l /\ StronglySorted (fun a b => a.2 < b.1) l.

Lemma covers_app l k x : covers (l ++ k) x <-> covers l x \/ covers k x.
Proof. apply Exists_app. Qed.
Lemma covers_nil x : ~ covers [] x.
Proof. intros H. by inversion H. Qed.
Lemma covers_one e x : covers [e] x <-> within e x.
Proof. unfold covers. rewrite Exists_cons. split; [intros [?|H]; [done|by inversion H]|by left]. Qed.
Lemma total_app l k : total (l ++ k) = total l + total k.
Proof. induction l as [|[s e] l IH]; simpl; [lia|]. rewrite IH. lia. Qed.

Lemma extents_ok_snoc limit l e :
  extents_ok limit (l ++ [e]) <-> extents_ok limit l /\ Forall (fun x => x.2 < e.1) l /\ extent_ok limit e.
Proof.
  unfold extents_ok. rewrite Forall_app, Forall_singleton. split.
  - intros [[? ?] Hs]. apply StronglySorted_app in Hs as (Hc & Hs1 & _). split_and!; try done.
    apply Forall_forall. intros x Hx. apply Hc; [done|by left].
  - intros ([? ?] & Hf & ?). split; [done|]. apply StronglySorted_app. split_and!; [|done|by repeat constructor].
    intros x y Hx ->%list_elem_of_singleton. by eapply Forall_forall in Hf.
Qed.
Lemma total_le limit b l :
  extents_ok limit l -> Forall (fun x => x.2 <= b) l -> 0 <= b -> 0 <= total l <= b.
Proof.
  revert b. induction l as [|e l IH] using rev_ind; intros b; [simpl; lia|].
  intros (Hl & Hf & (He & _))%extents_ok_snoc [_ Hb]%Forall_app Hb0. apply Forall_cons_1 in Hb as [Hb _]. rewrite total_app. simpl in *.
  destruct (IH e.1 Hl) as [? ?]; [|lia|lia]. eapply Forall_impl; [exact Hf|simpl; lia].
Qed.
Lemma extents_bounds limit l x : extents_ok limit l -> covers l x -> 0 <= x < limit.
Proof. intros [Hf _] (e & He & Hx)%Exists_exists. eapply Forall_forall in Hf; [|exact He]. unfold extent_ok, within in *. lia. Qed.

Lemma align_down_spec x : 0 <= x -> 0 <= align_down x <= x /\ x < align_down x + ALIGNMENT /\ (ALIGNMENT | align_down x).
Proof.
  intros Hx. unfold align_down, ALIGNMENT. rewrite Z.quot_div_nonneg by lia. pose proof (Z.div_mod x 4096). pose proof (Z.mod_pos_bound x 4096).
  split_and!; [lia|lia|lia|by apply Z.divide_factor_r].
Qed.
Lemma align_up_spec x : 0 <= x -> x <= align_up x < x + ALIGNMENT /\ (ALIGNMENT | align_up x).
Proof.
  intros Hx. unfold align_up, ALIGNMENT. rewrite Z.quot_div_nonneg by lia. pose proof (Z.div_mod (x + 4096 - 1) 4096).
  pose proof (Z.mod_pos_bound (x + 4096 - 1) 4096). split_and!; [lia|lia|by apply Z.divide_factor_r].
Qed.

Lemma align_down_mono x y : 0 <= x <= y -> align_down x <= align_down y.
Proof.
  intros H. unfold align_down, ALIGNMENT. rewrite !Z.quot_div_nonneg by lia. apply Z.mul_le_mono_nonneg_r; [lia|].
  apply Z.div_le_mono; lia.
Qed.
Lemma list_last_dec {A} (l : list A) : l = [] \/ exists x k, l = k ++ [x].
Proof. destruct l as [|x l _] using rev_ind; [by left|right; by exists x, l]. Qed.

Lemma sorted_filter {A} (R : A -> A -> Prop) (P : A -> Prop) `{forall x, Decision (P x)} l :
  StronglySorted R l -> StronglySorted R (filter P l).
Proof.
  induction 1 as [|x l Hs IH Hx]; [constructor|]. rewrite filter_cons. case_decide; [|done]. constructor; [done|].
  rewrite Forall_forall in Hx |- *. intros y [_ Hy]%list_elem_of_filter. by apply Hx.
Qed.

(** * The file behind the walks

    [data x] says that the byte at [x] may differ from zero, [E] are the
    extents of the file. This is what lseek(2) and the FIEMAP documentation
    promise for a file nobody writes to: SEEK_DATA finds an offset before which
    there is no data or says that there is none left, SEEK_HOLE from there finds
    a later offset, FIEMAP lists the extents that overlap the range, in order
    and at least one if there are any, marks the last one of the file, and
    flags those whose blocks hold no data. *)
Definition fe_stop (e : fiemap_extent) : Z := fe_logical e + fe_length e.
Definition overlaps (start len : Z) (e : fiemap_extent) : Prop := fe_logical e < start + len /\ start < fe_stop e.
#[export] Instance overlaps_dec start len e : Decision (overlaps start len e).
Proof. unfold overlaps. apply _. Defined.

Section walks.
Context (data : Z -> Prop) (E : list fiemap_extent).

Definition written (e : fiemap_extent) (x : Z) : Prop := fe_logical e <= x < fe_stop e /\ unwritten e = false.
Record file_ok : Prop := FileOk {
  fo_extents : Forall (fun e => 0 <= fe_logical e /\ 0 < fe_length e /\ fe_stop e < 2 ^ 63) E;
  fo_sorted : StronglySorted (fun a b => fe_stop a <= fe_logical b) E;
  fo_data : forall x, data x -> Exists (fun e => written e x) E;
  fo_last : forall e f, e ∈ E -> f ∈ E -> has_bits (fe_flags e) FIEMAP_EXTENT_LAST = true -> fe_stop f <= fe_stop e
}.

Definition file_adm R (e : posix R) : R -> Prop :=
  match e in posix R return R -> Prop with
  | seek_data _ pos => fun r =>
      match r with
      | Ok d => pos <= d /\ forall x, pos <= x < d -> ~ data x
      | Err e => e = ENXIO -> forall x, pos <= x -> ~ data x
      end
  | seek_hole _ pos => fun r => match r with Ok h => pos < h < 2 ^ 62 | Err _ => True end
  | fiemap _ start len _ _ => fun r =>
      match r with
      | Ok es => es `prefix_of` filter (overlaps start len) E /\ (es = [] -> filter (overlaps start len) E = [])
      | Err _ => True
      end
  | _ => fun _ => True
  end.
Definition mapped_file : monitor posix :=
  Monitor unit (fun _ _ _ => True) (fun _ => file_adm) (fun _ _ _ _ => tt) False.

Definition list_ok (limit : Z) (l : extent_list) : Prop := extents_ok limit (l_ext l) /\ l_bytes l = total (l_ext l).
Definition starts_below (b : Z) (l : extent_list) : Prop := Forall (fun e => e.1 <= align_down b) (l_ext l).

Lemma starts_below_mono a b l : 0 <= a <= b -> starts_below a l -> starts_below b l.
Proof. intros Hab H. eapply Forall_impl; [exact H|]. simpl. intros x Hx. pose proof (align_down_mono a b Hab). lia. Qed.

Lemma extent_list_add_ok l from to limit :
  0 <= from -> 0 <= to -> 0 <= limit < 2 ^ 63 -> list_ok limit l -> starts_below from l ->
  wp mapped_file (extent_list_add l from to limit) tt (fun _ r =>
    match r with
    | None => True
    | Some l' => list_ok limit l' /\ starts_below from l' /\
        forall x, covers (l_ext l') x <-> covers (l_ext l) x \/ align_down from <= x < Z.min (align_up to) limit
    end).
Proof.
  intros Hf Ht Hlim [Hok Hby] Hst.
  destruct (align_down_spec from Hf) as ([Hd0 Hd1] & Hd2 & Hda). destruct (align_up_spec to Ht) as (Hu & Hua).
  unfold extent_list_add. set (s := align_down from) in *.
  assert (Ee : (if decide (limit < align_up to) then limit else align_up to) = Z.min (align_up to) limit) by (case_decide; lia).
  rewrite Ee. set (e := Z.min (align_up to) limit). rewrite (decide_False (P := s < 0)) by lia.
  assert (Hae : (ALIGNMENT | e) \/ e = limit) by (subst e; destruct (Z.min_spec (align_up to) limit) as [[_ ->]|[_ ->]]; [by left|by right]).
  destruct (decide (e <= s)) as [Hes|Hes].
  { cbn [wp]. split_and!; [by split|done|]. intros x. split; [by left|intros [?|?]; [done|lia]]. }
  assert (Happ : wp mapped_file
      (cap ← (if decide (zlen (l_ext l) = l_cap l)
              then let ncap := if decide (l_cap l = 0) then 64 else l_cap l * 2 in
                   ok ← sys (malloc (ncap * 16)); mret (if ok : bool then Some ncap else None)
              else mret (Some (l_cap l)));
       mret (match cap with None => None
             | Some cap => Some (ExtentList (l_ext l ++ [(s, e)]) cap (u64 (l_bytes l + (e - s)))) end)) tt (fun _ r =>
      match r with None => True
      | Some l' => exists cap, l' = ExtentList (l_ext l ++ [(s, e)]) cap (u64 (l_bytes l + (e - s))) end)).
  { destruct (decide (zlen (l_ext l) = l_cap l)); cbn; [|by eexists]. split; [done|]. intros [] _; cbn; [by eexists|done]. }
  assert (Hse : extent_ok limit (s, e)).
  { unfold extent_ok. cbn [fst snd]. split_and!; [lia|lia|subst e; lia|done|done]. }
  assert (Hdone : forall ext cap by', extents_ok limit ext -> by' = total ext -> Forall (fun x => x.1 <= s) ext ->
    (forall x, covers ext x <-> covers (l_ext l) x \/ s <= x < e) ->
    let l' := ExtentList ext cap (u64 by') in
    list_ok limit l' /\ starts_below from l' /\ forall x, covers (l_ext l') x <-> covers (l_ext l) x \/ s <= x < e).
  { intros ext cap by' Hx -> Hs Hc. split_and!; [|done|done]. split; [done|]. cbn [l_bytes l_ext].
    apply u64_small. destruct (total_le limit limit ext Hx); [|lia|unfold is_u64; lia].
    destruct Hx as [Hx _]. eapply Forall_impl; [exact Hx|]. unfold extent_ok. simpl. lia. }
  unfold starts_below in Hst.
  destruct (list_last_dec (l_ext l)) as [El|([s0 e0] & k & El)]; rewrite El in *.
  - cbn [list.last]. eapply wp_mono; [exact Happ|]. intros _ [l'|]; [|done]. intros [cap ->]. apply Hdone.
    + apply (extents_ok_snoc limit []). by split_and!.
    + rewrite Hby. simpl. lia.
    + apply Forall_singleton. simpl. lia.
    + intros x. cbn [app]. rewrite covers_one. pose proof (covers_nil x). unfold within. naive_solver.
  - rewrite last_snoc. pose proof Hok as (Hk & Hfk & He0)%extents_ok_snoc. apply Forall_app in Hst as [Hst Hs0].
    apply Forall_cons_1 in Hs0 as [Hs0 _]. cbn [fst snd] in *. rewrite removelast_last.
    destruct (decide (s <= e0)); [destruct (decide (e0 < e)); cbn [wp mret prog_mret]|].
    + apply Hdone.
      * apply extents_ok_snoc. split_and!; [done|done|]. destruct He0 as (? & ? & ? & ?), Hse as (? & ? & ? & ?).
        unfold extent_ok. cbn [fst snd] in *. split_and!; [lia..|done|done].
      * rewrite Hby, !total_app. simpl. lia.
      * apply Forall_app. split; [done|]. by apply Forall_singleton.
      * intros x. rewrite !covers_app, !covers_one. unfold within. cbn [fst snd]. destruct He0 as (? & _). cbn [fst snd] in *.
        split; [intros [?|?]; [by left; left|]|intros [[?|?]|?]; [by left|right; lia|right; lia]].
        destruct (decide (x < e0)); [left; right; lia|right; lia].
    + split_and!.
      * split; by rewrite ?El.
      * unfold starts_below. rewrite El. apply Forall_app. split; [done|]. by apply Forall_singleton.
      * intros x. rewrite ?El, !covers_app, !covers_one. unfold within. cbn [fst snd].
        split; [by left|intros [?|?]; [done|right; lia]].
    + eapply wp_mono; [exact Happ|]. intros _ [l'|]; [|done]. intros [cap ->]. apply Hdone.
      * apply extents_ok_snoc. split_and!; [done| |done]. cbn [fst]. apply Forall_app. split.
        -- eapply Forall_impl; [exact Hfk|]. intros x Hx. destruct He0 as (? & _). cbn [fst snd] in *. lia.
        -- apply Forall_singleton. simpl. lia.
      * rewrite Hby, (total_app _ [(s, e)]). simpl. lia.
      * apply Forall_app. split; [apply Forall_app; split; [done|by apply Forall_singleton]|]. apply Forall_singleton. simpl. lia.
      * intros x. by rewrite (covers_app _ [(s, e)]), covers_one.
Qed.

Definition list_covers (b : Z) (limit : Z) (l : extent_list) : Prop :=
  forall x, 0 <= x < limit -> x < b -> data x -> covers (l_ext l) x.

Lemma fiemap_batch_ok limit es l expect has_hole :
  Forall (fun e => 0 <= fe_logical e /\ 0 < fe_length e /\ fe_stop e < 2 ^ 63) es ->
  StronglySorted (fun a b => fe_stop a <= fe_logical b) es -> Forall (fun e => expect <= fe_logical e) es ->
  0 <= expect -> 0 <= limit < 2 ^ 63 -> list_ok limit l -> starts_below expect l ->
  wp mapped_file (fiemap_batch limit false es (Some l) expect has_hole) tt (fun _ '(b, l', expect', _) =>
    match b, l' with
    | Go, Some l' =>
        list_ok limit l' /\ starts_below expect' l' /\ expect' = match list.last es with Some e => fe_stop e | None => expect end /\
        (forall x, covers (l_ext l) x -> covers (l_ext l') x) /\
        (forall x, x < limit -> Exists (fun e => written e x) es -> covers (l_ext l') x)
    | _, _ => b = Goto_done true
    end).
Proof.
  revert l expect has_hole. induction es as [|e es IH]; intros l expect has_hole Hes Hs Hex H0 Hlim Hl Hst.
  { cbn. split_and!; try done. by intros x _ H%Exists_nil. }
  apply Forall_cons_1 in Hes as [(He0 & He1 & He2) Hes]. apply StronglySorted_inv in Hs as [Hs Hhd]. apply Forall_cons_1 in Hex as [Hx Hex].
  cbn [fiemap_batch]. rewrite andb_false_r. unfold mbind, prog_mbind. apply wp_bind.
  assert (Een : fe_end e = fe_stop e) by (apply u64_small; unfold is_u64, fe_stop in *; lia).
  rewrite Een. set (a := fe_logical e) in *. set (b := fe_stop e) in *.
  assert (Hab : a < b) by (subst a b; unfold fe_stop; lia).
  apply (starts_below_mono _ a) in Hst; [|lia].
  apply (wp_mono _ _ _ (fun _ r => match r with None => True | Some x => list_ok limit x /\ starts_below a x /\
    (forall y, covers (l_ext l) y -> covers (l_ext x) y) /\
    (forall y, y < limit -> written e y -> covers (l_ext x) y) end)).
  { destruct (unwritten e) eqn:Eu; cbn [negb andb].
    { cbn. split_and!; try done. intros y _ [_ Hu]. congruence. }
    case_bool_decide as Has; [|cbn; split_and!; try done; intros y Hy [[? _] _]; fold a in H; lia].
    set (en := if decide (b < limit) then b else limit).
    assert (Een' : en = Z.min b limit) by (subst en; case_decide; lia).
    eapply wp_mono; [apply (extent_list_add_ok l a en limit); try done; lia|]. intros _ [x|]; [|done]. intros (Hx1 & Hx2 & Hx3).
    split_and!; [done|done|intros y Hy; apply Hx3; by left|].
    intros y Hy [[Hy1 Hy2] _]. apply Hx3. right. fold a b in Hy1, Hy2.
    pose proof (align_down_spec a). pose proof (align_up_spec en). lia. }
  intros [] [x|] Hadd; [|by cbn]. destruct Hadd as (Hx1 & Hx2 & Hx3 & Hx4).
  assert (Emax : (if decide (expect < b) then b else expect) = b) by (case_decide; lia). rewrite Emax.
  eapply wp_mono; [apply IH; try done; [lia|by apply (starts_below_mono a); [lia|]]|].
  intros _ [[[bt l'] expect'] hh]. destruct bt as [|o]; [destruct l' as [l'|]; [|done]|done].
  intros (R1 & R2 & R3 & R4 & R5). split_and!; [done|done| |by auto|].
  - rewrite R3. destruct es as [|f es]; [done|]. change (list.last (e :: f :: es)) with (list.last (f :: es)).
    destruct (list.last (f :: es)) eqn:Ef; [done|by apply last_None in Ef].
  - intros y Hy [Hw|Hw]%Exists_cons; [by apply R4, Hx4|by apply R5].
Qed.

Context (HE : file_ok).

Lemma extents_apart e f : e ∈ E -> f ∈ E -> e = f \/ fe_stop e <= fe_logical f \/ fe_stop f <= fe_logical e.
Proof.
  destruct HE as [_ Hs _ _]. clear HE. induction Hs as [|x l Hs IH Hx]; [by intros ?%not_elem_of_nil|].
  rewrite Forall_forall in Hx. intros [->|He]%elem_of_cons [->|Hf]%elem_of_cons; auto.
Qed.

(** An answer of FIEMAP at an extent boundary. *)
Lemma fiemap_answer pos limit es :
  0 <= pos <= limit -> pos = 0 \/ (exists e, e ∈ E /\ fe_stop e = pos) -> es `prefix_of` filter (overlaps pos (limit - pos)) E ->
  Forall (fun e => e ∈ E /\ pos <= fe_logical e /\ pos < fe_stop e) es /\ StronglySorted (fun a b => fe_stop a <= fe_logical b) es /\
  (forall x, pos <= x < limit -> data x -> Exists (fun e => written e x) es \/
     exists f, f ∈ E /\ written f x /\ Forall (fun e => fe_stop e <= fe_logical f) es).
Proof.
  intros Hpos Hb [rest Hr].
  assert (HF : forall e, e ∈ es ++ rest <-> overlaps pos (limit - pos) e /\ e ∈ E) by (intros e; by rewrite <- Hr, list_elem_of_filter).
  assert (Hsort : StronglySorted (fun a b => fe_stop a <= fe_logical b) (es ++ rest)).
  { rewrite <- Hr. apply sorted_filter, HE. }
  apply StronglySorted_app in Hsort as (Hc & Hs & _). split_and!; [|done|].
  - apply Forall_forall. intros e He. destruct (HF e) as [[Ho HeE] _]; [apply elem_of_app; by left|].
    split; [done|]. destruct HE as [Hwf _ _ _]. rewrite Forall_forall in Hwf. pose proof (Hwf e HeE) as (? & ? & ?).
    unfold overlaps in Ho. split; [|lia]. destruct Hb as [->|(e0 & He0 & <-)]; [lia|].
    pose proof (Hwf e0 He0) as (? & ? & ?). unfold fe_stop in *.
    destruct (extents_apart e e0 HeE He0) as [->|[?|?]]; unfold fe_stop in *; lia.
  - intros x Hx Hd. apply (fo_data HE) in Hd. apply Exists_exists in Hd as (f & HfE & Hf).
    assert (Hin : f ∈ es ++ rest).
    { apply HF. split; [|done]. destruct Hf as [Hf _]. unfold overlaps. lia. }
    apply elem_of_app in Hin as [Hin|Hin].
    + left. apply Exists_exists. by exists f.
    + right. exists f. split_and!; [done|done|]. apply Forall_forall. intros e He. by apply Hc.
Qed.

Lemma fiemap_loop_ok fuel fd limit l pos has_hole :
  0 <= pos <= limit -> limit < 2 ^ 63 -> pos = 0 \/ (exists e, e ∈ E /\ fe_stop e = pos) ->
  list_ok limit l -> starts_below pos l -> list_covers pos limit l -> (Z.to_nat (limit - pos) < fuel)%nat ->
  wp mapped_file (fiemap_loop fuel fd limit false (Some l) pos pos has_hole) tt (fun _ '(rc, l', _) =>
    match rc with
    | Mapped => exists x, l' = Some x /\ list_ok limit x /\ list_covers limit limit x
    | _ => True
    end).
Proof.
  revert l pos has_hole. induction fuel as [|fuel IH]; intros l pos has_hole Hpos Hlim Hb Hl Hst Hcov Hfuel; [lia|].
  cbn [fiemap_loop]. unfold mbind, prog_mbind. apply wp_bind. cbn [sys wp]. split; [done|]. intros [es|e] Hans; [|done].
  assert (Elen : u64 (limit - pos) = limit - pos) by (apply u64_small; unfold is_u64; lia).
  cbn [madm mapped_file file_adm] in Hans. rewrite Elen in Hans. destruct Hans as [Hpre Hnil].
  destruct (fiemap_answer pos limit es Hpos Hb Hpre) as (Hes & Hs & Hda).
  destruct (list.last es) as [e|] eqn:Elast.
  2:{ apply last_None in Elast. subst es. exists l. split_and!; [done|done|]. intros x Hx Hxl Hd.
      destruct (decide (x < pos)); [by apply Hcov|]. exfalso.
      destruct (Hda x ltac:(lia) Hd) as [?%Exists_nil|(f & HfE & [Hf _] & _)]; [done|].
      assert (Hin : f ∈ filter (overlaps pos (limit - pos)) E) by (apply list_elem_of_filter; split; [unfold overlaps; lia|done]).
      rewrite Hnil in Hin by done. by apply not_elem_of_nil in Hin. }
  apply wp_bind. eapply wp_mono.
  { apply (fiemap_batch_ok limit es l pos has_hole); try done; try lia.
    - eapply Forall_impl; [exact Hes|]. intros x (HxE & _). pose proof (fo_extents HE) as Hwf. by eapply Forall_forall in Hwf.
    - eapply Forall_impl; [exact Hes|]. intros x (_ & ? & _). done. }
  intros [] [[[b l'] expect'] hh]. destruct b as [|oom]; [destruct l' as [l'|]; [|done]|].
  2:{ intros [= ->]. done. }
  rewrite Elast. intros (Rok & Rst & -> & Rsub & Rcov).
  assert (Hin : e ∈ es) by (apply last_Some in Elast as [k ->]; apply elem_of_app; right; by apply list_elem_of_singleton).
  pose proof Hes as Hes'. rewrite Forall_forall in Hes'. destruct (Hes' e Hin) as (HeE & He1 & He2).
  assert (Hcov' : list_covers (fe_stop e) limit l').
  { intros x Hx Hxe Hd. destruct (decide (x < pos)); [by apply Rsub, Hcov|].
    destruct (Hda x ltac:(lia) Hd) as [Hw|(f & _ & [Hf _] & Hall)]; [by apply Rcov; [lia|]|].
    rewrite Forall_forall in Hall. specialize (Hall e Hin). lia. }
  cbn beta iota.
  destruct (has_bits (fe_flags e) FIEMAP_EXTENT_LAST) eqn:Elst; cbn [orb].
  { exists l'. split_and!; [done|done|]. intros x Hx _ Hd. destruct (decide (x < fe_stop e)); [by apply Hcov'|]. exfalso.
    apply (fo_data HE) in Hd. apply Exists_exists in Hd as (f & HfE & [Hf _]). pose proof (fo_last HE e f HeE HfE Elst). lia. }
  case_bool_decide as Hle; cbn [orb].
  { exists l'. split_and!; [done|done|]. intros x Hx _ Hd. apply Hcov'; [done|lia|done]. }
  rewrite bool_decide_eq_false_2 by lia. apply IH; try done; [lia| |lia]. right. by exists e.
Qed.

Lemma seek_loop_ok fuel fd limit l pos has_hole :
  0 <= pos -> 0 <= limit < 2 ^ 63 -> list_ok limit l -> starts_below pos l -> list_covers pos limit l ->
  (Z.to_nat (limit - pos) <= fuel)%nat ->
  wp mapped_file (seek_loop fuel fd limit (Some l) pos has_hole) tt (fun _ '(rc, l', _) =>
    match rc with
    | Mapped => exists x, l' = Some x /\ list_ok limit x /\ list_covers limit limit x
    | _ => True
    end).
Proof.
  revert l pos has_hole. induction fuel as [|fuel IH]; intros l pos has_hole Hpos Hlim Hl Hst Hcov Hfuel; cbn [seek_loop].
  all: destruct (decide (limit <= pos)) as [Hle|Hlt]; [|try lia].
  1, 2: exists l; split_and!; [done|done|]; intros x Hx _ Hd; by apply Hcov; [|lia|].
  assert (Hend : forall d, (forall x, pos <= x < d -> ~ data x) -> limit <= d -> list_covers limit limit l).
  { intros d Hd Hdl x Hx _ Hdx. destruct (decide (x < pos)); [by apply Hcov|]. destruct (Hd x); [lia|done]. }
  unfold mbind, prog_mbind. apply wp_bind. cbn [sys wp]. split; [done|]. intros [d|e] Hd; cbn [madm mapped_file file_adm] in Hd.
  2:{ case_decide; [|done]. exists l. split_and!; [done|done|]. apply (Hend limit); [|done]. intros x Hx. apply Hd; [done|lia]. }
  destruct Hd as [Hpd Hd]. destruct (decide (limit <= d)) as [Hld|Hdl]; [exists l; split_and!; [done|done|by apply (Hend d)]|].
  apply wp_bind. cbn [sys wp]. split; [done|]. intros [h|e] Hh; [|done]. cbn [madm mapped_file file_adm] in Hh.
  apply wp_bind. eapply wp_mono.
  { apply (extent_list_add_ok l d h limit); try done; [lia|lia|by apply (starts_below_mono pos); [lia|]]. }
  intros [] [x|]; [|done]. intros (Rok & Rst & Rc). apply IH; [lia|done|done|by apply (starts_below_mono d); [lia|]| |lia].
  intros y Hy Hyh Hdy. apply Rc. destruct (decide (y < pos)); [left; by apply Hcov|]. right.
  destruct (decide (y < d)); [by destruct (Hd y); [lia|]|].
  pose proof (align_down_spec d). pose proof (align_up_spec h). lia.
Qed.

Lemma list0_ok limit : list_ok limit extent_list0 /\ starts_below 0 extent_list0 /\ list_covers 0 limit extent_list0.
Proof. split_and!; [by repeat constructor|by constructor|intros x Hx ?; lia]. Qed.

Lemma build_extent_map_ok fuel fd limit :
  0 <= limit < 2 ^ 63 -> (Z.to_nat limit < fuel)%nat ->
  wp mapped_file (build_extent_map fuel fd limit) tt (fun _ m =>
    match m with
    | MapIs ext n => extents_ok limit ext /\ n = total ext /\ forall x, 0 <= x < limit -> data x -> covers ext x
    | _ => True
    end).
Proof.
  intros Hlim Hfuel. destruct (list0_ok limit) as (L1 & L2 & L3).
  assert (Hfin : forall rc l, match rc with Mapped => exists x, l = Some x /\ list_ok limit x /\ list_covers limit limit x | _ => True end ->
    wp mapped_file (match rc, l with
      | WalkOom, _ | _, None => mret MapOom
      | Unsupported, _ => mret MapUnknown
      | Mapped, Some l =>
          if decide (l_ext l = [] /\ l_cap l = 0)
          then ok ← sys (malloc 8); mret (if ok : bool then MapIs [] (l_bytes l) else MapOom)
          else mret (MapIs (l_ext l) (l_bytes l)) end) tt (fun _ m =>
      match m with
      | MapIs ext n => extents_ok limit ext /\ n = total ext /\ forall x, 0 <= x < limit -> data x -> covers ext x
      | _ => True end)).
  { intros [] l H; [|by destruct l|done]. destruct H as (x & -> & [H1 H2] & H3).
    assert (Hx : extents_ok limit (l_ext x) /\ l_bytes x = total (l_ext x) /\ forall y, 0 <= y < limit -> data y -> covers (l_ext x) y)
      by (split_and!; [done|done|intros y Hy; apply H3; lia]).
    destruct (decide (l_ext x = [] /\ l_cap x = 0)) as [[E1 _]|_]; [|done].
    unfold mbind, prog_mbind. apply wp_bind. cbn [sys wp]. split; [done|]. intros [] _; [|done]. by rewrite E1 in Hx. }
  unfold build_extent_map, mbind, prog_mbind. apply wp_bind. eapply wp_mono.
  { unfold fiemap_walk, mbind, prog_mbind. apply wp_bind. cbn [sys wp]. split; [done|]. intros [] _; cbn [negb].
    - apply (fiemap_loop_ok fuel fd limit); try done; [lia|lia|by left|lia].
    - done. }
  intros [] [[rc l] hh] Hrc. apply wp_bind. destruct rc.
  - cbn [wp mret prog_mret]. by apply (Hfin Mapped).
  - eapply wp_mono; [apply seek_loop_ok; try done; lia|]. intros [] [[rc l'] hh'] H. by apply Hfin.
  - cbn [wp mret prog_mret]. by apply (Hfin WalkOom).
Qed.
End walks.

(** * What the cursor does *)

Section cursor_spec.
Context (extents : option (list (Z * Z))) (bulk_end chunk_size : Z).
Context (Hend : 0 <= bulk_end) (Hchunk : 1 <= chunk_size)
  (Hext : match extents with Some ext => extents_ok bulk_end ext | None => True end).

(** The bytes to copy, and those from the cursor on. *)
Definition region (x : Z) : Prop :=
  0 <= x < bulk_end /\ match extents with Some ext => covers ext x | None => True end.
Definition ahead (c : cursor) (x : Z) : Prop := region x /\ cr_next c <= x.

Definition passed (c : cursor) : Prop :=
  match extents with
  | Some ext => forall i s e, (i < cr_idx c)%nat -> ext !! i = Some (s, e) -> e <= cr_next c
  | None => True
  end.
(** The cursor is at the end or inside an extent. *)
Definition on_data (c : cursor) : Prop :=
  cr_next c < bulk_end ->
  match extents with
  | Some ext => exists s e, ext !! cr_idx c = Some (s, e) /\ s <= cr_next c < e
  | None => True
  end.
Definition cursor_ok (c : cursor) : Prop := 0 <= cr_next c <= bulk_end /\ passed c /\ on_data c.

Lemma skip_extents_spec ext idx off :
  let j := skip_extents ext idx off in
  (idx <= j)%nat /\ (forall i s e, (idx + i < j)%nat -> ext !! i = Some (s, e) -> e <= off) /\
  match ext !! (j - idx)%nat with Some (_, e) => off < e | None => True end.
Proof.
  revert idx. induction ext as [|[s e] ext IH]; intros idx; simpl.
  { split_and!; [lia|by intros i s e Hi ?|done]. }
  destruct (decide (e <= off)) as [He|He].
  - destruct (IH (S idx)) as (H1 & H2 & H3). split_and!; [lia| |].
    + intros [|i] s' e' Hi Hl; simplify_eq/=; [done|]. eapply H2; [|done]. lia.
    + replace (skip_extents ext (S idx) off - idx)%nat with (S (skip_extents ext (S idx) off - S idx)) by lia. done.
  - rewrite Nat.sub_diag. split_and!; [lia|intros i s' e' Hi; lia|]. simpl. lia.
Qed.

Lemma skip_spec c :
  0 <= cr_next c <= bulk_end -> passed c ->
  let c' := reader_skip_holes_locked extents bulk_end c in
  cursor_ok c' /\ cr_next c <= cr_next c' /\ forall x, ahead c x <-> ahead c' x.
Proof.
  intros Hn Hp. unfold cursor_ok, ahead, region, on_data, passed, reader_skip_holes_locked in *.
  destruct extents as [ext|]; [|split_and!; [lia|lia|done|done|lia|done]].
  destruct (skip_extents_spec (drop (cr_idx c) ext) (cr_idx c) (cr_next c)) as (H1 & H2 & H3).
  set (j := skip_extents _ _ _) in *. rewrite lookup_drop in H3.
  replace (cr_idx c + (j - cr_idx c))%nat with j in H3 by lia.
  assert (Hpass : forall i s e, (i < j)%nat -> ext !! i = Some (s, e) -> e <= cr_next c).
  { intros i s e Hi Hl. destruct (decide (i < cr_idx c)%nat); [by eapply Hp|]. eapply (H2 (i - cr_idx c)%nat s e); [lia|].
    rewrite lookup_drop. by replace (cr_idx c + (i - cr_idx c))%nat with i by lia. }
  destruct Hext as [Hwf Hs]. rewrite Forall_lookup in Hwf.
  destruct (ext !! j) as [[s e]|] eqn:Ej; cbn [cr_next cr_idx].
  - pose proof (Hwf j _ Ej) as (Hse & He & _). cbn [fst snd] in *.
    set (n := if decide (cr_next c < s) then s else cr_next c).
    assert (Hn' : n = Z.max s (cr_next c)) by (subst n; case_decide; lia).
    split_and!; [lia|lia|intros i s' e' Hi Hl; specialize (Hpass i s' e' Hi Hl); lia|intros _; exists s, e; split; [done|lia]|lia|].
    intros x. split; intros [[Hx Hc] Hxn]; (split; [done|]); [|lia].
    apply Exists_exists in Hc as (f & Hf & Hxf). apply list_elem_of_lookup_1 in Hf as [i Hi]. unfold within in Hxf.
    destruct f as [s' e']. cbn [fst snd] in *. destruct (decide (i < j)%nat); [pose proof (Hpass i s' e' ltac:(done) Hi); lia|].
    destruct (decide (i = j)) as [->|]; [simplify_eq; lia|].
    pose proof (sorted_lookup _ _ Hs j i _ _ ltac:(lia) Ej Hi). cbn [fst snd] in *. lia.
  - split_and!; [lia|lia| |lia|lia|].
    + intros i s e Hi Hl. by destruct (Hwf i _ Hl) as (_ & ? & _).
    + intros x. split; intros [[Hx Hc] Hxn]; (split; [done|]); [|lia].
      apply Exists_exists in Hc as (f & Hf & Hxf). apply list_elem_of_lookup_1 in Hf as [i Hi]. unfold within in Hxf.
      destruct f as [s' e']. cbn [fst snd] in *.
      assert (i < j)%nat by (apply lookup_lt_Some in Hi; apply lookup_ge_None in Ej; lia).
      pose proof (Hpass i s' e' ltac:(done) Hi). lia.
Qed.

Lemma cursor0_ok : cursor_ok (cursor0 extents bulk_end) /\ forall x, ahead (cursor0 extents bulk_end) x <-> region x.
Proof.
  destruct (skip_spec (Cursor 0 0)) as (H1 & _ & H3); [cbn; lia|unfold passed; destruct extents; [cbn; lia|done]|].
  split; [done|]. intros x. rewrite <- H3. unfold ahead, region. cbn. split; [by intros [? _]|intros H; split; [done|lia]].
Qed.

(** A claim takes the next bytes of the region, at most a chunk of them. *)
Lemma claim_chunk_spec c :
  cursor_ok c -> cr_next c < bulk_end ->
  let '(off, len, c') := claim_chunk extents bulk_end chunk_size c in
  off = cr_next c /\ 0 < len <= chunk_size /\ off + len <= cr_next c' /\ cursor_ok c' /\
  (forall x, off <= x < off + len -> region x) /\
  (forall x, ahead c x <-> off <= x < off + len \/ ahead c' x).
Proof.
  intros (Hn & Hp & Hd) Hlt. specialize (Hd Hlt). unfold claim_chunk.
  set (remain := reader_run_end_locked extents bulk_end c - cr_next c).
  assert (Hrem : 0 < remain /\ cr_next c + remain <= bulk_end /\ (forall x, cr_next c <= x < cr_next c + remain -> region x) /\
    (forall len, len <= remain -> passed (Cursor (cr_next c + len) (cr_idx c)) \/ len < 0)).
  { subst remain. unfold reader_run_end_locked, region, passed in *. destruct extents as [ext|].
    - destruct Hd as (s & e & Hl & Hse). rewrite Hl. destruct Hext as [Hwf _]. rewrite Forall_lookup in Hwf.
      pose proof (Hwf _ _ Hl) as (? & ? & _). cbn [fst snd] in *. split_and!; [lia|lia| |].
      + intros x Hx. split; [lia|]. apply Exists_exists. exists (s, e). split; [by eapply list_elem_of_lookup_2|]. unfold within. simpl. lia.
      + intros len _. destruct (decide (len < 0)); [by right|left]. intros i s' e' Hi Hl'. cbn [cr_next cr_idx] in *.
        specialize (Hp i s' e' Hi Hl'). lia.
    - split_and!; [lia|lia|intros x Hx; split; [lia|done]|by left]. }
  destruct Hrem as (Hr0 & Hrb & Hreg & Hpass).
  set (len := if decide (chunk_size <= remain) then chunk_size else remain).
  assert (Hlen : 0 < len <= remain /\ len <= chunk_size) by (subst len; case_decide; lia).
  destruct (skip_spec (Cursor (cr_next c + len) (cr_idx c))) as (Hc' & Hmono & Hahead); [cbn [cr_next]; lia|destruct (Hpass len ltac:(lia)); [done|lia]|].
  cbn [cr_next] in *. split_and!; [done|lia|lia|lia|done| |].
  - intros x Hx. apply Hreg. lia.
  - intros x. rewrite <- Hahead. unfold ahead. cbn [cr_next]. split.
    + intros [? ?]. destruct (decide (x < cr_next c + len)); [left; lia|right; split; [done|lia]].
    + intros [?|[? ?]]; [split; [apply Hreg; lia|lia]|split; [done|lia]].
Qed.

Definition in_chunk (ch : Z * Z) (x : Z) : Prop := ch.1 <= x < ch.1 + ch.2.
(** One after the other, non-empty, at most [chunk_size] long. *)
Definition chunks_ok (l : list (Z * Z)) : Prop :=
  Forall (fun ch => 0 < ch.2 <= chunk_size) l /\ StronglySorted (fun a b => a.1 + a.2 <= b.1) l.

Lemma chunks_spec fuel c :
  cursor_ok c -> (Z.to_nat (bulk_end - cr_next c) <= fuel)%nat ->
  let l := chunks extents bulk_end chunk_size fuel c in
  chunks_ok l /\ Forall (fun ch => cr_next c <= ch.1) l /\ forall x, Exists (fun ch => in_chunk ch x) l <-> ahead c x.
Proof.
  revert c. induction fuel as [|fuel IH]; intros c Hc Hfuel; cbn [chunks].
  all: assert (Hstop : bulk_end <= cr_next c -> forall x, ~ ahead c x) by (intros ? x [[? _] ?]; lia).
  { split_and!; [by repeat constructor|done|]. intros x. rewrite Exists_nil. split; [done|]. apply Hstop. lia. }
  destruct (decide (bulk_end <= cr_next c)) as [Hle|Hlt].
  { split_and!; [by repeat constructor|done|]. intros x. rewrite Exists_nil. split; [done|]. by apply Hstop. }
  pose proof (claim_chunk_spec c Hc ltac:(lia)) as Hcl. destruct (claim_chunk _ _ _ c) as [[off len] c'].
  destruct Hcl as (-> & Hlen & Hmono & Hc' & _ & Hah).
  destruct (IH c' Hc' ltac:(lia)) as ([Hw Hs] & Hlo & Hcov). split_and!.
  - split; [by constructor|]. constructor; [done|]. eapply Forall_impl; [exact Hlo|]. simpl. lia.
  - constructor; [done|]. eapply Forall_impl; [exact Hlo|]. simpl. lia.
  - intros x. rewrite Exists_cons, Hcov, Hah. done.
Qed.
End cursor_spec.

(** C33.  Nothing but zeros is skipped. When the pipeline asks for the extents
    of a file that does not change, whatever FIEMAP and SEEK_DATA answer, the
    ranges its readers claim follow one another, are not empty, have at most
    the chunk size, stay inside the file, and contain every byte before
    [bulk_end] that may differ from zero; when there is no map they contain
    every byte. *)
Theorem extent_chunks_cover data E fuel n fd bulk_end chunk_size :
  file_ok data E -> 0 <= bulk_end < 2 ^ 62 -> 1 <= chunk_size -> (Z.to_nat bulk_end < fuel)%nat -> (Z.to_nat bulk_end <= n)%nat ->
  wp (mapped_file data E) (build_extent_map fuel fd bulk_end) tt (fun _ m =>
    let extents := match m with MapIs ext _ => Some ext | _ => None end in
    let l := chunks extents bulk_end chunk_size n (cursor0 extents bulk_end) in
    chunks_ok chunk_size l /\ Forall (fun ch => 0 <= ch.1 /\ ch.1 + ch.2 <= bulk_end) l /\
    forall x, 0 <= x < bulk_end -> data x \/ extents = None -> Exists (fun ch => in_chunk ch x) l).
Proof.
  intros HE Hend Hchunk Hfuel Hn. eapply wp_mono; [apply (build_extent_map_ok data E HE fuel fd bulk_end); lia|].
  intros [] m Hm. cbv zeta. set (extents := match m with MapIs ext _ => Some ext | _ => None end).
  assert (Hext : match extents with Some ext => extents_ok bulk_end ext | None => True end) by (destruct m; naive_solver).
  destruct (cursor0_ok extents bulk_end ltac:(lia) Hext) as [Hc Hall].
  destruct (chunks_spec extents bulk_end chunk_size ltac:(lia) ltac:(lia) Hext n (cursor0 extents bulk_end) Hc) as (H1 & H2 & H3).
  { destruct Hc as [? _]. lia. }
  set (l := chunks _ _ _ _ _) in *. split_and!; [done| |].
  - apply Forall_forall. intros ch Hch. destruct Hc as [Hc _]. rewrite Forall_forall in H2. pose proof (H2 ch Hch).
    destruct H1 as [Hw _]. rewrite Forall_forall in Hw. pose proof (Hw ch Hch). split; [lia|].
    assert (Hlast : Exists (fun k => in_chunk k (ch.1 + ch.2 - 1)) l) by (apply Exists_exists; exists ch; split; [done|unfold in_chunk; lia]).
    apply H3 in Hlast as [[? _] _]. lia.
  - intros x Hx Hd. apply H3, Hall. split; [done|]. subst extents. destruct m as [| |ext nb]; try done.
    destruct Hm as (_ & _ & Hm). destruct Hd as [Hd|]; [by apply Hm|done].
Qed.

(** A file of 40000 bytes with data at the start, unwritten blocks, and data
    near the end. *)
Definition sample_extents : list fiemap_extent :=
  [FiemapExtent 0 8192 0; FiemapExtent 8192 16384 FIEMAP_EXTENT_UNWRITTEN; FiemapExtent 28672 4096 FIEMAP_EXTENT_LAST].
Definition sample_data (x : Z) : Prop := x = 100 \/ x = 30000.
Lemma sample_file_ok : file_ok sample_data sample_extents.
Proof.
  split.
  - unfold sample_extents. repeat (apply Forall_cons; split; [by vm_compute|]). done.
  - repeat constructor; by vm_compute.
  - intros x [->| ->]; [left|right; right; left]; by vm_compute.
  - intros e f He Hf Hl. repeat (apply elem_of_cons in He as [->|He]; [try by vm_compute in Hl|]); [|by apply not_elem_of_nil in He].
    repeat (apply elem_of_cons in Hf as [->|Hf]; [by vm_compute|]). by apply not_elem_of_nil in Hf.
Qed.
Lemma extent_chunks_cover_witness :
  wp (mapped_file sample_data sample_extents) (build_extent_map (Z.to_nat 40000) 3 36864) tt (fun _ m =>
    let extents := match m with MapIs ext _ => Some ext | _ => None end in
    Exists (fun ch => in_chunk ch 30000) (chunks extents 36864 10000 (Z.to_nat 36864) (cursor0 extents 36864))).
Proof.
  eapply wp_mono; [apply (extent_chunks_cover sample_data sample_extents (Z.to_nat 40000) (Z.to_nat 36864) 3 36864 10000 sample_file_ok); lia|].
  intros [] m (_ & _ & H). apply H; [lia|]. left. by right.
Defined.
