(* ===== verification/FsUtil.v ===== *)
(** File helpers of the client (src/fs_util.c): directory handles, opening the
    source and creating the destination, temporary names, metadata, the rename
    onto the final name, symbolic and hard links.

    A program runs in [M posix fsu]: the process-wide variables of the file
    that change while copies run are the state, those fixed by the first use
    are [fsenv].  Diagnostics carry the subject that perror prints, not the
    text of strerror; statistics other than the metadata counters and the
    progress display are left out. *)

From S2P Require Export CopyPolicy Extents.
#[local] Open Scope Z_scope.

(** * State *)

(** [dir_handle_t]; [dh_direct_ok] is 0 until [dst_fs_direct_ok] has asked. *)
Record dir_handle := DirHandle {
  dh_src : bytes; dh_dst : bytes; dh_src_fd : Z; dh_dst_fd : Z; dh_src_mode : Z; dh_refs : Z; dh_direct_ok : Z
}.

(** What is read once: identity, environment, policy. *)
Record fsenv := FsEnv {
  e_uid : Z; e_gid : Z; e_groups : list Z;           (* g_self_uid, g_self_gid, g_self_groups *)
  e_copy_file_range : bool; e_read_direct : bool; e_write_direct : bool;
  e_direct_min : Z;                                  (* g_direct_io_min_size_value *)
  e_policy : policy
}.

Record fsu := Fsu {
  u_tmp_counter : Z;
  u_warned : bool;               (* g_warned_chown_permission *)
  u_meta_warnings : Z;
  u_meta_errors : Z;
  u_io_cap : Z;                  (* g_tls_io_cap of this thread; 0: no buffer *)
  u_direct_ok : Z                (* dst_direct_ok of the task's directory *)
}.
Definition fsu0 : fsu := Fsu 0 false 0 0 0 0.
Abbreviation FM := (M posix fsu).

Definition count_warning (s : fsu) : fsu :=
  Fsu (u_tmp_counter s) (u_warned s) (u_meta_warnings s + 1) (u_meta_errors s) (u_io_cap s) (u_direct_ok s).
Definition count_error (s : fsu) : fsu :=
  Fsu (u_tmp_counter s) (u_warned s) (u_meta_warnings s) (u_meta_errors s + 1) (u_io_cap s) (u_direct_ok s).
Definition set_warned (s : fsu) : fsu :=
  Fsu (u_tmp_counter s) true (u_meta_warnings s) (u_meta_errors s) (u_io_cap s) (u_direct_ok s).
Definition set_io_cap (n : Z) (s : fsu) : fsu :=
  Fsu (u_tmp_counter s) (u_warned s) (u_meta_warnings s) (u_meta_errors s) n (u_direct_ok s).
Definition set_direct_ok (n : Z) (s : fsu) : fsu :=
  Fsu (u_tmp_counter s) (u_warned s) (u_meta_warnings s) (u_meta_errors s) (u_io_cap s) n.

Definition complain (line : bytes) : FM unit := call (eprintf line).
Definition close_ (fd : Z) : FM unit := call (close fd);; mret tt.
(** errno after a close whose own result is ignored. *)
Definition close_errno (fd e : Z) : FM Z := r ← call (close fd); mret (match r with Ok _ => e | Err e' => e' end).

(** * Directory handles *)

Definition dir_handle_create (src dst : bytes) (src_fd dst_fd : Z) : FM (option dir_handle) :=
  ok ← call (malloc 8256);
  if negb ok then complain (str "calloc");; mret None else
  st ← call (fstat src_fd);
  mret (Some (DirHandle (snprintf_s PATH_MAX src) (snprintf_s PATH_MAX dst) src_fd dst_fd
                (match st with Ok st => st_mode st | Err _ => o0777 end) 1 0)).
Definition dir_handle_retain (d : dir_handle) : dir_handle :=
  DirHandle (dh_src d) (dh_dst d) (dh_src_fd d) (dh_dst_fd d) (dh_src_mode d) (dh_refs d + 1) (dh_direct_ok d).
(** [None]: the handle is gone. *)
Definition dir_handle_release (d : dir_handle) : FM (option dir_handle) :=
  let refs := if decide (0 < dh_refs d) then dh_refs d - 1 else dh_refs d in
  if decide (refs <> 0) then
    mret (Some (DirHandle (dh_src d) (dh_dst d) (dh_src_fd d) (dh_dst_fd d) (dh_src_mode d) refs (dh_direct_ok d)))
  else
    when (bool_decide (0 <= dh_src_fd d)) (close_ (dh_src_fd d));;
    when (bool_decide (0 <= dh_dst_fd d)) (close_ (dh_dst_fd d));;
    mret None.

(** * Settings *)

Definition direct_io_fallback_errno (e : Z) : bool := bool_decide (e = EINVAL \/ e = EOPNOTSUPP \/ e = ENOTSUP \/ e = ENOSYS).
Definition chown_permission_errno (e : Z) : bool := bool_decide (e = EPERM \/ e = EACCES).

(** [DISABLE_COPY_FILE_RANGE]. *)
Definition init_copy_file_range_enabled (env : option bytes) : bool := negb (env_flag_set env).
Definition init_read_direct_io_enabled (read_env both_env : option bytes) : bool := negb (env_flag_set read_env || env_flag_set both_env).
Definition init_write_direct_io_enabled (write_env both_env : option bytes) : bool := negb (env_flag_set write_env || env_flag_set both_env).

Definition DIRECT_IO_MIN_SIZE_MB_DEFAULT : Z := 10.
Definition init_direct_io_min_size (env : option bytes) : Z :=
  let mb := match env with
            | None | Some [] => DIRECT_IO_MIN_SIZE_MB_DEFAULT
            | Some s => let r := strtol s in if decide (st_end r = s) then DIRECT_IO_MIN_SIZE_MB_DEFAULT else st_val r
            end in
  let mb := if decide (mb < 0) then 0 else mb in
  let mb := if decide (1024 * 1024 < mb) then 1024 * 1024 else mb in
  mb * 1024 * 1024.

Section fs.
Context (env : fsenv).

Definition direct_io_enabled : bool := e_read_direct env && e_write_direct env.
Definition direct_io_worthwhile (size : Z) : bool := bool_decide (e_direct_min env = 0) || bool_decide (e_direct_min env <= size).

(** * Modes and ownership *)

Definition copy_data_mode (final_mode : Z) : Z := final_mode &. o0777 |. S_IRUSR |. S_IWUSR.
Definition buffered_create_mode (final_mode : Z) : Z :=
  if has_bits final_mode (S_ISUID |. S_ISGID) then copy_data_mode final_mode else final_mode &. o07777.

Definition gid_settable (gid : Z) : bool :=
  bool_decide (e_uid env = 0) || bool_decide (gid = e_gid env) || bool_decide (gid ∈ e_groups env).
Definition owner_matches_self (st : stat) : bool := bool_decide (st_uid st = e_uid env) && bool_decide (st_gid st = e_gid env).
Definition chown_uid_unpreservable (st : stat) : bool := negb (bool_decide (e_uid env = 0)) && negb (bool_decide (st_uid st = e_uid env)).

(** The ids for chown, and whether something is lost anyway. *)
Definition chown_ids (st : stat) : Z * Z :=
  let uid := if chown_uid_unpreservable st then ID_NONE else st_uid st in
  let gid := if gid_settable (st_gid st) then st_gid st else ID_NONE in
  (if decide (uid = e_uid env) then ID_NONE else uid, if decide (gid = e_gid env) then ID_NONE else gid).
Definition ownership_lost (st : stat) : bool :=
  chown_uid_unpreservable st || (negb (gid_settable (st_gid st)) && negb (bool_decide (st_gid st = e_gid env))).

Definition note_chown_not_preserved : FM unit :=
  modify count_warning;;
  warned ← gets u_warned;
  when (negb warned)
    (complain (str "Warning: chown not permitted; continuing without preserving uid/gid ownership.");; modify set_warned).

(** Owner and group of a descriptor or of a link; [false]: a hard error. *)
Definition apply_owner (chown : Z -> Z -> posix (res unit)) (what : bytes) (st : stat) : FM bool :=
  if owner_matches_self st then mret true else
  let '(uid, gid) := chown_ids st in
  cerr ← (if decide (uid <> ID_NONE \/ gid <> ID_NONE)
          then r ← call (chown uid gid); mret (match r with Ok _ => 0 | Err e => e end)
          else mret 0);
  if negb (bool_decide (cerr = 0)) && negb (chown_permission_errno cerr) then
    complain what;; modify count_error;; mret false
  else
    when (ownership_lost st || negb (bool_decide (cerr = 0))) note_chown_not_preserved;; mret true.

(** [known_mode] is -1 when unknown. *)
Definition preserve_fd_metadata_impl (fd : Z) (st : stat) (known_mode : Z) : FM bool :=
  ok ← apply_owner (fchown fd) (str "fchown") st;
  if negb ok then mret false else
  let mode := st_mode st &. o07777 in
  ok ← (if bool_decide (known_mode < 0) || negb (bool_decide (known_mode = mode)) then
          r ← call (fchmod fd mode);
          match r with Ok _ => mret true | Err _ => complain (str "fchmod");; modify count_error;; mret false end
        else mret true);
  if negb ok then mret false else
  if copy_policy_preserve_times (e_policy env) then
    r ← call (futimens fd (st_atim st) (st_mtim st));
    match r with Ok _ => mret true | Err _ => complain (str "futimens");; modify count_error;; mret false end
  else mret true.
Definition preserve_fd_metadata (fd : Z) (st : stat) : FM bool := preserve_fd_metadata_impl fd st (-1).
Definition finalize_copied_file_fd := preserve_fd_metadata_impl.

Definition RDONLY_FLAGS : Z := O_RDONLY |. O_CLOEXEC |. O_NOFOLLOW.
Definition preserve_path_metadata (dst : bytes) (st : stat) : FM bool :=
  r ← call (openat AT_FDCWD dst RDONLY_FLAGS 0);
  match r with
  | Err _ => modify count_error;; complain dst;; mret false
  | Ok fd => ok ← preserve_fd_metadata fd st; close_ fd;; mret ok
  end.
Definition preserve_path_metadata_at (dir_fd : Z) (name display : bytes) (st : stat) (expected_type : Z) : FM bool :=
  r ← call (openat dir_fd name (RDONLY_FLAGS |. O_NONBLOCK) 0);
  match r with
  | Err _ => modify count_error;; complain display;; mret false
  | Ok fd =>
      r ← call (fstat fd);
      match r with
      | Err _ => close_ fd;; complain display;; modify count_error;; mret false
      | Ok cur =>
          if decide (st_mode cur &. S_IFMT <> expected_type) then
            close_ fd;; complain display;; modify count_error;; mret false
          else ok ← preserve_fd_metadata fd st; close_ fd;; mret ok
      end
  end.

(** * Opening the source *)

Definition same_size_and_mtime (a b : stat) : bool := bool_decide (st_size a = st_size b) && bool_decide (st_mtim a = st_mtim b).
Definition same_opened_source (expected actual : stat) : bool :=
  bool_decide (st_dev expected = st_dev actual) && bool_decide (st_ino expected = st_ino actual) &&
  bool_decide (st_mode expected &. S_IFMT = st_mode actual &. S_IFMT) && same_size_and_mtime expected actual.

Definition validate_opened_source_file (fd : Z) (display : bytes) (expected : option stat) : FM bool :=
  r ← call (fstat fd);
  match r with
  | Err _ => complain display;; mret false
  | Ok st =>
      if negb (S_ISREG (st_mode st)) then complain (str "Source is not a regular file: " ++ display);; mret false
      else match expected with
           | Some e => if same_opened_source e st then mret true
                       else complain (str "Source changed during traversal: " ++ display);; mret false
           | None => mret true
           end
  end.

Definition open_read_at_buffered (dir_fd : Z) (name display : bytes) (expected : option stat) : FM (option Z) :=
  r ← call (openat dir_fd name RDONLY_FLAGS 0);
  match r with
  | Err _ => complain display;; mret None
  | Ok fd =>
      ok ← validate_opened_source_file fd display expected;
      if ok : bool then mret (Some fd) else close_ fd;; mret None
  end.
(** The descriptor and whether it is open with O_DIRECT. *)
Definition open_read_at_maybe_direct (dir_fd : Z) (name display : bytes) (expected : option stat) : FM (option (Z * bool)) :=
  let buffered := fd ← open_read_at_buffered dir_fd name display expected; mret ((fun fd => (fd, false)) <$> fd) in
  if e_read_direct env && (match expected with None => true | Some st => direct_io_worthwhile (st_size st) end) then
    r ← call (openat dir_fd name (O_RDONLY |. O_DIRECT |. O_CLOEXEC |. O_NOFOLLOW) 0);
    match r with
    | Ok fd =>
        ok ← validate_opened_source_file fd display expected;
        if ok : bool then mret (Some (fd, true)) else close_ fd;; mret None
    | Err e => if direct_io_fallback_errno e then buffered else complain display;; mret None
    end
  else buffered.

(** * Creating the destination *)

(** The name and, on failure, errno. *)
Definition make_temp_name (size : Z) : FM (res bytes) :=
  modify (fun s => Fsu (u64 (u_tmp_counter s + 1)) (u_warned s) (u_meta_warnings s) (u_meta_errors s) (u_io_cap s) (u_direct_ok s));;
  n ← gets u_tmp_counter;
  if decide (size < 11 + 20 + 1 + 20 + 1) then mret (Err ENAMETOOLONG) else
  pid ← call getpid;
  mret (Ok (str ".ecopy.tmp." ++ dec (u64 pid) ++ str "." ++ dec n)).

(** What it makes. *)
Definition temp_name (n : bytes) : Prop := str ".ecopy.tmp." `prefix_of` n.

Definition clear_nonblock (fd : Z) (path : bytes) (open_flags : Z) : FM (res unit) :=
  r ← call (fcntl_setfl fd (Z.ldiff open_flags O_NONBLOCK));
  match r with Ok _ => mret (Ok tt) | Err e => complain path;; mret (Err e) end.
(** The permission bits of the file. *)
Definition validate_opened_temp_regular (fd : Z) (display : bytes) (open_flags : Z) : FM (res Z) :=
  r ← call (fstat fd);
  match r with
  | Err e => complain display;; mret (Err e)
  | Ok st =>
      if negb (S_ISREG (st_mode st)) then
        complain (str "Temporary target is not a regular file for " ++ display);; mret (Err EEXIST)
      else r ← clear_nonblock fd display open_flags;
           mret (match r with Ok _ => Ok (st_mode st &. o07777) | Err e => Err e end)
  end.

(** After a successful open: descriptor and mode, or errno. *)
Definition check_created (fd : Z) (display : bytes) (flags : Z) : FM (res (Z * Z)) :=
  r ← validate_opened_temp_regular fd display flags;
  match r with
  | Ok mode => mret (Ok (fd, mode))
  | Err e => e ← close_errno fd e; mret (Err e)
  end.

Definition CREATE_FLAGS : Z := O_WRONLY |. O_CREAT |. O_EXCL |. O_CLOEXEC |. O_NOFOLLOW |. O_NONBLOCK.
Definition open_temp_created_once (dir_fd : Z) (tmp_name display : bytes) (open_mode : Z) (direct : bool) : FM (res (Z * Z)) :=
  let flags := if direct then CREATE_FLAGS |. O_DIRECT else CREATE_FLAGS in
  r ← call (openat dir_fd tmp_name flags open_mode);
  match r with Err e => mret (Err e) | Ok fd => check_created fd display flags end.

(** Descriptor, O_DIRECT or not, mode of the file, temporary name. *)
Fixpoint create_temp_loop (attempts : nat) (dir_fd : Z) (display : bytes) (mode size : Z) (try_direct : bool) (buffered_mode : Z)
    : FM (option (Z * bool * Z * bytes)) :=
  match attempts with
  | O => complain (str "Could not create a unique temporary target for " ++ display);; mret None
  | S attempts =>
      let again := create_temp_loop attempts dir_fd display mode size try_direct buffered_mode in
      name ← make_temp_name size;
      match name with
      | Err _ => complain display;; mret None
      | Ok tmp =>
          let buffered :=
            r ← open_temp_created_once dir_fd tmp display buffered_mode false;
            match r with
            | Ok (fd, m) => mret (Some (fd, false, m, tmp))
            | Err e => if decide (e = EEXIST) then again else complain display;; mret None
            end in
          if try_direct then
            r ← open_temp_created_once dir_fd tmp display (copy_data_mode mode) true;
            match r with
            | Ok (fd, m) => mret (Some (fd, true, m, tmp))
            | Err e =>
                if decide (e = EEXIST) then again
                else if negb (direct_io_fallback_errno e) then complain display;; mret None
                else call (unlinkat dir_fd tmp 0);; buffered
            end
          else buffered
      end
  end.
Definition create_temp_write_at_maybe_direct (dir_fd : Z) (display : bytes) (mode data_size tmp_name_sz : Z) (reopen_by_name : bool)
    : FM (option (Z * bool * Z * bytes)) :=
  create_temp_loop 100 dir_fd display mode tmp_name_sz (e_write_direct env && direct_io_worthwhile data_size)
    (if reopen_by_name then copy_data_mode mode else buffered_create_mode mode).

Definition TRUNC_FLAGS : Z := O_WRONLY |. O_CREAT |. O_TRUNC |. O_CLOEXEC |. O_NOFOLLOW |. O_NONBLOCK.
Definition open_final_created_once (dir_fd : Z) (name display : bytes) (open_mode : Z) (direct : bool) : FM (res (Z * Z)) :=
  let flags := if direct then TRUNC_FLAGS |. O_DIRECT else TRUNC_FLAGS in
  r ← call (openat dir_fd name flags open_mode);
  r ← (match r with
       | Err e =>
           if decide (e = EACCES) then
             c ← call (fchmodat dir_fd name (copy_data_mode open_mode) 0);
             match c with Ok _ => call (openat dir_fd name flags open_mode) | Err e => mret (Err e) end
           else mret (Err e)
       | Ok fd => mret (Ok fd)
       end);
  match r with Err e => mret (Err e) | Ok fd => check_created fd display flags end.
Definition create_final_write_at_maybe_direct (dir_fd : Z) (name display : bytes) (mode data_size : Z) : FM (option (Z * bool * Z)) :=
  let buffered :=
    r ← open_final_created_once dir_fd name display (buffered_create_mode mode) false;
    match r with Ok (fd, m) => mret (Some (fd, false, m)) | Err _ => complain display;; mret None end in
  if e_write_direct env && direct_io_worthwhile data_size then
    r ← open_final_created_once dir_fd name display (copy_data_mode mode) true;
    match r with
    | Ok (fd, m) => mret (Some (fd, true, m))
    | Err e => if direct_io_fallback_errno e then buffered else complain display;; mret None
    end
  else buffered.

Definition WRONLY_FLAGS : Z := O_WRONLY |. O_CLOEXEC |. O_NOFOLLOW |. O_NONBLOCK.
Definition open_temp_write_existing_at_buffered (dir_fd : Z) (tmp_name display : bytes) : FM (option Z) :=
  r ← call (openat dir_fd tmp_name WRONLY_FLAGS 0);
  match r with
  | Err _ => complain display;; mret None
  | Ok fd =>
      r ← validate_opened_temp_regular fd display WRONLY_FLAGS;
      match r with Ok _ => mret (Some fd) | Err _ => close_ fd;; mret None end
  end.

(** * Committing *)

Definition rename_temp_to_final_at (dir_fd : Z) (tmp_name final_name display : bytes) : FM bool :=
  r ← call (fstatat dir_fd tmp_name AT_SYMLINK_NOFOLLOW);
  match r with
  | Err _ => complain display;; mret false
  | Ok st =>
      if negb (S_ISREG (st_mode st)) then complain (str "Temporary target is not a regular file for " ++ display);; mret false else
      r ← call (fstatat dir_fd final_name AT_SYMLINK_NOFOLLOW);
      let go := r ← call (renameat dir_fd tmp_name dir_fd final_name);
                match r with Ok _ => mret true | Err _ => complain display;; mret false end in
      match r with
      | Ok st => if S_ISREG (st_mode st) then go
                 else complain (str "Target exists but is not a regular file: " ++ display);; mret false
      | Err e => if decide (e = ENOENT) then go else complain display;; mret false
      end
  end.
Definition unlink_temp_at (dir_fd : Z) (tmp_name : bytes) : FM unit :=
  if decide (tmp_name = []) then mret tt else call (unlinkat dir_fd tmp_name 0);; mret tt.

(** * Links *)

Definition apply_symlink_metadata (dir_fd : Z) (name : bytes) (st : stat) : FM unit :=
  apply_owner (fun uid gid => fchownat dir_fd name uid gid AT_SYMLINK_NOFOLLOW) (str "fchownat") st;;
  when (copy_policy_preserve_times (e_policy env))
    (r ← call (utimensat dir_fd name (st_atim st) (st_mtim st) AT_SYMLINK_NOFOLLOW);
     when (negb (is_ok r)) (modify count_warning)).

Definition symlink_recreate_at (dir_fd : Z) (name target : bytes) (st : stat) : FM bool :=
  let via_temp :=
    t ← make_temp_name 256;
    match t with
    | Err _ => complain (str "make_temp_name");; mret false
    | Ok tmp =>
        r ← call (symlinkat target dir_fd tmp);
        match r with
        | Err _ => complain (str "symlinkat");; mret false
        | Ok _ =>
            apply_symlink_metadata dir_fd tmp st;;
            r ← call (renameat dir_fd tmp dir_fd name);
            match r with
            | Ok _ => mret true
            | Err _ => complain (str "renameat");; call (unlinkat dir_fd tmp 0);; mret false
            end
        end
    end in
  if copy_policy_small_inplace (e_policy env) then
    r ← call (symlinkat target dir_fd name);
    match r with
    | Ok _ => apply_symlink_metadata dir_fd name st;; mret true
    | Err e => if decide (e = EEXIST) then via_temp else complain (str "symlinkat");; mret false
    end
  else via_temp.

Inductive linked := Linked | LinkExdev | LinkFailed.
Definition hardlink_create (primary_path link_path : bytes) : FM linked :=
  r ← call (link primary_path link_path);
  match r with
  | Ok _ => mret Linked
  | Err e =>
      if decide (e = EXDEV) then mret LinkExdev
      else if decide (e <> EEXIST) then complain link_path;; mret LinkFailed
      else
        t ← make_temp_name 256;
        match t with
        | Err _ => complain (str "make_temp_name");; mret LinkFailed
        | Ok base =>
            let tmp := match strrchr_slash link_path with Some i => take i link_path | None => [] end ++ [SLASH] ++ base in
            if decide (PATH_MAX <= zlen tmp) then complain link_path;; mret LinkFailed else
            r ← call (link primary_path tmp);
            match r with
            | Err e => if decide (e = EXDEV) then mret LinkExdev else complain link_path;; mret LinkFailed
            | Ok _ =>
                r ← call (rename tmp link_path);
                match r with
                | Ok _ => mret Linked
                | Err _ => complain link_path;; call (unlink tmp);; mret LinkFailed
                end
            end
        end
  end.
End fs.
