(* ===== verification/LargePipe.v ===== *)
(** The large-file pipeline (src/workers.c, [large_reader_main],
    [large_writer_main], [start_large_file_copy], [finish_large_file_ctx]):
    readers claim ranges of the source and fill chunk buffers, writers drain
    them into the temporary file, and a finalizer joins both and commits.

    One [act] is one critical section under ctx->lock, one positioned read of
    a whole batch, or one positioned write; [lstep] runs it when it is
    enabled.  A thread that waits on free_cond or ready_cond sleeps until a
    signal or a broadcast reaches it.  The source does not change: a range
    reads as [src].  Buffers are interchangeable, so the free list is its
    length.  What a full or damaged disk does is the [ok] of an [act]. *)

From S2P Require Export Extents.
#[local] Open Scope Z_scope.

(** * Condition variables *)

Inductive signal := Quiet | One | All.
Definition join_signal (a b : signal) : signal := match a with All => All | _ => b end.

Section wake.
Context {P : Type} (parked : P -> bool) (wake : P -> P).
(** [i] is the thread that a signal reaches; when none waits it is lost. *)
Definition wake_up (g : signal) (i : nat) (ps : list P) : option (list P) :=
  match g with
  | Quiet => Some ps
  | All => Some (wake <$> ps)
  | One =>
      if existsb parked ps
      then match ps !! i with Some p => if parked p then Some (<[i := wake p]> ps) else None | None => None end
      else Some ps
  end.
End wake.

(** * State *)

(** A filled [large_buffer_t]: its offset and the bytes still to be written. *)
Record buffer := Buffer { u_off : Z; u_data : bytes }.

(** The part of [large_file_ctx_t] the lock protects. *)
Record pipe_ctx := Pipe {
  k_cur : cursor;            (* next_read_offset, ext_idx *)
  k_free : nat;
  k_ready : list buffer;
  k_failed : bool;
  k_read_done : bool;
  k_active_readers : Z;
  k_active_writers : Z;
  k_free_waiters : Z;
  k_ready_waiters : Z
}.

(** A thread not started yet; at the top of its loop; asleep; woken; with a
    batch of buffers; gone. Of its [n] buffers a writer has those of [todo]
    still to write. *)
Inductive lreader := RUnborn | RTop | RParked | RWoken | RReading (batch : list (Z * Z)) | RExit.
Inductive lwriter := WUnborn | WTop | WParked | WWoken | WWriting (n : nat) (todo : list buffer) | WExit.

(** [start_large_file_copy] starting threads, the finalizer joining them, the
    outcome. *)
Inductive finalizer := Starting | Joining | Finished (committed : bool).

Record lsys := LSys {
  p_pipe : pipe_ctx;
  p_readers : list lreader;
  p_writers : list lwriter;
  p_stop : bool;             (* g_shutdown_requested *)
  p_dest : gmap Z byte;      (* the temporary file *)
  p_fin : finalizer
}.

Definition rparked (p : lreader) : bool := match p with RParked => true | _ => false end.
Definition rwake (p : lreader) : lreader := match p with RParked => RWoken | _ => p end.
Definition wparked (p : lwriter) : bool := match p with WParked => true | _ => false end.
Definition wwake (p : lwriter) : lwriter := match p with WParked => WWoken | _ => p end.

Section pipeline.
Context (extents : option (list (Z * Z))) (bulk_end chunk_size : Z) (src : Z -> byte) (batch_max : nat).

(** * Readers *)

(** [pread] of a whole range. *)
Definition src_range (off len : Z) : bytes := (fun i => src (off + i)) <$> seqZ 0 len.

(** Claim free buffers and ranges for them. *)
Fixpoint claim_batch (n free : nat) (c : cursor) : list (Z * Z) * nat * cursor :=
  match n, free with
  | S n, S free =>
      if decide (cr_next c < bulk_end) then
        let '(off, len, c) := claim_chunk extents bulk_end chunk_size c in
        let '(l, free, c) := claim_batch n free c in ((off, len) :: l, free, c)
      else ([], S free, c)
  | _, _ => ([], free, c)
  end.

Definition mark_large_file_failed_locked (s : pipe_ctx) : pipe_ctx :=
  Pipe (k_cur s) (k_free s) (k_ready s) true (k_read_done s) (k_active_readers s) (k_active_writers s)
    (k_free_waiters s) (k_ready_waiters s).

(** With a free buffer, a failure or nothing left, or asleep. The signals are
    those to free_cond and ready_cond. *)
Definition reader_check (s : pipe_ctx) : pipe_ctx * lreader * signal * signal :=
  let '(Pipe cur free ready failed read_done ar aw fw rw) := s in
  if negb failed && bool_decide (free = 0%nat) && bool_decide (cr_next cur < bulk_end) then
    (Pipe cur free ready failed read_done ar aw (fw + 1) rw, RParked, Quiet, Quiet)
  else if failed || bool_decide (bulk_end <= cr_next cur) then
    let last := bool_decide (ar - 1 = 0) in
    (Pipe cur free ready failed (last || read_done) (ar - 1) aw fw rw, RExit, Quiet, if last then All else Quiet)
  else
    let '(batch, free, cur) := claim_batch batch_max free cur in
    (Pipe cur free ready failed read_done ar aw fw rw, RReading batch, Quiet, Quiet).

(** The first lock hold of a round. *)
Definition reader_top (stop : bool) (s : pipe_ctx) : pipe_ctx * lreader * signal * signal :=
  if stop && negb (k_failed s) then
    let '(s, p, f, r) := reader_check (mark_large_file_failed_locked s) in (s, p, join_signal All f, join_signal All r)
  else reader_check s.
Definition reader_wake (s : pipe_ctx) : pipe_ctx * lreader * signal * signal :=
  let '(Pipe cur free ready failed read_done ar aw fw rw) := s in
  reader_check (Pipe cur free ready failed read_done ar aw (fw - 1) rw).

(** The second one, after reading; [ok] says whether every range was read in
    full. *)
Definition reader_return (ok : bool) (batch : list (Z * Z)) (s : pipe_ctx) : pipe_ctx * lreader * signal * signal :=
  let '(Pipe cur free ready failed read_done ar aw fw rw) := s in
  if failed || negb ok then
    (Pipe cur (free + length batch) ready true (bool_decide (ar - 1 = 0) || read_done) (ar - 1) aw fw rw,
     RExit, All, if ok then Quiet else All)
  else
    (Pipe cur free (ready ++ ((fun '(off, len) => Buffer off (src_range off len)) <$> batch)) failed read_done ar aw fw rw,
     RTop, Quiet, if bool_decide (0 < rw) then One else Quiet).

(** * Writers *)

(** [stop] is g_shutdown_requested as the second load finds it. *)
Definition writer_check (stop : bool) (s : pipe_ctx) : pipe_ctx * lwriter :=
  let '(Pipe cur free ready failed read_done ar aw fw rw) := s in
  let empty := bool_decide (ready = []) in
  if negb failed && empty && negb read_done then (Pipe cur free ready failed read_done ar aw fw (rw + 1), WParked)
  else if stop || (failed && empty) || (empty && read_done) then
    (Pipe cur free ready failed read_done ar (aw - 1) fw rw, WExit)
  else
    let batch := take batch_max ready in
    (Pipe cur free (drop batch_max ready) failed read_done ar aw fw rw, WWriting (length batch) batch).

(** The signal goes to both condition variables. *)
Definition writer_top (stop stop' : bool) (s : pipe_ctx) : pipe_ctx * lwriter * signal :=
  if stop && negb (k_failed s) then (writer_check stop' (mark_large_file_failed_locked s), All)
  else (writer_check stop' s, Quiet).
Definition writer_wake (stop' : bool) (s : pipe_ctx) : pipe_ctx * lwriter * signal :=
  let '(Pipe cur free ready failed read_done ar aw fw rw) := s in
  (writer_check stop' (Pipe cur free ready failed read_done ar aw fw (rw - 1)), Quiet).

(** [pwrite] has accepted [w] bytes of the first buffer. *)
Definition written_part (w : nat) (todo : list buffer) (dest : gmap Z byte) : option (list buffer * gmap Z byte) :=
  match todo with
  | Buffer off data :: todo =>
      if decide (0 < w <= length data)%nat then
        let rest := drop w data in
        Some (match rest with [] => todo | _ => Buffer (off + Z.of_nat w) rest :: todo end, store off (take w data) dest)
      else None
  | [] => None
  end.

(** The batch goes back to the free list. *)
Definition writer_return (ok : bool) (n : nat) (s : pipe_ctx) : pipe_ctx * lwriter * signal * signal :=
  let '(Pipe cur free ready failed read_done ar aw fw rw) := s in
  let g := if bool_decide (0 < fw) then One else Quiet in
  (Pipe cur (free + n) ready (negb ok || failed) read_done ar aw fw rw, if ok then WTop else WExit,
   if ok then g else All, if ok then Quiet else All).

(** * Steps *)

(** [k] is the thread a signal reaches, if one does. *)
Inductive act :=
| AStartReader (i : nat) | AStartWriter (i : nat) | AStarted
| AStartFailed                          (* pthread_create has failed *)
| AReader (i : nat)                     (* first lock hold of a reader *)
| ARead (i : nat) (ok : bool) (k : nat) (* a batch is read, second lock hold *)
| AWriter (i : nat) (stop' : bool)      (* first lock hold of a writer *)
| AWrite (i : nat) (w : nat)            (* a pwrite accepts w bytes *)
| AWritten (i : nat) (ok : bool) (k : nat) (* the batch is done with, second lock hold *)
| AInterrupt                            (* the signal handler *)
| ARequestStop                          (* workers_request_stop, for this file *)
| AFinish (ok : bool).                  (* finish_large_file_ctx after its joins *)

Definition started_r (p : lreader) : bool := match p with RUnborn => false | _ => true end.
Definition started_w (p : lwriter) : bool := match p with WUnborn => false | _ => true end.
Definition gone_r (p : lreader) : bool := match p with RExit => true | _ => false end.
Definition gone_w (p : lwriter) : bool := match p with WExit => true | _ => false end.
Definition unborn_r (p : lreader) : lreader := match p with RUnborn => RExit | _ => p end.
Definition unborn_w (p : lwriter) : lwriter := match p with WUnborn => WExit | _ => p end.

(** Reader [i] becomes [p], then the signals go out. *)
Definition reader_moves (i j k : nat) (r : pipe_ctx * lreader * signal * signal) (y : lsys) : option lsys :=
  let '(s, p, gf, gr) := r in
  rs ← wake_up rparked rwake gf j (<[i := p]> (p_readers y));
  ws ← wake_up wparked wwake gr k (p_writers y);
  Some (LSys s rs ws (p_stop y) (p_dest y) (p_fin y)).
Definition writer_moves (i j k : nat) (r : pipe_ctx * lwriter * signal * signal) (y : lsys) : option lsys :=
  let '(s, p, gf, gr) := r in
  rs ← wake_up rparked rwake gf j (p_readers y);
  ws ← wake_up wparked wwake gr k (<[i := p]> (p_writers y));
  Some (LSys s rs ws (p_stop y) (p_dest y) (p_fin y)).
(** mark_large_file_failed_locked from outside the pipeline. *)
Definition fail_all (y : lsys) : lsys :=
  LSys (mark_large_file_failed_locked (p_pipe y)) (rwake <$> p_readers y) (wwake <$> p_writers y) (p_stop y) (p_dest y) (p_fin y).
Definition set_stop (b : bool) (y : lsys) : lsys := LSys (p_pipe y) (p_readers y) (p_writers y) b (p_dest y) (p_fin y).
Definition set_fin (f : finalizer) (y : lsys) : lsys := LSys (p_pipe y) (p_readers y) (p_writers y) (p_stop y) (p_dest y) f.
Definition set_dest (m : gmap Z byte) (y : lsys) : lsys := LSys (p_pipe y) (p_readers y) (p_writers y) (p_stop y) m (p_fin y).
Definition set_readers (rs : list lreader) (y : lsys) : lsys := LSys (p_pipe y) rs (p_writers y) (p_stop y) (p_dest y) (p_fin y).
Definition set_writers (ws : list lwriter) (y : lsys) : lsys := LSys (p_pipe y) (p_readers y) ws (p_stop y) (p_dest y) (p_fin y).

Definition lstep (a : act) (y : lsys) : option lsys :=
  match a with
  | AStartReader i =>
      match p_fin y, p_readers y !! i with
      | Starting, Some RUnborn => Some (set_readers (<[i := RTop]> (p_readers y)) y)
      | _, _ => None
      end
  | AStartWriter i =>
      match p_fin y, p_writers y !! i with
      | Starting, Some WUnborn =>
          if forallb started_r (p_readers y) then Some (set_writers (<[i := WTop]> (p_writers y)) y) else None
      | _, _ => None
      end
  | AStarted =>
      match p_fin y with
      | Starting => if forallb started_r (p_readers y) && forallb started_w (p_writers y) then Some (set_fin Joining y) else None
      | _ => None
      end
  | AStartFailed =>
      match p_fin y with
      | Starting =>
          let y := fail_all y in
          Some (set_fin Joining (set_writers (unborn_w <$> p_writers y) (set_readers (unborn_r <$> p_readers y) y)))
      | _ => None
      end
  | AReader i =>
      match p_readers y !! i with
      | Some RTop => reader_moves i 0 0 (reader_top (p_stop y) (p_pipe y)) y
      | Some RWoken => reader_moves i 0 0 (reader_wake (p_pipe y)) y
      | _ => None
      end
  | ARead i ok k =>
      match p_readers y !! i with
      | Some (RReading batch) => reader_moves i 0 k (reader_return ok batch (p_pipe y)) y
      | _ => None
      end
  | AWriter i stop' =>
      if p_stop y && negb stop' then None else
      match p_writers y !! i with
      | Some WTop =>
          let '(s, p, g) := writer_top (p_stop y) stop' (p_pipe y) in writer_moves i 0 0 (s, p, g, g) (set_stop stop' y)
      | Some WWoken =>
          let '(s, p, g) := writer_wake stop' (p_pipe y) in writer_moves i 0 0 (s, p, g, g) (set_stop stop' y)
      | _ => None
      end
  | AWrite i w =>
      match p_writers y !! i with
      | Some (WWriting n todo) =>
          '(todo, dest) ← written_part w todo (p_dest y);
          Some (set_dest dest (set_writers (<[i := WWriting n todo]> (p_writers y)) y))
      | _ => None
      end
  | AWritten i ok j =>
      match p_writers y !! i with
      | Some (WWriting n todo) =>
          if ok && negb (bool_decide (todo = [])) then None else writer_moves i j 0 (writer_return ok n (p_pipe y)) y
      | _ => None
      end
  | AInterrupt => if p_stop y then None else Some (set_stop true y)
  | ARequestStop =>
      match p_fin y with
      | Finished _ => None
      | _ => if p_stop y && negb (k_failed (p_pipe y)) then Some (fail_all y) else None
      end
  | AFinish ok =>
      match p_fin y with
      | Joining =>
          if forallb gone_r (p_readers y) && forallb gone_w (p_writers y)
          then Some (set_fin (Finished (ok && negb (k_failed (p_pipe y)))) y) else None
      | _ => None
      end
  end.

Definition lrel (y y' : lsys) : Prop := exists a, lstep a y = Some y'.
Fixpoint lrun (l : list act) (y : lsys) : option lsys :=
  match l with [] => Some y | a :: l => lstep a y ≫= lrun l end.

(** [inflight] buffers, [readers] and [writers] threads. *)
Definition lsys0 (inflight readers writers : nat) : lsys :=
  LSys (Pipe (cursor0 extents bulk_end) inflight [] false false (Z.of_nat readers) (Z.of_nat writers) 0 0)
    (replicate readers RUnborn) (replicate writers WUnborn) false ∅ Starting.
End pipeline.
Arguments lstep : simpl never.

(** A pipeline with one buffer, three readers and a two-chunk file: the reader
    woken last claims nothing and leaves, and nobody wakes the one that is
    still asleep on free_cond. *)
Definition stuck_run : list act :=
  [AStartReader 0; AStartReader 1; AStartReader 2; AStartWriter 0; AStarted;
   AReader 0; AReader 1; AReader 2; ARead 0 true 0; AReader 0;      (* all three asleep *)
   AWriter 0 false; AWrite 0 4096; AWritten 0 true 0;               (* wakes reader 0 *)
   AReader 0; ARead 0 true 0; AReader 0;                            (* the last chunk *)
   AWriter 0 false; AWrite 0 4096; AWritten 0 true 1; AReader 1;    (* wakes reader 1, which leaves *)
   AWriter 0 false].
Definition zero_src (x : Z) : byte := x00.
Example stuck_end :
  (fun y => (p_readers y, p_writers y, p_fin y, k_free (p_pipe y))) <$> lrun None 8192 4096 zero_src 1 stuck_run (lsys0 None 8192 1 3 1) =
  Some ([RExit; RExit; RParked], [WParked], Joining, 1%nat).
Proof. vm_compute. reflexivity. Qed.
