(* ===== verification/LargePipeInv.v ===== *)
(** What the large-file pipeline keeps true: the data it moves ([dinv]) and
    the counts of buffers and threads ([cinv]). *)

From S2P Require Export LargePipe.
From stdpp Require Import list.
#[local] Open Scope Z_scope.

(** * Threads seen through what a wake-up leaves unchanged *)

Definition r_held (p : lreader) : Z := match p with RReading b => zlen b | _ => 0 end.
Definition r_exit (p : lreader) : Z := match p with RExit => 1 | _ => 0 end.
Definition r_wait (p : lreader) : Z := match p with RParked | RWoken => 1 | _ => 0 end.
Definition r_park (p : lreader) : Z := b2z (rparked p).
Definition w_held (p : lwriter) : Z := match p with WWriting n _ => Z.of_nat n | _ => 0 end.
Definition w_exit (p : lwriter) : Z := match p with WExit => 1 | _ => 0 end.
Definition w_wait (p : lwriter) : Z := match p with WParked | WWoken => 1 | _ => 0 end.
Definition w_park (p : lwriter) : Z := b2z (wparked p).
Definition rpend (p : lreader) : list (Z * Z) := match p with RReading b => b | _ => [] end.
Definition wbufs (p : lwriter) : list buffer := match p with WWriting _ todo => todo | _ => [] end.

Definition after (g : signal) (parked : Z) : Z :=
  match g with Quiet => parked | One => Z.max 0 (parked - 1) | All => 0 end.

Section delivery.
Context {P : Type} (parked : P -> bool) (wake : P -> P)
  (Hid : forall p, parked p = false -> wake p = p) (Hw : forall p, parked (wake p) = false).
Let np (p : P) : Z := b2z (parked p).
Let woken (p q : P) : Prop := q = p \/ parked p = true /\ q = wake p.

Lemma not_parked_sum ps : existsb parked ps = false -> sumZ np ps = 0.
Proof.
  intros H. apply sumZ_zero, Forall_forall. intros p Hp. unfold np. destruct (parked p) eqn:E; [|done].
  enough (existsb parked ps = true) by congruence. apply existsb_exists. exists p. split; [by apply (proj1 (list_elem_of_In _ _))|done].
Qed.

Lemma deliver_spec g i ps ps' :
  wake_up parked wake g i ps = Some ps' -> Forall2 woken ps ps' /\ sumZ np ps' = after g (sumZ np ps).
Proof.
  assert (Hr : forall l, Forall2 woken l l) by (intros l; induction l; constructor; [by left|done]).
  assert (Hn : forall x, 0 <= np x) by (intros x; unfold np; by destruct (parked x)).
  unfold wake_up. destruct g; [by intros [= <-]| |intros [= <-]].
  - destruct (existsb parked ps) eqn:Ex; [|intros [= <-]; split; [done|rewrite not_parked_sum by done; done]].
    destruct (ps !! i) as [p|] eqn:Ei; [|done]. destruct (parked p) eqn:Ep; [|done]. intros [= <-]. split.
    + rewrite <- (list_insert_id ps i p) at 1 by done. apply Forall2_insert; [done|by right].
    + rewrite (sumZ_insert np ps i p) by done. unfold np at 2 3. rewrite Ep, Hw. cbn [after Z.b2z].
      pose proof (sumZ_elem np ps i p Hn Ei) as Hle. unfold np at 1 in Hle. rewrite Ep in Hle. cbn [Z.b2z] in Hle. lia.
  - split; [|by apply sumZ_zero, Forall_fmap, Forall_true; intros p; cbn; unfold np; rewrite Hw].
    rewrite <- (list_fmap_id ps) at 1. apply Forall2_fmap_2. eapply Forall_Forall2_diag, Forall_true. intros p.
    destruct (parked p) eqn:E; [by right|left; simpl; by apply Hid].
Qed.

(** What a wake-up leaves unchanged, in one lemma. *)
Lemma deliver_keeps g i ps ps' :
  wake_up parked wake g i ps = Some ps' ->
  length ps' = length ps /\ sumZ np ps' = after g (sumZ np ps) /\
  (forall f : P -> Z, (forall p, f (wake p) = f p) -> sumZ f ps' = sumZ f ps) /\
  (forall B (f : P -> list B), (forall p, f (wake p) = f p) -> concat (f <$> ps') = concat (f <$> ps)) /\
  (forall Q : P -> Prop, (forall p, Q p -> Q (wake p)) -> Forall Q ps -> Forall Q ps').
Proof.
  intros H. apply deliver_spec in H as [HR Hp].
  assert (Hf : forall B (f : P -> B), (forall p, f (wake p) = f p) -> forall p q, woken p q -> f q = f p)
    by (intros B f Hf p q [->|[_ ->]]; [done|apply Hf]).
  split_and!; [by rewrite (Forall2_length _ _ _ HR)|done| | |].
  - intros. eapply sumZ_Forall2; [|exact HR]. by apply Hf.
  - intros. eapply concat_Forall2; [|exact HR]. by apply Hf.
  - intros Q HQ. clear -HR HQ. induction HR as [|p q ps ps' Hpq _ IH]; [done|]. rewrite !Forall_cons. intros [? ?].
    split; [destruct Hpq as [->|[_ ->]]; auto|by apply IH].
Qed.
End delivery.

(** A thread moves and the signal [g] goes out. *)
Lemma moved {P} (parked : P -> bool) (wake : P -> P) g j i q p ps ps' :
  (forall p, parked p = false -> wake p = p) -> (forall p, parked (wake p) = false) ->
  ps !! i = Some q -> wake_up parked wake g j (<[i := p]> ps) = Some ps' ->
  let np p := b2z (parked p) in
  length ps' = length ps /\ sumZ np ps' = after g (sumZ np ps - np q + np p) /\
  (forall f : P -> Z, (forall p, f (wake p) = f p) -> sumZ f ps' = sumZ f ps - f q + f p) /\
  (forall B (f : P -> list B), (forall p, f (wake p) = f p) ->
    exists R, concat (f <$> ps) ≡ₚ f q ++ R /\ concat (f <$> ps') ≡ₚ f p ++ R) /\
  (forall Q : P -> Prop, (forall p, Q p -> Q (wake p)) -> Q p -> Forall Q ps -> Forall Q ps').
Proof.
  intros Hid Hw Hi H. destruct (deliver_keeps parked wake Hid Hw _ _ _ _ H) as (Hl & Hp & Hs & Hc & HF).
  rewrite length_insert in Hl. rewrite (sumZ_insert _ _ _ _ _ Hi) in Hp. split_and!; [done|done| | |].
  - intros f Hf. by rewrite (Hs f Hf), (sumZ_insert _ _ _ _ _ Hi).
  - intros B f Hf. destruct (concat_at f ps i q Hi) as (R & H1 & H2). exists R. split; [done|]. by rewrite (Hc B f Hf).
  - intros Q HQ Hp' Hall. apply HF; [done|]. by apply Forall_insert.
Qed.

(** Bounds of the counts; those of a thread that is part of them. *)
Lemma r_bounds rs : 0 <= sumZ r_park rs <= sumZ r_wait rs /\ 0 <= sumZ r_exit rs /\ 0 <= sumZ r_held rs /\
  sumZ r_wait rs + sumZ r_exit rs <= zlen rs.
Proof.
  assert (Hz : forall b : list (Z * Z), 0 <= zlen b) by (intros; apply zlen_nonneg).
  induction rs as [|p rs IH]; cbn [sumZ foldr]; [done|]. rewrite zlen_cons.
  destruct p as [| | | |b|]; try specialize (Hz b); cbn [r_park rparked Z.b2z r_wait r_exit r_held]; unfold sumZ in IH; lia.
Qed.
Lemma w_bounds ws : 0 <= sumZ w_park ws <= sumZ w_wait ws /\ 0 <= sumZ w_exit ws /\ 0 <= sumZ w_held ws /\
  sumZ w_wait ws + sumZ w_exit ws <= zlen ws.
Proof.
  induction ws as [|p ws IH]; cbn [sumZ foldr]; [done|]. rewrite zlen_cons.
  destruct p; cbn [w_park wparked Z.b2z w_wait w_exit w_held]; unfold sumZ in IH; lia.
Qed.
Lemma r_at rs i q : rs !! i = Some q ->
  r_held q <= sumZ r_held rs /\ sumZ r_wait rs + sumZ r_exit rs + (1 - r_wait q - r_exit q) <= zlen rs /\
  sumZ r_park rs + sumZ r_exit rs + (1 - r_park q - r_exit q) <= zlen rs.
Proof.
  revert i. induction rs as [|p rs IH]; intros [|i] Hi; simplify_eq/=; rewrite zlen_cons.
  - pose proof (r_bounds rs). unfold sumZ in *. destruct q; cbn [r_park rparked Z.b2z r_wait r_exit r_held] in *; lia.
  - specialize (IH i Hi). unfold sumZ in *. pose proof (zlen_nonneg (rpend p)).
    destruct p; cbn [r_park rparked Z.b2z r_wait r_exit r_held rpend] in *; lia.
Qed.
Lemma w_at ws i q : ws !! i = Some q ->
  w_held q <= sumZ w_held ws /\ sumZ w_wait ws + sumZ w_exit ws + (1 - w_wait q - w_exit q) <= zlen ws /\
  sumZ w_park ws + sumZ w_exit ws + (1 - w_park q - w_exit q) <= zlen ws.
Proof.
  revert i. induction ws as [|p ws IH]; intros [|i] Hi; simplify_eq/=; rewrite zlen_cons.
  - pose proof (w_bounds ws). unfold sumZ in *. destruct q; cbn [w_park wparked Z.b2z w_wait w_exit w_held] in *; lia.
  - specialize (IH i Hi). unfold sumZ in *.
    destruct p; cbn [w_park wparked Z.b2z w_wait w_exit w_held] in *; lia.
Qed.

Section inv.
Context (extents : option (list (Z * Z))) (bulk_end chunk_size : Z) (src : Z -> byte) (batch_max : nat).
Context (inflight readers writers : nat).
Context (Hend : 0 <= bulk_end) (Hchunk : 1 <= chunk_size)
  (Hext : match extents with Some ext => extents_ok bulk_end ext | None => True end).

Local Abbreviation step := (lstep extents bulk_end chunk_size src batch_max).
Local Abbreviation region := (region extents bulk_end).
Local Abbreviation ahead := (ahead extents bulk_end).
Local Abbreviation cursor_ok := (cursor_ok extents bulk_end).

(** What is read and not yet written: ranges the readers hold, buffers. *)
Definition bufs (s : pipe_ctx) (ws : list lwriter) : list buffer := k_ready s ++ concat (wbufs <$> ws).
Definition span (b : buffer) : Z * Z := (u_off b, zlen (u_data b)).
Definition pend (s : pipe_ctx) (rs : list lreader) (ws : list lwriter) : list (Z * Z) :=
  concat (rpend <$> rs) ++ (span <$> bufs s ws).

Definition range_ok (ch : Z * Z) : Prop := 0 < ch.2 /\ forall x, in_chunk ch x -> region x.
Definition buf_ok (b : buffer) : Prop := u_data b = src_range src (u_off b) (zlen (u_data b)).
Definition done_at (m : gmap Z byte) (x : Z) : Prop := m !! x = Some (src x).

(** Every byte of the region is still ahead, on its way, or written; what is
    written is the source's. *)
Record dinv (s : pipe_ctx) rs ws (dest : gmap Z byte) : Prop := DInv {
  d_cur : cursor_ok (k_cur s);
  d_pend : Forall range_ok (pend s rs ws);
  d_bufs : Forall buf_ok (bufs s ws);
  d_dest : forall x v, dest !! x = Some v -> v = src x /\ region x;
  d_cover : k_failed s = false ->
    forall x, region x -> ahead (k_cur s) x \/ Exists (fun ch => in_chunk ch x) (pend s rs ws) \/ done_at dest x
}.

(** Counts of a pipeline that has not failed. *)
Record live (s : pipe_ctx) rs ws (stop : bool) : Prop := Live {
  l_ar : k_active_readers s = Z.of_nat readers - sumZ r_exit rs;
  l_fw : k_free_waiters s = sumZ r_wait rs;
  l_rw : k_ready_waiters s = sumZ w_wait ws;
  l_free : Z.of_nat (k_free s) + sumZ r_held rs + zlen (k_ready s) + sumZ w_held ws = Z.of_nat inflight;
  l_done : k_read_done s = true <-> k_active_readers s = 0;
  l_exit : 0 < sumZ r_exit rs -> bulk_end <= cr_next (k_cur s);
  l_wdone : k_read_done s = true -> sumZ w_park ws = 0;
  l_wexit : stop = false -> 0 < sumZ w_exit ws -> k_read_done s = true /\ k_ready s = [];
  l_wake_r : cr_next (k_cur s) < bulk_end -> (0 < k_free s)%nat -> sumZ r_park rs < Z.of_nat readers;
  l_wake_w : stop = false -> k_ready s <> [] -> sumZ w_park ws + sumZ w_exit ws < Z.of_nat writers;
  (** the readers asleep can be woken by the batches still to be returned *)
  l_asleep :
    Z.of_nat batch_max * (Z.of_nat readers - 1) <= Z.of_nat inflight ->
    sumZ r_park rs = 0 \/
    let out := Z.of_nat inflight - Z.of_nat (k_free s) in
    let need := Z.of_nat batch_max * (sumZ r_park rs - 1) in
    if decide (cr_next (k_cur s) < bulk_end) then need <= out else need < out
}.

Definition batch_ok (p : lwriter) : Prop :=
  match p with WWriting n todo => (1 <= n <= batch_max)%nat /\ (length todo <= n)%nat | _ => True end.
Definition rbatch_ok (p : lreader) : Prop := match p with RReading b => (1 <= length b <= batch_max)%nat | _ => True end.

Record cinv (y : lsys) : Prop := CInv {
  c_rs : length (p_readers y) = readers;
  c_ws : length (p_writers y) = writers;
  c_rbatch : Forall rbatch_ok (p_readers y);
  c_batch : Forall batch_ok (p_writers y);
  c_live : k_failed (p_pipe y) = false -> live (p_pipe y) (p_readers y) (p_writers y) (p_stop y);
  c_failed : k_failed (p_pipe y) = true -> sumZ r_park (p_readers y) = 0 /\ sumZ w_park (p_writers y) = 0;
  c_joining : p_fin y <> Starting -> Forall (fun p => started_r p = true) (p_readers y) /\ Forall (fun p => started_w p = true) (p_writers y);
  c_finished : forall b, p_fin y = Finished b ->
    Forall (fun p => gone_r p = true) (p_readers y) /\ Forall (fun p => gone_w p = true) (p_writers y) /\
    (b = true -> k_failed (p_pipe y) = false)
}.

(** ** Readers and writers that move *)

Record rmoved (g : signal) (q p : lreader) (rs rs' : list lreader) : Prop := RMoved {
  rm_len : length rs' = length rs;
  rm_held : sumZ r_held rs' = sumZ r_held rs - r_held q + r_held p;
  rm_exit : sumZ r_exit rs' = sumZ r_exit rs - r_exit q + r_exit p;
  rm_wait : sumZ r_wait rs' = sumZ r_wait rs - r_wait q + r_wait p;
  rm_park : sumZ r_park rs' = after g (sumZ r_park rs - r_park q + r_park p);
  rm_pend : exists R, concat (rpend <$> rs) ≡ₚ rpend q ++ R /\ concat (rpend <$> rs') ≡ₚ rpend p ++ R;
  rm_all : forall Q : lreader -> Prop, (Q RParked -> Q RWoken) -> Q p -> Forall Q rs -> Forall Q rs'
}.
Record wmoved (g : signal) (q p : lwriter) (ws ws' : list lwriter) : Prop := WMoved {
  wm_len : length ws' = length ws;
  wm_held : sumZ w_held ws' = sumZ w_held ws - w_held q + w_held p;
  wm_exit : sumZ w_exit ws' = sumZ w_exit ws - w_exit q + w_exit p;
  wm_wait : sumZ w_wait ws' = sumZ w_wait ws - w_wait q + w_wait p;
  wm_park : sumZ w_park ws' = after g (sumZ w_park ws - w_park q + w_park p);
  wm_bufs : exists R, concat (wbufs <$> ws) ≡ₚ wbufs q ++ R /\ concat (wbufs <$> ws') ≡ₚ wbufs p ++ R;
  wm_all : forall Q : lwriter -> Prop, (Q WParked -> Q WWoken) -> Q p -> Forall Q ws -> Forall Q ws'
}.
Record rstayed (g : signal) (rs rs' : list lreader) : Prop := RStayed {
  rs_len : length rs' = length rs;
  rs_held : sumZ r_held rs' = sumZ r_held rs;
  rs_exit : sumZ r_exit rs' = sumZ r_exit rs;
  rs_wait : sumZ r_wait rs' = sumZ r_wait rs;
  rs_park : sumZ r_park rs' = after g (sumZ r_park rs);
  rs_pend : concat (rpend <$> rs') = concat (rpend <$> rs);
  rs_all : forall Q : lreader -> Prop, (Q RParked -> Q RWoken) -> Forall Q rs -> Forall Q rs'
}.
Record wstayed (g : signal) (ws ws' : list lwriter) : Prop := WStayed {
  ws_len : length ws' = length ws;
  ws_held : sumZ w_held ws' = sumZ w_held ws;
  ws_exit : sumZ w_exit ws' = sumZ w_exit ws;
  ws_wait : sumZ w_wait ws' = sumZ w_wait ws;
  ws_park : sumZ w_park ws' = after g (sumZ w_park ws);
  ws_bufs : concat (wbufs <$> ws') = concat (wbufs <$> ws);
  ws_all : forall Q : lwriter -> Prop, (Q WParked -> Q WWoken) -> Forall Q ws -> Forall Q ws'
}.

Lemma rmoved_ok g j i q p rs rs' : rs !! i = Some q -> wake_up rparked rwake g j (<[i := p]> rs) = Some rs' -> rmoved g q p rs rs'.
Proof.
  intros Hi H. destruct (moved rparked rwake g j i q p rs rs') as (Hl & Hp & Hs & Hc & HF); [by intros []|by intros []|done|done|].
  split; [done|apply Hs; by intros []|apply Hs; by intros []|apply Hs; by intros []|done|apply Hc; by intros []|].
  intros Q HQ. apply HF. intros []; auto.
Qed.
Lemma wmoved_ok g j i q p ws ws' : ws !! i = Some q -> wake_up wparked wwake g j (<[i := p]> ws) = Some ws' -> wmoved g q p ws ws'.
Proof.
  intros Hi H. destruct (moved wparked wwake g j i q p ws ws') as (Hl & Hp & Hs & Hc & HF); [by intros []|by intros []|done|done|].
  split; [done|apply Hs; by intros []|apply Hs; by intros []|apply Hs; by intros []|done|apply Hc; by intros []|].
  intros Q HQ. apply HF. intros []; auto.
Qed.
Lemma rstayed_ok g j rs rs' : wake_up rparked rwake g j rs = Some rs' -> rstayed g rs rs'.
Proof.
  intros H. destruct (deliver_keeps rparked rwake ltac:(by intros []) ltac:(by intros []) _ _ _ _ H) as (Hl & Hp & Hs & Hc & HF).
  split; [done|apply Hs; by intros []|apply Hs; by intros []|apply Hs; by intros []|done|apply Hc; by intros []|].
  intros Q HQ. apply HF. intros []; auto.
Qed.
Lemma wstayed_ok g j ws ws' : wake_up wparked wwake g j ws = Some ws' -> wstayed g ws ws'.
Proof.
  intros H. destruct (deliver_keeps wparked wwake ltac:(by intros []) ltac:(by intros []) _ _ _ _ H) as (Hl & Hp & Hs & Hc & HF).
  split; [done|apply Hs; by intros []|apply Hs; by intros []|apply Hs; by intros []|done|apply Hc; by intros []|].
  intros Q HQ. apply HF. intros []; auto.
Qed.

Lemma reader_moved i j k s p gf gr y q y' :
  p_readers y !! i = Some q -> reader_moves i j k (s, p, gf, gr) y = Some y' ->
  exists rs ws, y' = LSys s rs ws (p_stop y) (p_dest y) (p_fin y) /\
    rmoved gf q p (p_readers y) rs /\ wstayed gr (p_writers y) ws.
Proof.
  unfold reader_moves. intros Hq H. apply bind_Some in H as (rs & Hr & H). apply bind_Some in H as (ws & Hws & [= <-]).
  exists rs, ws. split_and!; [done|by eapply rmoved_ok|by eapply wstayed_ok].
Qed.
Lemma writer_moved i j k s p gf gr y q y' :
  p_writers y !! i = Some q -> writer_moves i j k (s, p, gf, gr) y = Some y' ->
  exists rs ws, y' = LSys s rs ws (p_stop y) (p_dest y) (p_fin y) /\
    rstayed gf (p_readers y) rs /\ wmoved gr q p (p_writers y) ws.
Proof.
  unfold writer_moves. intros Hq H. apply bind_Some in H as (rs & Hr & H). apply bind_Some in H as (ws & Hws & [= <-]).
  exists rs, ws. split_and!; [done|by eapply rstayed_ok|by eapply wmoved_ok].
Qed.

Lemma claim_batch_spec n free c l free' c' :
  cursor_ok c -> claim_batch extents bulk_end chunk_size n free c = (l, free', c') ->
  (length l <= n)%nat /\ free = (free' + length l)%nat /\ cursor_ok c' /\ Forall range_ok l /\ cr_next c <= cr_next c' /\
  (forall x, ahead c x <-> Exists (fun ch => in_chunk ch x) l \/ ahead c' x) /\
  ((0 < n)%nat -> (0 < free)%nat -> cr_next c < bulk_end -> (1 <= length l)%nat).
Proof.
  revert free c l free' c'. induction n as [|n IH]; intros free c l free' c' Hc H; cbn [claim_batch] in H.
  { simplify_eq. cbn [length]. split_and!; [lia|lia|done|done|lia|intros x; rewrite Exists_nil; naive_solver|lia]. }
  destruct free as [|free]; [simplify_eq; cbn [length]; split_and!; [lia|lia|done|done|lia|intros x; rewrite Exists_nil; naive_solver|lia]|].
  destruct (decide (cr_next c < bulk_end)) as [Hlt|]; [|simplify_eq; cbn [length]; split_and!; [lia|lia|done|done|lia|intros x; rewrite Exists_nil; naive_solver|lia]].
  pose proof (claim_chunk_spec extents bulk_end chunk_size Hend Hchunk Hext c Hc Hlt) as Hcl. destruct (claim_chunk _ _ _ c) as [[off len] c1].
  destruct Hcl as (-> & Hlen & Hmono & Hc1 & Hreg & Hah).
  destruct (claim_batch _ _ _ n free c1) as [[l1 free1] c2] eqn:E. destruct (IH _ _ _ _ _ Hc1 E) as (H1 & H2 & H3 & H4 & H5 & H6 & _).
  simplify_eq. cbn [length]. split_and!; [lia|lia|done| |lia| |lia].
  - constructor; [|done]. split; [cbn; lia|]. intros x Hx. by apply Hreg.
  - intros x. rewrite Hah, H6, Exists_cons. unfold in_chunk at 2. cbn [fst snd]. tauto.
Qed.

(** The ranges of a batch lie between the two cursors. *)
Lemma claim_batch_sum n free c l free' c' :
  cursor_ok c -> claim_batch extents bulk_end chunk_size n free c = (l, free', c') ->
  cr_next c + sumZ snd l <= cr_next c' <= bulk_end.
Proof.
  revert free c l free' c'. induction n as [|n IH]; intros free c l free' c' Hc H; cbn [claim_batch] in H.
  { simplify_eq. destruct Hc as [? _]. cbn. lia. }
  destruct free as [|free]; [simplify_eq; destruct Hc as [? _]; cbn; lia|].
  destruct (decide (cr_next c < bulk_end)) as [Hlt|]; [|simplify_eq; destruct Hc as [? _]; cbn; lia].
  pose proof (claim_chunk_spec extents bulk_end chunk_size Hend Hchunk Hext c Hc Hlt) as Hcl. destruct (claim_chunk _ _ _ c) as [[off len] c1].
  destruct Hcl as (-> & Hlen & Hmono & Hc1 & _). destruct (claim_batch _ _ _ n free c1) as [[l1 free1] c2] eqn:E.
  pose proof (IH _ _ _ _ _ Hc1 E). simplify_eq. cbn [sumZ foldr snd]. unfold sumZ in *. lia.
Qed.

(** ** Data *)

(** Buffers change hands or, when the file has failed, are dropped. *)
Lemma dinv_sub A B s rs ws s' rs' ws' dest :
  dinv s rs ws dest -> k_cur s' = k_cur s ->
  concat (rpend <$> rs) ≡ₚ A ++ concat (rpend <$> rs') -> bufs s ws ≡ₚ B ++ bufs s' ws' ->
  (k_failed s' = false -> k_failed s = false /\ A = [] /\ B = []) ->
  dinv s' rs' ws' dest.
Proof.
  intros [Hc Hp Hb Hd Hcov] Ec HA HB Hf.
  assert (HP : pend s rs ws ≡ₚ (A ++ (span <$> B)) ++ pend s' rs' ws').
  { unfold pend. rewrite HA, (fmap_Permutation span _ _ HB), fmap_app. perm. }
  rewrite HP, Forall_app in Hp. rewrite HB, Forall_app in Hb. split; [by rewrite Ec|by apply Hp|by apply Hb|done|].
  intros E x Hx. destruct (Hf E) as (Ef & -> & ->). rewrite Ec. destruct (Hcov Ef x Hx) as [?|[H|?]]; [by left| |by right; right].
  right; left. by rewrite HP in H.
Qed.
Lemma dinv_perm s rs ws s' rs' ws' dest :
  dinv s rs ws dest -> k_cur s' = k_cur s -> (k_failed s' = false -> k_failed s = false) ->
  concat (rpend <$> rs') ≡ₚ concat (rpend <$> rs) -> bufs s' ws' ≡ₚ bufs s ws -> dinv s' rs' ws' dest.
Proof. intros H Ec Ef Hr Hb. by apply (dinv_sub [] [] s rs ws); [|done|rewrite Hr|rewrite Hb|auto]. Qed.

Lemma dinv_claim batch s rs ws s' rs' ws' dest :
  dinv s rs ws dest -> concat (rpend <$> rs') ≡ₚ batch ++ concat (rpend <$> rs) -> bufs s' ws' = bufs s ws ->
  k_failed s' = k_failed s -> cursor_ok (k_cur s') -> Forall range_ok batch ->
  (forall x, ahead (k_cur s) x <-> Exists (fun ch => in_chunk ch x) batch \/ ahead (k_cur s') x) ->
  dinv s' rs' ws' dest.
Proof.
  intros [Hc Hp Hb Hd Hcov] Hr Eb Ef Hc' Hbatch Hah.
  assert (HP : pend s' rs' ws' ≡ₚ batch ++ pend s rs ws) by (unfold pend; rewrite Hr, Eb; perm).
  split; [done|by rewrite HP, Forall_app|by rewrite Eb|done|].
  rewrite Ef. intros E x Hx. rewrite HP, Exists_app. destruct (Hcov E x Hx) as [H|[?|?]]; [|tauto..]. apply Hah in H. tauto.
Qed.

Lemma src_range_length off len : 0 <= len -> zlen (src_range src off len) = len.
Proof. intros. unfold src_range, zlen. rewrite length_fmap, length_seqZ. lia. Qed.
Lemma src_range_lookup off len i v : src_range src off len !! i = Some v -> v = src (off + Z.of_nat i) /\ Z.of_nat i < len.
Proof.
  unfold src_range. rewrite list_lookup_fmap. destruct (seqZ 0 len !! i) as [z|] eqn:E; [|done]. simpl. intros [= <-].
  apply lookup_seqZ in E as [-> ?]. split; [f_equal|]; lia.
Qed.
Lemma buf_ok_drop off data w : buf_ok (Buffer off data) -> (w <= length data)%nat -> buf_ok (Buffer (off + Z.of_nat w) (drop w data)).
Proof.
  unfold buf_ok. cbn [u_off u_data]. intros H Hw. apply list_eq. intros i. rewrite lookup_drop.
  rewrite H at 1. unfold src_range. rewrite !list_lookup_fmap.
  assert (Hz : zlen (drop w data) = zlen data - Z.of_nat w) by (unfold zlen; rewrite length_drop; lia).
  destruct (decide (Z.of_nat i < zlen (drop w data))).
  - rewrite !lookup_seqZ_lt by lia. simpl. do 2 f_equal. lia.
  - rewrite !lookup_seqZ_ge by lia. done.
Qed.

Lemma dinv_read batch s rs ws s' rs' ws' dest R :
  dinv s rs ws dest -> concat (rpend <$> rs) ≡ₚ batch ++ R -> concat (rpend <$> rs') ≡ₚ R ->
  bufs s' ws' ≡ₚ ((fun '(off, len) => Buffer off (src_range src off len)) <$> batch) ++ bufs s ws ->
  k_failed s' = k_failed s -> k_cur s' = k_cur s -> dinv s' rs' ws' dest.
Proof.
  intros [Hc Hp Hb Hd Hcov] Hr Hr' Eb Ef Ec.
  assert (Hbat : Forall range_ok batch) by (unfold pend in Hp; rewrite Hr, !Forall_app in Hp; by apply Hp).
  set (mk := fun '(off, len) => Buffer off (src_range src off len)) in *.
  assert (Hspan : span <$> (mk <$> batch) = batch).
  { rewrite <- list_fmap_compose. rewrite <- (list_fmap_id batch) at 2. apply list_fmap_ext. intros i [off len] Hi.
    unfold span, mk. simpl. rewrite src_range_length; [done|]. rewrite Forall_lookup in Hbat. destruct (Hbat i _ Hi). simpl in *. lia. }
  assert (HP : pend s' rs' ws' ≡ₚ pend s rs ws).
  { unfold pend. rewrite Hr, Hr', (fmap_Permutation span _ _ Eb), fmap_app, Hspan. perm. }
  split; [by rewrite Ec|by rewrite HP| |done|].
  - rewrite Eb, Forall_app. split; [|done]. apply Forall_fmap. eapply Forall_impl; [exact Hbat|].
    intros [off len] [Hl _]. unfold compose, buf_ok, mk. cbn in *. rewrite src_range_length; [done|lia].
  - rewrite Ef, Ec. intros E x Hx. rewrite HP. by apply Hcov.
Qed.

(** A piece of a buffer is written. *)
Lemma dinv_write off data w todo rest s rs ws s' ws' dest R :
  dinv s rs ws dest -> (0 < w <= length data)%nat ->
  concat (wbufs <$> ws) ≡ₚ (Buffer off data :: todo) ++ R ->
  concat (wbufs <$> ws') ≡ₚ rest ++ todo ++ R ->
  rest = (match drop w data with [] => [] | d => [Buffer (off + Z.of_nat w) d] end) ->
  s' = s -> dinv s' rs ws' (store off (take w data) dest).
Proof.
  intros [Hc Hp Hb Hd Hcov] Hw Hws Hws' -> ->. set (rest := match drop w data with [] => [] | _ => _ end) in *.
  assert (Eb : bufs s ws ≡ₚ Buffer off data :: k_ready s ++ todo ++ R).
  { unfold bufs. rewrite Hws. perm. }
  assert (Eb' : bufs s ws' ≡ₚ rest ++ k_ready s ++ todo ++ R) by (unfold bufs; rewrite Hws'; perm).
  set (K := k_ready s ++ todo ++ R) in *.
  assert (Ep : pend s rs ws ≡ₚ (off, zlen data) :: (span <$> K) ++ concat (rpend <$> rs)).
  { unfold pend. rewrite (fmap_Permutation span _ _ Eb). rewrite fmap_cons. unfold span at 1. cbn [u_off u_data]. perm. }
  assert (Ep' : pend s rs ws' ≡ₚ (span <$> rest) ++ (span <$> K) ++ concat (rpend <$> rs)).
  { unfold pend. rewrite (fmap_Permutation span _ _ Eb'), fmap_app. perm. }
  rewrite Eb, Forall_cons in Hb. destruct Hb as [Hb HK]. rewrite Ep, Forall_cons in Hp. destruct Hp as [Hr Hp].
  assert (Hrest : forall x, off + Z.of_nat w <= x < off + zlen data -> Exists (fun ch => in_chunk ch x) (span <$> rest)).
  { intros x Hx. subst rest. destruct (drop w data) as [|d ds] eqn:Ed.
    - apply (f_equal length) in Ed. rewrite length_drop in Ed. simpl in Ed. unfold zlen in Hx. lia.
    - rewrite <- Ed. apply Exists_cons. left. unfold in_chunk, span. cbn [fst snd u_off u_data].
      assert (zlen (drop w data) = zlen data - Z.of_nat w) by (unfold zlen; rewrite length_drop; lia). lia. }
  assert (Hz : zlen (take w data) = Z.of_nat w) by (unfold zlen; rewrite length_take; lia).
  assert (Hst : forall x, off <= x < off + Z.of_nat w -> store off (take w data) dest !! x = Some (src x) /\ region x).
  { intros x Hx. rewrite store_lookup, decide_True by lia. rewrite lookup_take_lt by lia.
    destruct (lookup_lt_is_Some_2 data (Z.to_nat (x - off))) as [v Hv]; [lia|]. rewrite Hv. unfold buf_ok in Hb. cbn [u_off u_data] in Hb.
    rewrite Hb in Hv. apply src_range_lookup in Hv as [-> _]. split; [do 2 f_equal; lia|]. apply Hr. unfold in_chunk. cbn [fst snd]. unfold zlen. lia. }
  split; [done| | | |].
  - rewrite Ep', Forall_app. split; [|done]. subst rest. destruct (drop w data) as [|d ds] eqn:Ed; [by repeat constructor|]. rewrite <- Ed.
    apply Forall_singleton. destruct Hr as [_ Hr]. unfold range_ok, in_chunk, span in *. cbn [fst snd u_off u_data] in *.
    assert (E : zlen (drop w data) = zlen data - Z.of_nat w) by (unfold zlen; rewrite length_drop; lia).
    split; [rewrite Ed, zlen_cons; pose proof (zlen_nonneg ds); lia|]. intros x Hx. apply Hr. lia.
  - rewrite Eb', Forall_app. split; [|done]. subst rest. destruct (drop w data) as [|d ds] eqn:Ed; [by repeat constructor|]. rewrite <- Ed.
    apply Forall_singleton. apply buf_ok_drop; [done|lia].
  - intros x v. destruct (decide (off <= x < off + Z.of_nat w)) as [Hx|Hx].
    + destruct (Hst x Hx) as [-> ?]. by intros [= <-].
    + rewrite store_lookup, decide_False by lia. apply Hd.
  - intros E x Hx. rewrite Ep', Exists_app. unfold done_at. destruct (decide (off <= x < off + Z.of_nat w)) as [Hin|Hout].
    { right; right. by apply Hst. }
    rewrite store_lookup, decide_False by lia. destruct (Hcov E x Hx) as [?|[H|?]]; [by left| |by right; right].
    right; left. rewrite Ep, Exists_cons in H. destruct H as [H|H]; [|by right]. left. apply Hrest. unfold in_chunk in H. cbn [fst snd] in H. lia.
Qed.

Lemma rmoved_pend g q p rs rs' :
  rmoved g q p rs rs' -> rpend q = [] -> concat (rpend <$> rs') ≡ₚ rpend p ++ concat (rpend <$> rs).
Proof. intros H E. destruct (rm_pend _ _ _ _ _ H) as (R & H1 & H2). rewrite E in H1. by rewrite H2, H1. Qed.

Lemma dinv_check s0 s p f r q g g' rs ws rs' ws' dest :
  dinv s0 rs ws dest -> reader_check extents bulk_end chunk_size batch_max s0 = (s, p, f, r) -> rpend q = [] ->
  rmoved g q p rs rs' -> wstayed g' ws ws' -> dinv s rs' ws' dest.
Proof.
  intros Hd H Eq Hr Hw. pose proof (rmoved_pend _ _ _ _ _ Hr Eq) as HP. pose proof (ws_bufs _ _ _ Hw) as EW.
  destruct s0 as [cur free ready failed rd ar aw fw rw]. cbn [reader_check] in H.
  destruct (negb failed && _ && _); [|destruct (failed || _)].
  - simplify_eq. eapply dinv_perm; [exact Hd|done|done|by rewrite HP|unfold bufs; by rewrite EW].
  - simplify_eq. eapply dinv_perm; [exact Hd|done|done|by rewrite HP|unfold bufs; by rewrite EW].
  - destruct (claim_batch _ _ _ _ _ _) as [[l free'] cur'] eqn:Ecl. simplify_eq.
    apply claim_batch_spec in Ecl as (_ & _ & ? & ? & _ & Hah & _); [|apply (d_cur _ _ _ _ Hd)].
    eapply (dinv_claim l); [exact Hd|done|unfold bufs; by rewrite EW|done|done|done|done].
Qed.

(** The state in which [reader_check] and [writer_check] start differs in the
    failure flag and the waiter counts only. *)
Lemma dinv_flag s s' rs ws dest :
  dinv s rs ws dest -> k_cur s' = k_cur s -> k_ready s' = k_ready s -> (k_failed s' = false -> k_failed s = false) -> dinv s' rs ws dest.
Proof. intros Hd E1 E2 E3. eapply dinv_perm; [exact Hd|done|done|done|unfold bufs; by rewrite E2]. Qed.

Lemma dinv_wcheck stop s0 s p q g g' rs ws rs' ws' dest :
  dinv s0 rs ws dest -> writer_check batch_max stop s0 = (s, p) -> wbufs q = [] ->
  rstayed g rs rs' -> wmoved g' q p ws ws' -> dinv s rs' ws' dest.
Proof.
  intros Hd H Eq Hr Hw. pose proof (rs_pend _ _ _ Hr) as ER. destruct (wm_bufs _ _ _ _ _ Hw) as (R & H1 & H2). rewrite Eq in H1.
  destruct s0 as [cur free ready failed rd ar aw fw rw]. cbn [writer_check] in H.
  destruct (negb failed && _ && _); [|destruct (stop || _ || _)]; simplify_eq.
  - eapply dinv_perm; [exact Hd|done|done|by rewrite ER|unfold bufs; by rewrite H1, H2].
  - eapply dinv_perm; [exact Hd|done|done|by rewrite ER|unfold bufs; by rewrite H1, H2].
  - eapply dinv_perm; [exact Hd|done|done|by rewrite ER|unfold bufs; cbn [k_ready]; rewrite H1, H2; cbn [wbufs app]].
    rewrite <- (take_drop batch_max ready) at 3. perm.
Qed.

Abbreviation dinv_of y := (dinv (p_pipe y) (p_readers y) (p_writers y) (p_dest y)).

Lemma dinv_fail y : dinv_of y -> dinv_of (fail_all y).
Proof.
  intros Hd. destruct (rstayed_ok All 0 (p_readers y) _ eq_refl) as [_ _ _ _ _ Hr _].
  destruct (wstayed_ok All 0 (p_writers y) _ eq_refl) as [_ _ _ _ _ Hw _].
  eapply dinv_perm; [exact Hd|done|done|cbn; by rewrite Hr|unfold bufs; cbn; by rewrite Hw].
Qed.

(** Threads that hold nothing may be replaced by others that hold nothing. *)
Lemma dinv_threads y rs ws fin :
  dinv_of y -> concat (rpend <$> rs) ≡ₚ concat (rpend <$> p_readers y) -> concat (wbufs <$> ws) ≡ₚ concat (wbufs <$> p_writers y) ->
  dinv_of (set_fin fin (set_writers ws (set_readers rs y))).
Proof. intros Hd Hr Hw. eapply dinv_perm; [exact Hd|done|done|done|]. unfold bufs. cbn. by rewrite Hw. Qed.

Lemma rinsert_pend rs i q p : rs !! i = Some q -> rpend q = rpend p -> concat (rpend <$> <[i := p]> rs) ≡ₚ concat (rpend <$> rs).
Proof. intros Hi E. destruct (concat_at rpend rs i q Hi) as (R & H1 & H2). by rewrite H1, H2, E. Qed.
Lemma winsert_bufs ws i q p : ws !! i = Some q -> wbufs q = wbufs p -> concat (wbufs <$> <[i := p]> ws) ≡ₚ concat (wbufs <$> ws).
Proof. intros Hi E. destruct (concat_at wbufs ws i q Hi) as (R & H1 & H2). by rewrite H1, H2, E. Qed.

Lemma dinv_reader i y y' : dinv_of y -> step (AReader i) y = Some y' -> dinv_of y'.
Proof.
  intros Hd H. unfold lstep in H. destruct (p_readers y !! i) as [q|] eqn:Hq; [|done].
  destruct q; try done.
  - unfold reader_top in H. destruct (p_stop y && _) eqn:Es.
    + destruct (reader_check _ _ _ _ _) as [[[s p] f] r] eqn:E. eapply reader_moved in H as (rs & ws & -> & Hr & Hw); [|exact Hq].
      eapply (dinv_check _ _ _ _ _ RTop); [|exact E|done|exact Hr|exact Hw]. by eapply dinv_flag.
    + destruct (reader_check _ _ _ _ _) as [[[s p] f] r] eqn:E. eapply reader_moved in H as (rs & ws & -> & Hr & Hw); [|exact Hq].
      by eapply (dinv_check _ _ _ _ _ RTop).
  - destruct (reader_wake _ _ _ _ _) as [[[s p] f] r] eqn:E. eapply reader_moved in H as (rs & ws & -> & Hr & Hw); [|exact Hq].
    unfold reader_wake in E. destruct (p_pipe y) as [cur free ready failed rd ar aw fw rw] eqn:Ep. eapply (dinv_check _ _ _ _ _ RWoken); [|exact E|done|exact Hr|exact Hw].
    by eapply dinv_flag.
Qed.

Lemma dinv_read_done i ok k y y' : dinv_of y -> step (ARead i ok k) y = Some y' -> dinv_of y'.
Proof.
  intros Hd H. unfold lstep in H. destruct (p_readers y !! i) as [q|] eqn:Hq; [|done]. destruct q as [| | | |batch|]; try done.
  destruct (reader_return _ _ _ _) as [[[s p] f] r] eqn:E. eapply reader_moved in H as (rs & ws & -> & Hr & Hw); [|exact Hq].
  destruct (rm_pend _ _ _ _ _ Hr) as (R & H1 & H2). pose proof (ws_bufs _ _ _ Hw) as EW. cbn [p_pipe p_readers p_writers p_dest].
  destruct (p_pipe y) as [cur free ready failed rd ar aw fw rw] eqn:Ep. cbn [reader_return] in E. destruct (failed || negb ok).
  - simplify_eq. eapply (dinv_sub batch []); [exact Hd|done|by rewrite H1, H2|unfold bufs; by rewrite EW|done].
  - simplify_eq. eapply (dinv_read batch _ _ _ _ _ _ _ R); [exact Hd|exact H1|by rewrite H2| |done|done].
    unfold bufs. cbn [k_ready]. rewrite EW. set (l := _ <$> batch). perm.
Qed.

Lemma dinv_writer i stop' y y' : dinv_of y -> step (AWriter i stop') y = Some y' -> dinv_of y'.
Proof.
  intros Hd H. unfold lstep in H. destruct (p_stop y && _); [done|]. destruct (p_writers y !! i) as [q|] eqn:Hq; [|done].
  assert (Hq' : p_writers (set_stop stop' y) !! i = Some q) by done. destruct q; try done.
  - unfold writer_top in H. destruct (p_stop y && _) eqn:Es.
    + destruct (writer_check _ _ _) as [s p] eqn:E. eapply writer_moved in H as (rs & ws & -> & Hr & Hw); [|exact Hq'].
      eapply (dinv_wcheck _ _ _ _ WTop); [|exact E|done|exact Hr|exact Hw]. by eapply dinv_flag.
    + destruct (writer_check _ _ _) as [s p] eqn:E. eapply writer_moved in H as (rs & ws & -> & Hr & Hw); [|exact Hq'].
      by eapply (dinv_wcheck _ _ _ _ WTop).
  - unfold writer_wake in H. destruct (p_pipe y) as [cur free ready failed rd ar aw fw rw] eqn:Ep. destruct (writer_check _ _ _) as [s p] eqn:E.
    eapply writer_moved in H as (rs & ws & -> & Hr & Hw); [|exact Hq'].
    eapply (dinv_wcheck _ _ _ _ WWoken); [|exact E|done|exact Hr|exact Hw]. by eapply dinv_flag.
Qed.

Lemma unborn_pend rs : concat (rpend <$> (unborn_r <$> rs)) = concat (rpend <$> rs).
Proof. induction rs as [|p rs IH]; [done|]. rewrite !fmap_cons. cbn [concat]. rewrite IH. by destruct p. Qed.
Lemma unborn_bufs ws : concat (wbufs <$> (unborn_w <$> ws)) = concat (wbufs <$> ws).
Proof. induction ws as [|p ws IH]; [done|]. rewrite !fmap_cons. cbn [concat]. rewrite IH. by destruct p. Qed.

Lemma dinv_step a y y' : dinv_of y -> step a y = Some y' -> dinv_of y'.
Proof.
  intros Hd H. destruct a as [i|i| | |i|i ok k|i stop'|i w|i ok k| | |ok].
  - unfold lstep in H. destruct (p_fin y), (p_readers y !! i) as [[]|] eqn:Hq; simplify_eq.
    by apply (dinv_threads y _ _ (p_fin y)); [|eapply rinsert_pend|].
  - unfold lstep in H. destruct (p_fin y), (p_writers y !! i) as [[]|] eqn:Hq; try done. destruct (forallb _ _); simplify_eq.
    by apply (dinv_threads y _ _ (p_fin y)); [| |eapply winsert_bufs].
  - unfold lstep in H. destruct (p_fin y); try done. destruct (_ && _); by simplify_eq.
  - unfold lstep in H. destruct (p_fin y); simplify_eq. apply (dinv_threads (fail_all y)); [by apply dinv_fail| |].
    + by rewrite unborn_pend.
    + by rewrite unborn_bufs.
  - by eapply dinv_reader.
  - by eapply dinv_read_done.
  - by eapply dinv_writer.
  - unfold lstep in H. destruct (p_writers y !! i) as [[| | | |n todo|]|] eqn:Hq; try done.
    apply bind_Some in H as ([todo' dest] & Hwr & [= <-]). destruct todo as [|[off data] todo]; [done|]. cbn [written_part] in Hwr.
    destruct (decide _) as [Hlen|]; [|done]. destruct (concat_at wbufs _ _ _ Hq) as (R & H1 & H2). specialize (H2 (WWriting n todo')).
    simplify_eq. cbn [p_pipe p_readers p_writers p_dest set_dest set_writers].
    eapply (dinv_write off data w todo _ _ _ _ _ _ _ R); [exact Hd|done|done| |done|done].
    rewrite H2. cbn [wbufs]. by destruct (drop w data).
  - unfold lstep in H. destruct (p_writers y !! i) as [[| | | |n todo|]|] eqn:Hq; try done.
    destruct (ok && _) eqn:Hok; [done|]. destruct (writer_return _ _ _) as [[[s p] f] r] eqn:E.
    eapply writer_moved in H as (rs & ws & -> & Hr & Hw); [|exact Hq]. destruct (wm_bufs _ _ _ _ _ Hw) as (R & H1 & H2).
    pose proof (rs_pend _ _ _ Hr) as ER. cbn [p_pipe p_readers p_writers p_dest]. destruct (p_pipe y) as [cur free ready failed rd ar aw fw rw] eqn:Ep. unfold writer_return in E.
    eapply (dinv_sub [] todo); [exact Hd|by simplify_eq|by rewrite ER| |].
    + unfold bufs. simplify_eq. cbn [k_ready]. rewrite H1, H2. destruct ok; cbn [wbufs]; perm.
    + simplify_eq. cbn [k_failed]. destruct ok; [|done]. cbn [negb orb andb] in *. intros ->. split_and!; [done|done|].
      apply negb_false_iff, bool_decide_eq_true in Hok. done.
  - unfold lstep in H. destruct (p_stop y); by simplify_eq.
  - unfold lstep in H. destruct (p_fin y); try done; (destruct (_ && _); [|done]); simplify_eq; by apply dinv_fail.
  - unfold lstep in H. destruct (p_fin y); try done. destruct (_ && _); by simplify_eq.
Qed.

(** ** Counts *)

Context (Hbm : (1 <= batch_max)%nat) (Hreaders : (1 <= readers)%nat) (Hwriters : (1 <= writers)%nat).

Definition set_fw (z : Z) (s : pipe_ctx) : pipe_ctx :=
  let '(Pipe cur free ready failed rd ar aw fw rw) := s in Pipe cur free ready failed rd ar aw z rw.
Definition set_rw (z : Z) (s : pipe_ctx) : pipe_ctx :=
  let '(Pipe cur free ready failed rd ar aw fw rw) := s in Pipe cur free ready failed rd ar aw fw z.

Lemma live_check s i q s' p f r rs ws rs' ws' stop :
  cursor_ok (k_cur s) -> live s rs ws stop -> length rs = readers -> q = RTop \/ q = RWoken -> rs !! i = Some q -> k_failed s = false ->
  reader_check extents bulk_end chunk_size batch_max (set_fw (k_free_waiters s - r_wait q) s) = (s', p, f, r) ->
  rmoved f q p rs rs' -> wstayed r ws ws' -> k_failed s' = false /\ rbatch_ok p /\ live s' rs' ws' stop.
Proof.
  intros Hcur Hl Hlen Hq Hi Hf H [_ Rh Rx Rw Rp _ _] [Wl Wh Wx Ww Wp _ _].
  pose proof (r_at rs i q Hi) as (A1 & A2 & A3). pose proof (r_bounds rs) as B. pose proof (w_bounds ws) as BW.
  assert (Q : r_held q = 0 /\ r_exit q = 0 /\ r_park q = 0) by (by destruct Hq; subst). destruct Q as (Q1 & Q2 & Q3).
  rewrite Q1, Q2, Q3 in *. unfold zlen in A2, A3. rewrite Hlen in A2, A3.
  destruct s as [cur free ready failed rd ar aw fw rw]. cbn [k_failed k_free_waiters set_fw k_cur] in *. subst failed.
  destruct Hl as [L1 L2 L3 L4 L5 L6 L7 L8 L9 L10 L11]. cbn [k_cur k_free k_ready k_failed k_read_done k_active_readers k_active_writers k_free_waiters k_ready_waiters] in *.
  unfold reader_check in H. cbn [negb andb orb] in H.
  destruct (bool_decide (free = 0%nat) && bool_decide (cr_next cur < bulk_end)) eqn:E1; [|destruct (bool_decide (bulk_end <= cr_next cur)) eqn:E2].
  - apply andb_true_iff in E1 as [->%bool_decide_eq_true E1%bool_decide_eq_true]. injection H as <- <- <- <-.
    cbn [r_held r_exit r_wait r_park rparked Z.b2z after] in *. split_and!; [done|done|].
    split; cbn [k_cur k_free k_ready k_failed k_read_done k_active_readers k_active_writers k_free_waiters k_ready_waiters].
    all: try lia. all: rewrite ?Wx, ?Wp, ?Rx, ?Rp; cbn [after]; try done.
    + intros Hc. right. rewrite decide_True by done. nia.
  - apply bool_decide_eq_true in E2. injection H as <- <- <- <-.
    cbn [r_held r_exit r_wait r_park rparked Z.b2z after] in *. split_and!; [done|done|].
    assert (Hlast : bool_decide (ar - 1 = 0) = true <-> ar - 1 = 0) by apply bool_decide_eq_true.
    assert (Hrd : rd = false) by (apply not_true_is_false; rewrite L5; lia). subst rd.
    split; cbn [k_cur k_free k_ready k_failed k_read_done k_active_readers k_active_writers k_free_waiters k_ready_waiters].
    all: try lia. all: rewrite ?Wx, ?Wp, ?Rx, ?Rp; rewrite ?orb_false_r.
    + done.
    + intros Hb. by rewrite Hb.
    + intros Hs Hw. destruct (L8 Hs Hw). done.
    + intros Hs Hr. specialize (L10 Hs Hr). destruct (bool_decide (ar - 1 = 0)); cbn [after]; lia.
    + intros Hc. destruct (L11 Hc) as [?|Hn]; [left; lia|right]. cbv zeta in *. rewrite decide_False in * by lia. by rewrite Z.add_0_r, Z.sub_0_r.
  - apply bool_decide_eq_false in E2. destruct (claim_batch _ _ _ _ _ _) as [[l free'] cur'] eqn:Ecl. injection H as <- <- <- <-.
    apply claim_batch_spec in Ecl as (C1 & -> & _ & _ & C3 & _ & C4); [|done].
    assert (Hfree : (0 < free' + length l)%nat).
    { destruct (decide (free' + length l = 0)%nat) as [E|]; [|lia]. rewrite bool_decide_eq_true_2, bool_decide_eq_true_2 in E1 by lia. done. }
    specialize (C4 ltac:(lia) ltac:(lia) ltac:(lia)).
    cbn [r_held r_exit r_wait r_park rparked Z.b2z after] in *. unfold zlen in *. split_and!; [done|cbn; lia|].
    split; cbn [k_cur k_free k_ready k_failed k_read_done k_active_readers k_active_writers k_free_waiters k_ready_waiters].
    all: unfold zlen in *; try lia. all: rewrite ?Wx, ?Wp, ?Rx, ?Rp; cbn [after]; try done.
    + intros Hc. destruct (L11 Hc) as [?|Hn]; [left; lia|right]. cbv zeta in *.
      rewrite decide_True in Hn by lia. replace (sumZ r_park rs - 0 + 0) with (sumZ r_park rs) by lia.
      destruct (decide (cr_next cur' < bulk_end)); lia.
Qed.

Lemma live_return s i batch s' p f r rs ws rs' ws' stop :
  live s rs ws stop -> length rs = readers -> length ws = writers -> rs !! i = Some (RReading batch) -> rbatch_ok (RReading batch) ->
  reader_return src true batch s = (s', p, f, r) -> k_failed s = false ->
  rmoved f (RReading batch) p rs rs' -> wstayed r ws ws' -> k_failed s' = false /\ rbatch_ok p /\ live s' rs' ws' stop.
Proof.
  intros Hl Hlen Hlenw Hi Hb H Hf [_ Rh Rx Rw Rp _ _] [Wl Wh Wx Ww Wp _ _].
  pose proof (r_at rs i _ Hi) as (A1 & A2 & A3). pose proof (r_bounds rs) as B. pose proof (w_bounds ws) as BW.
  unfold zlen in A2, A3, BW. rewrite Hlen in A2, A3. rewrite Hlenw in BW. cbn [r_held r_exit r_wait r_park rparked Z.b2z] in *.
  destruct s as [cur free ready failed rd ar aw fw rw]. cbn [k_failed] in *. subst failed.
  destruct Hl as [L1 L2 L3 L4 L5 L6 L7 L8 L9 L10 L11]. cbn [k_cur k_free k_ready k_failed k_read_done k_active_readers k_active_writers k_free_waiters k_ready_waiters] in *.
  cbn [reader_return orb negb] in H. set (l := _ <$> batch) in H.
  assert (El : zlen l = zlen batch) by (unfold zlen, l; by rewrite length_fmap). injection H as <- <- <- <-.
  assert (Hrd : rd = false) by (apply not_true_is_false; rewrite L5; lia). subst rd.
  cbn [r_held r_exit r_wait r_park rparked Z.b2z after rbatch_ok] in *. split_and!; [done|done|].
  split; cbn [k_cur k_free k_ready k_failed k_read_done k_active_readers k_active_writers k_free_waiters k_ready_waiters].
  all: rewrite ?zlen_app, ?El, ?Wx, ?Wp, ?Rx, ?Rp; try done; try lia.
  - intros Hs Hw. by destruct (L8 Hs Hw).
  - intros Hs _. destruct (decide (0 < sumZ w_exit ws)) as [Hw|Hw]; [by destruct (L8 Hs Hw)|].
    destruct (bool_decide (0 < rw)) eqn:Erw; cbn [after]; [lia|]. apply bool_decide_eq_false in Erw. lia.
  - intros Hc. destruct (L11 Hc) as [?|Hn]; [left; lia|right]. by rewrite Z.add_0_r, Z.sub_0_r.
Qed.

Lemma live_wcheck s i q s' p rs ws rs' ws' stop stop' :
  live s rs ws stop -> length rs = readers -> length ws = writers -> q = WTop \/ q = WWoken -> ws !! i = Some q -> k_failed s = false ->
  (stop = true -> stop' = true) ->
  writer_check batch_max stop' (set_rw (k_ready_waiters s - w_wait q) s) = (s', p) ->
  rstayed Quiet rs rs' -> wmoved Quiet q p ws ws' -> k_failed s' = false /\ batch_ok p /\ live s' rs' ws' stop'.
Proof.
  intros Hl Hlen Hlenw Hq Hi Hf Hst H [_ Rh Rx Rw Rp _ _] [Wl Wh Wx Ww Wp _ _].
  pose proof (w_at ws i q Hi) as (A1 & A2 & A3). pose proof (r_bounds rs) as B. pose proof (w_bounds ws) as BW.
  assert (Q : w_held q = 0 /\ w_exit q = 0 /\ w_park q = 0) by (by destruct Hq; subst). destruct Q as (Q1 & Q2 & Q3).
  rewrite Q1, Q2, Q3 in *. unfold zlen in A2, A3, BW. rewrite Hlenw in A2, A3, BW.
  destruct s as [cur free ready failed rd ar aw fw rw]. cbn [k_failed k_ready_waiters set_rw] in *. subst failed.
  destruct Hl as [L1 L2 L3 L4 L5 L6 L7 L8 L9 L10 L11]. cbn [k_cur k_free k_ready k_failed k_read_done k_active_readers k_active_writers k_free_waiters k_ready_waiters] in *.
  assert (Hs : stop' = false -> stop = false) by (destruct stop, stop'; naive_solver).
  unfold writer_check in H. cbn [negb andb orb] in H. destruct (bool_decide (ready = [])) eqn:Er.
  - apply bool_decide_eq_true in Er. subst ready. destruct rd; cbn [negb andb orb] in H; [rewrite orb_true_r in H|].
    + injection H as <- <-. cbn [w_held w_exit w_wait w_park wparked Z.b2z after] in *. split_and!; [done|done|].
      split; cbn [k_cur k_free k_ready k_failed k_read_done k_active_readers k_active_writers k_free_waiters k_ready_waiters].
      all: rewrite ?Wx, ?Wp, ?Rx, ?Rp; cbn [after]; try done; try lia.
    + injection H as <- <-. cbn [w_held w_exit w_wait w_park wparked Z.b2z after] in *. split_and!; [done|done|].
      split; cbn [k_cur k_free k_ready k_failed k_read_done k_active_readers k_active_writers k_free_waiters k_ready_waiters].
      all: rewrite ?Wx, ?Wp, ?Rx, ?Rp; cbn [after]; try done; try lia.
      intros Hs' Hw. apply (L8 (Hs Hs')). lia.
  - apply bool_decide_eq_false in Er. cbn [andb orb] in H. rewrite orb_false_r in H. destruct stop'; cbn [orb] in H.
    + injection H as <- <-. cbn [w_held w_exit w_wait w_park wparked Z.b2z after] in *. split_and!; [done|done|].
      split; cbn [k_cur k_free k_ready k_failed k_read_done k_active_readers k_active_writers k_free_waiters k_ready_waiters].
      all: rewrite ?Wx, ?Wp, ?Rx, ?Rp; cbn [after]; try done; try lia.
      intros ->%L7. lia.
    + injection H as <- <-. cbn [w_held w_exit w_wait w_park wparked Z.b2z after] in *.
      assert (Hlr : (1 <= length (take batch_max ready) <= batch_max)%nat).
      { rewrite length_take. destruct ready; [done|cbn [length]; lia]. }
      assert (Hz : zlen ready = zlen (take batch_max ready) + zlen (drop batch_max ready)) by (by rewrite <- zlen_app, take_drop).
      unfold zlen in Hz. split_and!; [done|cbn [batch_ok]; lia|]. specialize (Hs eq_refl).
      split; cbn [k_cur k_free k_ready k_failed k_read_done k_active_readers k_active_writers k_free_waiters k_ready_waiters].
      all: rewrite ?Wx, ?Wp, ?Rx, ?Rp; cbn [after]; unfold zlen in *; try done; try lia.
      * intros ->%L7. lia.
      * intros _ Hw. destruct (L8 Hs) as [_ ?]; [lia|done].
Qed.

Lemma live_written s i n todo s' p f r rs ws rs' ws' stop :
  live s rs ws stop -> length rs = readers -> length ws = writers -> ws !! i = Some (WWriting n todo) -> batch_ok (WWriting n todo) ->
  writer_return true n s = (s', p, f, r) -> k_failed s = false ->
  rstayed f rs rs' -> wmoved r (WWriting n todo) p ws ws' -> k_failed s' = false /\ batch_ok p /\ live s' rs' ws' stop.
Proof.
  intros Hl Hlen Hlenw Hi [Hb _] H Hf [_ Rh Rx Rw Rp _ _] [Wl Wh Wx Ww Wp _ _].
  pose proof (w_at ws i _ Hi) as (A1 & A2 & A3). pose proof (r_bounds rs) as B. pose proof (w_bounds ws) as BW.
  unfold zlen in A2, A3, B, BW. rewrite Hlenw in A2, A3, BW. rewrite Hlen in B. cbn [w_held w_exit w_wait w_park wparked Z.b2z] in *.
  destruct s as [cur free ready failed rd ar aw fw rw]. cbn [k_failed] in *. subst failed.
  destruct Hl as [L1 L2 L3 L4 L5 L6 L7 L8 L9 L10 L11]. cbn [k_cur k_free k_ready k_failed k_read_done k_active_readers k_active_writers k_free_waiters k_ready_waiters] in *.
  cbn [writer_return orb negb] in H. injection H as <- <- <- <-. subst fw.
  cbn [w_held w_exit w_wait w_park wparked Z.b2z after batch_ok] in *. split_and!; [done|done|].
  assert (Hp : sumZ r_park rs' = Z.max 0 (sumZ r_park rs - 1) \/ sumZ r_park rs = 0 /\ sumZ r_wait rs = 0 /\ sumZ r_park rs' = 0).
  { rewrite Rp. destruct (bool_decide (0 < sumZ r_wait rs)) eqn:E; cbn [after]; [by left|]. apply bool_decide_eq_false in E. lia. }
  split; cbn [k_cur k_free k_ready k_failed k_read_done k_active_readers k_active_writers k_free_waiters k_ready_waiters].
  all: rewrite ?Wx, ?Wp, ?Rx; try done; try lia.
  - intros ->%L7. lia.
  - intros Hs Hw. apply (L8 Hs). lia.
  - intros Hc. destruct (L11 Hc) as [?|Hn]; [left; lia|]. destruct (decide (sumZ r_park rs' = 0)); [by left|right]. cbv zeta in *.
    replace (sumZ r_park rs') with (sumZ r_park rs - 1) by lia. destruct (decide (cr_next cur < bulk_end)); nia.
Qed.

(** ** Every step *)

Lemma after_zero g : after g 0 = 0.
Proof. by destruct g. Qed.

Lemma cinv_rmoved y i q p g g' s rs ws :
  cinv y -> p_readers y !! i = Some q -> gone_r q = false -> started_r p = true -> rbatch_ok p ->
  rmoved g q p (p_readers y) rs -> wstayed g' (p_writers y) ws ->
  (k_failed s = false -> live s rs ws (p_stop y)) ->
  (k_failed s = true -> sumZ r_park rs = 0 /\ sumZ w_park ws = 0) ->
  cinv (LSys s rs ws (p_stop y) (p_dest y) (p_fin y)).
Proof.
  intros [C1 C2 C3 C4 C5 C6 C7 C8] Hq Hg Hsp Hb [Rl _ _ _ _ _ Ra] [Wl _ _ _ _ _ Wa] Hl Hf.
  split; cbn [p_readers p_writers p_pipe p_stop p_dest p_fin]; [congruence|congruence|by apply Ra|by apply Wa|done|done| |].
  - intros Hfin. destruct (C7 Hfin). split; [by apply Ra|by apply Wa].
  - intros b Hfin. destruct (C8 b Hfin) as (Hr & _). pose proof (Forall_lookup_1 _ _ _ _ Hr Hq) as E. simpl in E. congruence.
Qed.
Lemma cinv_wmoved y i q p g g' s rs ws stop :
  cinv y -> p_writers y !! i = Some q -> gone_w q = false -> started_w p = true -> batch_ok p ->
  rstayed g (p_readers y) rs -> wmoved g' q p (p_writers y) ws ->
  (k_failed s = false -> live s rs ws stop) ->
  (k_failed s = true -> sumZ r_park rs = 0 /\ sumZ w_park ws = 0) ->
  cinv (LSys s rs ws stop (p_dest y) (p_fin y)).
Proof.
  intros [C1 C2 C3 C4 C5 C6 C7 C8] Hq Hg Hsp Hb [Rl _ _ _ _ _ Ra] [Wl _ _ _ _ _ Wa] Hl Hf.
  split; cbn [p_readers p_writers p_pipe p_stop p_dest p_fin]; [congruence|congruence|by apply Ra|by apply Wa|done|done| |].
  - intros Hfin. destruct (C7 Hfin). split; [by apply Ra|by apply Wa].
  - intros b Hfin. destruct (C8 b Hfin) as (_ & Hr & _). pose proof (Forall_lookup_1 _ _ _ _ Hr Hq) as E. simpl in E. congruence.
Qed.

(** A reader or writer that sees the failure leaves. *)
Lemma reader_check_failed s s' p f r :
  k_failed s = true -> reader_check extents bulk_end chunk_size batch_max s = (s', p, f, r) -> k_failed s' = true /\ p = RExit.
Proof. destruct s as [cur free ready failed rd ar aw fw rw]. cbn. intros ->. cbn. by intros [= <- <- _ _]. Qed.
Lemma writer_check_failed stop s s' p :
  k_failed s = true -> writer_check batch_max stop s = (s', p) -> k_failed s' = true /\ started_w p = true /\ batch_ok p /\ wparked p = false.
Proof.
  destruct s as [cur free ready failed rd ar aw fw rw]. cbn. intros ->. cbn. destruct (stop || _ || _) eqn:E; intros [= <- <-]; [done|].
  split_and!; [done|done| |done]. cbn [batch_ok]. destruct ready; [by rewrite bool_decide_eq_true_2, orb_true_r in E|].
  rewrite length_take. cbn [length]. lia.
Qed.

Lemma cinv_reader i y y' : dinv_of y -> cinv y -> step (AReader i) y = Some y' -> cinv y'.
Proof.
  intros Hd Hc H. unfold lstep in H. destruct (p_readers y !! i) as [q|] eqn:Hq; [|done].
  assert (Hmv : forall s0 s p f r f' r', (q = RTop \/ q = RWoken) ->
    reader_check extents bulk_end chunk_size batch_max s0 = (s, p, f, r) -> reader_moves i 0 0 (s, p, f', r') y = Some y' ->
    (k_failed (p_pipe y) = false /\ s0 = set_fw (k_free_waiters (p_pipe y) - r_wait q) (p_pipe y) /\ f' = f /\ r' = r) \/
    (k_failed s0 = true /\ (k_failed (p_pipe y) = true \/ f' = All /\ r' = All)) -> cinv y').
  { intros s0 s p f r f' r' Hq' E Hm Hor. assert (Hg : gone_r q = false /\ r_park q = 0) by (by destruct Hq'; subst). destruct Hg as [Hg Hp0].
    eapply reader_moved in Hm as (rs & ws & -> & Hr & Hw); [|exact Hq]. destruct Hor as [(Hf & -> & -> & ->)|[Hf Hor]].
    - destruct (live_check _ i q _ _ _ _ _ _ _ _ (p_stop y) (d_cur _ _ _ _ Hd) (c_live _ Hc Hf) (c_rs _ Hc) Hq' Hq Hf E Hr Hw) as (H1 & H2 & H3).
      assert (Hsp : started_r p = true).
      { clear -E. destruct (p_pipe y) as [cur free ready failed rd ar aw fw rw]. cbn in E.
        destruct (negb failed && _ && _); [by simplify_eq|]. destruct (failed || _); [by simplify_eq|].
        destruct (claim_batch _ _ _ _ _ _) as [[? ?] ?]. by simplify_eq. }
      eapply (cinv_rmoved y i _ p); [done|done|done|exact Hsp|done|exact Hr|exact Hw|by intros _|congruence].
    - destruct (reader_check_failed _ _ _ _ _ Hf E) as [Hf' ->].
      eapply (cinv_rmoved y i _ RExit); [done|done|done|done|done|exact Hr|exact Hw|congruence|intros _].
      rewrite (rm_park _ _ _ _ _ Hr), (ws_park _ _ _ Hw), Hp0. cbn [r_park rparked Z.b2z]. destruct Hor as [Hf0|[-> ->]]; [|done].
      destruct (c_failed _ Hc Hf0) as [-> ->]. by rewrite !after_zero. }
  destruct q; try done.
  - unfold reader_top in H. destruct (p_stop y && negb (k_failed (p_pipe y))) eqn:Es.
    + destruct (reader_check _ _ _ _ _) as [[[s p] f] r] eqn:E. eapply Hmv; [by left|exact E|exact H|]. right. split; [done|by right].
    + destruct (reader_check _ _ _ _ _) as [[[s p] f] r] eqn:E. eapply Hmv; [by left|exact E|exact H|].
      destruct (k_failed (p_pipe y)) eqn:Hf; [right; split; [done|by left]|left]. split_and!; [done| |done|done].
      destruct (p_pipe y). cbn. by rewrite Z.sub_0_r.
  - destruct (reader_wake _ _ _ _ _) as [[[s p] f] r] eqn:E. unfold reader_wake in E.
    destruct (k_failed (p_pipe y)) eqn:Hf; destruct (p_pipe y) as [cur free ready failed rd ar aw fw rw] eqn:Ep.
    + eapply Hmv; [by right|exact E|exact H|]. right. split; [done|by left].
    + eapply Hmv; [by right|exact E|exact H|]. left. done.
Qed.

Lemma cinv_read i ok k y y' : cinv y -> step (ARead i ok k) y = Some y' -> cinv y'.
Proof.
  intros Hc H. unfold lstep in H. destruct (p_readers y !! i) as [q|] eqn:Hq; [|done]. destruct q as [| | | |batch|]; try done.
  destruct (reader_return _ _ _ _) as [[[s p] f] r] eqn:E. eapply reader_moved in H as (rs & ws & -> & Hr & Hw); [|exact Hq].
  pose proof (Forall_lookup_1 _ _ _ _ (c_rbatch _ Hc) Hq) as Hb.
  destruct (k_failed (p_pipe y) || negb ok) eqn:Ef.
  - assert (Es : k_failed s = true /\ p = RExit /\ f = All /\ r = (if ok then Quiet else All)).
    { clear -E Ef. destruct (p_pipe y) as [cur free ready failed rd ar aw fw rw]. cbn [k_failed] in Ef. unfold reader_return in E. rewrite Ef in E. by simplify_eq. }
    destruct Es as (Es & -> & -> & ->). eapply (cinv_rmoved y i _ RExit); [done|done|done|done|done|exact Hr|exact Hw|congruence|intros _].
    rewrite (rm_park _ _ _ _ _ Hr), (ws_park _ _ _ Hw). split; [done|]. destruct ok; [|done]. cbn [negb orb] in Ef.
    rewrite orb_false_r in Ef. by destruct (c_failed _ Hc Ef) as [_ ->].
  - apply orb_false_iff in Ef as [Hf ->%negb_false_iff].
    destruct (live_return _ i batch _ _ _ _ _ _ _ _ (p_stop y) (c_live _ Hc Hf) (c_rs _ Hc) (c_ws _ Hc) Hq Hb E Hf Hr Hw) as (H1 & H2 & H3).
    assert (Hsp : started_r p = true).
    { clear -E. destruct (p_pipe y) as [cur free ready failed rd ar aw fw rw]. cbn in E. destruct (failed || _); by simplify_eq. }
    eapply (cinv_rmoved y i _ p); [done|done|done|exact Hsp|done|exact Hr|exact Hw|by intros _|congruence].
Qed.

Lemma cinv_writer i stop' y y' : cinv y -> step (AWriter i stop') y = Some y' -> cinv y'.
Proof.
  intros Hc H. unfold lstep in H. destruct (p_stop y && negb stop') eqn:Hst; [done|].
  assert (Hst' : p_stop y = true -> stop' = true) by (intros E; rewrite E in Hst; by apply negb_false_iff in Hst).
  destruct (p_writers y !! i) as [q|] eqn:Hq; [|done].
  assert (Hmv : forall s0 s p g, (q = WTop \/ q = WWoken) ->
    writer_check batch_max stop' s0 = (s, p) -> writer_moves i 0 0 (s, p, g, g) (set_stop stop' y) = Some y' ->
    (k_failed (p_pipe y) = false /\ s0 = set_rw (k_ready_waiters (p_pipe y) - w_wait q) (p_pipe y) /\ g = Quiet) \/
    (k_failed s0 = true /\ (k_failed (p_pipe y) = true \/ g = All)) -> cinv y').
  { intros s0 s p g Hq' E Hm Hor. assert (Hg : gone_w q = false /\ w_park q = 0) by (by destruct Hq'; subst). destruct Hg as [Hg Hp0].
    eapply (writer_moved _ _ _ _ _ _ _ _ q) in Hm as (rs & ws & -> & Hr & Hw); [|exact Hq]. cbn [p_readers p_writers p_stop p_dest p_fin set_stop] in *.
    destruct Hor as [(Hf & -> & ->)|[Hf Hor]].
    - destruct (live_wcheck _ i q _ _ _ _ _ _ (p_stop y) stop' (c_live _ Hc Hf) (c_rs _ Hc) (c_ws _ Hc) Hq' Hq Hf Hst' E Hr Hw) as (H1 & H2 & H3).
      assert (Hsp : started_w p = true).
      { clear -E. destruct (p_pipe y) as [cur free ready failed rd ar aw fw rw]. cbn in E.
        destruct (negb failed && _ && _); [by simplify_eq|]. destruct (stop' || _ || _); by simplify_eq. }
      eapply (cinv_wmoved y i _ p); [done|done|done|exact Hsp|done|exact Hr|exact Hw|by intros _|congruence].
    - destruct (writer_check_failed _ _ _ _ Hf E) as (Hf' & Hsp & Hb & Hp).
      eapply (cinv_wmoved y i _ p); [done|done|done|exact Hsp|done|exact Hr|exact Hw|congruence|intros _].
      rewrite (rs_park _ _ _ Hr), (wm_park _ _ _ _ _ Hw), Hp0. unfold w_park at 2. rewrite Hp. destruct Hor as [Hf0| ->]; [|done].
      destruct (c_failed _ Hc Hf0) as [-> ->]. by rewrite !after_zero. }
  destruct q; try done.
  - unfold writer_top in H. destruct (p_stop y && negb (k_failed (p_pipe y))) eqn:Es.
    + destruct (writer_check _ _ _) as [s p] eqn:E. eapply Hmv; [by left|exact E|exact H|]. right. split; [done|by right].
    + destruct (writer_check _ _ _) as [s p] eqn:E. eapply Hmv; [by left|exact E|exact H|].
      destruct (k_failed (p_pipe y)) eqn:Hf; [right; split; [done|by left]|left]. split_and!; [done| |done].
      destruct (p_pipe y). cbn. by rewrite Z.sub_0_r.
  - unfold writer_wake in H.
    destruct (k_failed (p_pipe y)) eqn:Hf; destruct (p_pipe y) as [cur free ready failed rd ar aw fw rw] eqn:Ep;
      destruct (writer_check _ _ _) as [s p] eqn:E.
    + eapply Hmv; [by right|exact E|exact H|]. right. split; [done|by left].
    + eapply Hmv; [by right|exact E|exact H|]. left. done.
Qed.

Lemma cinv_written i ok k y y' : cinv y -> step (AWritten i ok k) y = Some y' -> cinv y'.
Proof.
  intros Hc H. unfold lstep in H. destruct (p_writers y !! i) as [q|] eqn:Hq; [|done]. destruct q as [| | | |n todo|]; try done.
  destruct (ok && _); [done|]. destruct (writer_return _ _ _) as [[[s p] f] r] eqn:E.
  eapply writer_moved in H as (rs & ws & -> & Hr & Hw); [|exact Hq]. pose proof (Forall_lookup_1 _ _ _ _ (c_batch _ Hc) Hq) as Hb.
  assert (Es : k_failed s = negb ok || k_failed (p_pipe y) /\ p = (if ok then WTop else WExit) /\ (ok = false -> f = All /\ r = All) /\ (ok = true -> r = Quiet)).
  { clear -E. destruct (p_pipe y). unfold writer_return in E. simplify_eq. by destruct ok. }
  destruct Es as (Es & -> & Hfr & Hr'). destruct (k_failed s) eqn:Efs.
  - eapply (cinv_wmoved y i _ (if ok then WTop else WExit)); [done|done|done|by destruct ok|by destruct ok|exact Hr|exact Hw|congruence|intros _].
    rewrite (rs_park _ _ _ Hr), (wm_park _ _ _ _ _ Hw). destruct ok; [|by destruct Hfr as [-> ->]].
    cbn [negb orb] in Es. destruct (c_failed _ Hc (eq_sym Es)) as [-> ->]. by rewrite !after_zero.
  - symmetry in Es. apply orb_false_iff in Es as [->%negb_false_iff Hf].
    destruct (live_written _ i n todo _ _ _ _ _ _ _ _ (p_stop y) (c_live _ Hc Hf) (c_rs _ Hc) (c_ws _ Hc) Hq Hb E Hf Hr Hw) as (H1 & H2 & H3).
    eapply (cinv_wmoved y i _ WTop); [done|done|done|done|done|exact Hr|exact Hw|by intros _|congruence].
Qed.

Lemma live_stopping s rs ws stop : live s rs ws stop -> live s rs ws true.
Proof. intros []. by split. Qed.

Lemma wake_parks y : sumZ r_park (rwake <$> p_readers y) = 0 /\ sumZ w_park (wwake <$> p_writers y) = 0.
Proof. split; apply sumZ_zero, Forall_fmap, Forall_true; by intros []. Qed.

Lemma unborn_parks rs ws : sumZ r_park (unborn_r <$> rs) = sumZ r_park rs /\ sumZ w_park (unborn_w <$> ws) = sumZ w_park ws.
Proof. split; apply sumZ_fmap; by intros []. Qed.

Lemma cinv_fail y : (forall b, p_fin y <> Finished b) -> cinv y -> cinv (fail_all y).
Proof.
  intros Hfin [C1 C2 C3 C4 C5 C6 C7 C8]. split; cbn [fail_all p_readers p_writers p_pipe p_stop p_dest p_fin k_failed mark_large_file_failed_locked].
  - by rewrite length_fmap.
  - by rewrite length_fmap.
  - apply Forall_fmap. eapply Forall_impl; [exact C3|]. by intros [].
  - apply Forall_fmap. eapply Forall_impl; [exact C4|]. by intros [].
  - done.
  - intros _. apply wake_parks.
  - intros Hf. destruct (C7 Hf). split; apply Forall_fmap; (eapply Forall_impl; [eassumption|]); by intros [].
  - intros b Hb. by destruct (Hfin b).
Qed.

(** A thread starts: it held and counted as nothing, and still does. *)
Lemma insert_sum {P} (f : P -> Z) i q p ps : ps !! i = Some q -> f p = f q -> sumZ f (<[i := p]> ps) = sumZ f ps.
Proof. intros Hi E. rewrite (sumZ_insert _ _ _ _ _ Hi). lia. Qed.

Lemma live_sums s rs ws rs' ws' stop :
  live s rs ws stop -> (forall f, f RTop = f RUnborn -> sumZ f rs' = sumZ f rs) -> (forall f, f WTop = f WUnborn -> sumZ f ws' = sumZ f ws) ->
  live s rs' ws' stop.
Proof. intros [] Hr Hw. split; rewrite ?(Hr r_held), ?(Hr r_exit), ?(Hr r_wait), ?(Hr r_park), ?(Hw w_held), ?(Hw w_exit), ?(Hw w_wait), ?(Hw w_park); done. Qed.

Lemma cinv_start y rs ws :
  cinv y -> p_fin y = Starting -> length rs = readers -> length ws = writers ->
  (forall f, f RTop = f RUnborn -> sumZ f rs = sumZ f (p_readers y)) -> (forall f, f WTop = f WUnborn -> sumZ f ws = sumZ f (p_writers y)) ->
  Forall rbatch_ok rs -> Forall batch_ok ws -> cinv (set_writers ws (set_readers rs y)).
Proof.
  intros [C1 C2 C3 C4 C5 C6 C7 C8] Hs Hr Hw Fr Fw Hrb Hwb. split; cbn [p_readers p_writers p_pipe p_stop p_dest p_fin set_writers set_readers]; try done.
  - intros Hf. by apply (live_sums _ (p_readers y) (p_writers y)); [by apply C5|done|done].
  - intros Hf. rewrite (Fr r_park), (Fw w_park) by done. by apply C6.
  - intros b Hb. by rewrite Hs in Hb.
Qed.

Lemma cinv_step a y y' : dinv_of y -> cinv y -> step a y = Some y' -> cinv y'.
Proof.
  intros Hd Hc H. pose proof Hc as [C1 C2 C3 C4 C5 C6 C7 C8]. destruct a as [i|i| | |i|i ok k|i stop'|i w|i ok k| | |ok].
  - unfold lstep in H. destruct (p_fin y) eqn:Ef, (p_readers y !! i) as [[]|] eqn:Hq; try done. injection H as <-.
    set (rs := <[i := RTop]> (p_readers y)). apply (cinv_start y rs (p_writers y)); try done; subst rs; [by rewrite length_insert|intros f E; by eapply insert_sum|by apply Forall_insert].
  - unfold lstep in H. destruct (p_fin y) eqn:Ef, (p_writers y !! i) as [[]|] eqn:Hq; try done. destruct (forallb _ _); [|done]. injection H as <-.
    set (ws := <[i := WTop]> (p_writers y)). apply (cinv_start y (p_readers y) ws); try done; subst ws; [by rewrite length_insert|intros f E; by eapply insert_sum|by apply Forall_insert].
  - unfold lstep in H. destruct (p_fin y); try done. destruct (forallb _ _ && _) eqn:E; [|done]. injection H as <-.
    apply andb_true_iff in E as [Er Ew]. apply forallb_Forall in Er, Ew. split; cbn [p_readers p_writers p_pipe p_stop p_dest p_fin set_fin]; try done.
  - unfold lstep in H. destruct (p_fin y) eqn:Ef; simplify_eq. assert (Hfail : cinv (fail_all y)) by (apply cinv_fail; [by rewrite Ef|done]).
    destruct Hfail as [D1 D2 D3 D4 D5 D6 D7 D8]. destruct (unborn_parks (rwake <$> p_readers y) (wwake <$> p_writers y)) as [Pr Pw].
    split; cbn [p_readers p_writers p_pipe p_stop p_dest p_fin set_fin set_writers set_readers fail_all] in *; try done.
    + by rewrite length_fmap.
    + by rewrite length_fmap.
    + apply Forall_fmap. eapply Forall_impl; [exact D3|]. by intros [].
    + apply Forall_fmap. eapply Forall_impl; [exact D4|]. by intros [].
    + intros _. by rewrite Pr, Pw; apply wake_parks.
    + intros _. split; apply Forall_fmap, Forall_true; by intros [].
  - by eapply cinv_reader.
  - by eapply cinv_read.
  - by eapply cinv_writer.
  - unfold lstep in H. destruct (p_writers y !! i) as [[| | | |n todo|]|] eqn:Hq; try done.
    apply bind_Some in H as ([todo' dest] & Hwr & [= <-]). pose proof (Forall_lookup_1 _ _ _ _ C4 Hq) as Hb. cbn [batch_ok] in Hb.
    assert (Hl : (length todo' <= length todo)%nat).
    { destruct todo as [|[off data] todo]; [done|]. cbn [written_part] in Hwr. destruct (decide _); [|done]. simplify_eq. cbn [length]. destruct (drop w data); cbn [length]; lia. }
    assert (Fw : forall f, f (WWriting n todo') = f (WWriting n todo) -> sumZ f (<[i := WWriting n todo']> (p_writers y)) = sumZ f (p_writers y))
      by (intros f E; by eapply insert_sum).
    split; cbn [p_readers p_writers p_pipe p_stop p_dest p_fin set_dest set_writers]; try done.
    + by rewrite length_insert.
    + apply Forall_insert; [done|]. cbn [batch_ok]. lia.
    + intros Hf. destruct (C5 Hf) as [L1 L2 L3 L4 L5 L6 L7 L8 L9 L10 L11].
      split; rewrite ?(Fw w_held), ?(Fw w_exit), ?(Fw w_wait), ?(Fw w_park); done.
    + intros Hf. rewrite (Fw w_park) by done. by apply C6.
    + intros Hf. destruct (C7 Hf). split; [done|]. by apply Forall_insert.
    + intros b Hf. destruct (C8 b Hf) as (_ & Hw & _). pose proof (Forall_lookup_1 _ _ _ _ Hw Hq) as E. done.
  - by eapply cinv_written.
  - unfold lstep in H. destruct (p_stop y); simplify_eq. split; cbn [p_readers p_writers p_pipe p_stop p_dest p_fin set_stop]; try done.
    intros Hf. by eapply live_stopping, C5.
  - unfold lstep in H. destruct (p_fin y) eqn:Ef; try done; (destruct (_ && _); [|done]); simplify_eq; apply cinv_fail; by rewrite ?Ef.
  - unfold lstep in H. destruct (p_fin y) eqn:Ef; try done. destruct (forallb _ _ && _) eqn:E; [|done]. injection H as <-.
    apply andb_true_iff in E as [Er Ew]. apply forallb_Forall in Er, Ew. split; cbn [p_readers p_writers p_pipe p_stop p_dest p_fin set_fin]; try done.
    + intros _. by apply C7.
    + intros b [= <-]. split_and!; [done|done|].
      intros [_ ?%negb_true_iff]%andb_true_iff. done.
Qed.

(** ** The start *)

Local Abbreviation start := (lsys0 extents bulk_end inflight readers writers).

Lemma dinv_start : dinv_of start.
Proof.
  assert (E1 : concat (rpend <$> replicate readers RUnborn) = []) by (generalize readers; intros n; induction n; [done|by rewrite replicate_S, fmap_cons]).
  assert (E2 : concat (wbufs <$> replicate writers WUnborn) = []) by (generalize writers; intros n; induction n; [done|by rewrite replicate_S, fmap_cons]).
  destruct (cursor0_ok extents bulk_end Hend Hext) as [Hc Ha].
  split; unfold pend, bufs; cbn [lsys0 p_pipe p_readers p_writers p_dest k_cur k_ready k_failed]; rewrite ?E1, ?E2; cbn [app fmap list_fmap].
  - done.
  - by constructor.
  - by constructor.
  - by intros x v.
  - intros _ x Hx. left. by apply Ha.
Qed.

Lemma cinv_start0 : cinv start.
Proof.
  assert (Er : forall f, f RUnborn = 0 -> sumZ f (replicate readers RUnborn) = 0) by (intros; by apply sumZ_replicate).
  assert (Ew : forall f, f WUnborn = 0 -> sumZ f (replicate writers WUnborn) = 0) by (intros; by apply sumZ_replicate).
  split; cbn [lsys0 p_pipe p_readers p_writers p_dest p_stop p_fin k_failed]; try done.
  - by rewrite length_replicate.
  - by rewrite length_replicate.
  - by apply Forall_replicate.
  - by apply Forall_replicate.
  - intros _. split; rewrite ?(Er r_held), ?(Er r_exit), ?(Er r_wait), ?(Er r_park), ?(Ew w_held), ?(Ew w_exit), ?(Ew w_wait), ?(Ew w_park) by done;
      cbn [k_cur k_free k_ready k_failed k_read_done k_active_readers k_active_writers k_free_waiters k_ready_waiters].
    all: try done; rewrite ?(@zlen_nil buffer); try lia.
Qed.

Lemma reach_inv y : rtc (lrel extents bulk_end chunk_size src batch_max) start y -> dinv_of y /\ cinv y.
Proof.
  intros H. assert (Hd : dinv_of start) by apply dinv_start. assert (Hc : cinv start) by apply cinv_start0. revert Hd Hc.
  induction H as [y|y1 y2 y3 [a Ha] _ IH]; [done|]. intros Hd Hc. apply IH; [by eapply dinv_step|by eapply cinv_step].
Qed.
End inv.
