(* ===== verification/LargePipeLive.v ===== *)
(** What the large-file pipeline achieves: a committed copy holds the source's
    data, every run ends, and a run that cannot go on has finished, provided
    the readers are few enough for the buffers; two ways it goes wrong. *)

From S2P Require Export LargePipeInv.
From stdpp Require Import list.
#[local] Open Scope Z_scope.

Section live.
Context (extents : option (list (Z * Z))) (bulk_end chunk_size : Z) (src : Z -> byte) (batch_max : nat).
Context (inflight readers writers : nat).
Context (Hbm : (1 <= batch_max)%nat) (Hreaders : (1 <= readers)%nat) (Hwriters : (1 <= writers)%nat).
Context (Hend : 0 <= bulk_end) (Hchunk : 1 <= chunk_size)
  (Hext : match extents with Some ext => extents_ok bulk_end ext | None => True end).

Local Abbreviation step := (lstep extents bulk_end chunk_size src batch_max).
Local Abbreviation dinv_of y := (dinv extents bulk_end src (p_pipe y) (p_readers y) (p_writers y) (p_dest y)).
Local Abbreviation cinv := (cinv bulk_end batch_max inflight readers writers).

(** * Progress *)

(** A step that needs no failure and no interrupt. *)
Definition benign (a : act) : Prop :=
  match a with AStartFailed | AInterrupt => False | ARead _ ok _ | AWritten _ ok _ | AFinish ok => ok = true | _ => True end.
Definition can_go (y : lsys) : Prop := exists a y', benign a /\ step a y = Some y'.

Lemma deliver_any {P} (parked : P -> bool) wake g ps : exists i ps', wake_up parked wake g i ps = Some ps'.
Proof.
  destruct g; [by exists 0%nat, ps| |by exists 0%nat, (wake <$> ps)]. unfold wake_up.
  destruct (existsb parked ps) eqn:E; [|by exists 0%nat, ps]. apply existsb_exists in E as (p & Hp & Ep).
  apply list_elem_of_In, list_elem_of_lookup_1 in Hp as [i Hi]. exists i, (<[i := wake p]> ps). by rewrite Hi, Ep.
Qed.
Lemma deliver_not_one {P} (parked : P -> bool) wake g i ps : g <> One -> exists ps', wake_up parked wake g i ps = Some ps'.
Proof. intros H. destruct g; [by eexists|done|by eexists]. Qed.

Lemma reader_check_quiet s s' p f r :
  reader_check extents bulk_end chunk_size batch_max s = (s', p, f, r) -> f <> One /\ r <> One.
Proof.
  destruct s as [cur free ready failed rd ar aw fw rw]. cbn [reader_check]. destruct (negb failed && _ && _); [by intros [= <- <- <- <-]|].
  destruct (failed || _); [intros [= <- <- <- <-]; split; [done|by destruct (bool_decide _)]|].
  destruct (claim_batch _ _ _ _ _ _) as [[? ?] ?]. by intros [= <- <- <- <-].
Qed.
Lemma join_not_one g : g <> One -> join_signal All g <> One.
Proof. done. Qed.

Lemma reader_moves_go i s p f r y : f <> One -> r <> One -> exists y', reader_moves i 0 0 (s, p, f, r) y = Some y'.
Proof.
  intros Hf Hr. unfold reader_moves. destruct (deliver_not_one rparked rwake f 0 (<[i := p]> (p_readers y)) Hf) as [rs ->].
  destruct (deliver_not_one wparked wwake r 0 (p_writers y) Hr) as [ws ->]. by eexists.
Qed.
Lemma writer_moves_go i s p g y : g <> One -> exists y', writer_moves i 0 0 (s, p, g, g) y = Some y'.
Proof.
  intros Hf. unfold writer_moves. destruct (deliver_not_one rparked rwake g 0 (p_readers y) Hf) as [rs ->].
  destruct (deliver_not_one wparked wwake g 0 (<[i := p]> (p_writers y)) Hf) as [ws ->]. by eexists.
Qed.

Definition r_stuck (p : lreader) : bool := match p with RParked | RExit => true | _ => false end.
Definition w_stuck (p : lwriter) : bool := match p with WParked | WExit => true | _ => false end.

Lemma reader_goes y i p : p_readers y !! i = Some p -> started_r p = true -> r_stuck p = false -> can_go y.
Proof.
  intros Hi Hs Hp. destruct p as [| | | |batch|]; try done.
  - destruct (reader_top extents bulk_end chunk_size batch_max (p_stop y) (p_pipe y)) as [[[s p] f] r] eqn:E.
    assert (Hq : f <> One /\ r <> One).
    { unfold reader_top in E. destruct (p_stop y && _); [|by eapply reader_check_quiet].
      destruct (reader_check _ _ _ _ _) as [[[s1 p1] f1] r1]. by injection E as <- <- <- <-. }
    destruct (reader_moves_go i s p f r y (proj1 Hq) (proj2 Hq)) as [y' Hy]. exists (AReader i), y'. split; [done|]. unfold lstep. by rewrite Hi, E.
  - destruct (reader_wake extents bulk_end chunk_size batch_max (p_pipe y)) as [[[s p] f] r] eqn:E.
    assert (Hq : f <> One /\ r <> One) by (unfold reader_wake in E; destruct (p_pipe y); by eapply reader_check_quiet).
    destruct (reader_moves_go i s p f r y (proj1 Hq) (proj2 Hq)) as [y' Hy]. exists (AReader i), y'. split; [done|]. unfold lstep. by rewrite Hi, E.
  - destruct (reader_return src true batch (p_pipe y)) as [[[s p] f] r] eqn:E.
    assert (Hf : f <> One) by (unfold reader_return in E; destruct (p_pipe y); destruct (_ || _); by injection E as <- <- <- <-).
    destruct (deliver_not_one rparked rwake f 0 (<[i := p]> (p_readers y)) Hf) as [rs Hrs].
    destruct (deliver_any wparked wwake r (p_writers y)) as (k & ws & Hws).
    exists (ARead i true k). eexists. split; [done|]. unfold lstep. rewrite Hi, E. unfold reader_moves. rewrite Hrs. simpl. by rewrite Hws.
Qed.

Lemma writer_goes y i p : dinv_of y -> p_writers y !! i = Some p -> started_w p = true -> w_stuck p = false -> can_go y.
Proof.
  intros Hd Hi Hs Hp. destruct p as [| | | |n todo|]; try done.
  - destruct (writer_top batch_max (p_stop y) (p_stop y) (p_pipe y)) as [[s p] g] eqn:E.
    assert (Hg : g <> One) by (unfold writer_top in E; destruct (_ && _); by injection E as _ <-).
    destruct (writer_moves_go i s p g (set_stop (p_stop y) y) Hg) as [y' Hy]. exists (AWriter i (p_stop y)), y'. split; [done|].
    unfold lstep. rewrite andb_negb_r, Hi, E. done.
  - destruct (writer_wake batch_max (p_stop y) (p_pipe y)) as [[s p] g] eqn:E.
    assert (Hg : g <> One) by (unfold writer_wake in E; destruct (p_pipe y); by injection E as _ <-).
    destruct (writer_moves_go i s p g (set_stop (p_stop y) y) Hg) as [y' Hy]. exists (AWriter i (p_stop y)), y'. split; [done|].
    unfold lstep. rewrite andb_negb_r, Hi, E. done.
  - destruct todo as [|[off data] todo].
    + destruct (writer_return true n (p_pipe y)) as [[[s p] f] r] eqn:E.
      assert (Hr : r <> One) by (unfold writer_return in E; destruct (p_pipe y); by injection E as <- <- <- <-).
      destruct (deliver_any rparked rwake f (p_readers y)) as (k & rs & Hrs).
      destruct (deliver_not_one wparked wwake r 0 (<[i := p]> (p_writers y)) Hr) as [ws Hws].
      exists (AWritten i true k). eexists. split; [done|]. unfold lstep. rewrite Hi, bool_decide_eq_true_2 by done. cbn [andb negb]. rewrite E.
      unfold writer_moves. rewrite Hrs. simpl. by rewrite Hws.
    + exists (AWrite i (length data)). eexists. split; [done|]. unfold lstep. rewrite Hi. unfold written_part. rewrite decide_True; [done|].
      destruct (concat_at wbufs _ _ _ Hi) as (R & H1 & _). pose proof (d_pend _ _ _ _ _ _ _ Hd) as Hp'. unfold pend, bufs in Hp'.
      rewrite fmap_app, H1 in Hp'. cbn [wbufs] in Hp'. rewrite !Forall_app, fmap_app, fmap_cons in Hp'. destruct Hp' as (_ & _ & Hp').
      rewrite Forall_app, Forall_cons in Hp'. destruct Hp' as [[[Hl _] _] _]. unfold span, zlen in Hl. cbn [snd u_data] in Hl. lia.
Qed.

Lemma find_thread {P} (f : P -> bool) ps : (exists i p, ps !! i = Some p /\ f p = false) \/ Forall (fun p => f p = true) ps.
Proof.
  induction ps as [|p ps IH]; [by right|]. destruct (f p) eqn:E; [|left; by exists 0%nat, p].
  destruct IH as [(i & q & Hi & Hq)|H]; [left; by exists (S i), q|right; by constructor].
Qed.

Lemma stuck_sums rs : Forall (fun p => r_stuck p = true) rs -> sumZ r_held rs = 0 /\ sumZ r_park rs + sumZ r_exit rs = zlen rs.
Proof.
  induction 1 as [|p rs Hp _ IH]; [done|]. rewrite zlen_cons. cbn [sumZ foldr]. unfold sumZ in IH.
  destruct p; try done; cbn [r_held r_park rparked Z.b2z r_exit]; lia.
Qed.
Lemma w_stuck_sums ws : Forall (fun p => w_stuck p = true) ws -> sumZ w_held ws = 0 /\ sumZ w_park ws + sumZ w_exit ws = zlen ws.
Proof.
  induction 1 as [|p ws Hp _ IH]; [done|]. rewrite zlen_cons. cbn [sumZ foldr]. unfold sumZ in IH.
  destruct p; try done; cbn [w_held w_park wparked Z.b2z w_exit]; lia.
Qed.
Lemma all_gone rs : Forall (fun p => r_stuck p = true) rs -> sumZ r_park rs = 0 -> forallb gone_r rs = true.
Proof.
  intros H Hp. apply forallb_Forall. apply sumZ_zero_inv in Hp; [|by intros []].
  rewrite Forall_forall in H, Hp |- *. intros p Hin. specialize (H p Hin). specialize (Hp p Hin). by destruct p.
Qed.
Lemma w_all_gone ws : Forall (fun p => w_stuck p = true) ws -> sumZ w_park ws = 0 -> forallb gone_w ws = true.
Proof.
  intros H Hp. apply forallb_Forall. apply sumZ_zero_inv in Hp; [|by intros []].
  rewrite Forall_forall in H, Hp |- *. intros p Hin. specialize (H p Hin). specialize (Hp p Hin). by destruct p.
Qed.

Lemma pipe_progress y :
  (1 <= inflight)%nat -> Z.of_nat batch_max * (Z.of_nat readers - 1) <= Z.of_nat inflight ->
  dinv_of y -> cinv y -> can_go y \/ exists b, p_fin y = Finished b.
Proof.
  intros Hin Hcfg Hd Hc. pose proof Hc as [C1 C2 _ _ C5 C6 C7 _]. destruct (p_fin y) as [| |b] eqn:Ef; [left|left|right; by exists b].
  - destruct (find_thread started_r (p_readers y)) as [(i & p & Hi & Hp)|Hr].
    { destruct p; try done. exists (AStartReader i). eexists. split; [done|]. unfold lstep. by rewrite Ef, Hi. }
    apply forallb_Forall in Hr. destruct (find_thread started_w (p_writers y)) as [(i & p & Hi & Hp)|Hw].
    { destruct p; try done. exists (AStartWriter i). eexists. split; [done|]. unfold lstep. by rewrite Ef, Hi, Hr. }
    apply forallb_Forall in Hw. exists AStarted. eexists. split; [done|]. unfold lstep. by rewrite Ef, Hr, Hw.
  - destruct (C7 ltac:(done)) as [Sr Sw].
    destruct (find_thread r_stuck (p_readers y)) as [(i & p & Hi & Hp)|Hr].
    { eapply reader_goes; [done| |done]. apply (Forall_lookup_1 _ _ _ _ Sr Hi). }
    destruct (find_thread w_stuck (p_writers y)) as [(i & p & Hi & Hp)|Hw].
    { eapply writer_goes; [done|done| |done]. apply (Forall_lookup_1 _ _ _ _ Sw Hi). }
    destruct (stuck_sums _ Hr) as [Rh Re]. destruct (w_stuck_sums _ Hw) as [Wh We]. unfold zlen in Re, We. rewrite C1 in Re. rewrite C2 in We.
    assert (Hfin : sumZ r_park (p_readers y) = 0 -> sumZ w_park (p_writers y) = 0 -> can_go y).
    { intros Er Ew. exists (AFinish true). eexists. split; [done|]. unfold lstep. by rewrite Ef, all_gone, w_all_gone. }
    destruct (k_failed (p_pipe y)) eqn:Hf; [destruct (C6 eq_refl); by apply Hfin|].
    destruct (p_stop y) eqn:Es.
    { exists ARequestStop. eexists. split; [done|]. unfold lstep. by rewrite Ef, Es, Hf. }
    destruct (C5 eq_refl) as [L1 L2 L3 L4 L5 L6 L7 L8 L9 L10 L11]. specialize (L11 Hcfg). cbv zeta in L11.
    assert (Hready : k_ready (p_pipe y) = []) by (destruct (k_ready (p_pipe y)); [done|]; specialize (L10 eq_refl ltac:(done)); lia).
    rewrite Hready, zlen_nil, Rh, Wh in L4. pose proof (r_bounds (p_readers y)).
    destruct (decide (cr_next (k_cur (p_pipe y)) < bulk_end)) as [Hlt|Hge].
    + specialize (L9 Hlt ltac:(lia)). specialize (L6 ltac:(lia)). lia.
    + assert (Hp : sumZ r_park (p_readers y) = 0) by (destruct L11 as [?|Hn]; [done|]; nia).
      apply Hfin; [done|]. apply L7, L5. lia.
Qed.

(** * Work left *)

Local Abbreviation T := (Z.of_nat readers + Z.of_nat writers).
Definition r_work (p : lreader) : Z :=
  match p with
  | RUnborn => T + 5 | RTop => T + 4 | RWoken => T + 3 | RParked => T + 2
  | RReading batch => T + 4 + sumZ (fun ch => 7 + ch.2) batch | RExit => 0
  end.
Definition w_work (p : lwriter) : Z :=
  match p with
  | WUnborn => T + 5 | WTop => T + 4 | WWoken => T + 3 | WParked => T + 2
  | WWriting _ todo => T + 6 + sumZ (fun b => 1 + zlen (u_data b)) todo | WExit => 0
  end.
Definition s_work (s : pipe_ctx) : Z :=
  10 * (bulk_end - cr_next (k_cur s)) + sumZ (fun b => 5 + zlen (u_data b)) (k_ready s) + (if k_failed s then 0 else T + 1).
Definition f_work (f : finalizer) : Z := match f with Starting => T + 2 | Joining => 1 | Finished _ => 0 end.
Definition pipe_work (y : lsys) : Z :=
  s_work (p_pipe y) + sumZ r_work (p_readers y) + sumZ w_work (p_writers y) + (if p_stop y then 0 else 1) + f_work (p_fin y).

Definition cost (g : signal) (n : Z) : Z := match g with Quiet => 0 | One => 1 | All => n end.

Lemma deliver_cost {P} (parked : P -> bool) wake (f : P -> Z) g i ps ps' :
  (forall p, f (wake p) <= f p + 1) -> wake_up parked wake g i ps = Some ps' -> sumZ f ps' <= sumZ f ps + cost g (zlen ps).
Proof.
  intros Hf. unfold wake_up. destruct g; cbn [cost]; [intros [= <-]; lia| |intros [= <-]].
  - destruct (existsb parked ps); [|intros [= <-]; lia]. destruct (ps !! i) as [p|] eqn:Hi; [|done]. destruct (parked p); [|done].
    intros [= <-]. rewrite (sumZ_insert _ _ _ _ _ Hi). specialize (Hf p). lia.
  - induction ps as [|p ps IH]; [done|]. rewrite fmap_cons, zlen_cons. cbn [sumZ foldr]. unfold sumZ in IH. specialize (Hf p). lia.
Qed.

Lemma reader_moves_work i j k s p f r q y y' :
  p_readers y !! i = Some q -> length (p_readers y) = readers -> length (p_writers y) = writers ->
  reader_moves i j k (s, p, f, r) y = Some y' ->
  s_work s + r_work p + cost f (Z.of_nat readers) + cost r (Z.of_nat writers) < s_work (p_pipe y) + r_work q -> pipe_work y' < pipe_work y.
Proof.
  intros Hq Hr Hw H Hlt. unfold reader_moves in H. apply bind_Some in H as (rs & Hrs & H). apply bind_Some in H as (ws & Hws & [= <-]).
  apply (deliver_cost _ _ r_work) in Hrs; [|intros []; cbn [rwake r_work]; lia]. apply (deliver_cost _ _ w_work) in Hws; [|intros []; cbn [wwake w_work]; lia].
  rewrite (sumZ_insert _ _ _ _ _ Hq) in Hrs. unfold zlen in *. rewrite length_insert, Hr in Hrs. rewrite Hw in Hws.
  unfold pipe_work. cbn [p_pipe p_readers p_writers p_stop p_fin]. lia.
Qed.
Lemma writer_moves_work i j k s p f r q y y' :
  p_writers y !! i = Some q -> length (p_readers y) = readers -> length (p_writers y) = writers ->
  writer_moves i j k (s, p, f, r) y = Some y' ->
  s_work s + w_work p + cost f (Z.of_nat readers) + cost r (Z.of_nat writers) < s_work (p_pipe y) + w_work q -> pipe_work y' < pipe_work y.
Proof.
  intros Hq Hr Hw H Hlt. unfold writer_moves in H. apply bind_Some in H as (rs & Hrs & H). apply bind_Some in H as (ws & Hws & [= <-]).
  apply (deliver_cost _ _ r_work) in Hrs; [|intros []; cbn [rwake r_work]; lia]. apply (deliver_cost _ _ w_work) in Hws; [|intros []; cbn [wwake w_work]; lia].
  rewrite (sumZ_insert _ _ _ _ _ Hq) in Hws. unfold zlen in *. rewrite length_insert, Hw in Hws. rewrite Hr in Hrs.
  unfold pipe_work. cbn [p_pipe p_readers p_writers p_stop p_fin]. lia.
Qed.

Lemma weight_sum {A} (f : A -> Z) n l : sumZ (fun x => n + f x) l = n * zlen l + sumZ f l.
Proof. induction l as [|x l IH]; [by rewrite Z.mul_0_r|]. rewrite zlen_cons. cbn [sumZ foldr]. unfold sumZ in IH. lia. Qed.
Lemma sumZ_app {A} (f : A -> Z) l k : sumZ f (l ++ k) = sumZ f l + sumZ f k.
Proof. induction l as [|x l IH]; [done|]. cbn [sumZ foldr app]. unfold sumZ in *. lia. Qed.

Lemma check_work s s' p f r :
  cursor_ok extents bulk_end (k_cur s) -> reader_check extents bulk_end chunk_size batch_max s = (s', p, f, r) ->
  s_work s' + r_work p + cost f (Z.of_nat readers) + cost r (Z.of_nat writers) < s_work s + T + 3 /\
  (k_failed s = true -> p = RExit /\ s_work s' = s_work s).
Proof.
  intros Hc. destruct s as [cur free ready failed rd ar aw fw rw]. unfold reader_check, s_work. cbn [k_cur] in Hc.
  destruct (negb failed && _ && _) eqn:E; [|destruct (failed || _) eqn:E2].
  - intros [= <- <- <- <-]. cbn [r_work cost k_cur k_ready k_failed]. split; [lia|]. intros ->. done.
  - intros [= <- <- <- <-]. cbn [r_work cost k_cur k_ready k_failed]. split; [|done]. destruct (bool_decide (ar - 1 = 0)); cbn [cost]; lia.
  - apply orb_false_iff in E2 as [-> E2%bool_decide_eq_false]. destruct (claim_batch _ _ _ _ _ _) as [[l free'] cur'] eqn:Ecl. intros [= <- <- <- <-].
    pose proof (claim_batch_sum extents bulk_end chunk_size Hend Hchunk Hext _ _ _ _ _ _ Hc Ecl) as Hs.
    destruct (claim_batch_spec extents bulk_end chunk_size src Hend Hchunk Hext _ _ _ _ _ _ Hc Ecl) as (C1 & C2 & _ & C3 & _ & _ & C4).
    assert (Hfree : (0 < free)%nat).
    { destruct (decide (free = 0)%nat); [|lia]. rewrite bool_decide_eq_true_2, bool_decide_eq_true_2 in E by lia. done. }
    specialize (C4 ltac:(lia) ltac:(lia) ltac:(lia)).
    assert (Hge : zlen l <= sumZ snd l).
    { clear -C3. induction C3 as [|ch l [Hch _] _ IH]; [done|]. rewrite zlen_cons. cbn [sumZ foldr]. unfold sumZ in IH. lia. }
    cbn [r_work cost k_cur k_ready k_failed]. rewrite (weight_sum snd). split; [|done]. unfold zlen in *. lia.
Qed.

Lemma work_reader i y y' : dinv_of y -> cinv y -> step (AReader i) y = Some y' -> pipe_work y' < pipe_work y.
Proof.
  intros Hd Hc H. unfold lstep in H. destruct (p_readers y !! i) as [q|] eqn:Hq; [|done].
  pose proof (d_cur _ _ _ _ _ _ _ Hd) as Hcur. destruct q; try done.
  - unfold reader_top in H. destruct (p_stop y && negb (k_failed (p_pipe y))) eqn:Es.
    + destruct (reader_check _ _ _ _ _) as [[[s p] f] r] eqn:E. eapply reader_moves_work; [exact Hq|apply Hc|apply Hc|exact H|].
      destruct (check_work (mark_large_file_failed_locked (p_pipe y)) _ _ _ _ Hcur E) as [_ Hw]. destruct (Hw eq_refl) as [-> ->].
      apply andb_true_iff in Es as [_ Ef%negb_true_iff]. unfold s_work. cbn [k_cur k_ready k_failed mark_large_file_failed_locked r_work cost join_signal]. rewrite Ef. lia.
    + destruct (reader_check _ _ _ _ _) as [[[s p] f] r] eqn:E. eapply reader_moves_work; [exact Hq|apply Hc|apply Hc|exact H|].
      destruct (check_work _ _ _ _ _ Hcur E) as [Hw _]. cbn [r_work]. lia.
  - destruct (reader_wake _ _ _ _ _) as [[[s p] f] r] eqn:E. eapply reader_moves_work; [exact Hq|apply Hc|apply Hc|exact H|].
    unfold reader_wake in E. destruct (p_pipe y) as [cur free ready failed rd ar aw fw rw]. apply check_work in E as [Hw _]; [|exact Hcur].
    cbn [r_work]. unfold s_work in *. cbn [k_cur k_ready k_failed] in *. lia.
Qed.

Lemma spans_sum batch : Forall (fun ch => 0 < ch.2) batch ->
  sumZ (fun b => zlen (u_data b)) ((fun '(off, len) => Buffer off (src_range src off len)) <$> batch) = sumZ snd batch.
Proof.
  induction 1 as [|[off len] l Hch _ IH]; [done|]. rewrite fmap_cons. cbn [sumZ foldr u_data snd] in *. unfold sumZ in IH.
  rewrite src_range_length by lia. lia.
Qed.

Lemma work_read i ok k y y' : dinv_of y -> cinv y -> step (ARead i ok k) y = Some y' -> pipe_work y' < pipe_work y.
Proof.
  intros Hd Hc H. unfold lstep in H. destruct (p_readers y !! i) as [q|] eqn:Hq; [|done]. destruct q as [| | | |batch|]; try done.
  destruct (reader_return _ _ _ _) as [[[s p] f] r] eqn:E. eapply reader_moves_work; [exact Hq|apply Hc|apply Hc|exact H|].
  assert (Hb : Forall (fun ch => 0 < ch.2) batch).
  { destruct (concat_at rpend _ _ _ Hq) as (R & H1 & _). pose proof (d_pend _ _ _ _ _ _ _ Hd) as Hp. unfold pend in Hp. rewrite H1, !Forall_app in Hp.
    destruct Hp as [[Hp _] _]. eapply Forall_impl; [exact Hp|]. by intros ch []. }
  assert (Hs : 0 <= sumZ snd batch) by (clear -Hb; induction Hb; cbn; unfold sumZ in *; lia).
  pose proof (Forall_lookup_1 _ _ _ _ (c_rbatch _ _ _ _ _ _ Hc) Hq) as Hlen. cbn [rbatch_ok] in Hlen.
  unfold reader_return in E. destruct (p_pipe y) as [cur free ready failed rd ar aw fw rw]. unfold s_work. destruct (failed || negb ok); injection E as <- <- <- <-;
    cbn [k_cur k_ready k_failed r_work cost]; rewrite (weight_sum snd).
  - destruct failed, ok; cbn [cost]; unfold zlen; lia.
  - rewrite sumZ_app. set (l := _ <$> batch). assert (El : zlen l = zlen batch) by (unfold zlen, l; by rewrite length_fmap).
    pose proof (spans_sum batch Hb) as Hsp. fold l in Hsp. rewrite (weight_sum (fun b => zlen (u_data b)) 5 l), El, Hsp.
    destruct (bool_decide (0 < rw)); cbn [cost]; unfold zlen; lia.
Qed.

Lemma wcheck_work stop s s' p :
  writer_check batch_max stop s = (s', p) ->
  s_work s' + w_work p < s_work s + T + 3 /\ (stop = true -> k_failed s = true -> p = WExit /\ s_work s' = s_work s).
Proof.
  destruct s as [cur free ready failed rd ar aw fw rw]. unfold writer_check, s_work. destruct (bool_decide (ready = [])) eqn:Er.
  - destruct (negb failed && true && negb rd) eqn:E; [intros [= <- <-]; cbn [w_work k_cur k_ready k_failed]; split; [lia|by intros _ ->]|].
    destruct (stop || _ || _) eqn:E2; [intros [= <- <-]; cbn [w_work k_cur k_ready k_failed]; split; [lia|done]|].
    destruct stop, failed, rd; done.
  - rewrite andb_false_r. cbn [andb orb]. rewrite andb_false_r, !orb_false_r. apply bool_decide_eq_false in Er.
    destruct stop; intros [= <- <-]; cbn [w_work k_cur k_ready k_failed]; split; try done; [lia|].
    rewrite <- (take_drop batch_max ready) at 3. rewrite sumZ_app. rewrite (weight_sum _ 1), (weight_sum _ 5 (take _ _)).
    assert (1 <= zlen (take batch_max ready)); [|lia]. unfold zlen. rewrite length_take. destruct ready; [done|cbn [length]; lia].
Qed.

Lemma work_writer i stop' y y' : cinv y -> step (AWriter i stop') y = Some y' -> pipe_work y' < pipe_work y.
Proof.
  intros Hc H. unfold lstep in H. destruct (p_stop y && negb stop') eqn:Hst; [done|]. destruct (p_writers y !! i) as [q|] eqn:Hq; [|done].
  assert (Hle : pipe_work (set_stop stop' y) <= pipe_work y).
  { unfold pipe_work. cbn [set_stop p_pipe p_readers p_writers p_stop p_fin]. destruct (p_stop y), stop'; [lia|done|lia|lia]. }
  eapply Z.lt_le_trans; [|exact Hle]. destruct q; try done.
  - unfold writer_top in H. destruct (p_stop y && negb (k_failed (p_pipe y))) eqn:Es.
    + destruct (writer_check _ _ _) as [s p] eqn:E. eapply writer_moves_work; [exact Hq|apply Hc|apply Hc|exact H|].
      apply andb_true_iff in Es as [Es Ef%negb_true_iff]. rewrite Es in Hst. apply negb_false_iff in Hst. subst stop'.
      destruct (wcheck_work _ _ _ _ E) as [_ Hw]. destruct (Hw eq_refl eq_refl) as [-> ->].
      unfold s_work. cbn [k_cur k_ready k_failed mark_large_file_failed_locked w_work cost set_stop p_pipe]. rewrite Ef. lia.
    + destruct (writer_check _ _ _) as [s p] eqn:E. eapply writer_moves_work; [exact Hq|apply Hc|apply Hc|exact H|].
      destruct (wcheck_work _ _ _ _ E) as [Hw _]. cbn [w_work cost set_stop p_pipe]. lia.
  - unfold writer_wake in H. destruct (p_pipe y) as [cur free ready failed rd ar aw fw rw] eqn:Ep. destruct (writer_check _ _ _) as [s p] eqn:E.
    eapply writer_moves_work; [exact Hq|apply Hc|apply Hc|exact H|]. destruct (wcheck_work _ _ _ _ E) as [Hw _].
    cbn [w_work cost set_stop p_pipe]. rewrite Ep. unfold s_work in *. cbn [k_cur k_ready k_failed] in *. lia.
Qed.

Lemma work_written i ok k y y' : cinv y -> step (AWritten i ok k) y = Some y' -> pipe_work y' < pipe_work y.
Proof.
  intros Hc H. unfold lstep in H. destruct (p_writers y !! i) as [q|] eqn:Hq; [|done]. destruct q as [| | | |n todo|]; try done.
  destruct (ok && _); [done|]. destruct (writer_return _ _ _) as [[[s p] f] r] eqn:E.
  eapply writer_moves_work; [exact Hq|apply Hc|apply Hc|exact H|]. unfold writer_return in E.
  assert (0 <= sumZ (fun b => 1 + zlen (u_data b)) todo) by (apply sumZ_nonneg; intros b; pose proof (zlen_nonneg (u_data b)); lia).
  destruct (p_pipe y) as [cur free ready failed rd ar aw fw rw]. injection E as <- <- <- <-. unfold s_work. cbn [k_cur k_ready k_failed].
  destruct ok, failed, (bool_decide (0 < fw)); cbn [negb orb w_work cost]; lia.
Qed.

Lemma work_write i w y y' : step (AWrite i w) y = Some y' -> pipe_work y' < pipe_work y.
Proof.
  intros H. unfold lstep in H. destruct (p_writers y !! i) as [[| | | |n todo|]|] eqn:Hq; try done.
  apply bind_Some in H as ([todo' dest] & Hw & [= <-]). unfold pipe_work. cbn [p_pipe p_readers p_writers p_stop p_fin set_dest set_writers].
  rewrite (sumZ_insert _ _ _ _ _ Hq). cbn [w_work]. destruct todo as [|[off data] todo]; [done|]. cbn [written_part] in Hw.
  destruct (decide _) as [Hlen|]; [|done]. injection Hw as <- <-. cbn [sumZ foldr u_data].
  assert (Hz : zlen data = Z.of_nat w + zlen (drop w data)) by (unfold zlen; rewrite length_drop; lia).
  destruct (drop w data) as [|d ds] eqn:Ed; cbn [sumZ foldr u_data]; rewrite ?zlen_nil in Hz; unfold sumZ; lia.
Qed.

Lemma fail_work y :
  length (p_readers y) = readers -> length (p_writers y) = writers ->
  pipe_work (fail_all y) <= pipe_work y + T - (if k_failed (p_pipe y) then 0 else T + 1).
Proof.
  intros Hr Hw. unfold pipe_work, s_work. cbn [fail_all p_pipe p_readers p_writers p_stop p_fin mark_large_file_failed_locked k_cur k_ready k_failed].
  pose proof (deliver_cost rparked rwake r_work All 0 (p_readers y) _ ltac:(intros []; cbn [rwake r_work]; lia) eq_refl) as H1.
  pose proof (deliver_cost wparked wwake w_work All 0 (p_writers y) _ ltac:(intros []; cbn [wwake w_work]; lia) eq_refl) as H2.
  unfold cost, zlen in *. rewrite Hr in H1. rewrite Hw in H2. destruct (k_failed (p_pipe y)); lia.
Qed.
Lemma unborn_work rs ws : sumZ r_work (unborn_r <$> rs) <= sumZ r_work rs /\ sumZ w_work (unborn_w <$> ws) <= sumZ w_work ws.
Proof.
  split; [induction rs as [|p l IH]|induction ws as [|p l IH]]; [done| |done|]; rewrite fmap_cons; cbn [sumZ foldr]; unfold sumZ in IH;
    destruct p; cbn [unborn_r unborn_w r_work w_work]; lia.
Qed.

Lemma work_step a y y' : dinv_of y -> cinv y -> step a y = Some y' -> pipe_work y' < pipe_work y.
Proof.
  intros Hd Hc H. pose proof (c_rs _ _ _ _ _ _ Hc) as Cr. pose proof (c_ws _ _ _ _ _ _ Hc) as Cw.
  destruct a as [i|i| | |i|i ok k|i stop'|i w|i ok k| | |ok].
  - unfold lstep in H. destruct (p_fin y) eqn:Ef, (p_readers y !! i) as [[]|] eqn:Hq; try done. injection H as <-.
    unfold pipe_work. cbn [set_readers p_pipe p_readers p_writers p_stop p_fin]. rewrite (sumZ_insert _ _ _ _ _ Hq). cbn [r_work]. lia.
  - unfold lstep in H. destruct (p_fin y) eqn:Ef, (p_writers y !! i) as [[]|] eqn:Hq; try done. destruct (forallb _ _); [|done]. injection H as <-.
    unfold pipe_work. cbn [set_writers p_pipe p_readers p_writers p_stop p_fin]. rewrite (sumZ_insert _ _ _ _ _ Hq). cbn [w_work]. lia.
  - unfold lstep in H. destruct (p_fin y) eqn:Ef; try done. destruct (_ && _); [|done]. injection H as <-.
    unfold pipe_work. cbn [set_fin p_pipe p_readers p_writers p_stop p_fin]. rewrite Ef. cbn [f_work]. lia.
  - unfold lstep in H. destruct (p_fin y) eqn:Ef; try done. injection H as <-. pose proof (fail_work y Cr Cw) as Hf.
    destruct (unborn_work (p_readers (fail_all y)) (p_writers (fail_all y))) as [H1 H2]. unfold pipe_work in *.
    cbn [set_fin set_readers set_writers p_pipe p_readers p_writers p_stop p_fin] in *. replace (p_fin (fail_all y)) with Starting in Hf by done.
    change (rwake <$> p_readers y) with (p_readers (fail_all y)). change (wwake <$> p_writers y) with (p_writers (fail_all y)).
    rewrite Ef in *. cbn [f_work] in *. destruct (k_failed (p_pipe y)); lia.
  - by eapply work_reader.
  - by eapply work_read.
  - by eapply work_writer.
  - by eapply work_write.
  - by eapply work_written.
  - unfold lstep in H. destruct (p_stop y) eqn:Es; [done|]. injection H as <-. unfold pipe_work. cbn [set_stop p_pipe p_readers p_writers p_stop p_fin]. rewrite Es. lia.
  - unfold lstep in H. pose proof (fail_work y Cr Cw) as Hf. destruct (p_fin y) eqn:Ef; try done; (destruct (p_stop y && _) eqn:E; [|done]);
      injection H as <-; apply andb_true_iff in E as [_ E%negb_true_iff]; rewrite E in Hf; lia.
  - unfold lstep in H. destruct (p_fin y) eqn:Ef; try done. destruct (_ && _); [|done]. injection H as <-.
    unfold pipe_work. cbn [set_fin p_pipe p_readers p_writers p_stop p_fin]. rewrite Ef. cbn [f_work]. lia.
Qed.

Lemma work_nonneg y : dinv_of y -> 0 <= pipe_work y.
Proof.
  intros Hd. destruct (d_cur _ _ _ _ _ _ _ Hd) as [Hn _]. pose proof (d_pend _ _ _ _ _ _ _ Hd) as Hp.
  assert (Hz : forall b : buffer, 0 <= zlen (u_data b)) by (intros; apply zlen_nonneg).
  assert (H1 : 0 <= sumZ (fun b => 5 + zlen (u_data b)) (k_ready (p_pipe y))) by (apply sumZ_nonneg; intros b; specialize (Hz b); lia).
  assert (H2 : 0 <= sumZ w_work (p_writers y)).
  { apply sumZ_nonneg. intros []; cbn [w_work]; try lia.
    assert (0 <= sumZ (fun b => 1 + zlen (u_data b)) todo); [|lia]. apply sumZ_nonneg. intros b. specialize (Hz b). lia. }
  assert (H3 : 0 <= sumZ r_work (p_readers y)).
  { unfold pend in Hp. apply Forall_app in Hp as [Hp _]. revert Hp. generalize (p_readers y). intros rs. induction rs as [|p rs IH]; [done|].
    rewrite fmap_cons. cbn [concat sumZ foldr]. intros [Hp Hrs]%Forall_app. specialize (IH Hrs). unfold sumZ in IH.
    assert (0 <= r_work p); [|lia]. destruct p as [| | | |b|]; cbn [r_work rpend] in *; try lia.
    assert (0 <= sumZ (fun ch => 7 + ch.2) b); [|lia]. clear -Hp. induction Hp as [|ch b [Hch _] _ IH]; [done|]. cbn [sumZ foldr]. unfold sumZ in IH. lia. }
  unfold pipe_work, s_work. destruct (k_failed (p_pipe y)), (p_stop y), (p_fin y); cbn [f_work]; lia.
Qed.

Local Abbreviation start := (lsys0 extents bulk_end inflight readers writers).
Local Abbreviation rel := (lrel extents bulk_end chunk_size src batch_max).

Lemma work_run k y : nsteps rel k start y -> Z.of_nat k + pipe_work y <= pipe_work start.
Proof.
  revert y. induction k as [|k IH]; intros y Hr; [inversion Hr; lia|].
  apply nsteps_inv_r in Hr as (z & Hz & [a Ha]). specialize (IH z Hz).
  destruct (reach_inv extents bulk_end chunk_size src batch_max inflight readers writers Hend Hchunk Hext Hbm Hreaders Hwriters z) as [Hd Hc]; [by eapply rtc_nsteps_2|].
  pose proof (work_step a z y Hd Hc Ha). lia.
Qed.
Lemma work_start : pipe_work start <= 10 * bulk_end + T * T + 7 * T + 4.
Proof.
  destruct (cursor0_ok extents bulk_end Hend Hext) as [[Hn _] _].
  assert (Hrep : forall P (f : P -> Z) n p, sumZ f (replicate n p) = Z.of_nat n * f p).
  { intros P f n p. induction n as [|n IH]; [done|]. rewrite replicate_S. cbn [sumZ foldr]. unfold sumZ in IH. lia. }
  unfold pipe_work, s_work. cbn [lsys0 p_pipe p_readers p_writers p_stop p_fin k_cur k_ready k_failed f_work].
  rewrite !Hrep. cbn [r_work w_work sumZ foldr]. nia.
Qed.

Lemma gone_sums rs ws :
  Forall (fun p => gone_r p = true) rs -> Forall (fun p => gone_w p = true) ws ->
  sumZ r_exit rs = zlen rs /\ sumZ w_exit ws = zlen ws /\ concat (rpend <$> rs) = [] /\ concat (wbufs <$> ws) = [].
Proof.
  intros Hr Hw. split_and!; [induction Hr as [|p l Hp _ IH]|induction Hw as [|p l Hp _ IH]|induction Hr as [|p l Hp _ IH]|induction Hw as [|p l Hp _ IH]].
  all: try done; destruct p; try done; rewrite ?zlen_cons, ?fmap_cons; cbn [sumZ foldr r_exit w_exit concat rpend wbufs app]; unfold sumZ in *; lia || done.
Qed.

Lemma committed_dest y :
  dinv_of y -> cinv y -> p_fin y = Finished true -> p_stop y = false ->
  forall x, region extents bulk_end x -> p_dest y !! x = Some (src x).
Proof.
  intros Hd Hc Hf Hs x Hx. destruct (c_finished _ _ _ _ _ _ Hc true Hf) as (Hr & Hw & Hok). specialize (Hok eq_refl).
  destruct (gone_sums _ _ Hr Hw) as (Er & Ew & Pr & Pw). unfold zlen in Er, Ew. rewrite (c_rs _ _ _ _ _ _ Hc) in Er. rewrite (c_ws _ _ _ _ _ _ Hc) in Ew.
  destruct (c_live _ _ _ _ _ _ Hc Hok) as [L1 L2 L3 L4 L5 L6 L7 L8 L9 L10 L11].
  destruct (L8 Hs ltac:(lia)) as [_ Hready]. specialize (L6 ltac:(lia)).
  destruct (d_cover _ _ _ _ _ _ _ Hd Hok x Hx) as [[[? _] ?]|[H|H]]; [lia| |exact H].
  unfold pend, bufs in H. rewrite Pr, Pw, Hready in H. by apply Exists_nil in H.
Qed.
End live.

(** * In a configuration *)

(** [start_large_file_copy] in a given configuration. *)
Definition pipeline (r : runtime) (extents : option (list (Z * Z))) (bulk_end : Z) : lsys :=
  let '(readers, writers) := get_pipeline_thread_counts r in
  lsys0 extents bulk_end (Z.to_nat (g_large_file_inflight r)) (Z.to_nat readers) (Z.to_nat writers).
Definition pipeline_act (r : runtime) extents bulk_end src : act -> lsys -> option lsys :=
  lstep extents bulk_end (g_chunk_size r) src (Z.to_nat (large_pipe_batch r)).
Definition pipeline_rel (r : runtime) extents bulk_end src (y y' : lsys) : Prop := exists a, pipeline_act r extents bulk_end src a y = Some y'.
Definition map_ok (extents : option (list (Z * Z))) (bulk_end : Z) : Prop :=
  0 <= bulk_end /\ match extents with Some ext => extents_ok bulk_end ext | None => True end.

Lemma batch_bounds r : 1 <= large_pipe_batch r <= 4.
Proof. unfold large_pipe_batch, LARGE_PIPE_BATCH_MAX. repeat case_decide; lia. Qed.

Lemma chunk_pos r : config_ok r -> 1 <= g_chunk_size r.
Proof. intros Hr. destruct (co_chunk r Hr) as (mb & -> & ? & _). unfold MIB. lia. Qed.

Lemma pipeline_inv r extents bulk_end src y :
  config_ok r -> map_ok extents bulk_end -> rtc (pipeline_rel r extents bulk_end src) (pipeline r extents bulk_end) y ->
  dinv extents bulk_end src (p_pipe y) (p_readers y) (p_writers y) (p_dest y) /\
  cinv bulk_end (Z.to_nat (large_pipe_batch r)) (Z.to_nat (g_large_file_inflight r)) (Z.to_nat (g_large_reader_count r))
    (Z.to_nat (g_large_writer_count r)) y.
Proof.
  intros Hr [Hend Hext] Hy. pose proof (batch_bounds r). pose proof (co_readers r Hr). pose proof (co_writers r Hr). pose proof (chunk_pos r Hr).
  eapply (reach_inv _ _ (g_chunk_size r)); [done|lia|done|lia|lia|lia|exact Hy].
Qed.

(** C18.  A committed copy is complete. Whatever the threads do and whatever fails,
    only bytes of the source are written, each at its own offset and inside
    the data the extent map promises; and when the copy is committed without
    an interrupt, every byte of that data has been written. *)
Theorem pipeline_commits r extents bulk_end src y :
  config_ok r -> map_ok extents bulk_end -> rtc (pipeline_rel r extents bulk_end src) (pipeline r extents bulk_end) y ->
  (forall x v, p_dest y !! x = Some v -> v = src x /\ region extents bulk_end x) /\
  (p_fin y = Finished true -> p_stop y = false -> forall x, region extents bulk_end x -> p_dest y !! x = Some (src x)).
Proof.
  intros Hr Hm Hy. destruct (pipeline_inv _ _ _ _ _ Hr Hm Hy) as [Hd Hc]. split; [by apply (d_dest _ _ _ _ _ _ _ Hd)|].
  destruct Hm. pose proof (co_readers r Hr). pose proof (co_writers r Hr).
  pose proof (batch_bounds r). intros Hf Hs. eapply committed_dest; [| | |exact Hd|exact Hc|done|done]; lia.
Qed.

(** C19.  The pipeline always finishes when its readers are at most one more than
    the batches its buffers make up: no run has more steps than ten per byte
    and a constant, and a run that has not finished can go on without any
    failure. *)
Theorem pipeline_finishes r extents bulk_end src k y :
  config_ok r -> map_ok extents bulk_end ->
  large_pipe_batch r * (g_large_reader_count r - 1) <= g_large_file_inflight r ->
  nsteps (pipeline_rel r extents bulk_end src) k (pipeline r extents bulk_end) y ->
  let threads := g_large_reader_count r + g_large_writer_count r in
  Z.of_nat k <= 10 * bulk_end + threads * threads + 7 * threads + 4 /\
  ((exists a y', benign a /\ pipeline_act r extents bulk_end src a y = Some y') \/ exists b, p_fin y = Finished b).
Proof.
  intros Hr Hm Hcfg Hk threads. destruct (pipeline_inv r extents bulk_end src y Hr Hm) as [Hd Hc]; [by eapply rtc_nsteps_2|].
  destruct Hm as [Hend Hext]. pose proof (batch_bounds r). pose proof (co_readers r Hr). pose proof (co_writers r Hr). pose proof (chunk_pos r Hr).
  pose proof (co_inflight r Hr). split.
  - set (R := Z.to_nat (g_large_reader_count r)). set (W := Z.to_nat (g_large_writer_count r)).
    assert (Hw : Z.of_nat k + pipe_work bulk_end R W y <= pipe_work bulk_end R W (pipeline r extents bulk_end))
      by (eapply (work_run extents bulk_end (g_chunk_size r)); [| | | | | |exact Hk]; lia || done).
    assert (0 <= pipe_work bulk_end R W y) by (eapply (work_nonneg _ bulk_end src 1); [| | |exact Hd]; lia).
    assert (Hs : pipe_work bulk_end R W (pipeline r extents bulk_end) <= 10 * bulk_end + (Z.of_nat R + Z.of_nat W) * (Z.of_nat R + Z.of_nat W) + 7 * (Z.of_nat R + Z.of_nat W) + 4)
      by (apply (work_start extents bulk_end (Z.to_nat (large_pipe_batch r)) (Z.to_nat (g_large_file_inflight r))); lia || done).
    replace (Z.of_nat R + Z.of_nat W) with threads in Hs by (unfold R, W, threads; lia). eapply Z.le_trans; [|exact Hs]. lia.
  - eapply pipe_progress; [| | | | |exact Hd|exact Hc]; lia.
Qed.

(** ** A run of the default configuration *)

Definition default : runtime := Eval vm_compute in (init_runtime_config (fun _ => None) runtime0).1.
Lemma default_ok : config_ok default.
Proof. change default with (init_runtime_config (fun _ => None) runtime0).1. apply init_config_ok. Qed.

Lemma lrun_reach r extents bulk_end src l y y' :
  lrun extents bulk_end (g_chunk_size r) src (Z.to_nat (large_pipe_batch r)) l y = Some y' ->
  nsteps (pipeline_rel r extents bulk_end src) (length l) y y'.
Proof.
  revert y. induction l as [|a l IH]; intros y H; cbn [lrun] in H; [simplify_eq; constructor|].
  apply bind_Some in H as (z & Hz & H). cbn [length]. eapply nsteps_l; [by exists a|]. by apply IH.
Qed.

(** A file of one page, copied by the first reader and the first writer while
    the others find nothing left. *)
Definition page_src (x : Z) : byte := byte.of_Z x.
Definition page_run : list act :=
  (AStartReader <$> seq 0 4) ++ (AStartWriter <$> seq 0 2) ++ [AStarted] ++ (AReader <$> seq 0 4) ++ [AWriter 0 false; AWriter 1 false] ++
  [ARead 0 true 1; AReader 0; AWriter 1 false; AWrite 1 1000; AWrite 1 3096; AWritten 1 true 0; AWriter 1 false; AWriter 0 false; AFinish true].
Local Abbreviation page_end :=
  (lrun None 4096 (g_chunk_size default) page_src (Z.to_nat (large_pipe_batch default)) page_run (pipeline default None 4096)).

Lemma page_reached : exists y, nsteps (pipeline_rel default None 4096 page_src) (length page_run) (pipeline default None 4096) y /\
  p_fin y = Finished true /\ p_stop y = false.
Proof.
  assert (H : (fun y => (p_fin y, p_stop y)) <$> page_end = Some (Finished true, false)) by (vm_compute; reflexivity).
  destruct page_end as [y|] eqn:E; [|done]. exists y. split; [apply lrun_reach, E|clear E]. cbn [fmap option_fmap option_map] in H. by injection H as -> ->.
Qed.

Lemma pipeline_commits_witness : exists y : lsys, p_fin y = Finished true /\ forall x, 0 <= x < 4096 -> p_dest y !! x = Some (page_src x).
Proof.
  destruct page_reached as (y & Hy & Hf & Hs). exists y. split; [done|].
  intros x Hx. apply (pipeline_commits default None 4096 page_src y default_ok); [by split|by eapply rtc_nsteps_2|done|done|by split].
Defined.

Lemma pipeline_finishes_witness : exists y : lsys, Z.of_nat (length page_run) <= 10 * 4096 + 6 * 6 + 7 * 6 + 4 /\
  ((exists a y', benign a /\ pipeline_act default None 4096 page_src a y = Some y') \/ exists b, p_fin y = Finished b).
Proof.
  destruct page_reached as (y & Hy & _). exists y.
  apply (pipeline_finishes default None 4096 page_src (length page_run) y default_ok); [by split|by vm_compute|exact Hy].
Defined.

(** * A deadlock

    Six readers, as DIRECT_COPY_LARGE_READERS=6 asks for; everything else is
    the default and no warning is printed. *)

Definition six_env (name : bytes) : option bytes :=
  if decide (name = str "LARGE_READERS") then Some (str "6") else None.
Definition six : runtime := Eval vm_compute in (init_runtime_config six_env runtime0).1.
Example six_readers :
  init_runtime_config six_env runtime0 = (six, []) /\ validate_runtime_config six = [] /\
  get_pipeline_thread_counts six = (6, 2) /\ g_large_file_inflight six = 16 /\ large_pipe_batch six = 4.
Proof. by vm_compute. Qed.

(** A file with seventeen pieces of data. *)
Definition pieces : list (Z * Z) := (fun i => (8192 * i, 8192 * i + 4096)) <$> seqZ 0 17.
Definition pieces_end : Z := 8192 * 17.

(** Four readers take all buffers and two go to sleep; the four fill them and
    go to sleep as well. A writer's first batch wakes reader 0, which takes the
    last piece and leaves. The remaining thirteen pieces make four batches,
    and each wakes a reader that leaves: reader 5 is never woken. *)
Definition a_batch (n k : nat) : list act := [AWriter 0 false] ++ replicate n (AWrite 0 4096) ++ [AWritten 0 true k].
Definition six_run : list act :=
  (AStartReader <$> seq 0 6) ++ (AStartWriter <$> seq 0 2) ++ [AStarted] ++ (AReader <$> seq 0 6) ++
  concat ((fun i => [ARead i true 0; AReader i]) <$> seq 0 4) ++
  a_batch 4 0 ++ [AReader 0; ARead 0 true 0; AReader 0] ++
  concat ((fun i => a_batch 4 i ++ [AReader i]) <$> seq 1 3) ++ a_batch 1 4 ++ [AReader 4; AWriter 0 false; AWriter 1 false].
Local Abbreviation six_end :=
  (lrun (Some pieces) pieces_end (g_chunk_size six) zero_src (Z.to_nat (large_pipe_batch six)) six_run (pipeline six (Some pieces) pieces_end)).

Lemma six_ok : config_ok six.
Proof. change six with (init_runtime_config six_env runtime0).1. apply init_config_ok. Qed.
Lemma pieces_ok : map_ok (Some pieces) pieces_end.
Proof.
  split; [done|split].
  - apply Forall_fmap, Forall_forall. intros i Hi%elem_of_seqZ. unfold pieces_end. unfold compose, extent_ok, ALIGNMENT. cbn [fst snd].
    split_and!; [lia|lia|lia|by exists (2 * i); lia|left; by exists (2 * i + 1); lia].
  - vm_compute. repeat constructor.
Qed.

Lemma six_stops : exists y, nsteps (pipeline_rel six (Some pieces) pieces_end zero_src) (length six_run) (pipeline six (Some pieces) pieces_end) y /\
  p_fin y = Joining /\ p_stop y = false /\ k_failed (p_pipe y) = false /\
  p_readers y = replicate 5 RExit ++ [RParked] /\ p_writers y = [WParked; WParked] /\
  k_ready (p_pipe y) = [] /\ cr_next (k_cur (p_pipe y)) = pieces_end.
Proof.
  assert (H : (fun y => (p_fin y, p_stop y, k_failed (p_pipe y), p_readers y, p_writers y, k_ready (p_pipe y), cr_next (k_cur (p_pipe y)))) <$> six_end =
    Some (Joining, false, false, replicate 5 RExit ++ [RParked], [WParked; WParked], [], pieces_end)) by (vm_compute; reflexivity).
  destruct six_end as [y|] eqn:E; [|done]. exists y. split; [apply lrun_reach, E|clear E].
  cbn [fmap option_fmap option_map] in H. by injection H as -> -> -> -> -> -> ->.
Qed.

(** The pipeline can stop for ever. With six readers a run without failures
    or interrupts reaches a state in which every piece has been written and
    every buffer is free, but one reader and both writers are asleep, the
    finalizer waits for them, and nothing short of an interrupt can happen any
    more. *)
Theorem pipeline_deadlock :
  exists y, rtc (pipeline_rel six (Some pieces) pieces_end zero_src) (pipeline six (Some pieces) pieces_end) y /\
    p_fin y = Joining /\ p_stop y = false /\ k_failed (p_pipe y) = false /\
    (forall x, region (Some pieces) pieces_end x -> p_dest y !! x = Some (zero_src x)) /\
    forall a y', pipeline_act six (Some pieces) pieces_end zero_src a y = Some y' -> a = AInterrupt.
Proof.
  destruct six_stops as (y & Hy & Hf & Hs & Hk & Hr & Hw & Hq & Hn). pose proof (rtc_nsteps_2 _ _ _ Hy) as Hreach.
  exists y. split_and!; [done|done|done|done| |].
  - intros x Hx. destruct (pipeline_inv six (Some pieces) pieces_end zero_src y six_ok pieces_ok Hreach) as [Hd _].
    destruct (d_cover _ _ _ _ _ _ _ Hd Hk x Hx) as [[[? _] ?]|[H|H]]; [lia| |exact H].
    unfold pend, bufs in H. rewrite Hr, Hw, Hq in H. by apply Exists_nil in H.
  - intros a y' Ha. unfold pipeline_act, lstep in Ha. rewrite Hf, Hs, Hk, Hr, Hw in Ha. cbn [replicate app] in Ha.
    destruct a as [i|i| | |i|i ok k|i stop'|i w|i ok k| | |ok]; try done.
    all: destruct i as [|[|[|[|[|[|i]]]]]]; cbn in Ha; try done; destruct (negb _); done.
Qed.

(** * An interrupt that is not noticed

    The reader hands over the last range and leaves, which ends the reading;
    then the signal arrives. The writer wakes up with a full ready list, loads
    g_shutdown_requested and leaves without writing and without marking the
    file as failed. Unless workers_request_stop comes first, the finalizer
    finds no failure. *)
Definition lost_run : list act :=
  (AStartReader <$> seq 0 4) ++ (AStartWriter <$> seq 0 2) ++ [AStarted; AWriter 0 false; AWriter 1 false] ++
  [AReader 0; AReader 1; AReader 2; AReader 3; ARead 0 true 0; AReader 0; AInterrupt; AWriter 0 true; AWriter 1 true; AFinish true].
Local Abbreviation lost_end :=
  (lrun None 4096 (g_chunk_size default) page_src (Z.to_nat (large_pipe_batch default)) lost_run (pipeline default None 4096)).

(** An interrupted copy can be committed without its data. In the default
    configuration a run in which every call succeeds and one interrupt
    arrives commits a file of which not one byte has been written. *)
Theorem pipeline_interrupt_loses :
  exists y, rtc (pipeline_rel default None 4096 page_src) (pipeline default None 4096) y /\
    p_fin y = Finished true /\ p_dest y = ∅ /\ k_failed (p_pipe y) = false.
Proof.
  assert (H : (fun y => (p_fin y, p_dest y, k_failed (p_pipe y))) <$> lost_end = Some (Finished true, ∅, false)) by (vm_compute; reflexivity).
  destruct lost_end as [y|] eqn:E; [|done]. exists y. split; [apply (rtc_nsteps_2 (length lost_run)), lrun_reach, E|clear E].
  cbn [fmap option_fmap option_map] in H. by injection H as -> -> ->.
Qed.
