(* ===== verification/Scheduler.v ===== *)
(** The work queue of the copy workers (src/workers.c): classification of
    files, the per-directory queue of small files, the heap of large ones, the
    claiming loop of [dequeue_work], the producer's [workers_enqueue_batch],
    and the threads that run them.

    What happens under the queue lock is a function on the queue state; a
    [sys] adds the worker threads, the producers and the large-file pipelines,
    and [step] interleaves the critical sections.  Condition variables are
    modelled exactly: a thread that waits sleeps until a signal or broadcast
    reaches it, and a signal that finds nobody asleep is lost. *)

From S2P Require Export TaskHeap WorkerConfig.

(** * Tasks *)

(** [file_task_t]. *)
Record task := Task {
  t_src : bytes; t_dst : bytes; t_name : bytes;
  t_st : stat;
  t_sparse : bool;
  t_key : Z                (* sched_key *)
}.

Definition workers_file_is_sparse (st : stat) : bool :=
  if negb (S_ISREG (st_mode st)) || bool_decide (st_size st <= 0) then false
  else bool_decide (i64 (st_blocks st * 512) + ALIGNMENT < st_size st).

Definition task_weight (st : stat) : Z :=
  let size := if decide (0 < st_size st) then st_size st else 0 in
  let alloc := i64 (st_blocks st * 512) in
  let alloc := if decide (alloc < 0) then 0 else alloc in
  u64 (if decide (size < alloc) then size else alloc).

(** [ssh] is [sshx_active()]. *)
Definition task_uses_large_pipeline (r : runtime) (ssh : bool) (t : task) : bool :=
  let threshold := g_large_threshold r in
  if ssh || bool_decide (st_size (t_st t) <= threshold) then false
  else if negb (t_sparse t) then true
  else bool_decide (threshold < i64 (task_weight (t_st t))).

(** [has_hole] is the outcome of [source_has_hole]. *)
Definition classify_sparse (r : runtime) (has_hole : bool) (st : stat) : bool :=
  if workers_file_is_sparse st then true
  else if S_ISREG (st_mode st) && bool_decide (g_large_threshold r < st_size st) then has_hole
  else false.

(** The join rule of the path strings: parent, a slash unless it ends in one,
    and the name. *)
Definition needs_slash (dir : bytes) : bool := negb (bool_decide (head (reverse dir) = Some SLASH)).
Definition task_path (dir name : bytes) : bytes := dir ++ (if needs_slash dir then [SLASH] else []) ++ name.
Definition file_task_data_need (src dst : bytes) (name_len : Z) : Z :=
  (zlen src + b2z (needs_slash src) + name_len + 1) + (zlen dst + b2z (needs_slash dst) + name_len + 1) + (name_len + 1).
(** The tail after filling: three strings with their terminators. *)
Definition file_task_fill_paths (src dst name : bytes) : bytes :=
  task_path src name ++ [NUL] ++ task_path dst name ++ [NUL] ++ name ++ [NUL].

(** * The queues *)

(** [dir_batch_t]: the tasks and the next one to claim. *)
Record dir_batch := DirBatch { b_tasks : list task; b_head : nat }.
Definition b_rest (b : dir_batch) : list task := drop (b_head b) (b_tasks b).

Record sched := Sched {
  q_heap : task_heap task;         (* g_large_heap *)
  q_small : list dir_batch;        (* g_small_q, head first *)
  q_small_len : Z;
  q_small_active : Z;              (* g_small_workers_active *)
  q_large_active : Z;
  q_done : bool;                   (* g_queue_done *)
  q_seq : Z;                       (* g_enqueue_seq *)
  q_waiters : Z;                   (* g_queue_waiters *)
  q_space_waiters : Z;
  q_free : Z                       (* nodes returned to the freelist so far *)
}.

Definition set_q_heap (x : task_heap task) (s : sched) : sched :=
  Sched x (q_small s) (q_small_len s) (q_small_active s) (q_large_active s) (q_done s) (q_seq s) (q_waiters s) (q_space_waiters s) (q_free s).
Definition set_q_small (x : list dir_batch) (n : Z) (s : sched) : sched :=
  Sched (q_heap s) x n (q_small_active s) (q_large_active s) (q_done s) (q_seq s) (q_waiters s) (q_space_waiters s) (q_free s).
Definition set_q_small_active (x : Z) (s : sched) : sched :=
  Sched (q_heap s) (q_small s) (q_small_len s) x (q_large_active s) (q_done s) (q_seq s) (q_waiters s) (q_space_waiters s) (q_free s).
Definition set_q_large_active (x : Z) (s : sched) : sched :=
  Sched (q_heap s) (q_small s) (q_small_len s) (q_small_active s) x (q_done s) (q_seq s) (q_waiters s) (q_space_waiters s) (q_free s).
Definition set_q_done (x : bool) (s : sched) : sched :=
  Sched (q_heap s) (q_small s) (q_small_len s) (q_small_active s) (q_large_active s) x (q_seq s) (q_waiters s) (q_space_waiters s) (q_free s).
Definition set_q_seq (x : Z) (s : sched) : sched :=
  Sched (q_heap s) (q_small s) (q_small_len s) (q_small_active s) (q_large_active s) (q_done s) x (q_waiters s) (q_space_waiters s) (q_free s).
Definition set_q_waiters (x : Z) (s : sched) : sched :=
  Sched (q_heap s) (q_small s) (q_small_len s) (q_small_active s) (q_large_active s) (q_done s) (q_seq s) x (q_space_waiters s) (q_free s).
Definition set_q_space_waiters (x : Z) (s : sched) : sched :=
  Sched (q_heap s) (q_small s) (q_small_len s) (q_small_active s) (q_large_active s) (q_done s) (q_seq s) (q_waiters s) x (q_free s).
Definition set_q_free (x : Z) (s : sched) : sched :=
  Sched (q_heap s) (q_small s) (q_small_len s) (q_small_active s) (q_large_active s) (q_done s) (q_seq s) (q_waiters s) (q_space_waiters s) x.

(** At [workers_start]. *)
Definition sched0 : sched := Sched (TaskHeap [] 0) [] 0 0 0 false 0 0 0 0.

Definition smallq_push_batch (b : dir_batch) (s : sched) : sched :=
  set_q_small (q_small s ++ [b]) (q_small_len s + (zlen (b_tasks b) - Z.of_nat (b_head b))) s.
Definition smallq_pop_batch (s : sched) : option (dir_batch * sched) :=
  match q_small s with
  | [] => None
  | b :: l => Some (b, set_q_small l (q_small_len s - (zlen (b_tasks b) - Z.of_nat (b_head b))) s)
  end.

Definition queued (s : sched) : Z := q_small_len s + zlen (h_items (q_heap s)).

Section sched.
Context (r : runtime) (ssh : bool).

Definition total_worker_slots_used_locked (s : sched) : Z :=
  q_small_active s + q_large_active s * g_large_worker_count r.

(** Is a producer to be signalled? *)
Definition wake_producer_if_room_locked (s : sched) : bool :=
  bool_decide (0 < q_space_waiters s) && bool_decide (space_wake_min r <= g_max_queued_files r - queued s).

(** * Claiming *)

Definition SMALL_CLAIM_BATCH : nat := 8.

(** A worker's stash, the tasks it has taken from it, and its small slot. *)
Record local := Local { l_stash : list task; l_head : nat; l_slot : bool }.
Definition local0 : local := Local [] 0 false.
Definition l_rest (l : local) : list task := drop (l_head l) (l_stash l).

Inductive claim := ClaimNone | ClaimSmall (t : task) | ClaimLarge (t : task) | Wait.
(** What is done to a condition variable. *)
Inductive wake := NoWake | Signal (n : nat) | Broadcast.

(** New queue, new local state, the claim, and what happens to
    [g_queue_cond] and [g_space_cond]. *)
Abbreviation result := (sched * local * claim * wake * wake)%type.

(** The next task of the stash. *)
Definition stash_next (l : local) : option (task * local) :=
  match l_stash l !! l_head l with
  | Some t => Some (t, Local (l_stash l) (S (l_head l)) (l_slot l))
  | None => None
  end.

(** [*small_slot = 0] with the count. *)
Definition release_slot (s : sched) (l : local) : sched * local :=
  if l_slot l
  then (if decide (0 < q_small_active s) then set_q_small_active (q_small_active s - 1) s else s,
        Local (l_stash l) (l_head l) false)
  else (s, l).

Definition drained (s : sched) : bool :=
  bool_decide (q_small_len s = 0) && bool_decide (h_items (q_heap s) = []) && q_done s
  && bool_decide (q_large_active s = 0) && bool_decide (q_small_active s = 0).

Definition large_ready (s : sched) : bool :=
  bool_decide (h_items (q_heap s) <> []) && bool_decide (q_large_active s < g_max_active_large_files r)
  && bool_decide (total_worker_slots_used_locked s + g_large_worker_count r <= g_worker_count r).
Definition small_ready (s : sched) (l : local) : bool :=
  bool_decide (0 < q_small_len s)
  && (l_slot l || (bool_decide (q_small_active s < g_small_worker_limit r)
                   && bool_decide (total_worker_slots_used_locked s + 1 <= g_worker_count r))).

(** Claim a run of the head directory. *)
Definition claim_small (s : sched) (l : local) : option result :=
  match smallq_pop_batch s with
  | None => None
  | Some (b, s) =>
      let s := if l_slot l then s else set_q_small_active (q_small_active s + 1) s in
      let stash := take SMALL_CLAIM_BATCH (b_rest b) in
      let b' := DirBatch (b_tasks b) (b_head b + length stash) in
      let space := if wake_producer_if_room_locked s then Signal 1 else NoWake in
      let s := if decide (b_head b' < length (b_tasks b'))%nat then smallq_push_batch b' s else s in
      match stash with
      | [] => None
      | t :: _ => Some (s, Local stash 1 true, ClaimSmall t, NoWake, space)
      end
  end.

Definition claim_large (s : sched) (l : local) : option result :=
  match heap_pop_max (q_heap s) with
  | None => None
  | Some (t, h) =>
      let s := set_q_large_active (q_large_active s + 1) (set_q_heap h s) in
      Some (s, l, ClaimLarge t, NoWake, if wake_producer_if_room_locked s then Signal 1 else NoWake)
  end.

(** One round of the loop under the lock: it ends in a claim, in leaving, or in
    waiting. *)
Definition dequeue_round (shutdown : bool) (s : sched) (l : local) : option result :=
  if shutdown then Some (s, l, ClaimNone, NoWake, Broadcast) else
  if large_ready s then claim_large s l else
  if small_ready s l then claim_small s l else
  let '(s', l') := release_slot s l in
  let wq := if l_slot l && drained s' then Broadcast else NoWake in
  Some (s', l', if drained s' then ClaimNone else Wait, wq, NoWake).

(** Entering with an exhausted stash (or any stash once shut down): the
    finished nodes go to the freelist first. *)
Definition dequeue_enter (shutdown : bool) (s : sched) (l : local) : option result :=
  if shutdown then
    let s := set_q_free (q_free s + zlen (l_stash l)) s in
    let '(s, l) := release_slot s (Local [] 0 (l_slot l)) in
    Some (s, l, ClaimNone, NoWake, Broadcast)
  else
    dequeue_round false (set_q_free (q_free s + Z.of_nat (l_head l)) s) (Local [] 0 (l_slot l)).

(** * Enqueueing *)

(** The key of a large task, and the sequence number after it. *)
Definition with_key (t : task) (k : Z) : task := Task (t_src t) (t_dst t) (t_name t) (t_st t) (t_sparse t) k.
Definition schedule_key (t : task) (seq : Z) : Z * Z :=
  if g_size_priority r then (task_weight (t_st t), seq) else (UINT64_MAX - seq, seq + 1).

(** Push one task: to the heap, or to the directory's batch. *)
Definition push_task (sb : sched * list task) (t : task) : sched * list task :=
  let '(s, batch) := sb in
  if task_uses_large_pipeline r ssh t then
    let '(key, seq) := schedule_key t (q_seq s) in
    (set_q_seq seq (set_q_heap (heap_push (q_heap s) key (with_key t key)) s), batch)
  else (s, batch ++ [t]).

(** How many workers to signal. *)
Definition wakes (s : sched) : Z :=
  let free := g_worker_count r - total_worker_slots_used_locked s in
  let heap_len := zlen (h_items (q_heap s)) in
  let '(large, free) :=
    if decide (0 < heap_len /\ q_large_active s < g_max_active_large_files r /\ g_large_worker_count r <= free) then
      let n := g_max_active_large_files r - q_large_active s in
      let n := if decide (heap_len < n) then heap_len else n in
      let n := if decide (free / g_large_worker_count r < n) then free / g_large_worker_count r else n in
      (n, free - n * g_large_worker_count r)
    else (0, free) in
  let small :=
    if decide (0 < q_small_len s /\ 0 < free) then
      let stashes := (q_small_len s + Z.of_nat SMALL_CLAIM_BATCH - 1) / Z.of_nat SMALL_CLAIM_BATCH in
      let n := g_small_worker_limit r - q_small_active s in
      let n := if decide (stashes < n) then stashes else n in
      if decide (free < n) then free else n
    else 0 in
  if decide (q_waiters s < large + small) then q_waiters s else large + small.

(** What a producer waits for. *)
Definition need_room (built : list task) : Z :=
  if decide (zlen built < space_wake_min r) then zlen built else space_wake_min r.
Definition has_room (s : sched) (built : list task) : bool :=
  bool_decide (need_room built <= g_max_queued_files r - queued s).

(** One slice: the new queue, what is left to push and the number of signals;
    [None] when the heap's array could not grow. *)
Definition enqueue_slice (realloc_ok : Z -> bool) (s : sched) (built : list task) : option (sched * list task * Z) :=
  let room := g_max_queued_files r - queued s in
  let n := Z.to_nat (if decide (zlen built < room) then zlen built else room) in
  let slice := take n built in
  let large_add := length (filter (fun t => task_uses_large_pipeline r ssh t = true) slice) in
  match heap_reserve realloc_ok (q_heap s) (zlen (h_items (q_heap s)) + Z.of_nat large_add) with
  | None => None
  | Some h =>
      let '(s, batch) := foldl push_task (set_q_heap h s, []) slice in
      let s := if decide (batch = []) then s else smallq_push_batch (DirBatch batch 0) s in
      Some (s, drop n built, wakes s)
  end.

(** * Threads *)

Inductive pc := Idle | Parked | Woken | RunSmall (t : task) | RunLarge (t : task) | Exited.
Record thread := Thread { th_pc : pc; th_l : local }.

(** A producer: between batches, about to take the lock, asleep on
    [g_space_cond], signalled. *)
Inductive prod := PIdle | PWant (ts : list task) | PParked (ts : list task) | PWoken (ts : list task).

Record sys := Sys {
  y_s : sched;
  y_shutdown : bool;
  y_threads : list thread;
  y_prods : list prod;
  y_pipes : list task;      (* large files whose pipeline is running *)
  y_finished : list task;
  y_dropped : list task;    (* given up after shutdown or a failed allocation *)
  y_all : list task         (* everything the producers were given *)
}.

(** Signals reach sleeping threads only; which one is not determined. *)
Inductive signal1 : list thread -> list thread -> Prop :=
| signal_hit ths i l : ths !! i = Some (Thread Parked l) -> signal1 ths (<[i := Thread Woken l]> ths)
| signal_lost ths : Forall (fun th => th_pc th <> Parked) ths -> signal1 ths ths.
Inductive signals : nat -> list thread -> list thread -> Prop :=
| signals_O ths : signals 0 ths ths
| signals_S n ths ths' ths'' : signal1 ths ths' -> signals n ths' ths'' -> signals (S n) ths ths''.
Definition wake_thread (th : thread) : thread := match th_pc th with Parked => Thread Woken (th_l th) | _ => th end.
Definition deliver_queue (w : wake) (ths ths' : list thread) : Prop :=
  match w with NoWake => ths' = ths | Signal n => signals n ths ths' | Broadcast => ths' = wake_thread <$> ths end.

Inductive psignal1 : list prod -> list prod -> Prop :=
| psignal_hit ps j ts : ps !! j = Some (PParked ts) -> psignal1 ps (<[j := PWoken ts]> ps)
| psignal_lost ps : Forall (fun p => match p with PParked _ => False | _ => True end) ps -> psignal1 ps ps.
Definition wake_prod (p : prod) : prod := match p with PParked ts => PWoken ts | _ => p end.
(** The space condition is signalled once or broadcast. *)
Definition deliver_space (w : wake) (ps ps' : list prod) : Prop :=
  match w with NoWake => ps' = ps | Signal _ => psignal1 ps ps' | Broadcast => ps' = wake_prod <$> ps end.

Definition pc_of (c : claim) : pc :=
  match c with ClaimNone => Exited | ClaimSmall t => RunSmall t | ClaimLarge t => RunLarge t | Wait => Parked end.
(** A thread that goes to sleep is counted. *)
Definition count_waiter (c : claim) (s : sched) : sched :=
  match c with Wait => set_q_waiters (q_waiters s + 1) s | _ => s end.

Definition slot_back (s : sched) : sched :=
  if decide (0 < q_large_active s) then set_q_large_active (q_large_active s - 1) s else s.

Definition wanting (p : prod) : option (list task) :=
  match p with PWant ts | PWoken ts => Some ts | _ => None end.
(** A woken producer takes itself off the count. *)
Definition unwait (p : prod) (s : sched) : sched :=
  match p with PWoken _ => set_q_space_waiters (q_space_waiters s - 1) s | _ => s end.

Inductive step : sys -> sys -> Prop :=
(** Take the next task of the stash: no lock. *)
| st_stash i l t l' s ths ps pipes fin drp all :
    ths !! i = Some (Thread Idle l) -> stash_next l = Some (t, l') ->
    step (Sys s false ths ps pipes fin drp all)
         (Sys s false (<[i := Thread (RunSmall t) l']> ths) ps pipes fin drp all)
(** Enter the scheduler. *)
| st_enter i l sd s ths ps pipes fin drp all s' l' c wq ws ths' ps' :
    ths !! i = Some (Thread Idle l) -> (sd = true \/ stash_next l = None) ->
    dequeue_enter sd s l = Some (s', l', c, wq, ws) ->
    deliver_queue wq ths ths' -> deliver_space ws ps ps' ->
    step (Sys s sd ths ps pipes fin drp all)
         (Sys (count_waiter c s') sd (<[i := Thread (pc_of c) l']> ths') ps' pipes fin
            (if sd then l_rest l ++ drp else drp) all)
(** Come back from [pthread_cond_wait]. *)
| st_wake i l sd s ths ps pipes fin drp all s' l' c wq ws ths' ps' :
    ths !! i = Some (Thread Woken l) ->
    dequeue_round sd (set_q_waiters (q_waiters s - 1) s) l = Some (s', l', c, wq, ws) ->
    deliver_queue wq ths ths' -> deliver_space ws ps ps' ->
    step (Sys s sd ths ps pipes fin drp all)
         (Sys (count_waiter c s') sd (<[i := Thread (pc_of c) l']> ths') ps' pipes fin drp all)
(** A small file is done, well or not. *)
| st_small_done i t l s sd ths ps pipes fin drp all :
    ths !! i = Some (Thread (RunSmall t) l) ->
    step (Sys s sd ths ps pipes fin drp all)
         (Sys s sd (<[i := Thread Idle l]> ths) ps pipes (t :: fin) drp all)
(** A large file's pipeline is up, or could not be started. *)
| st_large_up i t l s sd ths ps pipes fin drp all :
    ths !! i = Some (Thread (RunLarge t) l) ->
    step (Sys s sd ths ps pipes fin drp all)
         (Sys s sd (<[i := Thread Idle l]> ths) ps (t :: pipes) fin drp all)
| st_large_fail i t l s sd ths ps pipes fin drp all :
    ths !! i = Some (Thread (RunLarge t) l) ->
    step (Sys s sd ths ps pipes fin drp all)
         (Sys (slot_back s) sd (<[i := Thread Idle l]> (wake_thread <$> ths)) ps pipes (t :: fin) drp all)
(** The finalizer of a large file. *)
| st_pipe_done k t s sd ths ps pipes fin drp all :
    pipes !! k = Some t ->
    step (Sys s sd ths ps pipes fin drp all)
         (Sys (slot_back s) sd (wake_thread <$> ths) ps (delete k pipes) (t :: fin) drp all)
(** Producers: a new batch; a slice; asleep; cancelled; out of memory. *)
| st_batch j ts s sd ths ps pipes fin drp all :
    ps !! j = Some PIdle -> ts <> [] -> q_done s = false ->
    step (Sys s sd ths ps pipes fin drp all)
         (Sys s sd ths (<[j := PWant ts]> ps) pipes fin drp (ts ++ all))
| st_push j p ts alloc s ths ps pipes fin drp all s' rest n ths' :
    ps !! j = Some p -> wanting p = Some ts -> has_room s ts = true ->
    enqueue_slice alloc (unwait p s) ts = Some (s', rest, n) -> signals (Z.to_nat n) ths ths' ->
    step (Sys s false ths ps pipes fin drp all)
         (Sys s' false ths' (<[j := if decide (rest = []) then PIdle else PWant rest]> ps) pipes fin drp all)
| st_park j p ts s ths ps pipes fin drp all :
    ps !! j = Some p -> wanting p = Some ts -> has_room s ts = false ->
    step (Sys s false ths ps pipes fin drp all)
         (Sys (set_q_space_waiters (q_space_waiters (unwait p s) + 1) (unwait p s)) false ths
            (<[j := PParked ts]> ps) pipes fin drp all)
| st_cancel j p ts s ths ps pipes fin drp all :
    ps !! j = Some p -> wanting p = Some ts ->
    step (Sys s true ths ps pipes fin drp all)
         (Sys (set_q_free (q_free s + zlen ts) (unwait p s)) true ths (<[j := PIdle]> ps) pipes fin (ts ++ drp) all)
| st_oom j p ts alloc s ths ps pipes fin drp all :
    ps !! j = Some p -> wanting p = Some ts -> has_room s ts = true ->
    enqueue_slice alloc (unwait p s) ts = None ->
    step (Sys s false ths ps pipes fin drp all)
         (Sys (set_q_free (q_free s + zlen ts) (unwait p s)) false ths (<[j := PIdle]> ps) pipes fin (ts ++ drp) all)
(** [workers_stop], after the producers have been joined. *)
| st_stop s sd ths ps pipes fin drp all :
    Forall (eq PIdle) ps ->
    step (Sys s sd ths ps pipes fin drp all)
         (Sys (set_q_done true s) sd (wake_thread <$> ths) ps pipes fin drp all)
(** The shutdown flag, and [workers_request_stop] once it is set. *)
| st_shutdown s sd ths ps pipes fin drp all :
    step (Sys s sd ths ps pipes fin drp all) (Sys s true ths ps pipes fin drp all)
| st_request_stop s ths ps pipes fin drp all :
    step (Sys s true ths ps pipes fin drp all)
         (Sys (set_q_done true s) true (wake_thread <$> ths) ps pipes fin drp all).

(** [n] workers and [m] producers at the start. *)
Definition init_sys (n m : nat) : sys :=
  Sys sched0 false (replicate n (Thread Idle local0)) (replicate m PIdle) [] [] [] [].

Inductive reachable (n m : nat) : sys -> Prop :=
| reach_init : reachable n m (init_sys n m)
| reach_step y y' : reachable n m y -> step y y' -> reachable n m y'.
End sched.
