(* ===== verification/LocalCopy.v ===== *)
(** Copying one file to a local destination in one thread (src/workers.c,
    "copy helpers"): copy_file_range with its fall-back, the read/write loops,
    the walk over the data of a sparse file, [copy_file_sparse] and
    [copy_file_serial_small].

    Loops take [fuel]; a run that would need more is [Stuck], and the theorems
    show how much is enough.  Timing, statistics and progress are left out. *)

From S2P Require Export FsUtil Scheduler.
#[local] Open Scope Z_scope.

(** * Page-cache advice *)

Definition fadvise (fd off len advice : Z) : FM unit := call (posix_fadvise fd off len advice);; mret tt.
Definition advise_source_streaming (fd : Z) : FM unit :=
  if decide (fd < 0) then mret tt else fadvise fd 0 0 POSIX_FADV_SEQUENTIAL;; fadvise fd 0 0 POSIX_FADV_WILLNEED.
Definition advise_dest_streaming (fd : Z) : FM unit :=
  if decide (fd < 0) then mret tt else fadvise fd 0 0 POSIX_FADV_SEQUENTIAL.
Definition advise_source_consumed (fd start len : Z) : FM unit :=
  if decide (fd < 0 \/ len <= 0) then mret tt else fadvise fd start len POSIX_FADV_DONTNEED.

Definition FADV_BATCH_BYTES : Z := 32 * 1024 * 1024.
Record fadvise_batch := FadviseBatch { fb_fd : Z; fb_start : Z; fb_len : Z }.
Definition fadvise_batch_init : fadvise_batch := FadviseBatch (-1) 0 0.
Definition fadvise_batch_flush (b : fadvise_batch) : FM fadvise_batch :=
  when (bool_decide (0 <= fb_fd b) && bool_decide (0 < fb_len b))
    (fadvise (fb_fd b) (fb_start b) (fb_len b) POSIX_FADV_DONTNEED);;
  mret fadvise_batch_init.
Definition fadvise_batch_add (b : fadvise_batch) (fd start len : Z) : FM fadvise_batch :=
  if decide (fd < 0 \/ len <= 0) then mret b else
  b ← (if decide (fb_fd b = fd /\ fb_start b + fb_len b = start)
       then mret (FadviseBatch (fb_fd b) (fb_start b) (fb_len b + len))
       else fadvise_batch_flush b;; mret (FadviseBatch fd start len));
  if decide (FADV_BATCH_BYTES <= fb_len b) then fadvise_batch_flush b else mret b.

(** * Moving bytes *)

(** The worker's buffer: [true] when it has at least [want] bytes. *)
Definition thread_io_buffer (want : Z) : FM bool :=
  cap ← gets u_io_cap;
  if decide (0 < cap /\ want <= cap) then mret true else
  modify (set_io_cap 0);;
  let want := if decide (want = 0) then ALIGNMENT else want in
  ok ← call (malloc want);
  when ok (modify (set_io_cap want));;
  mret ok.

Definition copy_file_range_unsupported_errno_local (e : Z) : bool :=
  bool_decide (e = ENOSYS \/ e = EXDEV \/ e = EINVAL \/ e = EOPNOTSUPP \/ e = ENOTSUP \/ e = EPERM).

Inductive cfr_rc := CfrDone | CfrUnsupported | CfrFailed.
Fixpoint copy_file_range_with_progress (fuel : nat) (fd_in fd_out in_off out_off remaining : Z) : FM cfr_rc :=
  if decide (remaining <= 0) then mret CfrDone else
  match fuel with
  | O => stuck
  | S fuel =>
      r ← call (copy_file_range fd_in in_off fd_out out_off remaining);
      match r with
      | Err e => if copy_file_range_unsupported_errno_local e then mret CfrUnsupported
                 else complain (str "copy_file_range");; mret CfrFailed
      | Ok moved =>
          if decide (moved = 0) then complain (str "copy_file_range hit EOF early");; mret CfrFailed else
          advise_source_consumed fd_in in_off moved;;
          copy_file_range_with_progress fuel fd_in fd_out (in_off + moved) (out_off + moved) (remaining - moved)
      end
  end.

(** [while (done < r) pwrite(...)] and [while (done < len) write(...)]. *)
Fixpoint pwrite_all (fuel : nat) (fd : Z) (data : bytes) (pos : Z) : FM bool :=
  match data, fuel with
  | [], _ => mret true
  | _, O => stuck
  | _, S fuel =>
      w ← call (pwrite fd data pos);
      match w with
      | Err _ => complain (str "pwrite");; mret false
      | Ok w => pwrite_all fuel fd (drop (Z.to_nat w) data) (pos + w)
      end
  end.
Fixpoint write_all (fuel : nat) (fd : Z) (data : bytes) : FM bool :=
  match data, fuel with
  | [], _ => mret true
  | _, O => stuck
  | _, S fuel =>
      w ← call (write fd data);
      match w with
      | Err _ => complain (str "write");; mret false
      | Ok w => write_all fuel fd (drop (Z.to_nat w) data)
      end
  end.

Fixpoint tail_loop (fuel : nat) (fd_in fd_out pos end_ : Z) : FM bool :=
  if decide (end_ <= pos) then mret true else
  match fuel with
  | O => stuck
  | S fuel =>
      let remain := end_ - pos in
      let len := if decide (remain < ALIGNMENT) then remain else ALIGNMENT in
      r ← call (pread fd_in len pos);
      match r with
      | Err _ => complain (str "read tail");; mret false
      | Ok [] => mret true
      | Ok d =>
          ok ← pwrite_all (S fuel + Z.to_nat ALIGNMENT) fd_out d pos;
          if negb ok then mret false else
          advise_source_consumed fd_in pos (zlen d);;
          tail_loop fuel fd_in fd_out (pos + zlen d) end_
      end
  end.
Definition copy_tail_buffered_fds (fuel : nat) (fd_in fd_out start end_ : Z) : FM bool := tail_loop fuel fd_in fd_out start end_.

Definition copy_tail_buffered_at (fuel : nat) (src_dir_fd dst_dir_fd : Z) (name tmp_name src dst : bytes) (st : stat) (start end_ : Z)
    : FM bool :=
  if decide (end_ <= start) then mret true else
  i ← open_read_at_buffered src_dir_fd name src (Some st);
  match i with
  | None => mret false
  | Some fd_in =>
      o ← open_temp_write_existing_at_buffered dst_dir_fd tmp_name dst;
      match o with
      | None => close_ fd_in;; mret false
      | Some fd_out =>
          advise_source_streaming fd_in;; advise_dest_streaming fd_out;;
          ok ← copy_tail_buffered_fds fuel fd_in fd_out start end_;
          close_ fd_in;; close_ fd_out;; mret ok
      end
  end.

(** The bytes moved so far are [payload]. *)
Fixpoint range_loop (fuel : nat) (fd_in fd_out pos end_ bufcap : Z) (fadv : fadvise_batch) (payload : Z) : FM (option Z) :=
  if decide (end_ <= pos) then fadvise_batch_flush fadv;; mret (Some payload) else
  match fuel with
  | O => stuck
  | S fuel =>
      let remain := end_ - pos in
      let len := if decide (remain < bufcap) then remain else bufcap in
      r ← call (pread fd_in len pos);
      match r with
      | Err _ => complain (str "pread");; mret None
      | Ok [] => fadvise_batch_flush fadv;; mret (Some payload)
      | Ok d =>
          ok ← pwrite_all (length d) fd_out d pos;
          if negb ok then mret None else
          fadv ← fadvise_batch_add fadv fd_in pos (zlen d);
          range_loop fuel fd_in fd_out (pos + zlen d) end_ bufcap fadv (u64 (payload + zlen d))
      end
  end.
Definition copy_byte_range_buffered (fuel : nat) (fd_in fd_out start end_ bufcap payload : Z) : FM (option Z) :=
  range_loop fuel fd_in fd_out start end_ bufcap fadvise_batch_init payload.

Fixpoint copy_data_extents_buffered (fuel : nat) (fd_in fd_out pos size bufcap payload : Z) : FM (option Z) :=
  if decide (size <= pos) then mret (Some payload) else
  match fuel with
  | O => stuck
  | S fuel =>
      r ← call (seek_data fd_in pos);
      match r with
      | Err e =>
          if decide (e = ENXIO) then mret (Some payload)
          else if decide (e = EINVAL \/ e = ENOTSUP \/ e = EOPNOTSUPP)
          then copy_byte_range_buffered (S fuel) fd_in fd_out pos size bufcap payload
          else complain (str "lseek SEEK_DATA");; mret None
      | Ok data =>
          if decide (size <= data) then mret (Some payload) else
          h ← call (seek_hole fd_in data);
          match h with
          | Err _ => complain (str "lseek SEEK_HOLE");; mret None
          | Ok hole =>
              let hole := if decide (size < hole) then size else hole in
              p ← copy_byte_range_buffered (S fuel) fd_in fd_out data hole bufcap payload;
              match p with
              | None => mret None
              | Some payload => copy_data_extents_buffered fuel fd_in fd_out hole size bufcap payload
              end
          end
      end
  end.

(** * One file *)

Section copy.
Context (env : fsenv) (r : runtime) (src_fd dst_fd : Z).

(** What both copies do after the destination exists: [out:]. A descriptor
    that is still open is closed, and an unfinished destination removed. *)
Definition cleanup (fd_in : Z) (fd_out : option Z) (created : option bytes) (ok : bool) : FM bool :=
  close_ fd_in;;
  match fd_out with Some fd => close_ fd | None => mret tt end;;
  match created with Some name => when (negb ok) (unlink_temp_at dst_fd name) | None => mret tt end;;
  mret ok.

(** Finalize, close and rename a finished file; the descriptor that is still
    open. [rename_as] is [None] for a file written in place. *)
Definition finish_file (fd_out out_mode : Z) (t : task) (tmp_name : bytes) (inplace : bool) : FM (bool * option Z) :=
  ok ← finalize_copied_file_fd env fd_out (t_st t) out_mode;
  if negb ok then mret (false, Some fd_out) else
  c ← call (close fd_out);
  match c with
  | Err _ => complain (t_dst t);; mret (false, None)
  | Ok _ =>
      ok ← (if inplace then mret true else rename_temp_to_final_at dst_fd tmp_name (t_name t) (t_dst t));
      mret (ok, None)
  end.

Definition bufcap : Z := if decide (0 < g_chunk_size r) then g_chunk_size r else 1024 * 1024.

Definition sparse_body (fuel : nat) (t : task) (fd_in fd_out out_mode : Z) (tmp : bytes) : FM (bool * option Z * Z) :=
  let size := st_size (t_st t) in
  advise_source_streaming fd_in;; advise_dest_streaming fd_out;;
  buf ← thread_io_buffer bufcap;
  if negb buf then complain (str "thread_io_buffer failed");; mret (false, Some fd_out, 0) else
  p ← copy_data_extents_buffered fuel fd_in fd_out 0 size bufcap 0;
  match p with
  | None => mret (false, Some fd_out, 0)
  | Some payload =>
      c ← call (ftruncate fd_out size);
      match c with
      | Err _ => complain (str "ftruncate");; mret (false, Some fd_out, payload)
      | Ok _ => '(ok, fd) ← finish_file fd_out out_mode t tmp false; mret (ok, fd, payload)
      end
  end.

Definition copy_file_sparse (fuel : nat) (t : task) : FM (bool * Z) :=
  i ← open_read_at_buffered src_fd (t_name t) (t_src t) (Some (t_st t));
  match i with
  | None => mret (false, 0)
  | Some fd_in =>
      o ← create_temp_write_at_maybe_direct env dst_fd (t_dst t) (st_mode (t_st t) &. o07777) (st_size (t_st t)) PATH_MAX false;
      match o with
      | None => ok ← cleanup fd_in None None false; mret (ok, 0)
      | Some (fd_out, out_direct, out_mode, tmp) =>
          fd ← (if out_direct : bool then close_ fd_out;; open_temp_write_existing_at_buffered dst_fd tmp (t_dst t)
                else mret (Some fd_out));
          match fd with
          | None => ok ← cleanup fd_in None (Some tmp) false; mret (ok, 0)
          | Some fd_out =>
              '(ok, fd, payload) ← sparse_body fuel t fd_in fd_out out_mode tmp;
              ok ← cleanup fd_in fd (Some tmp) ok; mret (ok, payload)
          end
      end
  end.

(** O_DIRECT on or off. *)
Definition fd_set_direct_write (fd : Z) (on : bool) : FM bool :=
  fl ← call (fcntl_getfl fd);
  match fl with
  | Err _ => mret false
  | Ok fl => r ← call (fcntl_setfl fd (if on then fl |. O_DIRECT else Z.ldiff fl O_DIRECT)); mret (is_ok r)
  end.
Definition local_fs_type (ty : Z) : bool :=
  bool_decide (ty = 0x58465342 \/ ty = 0xEF53 \/ ty = 0x9123683E \/ ty = 0xF2F52010).
Definition dst_fs_direct_ok : FM bool :=
  v ← gets u_direct_ok;
  if decide (v <> 0) then mret (bool_decide (0 < v)) else
  s ← call (fstatfs dst_fd);
  let v := match s with Ok ty => if local_fs_type ty then 1 else -1 | Err _ => -1 end in
  modify (set_direct_ok v);; mret (bool_decide (0 < v)).
Definition small_bulk_wants_direct (bulk_end : Z) : FM bool :=
  if bool_decide (0 < g_small_write_direct_min r) && bool_decide (g_small_write_direct_min r <= bulk_end) && e_write_direct env
  then dst_fs_direct_ok else mret false.
(** Whether the bulk of this destination now goes to the device directly. *)
Definition bulk_goes_direct (fd_out bulk_end : Z) : FM bool :=
  want ← small_bulk_wants_direct bulk_end;
  if want : bool then fd_set_direct_write fd_out true else mret false.

(** The state of the main loop. *)
Record bulk := Bulk { b_pos : Z; b_copy_end : Z; b_cfr : bool; b_direct : bool; b_fadv : fadvise_batch }.

(** Read and write one piece at the descriptors' own offsets. *)
Definition read_write_chunk (t : task) (fd_in fd_out : Z) (in_direct : bool) (len : Z) (b : bulk) : FM (option bulk) :=
  d ← call (read fd_in len);
  match d with
  | Err _ => complain (str "read");; mret None
  | Ok d =>
      if decide (zlen d <> len) then complain (str "short read on " ++ t_src t);; mret None else
      ok ← write_all (length d) fd_out d;
      if negb ok then mret None else
      fadv ← (if in_direct then mret (b_fadv b) else fadvise_batch_add (b_fadv b) fd_in (b_pos b) len);
      mret (Some (Bulk (b_pos b + len) (b_copy_end b) (b_cfr b) (b_direct b) fadv))
  end.

Definition chunk_len (b : bulk) : Z :=
  let remain := b_copy_end b - b_pos b in if decide (g_chunk_size r <= remain) then g_chunk_size r else remain.

Fixpoint bulk_loop (fuel : nat) (t : task) (fd_in fd_out : Z) (in_direct out_direct : bool) (bulk_end : Z) (b : bulk) : FM (option bulk) :=
  if decide (b_copy_end b <= b_pos b) then mret (Some b) else
  match fuel with
  | O => stuck
  | S fuel =>
      let len := chunk_len b in
      let rw b := n ← read_write_chunk t fd_in fd_out in_direct (chunk_len b) b;
                  match n with Some b => bulk_loop fuel t fd_in fd_out in_direct out_direct bulk_end b | None => mret None end in
      if negb in_direct && negb out_direct && b_cfr b then
        c ← copy_file_range_with_progress (Z.to_nat len) fd_in fd_out (b_pos b) (b_pos b) len;
        match c with
        | CfrDone => bulk_loop fuel t fd_in fd_out in_direct out_direct bulk_end (Bulk (b_pos b + len) (b_copy_end b) true (b_direct b) (b_fadv b))
        | CfrFailed => mret None
        | CfrUnsupported =>
            advise_source_streaming fd_in;;
            direct ← (if decide (b_pos b = 0) then d ← bulk_goes_direct fd_out bulk_end; mret (d || b_direct b) else mret (b_direct b));
            let b := Bulk (b_pos b) bulk_end false direct (b_fadv b) in
            if decide (bulk_end - b_pos b <= 0) then mret (Some b) else rw b
        end
      else rw b
  end.

(** After the destination exists: the copy, up to the rename. *)
Definition small_body (fuel : nat) (t : task) (fd_in : Z) (in_direct : bool) (fd_out : Z) (out_direct : bool) (out_mode : Z)
    (write_name : bytes) (inplace : bool) : FM (bool * option Z) :=
  let size := st_size (t_st t) in
  let bulk_end := Z.quot size ALIGNMENT * ALIGNMENT in
  let cfr := e_copy_file_range env in
  when (negb in_direct && negb (cfr && negb out_direct)) (advise_source_streaming fd_in);;
  when (negb out_direct) (advise_dest_streaming fd_out);;
  buf ← thread_io_buffer (g_chunk_size r);
  if negb buf then complain (str "thread_io_buffer failed");; mret (false, Some fd_out) else
  direct ← (if negb in_direct && negb out_direct && negb cfr then bulk_goes_direct fd_out bulk_end else mret false);
  let copy_end := if negb in_direct && negb out_direct && cfr then size else bulk_end in
  b ← bulk_loop fuel t fd_in fd_out in_direct out_direct bulk_end (Bulk 0 copy_end cfr direct fadvise_batch_init);
  match b with
  | None => mret (false, Some fd_out)
  | Some b =>
      fadvise_batch_flush (b_fadv b);;
      if negb in_direct && negb out_direct then
        ok ← (if b_direct b then fd_set_direct_write fd_out false else mret true);
        if negb ok then complain (str "fcntl(O_DIRECT off)");; mret (false, Some fd_out) else
        ok ← copy_tail_buffered_fds fuel fd_in fd_out (b_pos b) size;
        if negb ok then mret (false, Some fd_out) else
        finish_file fd_out out_mode t write_name inplace
      else
        close_ fd_out;;
        ok ← copy_tail_buffered_at fuel src_fd dst_fd (t_name t) write_name (t_src t) (t_dst t) (t_st t) bulk_end size;
        if negb ok then mret (false, None) else
        ok ← preserve_path_metadata_at env dst_fd write_name (t_dst t) (t_st t) S_IFREG;
        if negb ok then mret (false, None) else
        ok ← (if inplace then mret true else rename_temp_to_final_at dst_fd write_name (t_name t) (t_dst t));
        mret (ok, None)
  end.

(** Success, and the payload bytes. *)
Definition copy_file_serial_small (fuel : nat) (t : task) : FM (bool * Z) :=
  if t_sparse t then copy_file_sparse fuel t else
  let inplace := copy_policy_small_inplace (e_policy env) in
  let mode := st_mode (t_st t) &. o07777 in
  let size := st_size (t_st t) in
  i ← open_read_at_maybe_direct env src_fd (t_name t) (t_src t) (Some (t_st t));
  match i with
  | None => mret (false, 0)
  | Some (fd_in, in_direct) =>
      o ← (if inplace then o ← create_final_write_at_maybe_direct env dst_fd (t_name t) (t_dst t) mode size;
                           mret ((fun '(fd, d, m) => (fd, d, m, t_name t)) <$> o)
           else create_temp_write_at_maybe_direct env dst_fd (t_dst t) mode size PATH_MAX false);
      match o with
      | None => ok ← cleanup fd_in None None false; mret (ok, 0)
      | Some (fd_out, out_direct, out_mode, write_name) =>
          '(ok, fd) ← small_body fuel t fd_in in_direct fd_out out_direct out_mode write_name inplace;
          ok ← cleanup fd_in fd (Some write_name) ok;
          mret (ok, if ok : bool then size else 0)
      end
  end.
End copy.
