(* ===== verification/LocalCopyOk.v ===== *)
(** What copying one file to a local destination promises.

    [copying] watches the calls of [copy_file_serial_small]: which descriptors
    are open and at which offset, the contents, name, mode and times of the
    file being written.  A rename onto the final name is permitted only when
    the contents are the source's and no descriptor of the file is open any
    more; only names this copy may have created are removed.  [src] is the
    source's contents, assumed not to change while it is copied. *)

From S2P Require Export LocalCopy.
From stdpp Require Import list.
#[local] Open Scope Z_scope.

(** * Contents *)

(** A positioned store into a file; a gap reads back as zeros. *)
Definition store_at (off : nat) (d l : bytes) : bytes :=
  take off l ++ replicate (off - length l) x00 ++ d ++ drop (off + length d) l.
Definition resize (n : nat) (l : bytes) : bytes := take n l ++ replicate (n - length l) x00.

Lemma store_at_lookup off d l i :
  store_at off d l !! i =
    if decide (i < off)%nat then (if decide (i < length l)%nat then l !! i else Some x00)
    else if decide (i < off + length d)%nat then d !! (i - off)%nat else l !! i.
Proof.
  unfold store_at. destruct (decide (i < off)%nat).
  - destruct (decide (i < length l)%nat).
    + rewrite lookup_app_l by (rewrite length_take; lia). by apply lookup_take_lt.
    + rewrite lookup_app_r by (rewrite length_take; lia). rewrite length_take.
      rewrite lookup_app_l by (rewrite length_replicate; lia). apply lookup_replicate_2. lia.
  - rewrite (assoc_L (++)), lookup_app_r by (rewrite length_app, length_take, length_replicate; lia).
    rewrite length_app, length_take, length_replicate. replace (off `min` length l + (off - length l))%nat with off by lia.
    destruct (decide (i < off + length d)%nat).
    + by rewrite lookup_app_l by lia.
    + rewrite lookup_app_r by lia. rewrite lookup_drop. f_equal. lia.
Qed.

Section contents.
Context (src : bytes).

(** Everything below [p] is in place: written, or past the end of what was
    written and zero in the source. *)
Definition holds (p : nat) (l : bytes) : Prop :=
  exists L, l = take L src /\ forall x b, (L <= x < p)%nat -> src !! x = Some b -> b = x00.
(** Everything below [p] is written. *)
Definition full (p : nat) (l : bytes) : Prop := exists L, (p <= L)%nat /\ l = take L src.

Lemma full_holds p l : full p l -> holds p l.
Proof. intros (L & HL & ->). exists L. split; [done|]. lia. Qed.
Lemma full_nil : full 0 [].
Proof. by exists 0%nat. Qed.
Lemma full_all l : full (length src) l -> l = src.
Proof. intros (L & HL & ->). by apply take_ge. Qed.
Lemma full_mono p q l : (p <= q)%nat -> full q l -> full p l.
Proof. intros ? (L & ? & ->). exists L. split; [lia|done]. Qed.
Lemma holds_mono p q l : (p <= q)%nat -> holds q l -> holds p l.
Proof. intros ? (L & -> & H). exists L. split; [done|]. intros x b Hx. apply H. lia. Qed.
Lemma holds_zeros p q l : holds p l -> (forall x b, (p <= x < q)%nat -> src !! x = Some b -> b = x00) -> holds q l.
Proof.
  intros (L & -> & H) Hz. exists L. split; [done|]. intros x b Hx.
  destruct (decide (x < p)%nat); [apply H; lia|apply Hz; lia].
Qed.

(** Storing the source's bytes where they belong. *)
Lemma holds_store p d l :
  holds p l -> d `prefix_of` drop p src -> d <> [] -> full (p + length d) (store_at p d l).
Proof.
  intros (L & -> & Hz) [k Hd] Hne. exists (L `max` (p + length d))%nat. split; [lia|].
  assert (Hlen : (p + length d <= length src)%nat).
  { apply (f_equal length) in Hd. rewrite length_app, length_drop in Hd.
    assert (length d <> 0%nat) by (intros ?; by apply Hne, nil_length_inv). lia. }
  apply list_eq. intros i. rewrite store_at_lookup, length_take.
  assert (Hdi : forall j, (j < length d)%nat -> d !! j = src !! (p + j)%nat).
  { intros j Hj. rewrite <- lookup_drop, Hd. by rewrite lookup_app_l. }
  destruct (decide (i < L `max` (p + length d))%nat).
  - rewrite (lookup_take_lt _ (L `max` _)) by lia. destruct (decide (i < p)%nat).
    + destruct (decide _); [by rewrite lookup_take_lt by lia|].
      destruct (src !! i) as [b|] eqn:Eb; [|apply lookup_ge_None in Eb; lia].
      f_equal. symmetry. apply (Hz i); [lia|done].
    + destruct (decide _); [rewrite Hdi by lia; f_equal; lia|]. by rewrite lookup_take_lt by lia.
  - rewrite (lookup_take_ge _ (L `max` _)) by lia. rewrite !decide_False by lia. by rewrite lookup_take_ge by lia.
Qed.
(** Truncating to the source's length. *)
Lemma holds_resize l : holds (length src) l -> resize (length src) l = src.
Proof.
  intros (L & -> & Hz). unfold resize. rewrite take_take, length_take. apply list_eq. intros i.
  destruct (decide (i < length src)%nat).
  - destruct (decide (i < L)%nat).
    + rewrite lookup_app_l by (rewrite length_take; lia). apply lookup_take_lt. lia.
    + rewrite lookup_app_r by (rewrite length_take; lia). rewrite length_take, lookup_replicate_2 by lia.
      destruct (src !! i) as [b|] eqn:Eb; [|apply lookup_ge_None in Eb; lia]. f_equal. symmetry. apply (Hz i b); [lia|done].
  - rewrite !lookup_ge_None_2; [done|lia|]. rewrite length_app, length_take, length_replicate. lia.
Qed.
End contents.

(** * The monitor *)

Inductive role := RSrc (off : Z) | RDst (off : Z).
Definition is_src (fds : gmap Z role) (fd : Z) : Prop := exists o, fds !! fd = Some (RSrc o).
Definition is_dst (fds : gmap Z role) (fd : Z) : Prop := exists o, fds !! fd = Some (RDst o).

Record cghost := CG {
  cg_fds : gmap Z role;                     (* open descriptors *)
  cg_data : bytes;                          (* contents of the file being written *)
  cg_name : option bytes;                   (* the name it was created under, while it has it *)
  cg_req : option Z;                        (* the mode asked for, when it was created exclusively *)
  cg_mode : option Z;                       (* its permission bits, when known *)
  cg_times : option (timespec * timespec);  (* its times, when set after the last change *)
  cg_cfr : bool;                            (* copy_file_range has moved something *)
  cg_direct : bool;                         (* created with O_DIRECT *)
  cg_done : bool                            (* renamed onto the final name *)
}.
Definition cg0 : cghost := CG ∅ [] None None None None false false false.

Definition with_fds (f : gmap Z role -> gmap Z role) (g : cghost) : cghost :=
  CG (f (cg_fds g)) (cg_data g) (cg_name g) (cg_req g) (cg_mode g) (cg_times g) (cg_cfr g) (cg_direct g) (cg_done g).
Definition with_data (d : bytes) (g : cghost) : cghost :=
  CG (cg_fds g) d (cg_name g) (cg_req g) (strip (cg_mode g)) None (cg_cfr g) (cg_direct g) (cg_done g).
Definition with_mode (m : option Z) (g : cghost) : cghost :=
  CG (cg_fds g) (cg_data g) (cg_name g) (cg_req g) m (cg_times g) (cg_cfr g) (cg_direct g) (cg_done g).

Definition perm_bits (st : stat) : Z := st_mode st &. o07777.

Section copying.
Context (src_fd dst_fd : Z) (t : task) (inplace : bool) (src : bytes).

Definition own_name (n : bytes) : Prop := temp_name n \/ (inplace = true /\ n = t_name t).

Definition copy_pre (g : cghost) R (e : posix R) : Prop :=
  match e with
  | openat d n fl _ =>
      if has_bits fl O_CREAT then d = dst_fd /\ if has_bits fl O_EXCL then temp_name n else inplace = true /\ n = t_name t
      else (d = src_fd /\ n = t_name t) \/ (d = dst_fd /\ cg_name g = Some n)
  | read fd _ | pread fd _ _ | seek_data fd _ | seek_hole fd _ => is_src (cg_fds g) fd
  | write fd _ | pwrite fd _ _ | ftruncate fd _ | fcntl_getfl fd | fcntl_setfl fd _ => is_dst (cg_fds g) fd
  | copy_file_range i _ o _ _ => is_src (cg_fds g) i /\ is_dst (cg_fds g) o
  | fchown fd _ _ | fchmod fd _ | futimens fd _ _ => is_dst (cg_fds g) fd /\ cg_data g = src
  | close fd | fstat fd => is_Some (cg_fds g !! fd)
  | fstatat d _ _ | fstatfs d => d = dst_fd
  | fchmodat d n _ _ => d = dst_fd /\ inplace = true /\ n = t_name t
  | renameat d n d' n' =>
      d = dst_fd /\ d' = dst_fd /\ cg_name g = Some n /\ n' = t_name t /\ cg_data g = src /\
      forall fd, ~ is_dst (cg_fds g) fd
  | unlinkat d n _ => d = dst_fd /\ own_name n /\ cg_done g = false
  | posix_fadvise _ _ _ _ | malloc _ | getpid | eprintf _ => True
  | _ => False
  end.

(** A read at [o]: source bytes, none only at the end of the file. *)
Definition reads (o n : Z) (d : bytes) : Prop :=
  d `prefix_of` drop (Z.to_nat o) src /\ zlen d <= Z.max 0 n /\ (d = [] -> n <= 0 \/ zlen src <= Z.max 0 o).

(** What the calls document: fresh descriptors; a positive count written;
    copy_file_range is refused as a whole or not at all; lseek finds all data;
    a file this process created is regular, with at most the mode asked for;
    the status flags of a descriptor can be changed, except that O_DIRECT may be
    refused where it was not on before; a file that exists can be removed. *)
Definition copy_adm (g : cghost) R (e : posix R) : R -> Prop :=
  match e in posix R return R -> Prop with
  | openat _ _ _ _ => fun r => match r with Ok fd => 0 <= fd /\ cg_fds g !! fd = None | Err _ => True end
  | read fd n => fun r => match r, cg_fds g !! fd with Ok d, Some (RSrc o) => reads o n d | _, _ => True end
  | pread _ n o => fun r => match r with Ok d => reads o n d | Err _ => True end
  | write _ d | pwrite _ d _ => fun r => match r with Ok w => d <> [] -> 1 <= w <= zlen d | Err _ => True end
  | copy_file_range _ i _ _ n => fun r =>
      match r with
      | Ok m => 0 <= m <= Z.max 0 n /\ (m = 0 \/ i + m <= zlen src)
      | Err e => copy_file_range_unsupported_errno_local e = true -> cg_cfr g = false
      end
  | seek_data _ p => fun r =>
      match r with
      | Ok d => p <= d /\ forall x b, p <= Z.of_nat x < d -> src !! x = Some b -> b = x00
      | Err e => e = ENXIO -> forall x b, p <= Z.of_nat x -> src !! x = Some b -> b = x00
      end
  | seek_hole _ p => fun r => match r with Ok h => p < h | Err _ => True end
  | fstat fd => fun r =>
      is_dst (cg_fds g) fd ->
      exists st, r = Ok st /\ S_ISREG (st_mode st) = true /\
        match cg_mode g with
        | Some m => perm_bits st = m
        | None => forall m, cg_req g = Some m -> Z.ldiff (perm_bits st) m = 0
        end
  | fcntl_setfl _ fl => fun r =>
      match r with Ok _ => True | Err _ => has_bits fl O_DIRECT = true /\ cg_direct g = false end
  | unlinkat _ n _ => fun r => cg_name g = Some n -> r = Ok tt
  | _ => fun _ => True
  end.

Definition copy_upd (g : cghost) R (e : posix R) : R -> cghost :=
  match e in posix R return R -> cghost with
  | openat d n fl m => fun r =>
      match r with
      | Ok fd =>
          if has_bits fl O_CREAT then
            CG (<[fd := RDst 0]> (cg_fds g)) [] (Some n) (if has_bits fl O_EXCL then Some m else None) None None false (has_bits fl O_DIRECT) (cg_done g)
          else with_fds (insert fd (if decide (d = src_fd) then RSrc 0 else RDst 0)) g
      | Err _ => g
      end
  | close fd => fun _ => with_fds (delete fd) g
  | read fd _ => fun r =>
      match r, cg_fds g !! fd with Ok d, Some (RSrc o) => with_fds (insert fd (RSrc (o + zlen d))) g | _, _ => g end
  | write fd d => fun r =>
      match r, cg_fds g !! fd with
      | Ok w, Some (RDst o) =>
          with_data (store_at (Z.to_nat o) (take (Z.to_nat w) d) (cg_data g)) (with_fds (insert fd (RDst (o + w))) g)
      | _, _ => g
      end
  | pwrite _ d o => fun r =>
      match r with Ok w => with_data (store_at (Z.to_nat o) (take (Z.to_nat w) d) (cg_data g)) g | Err _ => g end
  | copy_file_range _ i _ o _ => fun r =>
      match r with
      | Ok m =>
          if decide (m = 0) then g else
          let g := with_data (store_at (Z.to_nat o) (take (Z.to_nat m) (drop (Z.to_nat i) src)) (cg_data g)) g in
          CG (cg_fds g) (cg_data g) (cg_name g) (cg_req g) (cg_mode g) (cg_times g) true (cg_direct g) (cg_done g)
      | Err _ => g
      end
  | ftruncate _ n => fun r => match r with Ok _ => with_data (resize (Z.to_nat n) (cg_data g)) g | Err _ => g end
  | fstat fd => fun r =>
      match r, cg_fds g !! fd with Ok st, Some (RDst _) => with_mode (Some (perm_bits st)) g | _, _ => g end
  | fchown _ _ _ => fun r => match r with Ok _ => with_mode (strip (cg_mode g)) g | Err _ => g end
  | fchmod _ m => fun r => 
      match r with
      | Ok _ => CG (cg_fds g) (cg_data g) (cg_name g) None (Some (m &. o07777)) (cg_times g) (cg_cfr g) (cg_direct g) (cg_done g)
      | Err _ => g
      end
  | futimens _ a m => fun r =>
      match r with
      | Ok _ => CG (cg_fds g) (cg_data g) (cg_name g) (cg_req g) (cg_mode g) (Some (a, m)) (cg_cfr g) (cg_direct g) (cg_done g)
      | Err _ => g
      end
  | renameat _ _ _ _ => fun r =>
      match r with
      | Ok _ => CG (cg_fds g) (cg_data g) None (cg_req g) (cg_mode g) (cg_times g) (cg_cfr g) (cg_direct g) true
      | Err _ => g
      end
  | unlinkat _ n _ => fun r =>
      match r with
      | Ok _ => CG (cg_fds g) (cg_data g) (if decide (cg_name g = Some n) then None else cg_name g) (cg_req g) (cg_mode g)
                  (cg_times g) (cg_cfr g) (cg_direct g) (cg_done g)
      | Err _ => g
      end
  | _ => fun _ => g
  end.

Definition copying : monitor posix := Monitor cghost copy_pre copy_adm copy_upd False.

(** ** Programs the monitor does not notice *)

Definition unseen {A} (c : FM A) : Prop := forall s g, wpM copying c s g (fun g' _ _ => g' = g).

Lemma unseen_ret {A} (a : A) : unseen (mret a).
Proof. intros s g. by wp_step. Qed.
Lemma unseen_bind {A B} (f : A -> FM B) (c : FM A) : unseen c -> (forall a, unseen (f a)) -> unseen (c ≫= f).
Proof. intros Hc Hf s g. wp_step. eapply wpM_mono; [apply Hc|]. intros g' a s' ->. apply Hf. Qed.
Lemma unseen_gets {A} (f : fsu -> A) : unseen (gets f).
Proof. intros s g. by wp_step. Qed.
Lemma unseen_modify (f : fsu -> fsu) : unseen (modify f).
Proof. intros s g. by wp_step. Qed.
Lemma unseen_call {R} (e : posix R) : (forall g, copy_pre g R e) -> (forall g r, copy_upd g R e r = g) -> unseen (call e).
Proof. intros Hp Hu s g. apply wpM_call; [apply Hp|]. intros r _. apply Hu. Qed.
Lemma unseen_when (b : bool) (c : FM unit) : unseen c -> unseen (when b c).
Proof. intros Hc. destruct b; [done|apply unseen_ret]. Qed.
Lemma wpM_unseen {A} (c : FM A) s g Q : unseen c -> (forall a s', Q g a s') -> wpM copying c s g Q.
Proof. intros Hc HQ. eapply wpM_mono; [apply Hc|]. intros g' a s' ->. apply HQ. Qed.

Ltac unseen :=
  repeat first
    [ progress cbn zeta | apply unseen_ret | apply unseen_bind; [|intros ?] | apply unseen_gets | apply unseen_modify
    | apply unseen_call; done | apply unseen_when | case_decide
    | match goal with |- unseen (match ?x with _ => _ end) => destruct x end ].
Lemma unseen_complain l : unseen (complain l).
Proof. unfold complain. unseen. Qed.
Lemma unseen_fadvise fd o l a : unseen (fadvise fd o l a).
Proof. unfold fadvise. unseen. Qed.
Lemma unseen_source_streaming fd : unseen (advise_source_streaming fd).
Proof. unfold advise_source_streaming, fadvise. unseen. Qed.
Lemma unseen_dest_streaming fd : unseen (advise_dest_streaming fd).
Proof. unfold advise_dest_streaming, fadvise. unseen. Qed.
Lemma unseen_consumed fd o l : unseen (advise_source_consumed fd o l).
Proof. unfold advise_source_consumed, fadvise. unseen. Qed.
Lemma unseen_flush b : unseen (fadvise_batch_flush b).
Proof. unfold fadvise_batch_flush, fadvise. unseen. Qed.
Lemma unseen_add b fd o l : unseen (fadvise_batch_add b fd o l).
Proof. unfold fadvise_batch_add, fadvise_batch_flush, fadvise. unseen. Qed.
Lemma unseen_buffer n : unseen (thread_io_buffer n).
Proof. unfold thread_io_buffer. unseen. Qed.
Lemma unseen_not_preserved : unseen note_chown_not_preserved.
Proof. unfold note_chown_not_preserved, complain. unseen. Qed.
Lemma unseen_wants_direct env r n : unseen (small_bulk_wants_direct env r dst_fd n).
Proof. unfold small_bulk_wants_direct, dst_fs_direct_ok. unseen. Qed.
End copying.

Create HintDb unseen.
#[export] Hint Resolve unseen_complain unseen_fadvise unseen_source_streaming unseen_dest_streaming unseen_consumed unseen_flush
  unseen_when unseen_add unseen_buffer unseen_not_preserved unseen_wants_direct unseen_modify unseen_gets : unseen.

(** Pass over a program the monitor does not notice. *)
Tactic Notation "wp_unseen" := apply wpM_unseen; [solve [auto with unseen]|].
Ltac wp_pures := repeat first [wp_step_pure; cbn beta | wp_unseen; intros ? ?; cbn beta].

(** * Moving bytes *)

(** What writing keeps. *)
Definition alike (g g' : cghost) : Prop :=
  cg_name g' = cg_name g /\ cg_req g' = cg_req g /\ cg_done g' = cg_done g /\ strip (cg_mode g') = strip (cg_mode g).
#[export] Instance alike_preorder : PreOrder alike.
Proof. split; [by intros g|]. intros g1 g2 g3 (?&?&?&?) (?&?&?&?). split_and!; congruence. Qed.
Lemma alike_data d g : alike g (with_data d g).
Proof. split_and!; try done. apply strip_idem. Qed.
Lemma alike_fds f g : alike g (with_fds f g).
Proof. done. Qed.
Lemma alike_after_data d f g g' : alike (with_data d (with_fds f g)) g' -> alike g g'.
Proof. intros H. etrans; [|exact H]. apply (alike_data d (with_fds f g)). Qed.

Lemma prefix_drop {A} (d l : list A) p n : d `prefix_of` drop p l -> drop n d `prefix_of` drop (p + n) l.
Proof.
  intros [k Hk]. rewrite <- drop_drop, Hk. destruct (decide (n <= length d)%nat).
  - rewrite drop_app_le by done. by eexists.
  - rewrite (drop_ge d) by lia. apply prefix_nil.
Qed.
Lemma prefix_take {A} (d l : list A) n : d `prefix_of` l -> take n d `prefix_of` l.
Proof. intros H. etrans; [|exact H]. exists (drop n d). symmetry. apply take_drop. Qed.
Lemma take_not_nil {A} (l : list A) n : l <> [] -> (n <> 0)%nat -> take n l <> [].
Proof. by destruct l, n. Qed.
Lemma take_zlen {A} (l : list A) w : w <= zlen l -> length (take (Z.to_nat w) l) = Z.to_nat w.
Proof. unfold zlen. intros. rewrite length_take. lia. Qed.

Section moving.
Context (src_fd dst_fd : Z) (t : task) (inplace : bool) (src : bytes).
Abbreviation CM := (copying src_fd dst_fd t inplace src).

Lemma pwrite_all_ok fuel fd d pos s g :
  0 <= pos -> (length d <= fuel)%nat -> is_dst (cg_fds g) fd -> d `prefix_of` drop (Z.to_nat pos) src ->
  holds src (Z.to_nat pos) (cg_data g) -> (d = [] -> full src (Z.to_nat pos) (cg_data g)) ->
  wpM CM (pwrite_all fuel fd d pos) s g (fun g' ok _ =>
    alike g g' /\ cg_fds g' = cg_fds g /\ (ok = true -> full src (Z.to_nat (pos + zlen d)) (cg_data g'))).
Proof.
  revert d pos s g. induction fuel as [|fuel IH]; intros d pos s g Hp Hf Hd Hpre Hh Hn.
  { assert (d = []) as -> by (apply nil_length_inv; lia). cbn [pwrite_all]. wp_step. split_and!; [done|done|].
    intros _. rewrite zlen_nil, Z.add_0_r. auto. }
  destruct (decide (d = [])) as [->|Hne].
  { cbn [pwrite_all]. wp_step. split_and!; [done|done|]. intros _. rewrite zlen_nil, Z.add_0_r. auto. }
  assert (E : pwrite_all (S fuel) fd d pos = (w ← call (pwrite fd d pos);
     match w with
     | Err _ => complain (str "pwrite");; mret false
     | Ok w => pwrite_all fuel fd (drop (Z.to_nat w) d) (pos + w)
     end)) by (by destruct d). rewrite E. clear E.
  wp_call w Hw. cbn in Hw. destruct w as [w|e]; [specialize (Hw Hne)|wp_pures; by split_and!].
  assert (Hlw := take_zlen d w ltac:(lia)).
  set (g1 := with_data (store_at (Z.to_nat pos) (take (Z.to_nat w) d) (cg_data g)) g).
  assert (Hfull : full src (Z.to_nat (pos + w)) (cg_data g1)).
  { replace (Z.to_nat (pos + w)) with (Z.to_nat pos + length (take (Z.to_nat w) d))%nat by lia.
    apply holds_store; [done|by apply prefix_take|apply take_not_nil; [done|lia]]. }
  eapply wpM_mono; [apply (IH _ _ s g1); try done|].
  - lia.
  - rewrite length_drop. lia.
  - replace (Z.to_nat (pos + w)) with (Z.to_nat pos + Z.to_nat w)%nat by lia. by apply prefix_drop.
  - by apply full_holds.
  - intros g' ok s' (Ha & Hfd & Hok). split_and!; [by apply (alike_after_data _ id) in Ha|done|].
    replace (pos + w + zlen (drop (Z.to_nat w) d)) with (pos + zlen d) in Hok; [done|].
    unfold zlen in *. rewrite length_drop. lia.
Qed.

Lemma write_all_ok fuel fd d pos s g :
  0 <= pos -> (length d <= fuel)%nat -> cg_fds g !! fd = Some (RDst pos) -> d `prefix_of` drop (Z.to_nat pos) src ->
  holds src (Z.to_nat pos) (cg_data g) -> (d = [] -> full src (Z.to_nat pos) (cg_data g)) ->
  wpM CM (write_all fuel fd d) s g (fun g' ok _ =>
    alike g g' /\ (if ok then cg_fds g' = <[fd := RDst (pos + zlen d)]> (cg_fds g)
                   else exists o, cg_fds g' = <[fd := RDst o]> (cg_fds g)) /\
    (ok = true -> full src (Z.to_nat (pos + zlen d)) (cg_data g'))).
Proof.
  revert d pos s g. induction fuel as [|fuel IH]; intros d pos s g Hp Hf Hd Hpre Hh Hn.
  { assert (d = []) as -> by (apply nil_length_inv; lia). cbn [write_all]. wp_step. rewrite zlen_nil, Z.add_0_r.
    split_and!; [done|by rewrite insert_id|auto]. }
  destruct (decide (d = [])) as [->|Hne].
  { cbn [write_all]. wp_step. rewrite zlen_nil, Z.add_0_r. split_and!; [done|by rewrite insert_id|auto]. }
  assert (E : write_all (S fuel) fd d = (w ← call (write fd d);
     match w with
     | Err _ => complain (str "write");; mret false
     | Ok w => write_all fuel fd (drop (Z.to_nat w) d)
     end)) by (by destruct d). rewrite E. clear E.
  wp_call w Hw; [by exists pos|]. cbn in Hw. destruct w as [w|e].
  2: { wp_pures. split_and!; try done. exists pos. by rewrite insert_id. }
  specialize (Hw Hne). assert (Hlw := take_zlen d w ltac:(lia)). cbn [mupd CM copying copy_upd]. rewrite Hd.
  set (g1 := with_data (store_at (Z.to_nat pos) (take (Z.to_nat w) d) (cg_data g)) (with_fds (insert fd (RDst (pos + w))) g)).
  assert (Hfull : full src (Z.to_nat (pos + w)) (cg_data g1)).
  { replace (Z.to_nat (pos + w)) with (Z.to_nat pos + length (take (Z.to_nat w) d))%nat by lia.
    apply holds_store; [done|by apply prefix_take|apply take_not_nil; [done|lia]]. }
  eapply wpM_mono; [apply (IH _ (pos + w) s g1); try done|].
  - lia.
  - rewrite length_drop. lia.
  - cbn. by rewrite lookup_insert_eq.
  - replace (Z.to_nat (pos + w)) with (Z.to_nat pos + Z.to_nat w)%nat by lia. by apply prefix_drop.
  - by apply full_holds.
  - replace (pos + w + zlen (drop (Z.to_nat w) d)) with (pos + zlen d) by (unfold zlen in *; rewrite length_drop; lia).
    intros g' ok s' (Ha & Hfd & Hok). split_and!; [by apply alike_after_data in Ha| |done].
    subst g1. cbn in Hfd. destruct ok; [|destruct Hfd as [o Hfd]; exists o]; by rewrite Hfd, insert_insert_eq.
Qed.

(** ** copy_file_range *)

Lemma cfr_ok fuel fd_in fd_out pos n s g :
  0 <= pos -> n <= Z.of_nat fuel -> is_src (cg_fds g) fd_in -> is_dst (cg_fds g) fd_out ->
  full src (Z.to_nat pos) (cg_data g) ->
  wpM CM (copy_file_range_with_progress fuel fd_in fd_out pos pos n) s g (fun g' rc _ =>
    alike g g' /\ cg_fds g' = cg_fds g /\
    match rc with
    | CfrDone => full src (Z.to_nat (pos + Z.max 0 n)) (cg_data g') /\ (0 < n \/ cg_cfr g = true -> cg_cfr g' = true)
    | CfrUnsupported => g' = g /\ cg_cfr g = false
    | CfrFailed => True
    end).
Proof.
  revert pos n s g. induction fuel as [|fuel IH]; intros pos n s g Hp Hf Hs Hd Hfull; cbn [copy_file_range_with_progress].
  all: destruct (decide (n <= 0)) as [Hn|Hn]; [wp_step; replace (pos + Z.max 0 n) with pos by lia; split_and!; try done; by intros [?|?]; [lia|]|].
  { lia. }
  wp_call m Hm. cbn in Hm. destruct m as [m|e].
  2: { destruct (copy_file_range_unsupported_errno_local e) eqn:E; cbn [mupd CM copying copy_upd];
       [wp_step; split_and!; try done; by apply Hm|wp_pures; by split_and!]. }
  destruct (decide (m = 0)) as [->|Hm0]; [wp_pures; by split_and!|]. wp_pures.
  cbn [mupd CM copying copy_upd]. rewrite decide_False by done.
  set (d := take (Z.to_nat m) (drop (Z.to_nat pos) src)). set (g1 := CG _ _ _ _ _ _ _ _ _).
  assert (Hl : length d = Z.to_nat m) by (subst d; rewrite length_take, length_drop; unfold zlen in *; lia).
  assert (Hfull1 : full src (Z.to_nat (pos + m)) (cg_data g1)).
  { replace (Z.to_nat (pos + m)) with (Z.to_nat pos + length d)%nat by lia.
    apply holds_store; [by apply full_holds|by apply prefix_take|]. intros E. rewrite E in Hl. simpl in Hl. lia. }
  eapply wpM_mono; [apply (IH (pos + m) (n - m) _ g1); try done; lia|].
  intros g' rc s2 (Ha & Hfd & Hrc). split_and!; [etrans; [|exact Ha]; split_and!; try done; apply strip_idem|done|].
  destruct rc; [|by destruct Hrc|done]. destruct Hrc as [Hrc Hc].
  replace (pos + Z.max 0 n) with (pos + m + Z.max 0 (n - m)) by lia. split; [done|]. intros _. apply Hc. by right.
Qed.

(** ** Positioned copies *)

(** What [pread] returned. *)
Lemma reads_length o n d : 0 <= o -> reads src o n d -> o + zlen d <= zlen src \/ d = [].
Proof.
  intros Ho ([k Hk] & _ & _). destruct (decide (d = [])); [by right|left].
  apply (f_equal length) in Hk. rewrite length_app, length_drop in Hk. unfold zlen.
  assert (length d <> 0%nat) by (intros ?; by apply nil_length_inv in H). lia.
Qed.

Lemma tail_loop_ok fuel fd_in fd_out pos end_ s g :
  0 <= pos -> end_ <= zlen src -> end_ - pos <= Z.of_nat fuel -> is_src (cg_fds g) fd_in -> is_dst (cg_fds g) fd_out ->
  full src (Z.to_nat pos) (cg_data g) ->
  wpM CM (tail_loop fuel fd_in fd_out pos end_) s g (fun g' ok _ =>
    alike g g' /\ cg_fds g' = cg_fds g /\ (ok = true -> full src (Z.to_nat end_) (cg_data g'))).
Proof.
  revert pos s g. induction fuel as [|fuel IH]; intros pos s g Hp He Hf Hs Hd Hfull; cbn [tail_loop].
  all: destruct (decide (end_ <= pos)) as [Hn|Hn];
    [wp_step; split_and!; try done; intros _; apply (full_mono _ _ (Z.to_nat pos)); [lia|done]|].
  { lia. }
  set (len := if decide (end_ - pos < ALIGNMENT) then end_ - pos else ALIGNMENT).
  assert (Hlen : 0 < len <= ALIGNMENT /\ len <= end_ - pos) by (subst len; unfold ALIGNMENT in *; case_decide; lia).
  cbv zeta. wp_call d Hr. cbn in Hr. cbn [mupd CM copying copy_upd].
  destruct d as [d|e]; [|wp_pures; by split_and!]. pose proof (reads_length _ _ _ Hp Hr) as Hlr.
  destruct Hr as (Hpre & Hle & Hend). destruct d as [|b d].
  { destruct (Hend eq_refl); lia. }
  set (d1 := b :: d) in *. assert (0 < zlen d1) by (subst d1; rewrite zlen_cons; pose proof (zlen_nonneg d); lia).
  destruct Hlr as [Hlr|]; [|done].
  wp_step. eapply wpM_mono; [apply pwrite_all_ok; try done|].
  { unfold zlen, ALIGNMENT in *. lia. }
  { by apply full_holds. }
  intros g1 ok s1 (Ha & Hfd & Hok). destruct ok; cbn [negb]; [|wp_step; by split_and!]. wp_pures.
  eapply wpM_mono; [apply (IH (pos + zlen d1)); rewrite ?Hfd; try done; [lia|lia|by apply Hok]|].
  intros g2 ok s2 (Ha2 & Hfd2 & Hok2). split_and!; [by etrans|congruence|done].
Qed.

Lemma range_loop_ok fuel fd_in fd_out pos end_ cap fadv payload s g :
  0 <= pos -> end_ <= zlen src -> 0 < cap -> end_ - pos <= Z.of_nat fuel -> is_src (cg_fds g) fd_in -> is_dst (cg_fds g) fd_out ->
  holds src (Z.to_nat pos) (cg_data g) ->
  wpM CM (range_loop fuel fd_in fd_out pos end_ cap fadv payload) s g (fun g' r _ =>
    alike g g' /\ cg_fds g' = cg_fds g /\ (is_Some r -> holds src (Z.to_nat end_) (cg_data g'))).
Proof.
  intros Hp He Hcap. revert pos fadv payload s g Hp. induction fuel as [|fuel IH]; intros pos fadv payload s g Hp Hf Hs Hd Hh; cbn [range_loop].
  all: destruct (decide (end_ <= pos)) as [Hn|Hn];
    [wp_pures; split_and!; try done; intros _; apply (holds_mono _ _ (Z.to_nat pos)); [lia|done]|].
  { lia. }
  set (len := if decide (end_ - pos < cap) then end_ - pos else cap).
  assert (Hlen : 0 < len /\ len <= end_ - pos) by (subst len; case_decide; lia).
  cbv zeta. wp_call d Hr. cbn in Hr. cbn [mupd CM copying copy_upd].
  destruct d as [d|e]; [|wp_pures; split_and!; try done; by intros [? ?]]. pose proof (reads_length _ _ _ Hp Hr) as Hlr.
  destruct Hr as (Hpre & Hle & Hend). destruct d as [|b d].
  { destruct (Hend eq_refl); lia. }
  set (d1 := b :: d) in *. assert (0 < zlen d1) by (subst d1; rewrite zlen_cons; pose proof (zlen_nonneg d); lia).
  destruct Hlr as [Hlr|]; [|done].
  wp_step. eapply wpM_mono; [apply pwrite_all_ok; done|].
  intros g1 ok s1 (Ha & Hfd & Hok). destruct ok; cbn [negb]; [|wp_step; split_and!; try done; by intros [? ?]]. wp_pures.
  eapply wpM_mono; [apply (IH (pos + zlen d1)); rewrite ?Hfd; try done; [lia|lia|by apply full_holds, Hok]|].
  intros g2 ok s3 (Ha2 & Hfd2 & Hok2). split_and!; [by etrans|congruence|done].
Qed.

Lemma copy_data_extents_ok fuel fd_in fd_out pos cap payload s g :
  0 <= pos -> 0 < cap -> zlen src - pos <= Z.of_nat fuel -> is_src (cg_fds g) fd_in -> is_dst (cg_fds g) fd_out ->
  holds src (Z.to_nat pos) (cg_data g) ->
  wpM CM (copy_data_extents_buffered fuel fd_in fd_out pos (zlen src) cap payload) s g (fun g' r _ =>
    alike g g' /\ cg_fds g' = cg_fds g /\ (is_Some r -> holds src (length src) (cg_data g'))).
Proof.
  intros Hp Hcap. revert pos payload s g Hp. induction fuel as [|fuel IH]; intros pos payload s g Hp Hf Hs Hd Hh; cbn [copy_data_extents_buffered].
  all: destruct (decide (zlen src <= pos)) as [Hn|Hn];
    [wp_pures; split_and!; try done; intros _; apply (holds_mono _ _ (Z.to_nat pos)); [unfold zlen in *; lia|done]|].
  { lia. }
  wp_call d Hr. cbn in Hr. cbn [mupd CM copying copy_upd]. destruct d as [data|e].
  - destruct Hr as [Hle Hz]. destruct (decide (zlen src <= data)) as [Hd1|Hd1].
    { wp_step. split_and!; try done. intros _. eapply holds_zeros; [done|]. intros x b Hx. apply Hz. unfold zlen in *. lia. }
    wp_call h Hh1. cbn in Hh1. cbn [mupd CM copying copy_upd]. destruct h as [hole|e];
      [|wp_pures; split_and!; try done; by intros [? ?]]. cbv zeta.
    set (h := if decide (zlen src < hole) then zlen src else hole).
    assert (Hhb : data < h <= zlen src) by (subst h; case_decide; lia).
    assert (Hh2 : holds src (Z.to_nat data) (cg_data g)).
    { eapply holds_zeros; [done|]. intros x b Hx. apply Hz. lia. }
    wp_step. unfold copy_byte_range_buffered. eapply wpM_mono; [apply range_loop_ok; try done; lia|].
    intros g1 [p1|] s1 (Ha & Hfd & Hok); [|wp_step; split_and!; try done; by intros [? ?]].
    eapply wpM_mono; [apply (IH h); rewrite ?Hfd; try done; [lia|lia|by apply Hok]|].
    intros g2 r s2 (Ha2 & Hfd2 & Hok2). split_and!; [by etrans|congruence|done].
  - destruct (decide (e = ENXIO)) as [->|].
    { wp_step. split_and!; try done. intros _. eapply holds_zeros; [done|]. intros x b Hx. apply Hr; [done|]. lia. }
    case_decide; [|wp_pures; split_and!; try done; by intros [? ?]].
    unfold copy_byte_range_buffered. replace (length src) with (Z.to_nat (zlen src)) by (unfold zlen; lia).
    apply range_loop_ok; try done; lia.
Qed.
End moving.

(** * Opening *)

Section opening.
Context (src_fd dst_fd : Z) (t : task) (inplace : bool) (src : bytes) (Hdirs : src_fd <> dst_fd).
Abbreviation CM := (copying src_fd dst_fd t inplace src).

Lemma with_fds_id f g : f (cg_fds g) = cg_fds g -> with_fds f g = g.
Proof. intros H. unfold with_fds. rewrite H. by destruct g. Qed.
Lemma with_fds_close fd r g : cg_fds g !! fd = None -> with_fds (delete fd) (with_fds (insert fd r) g) = g.
Proof.
  intros H. transitivity (with_fds (fun m => delete fd (<[fd := r]> m)) g); [done|].
  apply with_fds_id. by apply delete_insert_id.
Qed.

Lemma validate_source_ok fd display expected s g :
  is_src (cg_fds g) fd -> wpM CM (validate_opened_source_file fd display expected) s g (fun g' _ _ => g' = g).
Proof.
  intros [o Ho]. unfold validate_opened_source_file. wp_call st Hst; [by eexists|]. cbn [mupd CM copying copy_upd]. rewrite Ho.
  assert (E : (match st with Ok _ | Err _ => g end) = g) by (by destruct st). rewrite E.
  destruct st as [st|e]; [|by wp_pures]. destruct (S_ISREG (st_mode st)); cbn [negb]; [|by wp_pures].
  destruct expected as [e|]; [destruct (same_opened_source e st)|]; by wp_pures.
Qed.

Lemma check_source_ok {A} (x : A) fd display expected s g :
  cg_fds g !! fd = None ->
  wpM CM (ok ← validate_opened_source_file fd display expected; if ok : bool then mret (Some x) else close_ fd;; mret None)
    s (with_fds (insert fd (RSrc 0)) g) (fun g' r _ =>
      match r with Some y => y = x /\ g' = with_fds (insert fd (RSrc 0)) g | None => g' = g end).
Proof.
  intros Hnew. wp_step. eapply wpM_mono; [apply validate_source_ok; exists 0; cbn; by rewrite lookup_insert_eq|].
  intros g1 [] s1 ->; [by wp_pures|]. unfold close_. wp_call c Hc; [cbn; rewrite lookup_insert_eq; by eexists|].
  wp_pures. by apply with_fds_close.
Qed.

(** An open source descriptor; [None] leaves nothing open. *)
Definition opened_src (g g' : cghost) (r : option Z) : Prop :=
  match r with Some fd => 0 <= fd /\ cg_fds g !! fd = None /\ g' = with_fds (insert fd (RSrc 0)) g | None => g' = g end.

Lemma open_read_buffered_ok display expected s g :
  wpM CM (open_read_at_buffered src_fd (t_name t) display expected) s g (fun g' r _ => opened_src g g' r).
Proof.
  unfold open_read_at_buffered. wp_call fd Hfd; [by left|]. cbn [mupd CM copying copy_upd].
  change (has_bits RDONLY_FLAGS O_CREAT) with false. cbv iota. rewrite (decide_True (P := src_fd = src_fd)) by done.
  destruct fd as [fd|e]; [|by wp_pures]. destruct Hfd as [Hfd Hnew].
  eapply wpM_mono; [by apply check_source_ok|]. intros g' [y|] s' H; [|done]. destruct H as [-> ->]. by split_and!.
Qed.
Lemma open_read_maybe_direct_ok env display expected s g :
  wpM CM (open_read_at_maybe_direct env src_fd (t_name t) display expected) s g (fun g' r _ => opened_src g g' (fst <$> r)).
Proof.
  assert (Hb : wpM CM (fd ← open_read_at_buffered src_fd (t_name t) display expected; mret ((fun fd => (fd, false)) <$> fd)) s g
    (fun g' r _ => opened_src g g' (fst <$> r))).
  { wp_step. eapply wpM_mono; [apply open_read_buffered_ok|]. intros g' [fd|] s' H; by wp_step. }
  unfold open_read_at_maybe_direct. cbv zeta. destruct (_ && _); [|done].
  wp_call fd Hfd; [by left|]. cbn [mupd CM copying copy_upd].
  change (has_bits (O_RDONLY |. O_DIRECT |. O_CLOEXEC |. O_NOFOLLOW) O_CREAT) with false. cbv iota.
  rewrite (decide_True (P := src_fd = src_fd)) by done.
  destruct fd as [fd|e]; [|destruct (direct_io_fallback_errno e); [done|by wp_pures]]. destruct Hfd as [Hfd Hnew].
  eapply wpM_mono; [by apply check_source_ok|]. intros g' [y|] s' H; [|done]. destruct H as [-> ->]. by split_and!.
Qed.

(** ** The destination *)

(** A file under [name], open for writing; its bits are [m] of those asked for. *)
Definition created (g g' : cghost) (fd : Z) (name : bytes) (m : Z) : Prop :=
  0 <= fd /\ cg_fds g !! fd = None /\ cg_fds g' = <[fd := RDst 0]> (cg_fds g) /\ cg_data g' = [] /\ cg_name g' = Some name /\
  cg_mode g' = Some m /\ cg_cfr g' = false /\ cg_done g' = cg_done g.

Lemma validate_temp_ok fd display flags s g o :
  cg_fds g !! fd = Some (RDst o) -> (has_bits flags O_DIRECT = true -> cg_direct g = true) ->
  wpM CM (validate_opened_temp_regular fd display flags) s g (fun g' r _ =>
    exists m, r = Ok m /\ g' = with_mode (Some m) g /\
      match cg_mode g with Some q => m = q | None => forall q, cg_req g = Some q -> Z.ldiff m q = 0 end).
Proof.
  intros Hfd Hdir. unfold validate_opened_temp_regular. wp_call st Hst; [by eexists|].
  destruct (Hst (ex_intro _ o Hfd)) as (st0 & -> & Hreg & Hm). cbn [mupd CM copying copy_upd]. rewrite Hfd, Hreg. cbn [negb].
  unfold clear_nonblock. wp_call r Hr; [by exists o|]. cbn in Hr. cbn [mupd CM copying copy_upd].
  assert (has_bits (Z.ldiff flags O_NONBLOCK) O_DIRECT = has_bits flags O_DIRECT) as E.
  { unfold has_bits. f_equal. f_equal. apply Z.bits_inj'. intros n Hn. rewrite !Z.land_spec, Z.ldiff_spec.
    destruct (decide (n = 14)) as [->|]; [by rewrite andb_true_r|].
    replace (Z.testbit O_DIRECT n) with false; [by rewrite !andb_false_r|]. symmetry. by apply (Z.pow2_bits_false 14). }
  destruct r as [u|e]; [wp_pures; by eexists|]. rewrite E in Hr. destruct Hr as [Hr ?]. by rewrite Hdir in *.
Qed.

Lemma check_created_ok fd display flags s g :
  cg_fds g !! fd = Some (RDst 0) -> (has_bits flags O_DIRECT = true -> cg_direct g = true) -> cg_mode g = None ->
  wpM CM (check_created fd display flags) s g (fun g' r _ =>
    exists m, r = Ok (fd, m) /\ g' = with_mode (Some m) g /\ forall q, cg_req g = Some q -> Z.ldiff m q = 0).
Proof.
  intros Hfd Hdir Hmode. unfold check_created. wp_step. eapply wpM_mono; [by eapply validate_temp_ok|].
  intros g' r s' (m & -> & Hg & Hq). rewrite Hmode in Hq. wp_step. by exists m.
Qed.

Lemma create_flags direct :
  let fl := if direct : bool then CREATE_FLAGS |. O_DIRECT else CREATE_FLAGS in
  has_bits fl O_CREAT = true /\ has_bits fl O_EXCL = true /\ has_bits fl O_DIRECT = direct.
Proof. by destruct direct. Qed.
Lemma trunc_flags direct :
  let fl := if direct : bool then TRUNC_FLAGS |. O_DIRECT else TRUNC_FLAGS in
  has_bits fl O_CREAT = true /\ has_bits fl O_EXCL = false /\ has_bits fl O_DIRECT = direct.
Proof. by destruct direct. Qed.

Lemma open_temp_created_once_ok tmp display mode direct s g :
  temp_name tmp ->
  wpM CM (open_temp_created_once dst_fd tmp display mode direct) s g (fun g' r _ =>
    match r with Ok (fd, m) => created g g' fd tmp m /\ Z.ldiff m mode = 0 | Err _ => g' = g end).
Proof.
  intros Htmp. unfold open_temp_created_once. destruct (create_flags direct) as (Hc & He & Hd). cbv zeta.
  set (fl := if direct then _ else _) in *. wp_call r Hr; [cbn; by rewrite Hc, He|]. cbn [mupd CM copying copy_upd]. rewrite Hc, He.
  destruct r as [fd|e]; [|by wp_step]. destruct Hr as [Hfd Hnew].
  eapply wpM_mono; [apply check_created_ok; [cbn; by rewrite lookup_insert_eq|done|done]|].
  intros g' r s' (m & -> & -> & Hq). split; [by split_and!|by apply Hq].
Qed.

Lemma make_temp_name_ok s g :
  wpM CM (make_temp_name PATH_MAX) s g (fun g' r _ => g' = g /\ exists tmp, r = Ok tmp /\ temp_name tmp).
Proof.
  unfold make_temp_name. wp_pures. rewrite decide_False by done. wp_call pid Hpid. wp_step. split; [done|].
  eexists. split; [done|]. by eexists.
Qed.

(** The mode of a new file is final only when it has no set-id bits. *)
Definition mode_settled (m mode : Z) : Prop := m = mode -> strip (Some m) = Some m.
Lemma no_setid_settled m q mode : q &. (S_ISUID |. S_ISGID) = 0 -> Z.ldiff m q = 0 -> mode_settled m mode.
Proof.
  intros Hq H _. simpl. enough (has_bits m (S_ISUID |. S_ISGID) = false) as -> by done.
  unfold has_bits. apply negb_false_iff, Z.eqb_eq. change 0 with (0 &. (S_ISUID |. S_ISGID)). rewrite <- H.
  apply Z.bits_inj'. intros n Hn. rewrite !Z.land_spec, Z.ldiff_spec.
  assert (E : Z.testbit (q &. (S_ISUID |. S_ISGID)) n = false) by (by rewrite Hq, Z.bits_0). rewrite Z.land_spec in E.
  destruct (Z.testbit m n), (Z.testbit q n), (Z.testbit _ n); done.
Qed.
Lemma copy_data_mode_setid mode : copy_data_mode mode &. (S_ISUID |. S_ISGID) = 0.
Proof.
  unfold copy_data_mode. rewrite !Z.land_lor_distr_l, <- Z.land_assoc.
  change (o0777 &. (S_ISUID |. S_ISGID)) with 0. by rewrite Z.land_0_r.
Qed.
Lemma buffered_mode_settled m mode : Z.ldiff m (buffered_create_mode mode) = 0 -> mode_settled m mode.
Proof.
  unfold buffered_create_mode. intros Hm. destruct (has_bits mode _) eqn:E.
  - eapply no_setid_settled; [apply copy_data_mode_setid|done].
  - intros ->. simpl. by rewrite E.
Qed.
Lemma copy_mode_settled m mode : Z.ldiff m (copy_data_mode mode) = 0 -> mode_settled m mode.
Proof. apply no_setid_settled, copy_data_mode_setid. Qed.

Lemma create_temp_loop_ok n display mode direct s g :
  cg_name g = None -> cg_done g = false ->
  wpM CM (create_temp_loop n dst_fd display mode PATH_MAX direct (buffered_create_mode mode)) s g (fun g' r _ =>
    match r with
    | Some (fd, _, m, tmp) => created g g' fd tmp m /\ mode_settled m mode /\ temp_name tmp
    | None => g' = g
    end).
Proof.
  revert s. induction n as [|n IH]; intros s Hn Hd; cbn [create_temp_loop]; [by wp_pures|]. cbv zeta.
  wp_step. eapply wpM_mono; [apply make_temp_name_ok|]. intros g1 r s1 (-> & tmp & -> & Htmp).
  assert (Hbuf : forall s, wpM CM
     (r ← open_temp_created_once dst_fd tmp display (buffered_create_mode mode) false;
      match r with
      | Ok (fd, m) => mret (Some (fd, false, m, tmp))
      | Err e => if decide (e = EEXIST) then create_temp_loop n dst_fd display mode PATH_MAX direct (buffered_create_mode mode)
                 else complain display;; mret None
      end) s g (fun g' r _ =>
        match r with
        | Some (fd, _, m, tmp) => created g g' fd tmp m /\ mode_settled m mode /\ temp_name tmp
        | None => g' = g
        end)).
  { intros s2. wp_step. eapply wpM_mono; [by apply open_temp_created_once_ok|].
    intros g2 [[fd m]|e] s3 Hr; [wp_step; destruct Hr; split_and!; [done|by apply buffered_mode_settled|done]|].
    cbn in Hr. subst g2. case_decide; [by apply IH|by wp_pures]. }
  destruct direct; [|apply Hbuf].
  wp_step. eapply wpM_mono; [by apply open_temp_created_once_ok|].
  intros g2 [[fd m]|e] s3 Hr; [wp_step; destruct Hr; split_and!; [done|by apply copy_mode_settled|done]|].
  cbn in Hr. subst g2. case_decide; [by apply IH|]. destruct (direct_io_fallback_errno e); cbn [negb]; [|by wp_pures].
  wp_call u Hu; [split_and!; [done|by left|done]|]. cbn [mupd CM copying copy_upd].
  enough ((match u with Ok _ => CG (cg_fds g) (cg_data g) (if decide (cg_name g = Some tmp) then None else cg_name g) (cg_req g) (cg_mode g)
      (cg_times g) (cg_cfr g) (cg_direct g) (cg_done g) | Err _ => g end) = g) as -> by apply Hbuf.
  destruct u; [|done]. rewrite Hn, decide_False by done. rewrite <- Hn. by destruct g.
Qed.
Lemma create_temp_ok env display mode size s g :
  cg_name g = None -> cg_done g = false ->
  wpM CM (create_temp_write_at_maybe_direct env dst_fd display mode size PATH_MAX false) s g (fun g' r _ =>
    match r with
    | Some (fd, _, m, tmp) => created g g' fd tmp m /\ mode_settled m mode /\ temp_name tmp
    | None => g' = g
    end).
Proof. intros. unfold create_temp_write_at_maybe_direct. by apply create_temp_loop_ok. Qed.

Lemma open_final_created_once_ok display mode direct s g :
  inplace = true ->
  wpM CM (open_final_created_once dst_fd (t_name t) display mode direct) s g (fun g' r _ =>
    match r with Ok (fd, m) => created g g' fd (t_name t) m | Err _ => g' = g end).
Proof.
  intros Hin. unfold open_final_created_once. destruct (trunc_flags direct) as (Hc & He & Hd). cbv zeta.
  set (fl := if direct then _ else _) in *.
  assert (Hopen : forall s : fsu, wpM CM (call (openat dst_fd (t_name t) fl mode)) s g (fun g' r _ =>
     match r with
     | Ok fd => 0 <= fd /\ cg_fds g !! fd = None /\
         g' = CG (<[fd := RDst 0]> (cg_fds g)) [] (Some (t_name t)) None None None false direct (cg_done g)
     | Err _ => g' = g
     end)).
  { intros s0. wp_call r Hr; [cbn; by rewrite Hc, He|]. cbn [mupd CM copying copy_upd]. rewrite Hc, He, Hd.
    destruct r as [fd|e]; [by destruct Hr|done]. }
  wp_step. eapply wpM_mono; [apply Hopen|]. intros g1 r s1 Hr.
  wp_step. apply (wpM_mono CM _ _ _ (fun (g' : cghost) (r : res Z) (_ : fsu) =>
     match r with
     | Ok fd => 0 <= fd /\ cg_fds g !! fd = None /\
         g' = CG (<[fd := RDst 0]> (cg_fds g)) [] (Some (t_name t)) None None None false direct (cg_done g)
     | Err _ => g' = g
     end)).
  { destruct r as [fd|e]; [by wp_step|]. subst g1. case_decide; [|by wp_step].
    wp_call c Hcm. destruct c; [|by wp_step]. cbn [mupd CM copying copy_upd]. apply Hopen. }
  clear Hr r g1 s1. intros g1 [fd|e] s1 Hr; [|by wp_step]. destruct Hr as (Hfd & Hnew & ->).
  eapply wpM_mono; [apply check_created_ok; [cbn; by rewrite lookup_insert_eq|by rewrite Hd|done]|].
  intros g' r s' (m & -> & -> & _). by split_and!.
Qed.
Lemma create_final_ok env display mode size s g :
  inplace = true ->
  wpM CM (create_final_write_at_maybe_direct env dst_fd (t_name t) display mode size) s g (fun g' r _ =>
    match r with Some (fd, _, m) => created g g' fd (t_name t) m | None => g' = g end).
Proof.
  intros Hin. unfold create_final_write_at_maybe_direct. cbv zeta.
  assert (Hbuf : forall s, wpM CM
    (r ← open_final_created_once dst_fd (t_name t) display (buffered_create_mode mode) false;
     match r with Ok (fd, m) => mret (Some (fd, false, m)) | Err _ => complain display;; mret None end) s g (fun g' r _ =>
       match r with Some (fd, _, m) => created g g' fd (t_name t) m | None => g' = g end)).
  { intros s0. wp_step. eapply wpM_mono; [by apply open_final_created_once_ok|].
    intros g1 [[fd m]|e] s1 Hr; [by wp_step|]. cbn in Hr. subst g1. by wp_pures. }
  destruct (_ && _); [|apply Hbuf]. wp_step. eapply wpM_mono; [by apply open_final_created_once_ok|].
  intros g1 [[fd m]|e] s1 Hr; [by wp_step|]. cbn in Hr. subst g1.
  destruct (direct_io_fallback_errno e); [apply Hbuf|by wp_pures].
Qed.

Lemma open_temp_existing_ok name display s g :
  cg_name g = Some name ->
  wpM CM (open_temp_write_existing_at_buffered dst_fd name display) s g (fun g' r _ =>
    match r with
    | Some fd => 0 <= fd /\ cg_fds g !! fd = None /\ cg_fds g' = <[fd := RDst 0]> (cg_fds g) /\ cg_data g' = cg_data g /\
        cg_name g' = cg_name g /\ cg_done g' = cg_done g /\ cg_cfr g' = cg_cfr g /\
        forall m, cg_mode g = Some m -> cg_mode g' = Some m
    | None => g' = g
    end).
Proof.
  intros Hname. unfold open_temp_write_existing_at_buffered. wp_call fd Hfd; [by right|]. cbn [mupd CM copying copy_upd].
  change (has_bits WRONLY_FLAGS O_CREAT) with false. cbv iota. rewrite (decide_False (P := dst_fd = src_fd)) by congruence.
  destruct fd as [fd|e]; [|by wp_pures]. destruct Hfd as [Hfd Hnew].
  wp_step. eapply wpM_mono; [eapply validate_temp_ok; [cbn; by rewrite lookup_insert_eq|done]|].
  intros g1 r s1 (m & -> & -> & Hm). wp_step. split_and!; try done. intros q Hq. cbn in Hm |- *. rewrite Hq in Hm. by subst.
Qed.
End opening.

(** * Finishing *)

(** What changing a file's metadata keeps. *)
Definition kept (g g' : cghost) : Prop :=
  cg_fds g' = cg_fds g /\ cg_data g' = cg_data g /\ cg_name g' = cg_name g /\ cg_done g' = cg_done g.
(** The metadata of [st] are in place. *)
Definition sealed (env : fsenv) (st : stat) (g : cghost) : Prop :=
  cg_mode g = Some (perm_bits st) /\
  (copy_policy_preserve_times (e_policy env) = true -> cg_times g = Some (st_atim st, st_mtim st)).

Section finishing.
Context (src_fd dst_fd : Z) (t : task) (inplace : bool) (src : bytes) (Hdirs : src_fd <> dst_fd).
Abbreviation CM := (copying src_fd dst_fd t inplace src).

Lemma apply_owner_ok env fd st s g :
  is_dst (cg_fds g) fd -> cg_data g = src ->
  wpM CM (apply_owner env (fchown fd) (str "fchown") st) s g (fun g' _ _ => kept g g' /\ strip (cg_mode g') = strip (cg_mode g)).
Proof.
  intros Hfd Hd. unfold apply_owner. destruct (owner_matches_self env st); [by wp_step|].
  destruct (chown_ids env st) as [uid gid]. wp_step.
  apply (wpM_mono CM _ _ _ (fun (g' : cghost) (_ : Z) (_ : fsu) => kept g g' /\ strip (cg_mode g') = strip (cg_mode g))).
  { case_decide; [|by wp_step]. wp_call r Hr. wp_step. destruct r; cbn; split; try done. apply strip_idem. }
  intros g1 e s1 Hg. destruct (negb _ && negb _); [by wp_pures|]. wp_step.
  destruct (_ || _); cbn [when]; by wp_pures.
Qed.

Lemma preserve_fd_metadata_ok env fd st known s g :
  is_dst (cg_fds g) fd -> cg_data g = src ->
  wpM CM (preserve_fd_metadata_impl env fd st known) s g (fun g' ok _ =>
    kept g g' /\ (ok = true -> (known = perm_bits st -> strip (cg_mode g) = Some (perm_bits st)) -> sealed env st g')).
Proof.
  intros Hfd Hd. unfold preserve_fd_metadata_impl. wp_step. eapply wpM_mono; [by apply apply_owner_ok|].
  intros g1 ok s1 [Hk Hst]. destruct ok; cbn [negb]; [|by wp_step]. fold (perm_bits st). cbv zeta.
  assert (Hfd1 : is_dst (cg_fds g1) fd /\ cg_data g1 = src) by (destruct Hk as (-> & -> & _); done).
  wp_step. apply (wpM_mono CM _ _ _ (fun (g' : cghost) (ok : bool) (_ : fsu) => kept g g' /\
    (ok = true -> (known = perm_bits st -> strip (cg_mode g) = Some (perm_bits st)) -> cg_mode g' = Some (perm_bits st)))).
  { destruct (_ || _) eqn:E.
    - wp_call r Hr. destruct r; wp_pures; (split; [done|]); [|done]. intros _ _. cbn. unfold perm_bits. by rewrite <- Z.land_assoc.
    - wp_step. split; [done|]. intros _ Hm. apply orb_false_iff in E as [_ E]. apply negb_false_iff, bool_decide_eq_true in E.
      specialize (Hm E). rewrite <- Hst in Hm. destruct (cg_mode g1) as [m|]; [|done]. simpl in Hm.
      destruct (has_bits m _); [done|]. by injection Hm as ->. }
  clear Hk Hst Hfd1 g1. intros g1 ok s2 [Hk Hm]. destruct ok; cbn [negb]; [|by wp_step].
  assert (Hfd1 : is_dst (cg_fds g1) fd /\ cg_data g1 = src) by (destruct Hk as (-> & -> & _); done).
  destruct (copy_policy_preserve_times _) eqn:Et.
  - wp_call r Hr. destruct r; wp_pures; (split; [done|]); [|done]. intros _ Hm'. split; [by apply Hm|done].
  - wp_step. split; [done|]. intros _ Hm'. split; [by apply Hm|congruence].
Qed.

(** A descriptor that holds the file again, through its name. *)
Lemma preserve_path_metadata_at_ok env name display st ty s g :
  cg_name g = Some name -> cg_data g = src ->
  wpM CM (preserve_path_metadata_at env dst_fd name display st ty) s g (fun g' ok _ =>
    kept g g' /\ (ok = true -> sealed env st g')).
Proof.
  intros Hname Hd. unfold preserve_path_metadata_at. wp_call fd Hfd; [by right|]. cbn [mupd CM copying copy_upd].
  change (has_bits (RDONLY_FLAGS |. O_NONBLOCK) O_CREAT) with false. cbv iota. rewrite (decide_False (P := dst_fd = src_fd)) by congruence.
  destruct fd as [fd|e]; [|by wp_pures]. destruct Hfd as [Hfd Hnew].
  assert (Hl : forall m, cg_fds (with_mode m (with_fds (insert fd (RDst 0)) g)) !! fd = Some (RDst 0)) by (intros; apply lookup_insert_eq).
  wp_call st1 Hst; [cbn; rewrite lookup_insert_eq; by eexists|].
  destruct (Hst (ex_intro _ 0 (Hl (cg_mode g)))) as (st0 & -> & _). cbn [mupd CM copying copy_upd with_fds cg_fds].
  rewrite lookup_insert_eq.
  assert (Hclose : forall g1 s1 (b : bool), kept (with_fds (insert fd (RDst 0)) g) g1 -> (b = true -> sealed env st g1) ->
    wpM CM (close_ fd;; mret b) s1 g1 (fun g' ok _ => kept g g' /\ (ok = true -> sealed env st g'))).
  { intros g1 s1 b (Hf1 & Hd1 & Hn1 & Hdn1) Hb. unfold close_. wp_call c Hc; [cbn; rewrite Hf1; cbn; rewrite lookup_insert_eq; by eexists|].
    wp_pures. split; [|done]. split_and!; try done. cbn. rewrite Hf1. cbn. by rewrite delete_insert_id. }
  case_decide.
  - unfold close_. wp_call c Hc; [cbn; rewrite lookup_insert_eq; by eexists|]. wp_pures. split; [|done]. split_and!; try done.
    cbn. by rewrite delete_insert_id.
  - wp_step. unfold preserve_fd_metadata. eapply wpM_mono; [apply preserve_fd_metadata_ok; [eexists; apply Hl|done]|].
    intros g1 ok s1 [Hk Hok]. apply (Hclose g1 s1 ok); [done|]. intros ->. apply Hok; [done|]. intros E.
    pose proof (Z.land_nonneg (st_mode st) o07777) as [_ H1]. unfold perm_bits in E. specialize (H1 ltac:(by right)). lia.
Qed.

(** The rename: the finished file gets its final name, or nothing changes. *)
Lemma rename_ok name display s g :
  cg_name g = Some name -> cg_data g = src -> (forall fd, ~ is_dst (cg_fds g) fd) ->
  wpM CM (rename_temp_to_final_at dst_fd name (t_name t) display) s g (fun g' ok _ =>
    cg_fds g' = cg_fds g /\ cg_data g' = cg_data g /\ cg_mode g' = cg_mode g /\ cg_times g' = cg_times g /\
    (if ok : bool then cg_name g' = None /\ cg_done g' = true else g' = g)).
Proof.
  intros Hn Hd Hf. unfold rename_temp_to_final_at. wp_call st Hst. cbn [mupd CM copying copy_upd].
  destruct st as [st|e]; [|wp_pures; by split_and!]. destruct (S_ISREG (st_mode st)); cbn [negb]; [|wp_pures; by split_and!].
  wp_call st2 Hst2. cbn [mupd CM copying copy_upd]. cbv zeta.
  assert (Hgo : forall s, wpM CM (r ← call (renameat dst_fd name dst_fd (t_name t));
      match r with Ok _ => mret true | Err _ => complain display;; mret false end) s g (fun g' ok _ =>
    cg_fds g' = cg_fds g /\ cg_data g' = cg_data g /\ cg_mode g' = cg_mode g /\ cg_times g' = cg_times g /\
    (if ok : bool then cg_name g' = None /\ cg_done g' = true else g' = g))).
  { intros s0. wp_call r Hr. destruct r; wp_pures; by split_and!. }
  destruct st2 as [st2|e]; [destruct (S_ISREG (st_mode st2)); [apply Hgo|]|case_decide; [apply Hgo|]]; wp_pures; by split_and!.
Qed.
End finishing.

(** * One file *)

(** The two descriptors of a copy. *)
Definition pair (fd_in oi fd_out oo : Z) : gmap Z role := <[fd_out := RDst oo]> {[fd_in := RSrc oi]}.

Lemma pair_src fd_in oi fd_out oo : fd_in <> fd_out -> pair fd_in oi fd_out oo !! fd_in = Some (RSrc oi).
Proof. intros. unfold pair. rewrite lookup_insert_ne by done. by rewrite lookup_singleton_eq. Qed.
Lemma pair_dst fd_in oi fd_out oo : pair fd_in oi fd_out oo !! fd_out = Some (RDst oo).
Proof. apply lookup_insert_eq. Qed.
Lemma pair_read fd_in oi fd_out oo o : fd_in <> fd_out -> <[fd_in := RSrc o]> (pair fd_in oi fd_out oo) = pair fd_in o fd_out oo.
Proof. intros. unfold pair. rewrite insert_insert_ne by done. by rewrite insert_singleton_eq. Qed.
Lemma pair_write fd_in oi fd_out oo o : <[fd_out := RDst o]> (pair fd_in oi fd_out oo) = pair fd_in oi fd_out o.
Proof. unfold pair. apply insert_insert_eq. Qed.
Lemma pair_close fd_in oi fd_out oo : fd_in <> fd_out -> delete fd_out (pair fd_in oi fd_out oo) = {[fd_in := RSrc oi]}.
Proof. intros. unfold pair. rewrite delete_insert_eq, delete_id; [done|]. by rewrite lookup_singleton_ne. Qed.
Lemma single_no_dst fd_in oi fd : ~ is_dst {[fd_in := RSrc oi]} fd.
Proof. intros [o Ho]. by apply lookup_singleton_Some in Ho as [_ ?]. Qed.

Section file.
Context (env : fsenv) (r : runtime) (src_fd dst_fd : Z) (t : task) (inplace : bool) (src : bytes) (Hdirs : src_fd <> dst_fd).
Abbreviation CM := (copying src_fd dst_fd t inplace src).

Lemma set_direct_ok fd on s g :
  is_dst (cg_fds g) fd -> wpM CM (fd_set_direct_write fd on) s g (fun g' _ _ => g' = g).
Proof. intros Hfd. unfold fd_set_direct_write. wp_call fl Hfl. destruct fl; [|by wp_step]. wp_call u Hu. by wp_step. Qed.
Lemma bulk_goes_direct_ok fd n s g :
  is_dst (cg_fds g) fd -> wpM CM (bulk_goes_direct env r dst_fd fd n) s g (fun g' _ _ => g' = g).
Proof. intros Hfd. unfold bulk_goes_direct. wp_pures. destruct a; [by apply set_direct_ok|by wp_step]. Qed.

(** ** The main loop *)

Context (Hchunk : 0 < g_chunk_size r).

Lemma chunk_len_bounds b : b_pos b < b_copy_end b -> 0 < chunk_len r b <= b_copy_end b - b_pos b.
Proof using Hchunk. intros H. unfold chunk_len. cbv zeta. case_decide; lia. Qed.

Lemma read_write_chunk_ok fd_in fd_out in_direct len b s g :
  fd_in <> fd_out -> 0 <= b_pos b -> 0 < len -> cg_fds g = pair fd_in (b_pos b) fd_out (b_pos b) ->
  full src (Z.to_nat (b_pos b)) (cg_data g) ->
  wpM CM (read_write_chunk t fd_in fd_out in_direct len b) s g (fun g' n _ =>
    alike g g' /\
    match n with
    | Some b' => b_pos b' = b_pos b + len /\ b_copy_end b' = b_copy_end b /\ b_cfr b' = b_cfr b /\
        cg_fds g' = pair fd_in (b_pos b') fd_out (b_pos b') /\ full src (Z.to_nat (b_pos b')) (cg_data g')
    | None => exists oi oo, cg_fds g' = pair fd_in oi fd_out oo
    end).
Proof.
  intros Hne Hp Hlen Hf Hfull. unfold read_write_chunk.
  wp_call d Hd; [cbn; rewrite Hf; eexists; by apply pair_src|]. cbn [mupd CM copying copy_upd]. cbn in Hd.
  rewrite Hf, pair_src in Hd |- * by done. destruct d as [d|e]; [|wp_pures; split; [done|by eauto]].
  set (g1 := with_fds _ g). assert (Hf1 : cg_fds g1 = pair fd_in (b_pos b + zlen d) fd_out (b_pos b)).
  { cbn. by rewrite Hf, pair_read. }
  assert (Ha : alike g g1) by done.
  destruct (decide (zlen d <> len)) as [|Hl%dec_stable]; [wp_pures; split; [done|by eauto]|].
  destruct Hd as (Hpre & _). wp_step.
  eapply wpM_mono; [apply (write_all_ok _ _ _ _ _ _ _ _ (b_pos b)); try done; [rewrite Hf1; apply pair_dst|by apply full_holds]|].
  intros g2 ok s2 (Ha2 & Hfd & Hok). destruct ok; cbn [negb].
  - wp_step. apply (wpM_mono CM _ _ _ (fun (g' : cghost) (_ : fadvise_batch) (_ : fsu) => g' = g2)).
    { destruct in_direct; [by wp_step|apply unseen_add]. }
    intros g3 fadv s3 ->. wp_step. cbn [b_pos b_copy_end b_cfr]. rewrite Hl in *. split_and!; try done.
    + by rewrite Hfd, Hf1, pair_write.
    + by apply Hok.
  - wp_step. split; [done|]. destruct Hfd as [o Hfd]. exists (b_pos b + zlen d), o. by rewrite Hfd, Hf1, pair_write.
Qed.

(** While copy_file_range is in use the descriptors' own offsets stay 0; once
    it is not, they are the position. *)
Definition at_pos (in_direct out_direct : bool) (fd_in fd_out bulk_end : Z) (b : bulk) (g : cghost) : Prop :=
  if negb in_direct && negb out_direct && b_cfr b then
    cg_fds g = pair fd_in 0 fd_out 0 /\ b_copy_end b = zlen src /\ (0 < b_pos b -> cg_cfr g = true)
  else cg_fds g = pair fd_in (b_pos b) fd_out (b_pos b) /\ b_copy_end b = bulk_end.

Lemma bulk_loop_ok fuel fd_in fd_out in_direct out_direct bulk_end b s g :
  fd_in <> fd_out -> 0 <= bulk_end <= zlen src -> 0 <= b_pos b <= b_copy_end b -> b_copy_end b - b_pos b <= Z.of_nat fuel ->
  bulk_end - b_pos b <= Z.of_nat fuel ->
  at_pos in_direct out_direct fd_in fd_out bulk_end b g -> full src (Z.to_nat (b_pos b)) (cg_data g) ->
  wpM CM (bulk_loop env r dst_fd fuel t fd_in fd_out in_direct out_direct bulk_end b) s g (fun g' n _ =>
    alike g g' /\ (exists oi oo, cg_fds g' = pair fd_in oi fd_out oo) /\
    match n with
    | Some b' => bulk_end <= b_pos b' <= zlen src /\ full src (Z.to_nat (b_pos b')) (cg_data g')
    | None => True
    end).
Proof using Hchunk.
  intros Hne Hbe. revert b s g. induction fuel as [|fuel IH]; intros b s g Hp Hf Hf2 Hat Hfull; cbn [bulk_loop].
  all: destruct (decide (b_copy_end b <= b_pos b)) as [Hn|Hn].
  1, 3: wp_step; split; [done|]; unfold at_pos in Hat;
    destruct (_ && _); [destruct Hat as (Hfd & He & _)|destruct Hat as (Hfd & He)]; (split; [by eauto|]); split; [lia|done|lia|done].
  { lia. }
  assert (Hrw : forall b s, b_pos b < b_copy_end b -> b_copy_end b - b_pos b <= Z.of_nat (S fuel) -> 0 <= b_pos b ->
    negb in_direct && negb out_direct && b_cfr b = false ->
    cg_fds g = pair fd_in (b_pos b) fd_out (b_pos b) -> b_copy_end b = bulk_end -> full src (Z.to_nat (b_pos b)) (cg_data g) ->
    wpM CM (n ← read_write_chunk t fd_in fd_out in_direct (chunk_len r b) b;
            match n with Some b => bulk_loop env r dst_fd fuel t fd_in fd_out in_direct out_direct bulk_end b | None => mret None end) s g
      (fun g' n _ =>
    alike g g' /\ (exists oi oo, cg_fds g' = pair fd_in oi fd_out oo) /\
    match n with
    | Some b' => bulk_end <= b_pos b' <= zlen src /\ full src (Z.to_nat (b_pos b')) (cg_data g')
    | None => True
    end)).
  { clear Hat Hfull Hp Hf Hf2 Hn b s. intros b s Hn Hf Hp Hc Hfd He Hfull. pose proof (chunk_len_bounds b Hn) as Hl.
    wp_step. eapply wpM_mono; [apply read_write_chunk_ok; try done; lia|].
    intros g1 [b1|] s1 (Ha & Hr); [|wp_step; by split_and!]. destruct Hr as (Hp1 & He1 & Hc1 & Hfd1 & Hfull1).
    eapply wpM_mono; [apply IH; try done; [lia|lia|lia|]|].
    - unfold at_pos. rewrite Hc1, Hc. split; [done|congruence].
    - intros g2 n s2 (Ha2 & Hfd2 & Hn2). split_and!; [by etrans|done|done]. }
  cbv zeta. unfold at_pos in Hat. destruct (negb in_direct && negb out_direct && b_cfr b) eqn:Ec; [|destruct Hat; apply Hrw; try done; lia].
  destruct Hat as (Hfd & He & Hcfr). pose proof (chunk_len_bounds b ltac:(lia)) as Hl.
  apply andb_true_iff in Ec as [Ed Eb].
  wp_step. eapply wpM_mono; [apply cfr_ok; try done; [lia|lia|rewrite Hfd; eexists; by apply pair_src|rewrite Hfd; eexists; apply pair_dst]|].
  intros g1 rc s1 (Ha & Hfd1 & Hrc). destruct rc.
  - destruct Hrc as [Hfull1 Hc1]. replace (Z.max 0 (chunk_len r b)) with (chunk_len r b) in Hfull1 by lia.
    eapply wpM_mono; [apply (IH (Bulk (b_pos b + chunk_len r b) (b_copy_end b) true (b_direct b) (b_fadv b))); cbn [b_pos b_copy_end]; try done; [lia|lia|lia|]|].
    + unfold at_pos. cbn [b_cfr b_pos b_copy_end]. rewrite Ed. cbn. split_and!; [congruence|done|]. intros _. apply Hc1. left. lia.
    + intros g2 n s2 (Ha2 & Hfd2 & Hn2). split_and!; [by etrans|done|done].
  - destruct Hrc as [-> Hc]. assert (Hp0 : b_pos b = 0) by (destruct (decide (0 < b_pos b)) as [H|]; [by rewrite Hcfr in Hc|lia]).
    wp_pures. apply (wpM_mono CM _ _ _ (fun (g' : cghost) (_ : bool) (_ : fsu) => g' = g)).
    { rewrite Hp0. rewrite decide_True by done. wp_step. eapply wpM_mono; [apply bulk_goes_direct_ok; rewrite Hfd; eexists; apply pair_dst|].
      intros g2 d s2 ->. by wp_step. }
    intros g2 direct s2 ->. rewrite Hp0 in *. case_decide.
    + wp_step. cbn [b_pos] in *. split_and!; [done|by eauto|lia|lia|done].
    + cbn [b_pos b_copy_end b_cfr] in *. apply Hrw; cbn [b_pos b_copy_end b_cfr]; try done; first [lia|apply andb_false_r].
  - wp_step. split_and!; [done| |done]. exists 0, 0. congruence.
Qed.

(** ** The end of a copy *)

(** [inpl]: written under its final name; [safe]: the mode bits are sure to be
    kept ([mode_settled]). *)
Definition finished (inpl : bool) (safe : Prop) (name : bytes) (g : cghost) : Prop :=
  cg_data g = src /\ (safe -> sealed env (t_st t) g) /\ if inpl then cg_name g = Some name else cg_done g = true.
Definition unfinished (name : bytes) (g : cghost) : Prop := cg_name g = Some name /\ cg_done g = false.
Definition after (fd_in : Z) (inpl : bool) (safe : Prop) (name : bytes) (g : cghost) (ok : bool) (fd : option Z) : Prop :=
  (exists oi, match fd with
              | Some fd => fd_in <> fd /\ exists oo, cg_fds g = pair fd_in oi fd oo
              | None => cg_fds g = {[fd_in := RSrc oi]}
              end) /\
  if ok then finished inpl safe name g else unfinished name g.

Lemma close_out_ok fd_in oi fd oo (s : fsu) g :
  fd_in <> fd -> cg_fds g = pair fd_in oi fd oo ->
  wpM CM (call (close fd)) s g (fun g' _ _ => g' = with_fds (delete fd) g /\ cg_fds g' = {[fd_in := RSrc oi]}).
Proof. intros Hne Hf. wp_call c Hc; [cbn; rewrite Hf, pair_dst; by eexists|]. split; [done|]. cbn. rewrite Hf. by apply pair_close. Qed.

(** Rename a finished file, or leave it under the final name it has. *)
Lemma commit_name_ok fd_in oi inpl safe name display s g :
  cg_fds g = {[fd_in := RSrc oi]} -> unfinished name g -> cg_data g = src -> (safe -> sealed env (t_st t) g) ->
  wpM CM (if inpl : bool then mret true else rename_temp_to_final_at dst_fd name (t_name t) display) s g
    (fun g' ok _ => after fd_in inpl safe name g' ok None).
Proof.
  intros Hf [Hn Hd] Hdata Hs. destruct inpl.
  - wp_step. split; [by eexists|]. by split_and!.
  - eapply wpM_mono; [apply rename_ok; try done; intros fd; rewrite Hf; apply single_no_dst|].
    intros g' ok s' (Hf' & Hd' & Hm' & Ht' & Hok). split; [exists oi; congruence|]. destruct ok; [|by subst g'].
    destruct Hok as [_ Hok]. split_and!; [congruence| |done]. unfold sealed. rewrite Hm', Ht'. done.
Qed.

Lemma finish_file_ok fd_in oi fd oo out_mode inpl safe name s g :
  fd_in <> fd -> cg_fds g = pair fd_in oi fd oo -> unfinished name g -> cg_data g = src ->
  (safe -> out_mode = perm_bits (t_st t) -> strip (cg_mode g) = Some (perm_bits (t_st t))) ->
  wpM CM (finish_file env dst_fd fd out_mode t name inpl) s g (fun g' '(ok, fdo) _ => after fd_in inpl safe name g' ok fdo).
Proof using Hdirs.
  intros Hne Hf [Hn Hd] Hdata Hs. unfold finish_file, finalize_copied_file_fd. wp_step.
  eapply wpM_mono; [apply preserve_fd_metadata_ok; [rewrite Hf; eexists; apply pair_dst|done]|].
  intros g1 ok s1 ((Hf1 & Hd1 & Hn1 & Hdn1) & Hok). destruct ok; cbn [negb].
  2: { wp_step. split; [exists oi; split; [done|]; exists oo; congruence|]. split; congruence. }
  wp_step. eapply wpM_mono; [apply (close_out_ok fd_in oi fd oo); [done|congruence]|].
  intros g2 c s2 [-> Hf2].
  destruct c; [|wp_pures; split; [by eexists|]; split; cbn; congruence].
  wp_step. eapply wpM_mono; [eapply (commit_name_ok _ _ inpl safe); [exact Hf2|split; cbn; congruence|cbn; congruence|]|].
  { intros Hsafe. specialize (Hok eq_refl (Hs Hsafe)). by destruct Hok. }
  intros g3 ok s3 Ha. by wp_step.
Qed.

Lemma cleanup_ok fd_in inpl safe name ok fd s g :
  name <> [] -> own_name t inplace name -> after fd_in inpl safe name g ok fd ->
  wpM CM (cleanup dst_fd fd_in fd (Some name) ok) s g (fun g' b _ =>
    b = ok /\ cg_fds g' = ∅ /\ if ok then finished inpl safe name g' else cg_name g' = None /\ cg_done g' = false).
Proof.
  intros Hne Hown [[oi Hf] Hok]. unfold cleanup, close_.
  set (keep := fun g' : cghost => cg_fds g' = ∅ /\ if ok then finished inpl safe name g' else unfinished name g').
  assert (Hend : forall s g, keep g -> wpM CM (when (negb ok) (unlink_temp_at dst_fd name);; mret ok) s g (fun g' b _ =>
    b = ok /\ cg_fds g' = ∅ /\ if ok then finished inpl safe name g' else cg_name g' = None /\ cg_done g' = false)).
  { clear Hf Hok g s. intros s g [Hf Hk]. destruct ok; cbn [negb when]; [wp_pures; by split_and!|]. destruct Hk as [Hn Hd].
    unfold unlink_temp_at. rewrite decide_False by done. wp_call u Hu. cbn in Hu. rewrite (Hu Hn). wp_pures. cbn [mupd CM copying copy_upd].
    split_and!; [done|done| |done]. cbn. by rewrite decide_True. }
  assert (Hk : forall f, (if ok then finished inpl safe name g else unfinished name g) ->
    if ok then finished inpl safe name (with_fds f g) else unfinished name (with_fds f g)) by (intros f; destruct ok; done).
  destruct fd as [fd|].
  - destruct Hf as [Hio [oo Hf]]. wp_call c Hc; [cbn; rewrite Hf, pair_src by done; by eexists|]. wp_pures.
    wp_call c2 Hc2; [cbn; rewrite lookup_delete_ne by done; rewrite Hf, pair_dst; by eexists|]. wp_step. cbn [mupd CM copying copy_upd].
    apply Hend. split; [|apply (Hk (fun m => delete fd (delete fd_in m))), Hok]. cbn. rewrite Hf. unfold pair.
    rewrite delete_insert_ne by done. rewrite delete_singleton_eq, delete_insert_eq. apply delete_empty.
  - wp_call c Hc; [cbn; rewrite Hf, lookup_singleton_eq; by eexists|]. do 3 wp_step. cbn [mupd CM copying copy_upd]. apply Hend.
    split; [|apply Hk, Hok]. cbn. rewrite Hf. apply delete_singleton_eq.
Qed.
Lemma cleanup_none_ok fd_in oi s g :
  cg_fds g = {[fd_in := RSrc oi]} ->
  wpM CM (cleanup dst_fd fd_in None None false) s g (fun g' b _ => b = false /\ g' = with_fds (delete fd_in) g /\ cg_fds g' = ∅).
Proof.
  intros Hf. unfold cleanup, close_. wp_call c Hc; [cbn; rewrite Hf, lookup_singleton_eq; by eexists|]. wp_pures.
  split_and!; [done|done|]. cbn. rewrite Hf. apply delete_singleton_eq.
Qed.

Lemma copy_tail_at_ok fuel name display expected start end_ s g :
  0 <= start -> end_ <= zlen src -> end_ - start <= Z.of_nat fuel -> cg_name g = Some name -> full src (Z.to_nat start) (cg_data g) ->
  wpM CM (copy_tail_buffered_at fuel src_fd dst_fd (t_name t) name display (t_dst t) expected start end_) s g (fun g' ok _ =>
    cg_fds g' = cg_fds g /\ cg_name g' = cg_name g /\ cg_done g' = cg_done g /\ (ok = true -> full src (Z.to_nat end_) (cg_data g'))).
Proof using Hdirs.
  intros Hp He Hf Hn Hfull. unfold copy_tail_buffered_at. case_decide.
  { wp_step. split_and!; try done. intros _. eapply full_mono; [|exact Hfull]. lia. }
  wp_step. eapply wpM_mono; [apply open_read_buffered_ok|]. intros g1 [fd_in|] s1 Hr; cbn in Hr; [|subst g1; by wp_step].
  destruct Hr as (_ & Hnew & ->). wp_step. eapply wpM_mono; [by apply open_temp_existing_ok|].
  intros g2 [fd_out|] s2 Hr.
  2: { cbn in Hr. subst g2. unfold close_. wp_call c Hc; [cbn; rewrite lookup_insert_eq; by eexists|]. wp_pures.
       split_and!; try done. cbn. by rewrite delete_insert_id. }
  destruct Hr as (_ & Hnew2 & Hf2 & Hd2 & Hn2 & Hdn2 & _ & _). cbn in Hf2, Hd2, Hn2, Hdn2, Hnew2. do 3 wp_pures.
  assert (Hne : fd_in <> fd_out) by (intros <-; by rewrite lookup_insert_eq in Hnew2).
  rewrite lookup_insert_ne in Hnew2 by done.
  assert (Hnew3 : <[fd_in := RSrc 0]> (cg_fds g) !! fd_out = None) by (by rewrite lookup_insert_ne).
  eapply wpM_mono; [apply tail_loop_ok; try done; rewrite ?Hf2, ?Hd2; try done|].
  { exists 0. rewrite lookup_insert_ne by done. apply lookup_insert_eq. }
  { exists 0. apply lookup_insert_eq. }
  intros g3 ok s3 (Ha & Hf3 & Hok). rewrite Hf2 in Hf3. unfold close_.
  wp_call c Hc; [cbn; rewrite Hf3, lookup_insert_ne, lookup_insert_eq by done; by eexists|]. do 2 wp_step.
  wp_call c2 Hc2; [cbn; rewrite lookup_delete_ne by done; rewrite Hf3, lookup_insert_eq; by eexists|]. wp_pures.
  destruct Ha as (Ha1 & _ & Ha3 & _). split_and!; [|cbn; congruence|cbn; congruence|done].
  cbn. rewrite Hf3, delete_insert_ne by done.
  assert (E : delete fd_in (<[fd_in := RSrc 0]> (cg_fds g)) = cg_fds g) by (by apply delete_insert_id).
  rewrite E. apply delete_insert_id. by rewrite lookup_insert_ne in Hnew3.
Qed.

(** What the theorem asks of the mode the destination was created with. *)
Definition mode_ready (safe : Prop) (out_mode : Z) (g : cghost) : Prop :=
  safe -> out_mode = perm_bits (t_st t) -> strip (cg_mode g) = Some (perm_bits (t_st t)).
Lemma mode_ready_alike safe m g g' : strip (cg_mode g') = strip (cg_mode g) -> mode_ready safe m g -> mode_ready safe m g'.
Proof. intros E H Hs Hm. rewrite E. by apply H. Qed.

Context (Hsize : st_size (t_st t) = zlen src).

Lemma after_failed fd_in inpl safe name oi fd oo g :
  fd_in <> fd -> cg_fds g = pair fd_in oi fd oo -> unfinished name g -> after fd_in inpl safe name g false (Some fd).
Proof. intros Hne Hf Hu. split; [|done]. exists oi. split; [done|]. by exists oo. Qed.
Lemma unfinished_alike name g g' : alike g g' -> unfinished name g -> unfinished name g'.
Proof. intros (Hn & _ & Hd & _) [? ?]. split; congruence. Qed.

Lemma sparse_body_ok fuel fd_in fd_out out_mode safe name s g :
  zlen src <= Z.of_nat fuel -> fd_in <> fd_out -> cg_fds g = pair fd_in 0 fd_out 0 -> cg_data g = [] -> unfinished name g ->
  mode_ready safe out_mode g ->
  wpM CM (sparse_body env r dst_fd fuel t fd_in fd_out out_mode name) s g (fun g' '(ok, fd, _) _ => after fd_in false safe name g' ok fd).
Proof using Hdirs Hchunk Hsize.
  intros Hf Hne Hfd Hd Hu Hm. unfold sparse_body. rewrite Hsize. cbv zeta.
  wp_pures. match goal with b : bool |- _ => destruct b end; cbn [negb]; [|wp_pures; by eapply after_failed].
  assert (Hin : is_src (cg_fds g) fd_in /\ is_dst (cg_fds g) fd_out).
  { rewrite Hfd. split; [eexists; by apply pair_src|eexists; apply pair_dst]. }
  wp_step. eapply wpM_mono; [apply copy_data_extents_ok; try apply Hin; try lia|].
  { unfold bufcap. case_decide; lia. }
  { rewrite Hd. apply full_holds, full_nil. }
  intros g1 [p|] s1 (Ha & Hf1 & Hok); rewrite Hfd in Hf1; [|wp_step; eapply after_failed; [done|done|by eapply unfinished_alike]].
  wp_call c Hc; [cbn; rewrite Hf1; eexists; apply pair_dst|]. cbn [mupd CM copying copy_upd].
  destruct c as [u|e]; [|wp_pures; eapply after_failed; [done|done|by eapply unfinished_alike]].
  wp_step. eapply wpM_mono; [eapply (finish_file_ok fd_in 0 fd_out 0 _ _ safe); try done|].
  - exact (unfinished_alike _ _ _ Ha Hu).
  - cbn. replace (Z.to_nat (zlen src)) with (length src) by (unfold zlen; lia). by apply holds_resize, Hok.
  - eapply mode_ready_alike; [|exact Hm]. cbn. rewrite strip_idem. by destruct Ha as (_ & _ & _ & ?).
  - intros g2 [ok fd] s3 Haf. by wp_step.
Qed.

Lemma small_body_ok fuel fd_in in_direct fd_out out_direct out_mode inpl safe name s g :
  zlen src <= Z.of_nat fuel -> fd_in <> fd_out -> cg_fds g = pair fd_in 0 fd_out 0 -> cg_data g = [] -> unfinished name g ->
  mode_ready safe out_mode g ->
  wpM CM (small_body env r src_fd dst_fd fuel t fd_in in_direct fd_out out_direct out_mode name inpl) s g
    (fun g' '(ok, fd) _ => after fd_in inpl safe name g' ok fd).
Proof using Hdirs Hchunk Hsize.
  intros Hf Hne Hfd Hd Hu Hm. unfold small_body. rewrite Hsize. cbv zeta. pose proof (zlen_nonneg src).
  set (bulk_end := Z.quot (zlen src) ALIGNMENT * ALIGNMENT).
  assert (Hbe : 0 <= bulk_end <= zlen src).
  { destruct (align_down_spec (zlen src)) as [Hb _]; [done|]. exact Hb. }
  wp_pures. match goal with b : bool |- _ => destruct b end; cbn [negb]; [|wp_pures; by eapply after_failed].
  assert (Hin : is_src (cg_fds g) fd_in /\ is_dst (cg_fds g) fd_out).
  { rewrite Hfd. split; [eexists; by apply pair_src|eexists; apply pair_dst]. }
  wp_step. apply (wpM_mono CM _ _ _ (fun (g' : cghost) (_ : bool) (_ : fsu) => g' = g)).
  { destruct (_ && _); [apply bulk_goes_direct_ok, Hin|by wp_step]. }
  intros g0 direct s0 ->. wp_step.
  eapply wpM_mono; [apply (bulk_loop_ok fuel fd_in fd_out); cbn [b_pos b_copy_end b_cfr]; try done|].
  1, 2: destruct (_ && _); lia.
  { lia. }
  { unfold at_pos. cbn [b_pos b_copy_end b_cfr]. destruct (_ && _); [|done]. split_and!; [done|done|lia]. }
  { rewrite Hd. apply full_nil. }
  intros g1 [b|] s1 (Ha & (oi & oo & Hf1) & Hb); [|wp_step; eapply after_failed; [done|done|by eapply unfinished_alike]].
  destruct Hb as [Hbp Hfull]. wp_pures.
  assert (Hin1 : is_src (cg_fds g1) fd_in /\ is_dst (cg_fds g1) fd_out).
  { rewrite Hf1. split; [eexists; by apply pair_src|eexists; apply pair_dst]. }
  pose proof (unfinished_alike _ _ _ Ha Hu) as Hu1.
  destruct (negb in_direct && negb out_direct).
  - wp_step. apply (wpM_mono CM _ _ _ (fun (g' : cghost) (_ : bool) (_ : fsu) => g' = g1)).
    { destruct (b_direct b); [apply set_direct_ok, Hin1|by wp_step]. }
    intros g2 ok s2 ->. destruct ok; cbn [negb]; [|wp_pures; by eapply after_failed].
    wp_step. eapply wpM_mono; [apply tail_loop_ok; try apply Hin1; try done; lia|].
    intros g3 ok s3 (Ha3 & Hf3 & Hok3). rewrite Hf1 in Hf3. pose proof (unfinished_alike _ _ _ Ha3 Hu1) as Hu3.
    destruct ok; cbn [negb]; [|wp_step; by eapply after_failed].
    eapply finish_file_ok; try done.
    + apply full_all. replace (length src) with (Z.to_nat (zlen src)) by (unfold zlen; lia). by apply Hok3.
    + eapply mode_ready_alike; [|exact Hm]. destruct Ha as (_ & _ & _ & <-). by destruct Ha3 as (_ & _ & _ & ?).
  - unfold close_. do 2 wp_step. eapply wpM_mono; [by eapply (close_out_ok fd_in oi fd_out oo)|]. intros g2 c s2 [-> Hf2]. do 2 wp_step.
    destruct Hu1 as [Hn1 Hdn1].
    eapply wpM_mono; [apply copy_tail_at_ok; try done; [lia|lia|]|].
    { cbn. eapply full_mono; [|exact Hfull]. lia. }
    intros g3 ok s3 (Hf3 & Hn3 & Hd3 & Hok3). rewrite Hf2 in Hf3. cbn in Hn3, Hd3. rewrite Hn1 in Hn3. rewrite Hdn1 in Hd3.
    destruct ok; cbn [negb]; [|wp_step; split; [by eexists|done]].
    assert (Hsrc : cg_data g3 = src).
    { apply full_all. replace (length src) with (Z.to_nat (zlen src)) by (unfold zlen; lia). by apply Hok3. }
    wp_step. eapply wpM_mono; [by apply preserve_path_metadata_at_ok|].
    intros g4 ok s4 ((Hf4 & Hd4 & Hn4 & Hdn4) & Hok4). destruct ok; cbn [negb]; [|wp_step; split; [exists oi; congruence|split; congruence]].
    wp_step. eapply wpM_mono; [apply (commit_name_ok fd_in oi inpl safe); try congruence; [split; congruence|intros _; by apply Hok4]|].
    intros g5 ok s5 Haf. by wp_step.
Qed.
End file.
