(* ===== verification/LocalCopyRun.v ===== *)
(** Copying one file to a local destination: the theorem over [copying], a
    kernel that answers as the monitor asks, and what happens when
    copy_file_range gives up halfway. *)

From S2P Require Export LocalCopyOk.
From stdpp Require Import list.
#[local] Open Scope Z_scope.

(** Small files are written in place, when asked for; sparse files never are. *)
Definition small_inplace (env : fsenv) (t : task) : bool := copy_policy_small_inplace (e_policy env) && negb (t_sparse t).
Definition has_setid (st : stat) : bool := has_bits (perm_bits st) (S_ISUID |. S_ISGID).

Lemma temp_name_not_nil n : temp_name n -> n <> [].
Proof. intros [k ->]. by vm_compute. Qed.

(** What the copy of [t] leaves, written in place or through a temporary name. *)
Definition copied (env : fsenv) (t : task) (src : bytes) (inpl : bool) (g : cghost) (ok : bool) : Prop :=
  cg_fds g = ∅ /\
  if ok then
    cg_data g = src /\ (if inpl then cg_name g = Some (t_name t) else cg_done g = true) /\
    (inpl = false \/ has_setid (t_st t) = false -> sealed env (t_st t) g)
  else cg_name g = None /\ cg_done g = false.

Section one_file.
Context (env : fsenv) (r : runtime) (src_fd dst_fd : Z) (t : task) (src : bytes) (fuel : nat) (s : fsu).
Context (Hdirs : src_fd <> dst_fd) (Hchunk : 0 < g_chunk_size r) (Hsize : st_size (t_st t) = zlen src) (Hname : t_name t <> [])
  (Hfuel : zlen src <= Z.of_nat fuel).

Lemma sparse_copied :
  wpM (copying src_fd dst_fd t false src) (copy_file_sparse env r src_fd dst_fd fuel t) s cg0
    (fun g '(ok, _) _ => copied env t src false g ok).
Proof using Hchunk Hdirs Hfuel Hname Hsize.
  unfold copy_file_sparse, copied. wp_step. eapply wpM_mono; [apply open_read_buffered_ok|].
  intros g1 [fd_in|] s1 Hr; cbn in Hr; [|subst g1; by wp_step]. destruct Hr as (_ & _ & ->).
  wp_step. eapply wpM_mono; [by apply create_temp_ok|].
  intros g2 [[[[fd_out direct] m] tmp]|] s2 Hc.
  2: { subst g2. wp_step. eapply wpM_mono; [eapply cleanup_none_ok; done|]. intros g3 b s3 (-> & -> & Hf). wp_step. by split_and!. }
  destruct Hc as ((_ & Hnew & Hf & Hd & Hn & Hm & _ & Hdn) & Hset & Htmp). cbn in Hf, Hdn, Hnew.
  assert (Hne : fd_in <> fd_out) by (intros <-; by rewrite lookup_insert_eq in Hnew).
  assert (Hready : forall g, (forall q, cg_mode g2 = Some q -> cg_mode g = Some q) -> mode_ready t True m g).
  { intros g Hg _ ->. rewrite (Hg _ Hm). by apply Hset. }
  assert (Hend : forall g3 s3 ok (fd : option Z) (payload : Z), after env t src fd_in false True tmp g3 ok fd ->
    wpM (copying src_fd dst_fd t false src) (ok ← cleanup dst_fd fd_in fd (Some tmp) ok; mret (ok, payload)) s3 g3 (fun g '(ok, _) _ =>
      cg_fds g = ∅ /\ if ok : bool then cg_data g = src /\ cg_done g = true /\ (false = false \/ has_setid (t_st t) = false -> sealed env (t_st t) g)
                      else cg_name g = None /\ cg_done g = false)).
  { intros g3 s3 ok fd payload Ha. wp_step. eapply wpM_mono; [eapply cleanup_ok; [by eapply temp_name_not_nil|by left|done]|].
    intros g4 b s4 (-> & Hf4 & Hb). wp_step. split; [done|]. destruct ok; [|done]. destruct Hb as (? & Hs & ?). split_and!; try done.
    intros _. by apply Hs. }
  wp_step. apply (wpM_mono (copying src_fd dst_fd t false src) _ _ _ (fun (g3 : cghost) (fd : option Z) (_ : fsu) =>
    match fd with
    | Some fd => fd_in <> fd /\ cg_fds g3 = pair fd_in 0 fd 0 /\ cg_data g3 = [] /\ unfinished tmp g3 /\ mode_ready t True m g3
    | None => cg_fds g3 = {[fd_in := RSrc 0]} /\ unfinished tmp g3
    end)).
  { destruct direct; [|wp_step; split_and!; try done; by apply Hready].
    unfold close_. wp_call c Hcl; [cbn; rewrite Hf, lookup_insert_eq; by eexists|]. wp_step.
    set (g3 := with_fds (delete fd_out) g2).
    assert (Hf3 : cg_fds g3 = {[fd_in := RSrc 0]}).
    { cbn. rewrite Hf, delete_insert_id; [done|]. exact Hnew. }
    eapply wpM_mono; [by apply open_temp_existing_ok|]. intros g4 [fd|] s4 Ho; cbn in Ho; [|by subst g4].
    destruct Ho as (_ & Hnew4 & Hf4 & Hd4 & Hn4 & Hdn4 & _ & Hm4). 
    change (cg_fds g3 !! fd = None) in Hnew4. change (cg_fds g4 = <[fd := RDst 0]> (cg_fds g3)) in Hf4. rewrite Hf3 in Hnew4, Hf4.
    split_and!; [|done|congruence|split; congruence|by apply Hready].
    intros <-. by rewrite lookup_singleton_eq in Hnew4. }
  intros g3 [fd|] s3 H3; [|destruct H3; apply Hend; split; [by eexists|done]].
  destruct H3 as (Hne3 & Hf3 & Hd3 & Hu3 & Hr3). wp_step.
  eapply wpM_mono; [by apply (sparse_body_ok env r src_fd dst_fd t false src Hdirs Hchunk Hsize fuel fd_in fd m True)|].
  intros g4 [[ok fdo] payload] s4 Ha. by apply Hend.
Qed.

Lemma buffered_copied :
  t_sparse t = false ->
  wpM (copying src_fd dst_fd t (copy_policy_small_inplace (e_policy env)) src) (copy_file_serial_small env r src_fd dst_fd fuel t) s cg0
    (fun g '(ok, _) _ => copied env t src (copy_policy_small_inplace (e_policy env)) g ok).
Proof using Hchunk Hdirs Hfuel Hname Hsize.
  intros Hsp. unfold copy_file_serial_small, copied. rewrite Hsp. cbv zeta.
  set (inpl := copy_policy_small_inplace (e_policy env)).
  set (safe := inpl = false \/ has_setid (t_st t) = false).
  wp_step. eapply wpM_mono; [apply open_read_maybe_direct_ok|].
  intros g1 [[fd_in in_direct]|] s1 Hr; cbn in Hr; [|subst g1; by wp_step]. destruct Hr as (_ & _ & ->).
  set (g1 := with_fds (insert fd_in (RSrc 0)) cg0).
  wp_step. apply (wpM_mono (copying src_fd dst_fd t inpl src) _ _ _ (fun (g2 : cghost) (o : option (Z * bool * Z * bytes)) (_ : fsu) =>
    match o with
    | Some (fd, _, m, name) => created g1 g2 fd name m /\ (safe -> mode_settled m (perm_bits (t_st t))) /\ name <> [] /\ own_name t inpl name /\
        (inpl = true -> name = t_name t)
    | None => g2 = g1
    end)).
  { destruct inpl eqn:Ein.
    - wp_step. eapply wpM_mono; [by apply create_final_ok|]. intros g2 [[[fd d] m]|] s2 Hc; wp_step; [|done].
      split_and!; try done; [|by right]. intros [?|Hs] ->; [done|]. simpl. unfold has_setid in Hs. by rewrite Hs.
    - eapply wpM_mono; [by apply create_temp_ok|]. intros g2 [[[[fd d] m] tmp]|] s2 Hc; [|done].
      destruct Hc as (Hc & Hset & Htmp). split_and!; try done; [by apply temp_name_not_nil|by left]. }
  intros g2 [[[[fd_out out_direct] m] name]|] s2 Hc.
  2: { subst g2. wp_step. eapply wpM_mono; [eapply cleanup_none_ok; done|]. intros g3 b s3 (-> & -> & Hf). wp_step. by split_and!. }
  destruct Hc as ((_ & Hnew & Hf & Hd & Hn & Hm & _ & Hdn) & Hset & Hnn & Hown & Hnm). cbn in Hf, Hdn, Hnew.
  assert (Hne : fd_in <> fd_out) by (intros <-; by rewrite lookup_insert_eq in Hnew).
  wp_step. eapply wpM_mono; [apply (small_body_ok env r src_fd dst_fd t inpl src Hdirs Hchunk Hsize fuel fd_in in_direct fd_out out_direct m inpl safe name); try done|].
  { intros Hs ->. rewrite Hm. by apply Hset. }
  intros g3 [ok fd] s3 Ha. wp_step. eapply wpM_mono; [by eapply cleanup_ok|].
  intros g4 b s4 (-> & Hf4 & Hb). wp_step. split; [done|]. destruct ok; [|done]. destruct Hb as (? & Hs & Hfin).
  split_and!; [done| |done]. destruct inpl; [by rewrite <- Hnm|done].
Qed.
End one_file.

(** C4.  The copy of one small or sparse file, over kernels of which this is
    assumed: copy_file_range is refused as unsupported only before it has moved
    anything for the file, lseek finds all data, a file just created can be
    looked at with fstat, is regular and has at most the mode asked for, its
    status flags can be changed, and its name can be removed again. Whatever
    else is refused, cut short or unsupported on the way, the call ends with no
    descriptor left open. If it reports success, the file has exactly the
    source's bytes, has been renamed onto its final name (or was written under
    it), and has the source's mode and, unless times are not wanted, times set
    after the last write; the mode is not claimed for a set-id file written in
    place. If it reports failure, nothing was renamed and the file it created
    has been removed. [copy_range_midway_loses] shows that the first assumption
    is needed: the code loses data without it. *)
Theorem local_copy_correct env r src_fd dst_fd t src fuel s :
  src_fd <> dst_fd -> 0 < g_chunk_size r -> st_size (t_st t) = zlen src -> t_name t <> [] -> zlen src <= Z.of_nat fuel ->
  wpM (copying src_fd dst_fd t (small_inplace env t) src) (copy_file_serial_small env r src_fd dst_fd fuel t) s cg0
    (fun g '(ok, payload) _ =>
      cg_fds g = ∅ /\
      if ok : bool then
        cg_data g = src /\ (if small_inplace env t then cg_name g = Some (t_name t) else cg_done g = true) /\
        (small_inplace env t = false \/ has_setid (t_st t) = false -> sealed env (t_st t) g)
      else cg_name g = None /\ cg_done g = false).
Proof.
  intros. change (wpM (copying src_fd dst_fd t (small_inplace env t) src) (copy_file_serial_small env r src_fd dst_fd fuel t) s cg0
    (fun g '(ok, _) _ => copied env t src (small_inplace env t) g ok)).
  unfold small_inplace. destruct (t_sparse t) eqn:Hsp; cbn [negb]; rewrite ?andb_false_r, ?andb_true_r; [|by apply buffered_copied].
  unfold copy_file_serial_small. rewrite Hsp. by apply sparse_copied.
Qed.

(** * A kernel that answers as documented

    Its state is the ghost state, and the next descriptor. [limit] is where
    copy_file_range starts to be refused, as when a file system cannot clone
    past some point. *)

Definition reg_stat (mode : Z) : stat :=
  Stat 1 1 (S_IFREG |. mode &. o07777) 1 0 0 0 0 (Timespec 0 0) (Timespec 0 0) (Timespec 0 0).

Section kernel.
Context (src_fd : Z) (t : task) (src : bytes) (limit : option Z).

Definition answer (g : cghost) (next : Z) R (e : posix R) : R :=
  match e in posix R return R with
  | openat _ _ _ _ => Ok next
  | read fd n => match cg_fds g !! fd with
                 | Some (RSrc o) => Ok (take (Z.to_nat n) (drop (Z.to_nat o) src))
                 | _ => Err EBADF
                 end
  | pread _ n o => Ok (take (Z.to_nat n) (drop (Z.to_nat o) src))
  | copy_file_range _ i _ _ n =>
      match limit with
      | Some l => if decide (l <= i) then Err EINVAL else Ok (Z.max 0 (Z.min n (zlen src - i)))
      | None => Ok (Z.max 0 (Z.min n (zlen src - i)))
      end
  | fstat fd => match cg_fds g !! fd with
                | Some (RDst _) => Ok (reg_stat (default (default 0 (cg_req g)) (cg_mode g)))
                | _ => Ok (t_st t)
                end
  | fstatat _ _ _ => Ok (reg_stat 0)
  | e => (permissive _ e (Kstate next [])).1
  end.
Definition answering (R : Type) (e : posix R) (k : cghost * Z) : R * (cghost * Z) :=
  let r := answer k.1 k.2 R e in
  (r, (copy_upd src_fd src k.1 R e r, match e with openat _ _ _ _ => k.2 + 1 | _ => k.2 end)).

(** The kernel and the ghost state agree; known modes are permission bits. *)
Definition agrees (k : cghost * Z) (g : cghost) : Prop :=
  k.1 = g /\ 0 <= k.2 /\ (forall fd, is_Some (cg_fds g !! fd) -> fd < k.2) /\ (forall m, cg_mode g = Some m -> m &. o07777 = m).

Lemma reg_stat_perm m : perm_bits (reg_stat m) = m &. o07777.
Proof.
  unfold perm_bits, reg_stat. cbn [st_mode]. rewrite Z.land_lor_distr_l, <- Z.land_assoc.
  change (S_IFREG &. o07777) with 0. by rewrite Z.lor_0_l.
Qed.
Lemma reg_stat_reg m : S_ISREG (st_mode (reg_stat m)) = true.
Proof.
  unfold S_ISREG, reg_stat. cbn [st_mode]. rewrite Z.land_lor_distr_l, <- Z.land_assoc.
  change (o07777 &. S_IFMT) with 0. by rewrite Z.land_0_r.
Qed.

Lemma reads_answer o n : reads src o n (take (Z.to_nat n) (drop (Z.to_nat o) src)).
Proof.
  split_and!.
  - by apply prefix_take.
  - unfold zlen. rewrite length_take. lia.
  - intros H%(f_equal length). rewrite length_take, length_drop in H. simpl in H. unfold zlen. lia.
Qed.

Lemma insert_below (fds : gmap Z role) fd o n :
  (forall fd, is_Some (fds !! fd) -> fd < n) -> fd < n -> forall fd', is_Some (<[fd := o]> fds !! fd') -> fd' < n.
Proof. intros H Hn fd'. rewrite lookup_insert_is_Some'. intros [<-|?]; auto. Qed.
Lemma strip_land m q : (forall m', m = Some m' -> m' &. o07777 = m') -> strip m = Some q -> q &. o07777 = q.
Proof. destruct m as [m|]; [|done]. simpl. destruct (has_bits m _); [done|]. intros H [= <-]. by apply H. Qed.
End kernel.

Lemma answering_ok src_fd dst_fd t inpl src :
  kernel_ok (copying src_fd dst_fd t inpl src) (answering src_fd t src None) agrees.
Proof.
  intros [g0 n] g R e (Hg & Hn & Hfd & Hm) Hpre. cbn [fst snd] in *. subst g0. unfold answering. cbn [fst snd].
  assert (Hlt : forall fd o, cg_fds g !! fd = Some o -> fd < n) by (intros; apply Hfd; by eexists).
  destruct e; cbn in Hpre; try done; unfold agrees; cbn [answer permissive fst snd madm mupd copying copy_adm copy_upd];
    try (split; [done|split_and!; done]).
  - (* openat *)
    split; [split; [done|]; destruct (cg_fds g !! n) eqn:E; [apply Hlt in E; lia|done]|].
    destruct (has_bits flags O_CREAT); cbn; (split_and!; [done|lia| |done]);
      (apply insert_below; [intros fd2 H2; specialize (Hfd _ H2); lia|lia]).
  - (* close *) split; [done|]. split_and!; try done. cbn. intros fd'. rewrite lookup_delete_is_Some. intros [_ ?]. by apply Hfd.
  - (* read *) destruct Hpre as [o Ho]. rewrite Ho. split; [apply reads_answer|]. split_and!; try done. cbn.
    apply insert_below; [done|by eapply Hlt].
  - (* write *) split; [intros Hd; destruct data; [done|]; pose proof (zlen_nonneg data); rewrite zlen_cons; lia|].
    destruct Hpre as [o Ho]. rewrite Ho. split_and!; try done; cbn.
    + apply insert_below; [done|by eapply Hlt].
    + intros q. by apply strip_land.
  - (* pread *) split; [apply reads_answer|done].
  - (* pwrite *) split; [intros Hd; destruct data; [done|]; pose proof (zlen_nonneg data); rewrite zlen_cons; lia|].
    split_and!; try done. cbn. intros q. by apply strip_land.
  - (* ftruncate *) split; [done|]. split_and!; try done. cbn. intros q. by apply strip_land.
  - (* fchown *) split; [done|]. split_and!; try done. cbn. intros q. by apply strip_land.
  - (* fchmod *) split; [done|]. split_and!; try done. cbn. intros q [= <-]. by rewrite <- Z.land_assoc.
  - (* fstat *) destruct (cg_fds g !! fd) as [[o|o]|] eqn:E; cbn; rewrite ?E.
    + split; [intros [o' ?]; congruence|done].
    + split.
      * intros _. eexists. split; [done|]. split; [apply reg_stat_reg|]. rewrite reg_stat_perm.
        destruct (cg_mode g) as [m|] eqn:Em; cbn; [by apply Hm|]. intros q ->. cbn. apply Z.bits_inj'. intros i Hi.
        rewrite Z.ldiff_spec, Z.land_spec, Z.bits_0. by destruct (Z.testbit q i); rewrite ?andb_false_r.
      * split_and!; try done. cbn. intros q [= <-]. rewrite reg_stat_perm, <- Z.land_assoc. done.
    + split; [intros [o' ?]; congruence|done].
  - (* copy_file_range *) split; [lia|]. case_decide; [by split_and!|]. split_and!; try done. cbn. intros q. by apply strip_land.
Qed.

(** ** Concrete runs *)

Definition no_env : fsenv := FsEnv 1000 1000 [] true false false 0 (Policy false false true false None None).
Definition copy_config (chunk : Z) : runtime := Runtime 1 1 1 1 1 1 false chunk (2 ^ 30) 0 1 1 1 true.
Definition copy_task (size : Z) : task :=
  Task (str "src/f") (str "dst/f") (str "f")
    (Stat 1 7 (S_IFREG |. o0755) 1 1000 1000 size 8 (Timespec 3 0) (Timespec 4 5) (Timespec 0 0)) false 0.

Lemma local_copy_correct_witness :
  exists a k g,
    run (answering 3 (copy_task 5) (str "hello") None)
      (copy_file_serial_small no_env (copy_config 4096) 3 4 5 (copy_task 5) fsu0) (cg0, 5) = Some (a, k) /\ agrees k g /\
    let '((ok, payload), _) := a in
    cg_fds g = ∅ /\
    if ok : bool then
      cg_data g = str "hello" /\
      (if small_inplace no_env (copy_task 5) then cg_name g = Some (str "f") else cg_done g = true) /\
      (small_inplace no_env (copy_task 5) = false \/ has_setid (t_st (copy_task 5)) = false -> sealed no_env (t_st (copy_task 5)) g)
    else cg_name g = None /\ cg_done g = false.
Proof.
  eapply (wp_run (copying 3 4 (copy_task 5) (small_inplace no_env (copy_task 5)) (str "hello")) _ agrees _ (cg0, 5) cg0
    (fun g '((ok, payload), _) => cg_fds g = ∅ /\ if ok : bool then _ else _)); [exact id|apply answering_ok| |].
  - split_and!; [done|done|intros fd [? H]; cbn in H; by rewrite lookup_empty in H|done].
  - eapply wp_mono; [apply (local_copy_correct no_env (copy_config 4096) 3 4 (copy_task 5) (str "hello") 5 fsu0); done|].
    intros g [[ok payload] s] H. exact H.
Defined.

(** That run reports success, so the file has been renamed with the contents. *)
Example local_copy_runs :
  match run (answering 3 (copy_task 5) (str "hello") None)
          (copy_file_serial_small no_env (copy_config 4096) 3 4 5 (copy_task 5) fsu0) (cg0, 5) with
  | Some (((true, 5), _), (g, _)) => cg_data g = str "hello" /\ cg_done g = true
  | _ => False
  end.
Proof. by vm_compute. Qed.

(** Where copy_file_range may stop working in the middle of a file, the
    previous guarantee fails. The loop falls back to read and write, which use
    the descriptors' own offsets, still 0, while its position has moved on: with
    a file of two chunks and a kernel that clones the first and refuses the
    second, the first chunk is copied twice, the second never, and the file of
    half the size is renamed and reported as 8192 bytes copied. *)
Theorem copy_range_midway_loses :
  match run (answering 3 (copy_task 8192) (replicate 8192 x01) (Some 4096))
          (copy_file_serial_small no_env (copy_config 4096) 3 4 8192 (copy_task 8192) fsu0) (cg0, 5) with
  | Some (((ok, payload), _), (g, _)) => ok = true /\ payload = 8192 /\ cg_done g = true /\ zlen (cg_data g) = 4096
  | None => False
  end.
Proof. by vm_compute. Qed.
