(* ===== verification/Hardlinks.v ===== *)
(** The registry of hard-linked inodes (src/hardlinks.c): the first name of an
    inode is copied, later names are queued and linked to it when the copies are
    done.

    The hash table refines a finite map from (st_dev, st_ino) to the primary's
    name ([table]); a note that runs out of memory leaves the map as it was. The
    lock is implicit: each operation is one critical section. *)

From S2P Require Export FsUtil.
From stdpp Require Import list gmap.
#[local] Open Scope Z_scope.

Record hl_entry := HlEntry { hl_dev : Z; hl_ino : Z; hl_primary : bytes }.
Record hl_job := HlJob { j_primary : bytes; j_link : bytes; j_st : stat }.
Inductive hl_result := HL_PRIMARY | HL_SECONDARY | HL_ERROR.
#[export] Instance hl_result_eq_dec : EqDecision hl_result.
Proof. solve_decision. Defined.

(** [g_buckets], whose length is [g_nbuckets]; [g_count]; the jobs, oldest first. *)
Record registry := Registry { hl_buckets : list (list hl_entry); hl_count : Z; hl_jobs : list hl_job }.
Abbreviation HM := (M posix registry).

Definition hl_hash (dev ino nbuckets : Z) : Z :=
  let h := u64 (u64 dev * 1099511628211) in
  let h := Z.lxor h (u64 (u64 ino + 0x9e3779b97f4a7c15 + u64 (Z.shiftl h 6) + Z.shiftr h 2)) in
  h &. (nbuckets - 1).
Definition hl_slot (dev ino : Z) (n : nat) : nat := Z.to_nat (hl_hash dev ino (Z.of_nat n)).

(** Push onto the front of a bucket. *)
Definition hl_push (bs : list (list hl_entry)) (e : hl_entry) : list (list hl_entry) :=
  alter (cons e) (hl_slot (hl_dev e) (hl_ino e) (length bs)) bs.
(** Every entry, bucket by bucket, pushed onto a table of [n] buckets. *)
Definition hl_rehash (n : nat) (bs : list (list hl_entry)) : list (list hl_entry) :=
  foldl hl_push (replicate n []) (concat bs).

Definition hl_grow : HM bool :=
  s ← get;
  let nb := length (hl_buckets s) in
  let new_n := if decide (nb = 0%nat) then 1024%nat else (nb * 2)%nat in
  ok ← call (malloc (Z.of_nat new_n * 8));
  if ok : bool then modify (fun s => Registry (hl_rehash new_n (hl_buckets s)) (hl_count s) (hl_jobs s));; mret true
  else mret false.

Definition hardlinks_reset : HM unit := modify (fun _ => Registry [] 0 []).

Definition hl_key (e : hl_entry) : Z * Z := (hl_dev e, hl_ino e).
Fixpoint hl_find (k : Z * Z) (l : list hl_entry) : option hl_entry :=
  match l with
  | [] => None
  | e :: l => if decide (hl_key e = k) then Some e else hl_find k l
  end.
Definition hl_lookup (dev ino : Z) (bs : list (list hl_entry)) : option hl_entry :=
  hl_find (dev, ino) (default [] (bs !! hl_slot dev ino (length bs))).

(** [calloc] and two [strdup]: all are tried. *)
Definition alloc3 (a b c : Z) : HM bool := x ← call (malloc a); y ← call (malloc b); z ← call (malloc c); mret (x && y && z).
Definition alloc2 (a b : Z) : HM bool := x ← call (malloc a); y ← call (malloc b); mret (x && y).

Definition hl_room (s : registry) : bool := bool_decide (Z.of_nat (length (hl_buckets s)) * 3 / 4 < hl_count s + 1).

Definition hardlinks_note (st : stat) (dst_path : bytes) : HM hl_result :=
  n ← gets (fun s => length (hl_buckets s));
  ok ← (if decide (n = 0%nat) then hl_grow else mret true);
  if negb ok then mret HL_ERROR else
  e ← gets (fun s => hl_lookup (st_dev st) (st_ino st) (hl_buckets s));
  match e with
  | Some e =>
      ok ← alloc3 176 (zlen (hl_primary e) + 1) (zlen dst_path + 1);
      if negb ok then mret HL_ERROR else
      modify (fun s => Registry (hl_buckets s) (hl_count s) (hl_jobs s ++ [HlJob (hl_primary e) dst_path st]));;
      mret HL_SECONDARY
  | None =>
      full ← gets hl_room;
      ok ← (if full : bool then hl_grow else mret true);
      if negb ok then mret HL_ERROR else
      ok ← alloc2 32 (zlen dst_path + 1);
      if negb ok then mret HL_ERROR else
      modify (fun s => Registry (hl_push (hl_buckets s) (HlEntry (st_dev st) (st_ino st) dst_path)) (hl_count s + 1) (hl_jobs s));;
      mret HL_PRIMARY
  end.

(** * Replay *)

Section replay.
Context (env : fsenv).

(** The read/write loop; [None]: an error. [eintr] bounds the interruptions of write. *)
Fixpoint link_write_all (fuel : nat) (out : Z) (link_dst data : bytes) : FM bool :=
  match data, fuel with
  | [], _ => mret true
  | _, O => stuck
  | _, S fuel =>
      w ← call (write out data);
      match w with
      | Err e => if decide (e = EINTR) then link_write_all fuel out link_dst data else complain link_dst;; mret false
      | Ok w => link_write_all fuel out link_dst (drop (Z.to_nat w) data)
      end
  end.
Fixpoint link_copy_loop (fuel : nat) (i out : Z) (primary_dst link_dst : bytes) : FM bool :=
  match fuel with
  | O => stuck
  | S fuel =>
      r ← call (read i 65536);
      match r with
      | Err _ => complain primary_dst;; mret false
      | Ok [] => mret true
      | Ok d => ok ← link_write_all (fuel + length d) out link_dst d;
                if ok : bool then link_copy_loop fuel i out primary_dst link_dst else mret false
      end
  end.

Definition FALLBACK_OUT_FLAGS : Z := O_WRONLY |. O_CREAT |. O_TRUNC |. O_CLOEXEC.
Definition hardlink_fallback_copy (fuel : nat) (j : hl_job) : FM bool :=
  i ← call (open (j_primary j) (O_RDONLY |. O_CLOEXEC) 0);
  match i with
  | Err _ => complain (j_primary j);; mret false
  | Ok i =>
      o ← call (open (j_link j) FALLBACK_OUT_FLAGS (st_mode (j_st j) &. o07777));
      match o with
      | Err _ => complain (j_link j);; close_ i;; mret false
      | Ok o =>
          ok ← link_copy_loop fuel i o (j_primary j) (j_link j);
          close_ i;;
          c ← call (close o);
          ok ← (if negb (is_ok c) && ok then complain (j_link j);; mret false else mret ok);
          when ok (preserve_path_metadata env (j_link j) (j_st j);; mret tt);;
          mret ok
      end
  end.

(** [sshx_link] is the remote operation; the result is whether all went well. *)
Fixpoint replay_jobs (fuel : nat) (sshx_link : bytes -> bytes -> FM bool) (remote : bool) (js : list hl_job) (rc warned : bool) : FM bool :=
  match js with
  | [] => mret rc
  | j :: js =>
      if remote then
        ok ← sshx_link (j_primary j) (j_link j); replay_jobs fuel sshx_link remote js (rc && ok) warned
      else
        r ← hardlink_create (j_primary j) (j_link j);
        match r with
        | Linked => replay_jobs fuel sshx_link remote js rc warned
        | LinkExdev =>
            when (negb warned) (complain (str "Warning: hard link across filesystems; copying data instead of linking."));;
            ok ← hardlink_fallback_copy fuel j; replay_jobs fuel sshx_link remote js (rc && ok) true
        | LinkFailed => replay_jobs fuel sshx_link remote js false warned
        end
  end.
Definition hardlinks_replay (fuel : nat) (sshx_link : bytes -> bytes -> FM bool) (remote : bool) (s : registry) : FM bool :=
  replay_jobs fuel sshx_link remote (hl_jobs s) true false.
End replay.

(** * The map it stands for *)

Definition entries (s : registry) : list hl_entry := concat (hl_buckets s).
Definition table (s : registry) : gmap (Z * Z) bytes := list_to_map ((fun e => (hl_key e, hl_primary e)) <$> entries s).
Definition abstract (s : registry) : gmap (Z * Z) bytes * list hl_job := (table s, hl_jobs s).

(** The contract: the first name of an inode is its primary, every later one a job. *)
Definition note_spec (a : gmap (Z * Z) bytes * list hl_job) (st : stat) (dst : bytes) : hl_result * (gmap (Z * Z) bytes * list hl_job) :=
  let k := (st_dev st, st_ino st) in
  match a.1 !! k with
  | Some p => (HL_SECONDARY, (a.1, a.2 ++ [HlJob p dst st]))
  | None => (HL_PRIMARY, (<[k := dst]> a.1, a.2))
  end.

(** Every entry is in the bucket its key hashes to, keys are unique, the count
    is the number of entries, and at most three quarters of the buckets. *)
Definition slots_ok (bs : list (list hl_entry)) : Prop :=
  forall i b e, bs !! i = Some b -> e ∈ b -> hl_slot (hl_dev e) (hl_ino e) (length bs) = i.
Record registry_ok (s : registry) : Prop := RegistryOk {
  ro_slots : slots_ok (hl_buckets s);
  ro_keys : NoDup (hl_key <$> entries s);
  ro_count : hl_count s = zlen (entries s);
  ro_size : length (hl_buckets s) = 0%nat \/ (1024 <= length (hl_buckets s))%nat;
  ro_load : 4 * hl_count s <= 3 * Z.of_nat (length (hl_buckets s))
}.

Lemma hl_slot_lt dev ino n : (0 < n)%nat -> (hl_slot dev ino n < n)%nat.
Proof.
  intros Hn. unfold hl_slot, hl_hash. set (h := Z.lxor _ _).
  assert (Hh : 0 <= h) by (apply Z.lxor_nonneg; split; intros _; apply u64_range).
  assert (Hm : 0 <= Z.of_nat n - 1) by lia. remember (Z.of_nat n - 1) as m. clearbody h.
  assert (0 <= h &. m <= m); [|lia]. split; [apply Z.land_nonneg; by left|].
  assert (E : h &. m = m - Z.ldiff m h).
  { rewrite Z.sub_nocarry_ldiff; apply Z.bits_inj'; intros i Hi; rewrite ?Z.land_spec, !Z.ldiff_spec, ?Z.bits_0;
      by destruct (Z.testbit h i), (Z.testbit m i). }
  rewrite E. assert (0 <= Z.ldiff m h) by (apply Z.ldiff_nonneg; by left). lia.
Qed.

Lemma concat_alter {A} (f : list A -> list A) x (bs : list (list A)) i :
  (i < length bs)%nat -> (forall b, f b = x :: b) -> concat (alter f i bs) ≡ₚ x :: concat bs.
Proof.
  intros Hi Hf. revert i Hi. induction bs as [|b bs IH]; intros [|i] Hi; simpl in *; [lia|lia|by rewrite Hf|].
  change (b ++ concat (alter f i bs) ≡ₚ x :: b ++ concat bs). rewrite IH by lia. by rewrite Permutation_middle.
Qed.
Lemma hl_push_length bs e : length (hl_push bs e) = length bs.
Proof. apply length_alter. Qed.
Lemma hl_push_concat bs e : (0 < length bs)%nat -> concat (hl_push bs e) ≡ₚ e :: concat bs.
Proof. intros H. apply concat_alter; [by apply hl_slot_lt|done]. Qed.
Lemma hl_push_slots bs e : slots_ok bs -> slots_ok (hl_push bs e).
Proof.
  intros H i b x Hb Hx. rewrite hl_push_length. unfold hl_push in Hb.
  rewrite list_lookup_alter in Hb. case_decide as Hi.
  - subst i. destruct (bs !! _) as [b0|] eqn:E; [|done]. injection Hb as <-. apply elem_of_cons in Hx as [->|Hx]; [done|by eapply H].
  - by eapply H.
Qed.
Lemma hl_rehash_spec n bs : (0 < n)%nat ->
  length (hl_rehash n bs) = n /\ concat (hl_rehash n bs) ≡ₚ concat bs /\ slots_ok (hl_rehash n bs).
Proof.
  intros Hn. unfold hl_rehash.
  assert (G : forall l t, length t = n -> slots_ok t ->
    length (foldl hl_push t l) = n /\ concat (foldl hl_push t l) ≡ₚ l ++ concat t /\ slots_ok (foldl hl_push t l)).
  { induction l as [|e l IH]; intros t Ht Hs; [done|]. simpl.
    destruct (IH (hl_push t e)) as (? & Hc & ?); [by rewrite hl_push_length|by apply hl_push_slots|].
    split_and!; [done| |done]. rewrite Hc, hl_push_concat by lia. by rewrite Permutation_middle. }
  assert (Hnil : forall k, concat (replicate k ([] : list hl_entry)) = []) by (induction k; simpl; done).
  destruct (G (concat bs) (replicate n [])) as (? & Hc & ?).
  - apply length_replicate.
  - intros i b e [-> _]%lookup_replicate_1 He. by apply elem_of_nil in He.
  - split_and!; [done| |done]. by rewrite Hc, Hnil, app_nil_r.
Qed.

Lemma hl_find_some k l e : hl_find k l = Some e -> e ∈ l /\ hl_key e = k.
Proof.
  induction l as [|x l IH]; [done|]. simpl. case_decide; [intros [= <-]; split; [by left|done]|].
  intros [? ?]%IH. split; [by right|done].
Qed.
Lemma hl_find_none k l : hl_find k l = None -> forall e, e ∈ l -> hl_key e <> k.
Proof.
  induction l as [|x l IH]; intros H e He; [by apply elem_of_nil in He|]. simpl in H. case_decide; [done|].
  apply elem_of_cons in He as [->|He]; [done|by apply IH].
Qed.

Definition pairs (l : list hl_entry) : list ((Z * Z) * bytes) := (fun e => (hl_key e, hl_primary e)) <$> l.
Lemma pairs_keys l : (pairs l).*1 = hl_key <$> l.
Proof. unfold pairs. by rewrite <- list_fmap_compose. Qed.

(** What the bucket says about a key is what the map says. *)
Lemma hl_lookup_table s dev ino :
  registry_ok s -> (0 < length (hl_buckets s))%nat -> hl_primary <$> hl_lookup dev ino (hl_buckets s) = table s !! (dev, ino).
Proof.
  intros Hok Hn. unfold hl_lookup, table. fold (pairs (entries s)). set (slot := hl_slot dev ino (length (hl_buckets s))).
  assert (Hk : NoDup (pairs (entries s)).*1) by (rewrite pairs_keys; apply (ro_keys s Hok)).
  destruct (lookup_lt_is_Some_2 (hl_buckets s) slot) as [b Hb]; [by apply hl_slot_lt|]. rewrite Hb. cbn [default from_option id].
  destruct (hl_find (dev, ino) b) as [e|] eqn:E; cbn.
  - apply hl_find_some in E as [He Hke]. symmetry. apply elem_of_list_to_map; [done|].
    rewrite <- Hke. unfold pairs. apply list_elem_of_fmap. exists e. split; [done|]. apply elem_of_concat. exists b. split; [|done].
    by eapply list_elem_of_lookup_2.
  - symmetry. apply not_elem_of_list_to_map. rewrite pairs_keys. intros (e & He1 & He2)%list_elem_of_fmap.
    apply elem_of_concat in He2 as (b2 & Hb2 & He2). apply list_elem_of_lookup_1 in Hb2 as [j Hj].
    pose proof (ro_slots s Hok j b2 e Hj He2) as Hs. injection He1 as -> ->. fold slot in Hs.
    assert (j = slot) as -> by done. rewrite Hb in Hj. injection Hj as ->.
    by apply (hl_find_none _ _ E e).
Qed.

(** ** Growing *)

(** The calls an allocation failure is visible in. *)
Definition alloc_upd (g : bool) R (e : posix R) : R -> bool :=
  match e in posix R return R -> bool with malloc _ => fun ok => g || negb ok | _ => fun _ => g end.
(** [true] once an allocation has failed. *)
Definition allocs : monitor posix := Monitor bool (fun _ _ _ => True) (fun _ _ _ _ => True) alloc_upd False.

Lemma table_perm s s' : registry_ok s -> entries s' ≡ₚ entries s -> table s' = table s.
Proof.
  intros Hok Hp. unfold table. fold (pairs (entries s')). fold (pairs (entries s)). symmetry. apply list_to_map_proper.
  - rewrite pairs_keys. apply (ro_keys s Hok).
  - unfold pairs. by rewrite Hp.
Qed.

Lemma hl_grow_ok s g :
  registry_ok s ->
  wpM allocs hl_grow s g (fun g' ok s' =>
    if ok : bool then g' = g /\ registry_ok s' /\ abstract s' = abstract s /\ hl_count s' = hl_count s /\
      4 * (hl_count s' + 1) <= 3 * Z.of_nat (length (hl_buckets s')) /\ (0 < length (hl_buckets s'))%nat
    else g' = true /\ s' = s).
Proof.
  intros Hok. unfold hl_grow. wp_step. wp_step. cbv zeta. set (n := if decide _ then _ else _).
  assert (Hn : (1024 <= n)%nat /\ (length (hl_buckets s) = 0%nat \/ n = length (hl_buckets s) * 2)%nat).
  { subst n. destruct (ro_size s Hok) as [->|H]; [by rewrite decide_True by done; split; [|left]|]. rewrite decide_False by lia. split; [lia|by right]. }
  wp_call ok Hm. destruct ok; cbn [mupd allocs alloc_upd negb]; [|wp_step; split; [apply orb_true_r|done]].
  rewrite orb_false_r. repeat wp_step_pure.
  destruct (hl_rehash_spec n (hl_buckets s)) as (Hl & Hc & Hs); [lia|].
  set (s1 := Registry (hl_rehash n (hl_buckets s)) (hl_count s) (hl_jobs s)).
  assert (Hload : 4 * (hl_count s + 1) <= 3 * Z.of_nat n).
  { pose proof (ro_load s Hok). destruct Hn as [? [H0| ->]]; [rewrite H0 in *|]; lia. }
  assert (Hp : entries s1 ≡ₚ entries s) by exact Hc.
  split_and!; [done| | |done|cbn; rewrite Hl; done|cbn; rewrite Hl; lia].
  - split; [done|rewrite Hp; apply (ro_keys s Hok)| |right; cbn; lia|cbn; lia].
    unfold zlen. rewrite Hp. apply (ro_count s Hok).
  - unfold abstract. cbn [hl_jobs]. f_equal. by apply (table_perm s s1).
Qed.

(** C31.  The hash table implements the map. Noting a name of an inode gives
    exactly the answer of [note_spec] and leaves a well-formed table that stands
    for the map and the job list of [note_spec]; if an allocation fails it may
    answer HL_ERROR instead, and then the map and the jobs are as before,
    although the table may have grown. *)
Theorem hardlinks_note_refines s st dst :
  registry_ok s ->
  wpM allocs (hardlinks_note st dst) s false (fun failed r s' =>
    registry_ok s' /\
    if decide (r = HL_ERROR) then failed = true /\ abstract s' = abstract s
    else (r, abstract s') = note_spec (abstract s) st dst).
Proof.
  intros Hok. unfold hardlinks_note. do 2 wp_step. wp_step.
  apply (wpM_mono allocs _ _ _ (fun (g : bool) (ok : bool) (s1 : registry) => registry_ok s1 /\ abstract s1 = abstract s /\
    if ok then g = false /\ (0 < length (hl_buckets s1))%nat else g = true)).
  { case_decide as H0; [|wp_step; split_and!; [done|done|done|lia]].
    eapply wpM_mono; [by apply hl_grow_ok|]. intros g [] s1 H1; [|by destruct H1 as [-> ->]].
    by destruct H1 as (-> & ? & ? & _ & _ & ?). }
  intros g [] s1 (Hok1 & Ha1 & H1); cbn [negb]; [|wp_step; by rewrite decide_True]. destruct H1 as [-> Hn1].
  wp_step. wp_step. pose proof (hl_lookup_table s1 (st_dev st) (st_ino st) Hok1 Hn1) as Hl.
  rewrite <- Ha1. unfold note_spec, abstract. cbn [fst snd]. rewrite <- Hl.
  destruct (hl_lookup _ _ _) as [e|] eqn:El; cbn [fmap option_fmap option_map].
  - unfold alloc3. wp_call x Hx. wp_call y Hy. wp_call z Hz. wp_step. cbn [mupd allocs alloc_upd].
    destruct (x && y && z) eqn:E; cbn [negb]; repeat wp_step_pure.
    + rewrite decide_False by done. split; [|done]. by destruct Hok1.
    + rewrite decide_True by done. split_and!; [done| |done]. by destruct x, y, z.
  - wp_step. wp_step. wp_step.
    apply (wpM_mono allocs _ _ _ (fun (g : bool) (ok : bool) (s2 : registry) => registry_ok s2 /\ abstract s2 = abstract s1 /\
      if ok then g = false /\ (0 < length (hl_buckets s2))%nat /\ 4 * (hl_count s2 + 1) <= 3 * Z.of_nat (length (hl_buckets s2)) else g = true)).
    { destruct (hl_room s1) eqn:Hr.
      - eapply wpM_mono; [by apply hl_grow_ok|]. intros g [] s2 H2; [|by destruct H2 as [-> ->]].
        by destruct H2 as (-> & ? & ? & _ & ? & ?).
      - wp_step. split_and!; try done. unfold hl_room in Hr. apply bool_decide_eq_false in Hr.
        pose proof (Z.mul_div_le (Z.of_nat (length (hl_buckets s1)) * 3) 4). lia. }
    intros g [] s2 (Hok2 & Ha2 & H2); cbn [negb]; [|wp_step; by rewrite decide_True]. destruct H2 as (-> & Hn2 & Hload).
    unfold alloc2. wp_call x Hx. wp_call y Hy. wp_step. cbn [mupd allocs alloc_upd].
    destruct (x && y) eqn:E; cbn [negb]; repeat wp_step_pure.
    2: { rewrite decide_True by done. split_and!; [done| |done]. by destruct x, y. }
    rewrite decide_False by done. set (e := HlEntry (st_dev st) (st_ino st) dst).
    assert (Hnew : table s2 !! (st_dev st, st_ino st) = None).
    { assert (table s2 = table s1) as -> by (unfold abstract in Ha2; congruence). by rewrite <- Hl. }
    assert (Hnk : hl_key e ∉ hl_key <$> entries s2).
    { rewrite <- pairs_keys. by apply (not_elem_of_list_to_map (M := gmap (Z * Z))). }
    set (s3 := Registry (hl_push (hl_buckets s2) e) (hl_count s2 + 1) (hl_jobs s2)).
    assert (Hp : entries s3 ≡ₚ e :: entries s2) by (by apply hl_push_concat).
    split.
    + split.
      * apply hl_push_slots, (ro_slots s2 Hok2).
      * rewrite Hp. cbn [fmap list_fmap]. by apply NoDup_cons; split; [|apply (ro_keys s2 Hok2)].
      * unfold zlen. rewrite Hp. cbn. rewrite (ro_count s2 Hok2). unfold zlen. lia.
      * cbn. rewrite hl_push_length. apply (ro_size s2 Hok2).
      * cbn. rewrite hl_push_length. lia.
    + f_equal. assert (table s3 = <[(st_dev st, st_ino st) := dst]> (table s2)) as E3.
      { unfold table. fold (pairs (entries s3)). rewrite (list_to_map_proper (M := gmap (Z * Z)) _ (pairs (e :: entries s2))); [done| |].
        - rewrite pairs_keys, Hp. cbn [fmap list_fmap]. by apply NoDup_cons; split; [|apply (ro_keys s2 Hok2)].
        - unfold pairs. by rewrite Hp. }
      rewrite E3. injection Ha2 as Ht Hj. rewrite Ht. f_equal. exact Hj.
Qed.

(** A table with one inode in it. *)
Definition primary_entry : hl_entry := HlEntry 8 42 (str "dst/a").
Definition registry1 : registry := Registry (hl_rehash 1024 [[primary_entry]]) 1 [].
Definition linked_stat : stat :=
  Stat 8 42 (S_IFREG |. o0755) 2 1000 1000 3 8 (Timespec 0 0) (Timespec 0 0) (Timespec 0 0).
Lemma registry1_ok : registry_ok registry1.
Proof.
  destruct (hl_rehash_spec 1024 [[primary_entry]]) as (Hl & Hc & Hs); [lia|]. cbn [concat app] in Hc.
  assert (Hp : entries registry1 ≡ₚ [primary_entry]) by exact Hc. split.
  - exact Hs.
  - rewrite Hp. cbn [fmap list_fmap]. by apply NoDup_singleton.
  - unfold zlen. by rewrite Hp.
  - change (hl_buckets registry1) with (hl_rehash 1024 [[primary_entry]]). rewrite Hl. change (hl_count registry1) with 1. lia.
  - cbn [hl_buckets registry1 hl_count]. rewrite Hl. lia.
Qed.
Lemma hardlinks_note_refines_witness :
  registry_ok registry1 /\
  wpM allocs (hardlinks_note linked_stat (str "dst/b")) registry1 false (fun failed r s' =>
    registry_ok s' /\
    if decide (r = HL_ERROR) then failed = true /\ abstract s' = abstract registry1
    else (r, abstract s') = note_spec (abstract registry1) linked_stat (str "dst/b")).
Proof. split; [apply registry1_ok|apply (hardlinks_note_refines registry1 linked_stat (str "dst/b")), registry1_ok]. Defined.

(** The answers on that table, and on an empty one. *)
Example hardlinks_note_runs :
  match simulate (hardlinks_note linked_stat (str "dst/b")) registry1 [] with
  | Some (r, s, _) => r = HL_SECONDARY /\ hl_jobs s = [HlJob (str "dst/a") (str "dst/b") linked_stat]
  | None => False
  end /\
  match simulate (hardlinks_note linked_stat (str "dst/b")) (Registry [] 0 []) [] with
  | Some (r, s, _) => r = HL_PRIMARY /\ hl_jobs s = [] /\ hl_count s = 1
  | None => False
  end.
Proof. by vm_compute. Qed.

(** * Linking onto an existing link

    A kernel with names and inodes only: link(2) refuses an existing name, and
    rename(2) of one link onto another link of the same inode does nothing and
    succeeds. *)
Definition names_kernel (R : Type) (e : posix R) (k : gmap bytes Z) : R * gmap bytes Z :=
  match e in posix R return R * gmap bytes Z with
  | link a b => match k !! a, k !! b with
                | None, _ => (Err ENOENT, k)
                | _, Some _ => (Err EEXIST, k)
                | Some i, None => (Ok tt, <[b := i]> k)
                end
  | rename a b => match k !! a with
                  | None => (Err ENOENT, k)
                  | Some i => if decide (k !! b = Some i) then (Ok tt, k) else (Ok tt, <[b := i]> (delete a k))
                  end
  | unlink a => (Ok tt, delete a k)
  | e => ((permissive _ e (Kstate 3 [])).1, k)
  end.

(** Replaying a hard link that is there already, as a second run over
    the same destination does, reports success and leaves a temporary name
    behind: the new link is made under it, and the rename onto the existing
    link of the same inode does nothing. *)
Theorem hardlink_rerun_leaves_temp :
  let names := list_to_map [(str "dst/a", 1); (str "dst/b", 1)] : gmap bytes Z in
  match run names_kernel (hardlink_create (str "dst/a") (str "dst/b") fsu0) names with
  | Some ((r, _), names') => r = Linked /\ names' !! str "dst/.ecopy.tmp.0.1" = Some 1 /\ names' !! str "dst/b" = Some 1
  | None => False
  end.
Proof. by vm_compute. Qed.
