(* ===== verification/SchedulerInv.v ===== *)
(** The scheduler is correct: slot limits, conservation of tasks, absence of
    deadlock, and complete drainage. *)

From S2P Require Export Scheduler.

(** * Queue operations *)

(** Everything that is queued. *)
Definition q_tasks (s : sched) : list task := heap_tasks (q_heap s) ++ concat (b_rest <$> q_small s).

Record q_ok (s : sched) : Prop := QOk {
  qo_heap : heap_inv t_key (q_heap s);
  qo_batches : Forall (fun b => b_rest b <> []) (q_small s);
  qo_len : q_small_len s = zlen (concat (b_rest <$> q_small s))
}.

Lemma queued_tasks s : q_ok s -> queued s = zlen (q_tasks s).
Proof.
  intros [_ _ Hl]. unfold queued, q_tasks, heap_tasks. rewrite Hl, zlen_app. unfold zlen. rewrite length_fmap. lia.
Qed.
Lemma batch_len b : b_rest b <> [] -> zlen (b_tasks b) - Z.of_nat (b_head b) = zlen (b_rest b).
Proof.
  intros H. assert (b_head b < length (b_tasks b))%nat.
  { destruct (decide (b_head b < length (b_tasks b))%nat); [done|]. destruct H. apply drop_ge. lia. }
  unfold b_rest, zlen. rewrite length_drop. lia.
Qed.

(** Fields the queues do not depend on. *)
Lemma q_ok_ext s s' : q_heap s' = q_heap s -> q_small s' = q_small s -> q_small_len s' = q_small_len s -> q_ok s -> q_ok s'.
Proof. intros E1 E2 E3 []. split; rewrite ?E1, ?E2, ?E3; done. Qed.
Lemma q_tasks_ext s s' : q_heap s' = q_heap s -> q_small s' = q_small s -> q_tasks s' = q_tasks s.
Proof. intros E1 E2. unfold q_tasks. by rewrite E1, E2. Qed.

Lemma smallq_push_ok b s :
  q_ok s -> b_rest b <> [] ->
  q_ok (smallq_push_batch b s) /\ q_tasks (smallq_push_batch b s) = q_tasks s ++ b_rest b.
Proof.
  intros [H1 H2 H3] Hb. unfold smallq_push_batch. split; [split|]; cbn [q_heap q_small q_small_len set_q_small].
  - done.
  - apply Forall_app. by split; [|constructor].
  - rewrite fmap_app, concat_app, zlen_app, H3, batch_len by done. simpl. by rewrite app_nil_r.
  - unfold q_tasks. cbn [q_heap q_small set_q_small]. rewrite fmap_app, concat_app. simpl.
    by rewrite app_nil_r, (assoc_L (++)).
Qed.

Lemma smallq_pop_ok s :
  q_ok s -> 0 < q_small_len s ->
  exists b s', smallq_pop_batch s = Some (b, s') /\ b_rest b <> [] /\ q_ok s' /\ s' = set_q_small (q_small s') (q_small_len s') s /\
    b_rest b ++ q_tasks s' ≡ₚ q_tasks s.
Proof.
  intros [H1 H2 H3] Hlen. unfold smallq_pop_batch. destruct (q_small s) as [|b l] eqn:E.
  { exfalso. rewrite H3 in Hlen. by vm_compute in Hlen. }
  apply Forall_cons_1 in H2 as [Hb H2]. eexists _, _. split; [done|]. split; [done|]. split; [split|].
  - done.
  - done.
  - cbn [q_small_len q_small set_q_small]. rewrite H3, batch_len by done. rewrite fmap_cons. cbn [concat].
    rewrite zlen_app. lia.
  - split; [done|]. unfold q_tasks. cbn [q_heap q_small set_q_small]. rewrite E, fmap_cons. cbn [concat].
    by rewrite Permutation_app_swap_app.
Qed.

Section inv.
Context (r : runtime) (ssh : bool).

(** ** Limits *)

Definition limits (s : sched) : Prop :=
  0 <= q_small_active s <= g_small_worker_limit r /\
  0 <= q_large_active s <= g_max_active_large_files r /\
  total_worker_slots_used_locked r s <= g_worker_count r.

(** The tasks a claim hands out. *)
Definition claim_tasks (c : claim) : list task :=
  match c with ClaimSmall t | ClaimLarge t => [t] | _ => [] end.
Definition is_large (c : claim) : Z := match c with ClaimLarge _ => 1 | _ => 0 end.

(** What a thread may hold at each point. *)
Definition thread_ok (th : thread) : Prop :=
  match th_pc th with
  | Parked | Woken => l_rest (th_l th) = [] /\ l_slot (th_l th) = false
  | Idle | RunSmall _ => l_rest (th_l th) <> [] -> l_slot (th_l th) = true
  | RunLarge _ | Exited => l_rest (th_l th) = []
  end.
Definition runs_slot (th : thread) : Prop := forall t, th_pc th = RunSmall t -> l_slot (th_l th) = true.

(** A producer asleep is signalled when the last task goes. *)
Definition space_wake_ok (s s' : sched) (ws : wake) : Prop :=
  0 < q_space_waiters s -> q_tasks s <> [] -> q_tasks s' = [] -> ws = Signal 1.

(** What a round promises. *)
Record round_ok (sd : bool) (s s' : sched) (l l' : local) (c : claim) (wq ws : wake) : Prop := RoundOk {
  ro_q : q_ok s';
  ro_tasks : claim_tasks c ++ l_rest l' ++ q_tasks s' ≡ₚ q_tasks s;
  ro_small : q_small_active s' = q_small_active s - b2z (l_slot l) + b2z (l_slot l');
  ro_large : q_large_active s' = q_large_active s + is_large c;
  ro_rest : q_waiters s' = q_waiters s /\ q_space_waiters s' = q_space_waiters s /\ q_done s' = q_done s;
  ro_limits : limits s';
  ro_thread : thread_ok (Thread (pc_of c) l') /\ runs_slot (Thread (pc_of c) l');
  ro_space : sd = false -> space_wake_ok s s' ws;
  ro_wait : c = Wait -> large_ready r s = false /\ small_ready r s l = false /\ drained s' = false;
  ro_none : c = ClaimNone -> sd = false -> drained s' = true /\ (wq = Broadcast \/ drained s = true);
  ro_wq : wq = NoWake \/ wq = Broadcast
}.

Context (Hcfg : 1 <= space_wake_min r <= g_max_queued_files r).

Lemma wake_producer_spec s s1 :
  q_ok s1 -> q_space_waiters s1 = q_space_waiters s ->
  0 < q_space_waiters s -> q_tasks s1 = [] -> wake_producer_if_room_locked r s1 = true.
Proof.
  intros Hq Hw Hpos Hnil. unfold wake_producer_if_room_locked.
  pose proof (queued_tasks s1 Hq) as Hn. rewrite Hnil, zlen_nil in Hn.
  apply andb_true_iff. split; apply bool_decide_eq_true; lia.
Qed.

Lemma claim_large_ok sd s l :
  q_ok s -> limits s -> large_ready r s = true -> l_rest l = [] ->
  exists s' c ws, claim_large r s l = Some (s', l, c, NoWake, ws) /\ round_ok sd s s' l l c NoWake ws.
Proof.
  intros Hq Hlim Hr Hl. unfold large_ready in Hr. rewrite !andb_true_iff, !bool_decide_eq_true in Hr.
  destruct Hr as ((Hne & Hact) & Hslots). destruct Hq as [Hh Hb Hlen].
  destruct (heap_pop_inv t_key (q_heap s) Hh Hne) as (t & h & Hpop & Hh' & Hp & _).
  unfold claim_large. rewrite Hpop. eexists _, _, _. split; [done|].
  set (s' := set_q_large_active _ _).
  assert (Hq' : q_ok s') by (by split).
  split; try done.
  - cbn [claim_tasks]. rewrite Hl. unfold q_tasks. simpl. by rewrite <- Hp.
  - simpl. lia.
  - unfold limits, total_worker_slots_used_locked in *. cbn [s' q_small_active q_large_active set_q_large_active set_q_heap]. nia.
  - intros _ Hw _ Hnil. by rewrite (wake_producer_spec s s').
  - by left.
Qed.

Lemma claim_small_ok sd s l :
  q_ok s -> limits s -> small_ready r s l = true -> l_rest l = [] -> b2z (l_slot l) <= q_small_active s ->
  exists s' l' c ws, claim_small r s l = Some (s', l', c, NoWake, ws) /\ round_ok sd s s' l l' c NoWake ws.
Proof.
  intros Hq Hlim Hr Hl Hslot. unfold small_ready in Hr. apply andb_true_iff in Hr as [Hpos Hr].
  apply bool_decide_eq_true in Hpos.
  destruct (smallq_pop_ok s Hq Hpos) as (b & s1 & Hpop & Hb & Hq1 & Hs1 & Hp).
  unfold claim_small. rewrite Hpop. set (s2 := if l_slot l then s1 else _).
  assert (Hq2 : q_ok s2) by (subst s2; destruct (l_slot l); [done|by apply (q_ok_ext s1)]).
  assert (Ht2 : q_tasks s2 = q_tasks s1) by (subst s2; by destruct (l_slot l)).
  assert (Hf2 : q_small_active s2 = q_small_active s - b2z (l_slot l) + 1 /\ q_large_active s2 = q_large_active s /\
    q_waiters s2 = q_waiters s /\ q_space_waiters s2 = q_space_waiters s /\ q_done s2 = q_done s).
  { subst s2. rewrite Hs1. destruct (l_slot l); simpl; split_and!; try done; lia. }
  destruct Hf2 as (Ha2 & Hla2 & Hw2 & Hsp2 & Hd2).
  destruct (b_rest b) as [|t rest] eqn:Hrest; [done|].
  change (take SMALL_CLAIM_BATCH (t :: rest)) with (t :: take 7 rest). cbn iota beta. cbn [b_head b_tasks].
  set (b' := DirBatch (b_tasks b) (b_head b + length (t :: take 7 rest))).
  assert (Hb' : b_rest b' = drop 7 rest).
  { unfold b_rest, b'. cbn [b_tasks b_head]. rewrite <- drop_drop. fold (b_rest b). rewrite Hrest. cbn [length drop].
    destruct (decide (length rest <= 7)%nat) as [Hle|Hgt].
    - rewrite take_ge by done. rewrite drop_all. by rewrite drop_ge.
    - by rewrite length_take_le by lia. }
  set (s3 := if decide (b_head b + length (t :: take 7 rest) < length (b_tasks b))%nat then smallq_push_batch b' s2 else s2).
  assert (H3 : q_ok s3 /\ q_tasks s3 ≡ₚ drop 7 rest ++ q_tasks s1).
  { subst s3. destruct (decide (b_head b + length (t :: take 7 rest) < length (b_tasks b))%nat) as [Hd|Hd].
    - destruct (smallq_push_ok b' s2) as [? Heq]; [done| |].
      + unfold b_rest, b'. cbn [b_tasks b_head]. intros Hn. apply (f_equal length) in Hn. rewrite length_drop in Hn. cbn [length] in Hn, Hd. lia.
      + split; [done|]. rewrite Heq, Ht2, Hb'. by rewrite Permutation_app_comm.
    - split; [done|]. rewrite Ht2. assert (drop 7 rest = []) as ->; [|done]. rewrite <- Hb'. unfold b_rest, b'.
      cbn [b_tasks b_head]. apply drop_ge. cbn [length] in Hd |- *. lia. }
  destruct H3 as [Hq3 Ht3].
  assert (Hf3 : q_small_active s3 = q_small_active s2 /\ q_large_active s3 = q_large_active s2 /\
    q_waiters s3 = q_waiters s2 /\ q_space_waiters s3 = q_space_waiters s2 /\ q_done s3 = q_done s2).
  { subst s3. by destruct (decide (b_head b + length (t :: take 7 rest) < length (b_tasks b))%nat). }
  destruct Hf3 as (Ha3 & Hla3 & Hw3 & Hsp3 & Hd3).
  eexists s3, _, _, _. split; [done|]. split; try done.
  - cbn [claim_tasks l_rest l_stash l_head]. unfold l_rest. cbn [l_stash l_head drop app]. rewrite Ht3, <- Hp.
    cbn [app]. constructor. rewrite drop_0. by rewrite (assoc_L (++)), take_drop.
  - cbn [l_slot]. change (b2z true) with 1. lia.
  - simpl. lia.
  - by rewrite Hw3, Hsp3, Hd3.
  - unfold limits, total_worker_slots_used_locked in *. rewrite Ha3, Hla3, Ha2, Hla2.
    destruct (l_slot l) eqn:Es; change (b2z true) with 1 in *; change (b2z false) with 0 in *; [lia|].
    apply andb_true_iff in Hr as [H1 H2]. apply bool_decide_eq_true in H1, H2. lia.
  - intros _ Hw _ Hnil. rewrite Hnil in Ht3. apply Permutation_nil_l, eq_sym, app_eq_nil in Ht3 as [_ Ht3].
    rewrite (wake_producer_spec s s2); [done|done|done|done|by rewrite Ht2].
  - by left.
Qed.

Lemma release_slot_spec s l :
  b2z (l_slot l) <= q_small_active s ->
  let '(s', l') := release_slot s l in
  s' = set_q_small_active (q_small_active s - b2z (l_slot l)) s /\ l_rest l' = l_rest l /\ l_slot l' = false.
Proof.
  intros H. unfold release_slot. destruct (l_slot l) eqn:E; change (b2z true) with 1 in *; change (b2z false) with 0 in *.
  - rewrite decide_True by lia. done.
  - split_and!; [|done|done]. rewrite Z.sub_0_r. by destruct s.
Qed.

Lemma dequeue_round_ok sd s l :
  q_ok s -> limits s -> l_rest l = [] -> b2z (l_slot l) <= q_small_active s ->
  exists s' l' c wq ws, dequeue_round r sd s l = Some (s', l', c, wq, ws) /\ round_ok sd s s' l l' c wq ws.
Proof.
  intros Hq Hlim Hl Hslot. unfold dequeue_round. destruct sd.
  { eexists _, _, _, _, _. split; [done|]. split; try done; [by rewrite Hl|lia|simpl; lia|by left]. }
  destruct (large_ready r s) eqn:Elarge.
  { destruct (claim_large_ok false s l) as (s' & c & ws & -> & Hr); [done..|]. by eexists _, _, _, _, _. }
  destruct (small_ready r s l) eqn:Esmall.
  { destruct (claim_small_ok false s l) as (s' & l' & c & ws & -> & Hr); [done..|]. by eexists _, _, _, _, _. }
  pose proof (release_slot_spec s l Hslot) as Hrel. destruct (release_slot s l) as [s' l'] eqn:Erel.
  destruct Hrel as (Hs' & Hl' & Hsl'). eexists _, _, _, _, _. split; [done|].
  assert (Hlim' : limits s').
  { unfold limits, total_worker_slots_used_locked in *. rewrite Hs'. simpl.
    destruct (l_slot l); change (b2z true) with 1 in *; change (b2z false) with 0 in *; lia. }
  assert (Hq' : q_ok s') by (rewrite Hs'; by apply (q_ok_ext s)).
  split.
  - done.
  - rewrite Hl', Hl, Hs'. by destruct (drained _).
  - rewrite Hsl', Hs'. simpl. lia.
  - rewrite Hs'. destruct (drained _); simpl; lia.
  - by rewrite Hs'.
  - done.
  - destruct (drained s'); (split; [|done]); unfold thread_ok; cbn [th_pc th_l pc_of]; rewrite ?Hl', ?Hl, ?Hsl'; done.
  - intros _ _ Hne. rewrite Hs'. change (q_tasks (set_q_small_active _ s)) with (q_tasks s). done.
  - by destruct (drained s').
  - intros Hc _. destruct (drained s') eqn:Ed; [|done]. split; [done|]. destruct (l_slot l) eqn:El; [by left|right].
    rewrite <- Ed, Hs'. change (b2z false) with 0. rewrite Z.sub_0_r. by destruct s.
  - destruct (l_slot l && drained s'); [by right|by left].
Qed.

(** Tasks up to the key the scheduler gives them. *)
Definition strip (t : task) : task := with_key t 0.

(** Fields other than the queues. *)
Definition same_counts (s s' : sched) : Prop :=
  q_small_active s' = q_small_active s /\ q_large_active s' = q_large_active s /\ q_done s' = q_done s /\
  q_waiters s' = q_waiters s /\ q_space_waiters s' = q_space_waiters s.

Lemma push_fold_ok slice s batch :
  q_ok s ->
  zlen (h_items (q_heap s)) + zlen (filter (fun t => task_uses_large_pipeline r ssh t = true) slice) <= h_cap (q_heap s) ->
  let '(s', batch') := foldl (push_task r ssh) (s, batch) slice in
  q_ok s' /\ strip <$> (batch' ++ q_tasks s') ≡ₚ strip <$> (slice ++ batch ++ q_tasks s) /\ same_counts s s'.
Proof.
  revert s batch. induction slice as [|t slice IH]; intros s batch Hq Hcap; [done|].
  cbn [foldl push_task]. rewrite filter_cons in Hcap. case_decide as Hl.
  - rewrite Hl. rewrite zlen_cons in Hcap. destruct (schedule_key r t (q_seq s)) as [key seq].
    pose proof (zlen_nonneg (filter (fun t => task_uses_large_pipeline r ssh t = true) slice)) as Hn0.
    destruct Hq as [Hh Hb Hlen]. change key with (t_key (with_key t key)) at 1.
    destruct (heap_push_inv t_key (q_heap s) (with_key t key) Hh ltac:(lia)) as [Hh' Hp].
    set (s1 := set_q_seq seq _).
    assert (Hl1 : zlen (h_items (q_heap s1)) = zlen (h_items (q_heap s)) + 1).
    { apply Permutation_length in Hp. unfold heap_tasks in Hp. cbn [length] in Hp. rewrite !length_fmap in Hp.
      unfold zlen. cbn [s1 q_heap set_q_seq set_q_heap]. lia. }
    specialize (IH s1 batch ltac:(by split)).
    destruct (foldl _ (s1, batch) slice) as [s' batch'].
    destruct IH as (H1 & H2 & H3); [change (h_cap (q_heap s1)) with (h_cap (q_heap s)); lia|].
    split_and!; [done| |done]. rewrite H2. unfold q_tasks. cbn [s1 q_heap q_small set_q_seq set_q_heap].
    rewrite !fmap_app, Hp, fmap_cons. change (strip (with_key t key)) with (strip t). cbn [app].
    change (strip <$> t :: slice) with (strip t :: (strip <$> slice)). cbn [app].
    rewrite (assoc_L (++)). rewrite <- Permutation_middle. by rewrite <- !(assoc_L (++)).
  - rewrite (not_true_is_false _ Hl). specialize (IH s (batch ++ [t]) Hq Hcap).
    destruct (foldl _ (s, batch ++ [t]) slice) as [s' batch']. destruct IH as (H1 & H2 & H3).
    split_and!; [done| |done]. rewrite H2. apply fmap_Permutation. cbn [app].
    rewrite <- (assoc_L (++)). cbn [app]. rewrite (assoc_L (++)), <- Permutation_middle. by rewrite <- (assoc_L (++)).
Qed.

(** A slice: nothing is lost, the bound holds, and if nobody is busy somebody
    is signalled. *)
Lemma enqueue_slice_ok alloc s built s' rest n :
  q_ok s -> built <> [] -> queued s <= g_max_queued_files r -> g_max_queued_files r <= 2 ^ 63 ->
  has_room r s built = true -> enqueue_slice r ssh alloc s built = Some (s', rest, n) ->
  q_ok s' /\ strip <$> (rest ++ q_tasks s') ≡ₚ strip <$> (built ++ q_tasks s) /\ same_counts s s' /\
  queued s' <= g_max_queued_files r /\ q_tasks s' <> [] /\ n = wakes r s'.
Proof.
  intros Hq Hne Hle Hmax Hroom. unfold enqueue_slice. set (room := g_max_queued_files r - queued s).
  assert (Hr1 : 1 <= room).
  { apply bool_decide_eq_true in Hroom. unfold need_room in Hroom. subst room.
    assert (1 <= zlen built) by (destruct built; [done|rewrite zlen_cons; pose proof (zlen_nonneg built); lia]).
    repeat case_decide; lia. }
  set (k := Z.to_nat (if decide (zlen built < room) then zlen built else room)).
  assert (Hk : (0 < k)%nat /\ Z.of_nat k <= room /\ (k <= length built)%nat).
  { subst k. assert (1 <= zlen built) by (destruct built; [done|rewrite zlen_cons; pose proof (zlen_nonneg built); lia]).
    unfold zlen in *. case_decide; lia. }
  destruct Hk as (Hk0 & Hkr & Hkl).
  set (large_add := length (filter _ (take k built))).
  assert (Hla : (large_add <= k)%nat).
  { subst large_add. etrans; [apply length_filter|]. rewrite length_take. lia. }
  pose proof (zlen_nonneg (h_items (q_heap s))) as Hz0. pose proof Hq as [Hh Hb Hlen].
  assert (Hhq : zlen (h_items (q_heap s)) <= queued s).
  { unfold queued. rewrite Hlen. pose proof (zlen_nonneg (concat (b_rest <$> q_small s))). lia. }
  destruct (heap_reserve alloc (q_heap s) _) as [h|] eqn:Hres; [|done].
  assert (Hn64 : zlen (h_items (q_heap s)) + Z.of_nat large_add <= 2 ^ 64) by (unfold room in *; lia).
  destruct (heap_reserve_inv t_key alloc (q_heap s) _ h Hh Hn64 Hres) as (Hh' & Hit & Hcap).
  pose proof (push_fold_ok (take k built) (set_q_heap h s) []) as Hfold.
  destruct (foldl _ _ _) as [s1 batch]. destruct Hfold as (Hq1 & Hp1 & Hc1).
  { split; [done|done|done]. }
  { cbn [q_heap set_q_heap]. rewrite Hit. unfold zlen at 2. fold large_add. lia. }
  assert (Hts : q_tasks (set_q_heap h s) = q_tasks s).
  { unfold q_tasks, heap_tasks. cbn [q_heap q_small set_q_heap]. by rewrite Hit. }
  rewrite Hts in Hp1. cbn [app] in Hp1. intros [= <- <- <-].
  set (s2 := if decide (batch = []) then s1 else smallq_push_batch (DirBatch batch 0) s1).
  assert (H2 : q_ok s2 /\ q_tasks s2 ≡ₚ batch ++ q_tasks s1 /\ same_counts s1 s2).
  { subst s2. case_decide; [by subst batch|]. destruct (smallq_push_ok (DirBatch batch 0) s1) as [? Heq]; [done|done|].
    split_and!; [done| |done]. rewrite Heq. by rewrite Permutation_app_comm. }
  destruct H2 as (Hq2 & Hp2 & Hc2).
  assert (Hp : strip <$> (drop k built ++ q_tasks s2) ≡ₚ strip <$> (built ++ q_tasks s)).
  { rewrite Hp2, fmap_app, Hp1, <- fmap_app. apply fmap_Permutation.
    rewrite (assoc_L (++)), (Permutation_app_comm (drop k built)). by rewrite take_drop. }
  assert (Hlenq : zlen (q_tasks s2) = Z.of_nat k + zlen (q_tasks s)).
  { apply Permutation_length in Hp. rewrite !length_fmap, !length_app, length_drop in Hp. unfold zlen. lia. }
  split_and!; [done|done| | | |done].
  - destruct Hc1 as (? & ? & ? & ? & ?), Hc2 as (? & ? & ? & ? & ?). simpl in *. split_and!; congruence.
  - pose proof (queued_tasks s2 Hq2). pose proof (queued_tasks s Hq). unfold room in *. lia.
  - intros Hnil. rewrite Hnil, zlen_nil in Hlenq. pose proof (zlen_nonneg (q_tasks s)). lia.
Qed.
End inv.
