(* ===== verification/SchedulerSys.v ===== *)
(** Invariants of the whole scheduler: every interleaving of workers,
    producers, pipelines, stop and shutdown keeps the slot limits and loses no
    task. *)

From S2P Require Export SchedulerInv.

(** * Wake-ups *)

(** A wake-up changes sleeping to woken and nothing else. *)
Inductive woken : thread -> thread -> Prop :=
| woken_same th : woken th th
| woken_up l : woken (Thread Parked l) (Thread Woken l).
Inductive pwoken : prod -> prod -> Prop :=
| pwoken_same p : pwoken p p
| pwoken_up ts : pwoken (PParked ts) (PWoken ts).

Lemma woken_refl ths : Forall2 woken ths ths.
Proof. induction ths; constructor; [constructor|done]. Qed.
Lemma pwoken_refl ps : Forall2 pwoken ps ps.
Proof. induction ps; constructor; [constructor|done]. Qed.
Lemma woken_insert ths i l : ths !! i = Some (Thread Parked l) -> Forall2 woken ths (<[i := Thread Woken l]> ths).
Proof.
  revert i. induction ths as [|x ths IH]; intros [|i] Hi; simplify_eq/=; constructor; auto using woken, woken_refl.
Qed.
Lemma woken_trans ths ths' ths'' : Forall2 woken ths ths' -> Forall2 woken ths' ths'' -> Forall2 woken ths ths''.
Proof.
  intros H. revert ths''. induction H as [|x y l l' Hxy H IH]; intros ths'' H2; inversion_clear H2; constructor; auto.
  destruct Hxy; [done|]. inversion H0; subst; constructor.
Qed.
Lemma signals_woken n ths ths' : signals n ths ths' -> Forall2 woken ths ths'.
Proof.
  induction 1 as [|n ths ths' ths'' H1 _ IH]; [apply woken_refl|]. eapply woken_trans; [|exact IH].
  destruct H1; [by apply woken_insert|apply woken_refl].
Qed.
Lemma broadcast_woken ths : Forall2 woken ths (wake_thread <$> ths).
Proof. induction ths as [|[[] l] ths IH]; constructor; auto using woken. Qed.
Lemma deliver_queue_woken w ths ths' : deliver_queue w ths ths' -> Forall2 woken ths ths'.
Proof.
  destruct w; simpl; [intros ->; apply woken_refl|apply signals_woken|intros ->; apply broadcast_woken].
Qed.
Lemma deliver_space_woken w ps ps' : deliver_space w ps ps' -> Forall2 pwoken ps ps'.
Proof.
  destruct w; simpl; [intros ->; apply pwoken_refl| |intros ->].
  - destruct 1 as [ps j ts Hj|]; [|apply pwoken_refl]. revert j Hj.
    induction ps as [|x ps IH]; intros [|j] Hj; simplify_eq/=; constructor; auto using pwoken, pwoken_refl.
  - induction ps as [|[] ps IH]; constructor; auto using pwoken.
Qed.
Lemma woken_lookup ths ths' i th :
  Forall2 woken ths ths' -> ths !! i = Some th -> th_pc th <> Parked -> ths' !! i = Some th.
Proof.
  intros H Hi Hp. destruct (Forall2_lookup_l _ _ _ _ _ H Hi) as (y & Hy & Hw). inversion Hw; subst; [done|done].
Qed.

(** * The invariant *)

Definition in_slot (th : thread) : Z := b2z (l_slot (th_l th)).
Definition in_large (th : thread) : Z := match th_pc th with RunLarge _ => 1 | _ => 0 end.
Definition in_wait (th : thread) : Z := match th_pc th with Parked | Woken => 1 | _ => 0 end.
Definition in_space (p : prod) : Z := match p with PParked _ | PWoken _ => 1 | _ => 0 end.

Definition thread_tasks (th : thread) : list task :=
  l_rest (th_l th) ++ match th_pc th with RunSmall t | RunLarge t => [t] | _ => [] end.
Definition prod_tasks (p : prod) : list task :=
  match p with PIdle => [] | PWant ts | PParked ts | PWoken ts => ts end.
(** Where a task can be. *)
Definition places (y : sys) : list task :=
  q_tasks (y_s y) ++ concat (thread_tasks <$> y_threads y) ++ concat (prod_tasks <$> y_prods y) ++
  y_pipes y ++ y_finished y ++ y_dropped y.
Definition prod_ok (p : prod) : Prop := p = PIdle \/ prod_tasks p <> [].

Section sys.
Context (r : runtime) (ssh : bool).

Record inv (y : sys) : Prop := Inv {
  i_q : q_ok (y_s y);
  i_limits : limits r (y_s y);
  i_cap : queued (y_s y) <= g_max_queued_files r;
  i_threads : Forall (fun th => thread_ok th /\ runs_slot th) (y_threads y);
  i_slots : q_small_active (y_s y) = sumZ in_slot (y_threads y);
  i_large : q_large_active (y_s y) = sumZ in_large (y_threads y) + zlen (y_pipes y);
  i_wait : q_waiters (y_s y) = sumZ in_wait (y_threads y);
  i_space : q_space_waiters (y_s y) = sumZ in_space (y_prods y);
  i_prods : Forall prod_ok (y_prods y);
  i_all : strip <$> places y ≡ₚ strip <$> y_all y
}.

Lemma in_slot_nonneg th : 0 <= in_slot th.
Proof. unfold in_slot. by destruct (l_slot _). Qed.
Lemma in_large_nonneg th : 0 <= in_large th.
Proof. unfold in_large. by destruct (th_pc _). Qed.
Lemma in_wait_nonneg th : 0 <= in_wait th.
Proof. unfold in_wait. by destruct (th_pc _). Qed.
Lemma in_space_nonneg p : 0 <= in_space p.
Proof. by destruct p. Qed.

Lemma woken_slot x y : woken x y -> in_slot y = in_slot x.
Proof. by destruct 1. Qed.
Lemma woken_large x y : woken x y -> in_large y = in_large x.
Proof. by destruct 1. Qed.
Lemma woken_wait x y : woken x y -> in_wait y = in_wait x.
Proof. by destruct 1. Qed.
Lemma woken_tasks x y : woken x y -> thread_tasks y = thread_tasks x.
Proof. by destruct 1. Qed.
Lemma pwoken_space x y : pwoken x y -> in_space y = in_space x.
Proof. by destruct 1. Qed.
Lemma pwoken_tasks x y : pwoken x y -> prod_tasks y = prod_tasks x.
Proof. by destruct 1. Qed.
Lemma woken_threads ths ths' :
  Forall2 woken ths ths' -> Forall (fun th => thread_ok th /\ runs_slot th) ths ->
  Forall (fun th => thread_ok th /\ runs_slot th) ths'.
Proof.
  induction 1 as [|x y l l' Hxy H IH]; intros Hall; [done|]. apply Forall_cons_1 in Hall as [Hx Hall].
  constructor; [|auto]. destruct Hxy; [done|]. destruct Hx as [Hx _]. by split.
Qed.
Lemma pwoken_prods ps ps' : Forall2 pwoken ps ps' -> Forall prod_ok ps -> Forall prod_ok ps'.
Proof.
  induction 1 as [|x y l l' Hxy H IH]; intros Hall; [done|]. apply Forall_cons_1 in Hall as [Hx Hall].
  constructor; [|auto]. destruct Hxy; [done|]. destruct Hx as [?|?]; [done|by right].
Qed.

(** Waking others does not matter. *)
Lemma inv_woken s sd ths ths' ps ps' pipes fin drp all :
  Forall2 woken ths ths' -> Forall2 pwoken ps ps' ->
  inv (Sys s sd ths ps pipes fin drp all) -> inv (Sys s sd ths' ps' pipes fin drp all).
Proof.
  intros Hw Hp []. split; cbn [y_s y_threads y_prods y_pipes y_finished y_dropped y_all] in *; try done.
  - by eapply woken_threads.
  - by rewrite (sumZ_Forall2 _ woken ths ths' woken_slot).
  - by rewrite (sumZ_Forall2 _ woken ths ths' woken_large).
  - by rewrite (sumZ_Forall2 _ woken ths ths' woken_wait).
  - by rewrite (sumZ_Forall2 _ pwoken ps ps' pwoken_space).
  - by eapply pwoken_prods.
  - unfold places in *. cbn [y_s y_threads y_prods y_pipes y_finished y_dropped y_all] in *.
    by rewrite (concat_Forall2 _ woken ths ths' woken_tasks), (concat_Forall2 _ pwoken ps ps' pwoken_tasks).
Qed.

(** A round of the scheduler by thread [i]. *)
Lemma inv_round i p l l0 s s0 s' sd l' c wq ws ths ps pipes fin drp all :
  inv (Sys s sd ths ps pipes fin drp all) -> ths !! i = Some (Thread p l) ->
  p = Idle \/ p = Woken -> l_slot l0 = l_slot l -> q_tasks s0 = q_tasks s ->
  q_small_active s0 = q_small_active s -> q_large_active s0 = q_large_active s ->
  q_waiters s0 = q_waiters s - in_wait (Thread p l) -> q_space_waiters s0 = q_space_waiters s ->
  round_ok r sd s0 s' l0 l' c wq ws ->
  inv (Sys (count_waiter c s') sd (<[i := Thread (pc_of c) l']> ths) ps pipes fin (l_rest l ++ drp) all).
Proof.
  intros [Hq Hlim Hcap Hths Hsl Hla Hwa Hsp Hpr Hall] Hi Hp Hl0 Ht0 Ha0 Hla0 Hw0 Hsp0 [Rq Rt Rs Rl Rr Rlim Rth _ _ _ _].
  cbn [y_s y_threads y_prods y_pipes y_finished y_dropped y_all] in *.
  destruct Rr as (Rw & Rsp & Rd).
  assert (Hpl : in_large (Thread p l) = 0) by (by destruct Hp; subst).
  assert (Hqc : q_ok (count_waiter c s')) by (destruct c; by apply (q_ok_ext s')).
  assert (Htc : q_tasks (count_waiter c s') = q_tasks s') by (by destruct c).
  split; cbn [y_s y_threads y_prods y_pipes y_finished y_dropped y_all].
  - done.
  - by destruct c.
  - rewrite queued_tasks in Hcap |- * by done. rewrite Htc.
    apply Permutation_length in Rt. rewrite !length_app, Ht0 in Rt. unfold zlen in *. lia.
  - by apply Forall_insert.
  - rewrite (sumZ_insert _ _ _ _ _ Hi). unfold in_slot at 2 3. cbn [th_l]. rewrite <- Hl0.
    destruct c; cbn [count_waiter q_small_active set_q_waiters]; lia.
  - assert (El : in_large (Thread (pc_of c) l') = is_large c) by (by destruct c).
    rewrite (sumZ_insert _ _ _ _ _ Hi), Hpl, El. destruct c; cbn [count_waiter q_large_active set_q_waiters]; lia.
  - assert (Ew : in_wait (Thread (pc_of c) l') = match c with Wait => 1 | _ => 0 end) by (by destruct c).
    rewrite (sumZ_insert _ _ _ _ _ Hi), Ew. destruct c; cbn [count_waiter q_waiters set_q_waiters]; lia.
  - destruct c; simpl; lia.
  - done.
  - rewrite <- Hall. apply fmap_Permutation. unfold places. cbn [y_s y_threads y_prods y_pipes y_finished y_dropped y_all].
    destruct (concat_at thread_tasks ths i _ Hi) as (R & H1 & H2). rewrite H1, H2.
    assert (E1 : thread_tasks (Thread p l) = l_rest l) by (unfold thread_tasks; destruct Hp; subst; simpl; by rewrite app_nil_r).
    assert (E2 : thread_tasks (Thread (pc_of c) l') ≡ₚ claim_tasks c ++ l_rest l').
    { unfold thread_tasks. rewrite Permutation_app_comm. by destruct c. }
    rewrite E1, E2, Htc, <- Ht0, <- Rt. perm.
Qed.

Lemma set_large_id s : set_q_large_active (q_large_active s - 0) s = s.
Proof. rewrite Z.sub_0_r. by destruct s. Qed.

(** Tasks move between threads, pipelines and the finished ones; [d] slots of
    large files are given back. *)
Lemma inv_move d s sd ths ths' ps pipes pipes' fin fin' drp all :
  inv (Sys s sd ths ps pipes fin drp all) -> 0 <= d ->
  Forall (fun th => thread_ok th /\ runs_slot th) ths' ->
  sumZ in_slot ths' = sumZ in_slot ths -> sumZ in_wait ths' = sumZ in_wait ths ->
  sumZ in_large ths' + zlen pipes' = sumZ in_large ths + zlen pipes - d -> 0 <= g_large_worker_count r ->
  concat (thread_tasks <$> ths') ++ pipes' ++ fin' ≡ₚ concat (thread_tasks <$> ths) ++ pipes ++ fin ->
  inv (Sys (set_q_large_active (q_large_active s - d) s) sd ths' ps pipes' fin' drp all).
Proof.
  intros [Hq Hlim Hcap Hths Hsl Hla Hwa Hsp Hpr Hall] Hd Hths' Es Ew El Hc Et.
  cbn [y_s y_threads y_prods y_pipes y_finished y_dropped y_all] in *.
  pose proof (sumZ_nonneg in_large ths' in_large_nonneg). pose proof (zlen_nonneg pipes').
  split; cbn [y_s y_threads y_prods y_pipes y_finished y_dropped y_all]; try done.
  - by apply (q_ok_ext s).
  - unfold limits, total_worker_slots_used_locked in *. cbn [q_small_active q_large_active set_q_large_active].
    pose proof (Z.mul_le_mono_nonneg_r (q_large_active s - d) (q_large_active s) (g_large_worker_count r) Hc ltac:(lia)). lia.
  - cbn [q_small_active set_q_large_active]. by rewrite Es.
  - cbn [q_large_active set_q_large_active]. lia.
  - cbn [q_waiters set_q_large_active]. by rewrite Ew.
  - rewrite <- Hall. apply fmap_Permutation. unfold places. cbn [y_s y_threads y_prods y_pipes y_finished y_dropped y_all].
    change (q_tasks (set_q_large_active _ s)) with (q_tasks s).
    trans (q_tasks s ++ concat (prod_tasks <$> ps) ++ drp ++ (concat (thread_tasks <$> ths') ++ pipes' ++ fin')); [perm|].
    rewrite Et. perm.
Qed.

Lemma inv_thread d i th th' s sd ths ps pipes pipes' fin fin' drp all :
  inv (Sys s sd ths ps pipes fin drp all) -> ths !! i = Some th -> 0 <= d -> 0 <= g_large_worker_count r ->
  thread_ok th' /\ runs_slot th' -> in_slot th' = in_slot th -> in_wait th' = in_wait th ->
  in_large th' + zlen pipes' = in_large th + zlen pipes - d ->
  thread_tasks th' ++ pipes' ++ fin' ≡ₚ thread_tasks th ++ pipes ++ fin ->
  inv (Sys (set_q_large_active (q_large_active s - d) s) sd (<[i := th']> ths) ps pipes' fin' drp all).
Proof.
  intros Hinv Hi Hd Hc Hok Es Ew El Et. eapply inv_move; [exact Hinv|done| | | | |done|].
  - apply Forall_insert; [by destruct Hinv|done].
  - rewrite (sumZ_insert _ _ _ _ _ Hi). lia.
  - rewrite (sumZ_insert _ _ _ _ _ Hi). lia.
  - rewrite (sumZ_insert _ _ _ _ _ Hi). lia.
  - destruct (concat_at thread_tasks ths i _ Hi) as (R & H1 & H2). rewrite H1, H2.
    trans (R ++ (thread_tasks th' ++ pipes' ++ fin')); [perm|]. rewrite Et. perm.
Qed.

Lemma slot_back_spec s : 1 <= q_large_active s -> slot_back s = set_q_large_active (q_large_active s - 1) s.
Proof. intros H. unfold slot_back. by rewrite decide_True by lia. Qed.

(** A producer acts on the queue: [new] tasks come in. *)
Lemma inv_prod j p p' s s' sd ths ths' ps pipes fin drp drp' all new :
  inv (Sys s sd ths ps pipes fin drp all) -> ps !! j = Some p -> Forall2 woken ths ths' ->
  q_ok s' -> queued s' <= g_max_queued_files r ->
  q_small_active s' = q_small_active s -> q_large_active s' = q_large_active s -> q_waiters s' = q_waiters s ->
  q_space_waiters s' = q_space_waiters s - in_space p + in_space p' -> prod_ok p' ->
  strip <$> (prod_tasks p' ++ q_tasks s' ++ drp') ≡ₚ strip <$> (new ++ prod_tasks p ++ q_tasks s ++ drp) ->
  inv (Sys s' sd ths' (<[j := p']> ps) pipes fin drp' (new ++ all)).
Proof.
  intros Hinv Hj Hw Hq' Hcap' Ea El Ew Esp Hp' Ht.
  apply (inv_woken _ _ _ ths' _ ps _ _ _ _ Hw (pwoken_refl ps)) in Hinv.
  destruct Hinv as [Hq Hlim Hcap Hths Hsl Hla Hwa Hsp Hpr Hall].
  cbn [y_s y_threads y_prods y_pipes y_finished y_dropped y_all] in *.
  split; cbn [y_s y_threads y_prods y_pipes y_finished y_dropped y_all]; try done.
  - unfold limits, total_worker_slots_used_locked in *. by rewrite Ea, El.
  - by rewrite Ea.
  - by rewrite El.
  - by rewrite Ew.
  - rewrite (sumZ_insert _ _ _ _ _ Hj). lia.
  - by apply Forall_insert.
  - rewrite fmap_app, <- Hall, <- fmap_app. unfold places in *.
    cbn [y_s y_threads y_prods y_pipes y_finished y_dropped y_all].
    destruct (concat_at prod_tasks ps j _ Hj) as (R & H1 & H2).
    set (X := concat (thread_tasks <$> ths') ++ R ++ pipes ++ fin).
    trans (strip <$> X ++ (prod_tasks p' ++ q_tasks s' ++ drp')); [apply fmap_Permutation; rewrite H2; unfold X; perm|].
    rewrite fmap_app, Ht, <- fmap_app. apply fmap_Permutation. rewrite H1. unfold X. perm.
Qed.

Context (Hcfg : 1 <= space_wake_min r <= g_max_queued_files r) (Hmax : g_max_queued_files r <= 2 ^ 63)
  (Hcost : 1 <= g_large_worker_count r).

Lemma stash_next_spec l : match stash_next l with
  | Some (t, l') => l_rest l = t :: l_rest l' /\ l_slot l' = l_slot l
  | None => l_rest l = []
  end.
Proof.
  unfold stash_next. destruct (l_stash l !! l_head l) as [t|] eqn:E.
  - split; [|done]. unfold l_rest. cbn [l_stash l_head]. by apply drop_S.
  - unfold l_rest. apply drop_ge. by apply lookup_ge_None.
Qed.

(** Entering, whatever the stash. *)
Lemma dequeue_enter_ok sd s l s' l' c wq ws :
  q_ok s -> limits r s -> (sd = true \/ l_rest l = []) -> b2z (l_slot l) <= q_small_active s ->
  dequeue_enter r sd s l = Some (s', l', c, wq, ws) ->
  exists s0 n, s0 = set_q_free n s /\ round_ok r sd s0 s' (Local [] 0 (l_slot l)) l' c wq ws.
Proof.
  intros Hq Hlim Hl Hslot. unfold dequeue_enter. destruct sd.
  - set (s0 := set_q_free _ s). pose proof (release_slot_spec s0 (Local [] 0 (l_slot l)) Hslot) as Hrel.
    destruct (release_slot s0 _) as [s1 l1]. destruct Hrel as (-> & Hl1 & Hs1). cbn [l_slot] in *. intros [= <- <- <- <- <-].
    eexists s0, _. split; [done|]. split; try done.
    + by apply (q_ok_ext s).
    + by rewrite Hl1.
    + rewrite Hs1. cbn [l_slot q_small_active set_q_small_active s0 set_q_free]. change (b2z false) with 0. lia.
    + cbn [is_large q_large_active set_q_small_active s0 set_q_free]. lia.
    + unfold limits, total_worker_slots_used_locked in *. cbn [q_small_active q_large_active set_q_small_active s0 set_q_free].
      destruct (l_slot l); change (b2z true) with 1 in *; change (b2z false) with 0; lia.
    + by left.
  - destruct Hl as [?|Hl]; [done|]. set (s0 := set_q_free _ s).
    destruct (dequeue_round_ok r Hcfg false s0 (Local [] 0 (l_slot l))) as (s1 & l1 & c1 & wq1 & ws1 & -> & Hr); [by apply (q_ok_ext s)|done..|].
    intros [= <- <- <- <- <-]. by eexists s0, _.
Qed.

Lemma slot_le ths i th : ths !! i = Some th -> b2z (l_slot (th_l th)) <= sumZ in_slot ths.
Proof. intros H. apply (sumZ_elem in_slot ths i th in_slot_nonneg H). Qed.

(** The two flags are not part of it. *)
Lemma inv_flags s s' sd sd' ths ps pipes fin drp all :
  inv (Sys s sd ths ps pipes fin drp all) -> s' = s \/ s' = set_q_done true s ->
  inv (Sys s' sd' ths ps pipes fin drp all).
Proof. intros [Hq ? ? ? ? ? ? ? ? ?] [-> | ->]; (split; [|done..]); [done|by apply (q_ok_ext s)]. Qed.

(** What the invariant says about each field. *)
Ltac inv_facts Hinv :=
  pose proof (i_threads _ Hinv) as Hths; pose proof (i_slots _ Hinv) as Hsl; pose proof (i_q _ Hinv) as Hq;
  pose proof (i_limits _ Hinv) as Hlim; pose proof (i_cap _ Hinv) as Hcap; pose proof (i_large _ Hinv) as Hla;
  pose proof (i_prods _ Hinv) as Hpr;
  cbn [y_s y_threads y_prods y_pipes y_finished y_dropped y_all] in *.

Lemma inv_stash i l t l' s sd ths ps pipes fin drp all :
  inv (Sys s sd ths ps pipes fin drp all) ->
  ths !! i = Some (Thread Idle l) -> stash_next l = Some (t, l') ->
  inv (Sys s sd (<[i := Thread (RunSmall t) l']> ths) ps pipes fin drp all).
Proof.
  intros Hinv Hi Hn. inv_facts Hinv.
  pose proof (stash_next_spec l) as Hs. rewrite Hn in Hs. destruct Hs as [Hr Hsl'].
  destruct (Forall_lookup_1 _ _ _ _ Hths Hi) as [Hok _]. unfold thread_ok in Hok. cbn [th_pc th_l] in Hok.
  rewrite Hr in Hok. specialize (Hok ltac:(done)).
  rewrite <- (set_large_id s). eapply inv_thread; [exact Hinv|exact Hi|lia|lia| | | | |].
  - split; [intros _|intros ? _]; cbn [th_l]; congruence.
  - unfold in_slot. cbn [th_l]. by rewrite Hsl'.
  - done.
  - unfold in_large. cbn [th_pc]. lia.
  - unfold thread_tasks. cbn [th_l th_pc]. rewrite Hr. perm.
Qed.
Lemma inv_enter i l sd s ths ps pipes fin drp all s' l' c wq ws ths' ps' :
  inv (Sys s sd ths ps pipes fin drp all) ->
  ths !! i = Some (Thread Idle l) -> sd = true \/ stash_next l = None ->
  dequeue_enter r sd s l = Some (s', l', c, wq, ws) -> deliver_queue wq ths ths' -> deliver_space ws ps ps' ->
  inv (Sys (count_waiter c s') sd (<[i := Thread (pc_of c) l']> ths') ps' pipes fin (if sd then l_rest l ++ drp else drp) all).
Proof.
  intros Hinv Hi Hn Hd Hwq Hws. inv_facts Hinv.
  assert (Hl : sd = true \/ l_rest l = []).
  { destruct Hn as [?|Hn]; [by left|right]. pose proof (stash_next_spec l) as Hs. by rewrite Hn in Hs. }
  destruct (dequeue_enter_ok sd s l s' l' c wq ws Hq Hlim Hl) as (s0 & n & -> & Hr); [|done|].
  { rewrite Hsl. apply (slot_le ths i _ Hi). }
  assert (Edrp : (if sd then l_rest l ++ drp else drp) = l_rest l ++ drp) by (destruct sd; [done|by destruct Hl as [?| ->]]).
  rewrite Edrp. eapply (inv_round i Idle l (Local [] 0 (l_slot l)) s (set_q_free n s)); try done; [|by eapply woken_lookup; [by eapply deliver_queue_woken|exact Hi|]|by left|cbn [q_waiters set_q_free]; unfold in_wait; cbn [th_pc]; lia].
  eapply inv_woken; [by eapply deliver_queue_woken|by eapply deliver_space_woken|exact Hinv].
Qed.
Lemma inv_wake i l sd s ths ps pipes fin drp all s' l' c wq ws ths' ps' :
  inv (Sys s sd ths ps pipes fin drp all) ->
  ths !! i = Some (Thread Woken l) ->
  dequeue_round r sd (set_q_waiters (q_waiters s - 1) s) l = Some (s', l', c, wq, ws) ->
  deliver_queue wq ths ths' -> deliver_space ws ps ps' ->
  inv (Sys (count_waiter c s') sd (<[i := Thread (pc_of c) l']> ths') ps' pipes fin drp all).
Proof.
  intros Hinv Hi Hd Hwq Hws. inv_facts Hinv.
  destruct (Forall_lookup_1 _ _ _ _ Hths Hi) as [[Hl Hslot] _]. cbn [th_l] in Hl, Hslot.
  set (s0 := set_q_waiters (q_waiters s - 1) s) in *.
  destruct (dequeue_round_ok r Hcfg sd s0 l) as (s1 & l1 & c1 & wq1 & ws1 & Hd' & Hr); [by apply (q_ok_ext s)|done|done| |].
  { cbn [q_small_active s0 set_q_waiters]. rewrite Hsl. apply (slot_le ths i _ Hi). }
  rewrite Hd in Hd'. injection Hd' as <- <- <- <- <-.
  change drp with ([] ++ drp) at 1. rewrite <- Hl.
  eapply (inv_round i Woken l l s s0); try done; [|by eapply woken_lookup; [by eapply deliver_queue_woken|exact Hi|]|by right].
  eapply inv_woken; [by eapply deliver_queue_woken|by eapply deliver_space_woken|exact Hinv].
Qed.
Lemma inv_small_done i t l s sd ths ps pipes fin drp all :
  inv (Sys s sd ths ps pipes fin drp all) ->
  ths !! i = Some (Thread (RunSmall t) l) ->
  inv (Sys s sd (<[i := Thread Idle l]> ths) ps pipes (t :: fin) drp all).
Proof.
  intros Hinv Hi. inv_facts Hinv.
  destruct (Forall_lookup_1 _ _ _ _ Hths Hi) as [Hok _].
  rewrite <- (set_large_id s). eapply inv_thread; [exact Hinv|exact Hi|lia|lia| |done|done| |].
  - by split.
  - unfold in_large. cbn [th_pc]. lia.
  - unfold thread_tasks. cbn [th_l th_pc]. perm.
Qed.
Lemma inv_large_up i t l s sd ths ps pipes fin drp all :
  inv (Sys s sd ths ps pipes fin drp all) ->
  ths !! i = Some (Thread (RunLarge t) l) ->
  inv (Sys s sd (<[i := Thread Idle l]> ths) ps (t :: pipes) fin drp all).
Proof.
  intros Hinv Hi. inv_facts Hinv.
  destruct (Forall_lookup_1 _ _ _ _ Hths Hi) as [Hok _]. unfold thread_ok in Hok. cbn [th_pc th_l] in Hok.
  rewrite <- (set_large_id s). eapply inv_thread; [exact Hinv|exact Hi|lia|lia| |done|done| |].
  - split; [|done]. unfold thread_ok. cbn [th_pc th_l]. by rewrite Hok.
  - unfold in_large. cbn [th_pc]. rewrite zlen_cons. lia.
  - unfold thread_tasks. cbn [th_l th_pc]. perm.
Qed.
Lemma inv_large_fail i t l s sd ths ps pipes fin drp all :
  inv (Sys s sd ths ps pipes fin drp all) ->
  ths !! i = Some (Thread (RunLarge t) l) ->
  inv (Sys (slot_back s) sd (<[i := Thread Idle l]> (wake_thread <$> ths)) ps pipes (t :: fin) drp all).
Proof.
  intros Hinv Hi. inv_facts Hinv.
  destruct (Forall_lookup_1 _ _ _ _ Hths Hi) as [Hok _]. unfold thread_ok in Hok. cbn [th_pc th_l] in Hok.
  pose proof (sumZ_elem in_large ths i _ in_large_nonneg Hi) as H1. change (in_large (Thread (RunLarge t) l)) with 1 in H1.
  pose proof (zlen_nonneg pipes). rewrite slot_back_spec by lia.
  eapply (inv_thread 1 i (Thread (RunLarge t) l)); [eapply inv_woken; [apply broadcast_woken|apply pwoken_refl|exact Hinv]| |lia|lia| |done|done| |].
  - eapply woken_lookup; [apply broadcast_woken|exact Hi|done].
  - split; [|done]. unfold thread_ok. cbn [th_pc th_l]. by rewrite Hok.
  - unfold in_large. cbn [th_pc]. lia.
  - unfold thread_tasks. cbn [th_l th_pc]. perm.
Qed.
Lemma inv_pipe_done k t s sd ths ps pipes fin drp all :
  inv (Sys s sd ths ps pipes fin drp all) ->
  pipes !! k = Some t ->
  inv (Sys (slot_back s) sd (wake_thread <$> ths) ps (delete k pipes) (t :: fin) drp all).
Proof.
  intros Hinv Hk. inv_facts Hinv.
  pose proof (sumZ_nonneg in_large ths in_large_nonneg). pose proof (delete_Permutation _ _ _ Hk) as Hperm.
  assert (Hz : zlen pipes = 1 + zlen (delete k pipes)).
  { unfold zlen. apply Permutation_length in Hperm. simpl in Hperm. lia. }
  pose proof (zlen_nonneg (delete k pipes)). rewrite slot_back_spec by lia.
  eapply inv_woken; [apply broadcast_woken|apply pwoken_refl|].
  eapply (inv_move 1); [exact Hinv|lia|done|done|done|lia|lia|]. rewrite Hperm at 2. perm.
Qed.
Lemma inv_batch j ts s sd ths ps pipes fin drp all :
  inv (Sys s sd ths ps pipes fin drp all) ->
  ps !! j = Some PIdle -> ts <> [] ->
  inv (Sys s sd ths (<[j := PWant ts]> ps) pipes fin drp (ts ++ all)).
Proof.
  intros Hinv Hj Hts. inv_facts Hinv.
  eapply (inv_prod j PIdle (PWant ts) s s sd ths ths ps pipes fin drp drp all ts);
    try done; [apply woken_refl|cbn [in_space]; lia|by right].
Qed.
Lemma inv_push j p ts alloc s ths ps pipes fin drp all s' rest n ths' :
  inv (Sys s false ths ps pipes fin drp all) ->
  ps !! j = Some p -> wanting p = Some ts -> has_room r s ts = true ->
  enqueue_slice r ssh alloc (unwait p s) ts = Some (s', rest, n) -> signals (Z.to_nat n) ths ths' ->
  inv (Sys s' false ths' (<[j := if decide (rest = []) then PIdle else PWant rest]> ps) pipes fin drp all).
Proof.
  intros Hinv Hj Hp Hroom Hen Hsig. inv_facts Hinv.
  assert (Hpt : prod_tasks p = ts) by (by destruct p; simplify_eq/=).
  assert (Hne : ts <> []).
  { destruct (Forall_lookup_1 _ _ _ _ Hpr Hj) as [->|?]; [done|]. by rewrite <- Hpt. }
  destruct (enqueue_slice_ok r ssh Hcfg alloc (unwait p s) ts s' rest n) as (Hq' & Hperm & Hsame & Hcap' & _ & _); try done.
  { destruct p; by apply (q_ok_ext s). }
  { by destruct p. }
  { by destruct p. }
  destruct Hsame as (E1 & E2 & E3 & E4 & E5).
  assert (Eu : q_tasks (unwait p s) = q_tasks s /\ q_small_active (unwait p s) = q_small_active s /\
    q_large_active (unwait p s) = q_large_active s /\ q_waiters (unwait p s) = q_waiters s /\
    q_space_waiters (unwait p s) = q_space_waiters s - in_space p).
  { destruct p; simplify_eq/=; split_and!; try done; lia. }
  destruct Eu as (Eq & Ea & El & Ew & Es).
  set (p' := if decide (rest = []) then PIdle else PWant rest).
  assert (Ep : prod_tasks p' = rest /\ in_space p' = 0 /\ prod_ok p').
  { subst p'. case_decide; [subst; by split_and!; [| |left]|by split_and!; [| |right]]. }
  destruct Ep as (Ep & Ep0 & Epok).
  eapply (inv_prod j p p' s s' false ths ths' ps pipes fin drp drp all []); try done; try congruence.
  - by eapply signals_woken.
  - lia.
  - rewrite Ep, Hpt. cbn [app]. rewrite (assoc_L (++)), (assoc_L (++) ts), fmap_app, (fmap_app _ (ts ++ _)).
    by rewrite Hperm, Eq.
Qed.
Lemma inv_park j p ts s ths ps pipes fin drp all :
  inv (Sys s false ths ps pipes fin drp all) ->
  ps !! j = Some p -> wanting p = Some ts ->
  inv (Sys (set_q_space_waiters (q_space_waiters (unwait p s) + 1) (unwait p s)) false ths
    (<[j := PParked ts]> ps) pipes fin drp all).
Proof.
  intros Hinv Hj Hp. inv_facts Hinv.
  assert (Hpt : prod_tasks p = ts) by (by destruct p; simplify_eq/=).
  eapply (inv_prod j p (PParked ts) s _ false ths ths ps pipes fin drp drp all []); try done.
  - apply woken_refl.
  - destruct p; by apply (q_ok_ext s).
  - by destruct p.
  - by destruct p.
  - by destruct p.
  - by destruct p.
  - destruct p; simplify_eq/=; lia.
  - right. cbn [prod_tasks]. destruct (Forall_lookup_1 _ _ _ _ Hpr Hj) as [->|?]; [done|]. by rewrite <- Hpt.
  - rewrite Hpt. cbn [prod_tasks app]. by destruct p.
Qed.
Lemma inv_give_up j p ts s sd ths ps pipes fin drp all :
  inv (Sys s sd ths ps pipes fin drp all) ->
  ps !! j = Some p -> wanting p = Some ts ->
  inv (Sys (set_q_free (q_free s + zlen ts) (unwait p s)) sd ths (<[j := PIdle]> ps) pipes fin (ts ++ drp) all).
Proof.
  intros Hinv Hj Hp. inv_facts Hinv.
  assert (Hpt : prod_tasks p = ts) by (by destruct p; simplify_eq/=).
  eapply (inv_prod j p PIdle s _ sd ths ths ps pipes fin drp (ts ++ drp) all []); try done.
  - apply woken_refl.
  - destruct p; by apply (q_ok_ext s).
  - by destruct p.
  - by destruct p.
  - by destruct p.
  - by destruct p.
  - destruct p; simplify_eq/=; lia.
  - by left.
  - rewrite Hpt. cbn [prod_tasks]. apply fmap_Permutation.
    assert (q_tasks (set_q_free (q_free s + zlen ts) (unwait p s)) = q_tasks s) as -> by (by destruct p). perm.
Qed.

(** Every step keeps the invariant. *)
Lemma inv_step y y' : inv y -> step r ssh y y' -> inv y'.
Proof.
  intros Hinv Hst. destruct Hst.
  - eapply inv_stash; eauto.
  - eapply inv_enter; eauto.
  - eapply inv_wake; eauto.
  - eapply inv_small_done; eauto.
  - eapply inv_large_up; eauto.
  - eapply inv_large_fail; eauto.
  - eapply inv_pipe_done; eauto.
  - eapply inv_batch; eauto.
  - eapply inv_push; eauto.
  - eapply inv_park; eauto.
  - eapply inv_give_up; eauto.
  - eapply inv_give_up; eauto.
  - eapply inv_woken; [apply broadcast_woken|apply pwoken_refl|]. eapply inv_flags; [exact Hinv|by auto].
  - eapply inv_flags; [exact Hinv|by auto].
  - eapply inv_woken; [apply broadcast_woken|apply pwoken_refl|]. eapply inv_flags; [exact Hinv|by auto].
Qed.
End sys.
