(* ===== verification/SchedulerLive.v ===== *)
(** Progress of the scheduler: as long as one small file and one large file
    fit the worker slots together, it never gets stuck with work left; a
    configuration where they do not can deadlock. *)

From S2P Require Export SchedulerSys.

(** * Who can move *)

Definition asleep (th : thread) : Prop := th_pc th = Parked \/ th_pc th = Exited.
(** Some thread, pipeline or producer is not blocked. *)
Definition can_move (y : sys) : Prop :=
  (exists i th, y_threads y !! i = Some th /\ ~ asleep th) \/ y_pipes y <> [] \/
  (exists j p ts, y_prods y !! j = Some p /\ wanting p = Some ts).

Definition has_pc (c : pc) (ths : list thread) : Prop := exists i th, ths !! i = Some th /\ th_pc th = c.
Definition has_parked (ps : list prod) : Prop := exists j ts, ps !! j = Some (PParked ts).
Definition has_woken (ps : list prod) : Prop := exists j ts, ps !! j = Some (PWoken ts).

(** ** Wake-ups and who sleeps *)

Lemma woken_lookup_r ths ths' i th :
  Forall2 woken ths ths' -> ths' !! i = Some th -> exists th0, ths !! i = Some th0 /\ woken th0 th.
Proof. intros H Hi. destruct (Forall2_lookup_r _ _ _ _ _ H Hi) as (x & ? & ?). by exists x. Qed.
Lemma pwoken_lookup_r ps ps' j p : Forall2 pwoken ps ps' -> ps' !! j = Some p -> exists q, ps !! j = Some q /\ pwoken q p.
Proof. intros H Hi. destruct (Forall2_lookup_r _ _ _ _ _ H Hi) as (x & ? & ?). by exists x. Qed.
Lemma pwoken_lookup_l ps ps' j p : Forall2 pwoken ps ps' -> ps !! j = Some p -> exists q, ps' !! j = Some q /\ pwoken p q.
Proof. intros H Hi. destruct (Forall2_lookup_l _ _ _ _ _ H Hi) as (x & ? & ?). by exists x. Qed.

Lemma has_exited_woken ths ths' : Forall2 woken ths ths' -> has_pc Exited ths' -> has_pc Exited ths.
Proof.
  intros H (i & th & Hi & Hp). destruct (woken_lookup_r _ _ _ _ H Hi) as (x & Hx & Hw).
  exists i, x. split; [done|]. by inversion Hw; subst.
Qed.
Lemma asleep_woken ths ths' : Forall2 woken ths ths' -> Forall asleep ths' -> ths' = ths.
Proof.
  induction 1 as [|x y l l' Hw H IH]; intros Ha; [done|]. apply Forall_cons_1 in Ha as [Hy Ha].
  f_equal; [|auto]. inversion Hw; subst; [done|]. by destruct Hy.
Qed.
Lemma not_parked_woken ths ths' :
  Forall2 woken ths ths' -> Forall (fun th => th_pc th <> Parked) ths -> Forall (fun th => th_pc th <> Parked) ths'.
Proof.
  induction 1 as [|x y l l' Hw H IH]; intros Ha; [done|]. apply Forall_cons_1 in Ha as [Hx Ha].
  constructor; [by inversion Hw; subst|auto].
Qed.
Lemma not_parked_broadcast ths : Forall (fun th => th_pc th <> Parked) (wake_thread <$> ths).
Proof. apply Forall_fmap, Forall_true. intros [[] l]; done. Qed.
Lemma has_parked_pwoken ps ps' : Forall2 pwoken ps ps' -> has_parked ps' -> has_parked ps.
Proof.
  intros H (j & ts & Hj). destruct (pwoken_lookup_r _ _ _ _ H Hj) as (q & Hq & Hw). inversion Hw; subst. by exists j, ts.
Qed.
Lemma has_woken_pwoken ps ps' : Forall2 pwoken ps ps' -> has_woken ps -> has_woken ps'.
Proof.
  intros H (j & ts & Hj). destruct (pwoken_lookup_l _ _ _ _ H Hj) as (q & Hq & Hw). inversion Hw; subst. by exists j, ts.
Qed.
Lemma idle_pwoken ps ps' : Forall2 pwoken ps ps' -> Forall (eq PIdle) ps -> Forall (eq PIdle) ps'.
Proof.
  induction 1 as [|x y l l' Hw H IH]; intros Ha; [done|]. apply Forall_cons_1 in Ha as [<- Ha].
  constructor; [by inversion Hw|auto].
Qed.
Lemma exited_dec ths : has_pc Exited ths \/ forall i th, ths !! i = Some th -> th_pc th <> Exited.
Proof.
  induction ths as [|x ths [(i & th & Hi & Hp)|IH]]; [right; by intros i th Hi|left; by exists (S i), th|].
  destruct (th_pc x) eqn:E; try (right; intros [|i] th Hi; simplify_eq/=; [congruence|by eapply IH]).
  left. by exists 0%nat, x.
Qed.
(** A signal finds a sleeper when there is one. *)
Lemma psignal_wakes ps ps' : psignal1 ps ps' -> has_parked ps -> has_woken ps'.
Proof.
  intros [ps0 j ts Hj|ps0 Hn] (k & us & Hk).
  - exists j, ts. apply list_lookup_insert_eq. by eapply lookup_lt_Some.
  - by destruct (Forall_lookup_1 _ _ _ _ Hn Hk).
Qed.
Lemma signals_wake n ths ths' : signals (S n) ths ths' -> has_pc Parked ths -> ~ Forall asleep ths'.
Proof.
  intros Hs (i & th & Hi & Hp) Ha. inversion Hs as [|? ? ths1 ? H1 Hn]; subst.
  apply signals_woken in Hn. pose proof (asleep_woken _ _ Hn Ha) as E. subst ths1.
  destruct H1 as [ths0 k l Hk|ths0 Hno]; [|by destruct (Forall_lookup_1 _ _ _ _ Hno Hi)].
  assert (Hk' : <[k := Thread Woken l]> ths0 !! k = Some (Thread Woken l)) by (apply list_lookup_insert_eq; by eapply lookup_lt_Some).
  by destruct (Forall_lookup_1 _ _ _ _ Ha Hk').
Qed.

(** * The invariant of progress *)

Section live.
Context (r : runtime) (ssh : bool).

Record live (y : sys) : Prop := Live {
  lv_some : y_threads y <> [];
  lv_exit : has_pc Exited (y_threads y) -> drained (y_s y) = true;
  lv_done : q_done (y_s y) = true -> Forall (eq PIdle) (y_prods y);
  lv_idle : Forall asleep (y_threads y) -> y_pipes y = [] -> q_tasks (y_s y) = [];
  lv_drained : drained (y_s y) = true -> Forall (fun th => th_pc th <> Parked) (y_threads y);
  lv_prod : has_parked (y_prods y) -> q_tasks (y_s y) <> [] \/ has_woken (y_prods y)
}.

Lemma drained_iff s :
  q_ok s -> drained s = true <-> q_tasks s = [] /\ q_done s = true /\ q_large_active s = 0 /\ q_small_active s = 0.
Proof.
  intros [Hh Hb Hl]. unfold drained. rewrite !andb_true_iff, !bool_decide_eq_true, Hl. unfold q_tasks, heap_tasks. split.
  - intros ((((H1 & H2) & H3) & H4) & H5). rewrite H2. split_and!; [|done|done|done].
    apply nil_length_inv. unfold zlen in H1. simpl. lia.
  - intros (H1 & H2 & H3 & H4). apply app_eq_nil in H1 as [H1 H1']. rewrite H1'. split_and!; try done.
    by apply fmap_nil_inv in H1.
Qed.
Lemma drained_ext s s' :
  q_ok s -> q_ok s' -> q_tasks s' = q_tasks s -> q_done s' = q_done s -> q_large_active s' = q_large_active s ->
  q_small_active s' = q_small_active s -> drained s' = drained s.
Proof.
  intros Hq Hq' E1 E2 E3 E4. assert (H : drained s' = true <-> drained s = true) by (by rewrite !drained_iff, E1, E2, E3, E4).
  destruct (drained s), (drained s'); naive_solver.
Qed.

Context (Hcfg : config_ok r) (Hfit : g_large_worker_count r + 1 <= g_worker_count r).

Lemma sleeping_sums s sd ths ps pipes fin drp all :
  inv r (Sys s sd ths ps pipes fin drp all) -> (has_pc Exited ths -> q_small_active s = 0) ->
  Forall asleep ths -> sumZ in_large ths = 0 /\ sumZ in_slot ths = 0.
Proof.
  intros Hinv Hex Ha. split.
  - apply sumZ_zero, Forall_lookup. intros i [p l] Hi. by destruct (Forall_lookup_1 _ _ _ _ Ha Hi) as [Hp|Hp]; simpl in Hp; subst.
  - destruct (exited_dec ths) as [He|He]; [etrans; [symmetry; apply (i_slots _ _ Hinv)|by apply Hex]|].
    apply sumZ_zero, Forall_lookup. intros i [p l] Hi. destruct (Forall_lookup_1 _ _ _ _ Ha Hi) as [Hp|Hp]; simpl in Hp; subst.
    + destruct (Forall_lookup_1 _ _ _ _ (i_threads _ _ Hinv) Hi) as [[_ Hs] _]. unfold in_slot. by rewrite Hs.
    + by destruct (He _ _ Hi).
Qed.

Lemma live_exit_zero y : inv r y -> live y -> has_pc Exited (y_threads y) ->
  q_tasks (y_s y) = [] /\ q_done (y_s y) = true /\ q_large_active (y_s y) = 0 /\ q_small_active (y_s y) = 0.
Proof. intros Hi Hl He. apply (drained_iff _ (i_q _ _ Hi)), (lv_exit _ Hl He). Qed.

(** A sleeping thread that is not the one at [i] slept before. *)
Lemma asleep_others ths ths' i th : Forall2 woken ths ths' -> Forall asleep (<[i := th]> ths') ->
  forall k x, k <> i -> ths !! k = Some x -> asleep x.
Proof.
  intros Hw Ha k x Hk Hx. destruct (Forall2_lookup_l _ _ _ _ _ Hw Hx) as (z & Hz & Hwz).
  assert (Hz' : <[i := th]> ths' !! k = Some z) by (by rewrite list_lookup_insert_ne).
  pose proof (Forall_lookup_1 _ _ _ _ Ha Hz') as H. inversion Hwz; subst; [done|by left].
Qed.

(** If everybody else sleeps and no large file is on its way, a thread that
    finds nothing has left nothing behind. *)
Lemma wait_empty i p l l0 s s0 ths ths' ps pipes fin drp all s' l' wq ws th' :
  inv r (Sys s false ths ps pipes fin drp all) -> live (Sys s false ths ps pipes fin drp all) ->
  ths !! i = Some (Thread p l) -> p = Idle \/ p = Woken -> l_slot l0 = l_slot l -> q_tasks s0 = q_tasks s ->
  q_small_active s0 = q_small_active s -> q_large_active s0 = q_large_active s ->
  q_ok s0 -> round_ok r false s0 s' l0 l' Wait wq ws -> Forall2 woken ths ths' ->
  Forall asleep (<[i := th']> ths') -> pipes = [] -> q_tasks s = [].
Proof.
  intros Hinv Hlive Hi Hp Hl0 Et Ea El Hq0 Hr Hw Ha Hpipes. destruct (ro_wait _ _ _ _ _ _ _ _ _ Hr eq_refl) as (Hnl & Hns & _).
  destruct (exited_dec ths) as [He|He]; [by apply (live_exit_zero _ Hinv Hlive)|].
  assert (Hoth : forall k x, k <> i -> ths !! k = Some x -> in_large x = 0 /\ in_slot x = 0).
  { intros k x Hk Hx. destruct (asleep_others _ _ _ _ Hw Ha k x Hk Hx) as [Hpc|Hpc].
    - destruct x as [q m]. simpl in Hpc. subst q. split; [done|].
      destruct (Forall_lookup_1 _ _ _ _ (i_threads _ _ Hinv) Hx) as [[_ Hs] _]. unfold in_slot. by rewrite Hs.
    - by destruct (He _ _ Hx). }
  assert (Hsum : forall f, (forall k x, k <> i -> ths !! k = Some x -> f x = 0) -> sumZ f ths = f (Thread p l)).
  { intros f Hf. rewrite <- (list_insert_id _ _ _ Hi) at 1. rewrite (sumZ_insert _ _ _ _ _ Hi).
    assert (sumZ f (<[i := Thread p l]> ths) = f (Thread p l)); [|rewrite (sumZ_insert _ _ _ _ _ Hi) in H; lia].
    clear -Hf Hi. revert i Hf Hi. induction ths as [|x ths IH]; intros [|i] Hf Hi; simplify_eq/=.
    - rewrite sumZ_zero; [lia|]. apply Forall_lookup. intros k y Hy. by apply (Hf (S k) y).
    - rewrite (Hf 0%nat x) by done. rewrite (IH i); [done| |done]. intros k y Hk Hy. apply (Hf (S k) y); [lia|done]. }
  pose proof (i_large _ _ Hinv) as Hla. pose proof (i_slots _ _ Hinv) as Hsl. cbn [y_s y_threads y_pipes] in *.
  rewrite (Hsum in_large) in Hla by (intros; by eapply Hoth). rewrite (Hsum in_slot) in Hsl by (intros; by eapply Hoth).
  assert (in_large (Thread p l) = 0) as Hz by (by destruct Hp; subst). rewrite Hz, Hpipes in Hla. change (zlen (@nil task)) with 0 in Hla.
  unfold in_slot in Hsl. cbn [th_l] in Hsl.
  destruct Hcfg. rewrite <- Et. destruct Hq0 as [Hh Hb Hlen]. unfold q_tasks.
  assert (Hu : 0 <= b2z (l_slot l) <= 1) by (by destruct (l_slot l)).
  assert (Hheap : h_items (q_heap s0) = []).
  { unfold large_ready, total_worker_slots_used_locked in Hnl. rewrite Ea, El, Hla, Hsl in Hnl.
    rewrite (bool_decide_eq_true_2 (0 < _)) in Hnl by lia. rewrite (bool_decide_eq_true_2 (_ <= _)) in Hnl by lia.
    rewrite !andb_true_r in Hnl. apply bool_decide_eq_false in Hnl. by apply dec_stable. }
  assert (Hsmall : concat (b_rest <$> q_small s0) = []).
  { unfold small_ready, total_worker_slots_used_locked in Hns. rewrite Ea, El, Hla, Hsl, Hl0 in Hns.
    destruct (l_slot l); [change (b2z true) with 1 in *|change (b2z false) with 0 in *].
    - rewrite orb_true_l, andb_true_r in Hns. apply bool_decide_eq_false in Hns. apply nil_length_inv. unfold zlen in Hlen. lia.
    - rewrite (bool_decide_eq_true_2 (0 < g_small_worker_limit r)) in Hns by lia.
      rewrite (bool_decide_eq_true_2 (_ <= _)) in Hns by lia. rewrite andb_true_r in Hns.
      apply bool_decide_eq_false in Hns. apply nil_length_inv. unfold zlen in Hlen. lia. }
  unfold heap_tasks. by rewrite Hheap, Hsmall.
Qed.

(** Progress is kept by a round. *)
Lemma live_round i p l l0 s s0 s' l' c wq ws ths ths' ps ps' pipes fin drp all :
  inv r (Sys s false ths ps pipes fin drp all) -> live (Sys s false ths ps pipes fin drp all) ->
  inv r (Sys (count_waiter c s') false (<[i := Thread (pc_of c) l']> ths') ps' pipes fin drp all) ->
  ths !! i = Some (Thread p l) -> p = Idle \/ p = Woken -> l_slot l0 = l_slot l -> q_tasks s0 = q_tasks s ->
  q_small_active s0 = q_small_active s -> q_large_active s0 = q_large_active s -> q_done s0 = q_done s ->
  q_space_waiters s0 = q_space_waiters s -> q_ok s0 -> round_ok r false s0 s' l0 l' c wq ws ->
  deliver_queue wq ths ths' -> deliver_space ws ps ps' ->
  live (Sys (count_waiter c s') false (<[i := Thread (pc_of c) l']> ths') ps' pipes fin drp all).
Proof.
  intros Hinv Hlive Hinv' Hi Hp Hl0 Et Ea El Ed Esp Hq0 Hr Hwq Hws.
  pose proof (deliver_queue_woken _ _ _ Hwq) as Hw. pose proof (deliver_space_woken _ _ _ Hws) as Hpw.
  pose proof (woken_lookup _ _ _ _ Hw Hi ltac:(by destruct Hp; subst)) as Hi'.
  pose proof (i_q _ _ Hinv') as Hq'. pose proof (i_slots _ _ Hinv') as Hsl'. pose proof (i_large _ _ Hinv') as Hla'.
  pose proof (i_space _ _ Hinv) as Hsp. destruct (ro_rest _ _ _ _ _ _ _ _ _ Hr) as (_ & _ & Hd').
  cbn [y_s y_threads y_prods y_pipes] in *.
  assert (Etc : q_tasks (count_waiter c s') = q_tasks s') by (by destruct c).
  assert (Edc : drained (count_waiter c s') = drained s') by (by destruct c).
  pose proof (ro_tasks _ _ _ _ _ _ _ _ _ Hr) as Ht. rewrite Et in Ht.
  assert (Hex : has_pc Exited ths -> drained s' = true).
  { intros He. pose proof (live_exit_zero _ Hinv Hlive He) as (H1 & H2 & H3 & H4). cbn [y_s] in *.
    rewrite H1 in Ht. apply Permutation_nil_r in Ht. apply app_eq_nil in Ht as [Hc Ht]. apply app_eq_nil in Ht as [_ Ht].
    destruct c; try done; [by apply (ro_none _ _ _ _ _ _ _ _ _ Hr)|].
    destruct (ro_thread _ _ _ _ _ _ _ _ _ Hr) as [[_ Hsl] _]. cbn [th_l] in Hsl.
    apply drained_iff; [apply (ro_q _ _ _ _ _ _ _ _ _ Hr)|]. split_and!; [done|congruence| |].
    - rewrite (ro_large _ _ _ _ _ _ _ _ _ Hr). cbn [is_large]. lia.
    - rewrite (ro_small _ _ _ _ _ _ _ _ _ Hr), Hsl, Ea, H4, Hl0. change (b2z false) with 0.
      pose proof (slot_le ths i _ Hi) as Hle. pose proof (i_slots _ _ Hinv) as Hs0. cbn [y_s y_threads th_l] in Hs0, Hle.
      destruct (l_slot l); change (b2z true) with 1 in *; change (b2z false) with 0; lia. }
  split; cbn [y_s y_threads y_prods y_pipes].
  - intros Hnil. apply (f_equal length) in Hnil. rewrite length_insert in Hnil. apply Forall2_length in Hw.
    apply lookup_lt_Some in Hi. simpl in Hnil. lia.
  - intros (k & th & Hk & Hpc). rewrite Edc. destruct (decide (k = i)) as [->|Hne].
    + rewrite list_lookup_insert_eq in Hk by (by eapply lookup_lt_Some). injection Hk as <-. simpl in Hpc.
      destruct c; simplify_eq/=. by apply (ro_none _ _ _ _ _ _ _ _ _ Hr).
    + apply Hex. rewrite list_lookup_insert_ne in Hk by done. apply (has_exited_woken ths ths' Hw). by exists k, th.
  - intros Hdone. apply (idle_pwoken ps ps' Hpw), (lv_done _ Hlive). cbn [y_s]. rewrite <- Ed, <- Hd'. by destruct c.
  - intros Ha Hpi. rewrite Etc. destruct c as [|t|t|]; cbn [claim_tasks app] in Ht.
    + destruct (ro_none _ _ _ _ _ _ _ _ _ Hr eq_refl eq_refl) as [Hdr _].
      by apply (drained_iff _ (ro_q _ _ _ _ _ _ _ _ _ Hr)) in Hdr as [? _].
    + pose proof (Forall_lookup_1 _ _ _ _ Ha (list_lookup_insert_eq _ i (Thread (RunSmall t) l') ltac:(by eapply lookup_lt_Some))) as [?|?]; done.
    + pose proof (Forall_lookup_1 _ _ _ _ Ha (list_lookup_insert_eq _ i (Thread (RunLarge t) l') ltac:(by eapply lookup_lt_Some))) as [?|?]; done.
    + rewrite (wait_empty i p l l0 s s0 ths ths' ps pipes fin drp all s' l' wq ws _ Hinv Hlive Hi Hp Hl0 Et Ea El Hq0 Hr Hw Ha Hpi) in Ht.
      apply Permutation_nil_r in Ht. by apply app_eq_nil in Ht as [_ ?].
  - intros Hdr. rewrite Edc in Hdr. pose proof (drained_iff _ (ro_q _ _ _ _ _ _ _ _ _ Hr)) as Hdi.
    apply Hdi in Hdr as Hz. destruct Hz as (_ & _ & Hz1 & Hz2).
    destruct c as [|t|t|].
    + apply Forall_insert; [|done]. destruct (ro_none _ _ _ _ _ _ _ _ _ Hr eq_refl eq_refl) as [_ [-> | Hd0]].
      * simpl in Hwq. subst ths'. apply not_parked_broadcast.
      * apply (not_parked_woken ths ths' Hw), (lv_drained _ Hlive). cbn [y_s]. rewrite <- Hd0.
        apply drained_ext; [done|exact (i_q _ _ Hinv)|congruence..].
    + exfalso. destruct (ro_thread _ _ _ _ _ _ _ _ _ Hr) as [_ Hrun]. specialize (Hrun t eq_refl). cbn [th_l] in Hrun.
      pose proof (slot_le (<[i := Thread (RunSmall t) l']> ths') i (Thread (RunSmall t) l') ltac:(apply list_lookup_insert_eq; by eapply lookup_lt_Some)) as Hle.
      cbn [th_l] in Hle. rewrite Hrun in Hle. change (b2z true) with 1 in Hle. cbn [count_waiter pc_of] in *. lia.
    + exfalso. pose proof (ro_large _ _ _ _ _ _ _ _ _ Hr) as H. cbn [is_large] in H.
      destruct (i_limits _ _ Hinv) as (_ & [H0 _] & _). cbn [y_s] in H0. lia.
    + destruct (ro_wait _ _ _ _ _ _ _ _ _ Hr eq_refl) as (_ & _ & Hnd). congruence.
  - intros Hpk. rewrite Etc. destruct (decide (q_tasks s' = [])) as [Hnil|]; [right|by left].
    pose proof (has_parked_pwoken _ _ Hpw Hpk) as Hpk0. destruct (lv_prod _ Hlive Hpk0) as [Hne|Hwk]; [|by eapply has_woken_pwoken].
    cbn [y_s] in Hne. assert (ws = Signal 1) as ->.
    { apply (ro_space _ _ _ _ _ _ _ _ _ Hr eq_refl); [|by rewrite Et|done]. rewrite Esp, Hsp.
      destruct Hpk0 as (j & ts & Hj). pose proof (sumZ_elem in_space ps j _ in_space_nonneg Hj) as H. simpl in H. lia. }
    simpl in Hws. by eapply psignal_wakes.
Qed.

(** With nobody active, work in the queue wakes somebody. *)
Lemma wakes_pos s :
  q_ok s -> q_small_active s = 0 -> q_large_active s = 0 -> 1 <= q_waiters s -> q_tasks s <> [] -> 1 <= wakes r s.
Proof.
  intros Hq Ha Hl Hw Hne. destruct Hcfg. unfold wakes, total_worker_slots_used_locked. rewrite Ha, Hl.
  replace (g_worker_count r - (0 + 0 * g_large_worker_count r)) with (g_worker_count r) by lia.
  pose proof (zlen_nonneg (h_items (q_heap s))). pose proof (queued_tasks s Hq) as Hqt. unfold queued in Hqt.
  assert (1 <= zlen (q_tasks s)) by (destruct (q_tasks s); [done|rewrite zlen_cons; pose proof (zlen_nonneg l); lia]).
  assert (Hdiv : 1 <= g_worker_count r / g_large_worker_count r) by (apply Z.div_le_lower_bound; lia).
  assert (Hst : 0 <= q_small_len s -> 0 <= (q_small_len s + Z.of_nat SMALL_CLAIM_BATCH - 1) / Z.of_nat SMALL_CLAIM_BATCH).
  { intros. apply Z.div_pos; change (Z.of_nat SMALL_CLAIM_BATCH) with 8; lia. }
  assert (Hst1 : 0 < q_small_len s -> 1 <= (q_small_len s + Z.of_nat SMALL_CLAIM_BATCH - 1) / Z.of_nat SMALL_CLAIM_BATCH).
  { intros. apply Z.div_le_lower_bound; change (Z.of_nat SMALL_CLAIM_BATCH) with 8; lia. }
  assert (Hsl : 0 <= q_small_len s) by (rewrite (qo_len _ Hq); apply zlen_nonneg).
  set (x := (g_worker_count r / g_large_worker_count r)%Z) in *. set (z := ((_ + _ - 1) / _)%Z) in *.
  clearbody x z. repeat case_decide; lia.
Qed.

Lemma live_others s s' sd sd' ths ths' ps ps' pipes pipes' fin fin' drp drp' all all' :
  live (Sys s sd ths ps pipes fin drp all) -> ths' <> [] -> q_done s' = q_done s -> q_tasks s' = q_tasks s ->
  (has_pc Exited ths' -> has_pc Exited ths) -> drained s' = drained s -> Forall2 pwoken ps ps' ->
  (Forall asleep ths' -> pipes' = [] -> q_tasks s = []) ->
  (drained s = true -> Forall (fun th => th_pc th <> Parked) ths') ->
  live (Sys s' sd' ths' ps' pipes' fin' drp' all').
Proof.
  intros [_ L2 L3 L4 L5 L6] H0 Hd Ht Hex Hdr Hp Hidle Hpk. split; cbn [y_s y_threads y_prods y_pipes] in *.
  - done.
  - intros H. rewrite Hdr. auto.
  - intros H. rewrite Hd in H. apply (idle_pwoken ps ps' Hp). auto.
  - intros. rewrite Ht. auto.
  - intros H. rewrite Hdr in H. auto.
  - intros H. rewrite Ht. destruct (L6 (has_parked_pwoken _ _ Hp H)) as [?|?]; [by left|right; by eapply has_woken_pwoken].
Qed.

Lemma insert_awake ths i p l :
  (i < length ths)%nat -> ~ asleep (Thread p l) -> Forall asleep (<[i := Thread p l]> ths) -> False.
Proof. intros Hi Hn Ha. apply Hn. apply (Forall_lookup_1 _ _ i _ Ha). by apply list_lookup_insert_eq. Qed.
Lemma has_exited_insert ths i th : th_pc th <> Exited -> has_pc Exited (<[i := th]> ths) -> has_pc Exited ths.
Proof.
  intros Hne (k & x & Hk & Hp). destruct (decide (k = i)) as [->|Hki].
  - destruct (decide (i < length ths)%nat); [rewrite list_lookup_insert_eq in Hk by done; congruence|].
    rewrite list_insert_ge in Hk by lia. by exists i, x.
  - rewrite list_lookup_insert_ne in Hk by done. by exists k, x.
Qed.

(** A wake-up does not create sleepers. *)
Lemma insert_nonempty {A} (l : list A) i a x : l !! i = Some x -> <[i := a]> l <> [].
Proof. intros H Hn. apply (f_equal length) in Hn. rewrite length_insert in Hn. apply lookup_lt_Some in H. simpl in Hn. lia. Qed.

(** ** Steps

    Each kind of step keeps progress; [Hinv] and [Hlive] are about the state
    before. *)
Section steps.
Context (s : sched) (ths : list thread) (ps : list prod) (pipes fin drp all : list task).
Context (Hinv : inv r (Sys s false ths ps pipes fin drp all)) (Hlive : live (Sys s false ths ps pipes fin drp all)).

(** A thread that goes on working. *)
Lemma live_busy i p l p' l' pipes' fin' :
  ths !! i = Some (Thread p l) -> p' <> Parked -> p' <> Exited ->
  live (Sys s false (<[i := Thread p' l']> ths) ps pipes' fin' drp all).
Proof.
  intros Hi H1 H2. pose proof (lookup_lt_Some _ _ _ Hi) as Hlt.
  eapply live_others; [exact Hlive|by eapply insert_nonempty|done|done|by apply has_exited_insert|done|apply pwoken_refl| |].
  - intros Ha _. exfalso. eapply insert_awake; [exact Hlt| |exact Ha]. by intros [?|?].
  - intros Hd. apply Forall_insert; [by apply (lv_drained _ Hlive)|done].
Qed.

Lemma no_exit_large : 1 <= q_large_active s -> ~ has_pc Exited ths.
Proof. intros H He. destruct (live_exit_zero _ Hinv Hlive He) as (_ & _ & Hz & _). cbn [y_s] in Hz. lia. Qed.

(** Drainage cannot precede the return of a large file's slot, and everybody
    is woken by it. *)
Lemma live_slot_back ths' pipes' fin' :
  1 <= q_large_active s -> ths' <> [] -> (has_pc Exited ths' -> has_pc Exited ths) ->
  Forall (fun th => th_pc th <> Parked) ths' -> live (Sys (slot_back s) false ths' ps pipes' fin' drp all).
Proof.
  intros Hl Hne Hex Hnp. pose proof (no_exit_large Hl) as Hno. rewrite slot_back_spec by done.
  destruct Hlive as [L1 L2 L3 L4 L5 L6]. split; cbn [y_s y_threads y_prods y_pipes] in *; try done.
  - intros H. by destruct (Hno (Hex H)).
  - intros Ha _. exfalso. destruct ths' as [|x ths']; [done|]. apply Forall_cons_1 in Ha as [Hx _], Hnp as [Hxp _].
    destruct Hx as [?|Hx]; [done|]. apply Hno, Hex. by exists 0%nat, x.
Qed.

Lemma live_large_fail i t l :
  ths !! i = Some (Thread (RunLarge t) l) ->
  live (Sys (slot_back s) false (<[i := Thread Idle l]> (wake_thread <$> ths)) ps pipes (t :: fin) drp all).
Proof.
  intros Hi. pose proof (sumZ_elem in_large ths i _ in_large_nonneg Hi) as H1. change (in_large (Thread (RunLarge t) l)) with 1 in H1.
  pose proof (i_large _ _ Hinv) as Hla. cbn [y_s y_threads y_pipes] in Hla. pose proof (zlen_nonneg pipes).
  pose proof (woken_lookup _ _ _ _ (broadcast_woken ths) Hi ltac:(done)) as Hi'.
  apply live_slot_back; [lia|by eapply insert_nonempty| |apply Forall_insert; [apply not_parked_broadcast|done]].
  intros He. eapply has_exited_woken; [apply broadcast_woken|]. by eapply has_exited_insert; [|exact He].
Qed.

Lemma live_pipe_done k t :
  pipes !! k = Some t -> live (Sys (slot_back s) false (wake_thread <$> ths) ps (delete k pipes) (t :: fin) drp all).
Proof.
  intros Hk. pose proof (sumZ_nonneg in_large ths in_large_nonneg).
  pose proof (i_large _ _ Hinv) as Hla. cbn [y_s y_threads y_pipes] in Hla.
  assert (1 <= zlen pipes) by (destruct pipes as [|x q]; [done|rewrite zlen_cons; pose proof (zlen_nonneg q); lia]).
  apply live_slot_back; [lia| | |apply not_parked_broadcast].
  - intros Hn. apply fmap_nil_inv in Hn. by destruct (lv_some _ Hlive).
  - apply has_exited_woken, broadcast_woken.
Qed.

Lemma live_batch j ts : ps !! j = Some PIdle -> q_done s = false ->
  live (Sys s false ths (<[j := PWant ts]> ps) pipes fin drp (ts ++ all)).
Proof.
  intros Hj Hd. destruct Hlive as [L1 L2 L3 L4 L5 L6]. split; cbn [y_s y_threads y_prods y_pipes] in *; try done; [congruence|].
  intros (k & us & Hk). destruct (decide (k = j)) as [->|Hne].
  { rewrite list_lookup_insert_eq in Hk by (by eapply lookup_lt_Some). done. }
  rewrite list_lookup_insert_ne in Hk by done. destruct L6 as [?|(m & vs & Hm)]; [by exists k, us|by left|right].
  exists m, vs. rewrite list_lookup_insert_ne; [done|]. intros ->. congruence.
Qed.

Lemma not_done_wanting j p ts : ps !! j = Some p -> wanting p = Some ts -> q_done s = false.
Proof.
  intros Hj Hp. destruct (q_done s) eqn:E; [|done]. pose proof (lv_done _ Hlive E) as Hall. cbn [y_prods] in Hall.
  by rewrite <- (Forall_lookup_1 _ _ _ _ Hall Hj) in Hp.
Qed.
Lemma not_done_no_exit : q_done s = false -> ~ has_pc Exited ths.
Proof. intros Hd He. destruct (live_exit_zero _ Hinv Hlive He) as (_ & Hz & _). cbn [y_s] in Hz. congruence. Qed.

Lemma live_push j p p' ts s' n ths' :
  ps !! j = Some p -> wanting p = Some ts -> q_ok s' -> q_tasks s' <> [] -> same_counts s s' \/ same_counts (unwait p s) s' ->
  n = wakes r s' -> signals (Z.to_nat n) ths ths' -> live (Sys s' false ths' (<[j := p']> ps) pipes fin drp all).
Proof.
  intros Hj Hp Hq' Hne Hsame -> Hsig. pose proof (signals_woken _ _ _ Hsig) as Hw.
  pose proof (not_done_wanting j p ts Hj Hp) as Hnd. pose proof (not_done_no_exit Hnd) as Hnx.
  assert (Hc : q_small_active s' = q_small_active s /\ q_large_active s' = q_large_active s /\ q_done s' = q_done s /\ q_waiters s' = q_waiters s).
  { destruct Hsame as [(?&?&?&?&?)|(H1&H2&H3&H4&_)]; [done|]. rewrite H1, H2, H3, H4. by destruct p. }
  destruct Hc as (Ha & Hl & Hd & Hwt).
  assert (Hnd' : drained s' = true -> False).
  { intros Hdr. apply (drained_iff s' Hq') in Hdr as [? _]. done. }
  split; cbn [y_s y_threads y_prods y_pipes].
  - intros ->. inversion Hw; subst. by destruct (lv_some _ Hlive).
  - intros He. by destruct (Hnx (has_exited_woken _ _ Hw He)).
  - congruence.
  - intros Hsl Hpi. exfalso. pose proof (asleep_woken _ _ Hw Hsl) as ->.
    destruct (sleeping_sums s false ths ps pipes fin drp all Hinv) as [Z1 Z2]; [by intros|done|].
    pose proof (i_slots _ _ Hinv) as Hsl0. pose proof (i_large _ _ Hinv) as Hla0. pose proof (i_wait _ _ Hinv) as Hwa0.
    cbn [y_s y_threads y_pipes] in *. rewrite Hpi in Hla0. change (zlen (@nil task)) with 0 in Hla0.
    assert (Hpk : has_pc Parked ths).
    { destruct ths as [|x q] eqn:E; [by destruct (lv_some _ Hlive)|]. apply Forall_cons_1 in Hsl as [[Hx|Hx] _]; [by exists 0%nat, x|].
      destruct Hnx. by exists 0%nat, x. }
    assert (1 <= q_waiters s).
    { destruct Hpk as (k & th & Hk & Hpc). pose proof (sumZ_elem in_wait ths k th in_wait_nonneg Hk) as Hle.
      unfold in_wait at 1 in Hle. rewrite Hpc in Hle. lia. }
    pose proof (wakes_pos s' Hq' ltac:(lia) ltac:(lia) ltac:(lia) Hne) as Hwk.
    destruct (Z.to_nat (wakes r s')) as [|m] eqn:E; [lia|]. by apply (signals_wake m ths ths).
  - intros Hdr. by destruct Hnd'.
  - intros _. by left.
Qed.

Lemma live_park j p ts :
  ps !! j = Some p -> wanting p = Some ts -> has_room r s ts = false ->
  live (Sys (set_q_space_waiters (q_space_waiters (unwait p s) + 1) (unwait p s)) false ths (<[j := PParked ts]> ps) pipes fin drp all).
Proof.
  intros Hj Hp Hroom. pose proof (not_done_wanting j p ts Hj Hp) as Hnd.
  assert (Hne : q_tasks s <> []).
  { intros Hnil. pose proof (queued_tasks s (i_q _ _ Hinv)) as Hqt. rewrite Hnil in Hqt. change (zlen (@nil task)) with 0 in Hqt.
    apply bool_decide_eq_false in Hroom. apply Hroom. destruct Hcfg. unfold need_room, space_wake_min, SPACE_WAKE_MIN.
    pose proof (Z.div_mod (g_max_queued_files r) 4). pose proof (Z.mod_pos_bound (g_max_queued_files r) 4).
    repeat case_decide; lia. }
  set (s' := set_q_space_waiters _ _).
  assert (Hs' : q_tasks s' = q_tasks s /\ drained s' = drained s /\ q_done s' = q_done s) by (by destruct p).
  destruct Hs' as (E1 & E2 & E3). destruct Hlive as [L1 L2 L3 L4 L5 L6].
  split; cbn [y_s y_threads y_prods y_pipes] in *; rewrite ?E1, ?E2, ?E3; try done; [congruence|by left].
Qed.

Lemma live_stop : Forall (eq PIdle) ps -> live (Sys (set_q_done true s) false (wake_thread <$> ths) ps pipes fin drp all).
Proof.
  intros Hps. pose proof (broadcast_woken ths) as Hw. pose proof (not_parked_broadcast ths) as Hnp.
  assert (Hex : has_pc Exited (wake_thread <$> ths) -> drained (set_q_done true s) = true).
  { intros He. destruct (live_exit_zero _ Hinv Hlive (has_exited_woken _ _ Hw He)) as (H1 & _ & H3 & H4). cbn [y_s] in *.
    apply drained_iff; [by apply (q_ok_ext s); [..|exact (i_q _ _ Hinv)]|done]. }
  split; cbn [y_s y_threads y_prods y_pipes]; try done.
  - intros Hn. apply fmap_nil_inv in Hn. by destruct (lv_some _ Hlive).
  - intros Ha _. destruct ths as [|x q]; [by destruct (lv_some _ Hlive)|]. rewrite fmap_cons in Ha, Hnp.
    apply Forall_cons_1 in Ha as [[?|Hx] _], Hnp as [Hxp _]; [done|].
    assert (Hdr : drained (set_q_done true s) = true) by (apply Hex; by exists 0%nat, (wake_thread x)).
    apply drained_iff in Hdr as [Hdr _]; [exact Hdr|by apply (q_ok_ext s); [..|exact (i_q _ _ Hinv)]].
  - intros (j & ts & Hj). by pose proof (Forall_lookup_1 _ _ _ _ Hps Hj).
Qed.
End steps.
End live.

(** * The theorems *)

Definition in_run (th : thread) : Z := match th_pc th with RunSmall _ => 1 | _ => 0 end.

Section reach.
Context (r : runtime) (ssh : bool) (Hcfg : config_ok r).

Lemma wake_min_ok : 1 <= space_wake_min r <= g_max_queued_files r.
Proof.
  destruct Hcfg. unfold space_wake_min, SPACE_WAKE_MIN.
  pose proof (Z.div_mod (g_max_queued_files r) 4). pose proof (Z.mod_pos_bound (g_max_queued_files r) 4).
  repeat case_decide; lia.
Qed.

Lemma inv_init n m : inv r (init_sys n m).
Proof.
  destruct Hcfg. split; cbn [y_s y_threads y_prods y_pipes init_sys].
  - split; [|done|done]. split_and!; [intros j Hj; simpl in Hj; lia|by vm_compute|constructor].
  - unfold limits, total_worker_slots_used_locked. simpl. lia.
  - change (0 <= g_max_queued_files r). lia.
  - apply Forall_replicate. split; [by intros []|by intros ? ?].
  - by rewrite sumZ_replicate.
  - by rewrite sumZ_replicate.
  - by rewrite sumZ_replicate.
  - by rewrite sumZ_replicate.
  - apply Forall_replicate. by left.
  - unfold places, q_tasks. cbn [y_s y_threads y_prods y_pipes y_finished y_dropped init_sys].
    assert (H : forall k A B (f : A -> list B) x, f x = [] -> concat (f <$> replicate k x) = []).
    { intros k A B f x Hx. induction k as [|k IH]; [done|]. simpl. by rewrite Hx. }
    by rewrite !H.
Qed.

Lemma reachable_inv n m y : reachable r ssh n m y -> inv r y.
Proof.
  induction 1 as [|y y' _ IH Hst]; [apply inv_init|]. destruct Hcfg.
  eapply inv_step; [apply wake_min_ok|lia|lia|exact IH|exact Hst].
Qed.

Lemma live_init n m : (0 < n)%nat -> live (init_sys n m).
Proof.
  intros Hn. assert (Hrep : forall i th, replicate n (Thread Idle local0) !! i = Some th -> th = Thread Idle local0).
  { intros i th Hi. by apply lookup_replicate in Hi as [? _]. }
  split; cbn [y_s y_threads y_prods y_pipes init_sys]; try done.
  - destruct n; [lia|done].
  - intros (i & th & Hi & Hp). by rewrite (Hrep i th Hi) in Hp.
  - intros (j & ts & Hj). by apply lookup_replicate in Hj as [? _].
Qed.

Lemma step_flags y y' : step r ssh y y' -> y_shutdown y' = false -> y_dropped y' = [] -> y_shutdown y = false /\ y_dropped y = [].
Proof.
  intros [] Hs Hd; cbn [y_shutdown y_dropped] in *; try done.
  - by subst sd.
  - by apply app_eq_nil in Hd as [_ ?].
Qed.

Lemma live_step y y' :
  g_large_worker_count r + 1 <= g_worker_count r -> inv r y -> inv r y' -> live y -> step r ssh y y' ->
  y_shutdown y' = false -> y_dropped y' = [] -> live y'.
Proof.
  intros Hfit Hinv Hinv' Hlive Hst Hsd Hdrp.
  destruct Hst as
    [i l t l' s ths ps pipes fin drp all Hi Hn
    |i l sd s ths ps pipes fin drp all s' l' c wq ws ths' ps' Hi Hn Hd Hwq Hws
    |i l sd s ths ps pipes fin drp all s' l' c wq ws ths' ps' Hi Hd Hwq Hws
    |i t l s sd ths ps pipes fin drp all Hi|i t l s sd ths ps pipes fin drp all Hi|i t l s sd ths ps pipes fin drp all Hi
    |k t s sd ths ps pipes fin drp all Hk|j ts s sd ths ps pipes fin drp all Hj Hts Hdone
    |j p ts alloc s ths ps pipes fin drp all s' rest n ths' Hj Hp Hroom Hen Hsig
    |j p ts s ths ps pipes fin drp all Hj Hp Hroom|j p ts s ths ps pipes fin drp all Hj Hp
    |j p ts alloc s ths ps pipes fin drp all Hj Hp Hroom Hen|s sd ths ps pipes fin drp all Hidle
    |s sd ths ps pipes fin drp all|s ths ps pipes fin drp all];
  cbn [y_shutdown y_dropped] in Hsd, Hdrp; try subst sd; try done.
  - by eapply live_busy.
  - destruct Hn as [?|Hn]; [done|]. pose proof (stash_next_spec l) as Hl. rewrite Hn in Hl.
    pose proof (i_q _ _ Hinv) as Hq. pose proof (i_slots _ _ Hinv) as Hsl. cbn [y_s y_threads] in Hq, Hsl.
    destruct (dequeue_enter_ok r wake_min_ok false s l s' l' c wq ws) as (s0 & k & -> & Hr);
      [done|exact (i_limits _ _ Hinv)|by right|rewrite Hsl; apply (slot_le ths i _ Hi)|done|].
    eapply (live_round r Hcfg Hfit i Idle l (Local [] 0 (l_slot l)) s (set_q_free k s)); try done; [by left|by apply (q_ok_ext s)].
  - pose proof (i_q _ _ Hinv) as Hq. pose proof (i_slots _ _ Hinv) as Hsl. cbn [y_s y_threads] in Hq, Hsl.
    destruct (Forall_lookup_1 _ _ _ _ (i_threads _ _ Hinv) Hi) as [[Hl Hslot] _]. cbn [th_l] in Hl.
    set (s0 := set_q_waiters (q_waiters s - 1) s) in *.
    destruct (dequeue_round_ok r wake_min_ok false s0 l) as (s1 & l1 & c1 & wq1 & ws1 & Hd' & Hr);
      [by apply (q_ok_ext s)|exact (i_limits _ _ Hinv)|done|cbn [q_small_active s0 set_q_waiters]; rewrite Hsl; apply (slot_le ths i _ Hi)|].
    rewrite Hd in Hd'. injection Hd' as <- <- <- <- <-.
    eapply (live_round r Hcfg Hfit i Woken l l s s0); try done; [by right|by apply (q_ok_ext s)].
  - by eapply live_busy.
  - by eapply live_busy.
  - by eapply live_large_fail.
  - by eapply live_pipe_done.
  - by apply live_batch.
  - pose proof (i_q _ _ Hinv) as Hq. cbn [y_s] in Hq.
    assert (Hne : ts <> []).
    { destruct (Forall_lookup_1 _ _ _ _ (i_prods _ _ Hinv) Hj) as [->|Hne]; [done|]. by destruct p; simplify_eq/=. }
    destruct (enqueue_slice_ok r ssh wake_min_ok alloc (unwait p s) ts s' rest n) as (Hq' & _ & Hsame & _ & Hnt & Hw); try done.
    + destruct p; by apply (q_ok_ext s).
    + pose proof (i_cap _ _ Hinv) as Hcap. by destruct p.
    + destruct Hcfg. lia.
    + by destruct p.
    + eapply (live_push r Hcfg Hfit); try done. by right.
  - by eapply live_park.
  - exfalso. apply app_eq_nil in Hdrp as [-> _].
    destruct (Forall_lookup_1 _ _ _ _ (i_prods _ _ Hinv) Hj) as [->|Hne]; [done|]. by destruct p; simplify_eq/=.
  - by eapply live_stop.
Qed.

Lemma reachable_live n m y :
  (0 < n)%nat -> g_large_worker_count r + 1 <= g_worker_count r -> reachable r ssh n m y ->
  y_shutdown y = false -> y_dropped y = [] -> live y.
Proof.
  intros Hn Hfit Hr. induction Hr as [|y y' Hr IH Hst]; intros Hs Hd; [by apply live_init|].
  destruct (step_flags y y' Hst Hs Hd) as [Hs0 Hd0].
  eapply live_step; [done|by eapply reachable_inv|eapply reachable_inv; by eapply reach_step|by apply IH|exact Hst|done|done].
Qed.
End reach.

(** C10.  The worker limits hold in every interleaving: however workers,
    producers, pipelines, stop and shutdown interleave, no more small files are
    copied at once than configured, small and large work together never exceed
    the worker slots, the queue never exceeds its bound, and every task ever
    handed in is in exactly one place: queued, claimed, with a producer, in a
    pipeline, finished, or given up. *)
Theorem scheduler_safe r ssh n m y :
  config_ok r -> reachable r ssh n m y ->
  sumZ in_run (y_threads y) <= g_small_worker_limit r /\
  sumZ in_run (y_threads y) + (sumZ in_large (y_threads y) + zlen (y_pipes y)) * g_large_worker_count r <= g_worker_count r /\
  sumZ in_large (y_threads y) + zlen (y_pipes y) <= g_max_active_large_files r /\
  zlen (q_tasks (y_s y)) <= g_max_queued_files r /\
  strip <$> places y ≡ₚ strip <$> y_all y.
Proof.
  intros Hcfg Hr. pose proof (reachable_inv r ssh Hcfg n m y Hr) as [Hq (H1 & H2 & H3) Hcap Hths Hs Hl _ _ _ Hall].
  unfold total_worker_slots_used_locked in H3. rewrite queued_tasks in Hcap by done.
  assert (Hrun : sumZ in_run (y_threads y) <= sumZ in_slot (y_threads y)).
  { clear -Hths. induction Hths as [|x l [_ Hx] _ IH]; simpl; [lia|]. assert (in_run x <= in_slot x); [|lia].
    pose proof (in_slot_nonneg x). unfold in_run. destruct (th_pc x) eqn:E; try lia. unfold in_slot. by rewrite (Hx _ E). }
  rewrite <- Hl. split_and!; [lia|lia|lia|lia|done].
Qed.


(** * A deadlock

    Two workers, as DIRECT_COPY_MAX_WORKERS=2 asks for: a large file takes
    both slots.  The queue holds one entry. *)

Definition tiny_env (name : bytes) : option bytes :=
  if decide (name = str "MAX_WORKERS") then Some (str "2")
  else if decide (name = str "MAX_QUEUED_FILES") then Some (str "1") else None.
Definition tiny : runtime := Eval vm_compute in (init_runtime_config tiny_env runtime0).1.
Lemma tiny_ok : config_ok tiny.
Proof. change tiny with (init_runtime_config tiny_env runtime0).1. apply init_config_ok. Qed.

Definition file (name : bytes) (size : Z) : task :=
  Task (str "/src/" ++ name) (str "/dst/" ++ name) name
    (Stat 1 1 (S_IFREG |. o0755) 1 0 0 size ((size + 511) / 512) (Timespec 0 0) (Timespec 0 0) (Timespec 0 0)) false 0.
Definition small_file : task := file (str "a") 5.
Definition large_file : task := file (str "b") (20 * MIB).

(** Run one step from the state reached so far. *)
Lemma reach_next r ssh n m y y' (Q : sys -> Prop) :
  step r ssh y y' -> (reachable r ssh n m y' -> exists z, reachable r ssh n m z /\ Q z) ->
  reachable r ssh n m y -> exists z, reachable r ssh n m z /\ Q z.
Proof. intros Hs Hk Hr. by apply Hk, (reach_step _ _ _ _ y). Qed.

Ltac fact := first [reflexivity | vm_compute; reflexivity].
Tactic Notation "run_step" open_constr(c) := eapply reach_next; [eapply c|].
Ltac enter i := run_step (st_enter _ false i); [fact|right; fact|vm_compute; fact|fact|fact|].
Ltac give ts := run_step (st_batch _ false 0%nat ts); [fact|done|fact|].
Ltac push := eapply reach_next;
  [eapply (st_push _ false 0%nat _ _ (fun _ => true)); [fact|fact|fact|vm_compute; fact|]|].

(** Both workers sleep; a small file wakes one; while it copies, two large
    files arrive: one fills the queue and wakes nobody, the producer sleeps on
    the other.  The worker comes back, finds the slots taken by its own small
    slot, gives it back, and sleeps. *)
Theorem scheduler_deadlock :
  exists y, reachable tiny false 2 1 y /\ ~ can_move y /\
    y_shutdown y = false /\ y_dropped y = [] /\ q_tasks (y_s y) <> [] /\ y_prods y <> [PIdle].
Proof.
  enough (H : reachable tiny false 2 1 (init_sys 2 1) -> exists y, reachable tiny false 2 1 y /\ 
     (~ can_move y /\ y_shutdown y = false /\ y_dropped y = [] /\ q_tasks (y_s y) <> [] /\ y_prods y <> [PIdle])) by apply H, reach_init.
  enter 0%nat. enter 1%nat. give [small_file].
  push; [eapply signals_S; [eapply (signal_hit _ 0%nat); fact|apply signals_O]|].
  run_step (st_wake _ false 0%nat); [fact|vm_compute; fact|fact|fact|].
  give [large_file; large_file].
  push; [apply signals_O|].
  run_step (st_park _ false 0%nat); [fact|fact|fact|].
  run_step (st_small_done _ false 0%nat); [fact|].
  enter 0%nat.
  intros Hr. eexists. split; [exact Hr|].
  split_and!; [|done|done|done|done].
  intros [(i & th & Hi & Hn)|[H|(j & p & ts & Hj & Hw)]]; [| by apply H |].
  - apply Hn. left. destruct i as [|[|i]]; vm_compute in Hi; first [by injection Hi as <- | discriminate].
  - destruct j as [|j]; [|done]. cbn in Hj. injection Hj as <-. done.
Qed.

(** Two workers and a producer in the default configuration, mid-run: a small
    file is done, a large one is in its pipeline. *)
Definition roomy : runtime := Eval vm_compute in (init_runtime_config (fun _ => None) runtime0).1.
Lemma roomy_ok : config_ok roomy.
Proof. change roomy with (init_runtime_config (fun _ => None) runtime0).1. apply init_config_ok. Qed.

Definition mid_run (y : sys) : Prop :=
  y_shutdown y = false /\ y_dropped y = [] /\ length (y_finished y) = 1%nat /\ length (y_pipes y) = 1%nat.
Lemma mid_run_reached : exists y, reachable roomy false 2 1 y /\ mid_run y.
Proof.
  enough (H : reachable roomy false 2 1 (init_sys 2 1) -> exists y, reachable roomy false 2 1 y /\ mid_run y) by apply H, reach_init.
  give [small_file; large_file]. push; [apply signals_O|].
  enter 0%nat. run_step (st_large_up _ false 0%nat); [fact|].
  enter 0%nat. run_step (st_small_done _ false 0%nat); [fact|].
  intros Hr. eexists. split; [exact Hr|]. by split_and!.
Qed.

Lemma scheduler_safe_witness : exists y, mid_run y /\
  sumZ in_run (y_threads y) + (sumZ in_large (y_threads y) + zlen (y_pipes y)) * g_large_worker_count roomy <= g_worker_count roomy.
Proof.
  destruct mid_run_reached as (y & Hr & Hm). exists y. split; [done|].
  apply (scheduler_safe roomy false 2 1 y roomy_ok Hr).
Defined.

