(* ===== verification/SshTransport.v ===== *)
(** The client's SSH transport (src/ssh_transport.c): the connection pool, the
    table of pending requests and its receiver, the control and streaming
    operations with their payloads, and the parsing and quoting of targets.

    A connection is a record; the receiver thread is [rx_step], one iteration
    of [rx_main], and a thread that waits for its reply runs the receiver until
    the reply is there or the connection has failed, which is what the two
    threads do together under the lock.  Process spawning, the ssh command line
    and the upload of the binary are not modelled: [sshx_connect] takes the
    outcome of each [connect_one] as an argument. *)

From S2P Require Export ServerVerify CopyPolicy.

(** * Data *)

(** [pending_t]; the request is named by its id. *)
Record pending := Pending { p_id : Z; p_done : bool; p_status : Z; p_resp : bytes }.

(** [conn_t] without its threads and locks. *)
Record conn := Conn {
  c_active : bool;
  c_failed : bool;
  c_in_fd : Z;
  c_out_fd : Z;
  c_caps : Z;
  c_pending : list pending;
  c_next_id : Z;
  c_next_file_id : Z;
  c_ops_since_barrier : Z;
  c_barrier_ops : Z;
  c_remote_failed : bool;
  c_verify_counts : list Z;
  c_last_drain_bytes : Z;
  c_last_drain_ns : Z;
  c_remote_root : bytes;
  c_remote_root_present : bool
}.

Definition set_c_active (x : bool) (s : conn) : conn :=
  Conn x (c_failed s) (c_in_fd s) (c_out_fd s) (c_caps s) (c_pending s) (c_next_id s) (c_next_file_id s) (c_ops_since_barrier s) (c_barrier_ops s) (c_remote_failed s) (c_verify_counts s) (c_last_drain_bytes s) (c_last_drain_ns s) (c_remote_root s) (c_remote_root_present s).
Definition set_c_failed (x : bool) (s : conn) : conn :=
  Conn (c_active s) x (c_in_fd s) (c_out_fd s) (c_caps s) (c_pending s) (c_next_id s) (c_next_file_id s) (c_ops_since_barrier s) (c_barrier_ops s) (c_remote_failed s) (c_verify_counts s) (c_last_drain_bytes s) (c_last_drain_ns s) (c_remote_root s) (c_remote_root_present s).
Definition set_c_in_fd (x : Z) (s : conn) : conn :=
  Conn (c_active s) (c_failed s) x (c_out_fd s) (c_caps s) (c_pending s) (c_next_id s) (c_next_file_id s) (c_ops_since_barrier s) (c_barrier_ops s) (c_remote_failed s) (c_verify_counts s) (c_last_drain_bytes s) (c_last_drain_ns s) (c_remote_root s) (c_remote_root_present s).
Definition set_c_out_fd (x : Z) (s : conn) : conn :=
  Conn (c_active s) (c_failed s) (c_in_fd s) x (c_caps s) (c_pending s) (c_next_id s) (c_next_file_id s) (c_ops_since_barrier s) (c_barrier_ops s) (c_remote_failed s) (c_verify_counts s) (c_last_drain_bytes s) (c_last_drain_ns s) (c_remote_root s) (c_remote_root_present s).
Definition set_c_caps (x : Z) (s : conn) : conn :=
  Conn (c_active s) (c_failed s) (c_in_fd s) (c_out_fd s) x (c_pending s) (c_next_id s) (c_next_file_id s) (c_ops_since_barrier s) (c_barrier_ops s) (c_remote_failed s) (c_verify_counts s) (c_last_drain_bytes s) (c_last_drain_ns s) (c_remote_root s) (c_remote_root_present s).
Definition set_c_pending (x : list pending) (s : conn) : conn :=
  Conn (c_active s) (c_failed s) (c_in_fd s) (c_out_fd s) (c_caps s) x (c_next_id s) (c_next_file_id s) (c_ops_since_barrier s) (c_barrier_ops s) (c_remote_failed s) (c_verify_counts s) (c_last_drain_bytes s) (c_last_drain_ns s) (c_remote_root s) (c_remote_root_present s).
Definition set_c_next_id (x : Z) (s : conn) : conn :=
  Conn (c_active s) (c_failed s) (c_in_fd s) (c_out_fd s) (c_caps s) (c_pending s) x (c_next_file_id s) (c_ops_since_barrier s) (c_barrier_ops s) (c_remote_failed s) (c_verify_counts s) (c_last_drain_bytes s) (c_last_drain_ns s) (c_remote_root s) (c_remote_root_present s).
Definition set_c_next_file_id (x : Z) (s : conn) : conn :=
  Conn (c_active s) (c_failed s) (c_in_fd s) (c_out_fd s) (c_caps s) (c_pending s) (c_next_id s) x (c_ops_since_barrier s) (c_barrier_ops s) (c_remote_failed s) (c_verify_counts s) (c_last_drain_bytes s) (c_last_drain_ns s) (c_remote_root s) (c_remote_root_present s).
Definition set_c_ops_since_barrier (x : Z) (s : conn) : conn :=
  Conn (c_active s) (c_failed s) (c_in_fd s) (c_out_fd s) (c_caps s) (c_pending s) (c_next_id s) (c_next_file_id s) x (c_barrier_ops s) (c_remote_failed s) (c_verify_counts s) (c_last_drain_bytes s) (c_last_drain_ns s) (c_remote_root s) (c_remote_root_present s).
Definition set_c_barrier_ops (x : Z) (s : conn) : conn :=
  Conn (c_active s) (c_failed s) (c_in_fd s) (c_out_fd s) (c_caps s) (c_pending s) (c_next_id s) (c_next_file_id s) (c_ops_since_barrier s) x (c_remote_failed s) (c_verify_counts s) (c_last_drain_bytes s) (c_last_drain_ns s) (c_remote_root s) (c_remote_root_present s).
Definition set_c_remote_failed (x : bool) (s : conn) : conn :=
  Conn (c_active s) (c_failed s) (c_in_fd s) (c_out_fd s) (c_caps s) (c_pending s) (c_next_id s) (c_next_file_id s) (c_ops_since_barrier s) (c_barrier_ops s) x (c_verify_counts s) (c_last_drain_bytes s) (c_last_drain_ns s) (c_remote_root s) (c_remote_root_present s).
Definition set_c_verify_counts (x : list Z) (s : conn) : conn :=
  Conn (c_active s) (c_failed s) (c_in_fd s) (c_out_fd s) (c_caps s) (c_pending s) (c_next_id s) (c_next_file_id s) (c_ops_since_barrier s) (c_barrier_ops s) (c_remote_failed s) x (c_last_drain_bytes s) (c_last_drain_ns s) (c_remote_root s) (c_remote_root_present s).
Definition set_c_last_drain_bytes (x : Z) (s : conn) : conn :=
  Conn (c_active s) (c_failed s) (c_in_fd s) (c_out_fd s) (c_caps s) (c_pending s) (c_next_id s) (c_next_file_id s) (c_ops_since_barrier s) (c_barrier_ops s) (c_remote_failed s) (c_verify_counts s) x (c_last_drain_ns s) (c_remote_root s) (c_remote_root_present s).
Definition set_c_last_drain_ns (x : Z) (s : conn) : conn :=
  Conn (c_active s) (c_failed s) (c_in_fd s) (c_out_fd s) (c_caps s) (c_pending s) (c_next_id s) (c_next_file_id s) (c_ops_since_barrier s) (c_barrier_ops s) (c_remote_failed s) (c_verify_counts s) (c_last_drain_bytes s) x (c_remote_root s) (c_remote_root_present s).
Definition set_c_remote_root (x : bytes) (s : conn) : conn :=
  Conn (c_active s) (c_failed s) (c_in_fd s) (c_out_fd s) (c_caps s) (c_pending s) (c_next_id s) (c_next_file_id s) (c_ops_since_barrier s) (c_barrier_ops s) (c_remote_failed s) (c_verify_counts s) (c_last_drain_bytes s) (c_last_drain_ns s) x (c_remote_root_present s).
Definition set_c_remote_root_present (x : bool) (s : conn) : conn :=
  Conn (c_active s) (c_failed s) (c_in_fd s) (c_out_fd s) (c_caps s) (c_pending s) (c_next_id s) (c_next_file_id s) (c_ops_since_barrier s) (c_barrier_ops s) (c_remote_failed s) (c_verify_counts s) (c_last_drain_bytes s) (c_last_drain_ns s) (c_remote_root s) x.

(** The pool: [p_conns] is [g_conns], [p_conn] the thread's binding, and the
    last two fields are what the statistics module was told. *)
Record pool := Pool {
  p_conns : list conn;
  p_verify_want : Z;
  p_verify_base : Z;
  p_nverify : Z;
  p_conn : option nat;
  p_remote_drain : Z * Z;
  p_verify_stats : list Z
}.

Definition set_p_conns (x : list conn) (s : pool) : pool :=
  Pool x (p_verify_want s) (p_verify_base s) (p_nverify s) (p_conn s) (p_remote_drain s) (p_verify_stats s).
Definition set_p_verify_want (x : Z) (s : pool) : pool :=
  Pool (p_conns s) x (p_verify_base s) (p_nverify s) (p_conn s) (p_remote_drain s) (p_verify_stats s).
Definition set_p_verify_base (x : Z) (s : pool) : pool :=
  Pool (p_conns s) (p_verify_want s) x (p_nverify s) (p_conn s) (p_remote_drain s) (p_verify_stats s).
Definition set_p_nverify (x : Z) (s : pool) : pool :=
  Pool (p_conns s) (p_verify_want s) (p_verify_base s) x (p_conn s) (p_remote_drain s) (p_verify_stats s).
Definition set_p_conn (x : option nat) (s : pool) : pool :=
  Pool (p_conns s) (p_verify_want s) (p_verify_base s) (p_nverify s) x (p_remote_drain s) (p_verify_stats s).
Definition set_p_remote_drain (x : Z * Z) (s : pool) : pool :=
  Pool (p_conns s) (p_verify_want s) (p_verify_base s) (p_nverify s) (p_conn s) x (p_verify_stats s).
Definition set_p_verify_stats (x : list Z) (s : pool) : pool :=
  Pool (p_conns s) (p_verify_want s) (p_verify_base s) (p_nverify s) (p_conn s) (p_remote_drain s) x.


Definition conn0 (barrier_ops : Z) : conn :=
  Conn false false (-1) (-1) 0 [] 1 1 0 barrier_ops false [0; 0; 0; 0; 0; 0] 0 0 [] false.

(** Programs on one connection and on the pool. *)
Abbreviation CM := (M posix conn).
Abbreviation PM := (M posix pool).

(** * Small helpers *)

(** [atomic_fetch_add(&c->next_id, 1) + 1] *)
Definition next_request_id : CM Z :=
  state (fun c => let n := u64 (c_next_id c + 1) in (n, set_c_next_id n c)).
Definition next_file_id : CM Z :=
  state (fun c => let n := u64 (c_next_file_id c + 1) in (n, set_c_next_file_id n c)).

Definition conn_mark_failed : CM unit := modify (set_c_failed true).

Fixpoint pending_find (id : Z) (l : list pending) : option pending :=
  match l with
  | [] => None
  | p :: l => if decide (p_id p = id) then Some p else pending_find id l
  end.
Fixpoint pending_update (id : Z) (u : pending -> pending) (l : list pending) : list pending :=
  match l with
  | [] => []
  | p :: l => if decide (p_id p = id) then u p :: l else p :: pending_update id u l
  end.
Fixpoint pending_delete (id : Z) (l : list pending) : list pending :=
  match l with
  | [] => []
  | p :: l => if decide (p_id p = id) then l else p :: pending_delete id l
  end.

(** [false] when the entry could not be allocated. *)
Definition pending_add (id : Z) : CM bool :=
  ok ← call (malloc 40);
  if negb ok then mret false else
  modify (fun c => set_c_pending (Pending id false 0 [] :: c_pending c) c);; mret true.
Definition pending_remove (id : Z) : CM unit :=
  modify (fun c => set_c_pending (pending_delete id (c_pending c)) c).

(** What a frame does to the table: the first request with its id gets it. *)
Definition deliver (type id : Z) (payload : bytes) (c : conn) : conn :=
  let status := if decide (type = msg_code MSG_STATUS) then i32 (pdec_u32 (pdec_init payload)).1 else 0 in
  set_c_pending (pending_update id (fun _ => Pending id true status payload) (c_pending c)) c.

Section client.
Context (eintr : nat).

Definition conn_send (type : msg_type) (id : Z) (payload : bytes) : CM bool :=
  fd ← gets c_in_fd;
  ok ← lift (frame_write eintr fd (msg_code type) id payload);
  when (negb ok) conn_mark_failed;;
  mret ok.

(** One iteration of [rx_main]; [false] when the receiver has ended. *)
Definition rx_step : CM bool :=
  fd ← gets c_out_fd;
  hdr ← lift (frame_read_header eintr fd);
  match hdr with
  | None => conn_mark_failed;; mret false
  | Some (type, id, plen) =>
      if decide (ECOPY_MAX_FRAME < plen) then conn_mark_failed;; mret false else
      payload ← (if decide (plen = 0) then mret (Some [])
                 else
                   ok ← call (malloc plen);
                   if negb ok then mret None else lift (io_read_all eintr fd (Z.to_nat plen)));
      match payload with
      | None => conn_mark_failed;; mret false
      | Some payload => modify (deliver type id payload);; mret true
      end
  end.

(** The reply, or [None] when the connection failed first. [frames] bounds
    the replies to other requests that may come in between. *)
Fixpoint pending_wait (frames : nat) (id : Z) : CM (option pending) :=
  c ← get;
  match pending_find id (c_pending c) with
  | None => stuck
  | Some p =>
      if p_done p then mret (Some p) else
      if c_failed c then mret None else
      match frames with
      | O => stuck
      | S frames => rx_step;; pending_wait frames id
      end
  end.

Context (frames : nat).

(** Send one request and wait for its reply. *)
Definition request (type : msg_type) (payload : bytes) : CM (option pending) :=
  id ← next_request_id;
  ok ← pending_add id;
  if negb ok then mret None else
  sent ← conn_send type id payload;
  if negb sent then pending_remove id;; mret None else
  p ← pending_wait frames id;
  pending_remove id;;
  mret p.

(** [Some 0] is the return value 0, [Some st] is -1 with errno [|st|], [None]
    is -1 because the transport failed. *)
Definition request_status (type : msg_type) (payload : bytes) : CM (option Z) :=
  p ← request type payload; mret (p_status <$> p).

(** * Barriers *)

(** The barrier reply: status, error count, first path, six verification
    counters, drain totals, and whether decoding failed. *)
Record barrier_resp := BarrierResp {
  br_status : Z; br_err_count : Z; br_first : bytes; br_counts : list Z;
  br_drain_bytes : Z; br_drain_ns : Z; br_error : bool }.

(** [for (i = 0; i < 6 && !d.error; i++)]: what is not read stays 0. *)
Fixpoint decode_counts (n : nat) (d : pdec) : list Z * pdec :=
  match n with
  | O => ([], d)
  | S n =>
      if pd_error d then (replicate (S n) 0, d) else
      let '(v, d) := pdec_u64 d in
      let '(l, d) := decode_counts n d in (v :: l, d)
  end.

Definition decode_barrier (resp : bytes) : barrier_resp :=
  let '(status, d) := pdec_u32 (pdec_init resp) in
  let '(err_count, d) := pdec_u32 d in
  let '(first, d) := pdec_str PATH_MAX d in
  let '(counts, d) := decode_counts 6 d in
  let '(drain_bytes, d) := pdec_u64 d in
  let '(drain_ns, d) := pdec_u64 d in
  BarrierResp (i32 status) err_count (match first with Some p => cstr p | None => [] end)
    counts drain_bytes drain_ns (pd_error d).

(** [verify_counts[i] >= c->verify_counts[i] ? difference : 0] *)
Definition count_deltas (new old : list Z) : list Z :=
  zip_with (fun n o => if decide (o <= n) then n - o else 0) new old.

(** What a reply does to the connection; the deltas go to the statistics. *)
Definition barrier_apply (b : barrier_resp) (c : conn) : list Z * conn :=
  if br_error b then ([0; 0; 0; 0; 0; 0], c)
  else (count_deltas (br_counts b) (c_verify_counts c),
        set_c_last_drain_ns (br_drain_ns b) (set_c_last_drain_bytes (br_drain_bytes b)
          (set_c_verify_counts (br_counts b) c))).

(** The diagnostic, without strerror's text. *)
Definition remote_error_line (b : barrier_resp) : bytes :=
  str "ecopy: remote reported " ++ dec (br_err_count b) ++ str " error(s); first: " ++
  (if decide (br_first b = []) then str "(unknown)" else br_first b).

(** Result, and the reply when there was one. *)
Definition barrier_conn_locked (flush : bool) : CM (bool * option (barrier_resp * list Z)) :=
  p ← request MSG_BARRIER (pe_buf (penc_u8 (penc_init 1) (b2z flush)));
  match p with
  | None => mret (false, None)
  | Some p =>
      let b := decode_barrier (p_resp p) in
      deltas ← state (barrier_apply b);
      failed ← gets c_remote_failed;
      if decide (0 < br_err_count b) then
        when (negb failed) (call (eprintf (remote_error_line b)));;
        modify (set_c_remote_failed true);;
        mret (false, Some (b, deltas))
      else mret (true, Some (b, deltas))
  end.

(** ** On the pool *)

Definition on_conn {A} (i : nat) (m : CM A) : PM A := fun p =>
  match p_conns p !! i with
  | None => Stuck
  | Some c => prog_bind (fun '(a, c') => Ret (a, set_p_conns (<[i := c']> (p_conns p)) p)) (m c)
  end.

Definition publish_remote_drain (p : pool) : pool :=
  set_p_remote_drain
    (foldl (fun a c => u64 (a + c_last_drain_bytes c)) 0 (p_conns p),
     foldl (fun a c => u64 (a + c_last_drain_ns c)) 0 (p_conns p)) p.

Definition stats_record_verify_categories (deltas : list Z) (p : pool) : pool :=
  set_p_verify_stats (zip_with (fun a d => u64 (a + d)) (p_verify_stats p) deltas) p.

(** The statistics of one barrier reply. *)
Definition barrier_publish (r : option (barrier_resp * list Z)) : PM unit :=
  match r with
  | None => mret tt
  | Some (b, deltas) =>
      when (negb (br_error b)) (modify publish_remote_drain);;
      modify (stats_record_verify_categories deltas)
  end.

Definition barrier_conn (i : nat) (flush : bool) : PM bool :=
  '(ok, r) ← on_conn i (barrier_conn_locked flush);
  barrier_publish r;;
  mret ok.

(** The counter first; the barrier when the threshold is reached. *)
Definition maybe_periodic_barrier (i : nat) : PM unit :=
  due ← on_conn i (state (fun c =>
    let n := u64 (c_ops_since_barrier c + 1) in
    if decide (n < c_barrier_ops c) then (false, set_c_ops_since_barrier n c)
    else (true, set_c_ops_since_barrier 0 c)));
  if due : bool then _ ← barrier_conn i false; mret tt else mret tt.

Fixpoint barrier_loop (todo : list nat) (flush : bool) : PM bool :=
  match todo with
  | [] => mret true
  | i :: todo => ok ← barrier_conn i flush; rest ← barrier_loop todo flush; mret (ok && rest)
  end.
Definition sshx_barrier_all (flush : bool) : PM bool :=
  n ← gets (fun p => length (p_conns p)); barrier_loop (seq 0 n) flush.

Definition sshx_flush : PM bool :=
  ok ← sshx_barrier_all true;
  bad ← gets (fun p => existsb c_remote_failed (p_conns p));
  mret (ok && negb bad).

(** * Bindings *)

(** [t_conn ? t_conn : &g_conns[0]] *)
Definition cur_conn : PM nat := gets (fun p => default 0%nat (p_conn p)).

(** [n] is [g_nconns]. *)
Definition bind_index (n verify_base nverify idx : Z) : option nat :=
  if decide (n <= 0) then None else
  let span := if decide (0 < nverify) then verify_base else n in
  Some (Z.to_nat (u32 idx mod u32 span)).
Definition bind_index_verify (n verify_base nverify idx : Z) : option nat :=
  if decide (n <= 0) then None else
  Some (Z.to_nat (if decide (0 < nverify) then verify_base + u32 idx mod u32 nverify
                  else u32 idx mod u32 n)).
Definition sshx_bind_thread (idx : Z) : PM unit :=
  modify (fun p => set_p_conn (bind_index (zlen (p_conns p)) (p_verify_base p) (p_nverify p) idx) p).
Definition sshx_bind_thread_verify (idx : Z) : PM unit :=
  modify (fun p => set_p_conn (bind_index_verify (zlen (p_conns p)) (p_verify_base p) (p_nverify p) idx) p).

Definition sshx_request_verify_connections (nverify : Z) (p : pool) : pool :=
  let n := if decide (nverify < 0) then 0 else nverify in
  set_p_verify_want (if decide (16 < n) then 16 else n) p.

(** * Payloads *)

Definition encode_meta (e : penc) (st : stat) : penc :=
  let e := penc_u32 e (u32 (st_uid st)) in
  let e := penc_u32 e (u32 (st_gid st)) in
  let e := penc_u32 e (u32 (st_mode st &. o07777)) in
  let e := penc_i64 e (tv_sec (st_atim st)) in
  let e := penc_i64 e (tv_nsec (st_atim st)) in
  let e := penc_i64 e (tv_sec (st_mtim st)) in
  penc_i64 e (tv_nsec (st_mtim st)).

Definition mkdir_request (path : bytes) (mode : Z) : penc :=
  penc_u32 (penc_str (penc_init (PATH_MAX + 16)) path) (u32 mode).

Definition setmeta_request (path : bytes) (st : stat) (is_dir : bool) : penc :=
  penc_u8 (encode_meta (penc_str (penc_init (PATH_MAX + 64)) path) st) (b2z is_dir).

Definition symlink_request (link_path target : bytes) (st : stat) : penc :=
  let e := penc_str (penc_str (penc_init (2 * PATH_MAX + 64)) target) link_path in
  let e := penc_u32 (penc_u32 e (u32 (st_uid st))) (u32 (st_gid st)) in
  let e := penc_i64 (penc_i64 e (tv_sec (st_atim st))) (tv_nsec (st_atim st)) in
  penc_i64 (penc_i64 e (tv_sec (st_mtim st))) (tv_nsec (st_mtim st)).

Definition link_request (primary_path link_path : bytes) : penc :=
  penc_str (penc_str (penc_init (2 * PATH_MAX + 16)) primary_path) link_path.

(** The head of PUTFILE; the data follows it in the frame. *)
Definition putfile_head (final_path : bytes) (st : stat) (parent_mode : Z) (inplace : bool) : penc :=
  let e := penc_u32 (penc_init (PATH_MAX + 64)) (u32 (st_mode st &. o07777)) in
  let e := penc_u32 (penc_u32 e (u32 (st_uid st))) (u32 (st_gid st)) in
  let e := penc_i64 (penc_i64 e (tv_sec (st_atim st))) (tv_nsec (st_atim st)) in
  let e := penc_i64 (penc_i64 e (tv_sec (st_mtim st))) (tv_nsec (st_mtim st)) in
  let e := penc_u32 e (if inplace then ECOPY_OPEN_INPLACE else 0) in
  penc_str (penc_u32 e (u32 (parent_mode &. o07777))) final_path.

Definition encode_digest (e : penc) (d : sample) : penc :=
  penc_bytes (penc_u8 (penc_u32 (penc_i64 e (sm_offset d)) (sm_length d)) (sm_flags d)) (sm_digest d).

(** [check_times] is [verify_metadata_enabled() && copy_policy_preserve_times()],
    [sequential] is [verify_percent() >= 100]. *)
Definition verify_flags (is_dir check_metadata check_times sequential : bool) : Z :=
  (if is_dir then ECOPY_VERIFY_DIRECTORY else 0) |. (if check_metadata then ECOPY_VERIFY_METADATA else 0)
  |. (if check_times then ECOPY_VERIFY_PRESERVE_TIME else 0) |. (if sequential then ECOPY_VERIFY_SEQUENTIAL else 0).

Definition verify_request (path : bytes) (st : stat) (digests : list sample) (flags : Z) : penc :=
  let cap := zlen path + 128 + zlen digests * (8 + 4 + 1 + VERIFY_DIGEST_SIZE) in
  let e := encode_meta (penc_str (penc_init cap) path) st in
  let e := penc_u32 (penc_u8 (penc_i64 e (st_size st)) flags) (u32 (zlen digests)) in
  foldl encode_digest e digests.

Definition open_request (file_id : Z) (final_path : bytes) (mode parent_mode expected_size : Z)
    (sparse inplace : bool) : penc :=
  let e := penc_u64 (penc_init (PATH_MAX + 32)) file_id in
  let e := penc_i64 (penc_u32 e (u32 (mode &. o07777))) expected_size in
  let flags := (if sparse then ECOPY_OPEN_SPARSE else 0) |. (if inplace then ECOPY_OPEN_INPLACE else 0) in
  penc_str (penc_u32 (penc_u32 e flags) (u32 (parent_mode &. o07777))) final_path.

Definition ftruncate_request (file_id size : Z) : penc :=
  penc_i64 (penc_u64 (penc_init 16) file_id) size.
Definition commit_request (file_id : Z) (st : stat) : penc :=
  encode_meta (penc_u64 (penc_init 64) file_id) st.
Definition abort_request (file_id : Z) : penc := penc_u64 (penc_init 16) file_id.

Definition stat_bulk_request (base : bytes) (names : list bytes) : penc :=
  let cap := foldl (fun cap n => cap + zlen n + 4) (PATH_MAX + 16) names in
  let e := penc_u32 (penc_str (penc_init cap) base) (u32 (zlen names)) in
  foldl penc_str e names.

(** * Operations *)

(** Fire and forget: [Err ENAMETOOLONG] when the request does not fit,
    [Err 0] when the transport failed. *)
Definition fire_op (type : msg_type) (e : penc) : PM (res unit) :=
  i ← cur_conn;
  if pe_overflow e then mret (Err ENAMETOOLONG) else
  sent ← on_conn i (id ← next_request_id; conn_send type id (pe_buf e));
  if negb sent then mret (Err 0) else
  maybe_periodic_barrier i;; mret (Ok tt).

Definition sshx_mkdir (path : bytes) (mode : Z) : PM (res unit) := fire_op MSG_MKDIR (mkdir_request path mode).
Definition sshx_setmeta (path : bytes) (st : stat) (is_dir : bool) : PM (res unit) :=
  fire_op MSG_SETMETA (setmeta_request path st is_dir).
Definition sshx_symlink (link_path target : bytes) (st : stat) : PM (res unit) :=
  fire_op MSG_SYMLINK (symlink_request link_path target st).
Definition sshx_link (primary_path link_path : bytes) : PM (res unit) :=
  fire_op MSG_LINK (link_request primary_path link_path).

Definition sshx_putfile (final_path : bytes) (st : stat) (parent_mode : Z) (data : bytes) (inplace : bool) : PM (res unit) :=
  i ← cur_conn;
  let e := putfile_head final_path st parent_mode inplace in
  if pe_overflow e then mret (Err ENAMETOOLONG) else
  sent ← on_conn i (id ← next_request_id; fd ← gets c_in_fd;
                    ok ← lift (frame_write_parts eintr fd (msg_code MSG_PUTFILE) id (pe_buf e) data);
                    when (negb ok) conn_mark_failed;; mret ok);
  if negb sent then mret (Err 0) else
  maybe_periodic_barrier i;; mret (Ok tt).

Definition E2BIG : Z := 7.

Definition sshx_active (p : pool) : bool :=
  match p_conns p with c :: _ => c_active c | [] => false end.

Definition sshx_verify_batch (path : bytes) (st : stat) (digests : list sample) (flags : Z) : PM (res unit) :=
  i ← cur_conn;
  active ← gets sshx_active;
  if negb active || bool_decide (VERIFY_BATCH_MAX < zlen digests) then mret (Err EINVAL) else
  let e := verify_request path st digests flags in
  if decide (ECOPY_MAX_FRAME < pe_cap e) then mret (Err E2BIG) else
  ok ← call (malloc (pe_cap e));
  if negb ok then mret (Err 0) else
  if pe_overflow e then mret (Err 0) else
  sent ← on_conn i (id ← next_request_id; conn_send MSG_VERIFY_PATH id (pe_buf e));
  mret (if sent : bool then Ok tt else Err 0).

(** One entry of a STAT_BULK reply; [None] is "not present". *)
Definition decode_stat_entry : D (option (Z * Z * timespec)) :=
  pr ← pdec_u8; mode ← pdec_u32; size ← pdec_i64; mt_s ← pdec_i64; mt_ns ← pdec_i64;
  mret (if decide (pr = 0) then None else Some (mode, size, Timespec mt_s mt_ns)).

Fixpoint decode_stat_entries (n : nat) : D (list (option (Z * Z * timespec))) :=
  match n with
  | O => mret []
  | S n => x ← decode_stat_entry; l ← decode_stat_entries n; mret (x :: l)
  end.

(** [n] entries, or [None] when the reply is for another number of names or
    is cut. *)
Definition decode_stat_bulk (n : nat) (resp : bytes) : option (list (option (Z * Z * timespec))) :=
  let '(cnt, d) := pdec_u32 (pdec_init resp) in
  if decide (i32 cnt <> Z.of_nat n) then None else
  let '(l, d) := decode_stat_entries n d in
  if pd_error d then None else Some l.

Definition sshx_stat_bulk (base : bytes) (names : list bytes) : PM (option (list (option (Z * Z * timespec)))) :=
  i ← cur_conn;
  let e := stat_bulk_request base names in
  ok ← call (malloc (pe_cap e));
  if negb ok then mret None else
  if pe_overflow e then mret None else
  p ← on_conn i (request MSG_STAT_BULK (pe_buf e));
  mret (match p with Some p => decode_stat_bulk (length names) (p_resp p) | None => None end).

(** ** Streamed files *)

Record sshx_file := SshxFile { sf_conn : nat; sf_file_id : Z; sf_final_path : bytes; sf_failed : bool }.

Definition sshx_file_begin (final_path : bytes) (mode parent_mode expected_size : Z) (sparse inplace : bool) :
    PM (option sshx_file) :=
  i ← cur_conn;
  ok ← call (malloc 4128);
  if negb ok then mret None else
  fid ← on_conn i next_file_id;
  let e := open_request fid final_path mode parent_mode expected_size sparse inplace in
  if pe_overflow e then mret None else
  sent ← on_conn i (id ← next_request_id; conn_send MSG_OPEN id (pe_buf e));
  mret (if sent : bool then Some (SshxFile i fid (snprintf_s PATH_MAX final_path) false) else None).

(** The handle is threaded: a failed write marks it. *)
Definition sshx_file_write (f : sshx_file) (data : bytes) (offset : Z) : PM (bool * sshx_file) :=
  if sf_failed f then mret (false, f) else
  sent ← on_conn (sf_conn f) (id ← next_request_id; fd ← gets c_in_fd;
           ok ← lift (frame_write_data eintr fd id (sf_file_id f) offset data);
           when (negb ok) conn_mark_failed;; mret ok);
  mret (sent, SshxFile (sf_conn f) (sf_file_id f) (sf_final_path f) (negb sent)).

Definition sshx_file_ftruncate (f : sshx_file) (size : Z) : PM (bool * sshx_file) :=
  if sf_failed f then mret (false, f) else
  sent ← on_conn (sf_conn f) (id ← next_request_id;
           conn_send MSG_FTRUNCATE id (pe_buf (ftruncate_request (sf_file_id f) size)));
  mret (sent, SshxFile (sf_conn f) (sf_file_id f) (sf_final_path f) (negb sent)).

Definition sshx_file_abort (f : sshx_file) : PM unit :=
  _ ← on_conn (sf_conn f) (id ← next_request_id;
        conn_send MSG_ABORT id (pe_buf (abort_request (sf_file_id f))));
  mret tt.

(** As [request_status]. *)
Definition sshx_file_commit (f : sshx_file) (st : stat) : PM (option Z) :=
  if sf_failed f then sshx_file_abort f;; mret None else
  on_conn (sf_conn f) (request_status MSG_COMMIT (pe_buf (commit_request (sf_file_id f) st))).

(** * Handshake *)

Definition hello_request (lname path : bytes) (want_threads options : Z) : penc :=
  let e := penc_u32 (penc_u32 (penc_init 1024) ECOPY_PROTO_VERSION) (ECOPY_CAP_FALLOCATE |. ECOPY_CAP_SPARSE) in
  penc_u32 (penc_u32 (penc_str (penc_str e lname) path) (u32 want_threads)) options.

(** The default of 16 apply threads, at most 256. *)
Definition hello_threads (env : option bytes) : Z :=
  let v := match env with None | Some [] => 0 | Some s => st_val (strtol s) end in
  let v := if decide (v <= 0) then 16 else v in
  if decide (256 < v) then 256 else v.

Definition hello_opts (preserve_times : bool) (direct_env : option bytes) : Z :=
  (if preserve_times then ECOPY_OPT_PRESERVE_TIMES else 0)
  |. (match direct_env with Some (x30 :: _) => ECOPY_OPT_SERVER_BUFFERED | _ => 0 end).

(** Version, capabilities, root and root-present flag of a HELLO_OK; [None]
    warrants a bootstrap attempt. *)
Definition decode_hello_ok (payload : bytes) : option (Z * bytes * bool) :=
  let '(sver, d) := pdec_u32 (pdec_init payload) in
  let '(scaps, d) := pdec_u32 d in
  let '(sname, d) := pdec_str 128 d in
  match sname with
  | None => None
  | Some _ =>
      let '(sroot, d) := pdec_str PATH_MAX d in
      match sroot with
      | None => None
      | Some sroot =>
          if pd_error d then None else
          if decide (sver <> ECOPY_PROTO_VERSION) then None else
          let '(present, d) := pdec_u8 d in
          Some (scaps, cstr sroot, negb (pd_error d) && negb (present =? 0))
      end
  end.

Definition hello_apply (r : Z * bytes * bool) (c : conn) : conn :=
  let '(caps, root, present) := r in
  set_c_remote_root (snprintf_s PATH_MAX root) (set_c_remote_root_present present (set_c_caps caps c)).

(** [Drain]: read and drop the rest of a reply, 1024 bytes at a time. *)
Fixpoint drain_reply (fuel : nat) (fd left : Z) : prog posix unit :=
  if decide (left <= 0) then Ret tt else
  match fuel with
  | O => Stuck
  | S fuel =>
      let cc := if decide (1024 < left) then 1024 else left in
      r ← io_read_all eintr fd (Z.to_nat cc);
      match r with None => Ret tt | Some _ => drain_reply fuel fd (left - cc) end
  end.

Inductive handshake_result := HsOk | HsRetry | HsFatal.

Definition handshake (path : bytes) (preserve_times : bool) : CM handshake_result :=
  u ← call uname;
  let lname := match u with
               | Ok (sysname, machine) => snprintf_s 160 (sysname ++ str " " ++ machine)
               | Err _ => str "unknown unknown"
               end in
  threads ← call (getenv (str "DIRECT_COPY_SSH_SERVER_THREADS"));
  direct ← call (getenv (str "DIRECT_COPY_SSH_SERVER_DIRECT_IO"));
  let e := hello_request lname path (hello_threads threads) (hello_opts preserve_times direct) in
  if pe_overflow e then mret HsFatal else
  fd_in ← gets c_in_fd; fd_out ← gets c_out_fd;
  sent ← lift (frame_write eintr fd_in (msg_code MSG_HELLO) 1 (pe_buf e));
  if negb sent then mret HsRetry else
  hdr ← lift (frame_read_header eintr fd_out);
  match hdr with
  | None => mret HsRetry
  | Some (type, _, plen) =>
      if decide (type <> msg_code MSG_HELLO_OK \/ 1024 < plen)
      then lift (drain_reply (Z.to_nat (plen / 1024 + 1)) fd_out plen);; mret HsRetry else
      payload ← lift (io_read_all eintr fd_out (Z.to_nat plen));
      match payload with
      | None => mret HsRetry
      | Some payload =>
          match decode_hello_ok payload with
          | None => mret HsRetry
          | Some r => modify (hello_apply r);; mret HsOk
          end
      end
  end.

(** * Connecting *)

Definition want_connections (env : option bytes) : Z :=
  let v := match env with None | Some [] => 0 | Some s => st_val (strtol s) end in
  let v := if decide (v <= 0) then 4 else v in
  let v := if decide (v < 1) then 1 else v in
  if decide (16 < v) then 16 else v.
Definition barrier_ops_of (env : option bytes) : Z :=
  let v := match env with None | Some [] => 0 | Some s => st_val (strtol s) end in
  let v := if decide (v < 256) then 8192 else v in
  if decide (1000000 < v) then 1000000 else v.

(** At most [n] attempts from number [k] on, up to the first failure: the
    connections that came up and the number of the next attempt. *)
Fixpoint establish (attempt : nat -> option conn) (k n : nat) : list conn * nat :=
  match n with
  | O => ([], k)
  | S n => match attempt k with
           | Some c => let '(l, k) := establish attempt (S k) n in (c :: l, k)
           | None => ([], S k)
           end
  end.

(** The pool after [sshx_connect]; [None] when the master did not come up.
    [attempt k] is what the [k]-th [connect_one] produced, and
    [barrier_ops_of] the threshold it gave the connection. *)
Definition sshx_connect (attempt : nat -> option conn) (conn_env : option bytes) (p : pool) : option pool :=
  let want := Z.to_nat (want_connections conn_env) in
  match attempt 0%nat with
  | None => None
  | Some master =>
      let '(more, k) := establish attempt 1 (want - 1) in
      let copy := master :: more in
      let verify := (establish attempt k (Z.to_nat (p_verify_want p))).1 in
      Some (set_p_nverify (zlen verify) (set_p_verify_base (zlen copy) (set_p_conns (copy ++ verify) p)))
  end.

(** [pthread_join] of the receiver: it runs on until it ends. *)
Fixpoint rx_join (frames : nat) : CM unit :=
  match frames with
  | O => stuck
  | S frames => more ← rx_step; if more : bool then rx_join frames else mret tt
  end.

(** The receiver of an active connection has been started; the child is
    reaped by the caller's environment. *)
Definition disconnect_one : CM unit :=
  active ← gets c_active;
  if negb active then mret tt else
  id ← next_request_id;
  _ ← conn_send MSG_BYE id [];
  fd ← gets c_in_fd;
  when (bool_decide (0 <= fd)) (call (close fd);; modify (set_c_in_fd (-1)));;
  rx_join frames;;
  fd ← gets c_out_fd;
  when (bool_decide (0 <= fd)) (call (close fd);; modify (set_c_out_fd (-1)));;
  modify (set_c_active false).

Fixpoint disconnect_loop (todo : list nat) : PM unit :=
  match todo with
  | [] => mret tt
  | i :: todo => on_conn i disconnect_one;; disconnect_loop todo
  end.

(** [mux_exit], which runs [ssh -O exit], is left out. *)
Definition sshx_disconnect : PM unit :=
  n ← gets (fun p => length (p_conns p));
  if decide (n = 0%nat) then mret tt else
  disconnect_loop (seq 0 n);;
  modify (fun p => set_p_conns [] (set_p_nverify 0 (set_p_verify_base 0 (set_p_verify_want 0 (set_p_conn None p))))).
End client.

(** * Targets *)

Record ssh_target := SshTarget { t_user : bytes; t_host : bytes; t_port : Z; t_path : bytes }.

Definition COLON : byte := x3a.
Definition AT : byte := x40.

Definition ssh_target_is_url (s : bytes) : bool := bool_decide (take 6 s = str "ssh://").

(** What precedes and follows the first occurrence ([strchr]). *)
Fixpoint split_first (b : byte) (s : bytes) : option (bytes * bytes) :=
  match s with
  | [] => None
  | x :: s => if decide (x = b) then Some ([], s)
              else match split_first b s with Some (u, v) => Some (x :: u, v) | None => None end
  end.
(** ... the last occurrence ([strrchr]). *)
Fixpoint split_last (b : byte) (s : bytes) : option (bytes * bytes) :=
  match s with
  | [] => None
  | x :: s => match split_last b s with
              | Some (u, v) => Some (x :: u, v)
              | None => if decide (x = b) then Some ([], s) else None
              end
  end.

(** Buffer sizes of ssh_target_t and of the local authority. *)
Definition USER_SZ : Z := 256.
Definition HOST_SZ : Z := 256.

Definition ssh_target_parse (s : bytes) : option ssh_target :=
  if negb (ssh_target_is_url s) then None else
  match split_first SLASH (drop 6 s) with
  | None => None
  | Some (authority, rest) =>
      if decide (zlen authority = 0 \/ 512 <= zlen authority) then None else
      let path := SLASH :: rest in
      if decide (PATH_MAX <= zlen path) then None else
      let '(user, hostpart) := match split_first AT authority with
                               | Some (u, h) => (u, h)
                               | None => ([], authority)
                               end in
      if decide (USER_SZ <= zlen user) then None else
      match (match split_last COLON hostpart with
             | None => Some (hostpart, 0)
             | Some (h, digits) =>
                 let r := strtol digits in
                 if decide (st_end r <> [] \/ st_val r <= 0 \/ 65535 < st_val r) then None
                 else Some (h, st_val r)
             end) with
      | None => None
      | Some (host, port) =>
          if decide (host = []) then None else
          if decide (HOST_SZ <= zlen host) then None else
          Some (SshTarget user host port path)
      end
  end.

(** * Quoting *)

Definition QUOTE : byte := x27.
Definition BSLASH : byte := x5c.

(** [o] is the number of bytes written so far; every branch checks that the
    buffer still has room. *)
Fixpoint squote_loop (s out : bytes) (outsz : Z) : option bytes :=
  match s with
  | [] => Some out
  | b :: s =>
      if decide (b = QUOTE) then
        if decide (outsz <= zlen out + 4) then None
        else squote_loop s (out ++ [QUOTE; BSLASH; QUOTE; QUOTE]) outsz
      else
        if decide (outsz <= zlen out + 1) then None
        else squote_loop s (out ++ [b]) outsz
  end.
Definition shell_squote (s : bytes) (outsz : Z) : option bytes :=
  if decide (outsz <= 1) then None else
  match squote_loop s [QUOTE] outsz with
  | None => None
  | Some out => if decide (outsz < zlen out + 2) then None else Some (out ++ [QUOTE])
  end.

Definition build_server_command (remote_bin path : bytes) (read_only : bool) (outsz : Z) : option bytes :=
  match shell_squote path (PATH_MAX + 16) with
  | None => None
  | Some qpath =>
      let cmd := remote_bin ++ str " " ++ str (if read_only then "--server-readonly" else "--server") ++ str " " ++ qpath in
      if decide (outsz <= zlen cmd) then None else Some cmd
  end.
