(* ===== verification/SshWire.v ===== *)
(** Client and server agree on the wire: every request the client builds is
    decoded by the server's handler to the values the client meant, and every
    aggregate reply of the server is decoded by the client likewise. *)

From S2P Require Export SshTransport.

(** * Building requests *)


Lemma zlen_u32_bytes v : zlen (u32_bytes v) = 4.
Proof. unfold zlen. by rewrite u32_bytes_length. Qed.
Lemma zlen_u64_bytes v : zlen (u64_bytes v) = 8.
Proof. unfold zlen. by rewrite u64_bytes_length. Qed.
Lemma zlen_str_bytes s : zlen (str_bytes s) = 4 + zlen s.
Proof. unfold str_bytes. by rewrite zlen_app, zlen_u32_bytes. Qed.
#[local] Opaque u32_bytes u64_bytes str_bytes.
#[export] Hint Rewrite zlen_u32_bytes zlen_u64_bytes zlen_str_bytes : ecopy.

Lemma fits_u8 cap buf ov v : zlen buf + 1 <= cap -> penc_u8 (Penc cap buf ov) v = Penc cap (buf ++ [byte.of_Z v]) ov.
Proof. intros. by apply emits_u8. Qed.
Lemma fits_u32 cap buf ov v : zlen buf + 4 <= cap -> penc_u32 (Penc cap buf ov) v = Penc cap (buf ++ u32_bytes v) ov.
Proof. intros. apply emits_u32. by rewrite zlen_u32_bytes. Qed.
Lemma fits_u64 cap buf ov v : zlen buf + 8 <= cap -> penc_u64 (Penc cap buf ov) v = Penc cap (buf ++ u64_bytes v) ov.
Proof. intros. apply emits_u64. by rewrite zlen_u64_bytes. Qed.
Lemma fits_i64 cap buf ov v :
  zlen buf + 8 <= cap -> penc_i64 (Penc cap buf ov) v = Penc cap (buf ++ u64_bytes (u64 v)) ov.
Proof. intros. by apply fits_u64. Qed.
Lemma fits_str cap buf ov s :
  zlen s < 2 ^ 32 -> zlen buf + (4 + zlen s) <= cap -> penc_str (Penc cap buf ov) s = Penc cap (buf ++ str_bytes s) ov.
Proof. intros. apply emits_str; [done|]. by rewrite zlen_str_bytes. Qed.

(** [enc] runs an encoder that has room; sizes are discharged by [lia]. *)
Ltac enc_lia := unfold PATH_MAX in *; autorewrite with ecopy; lia.
Ltac enc :=
  repeat first
    [ rewrite fits_str by enc_lia | rewrite fits_u32 by enc_lia | rewrite fits_i64 by enc_lia
    | rewrite fits_u64 by enc_lia | rewrite fits_u8 by enc_lia ].

(** * Decoding them *)

Lemma reads_init {A} (c : D A) w a rest :
  reads c w a -> c (pdec_init (w ++ rest)) = (a, Pdec (w ++ rest) (length w) false).
Proof. intros H. apply (H [] rest). Qed.

Lemma u32_u32 v : u32 (u32 v) = u32 v.
Proof. apply u32_small, u32_range. Qed.

(** As [reads_u32] for a value in range. *)
Lemma reads_u32' v : is_u32 v -> reads pdec_u32 (u32_bytes v) v.
Proof. intros H. rewrite <- (u32_small v H) at 2. apply reads_u32. Qed.
Lemma reads_u64' v : is_u64 v -> reads pdec_u64 (u64_bytes v) v.
Proof. intros H. rewrite <- (u64_small v H) at 2. apply reads_u64. Qed.
Lemma reads_u8' v : is_u8 v -> reads pdec_u8 [byte.of_Z v] v.
Proof. intros H. rewrite <- (u8_small v H) at 2. apply reads_u8. Qed.

Lemma reads_fmap {A B} (c : D A) (f : A -> B) w a : reads c w a -> reads (x ← c; mret (f x)) w (f a).
Proof. intros H. rewrite <- (app_nil_r w). by eapply reads_bind, reads_ret. Qed.

(** A path the protocol can carry. *)
Definition path_ok (p : bytes) : Prop := zlen p < PATH_MAX /\ is_cstr p.
Lemma reads_path p : path_ok p -> reads (pdec_str PATH_MAX) (str_bytes p) (Some p).
Proof. intros [H _]. apply reads_str; [done|]. unfold PATH_MAX in *. lia. Qed.
Lemma path_ok_cstr p : path_ok p -> cstr p = p.
Proof. intros [_ H]. by apply cstr_id. Qed.

(** A stat as the kernel delivers it. *)
Record stat_ok (st : stat) : Prop := StatOk {
  so_uid : is_u32 (st_uid st); so_gid : is_u32 (st_gid st); so_mode : is_u32 (st_mode st);
  so_size : is_i64 (st_size st);
  so_asec : is_i64 (tv_sec (st_atim st)); so_ansec : is_i64 (tv_nsec (st_atim st));
  so_msec : is_i64 (tv_sec (st_mtim st)); so_mnsec : is_i64 (tv_nsec (st_mtim st)) }.

(** The metadata the server is to apply. *)
Definition meta_of (st : stat) : meta :=
  Meta (st_uid st) (st_gid st) (st_mode st &. o07777) (st_atim st) (st_mtim st).

Lemma mode_bits_u32 m : 0 <= m -> is_u32 (m &. o07777).
Proof.
  intros Hm. split; [apply Z.land_nonneg; by left|].
  assert (m &. o07777 = m mod 2 ^ 12) as -> by (apply (Z.land_ones m 12); lia).
  pose proof (Z.mod_pos_bound m (2 ^ 12)). lia.
Qed.

Definition time_bytes (t : timespec) : bytes := u64_bytes (u64 (tv_sec t)) ++ u64_bytes (u64 (tv_nsec t)).
Definition meta_bytes (m : meta) : bytes :=
  u32_bytes (mt_uid m) ++ u32_bytes (mt_gid m) ++ u32_bytes (mt_mode m) ++
  u64_bytes (u64 (tv_sec (mt_at m))) ++ u64_bytes (u64 (tv_nsec (mt_at m))) ++
  u64_bytes (u64 (tv_sec (mt_mt m))) ++ u64_bytes (u64 (tv_nsec (mt_mt m))).

Lemma zlen_meta_bytes m : zlen (meta_bytes m) = 44.
Proof. unfold meta_bytes. by autorewrite with ecopy. Qed.
#[export] Hint Rewrite zlen_meta_bytes : ecopy.

Lemma fits_meta cap buf ov st :
  stat_ok st -> zlen buf + 44 <= cap ->
  encode_meta (Penc cap buf ov) st = Penc cap (buf ++ meta_bytes (meta_of st)) ov.
Proof.
  intros [] Hc. unfold encode_meta. enc. f_equal. unfold meta_bytes, meta_of. simpl.
  rewrite !u32_small by (try done; apply mode_bits_u32; unfold is_u32 in *; lia).
  by rewrite <- !(assoc_L (++)).
Qed.

(** [rd] reads the next field of a decoder. *)
Ltac rd_side := first [done | unfold_ints; lia | auto with ecopy].
Ltac rd :=
  eapply reads_bind;
  [first [ apply reads_path; done | apply reads_u32'; rd_side | apply reads_i64; rd_side
         | apply reads_u64'; rd_side | apply reads_u8'; rd_side | apply reads_error ]|].

Lemma reads_meta st : stat_ok st -> reads decode_meta (meta_bytes (meta_of st)) (meta_of st).
Proof.
  intros []. assert (is_u32 (st_mode st &. o07777)) by (apply mode_bits_u32; unfold is_u32 in *; lia).
  unfold decode_meta, meta_bytes, meta_of. simpl. rewrite <- (app_nil_r (u64_bytes (u64 (tv_nsec (st_mtim st))))).
  do 7 rd. destruct st as [? ? ? ? ? ? ? ? [] [] ?]. apply reads_ret.
Qed.

(** * Requests *)

(** The wire form of each request. *)
Lemma mkdir_request_buf path mode :
  path_ok path -> mkdir_request path mode = Penc (PATH_MAX + 16) (str_bytes path ++ u32_bytes (u32 mode)) false.
Proof. intros [Hp _]. unfold mkdir_request, penc_init. pose proof (zlen_nonneg path). by enc. Qed.

Lemma setmeta_request_buf path st d :
  path_ok path -> stat_ok st ->
  setmeta_request path st d =
    Penc (PATH_MAX + 64) (str_bytes path ++ meta_bytes (meta_of st) ++ [byte.of_Z (b2z d)]) false.
Proof.
  intros [Hp _] Hst. unfold setmeta_request, penc_init. pose proof (zlen_nonneg path). enc.
  rewrite fits_meta by (done || enc_lia). enc. by rewrite <- !(assoc_L (++)).
Qed.

Lemma symlink_request_buf link target st :
  path_ok link -> path_ok target -> stat_ok st ->
  symlink_request link target st =
    Penc (2 * PATH_MAX + 64) (str_bytes target ++ str_bytes link ++ u32_bytes (st_uid st) ++ u32_bytes (st_gid st)
      ++ time_bytes (st_atim st) ++ time_bytes (st_mtim st)) false.
Proof.
  intros [Hp _] [Ht _] []. unfold symlink_request, penc_init, time_bytes.
  pose proof (zlen_nonneg link). pose proof (zlen_nonneg target). enc.
  by rewrite !u32_small, <- !(assoc_L (++)).
Qed.

Lemma link_request_buf p q :
  path_ok p -> path_ok q -> link_request p q = Penc (2 * PATH_MAX + 16) (str_bytes p ++ str_bytes q) false.
Proof.
  intros [Hp _] [Hq _]. unfold link_request, penc_init. pose proof (zlen_nonneg p). pose proof (zlen_nonneg q). by enc.
Qed.

(** Client and server agree on the fire-and-forget metadata
    requests: the frame of MKDIR, SETMETA, SYMLINK and LINK always fits its
    buffer, and the server's handler decodes exactly the paths, modes, owners
    and times the client was given (modes cut to their permission bits). *)
Theorem control_requests_agree path target mode st is_dir :
  path_ok path -> path_ok target -> is_u32 mode -> stat_ok st ->
  (pe_overflow (mkdir_request path mode) = false /\
   (decode_mkdir (pdec_init (pe_buf (mkdir_request path mode)))).1 = Some (path, mode)) /\
  (pe_overflow (setmeta_request path st is_dir) = false /\
   (decode_setmeta (pdec_init (pe_buf (setmeta_request path st is_dir)))).1 = Some (path, meta_of st, is_dir)) /\
  (pe_overflow (symlink_request path target st) = false /\
   (decode_symlink (pdec_init (pe_buf (symlink_request path target st)))).1 =
     Some (SymlinkReq target path (st_uid st) (st_gid st) (st_atim st) (st_mtim st))) /\
  (pe_overflow (link_request target path) = false /\
   (decode_link (pdec_init (pe_buf (link_request target path)))).1 = Some (target, path)).
Proof.
  intros Hp Ht Hm Hst.
  rewrite mkdir_request_buf, setmeta_request_buf, symlink_request_buf, link_request_buf by done.
  cbn [pe_overflow pe_buf]. split_and!; try done.
  - rewrite <- (app_nil_r (_ ++ _)), (reads_init _ _ (Some (path, mode))); [done|].
    unfold decode_mkdir. rewrite (u32_small mode) by done. rewrite <- (app_nil_r (u32_bytes mode)).
    rd. rd. rewrite <- (app_nil_r []). rd. rewrite (path_ok_cstr path) by done. apply reads_ret.
  - rewrite <- (app_nil_r (_ ++ _)), (reads_init _ _ (Some (path, meta_of st, is_dir))); [done|].
    unfold decode_setmeta. rd. eapply reads_bind; [by apply reads_meta|].
    rewrite <- (app_nil_r [_]). eapply (reads_bind _ _ _ _ (b2z is_dir)); [apply reads_u8'; by destruct is_dir|].
    rewrite <- (app_nil_r []). rd. rewrite (path_ok_cstr path) by done. destruct is_dir; apply reads_ret.
  - rewrite <- (app_nil_r (_ ++ _)), (reads_init _ _ (Some (SymlinkReq target path (st_uid st) (st_gid st) (st_atim st) (st_mtim st)))); [done|].
    unfold decode_symlink, time_bytes. destruct Hst. rewrite <- !(assoc_L (++)).
    rewrite <- (app_nil_r (u64_bytes (u64 (tv_nsec (st_mtim st))))). do 8 rd. rewrite <- (app_nil_r []). rd.
    rewrite !path_ok_cstr by done. destruct (st_atim st), (st_mtim st). apply reads_ret.
  - rewrite <- (app_nil_r (_ ++ _)), (reads_init _ _ (Some (target, path))); [done|].
    unfold decode_link. rewrite <- (app_nil_r (str_bytes path)). rd. rd. rewrite <- (app_nil_r []). rd.
    rewrite !path_ok_cstr by done. apply reads_ret.
Qed.

(** A stat for the examples. *)
Definition sample_stat : stat :=
  Stat 1 2 (S_IFREG |. 420) 1 1000 100 5 8 (Timespec 11 12) (Timespec 13 14) (Timespec 15 16).

Lemma sample_stat_ok : stat_ok sample_stat.
Proof. split; by vm_compute. Qed.
Lemma path_ok_dec p : zlen p < PATH_MAX -> cstr p = p -> path_ok p.
Proof. intros Hl Hc. split; [done|]. rewrite <- Hc. apply cstr_is_cstr. Qed.

Lemma control_requests_agree_witness :
  (decode_mkdir (pdec_init (pe_buf (mkdir_request (str "/srv/dst/a") 493)))).1 = Some (str "/srv/dst/a", 493).
Proof.
  apply (control_requests_agree (str "/srv/dst/a") (str "/srv/dst/b") 493 sample_stat true);
    [by apply path_ok_dec; vm_compute|by apply path_ok_dec; vm_compute|by vm_compute|apply sample_stat_ok].
Defined.

(** ** File contents *)

Definition put_head_bytes (final : bytes) (st : stat) (pm : Z) (inplace : bool) : bytes :=
  u32_bytes (st_mode st &. o07777) ++ u32_bytes (st_uid st) ++ u32_bytes (st_gid st) ++
  time_bytes (st_atim st) ++ time_bytes (st_mtim st) ++
  u32_bytes (if inplace then ECOPY_OPEN_INPLACE else 0) ++ u32_bytes (pm &. o07777) ++ str_bytes final.

Lemma putfile_head_buf final st pm inplace :
  path_ok final -> stat_ok st -> is_u32 pm ->
  putfile_head final st pm inplace = Penc (PATH_MAX + 64) (put_head_bytes final st pm inplace) false.
Proof.
  intros [Hp _] [] Hpm. unfold putfile_head, penc_init, put_head_bytes, time_bytes. pose proof (zlen_nonneg final). enc.
  rewrite !u32_small by (try done; apply mode_bits_u32; unfold is_u32 in *; lia). by rewrite <- !(assoc_L (++)).
Qed.

Lemma decode_putfile_buf final st pm inplace data :
  path_ok final -> stat_ok st -> is_u32 pm ->
  decode_putfile (put_head_bytes final st pm inplace ++ data) =
    Some (PutReq (meta_of st) (if inplace then ECOPY_OPEN_INPLACE else 0) (pm &. o07777) final data).
Proof.
  intros Hp Hst Hpm. unfold decode_putfile.
  rewrite (reads_init _ _ (meta_of st, (if inplace then ECOPY_OPEN_INPLACE else 0), pm &. o07777, Some final)).
  - cbn [pd_error pd_off]. rewrite (path_ok_cstr final) by done. by rewrite drop_app_length.
  - destruct Hst. unfold put_head_bytes, time_bytes, meta_of. rewrite <- !(assoc_L (++)).
    assert (is_u32 (st_mode st &. o07777)) by (apply mode_bits_u32; unfold is_u32 in *; lia).
    assert (is_u32 (pm &. o07777)) by (apply mode_bits_u32; unfold is_u32 in *; lia).
    rewrite <- (app_nil_r (str_bytes final)). do 7 rd.
    eapply (reads_bind _ _ _ _ (if inplace then ECOPY_OPEN_INPLACE else 0)); [apply reads_u32'; by destruct inplace|].
    do 2 rd. destruct (st_atim st), (st_mtim st). apply reads_ret.
Qed.

Definition open_flags (sparse inplace : bool) : Z :=
  (if sparse then ECOPY_OPEN_SPARSE else 0) |. (if inplace then ECOPY_OPEN_INPLACE else 0).

Lemma open_request_buf fid final mode pm ex sparse inplace :
  path_ok final -> is_u32 mode -> is_u32 pm ->
  open_request fid final mode pm ex sparse inplace =
    Penc (PATH_MAX + 32) (u64_bytes fid ++ u32_bytes (mode &. o07777) ++ u64_bytes (u64 ex) ++
      u32_bytes (open_flags sparse inplace) ++ u32_bytes (pm &. o07777) ++ str_bytes final) false.
Proof.
  intros [Hp _] Hm Hpm. unfold open_request, penc_init. pose proof (zlen_nonneg final). enc.
  rewrite !u32_small by (apply mode_bits_u32; unfold is_u32 in *; lia). by rewrite <- !(assoc_L (++)).
Qed.

Lemma commit_request_buf fid st :
  stat_ok st -> commit_request fid st = Penc 64 (u64_bytes fid ++ meta_bytes (meta_of st)) false.
Proof. intros Hst. unfold commit_request, penc_init. enc. by rewrite fits_meta by (done || enc_lia). Qed.

(** Client and server agree on file data: PUTFILE delivers the
    metadata, flags, path and the exact contents; OPEN, FTRUNCATE, COMMIT and
    ABORT carry the file id, size, flags and metadata unchanged. None of the
    requests overflows its buffer. *)
Theorem data_requests_agree final st pm mode fid size sparse inplace data :
  path_ok final -> stat_ok st -> is_u32 pm -> is_u32 mode -> is_u64 fid -> is_i64 size ->
  (pe_overflow (putfile_head final st pm inplace) = false /\
   decode_putfile (pe_buf (putfile_head final st pm inplace) ++ data) =
     Some (PutReq (meta_of st) (if inplace then ECOPY_OPEN_INPLACE else 0) (pm &. o07777) final data)) /\
  (pe_overflow (open_request fid final mode pm size sparse inplace) = false /\
   (decode_open (pdec_init (pe_buf (open_request fid final mode pm size sparse inplace)))).1 =
     Some (OpenReq fid (mode &. o07777) size (open_flags sparse inplace) (pm &. o07777) final)) /\
  (pe_overflow (commit_request fid st) = false /\
   (decode_commit (pdec_init (pe_buf (commit_request fid st)))).1 = (fid, meta_of st)) /\
  ((fid ← pdec_u64; sz ← pdec_i64; mret (fid, sz)) (pdec_init (pe_buf (ftruncate_request fid size)))).1 = (fid, size) /\
  (pdec_u64 (pdec_init (pe_buf (abort_request fid)))).1 = fid.
Proof.
  intros Hp Hst Hpm Hm Hf Hs.
  rewrite putfile_head_buf, open_request_buf, commit_request_buf by done. cbn [pe_overflow pe_buf].
  assert (is_u32 (mode &. o07777)) by (apply mode_bits_u32; unfold is_u32 in *; lia).
  assert (is_u32 (pm &. o07777)) by (apply mode_bits_u32; unfold is_u32 in *; lia).
  split_and!; try done.
  - by apply decode_putfile_buf.
  - rewrite <- (app_nil_r (_ ++ _)), (reads_init _ _ (Some (OpenReq fid (mode &. o07777) size
      (open_flags sparse inplace) (pm &. o07777) final))); [done|].
    unfold decode_open. rewrite <- (app_nil_r (str_bytes final)). do 3 rd.
    eapply (reads_bind _ _ _ _ (open_flags sparse inplace)); [apply reads_u32'; by destruct sparse, inplace|].
    do 2 rd. rewrite <- (app_nil_r []). rd. rewrite (path_ok_cstr final) by done. apply reads_ret.
  - rewrite <- (app_nil_r (_ ++ _)), (reads_init _ _ (fid, meta_of st)); [done|].
    unfold decode_commit. rd. apply reads_fmap. by apply reads_meta.
  - assert (pe_buf (ftruncate_request fid size) = u64_bytes fid ++ u64_bytes (u64 size)) as ->.
    { unfold ftruncate_request, penc_init. by enc. }
    rewrite <- (app_nil_r (_ ++ _)), (reads_init _ _ (fid, size)); [done|].
    rd. apply reads_fmap. by apply reads_i64.
  - assert (pe_buf (abort_request fid) = u64_bytes fid) as ->.
    { unfold abort_request, penc_init. by enc. }
    rewrite <- (app_nil_r (u64_bytes fid)), (reads_init _ _ fid); [done|]. by apply reads_u64'.
Qed.

Lemma data_requests_agree_witness :
  (decode_commit (pdec_init (pe_buf (commit_request 7 sample_stat)))).1 = (7, meta_of sample_stat) /\
  decode_putfile (pe_buf (putfile_head (str "/srv/dst/f") sample_stat 493 false) ++ str "data") =
    Some (PutReq (meta_of sample_stat) 0 493 (str "/srv/dst/f") (str "data")).
Proof.
  assert (Hp : path_ok (str "/srv/dst/f")) by (by apply path_ok_dec; vm_compute).
  destruct (data_requests_agree (str "/srv/dst/f") sample_stat 493 420 7 5 false false (str "data") Hp
    sample_stat_ok ltac:(by vm_compute) ltac:(by vm_compute) ltac:(by vm_compute) ltac:(by vm_compute))
    as ((_ & H1) & _ & (_ & H2) & _).
  by split.
Defined.

(** ** Verification batches *)

Definition sample_wf (d : sample) : Prop :=
  is_i64 (sm_offset d) /\ is_u32 (sm_length d) /\ is_u8 (sm_flags d) /\ length (sm_digest d) = 32%nat.

Definition sample_bytes (d : sample) : bytes :=
  u64_bytes (u64 (sm_offset d)) ++ u32_bytes (sm_length d) ++ [byte.of_Z (sm_flags d)] ++ sm_digest d.

Lemma zlen_sample_bytes d : sample_wf d -> zlen (sample_bytes d) = 45.
Proof.
  intros (_ & _ & _ & H). unfold sample_bytes. autorewrite with ecopy. unfold zlen. rewrite H. done.
Qed.

Lemma fits_bytes cap buf ov p : zlen buf + zlen p <= cap -> penc_bytes (Penc cap buf ov) p = Penc cap (buf ++ p) ov.
Proof. apply emits_bytes. Qed.

Lemma fits_digests ds cap buf ov :
  Forall sample_wf ds -> zlen buf + 45 * zlen ds <= cap ->
  foldl encode_digest (Penc cap buf ov) ds = Penc cap (buf ++ concat (sample_bytes <$> ds)) ov.
Proof.
  intros Hds. revert buf. induction Hds as [|d ds Hd Hds IH]; intros buf Hc; simpl; [by rewrite app_nil_r|].
  rewrite zlen_cons in Hc. pose proof (zlen_nonneg ds). pose proof (zlen_sample_bytes d Hd) as Hl.
  unfold encode_digest at 2. unfold sample_bytes in Hl. autorewrite with ecopy in Hl. enc.
  rewrite fits_bytes by (autorewrite with ecopy; lia).
  rewrite <- !(assoc_L (++)). change (_ ++ _ ++ [_] ++ sm_digest d) with (sample_bytes d).
  rewrite IH by (rewrite zlen_app, zlen_sample_bytes by done; lia). by rewrite <- (assoc_L (++)).
Qed.

(** The server's cursor after [n] samples. *)
Fixpoint decode_samples (n : nat) (d : pdec) : option (list sample) * pdec :=
  match n with
  | O => (Some [], d)
  | S n =>
      let '(s, d) := decode_sample d in
      match s with
      | None => (None, d)
      | Some s => let '(l, d) := decode_samples n d in (cons s <$> l, d)
      end
  end.

Lemma reads_sample d pre rest :
  sample_wf d ->
  decode_sample (Pdec (pre ++ sample_bytes d ++ rest) (length pre) false) =
    (Some d, Pdec (pre ++ sample_bytes d ++ rest) (length pre + length (sample_bytes d)) false).
Proof.
  intros (H1 & H2 & H3 & H4). unfold decode_sample.
  assert (Hr : reads (offset ← pdec_i64; length ← pdec_u32; flags ← pdec_u8;
      digest ← pdec_bytes (Z.to_nat VERIFY_DIGEST_SIZE); mret (offset, length, flags, digest))
    (sample_bytes d) (sm_offset d, sm_length d, sm_flags d, Some (sm_digest d))).
  { unfold sample_bytes. rewrite <- (app_nil_r (sm_digest d)) at 1. do 3 rd.
    eapply reads_bind; [|apply reads_ret].
    change (Z.to_nat VERIFY_DIGEST_SIZE) with 32%nat. rewrite <- H4. apply reads_bytes. }
  rewrite Hr. by destruct d.
Qed.

Lemma reads_samples ds pre rest :
  Forall sample_wf ds ->
  decode_samples (length ds) (Pdec (pre ++ concat (sample_bytes <$> ds) ++ rest) (length pre) false) =
    (Some ds, Pdec (pre ++ concat (sample_bytes <$> ds) ++ rest)
       (length pre + length (concat (sample_bytes <$> ds))) false).
Proof.
  intros Hds. revert pre. induction Hds as [|d ds Hd Hds IH]; intros pre;
    rewrite ?fmap_cons; cbn [length concat decode_samples]; [by rewrite Nat.add_0_r|].
  rewrite <- (assoc_L (++)). rewrite reads_sample by done.
  specialize (IH (pre ++ sample_bytes d)). rewrite <- !(assoc_L (++)), !length_app in IH. rewrite IH.
  simpl. by rewrite length_app, Nat.add_assoc.
Qed.

(** Client and server agree on verification batches: the request
    never overflows its computed buffer, the server's header decoder returns
    the path, metadata, size, flags and count, and reading [count] samples from
    there returns exactly the client's digests and ends at the end of the
    frame (so the server's malformed-batch check passes). *)
Theorem verify_request_agrees path st ds flags :
  path_ok path -> stat_ok st -> Forall sample_wf ds -> is_u8 flags -> zlen ds < 2 ^ 32 ->
  let e := verify_request path st ds flags in
  pe_overflow e = false /\
  exists d, decode_verify (pe_buf e) = Some (VerifyReq path (meta_of st) (st_size st) flags (zlen ds), d) /\
    (decode_samples (length ds) d).1 = Some ds /\
    let d' := (decode_samples (length ds) d).2 in pd_error d' = false /\ pd_off d' = pd_len d'.
Proof.
  intros Hp Hst Hds Hfl Hn e. pose proof (zlen_nonneg ds) as Hn0.
  set (hd := str_bytes path ++ meta_bytes (meta_of st) ++ u64_bytes (u64 (st_size st)) ++ [byte.of_Z flags] ++
             u32_bytes (zlen ds)).
  assert (He : e = Penc (zlen path + 128 + zlen ds * 45) (hd ++ concat (sample_bytes <$> ds)) false).
  { subst e. unfold verify_request, penc_init. destruct Hp as [Hp _]. pose proof (zlen_nonneg path).
    change (8 + 4 + 1 + VERIFY_DIGEST_SIZE) with 45. enc. rewrite fits_meta by (done || enc_lia). enc.
    rewrite fits_digests by (done || enc_lia). rewrite u32_small by (unfold is_u32; lia).
    subst hd. by rewrite <- !(assoc_L (++)). }
  rewrite He. cbn [pe_overflow pe_buf]. split; [done|].
  exists (Pdec (hd ++ concat (sample_bytes <$> ds)) (length hd) false).
  pose proof (reads_samples ds hd [] Hds) as Hs. rewrite app_nil_r in Hs. rewrite Hs. cbn [fst snd].
  split_and!; [|done|done|unfold pd_len; simpl; by rewrite length_app].
  unfold decode_verify. set (rest := concat _). subst hd. rewrite <- !(assoc_L (++)).
  rewrite (reads_init (pdec_str PATH_MAX) (str_bytes path) (Some path)) by (by apply reads_path).
  assert (Hr : reads (m ← decode_meta; size ← pdec_i64; flags ← pdec_u8; count ← pdec_u32; mret (m, size, flags, count))
    (meta_bytes (meta_of st) ++ u64_bytes (u64 (st_size st)) ++ [byte.of_Z flags] ++ u32_bytes (zlen ds))
    (meta_of st, st_size st, flags, zlen ds)).
  { eapply reads_bind; [by apply reads_meta|]. destruct Hst. rd. rd. apply reads_fmap. apply reads_u32'. unfold is_u32. lia. }
  specialize (Hr (str_bytes path) rest). rewrite <- !(assoc_L (++)) in Hr. rewrite Hr.
  rewrite (path_ok_cstr path) by done. by rewrite !length_app.
Qed.

Lemma verify_request_agrees_witness :
  let d := Sample 4096 4096 0 (replicate 32 x07) in
  exists c, decode_verify (pe_buf (verify_request (str "/srv/dst/f") sample_stat [d; d] 2)) =
    Some (VerifyReq (str "/srv/dst/f") (meta_of sample_stat) 5 2 2, c).
Proof.
  intros d. destruct (verify_request_agrees (str "/srv/dst/f") sample_stat [d; d] 2) as (_ & c & H & _);
    [by apply path_ok_dec; vm_compute|apply sample_stat_ok| |by vm_compute|by vm_compute|by exists c].
  repeat constructor; by vm_compute.
Defined.

(** * Replies *)

(** ** The barrier *)

(** The log as the server keeps it. *)
Record errlog_ok (l : errlog) : Prop := ErrlogOk {
  eo_count : is_u64 (g_err_count l); eo_first : is_i32 (g_err_first l); eo_path : path_ok (g_err_first_path l);
  eo_counts : Forall is_u64 [g_verify_metadata_mismatches l; g_verify_data_mismatches l;
    g_verify_zero_mismatches l; g_verify_io_failures l; g_verify_malformed_batches l; g_verify_ownership_unpreserved l] }.

Definition errlog_counts (l : errlog) : list Z :=
  [g_verify_metadata_mismatches l; g_verify_data_mismatches l; g_verify_zero_mismatches l;
   g_verify_io_failures l; g_verify_malformed_batches l; g_verify_ownership_unpreserved l].

Lemma reads_counts l pre rest :
  Forall is_u64 l ->
  decode_counts (length l) (Pdec (pre ++ concat (u64_bytes <$> l) ++ rest) (length pre) false) =
    (l, Pdec (pre ++ concat (u64_bytes <$> l) ++ rest) (length pre + length (concat (u64_bytes <$> l))) false).
Proof.
  intros Hl. revert pre. induction Hl as [|v l Hv Hl IH]; intros pre;
    rewrite ?fmap_cons; cbn [length concat decode_counts pd_error]; [by rewrite Nat.add_0_r|].
  rewrite <- (assoc_L (++)). rewrite (reads_u64' v Hv).
  specialize (IH (pre ++ u64_bytes v)). rewrite <- !(assoc_L (++)), !length_app in IH. rewrite IH.
  by rewrite length_app, Nat.add_assoc.
Qed.

(** The barrier reports faithfully: what the client decodes from
    a BARRIER reply is the server's error log (status 0 and count 0 exactly
    when nothing failed, else the first failure's negative errno, its path and
    the count capped at 2^32-1), its six verification counters and its drain
    totals, with no decoding error. *)
Theorem barrier_reply_agrees s :
  errlog_ok (s_err s) -> is_u64 (g_drain_bytes s) -> is_u64 (g_drain_ns s) ->
  decode_barrier (pe_buf (barrier_payload s)) =
    BarrierResp (if decide (g_err_count (s_err s) = 0) then 0 else g_err_first (s_err s))
      (if decide (0xffffffff < g_err_count (s_err s)) then 0xffffffff else g_err_count (s_err s))
      (g_err_first_path (s_err s)) (errlog_counts (s_err s)) (g_drain_bytes s) (g_drain_ns s) false.
Proof.
  intros [Hc Hf Hp Hv] Hb Hn. set (l := s_err s) in *.
  set (st := if decide (g_err_count l = 0) then 0 else g_err_first l).
  set (cnt := if decide (0xffffffff < g_err_count l) then 0xffffffff else g_err_count l).
  assert (Hst : is_i32 st) by (subst st; by case_decide).
  assert (Hcnt : is_u32 cnt) by (subst cnt; case_decide; unfold is_u32, is_u64 in *; lia).
  set (hd := u32_bytes (u32 st) ++ u32_bytes cnt ++ str_bytes (g_err_first_path l)).
  set (cs := concat (u64_bytes <$> errlog_counts l)).
  set (tl := u64_bytes (g_drain_bytes s) ++ u64_bytes (g_drain_ns s)).
  assert (Hbuf : pe_buf (barrier_payload s) = hd ++ cs ++ tl).
  { unfold barrier_payload, penc_init. fold l. fold st. fold cnt. destruct Hp as [Hp _].
    pose proof (zlen_nonneg (g_err_first_path l)). enc. cbn [pe_buf]. subst hd cs tl. simpl.
    by rewrite <- !(assoc_L (++)). }
  rewrite Hbuf. unfold decode_barrier. subst hd. rewrite <- !(assoc_L (++)).
  rewrite (reads_init pdec_u32 (u32_bytes (u32 st)) (u32 st)) by (apply reads_u32', u32_range).
  pose proof (reads_u32' cnt Hcnt (u32_bytes (u32 st)) (str_bytes (g_err_first_path l) ++ cs ++ tl)) as H2.
  rewrite H2. pose proof (reads_path _ Hp (u32_bytes (u32 st) ++ u32_bytes cnt) (cs ++ tl)) as H3.
  rewrite <- !(assoc_L (++)), !length_app in H3. rewrite H3.
  pose proof (reads_counts (errlog_counts l) (u32_bytes (u32 st) ++ u32_bytes cnt ++ str_bytes (g_err_first_path l)) tl Hv) as H4.
  fold cs in H4. rewrite <- !(assoc_L (++)), !length_app in H4. rewrite Nat.add_assoc in H4. change 6%nat with (length (errlog_counts l)). rewrite H4.
  pose proof (reads_u64' _ Hb (u32_bytes (u32 st) ++ u32_bytes cnt ++ str_bytes (g_err_first_path l) ++ cs) (u64_bytes (g_drain_ns s))) as H5.
  rewrite <- !(assoc_L (++)), !length_app in H5. rewrite !Nat.add_assoc in H5. subst tl. rewrite H5.
  pose proof (reads_u64' _ Hn (u32_bytes (u32 st) ++ u32_bytes cnt ++ str_bytes (g_err_first_path l) ++ cs ++ u64_bytes (g_drain_bytes s)) []) as H6.
  rewrite app_nil_r, <- !(assoc_L (++)), !length_app in H6. rewrite !Nat.add_assoc in H6. rewrite H6.
  rewrite (path_ok_cstr _ Hp). by rewrite i32_u32.
Qed.

Lemma barrier_reply_agrees_witness :
  decode_barrier (pe_buf (barrier_payload (set_s_err (log_op_error_log (str "/srv/dst/x") EACCES errlog0) server0))) =
  BarrierResp (- EACCES) 1 (str "/srv/dst/x") [0; 0; 0; 0; 0; 0] 0 0 false.
Proof.
  rewrite barrier_reply_agrees; [by vm_compute| |by vm_compute|by vm_compute].
  split; [by vm_compute|by vm_compute|by apply path_ok_dec; vm_compute|]. repeat constructor; by vm_compute.
Defined.
