(* ===== verification/SshRpc.v ===== *)
(** Requests and replies over one connection: the receiver hands every reply
    to the request with its id, in whatever order replies arrive, and a
    connection that ends fails the requests that are still waiting. *)

From S2P Require Export SshTransport.

(** * The two directions of a connection

    What the client has written, what the server has sent and is still to be
    read, and the interruptions still to come. Allocations succeed. *)
Record wstate := Wstate { w_out : bytes; w_in : bytes; w_intr : nat }.

Section wire.
Context (infd outfd : Z).

Definition wire_pre (g : wstate) R (e : posix R) : Prop :=
  match e with
  | write d _ => d = infd
  | read d _ => d = outfd
  | malloc _ => True
  | _ => False
  end.
Definition wire_adm (g : wstate) R (e : posix R) : R -> Prop :=
  match e in posix R return R -> Prop with
  | write _ d => fun r =>
      match r with Ok w => 0 < w <= zlen d | Err e => e = EINTR /\ (0 < w_intr g)%nat end
  | read _ n => fun r =>
      match r with
      | Ok d => d `prefix_of` w_in g /\ zlen d <= n /\ (d = [] -> w_in g = [])
      | Err e => e = EINTR /\ (0 < w_intr g)%nat
      end
  | malloc _ => fun r => r = true
  | _ => fun _ => False
  end.
Definition wire_upd (g : wstate) R (e : posix R) : R -> wstate :=
  let '(Wstate out inn intr) := g in
  match e in posix R return R -> wstate with
  | write _ d => fun r =>
      match r with Ok w => Wstate (out ++ take (Z.to_nat w) d) inn intr | Err _ => Wstate out inn (pred intr) end
  | read _ n => fun r =>
      match r with Ok d => Wstate out (drop (length d) inn) intr | Err _ => Wstate out inn (pred intr) end
  | _ => fun _ => g
  end.
Definition wire : monitor posix := Monitor wstate wire_pre wire_adm wire_upd False.

Lemma same_preorder {A B} (f : A -> B) : PreOrder (fun x y => f x = f y).
Proof. split; [done|]. intros x y z. apply eq_trans. Qed.

#[local] Obligation Tactic := idtac.
#[export] Program Instance wire_sink : Sink wire infd := {|
  sk_live := fun _ => True; sk_out := w_out; sk_budget := w_intr;
  sk_same := fun g g' => w_in g = w_in g'; sk_pre := same_preorder w_in |}.
Next Obligation.
  intros [o i b] d _. split; [done|]. intros [w|e] Hr; simpl in *; [by destruct Hr; split_and!|].
  destruct Hr as [-> ?]. split_and!; [done|done|done|done|lia].
Qed.
#[export] Program Instance wire_source : Source wire outfd := {|
  sr_live := fun _ => True; sr_in := w_in; sr_budget := w_intr;
  sr_same := fun g g' => w_out g = w_out g'; sr_pre := same_preorder w_out |}.
Next Obligation.
  intros [o i b] n _. split; [done|]. intros [d|e] Hr; simpl in *.
  - destruct Hr as ([rest ->] & Hn & Hnil). rewrite drop_app_length. by split_and!.
  - destruct Hr as [-> ?]. split_and!; [done|done|done|done|lia].
Qed.

(** * Frames *)

Record frame := Frame { fr_type : Z; fr_id : Z; fr_payload : bytes }.
Record frame_wf (f : frame) : Prop := FrameWf {
  fw_type : is_u8 (fr_type f); fw_id : is_u64 (fr_id f); fw_len : zlen (fr_payload f) <= ECOPY_MAX_FRAME }.

Definition frame_bytes (f : frame) : bytes :=
  encode_header (fr_type f) (fr_id f) (zlen (fr_payload f)) ++ fr_payload f.
Definition stream (fs : list frame) : bytes := concat (frame_bytes <$> fs).

(** The reply a frame makes. *)
Definition reply_of (f : frame) : pending :=
  Pending (fr_id f) true
    (if decide (fr_type f = msg_code MSG_STATUS) then i32 (pdec_u32 (pdec_init (fr_payload f))).1 else 0) (fr_payload f).
Definition deliver_all (fs : list frame) (l : list pending) : list pending :=
  foldl (fun l f => pending_update (fr_id f) (fun _ => reply_of f) l) l fs.

Context (eintr : nat).

Lemma deliver_frame f c :
  deliver (fr_type f) (fr_id f) (fr_payload f) c =
  set_c_pending (pending_update (fr_id f) (fun _ => reply_of f) (c_pending c)) c.
Proof. done. Qed.

(** One frame: it goes to the table. *)
Lemma rx_step_frame f rest out b c :
  frame_wf f -> c_out_fd c = outfd -> (b <= eintr)%nat ->
  wpM wire (rx_step eintr) c (Wstate out (frame_bytes f ++ rest) b) (fun g r c' =>
    r = true /\ w_out g = out /\ w_in g = rest /\ (w_intr g <= b)%nat /\
    c' = set_c_pending (pending_update (fr_id f) (fun _ => reply_of f) (c_pending c)) c).
Proof.
  intros [Ht Hi Hlen] Hfd Hb. unfold rx_step. wp_step. wp_step. rewrite Hfd. wp_step. apply wpM_lift.
  pose proof (zlen_nonneg (fr_payload f)) as H0. unfold frame_bytes. rewrite <- (assoc_L (++)).
  assert (Hu : is_u32 (zlen (fr_payload f))).
  { split; [done|]. eapply Z.le_lt_trans; [exact Hlen|]. by vm_compute. }
  eapply wp_mono; [by eapply frame_read_header_source|].
  intros g1 r (-> & _ & Ho & Hin & Hb1). cbn [sr_in sr_budget sr_same wire_source w_in w_out w_intr] in Hin, Ho, Hb1.
  apply app_inv_head in Hin. rewrite decide_False by lia.
  apply wpM_bind, (wpM_mono wire _ _ _ (fun g r c' => r = Some (fr_payload f) /\ c' = c /\
    w_out g = out /\ w_in g = rest /\ (w_intr g <= b)%nat)).
  - case_decide as Hz.
    + wp_step. assert (fr_payload f = []) as Hnil. { apply nil_length_inv. unfold zlen in Hz. lia. }
      rewrite Hnil in Hin |- *. split_and!; [done|done|by rewrite <- Ho|by rewrite <- Hin|done].
    + wp_call ok Hok. simpl in Hok. subst ok. simpl negb. cbv iota. apply wpM_lift.
      assert (Hg : mupd wire g1 (malloc (zlen (fr_payload f))) true = g1) by (by destruct g1). rewrite Hg.
      replace (Z.to_nat (zlen (fr_payload f))) with (length (fr_payload f)) by (unfold zlen; lia).
      eapply wp_mono; [eapply (io_read_all_source eintr (fr_payload f) rest g1); [done|simpl; lia|exact (eq_sym Hin)]|].
      intros g2 r (-> & _ & Ho2 & Hin2 & Hb2). simpl in *. rewrite <- Hin in Hin2. apply app_inv_head in Hin2.
      split_and!; [done|done|congruence|done|lia].
  - intros g2 r c' (-> & -> & Ho2 & Hi2 & Hb2). wp_step. wp_step. wp_step. by rewrite deliver_frame.
Qed.

(** At the end of the stream the receiver marks the connection failed. *)
Lemma rx_step_eof out b c :
  c_out_fd c = outfd -> (b <= eintr)%nat ->
  wpM wire (rx_step eintr) c (Wstate out [] b) (fun g r c' => r = false /\ c' = set_c_failed true c).
Proof.
  intros Hfd Hb. unfold rx_step. wp_step. wp_step. rewrite Hfd. wp_step. apply wpM_lift.
  unfold frame_read_header. apply wp_bind.
  eapply wp_mono; [apply (io_read_all_eof (m := wire) (fd := outfd) eintr); [done|simpl; lia|simpl; by vm_compute; lia]|].
  intros g r ->. simpl. unfold conn_mark_failed. by repeat wp_step_pure.
Qed.

(** The waiting loop: frames for others go to the rest of the table, the first
    frame for us ends it. *)
Lemma pending_wait_reply frames before f rest out b c id :
  Forall frame_wf before -> frame_wf f -> fr_id f = id -> Forall (fun f => fr_id f <> id) before ->
  c_out_fd c = outfd -> c_failed c = false -> (b <= eintr)%nat -> (length before < frames)%nat ->
  forall l, c_pending c = Pending id false 0 [] :: l ->
  wpM wire (pending_wait eintr frames id) c (Wstate out (stream before ++ frame_bytes f ++ rest) b) (fun g r c' =>
    r = Some (reply_of f) /\ w_out g = out /\ w_in g = rest /\
    c' = set_c_pending (reply_of f :: deliver_all before l) c).
Proof.
  intros Hwf Hf Hid Hoth. revert frames b c.
  induction before as [|x before IH]; intros frames b c Hfd Hok Hb Hfr l Hl.
  - destruct frames as [|frames]; [simpl in Hfr; lia|]. cbn [pending_wait]. wp_step. wp_step. rewrite Hl.
    cbn [pending_find p_id p_done]. rewrite decide_True by done. cbn [p_done]. rewrite Hok.
    wp_step. eapply wpM_mono; [apply rx_step_frame; [done|done|exact Hb]|].
    intros g r c' (-> & Ho & Hin & Hb' & ->). destruct frames; cbn [pending_wait]; wp_step; wp_step;
      cbn [c_pending set_c_pending]; rewrite Hl; cbn [pending_update p_id]; rewrite !decide_True by done;
      cbn [pending_find]; rewrite decide_True by (by rewrite <- Hid); cbn [reply_of p_done]; wp_step; done.
  - apply Forall_cons_1 in Hwf as [Hx Hwf]. apply Forall_cons_1 in Hoth as [Hne Hoth].
    destruct frames as [|frames]; [simpl in Hfr; lia|]. cbn [pending_wait]. wp_step. wp_step. rewrite Hl.
    cbn [pending_find p_id p_done]. rewrite decide_True by done. cbn [p_done]. rewrite Hok.
    wp_step. unfold stream. rewrite fmap_cons. cbn [concat]. rewrite <- (assoc_L (++)).
    eapply wpM_mono; [apply rx_step_frame; [done|done|exact Hb]|].
    intros g r c' (-> & Ho & Hin & Hb' & ->). destruct g as [o i b']. simpl in Ho, Hin, Hb'. subst o i.
    rewrite Hl. cbn [pending_update p_id]. rewrite decide_False by done.
    eapply wpM_mono; [eapply (IH Hwf Hoth frames b'); [done|done|lia|simpl in Hfr; lia|done]|].
    intros g r c' (-> & -> & -> & ->). done.
Qed.

(** ... and a stream that ends without it fails the connection. *)
Lemma pending_wait_eof frames fs out b c id :
  Forall frame_wf fs -> Forall (fun f => fr_id f <> id) fs ->
  c_out_fd c = outfd -> c_failed c = false -> (b <= eintr)%nat -> (length fs < frames)%nat ->
  forall l, c_pending c = Pending id false 0 [] :: l ->
  wpM wire (pending_wait eintr frames id) c (Wstate out (stream fs) b) (fun g r c' =>
    r = None /\ c' = set_c_failed true (set_c_pending (Pending id false 0 [] :: deliver_all fs l) c)).
Proof.
  intros Hwf Hoth. revert frames b c. induction fs as [|x fs IH]; intros frames b c Hfd Hok Hb Hfr l Hl;
    (destruct frames as [|frames]; [simpl in Hfr; lia|]); cbn [pending_wait]; wp_step; wp_step; rewrite Hl;
    cbn [pending_find p_id p_done]; rewrite decide_True by done; cbn [p_done]; rewrite Hok; wp_step.
  - eapply wpM_mono; [by apply rx_step_eof|]. intros g r c' [-> ->].
    assert (set_c_failed true c = set_c_failed true (set_c_pending (Pending id false 0 [] :: l) c)) as ->
      by (destruct c; simpl in *; by subst).
    destruct frames; cbn [pending_wait]; wp_step; wp_step; cbn [c_pending set_c_pending set_c_failed];
      cbn [pending_find p_id]; rewrite decide_True by done; cbn [p_done]; done.
  - apply Forall_cons_1 in Hwf as [Hx Hwf]. apply Forall_cons_1 in Hoth as [Hne Hoth].
    unfold stream. rewrite fmap_cons. cbn [concat].
    eapply wpM_mono; [apply rx_step_frame; [done|done|exact Hb]|].
    intros g r c' (-> & Ho & Hin & Hb' & ->). destruct g as [o i b']. simpl in Ho, Hin, Hb'. subst o i.
    rewrite Hl. cbn [pending_update p_id]. rewrite decide_False by done.
    eapply wpM_mono; [eapply (IH Hwf Hoth frames b'); [done|done|lia|simpl in Hfr; lia|done]|].
    intros g r c' (-> & ->). done.
Qed.

(** A connection in use: its descriptors, alive. *)
Definition conn_up (c : conn) : Prop := c_in_fd c = infd /\ c_out_fd c = outfd /\ c_failed c = false.

(** Up to the wait: the entry is in the table and the frame on the wire. *)
Lemma request_start frames type payload out inn b c (Q : wstate -> option pending -> conn -> Prop) :
  conn_up c -> (b <= eintr)%nat -> zlen payload < 2 ^ 32 ->
  let id := u64 (c_next_id c + 1) in
  let c1 := set_c_pending (Pending id false 0 [] :: c_pending c) (set_c_next_id id c) in
  (forall b', (b' <= b)%nat ->
    wpM wire (pending_wait eintr frames id) c1
      (Wstate (out ++ frame_bytes (Frame (msg_code type) id payload)) inn b')
      (fun g r c' => Q g r (set_c_pending (pending_delete id (c_pending c')) c'))) ->
  wpM wire (request eintr frames type payload) c (Wstate out inn b) Q.
Proof.
  intros (Hin & Hout & Hok) Hb Hp id c1 Hw. unfold request. wp_step.
  apply wpM_state. intros i c' [= <- <-]. fold id. unfold pending_add. wp_call ok Hal. simpl in Hal. subst ok.
  cbn [negb]. repeat wp_step_pure. cbn [negb]. unfold conn_send. repeat wp_step_pure.
  change (c_in_fd _) with (c_in_fd c). rewrite Hin. apply wpM_lift.
  eapply wp_mono; [by apply (frame_write_sink eintr (m := wire) (fd := infd))|].
  intros g ok (-> & _ & Hi & Ho & Hb'). cbn [negb when]. repeat wp_step_pure. cbn [negb]. wp_step.
  destruct g as [o i b']. simpl in Hi, Ho, Hb'. subst i o.
  eapply wpM_mono; [apply (Hw b'); lia|]. intros g r c' HQ. unfold pending_remove. by repeat wp_step_pure.
Qed.
End wire.

(** C37.  Replies are matched by id. A request sends one frame with a new
    id and returns exactly the reply that carries this id, its status decoded
    when it is a STATUS frame: every other reply that arrives before goes to
    the entry with its own id (or is dropped when there is none), in whatever
    order, what follows stays unread, and the request's entry leaves the table.
    The call terminates as soon as its reply is on the wire. *)
Theorem request_matched infd outfd eintr frames type payload out b c before f after :
  conn_up infd outfd c -> (b <= eintr)%nat -> zlen payload < 2 ^ 32 ->
  Forall frame_wf before -> frame_wf f -> fr_id f = u64 (c_next_id c + 1) ->
  Forall (fun x => fr_id x <> fr_id f) before -> (length before < frames)%nat ->
  wpM (wire infd outfd) (request eintr frames type payload) c
    (Wstate out (stream (before ++ f :: after)) b) (fun g r c' =>
      r = Some (reply_of f) /\
      w_out g = out ++ frame_bytes (Frame (msg_code type) (fr_id f) payload) /\ w_in g = stream after /\
      c' = set_c_pending (deliver_all before (c_pending c)) (set_c_next_id (fr_id f) c)).
Proof.
  intros Hup Hb Hp Hwf Hf Hid Hoth Hfr. apply request_start; [done|done|done|]. intros b' Hb'. rewrite <- Hid.
  assert (stream (before ++ f :: after) = stream before ++ frame_bytes f ++ stream after) as ->.
  { unfold stream. by rewrite fmap_app, concat_app, fmap_cons. }
  destruct Hup as (? & ? & ?).
  eapply wpM_mono; [eapply (pending_wait_reply infd outfd eintr frames before f (stream after)); try done; lia|].
  intros g r c' (-> & -> & -> & ->). cbn [c_pending set_c_pending pending_delete reply_of p_id].
  by rewrite decide_True by done.
Qed.

(** A lost connection is noticed: when the server's stream ends
    before the reply, the request returns failure instead of waiting for ever,
    the connection is marked failed, and the replies that did arrive have been
    delivered. *)
Theorem request_lost infd outfd eintr frames type payload out b c fs :
  conn_up infd outfd c -> (b <= eintr)%nat -> zlen payload < 2 ^ 32 ->
  Forall frame_wf fs -> Forall (fun x => fr_id x <> u64 (c_next_id c + 1)) fs -> (length fs < frames)%nat ->
  wpM (wire infd outfd) (request eintr frames type payload) c (Wstate out (stream fs) b) (fun _ r c' =>
    r = None /\ c' = set_c_failed true
      (set_c_pending (deliver_all fs (c_pending c)) (set_c_next_id (u64 (c_next_id c + 1)) c))).
Proof.
  intros Hup Hb Hp Hwf Hoth Hfr. apply request_start; [done|done|done|]. intros b' Hb'.
  destruct Hup as (? & ? & ?).
  eapply wpM_mono; [eapply (pending_wait_eof infd outfd eintr frames fs); try done; lia|].
  intros g r c' (-> & ->). cbn [c_pending set_c_pending set_c_failed pending_delete p_id].
  by rewrite decide_True by done.
Qed.

(** A connection with a request of another thread in flight. *)
Definition busy : conn := set_c_pending [Pending 7 false 0 []] (set_c_next_id 8 (set_c_out_fd 5 (set_c_in_fd 4 (conn0 8192)))).
Definition status_frame (id st : Z) : frame := Frame (msg_code MSG_STATUS) id (u32_bytes (u32 st)).

Lemma request_matched_witness :
  wpM (wire 4 5) (request 2 9 MSG_BARRIER [x01]) busy
    (Wstate [] (stream ([status_frame 7 (-13)] ++ [status_frame 9 0])) 1) (fun _ r c' =>
      r = Some (Pending 9 true 0 (u32_bytes 0)) /\
      c_pending c' = [Pending 7 true (-13) (u32_bytes (u32 (-13)))]).
Proof.
  eapply wpM_mono; [apply (request_matched 4 5 2 9 MSG_BARRIER [x01] [] 1 busy [status_frame 7 (-13)] (status_frame 9 0) []);
    try by vm_compute; try lia; try (repeat constructor; by vm_compute)|].
  intros g r c' (-> & _ & _ & ->). by vm_compute.
Defined.

Lemma request_lost_witness :
  wpM (wire 4 5) (request 2 9 MSG_BARRIER [x01]) busy (Wstate [] (stream [status_frame 7 0]) 0) (fun _ r c' =>
    r = None /\ c_failed c' = true).
Proof.
  eapply wpM_mono; [apply (request_lost 4 5 2 9 MSG_BARRIER [x01] [] 0 busy [status_frame 7 0]);
    try by vm_compute; try lia; try (repeat constructor; by vm_compute)|].
  intros g r c' (-> & ->). by vm_compute.
Defined.
