(* ===== verification/SshBulk.v ===== *)
(** Two exchanges end to end: the HELLO handshake, and the bulk stat, in which
    the server answers from its file system and the client decodes what the
    server saw. *)

From S2P Require Export SshWire SshRpc.
#[local] Opaque u32_bytes u64_bytes str_bytes.

(** * Stepping a decoder *)

(** A healthy cursor between what was read and what is left. *)
Definition pd_at (pre rest : bytes) : pdec := Pdec (pre ++ rest) (length pre) false.

Lemma pd_at_init w : pdec_init w = pd_at [] w.
Proof. done. Qed.
Lemma reads_at {A} (c : D A) w a pre rest : reads c w a -> c (pd_at pre (w ++ rest)) = (a, pd_at (pre ++ w) rest).
Proof. intros H. unfold pd_at. rewrite H, length_app, <- (assoc_L (++)). done. Qed.
Lemma reads_at_end {A} (c : D A) w a pre : reads c w a -> c (pd_at pre w) = (a, pd_at (pre ++ w) []).
Proof. intros H. rewrite <- (app_nil_r w) at 1. by apply reads_at. Qed.

(** * The handshake *)

(** A host name and the other strings of a HELLO. *)
Definition name_ok (n : bytes) : Prop := zlen n < 128.

Lemma reads_name n : name_ok n -> reads (pdec_str 128) (str_bytes n) (Some n).
Proof. intros H. unfold name_ok in H. apply reads_str; lia. Qed.

(** The handshake agrees: for names and paths that fit its fixed
    buffers, the server reads from a HELLO the capabilities, the number of
    apply threads and the options the client asked for, and the client reads
    from a HELLO_OK of its own version the server's capabilities, root and
    whether the root existed. *)
Theorem hello_agrees lname path threads opts uname_s root present :
  name_ok lname -> path_ok path -> zlen lname + zlen path + 24 <= 1024 -> is_u32 threads -> is_u32 opts ->
  name_ok uname_s -> path_ok root -> zlen uname_s + zlen root + 17 <= 512 ->
  let e := hello_request lname path threads opts in
  pe_overflow e = false /\
  decode_hello (pe_buf e) = (ECOPY_CAP_FALLOCATE |. ECOPY_CAP_SPARSE, threads, opts, false) /\
  decode_hello_ok (pe_buf (hello_payload uname_s root present)) =
    Some (ECOPY_CAP_FALLOCATE |. ECOPY_CAP_SPARSE, root, present).
Proof.
  intros Hn Hp Hl Ht Ho Hu Hr Hl2 e. subst e. unfold hello_request, hello_payload, penc_init.
  pose proof (zlen_nonneg lname). pose proof (zlen_nonneg path). pose proof (zlen_nonneg uname_s). pose proof (zlen_nonneg root).
  enc. cbn [pe_overflow pe_buf]. rewrite (u32_small threads) by done. split; [done|]. split.
  - unfold decode_hello. rewrite pd_at_init, <- !(assoc_L (++)). rewrite app_nil_l.
    rewrite (reads_at _ _ ECOPY_PROTO_VERSION) by (by apply reads_u32').
    rewrite (reads_at _ _ (ECOPY_CAP_FALLOCATE |. ECOPY_CAP_SPARSE)) by (by apply reads_u32').
    rewrite (reads_at _ _ (Some lname)) by (by apply reads_name).
    rewrite (reads_at _ _ (Some path)) by (by apply reads_path).
    rewrite (reads_at _ _ threads) by (by apply reads_u32').
    by rewrite (reads_at_end _ _ opts) by (by apply reads_u32').
  - unfold decode_hello_ok. rewrite pd_at_init, <- !(assoc_L (++)). rewrite app_nil_l.
    rewrite (reads_at _ _ ECOPY_PROTO_VERSION) by (by apply reads_u32').
    rewrite (reads_at _ _ (ECOPY_CAP_FALLOCATE |. ECOPY_CAP_SPARSE)) by (by apply reads_u32').
    rewrite (reads_at _ _ (Some uname_s)) by (by apply reads_name).
    rewrite (reads_at _ _ (Some root)) by (by apply reads_path). cbn [pd_error pd_at].
    rewrite decide_False by (intros Hv; by apply Hv).
    rewrite (reads_at_end _ _ (b2z present)) by (apply reads_u8'; by destruct present). cbn [pd_error pd_at].
    rewrite (path_ok_cstr root) by done. by destruct present.
Qed.

Lemma hello_agrees_witness :
  decode_hello_ok (pe_buf (hello_payload (str "Linux x86_64") (str "/srv/dst") true)) = Some (3, str "/srv/dst", true) /\
  decode_hello (pe_buf (hello_request (str "Linux x86_64") (str "/srv/dst") 16 1)) = (3, 16, 1, false).
Proof.
  assert (Hp : path_ok (str "/srv/dst")) by (by apply path_ok_dec; vm_compute).
  destruct (hello_agrees (str "Linux x86_64") (str "/srv/dst") 16 1 (str "Linux x86_64") (str "/srv/dst") true
    ltac:(by vm_compute) Hp ltac:(by vm_compute) ltac:(by vm_compute) ltac:(by vm_compute)
    ltac:(by vm_compute) Hp ltac:(by vm_compute)) as (_ & H1 & H2).
  split; [exact H2|exact H1].
Defined.

(** The reply buffer has 512 bytes while a root may be longer: the server then
    sends a HELLO_OK that its own client cannot decode. *)
Example hello_long_root : let root := SLASH :: replicate 500 x61 in
  zlen root < PATH_MAX /\ pe_overflow (hello_payload (str "Linux x86_64") root true) = true /\
  decode_hello_ok (pe_buf (hello_payload (str "Linux x86_64") root true)) = None.
Proof. by vm_compute. Qed.

(** * Bulk stat *)

(** A file system that does not change while the server looks at it. *)
Section bulk.
Context (fs : bytes -> res stat).

Definition view_pre (g : bytes * nat) R (e : posix R) : Prop :=
  match e with write d _ => d = STDOUT_FILENO | malloc _ | lstat _ => True | _ => False end.
Definition view_adm (g : bytes * nat) R (e : posix R) : R -> Prop :=
  match e in posix R return R -> Prop with
  | write _ d => fun r =>
      match r with Ok w => 0 < w <= zlen d | Err e => e = EINTR /\ (0 < g.2)%nat end
  | malloc _ => fun r => r = true
  | lstat p => fun r => r = fs p
  | _ => fun _ => False
  end.
Definition view_upd (g : bytes * nat) R (e : posix R) : R -> bytes * nat :=
  match e in posix R return R -> bytes * nat with
  | write _ d => fun r =>
      match r with Ok w => (g.1 ++ take (Z.to_nat w) d, g.2) | Err _ => (g.1, pred g.2) end
  | _ => fun _ => g
  end.
Definition view : monitor posix := Monitor (bytes * nat) view_pre view_adm view_upd False.

#[local] Obligation Tactic := idtac.
#[export] Program Instance view_sink : Sink view STDOUT_FILENO := {|
  sk_live := fun _ => True; sk_out := fst; sk_budget := snd; sk_same := fun _ _ => True; sk_pre := any_preorder |}.
Next Obligation.
  intros [s b] d _. split; [done|]. intros [w|e] Hr; simpl in *; [by destruct Hr; split_and!|].
  destruct Hr as [-> ?]. split_and!; [done|done|done|done|lia].
Qed.

(** What the client is to learn about a name. *)
Definition entry_of (base : option bytes) (name : bytes) : option (Z * Z * timespec) :=
  match base ≫= fun base => path_join_fast base name PATH_MAX with
  | Some p => match fs p with Ok st => Some (st_mode st, st_size st, st_mtim st) | Err _ => None end
  | None => None
  end.

Definition entry_bytes (x : option (Z * Z * timespec)) : bytes :=
  let '(present, mode, size, mt) :=
    match x with Some (mode, size, mt) => (1, mode, size, mt) | None => (0, 0, 0, Timespec 0 0) end in
  [byte.of_Z present] ++ u32_bytes mode ++ u64_bytes (u64 size) ++ u64_bytes (u64 (tv_sec mt)) ++ u64_bytes (u64 (tv_nsec mt)).

Definition entry_ok (x : option (Z * Z * timespec)) : Prop :=
  match x with Some (mode, size, mt) => is_u32 mode /\ is_i64 size /\ is_i64 (tv_sec mt) /\ is_i64 (tv_nsec mt) | None => True end.

Lemma zlen_entry_bytes x : zlen (entry_bytes x) = 29.
Proof. unfold entry_bytes. destruct x as [[[? ?] ?]|]; by autorewrite with ecopy. Qed.

Lemma reads_raw_entry p mode size ts tn :
  is_u8 p -> is_u32 mode -> is_i64 size -> is_i64 ts -> is_i64 tn ->
  reads decode_stat_entry
    ([byte.of_Z p] ++ u32_bytes mode ++ u64_bytes (u64 size) ++ u64_bytes (u64 ts) ++ u64_bytes (u64 tn))
    (if decide (p = 0) then None else Some (mode, size, Timespec ts tn)).
Proof.
  intros. unfold decode_stat_entry. rewrite <- (app_nil_r ([_] ++ _)), <- !(assoc_L (++)). do 5 rd. apply reads_ret.
Qed.
Lemma reads_entry x : entry_ok x -> reads decode_stat_entry (entry_bytes x) x.
Proof.
  intros H. unfold entry_bytes. destruct x as [[[mode size] [ts tn]]|].
  - destruct H as (H1 & H2 & H3 & H4). by apply (reads_raw_entry 1).
  - by apply (reads_raw_entry 0).
Qed.

Lemma reads_entries l :
  Forall entry_ok l -> reads (decode_stat_entries (length l)) (concat (entry_bytes <$> l)) l.
Proof.
  induction 1 as [|x l Hx Hl IH]; [apply reads_ret|]. rewrite fmap_cons. cbn [length concat decode_stat_entries].
  eapply reads_bind; [by apply reads_entry|]. by apply (reads_fmap _ (cons x)).
Qed.

Lemma fits_entry cap buf ov x :
  zlen buf + 29 <= cap ->
  (match x with
   | Some (mode, size, mt) => encode_entry (Penc cap buf ov) 1 mode size (tv_sec mt) (tv_nsec mt)
   | None => encode_absent (Penc cap buf ov)
   end) = Penc cap (buf ++ entry_bytes x) ov.
Proof.
  intros Hc. unfold encode_absent, encode_entry, entry_bytes.
  destruct x as [[[mode size] mt]|]; enc; by rewrite <- !(assoc_L (++)).
Qed.

Definition fs_ok : Prop := forall p st, fs p = Ok st -> stat_ok st.

Lemma entry_of_ok base name : fs_ok -> entry_ok (entry_of base name).
Proof.
  intros Hfs. unfold entry_of. destruct (base ≫= _) as [p|]; [|done]. destruct (fs p) as [st|] eqn:E; [|done].
  destruct (Hfs p st E). done.
Qed.

(** The loop: one entry per name. *)
Lemma stat_bulk_loop_view base names pre cap buf ov s g :
  Forall path_ok names -> zlen buf + 29 * zlen names <= cap ->
  wpM view (stat_bulk_loop (length names) base (pd_at pre (concat (str_bytes <$> names))) (Penc cap buf ov)) s g
    (fun g' r s' => g' = g /\ s' = s /\ r = Some (Penc cap (buf ++ concat (entry_bytes <$> (entry_of base <$> names))) ov)).
Proof.
  intros Hn. revert pre buf g. induction Hn as [|n names Hn Hns IH]; intros pre buf g Hc.
  - cbn [length stat_bulk_loop]. wp_step. simpl. by rewrite app_nil_r.
  - rewrite zlen_cons in Hc. pose proof (zlen_nonneg names). rewrite fmap_cons. cbn [length stat_bulk_loop concat].
    rewrite (reads_at _ _ (Some n)) by (by apply reads_path). rewrite (path_ok_cstr n) by done.
    wp_step. apply (wpM_mono view _ _ _ (fun g' r s' => g' = g /\ s' = s /\ r = Penc cap (buf ++ entry_bytes (entry_of base n)) ov)).
    { pose proof (fits_entry cap buf ov (entry_of base n) ltac:(lia)) as He. unfold entry_of in He at 1.
      destruct (base ≫= _) as [p|]; [|by wp_step]. unfold encode_stat. wp_call r Hr. simpl in Hr. subst r. wp_step.
      by destruct (fs p). }
    intros g1 e s1 (-> & -> & ->).
    eapply wpM_mono; [apply IH; rewrite zlen_app, zlen_entry_bytes; lia|]. intros g2 r s2 (-> & -> & ->).
    split_and!; [done|done|]. rewrite !fmap_cons. cbn [concat]. by rewrite <- (assoc_L (++)).
Qed.

Lemma bulk_cap names cap : foldl (fun cap n => cap + zlen n + 4) cap names = cap + zlen (concat (str_bytes <$> names)).
Proof.
  revert cap. induction names as [|n names IH]; intros cap; [simpl; rewrite zlen_nil; lia|].
  rewrite fmap_cons. cbn [foldl concat]. rewrite IH, zlen_app, zlen_str_bytes. lia.
Qed.
Lemma fits_names names cap buf ov :
  Forall path_ok names -> zlen buf + zlen (concat (str_bytes <$> names)) <= cap ->
  foldl penc_str (Penc cap buf ov) names = Penc cap (buf ++ concat (str_bytes <$> names)) ov.
Proof.
  intros Hn. revert buf. induction Hn as [|n names [Hn _] Hns IH]; intros buf Hc; [simpl; by rewrite app_nil_r|].
  rewrite fmap_cons in Hc |- *. cbn [foldl concat] in *. rewrite zlen_app, zlen_str_bytes in Hc.
  pose proof (zlen_nonneg (concat (str_bytes <$> names))). rewrite fits_str by enc_lia.
  rewrite IH by (rewrite zlen_app, zlen_str_bytes; lia). by rewrite <- (assoc_L (++)).
Qed.

Lemma stat_bulk_request_buf base names :
  path_ok base -> Forall path_ok names -> zlen names < 2 ^ 32 ->
  pe_overflow (stat_bulk_request base names) = false /\
  pe_buf (stat_bulk_request base names) = str_bytes base ++ u32_bytes (zlen names) ++ concat (str_bytes <$> names).
Proof.
  intros [Hb _] Hn Hc. unfold stat_bulk_request, penc_init. rewrite bulk_cap.
  pose proof (zlen_nonneg base). pose proof (zlen_nonneg names). pose proof (zlen_nonneg (concat (str_bytes <$> names))).
  enc. rewrite fits_names by (done || enc_lia). rewrite u32_small by (unfold is_u32; lia).
  cbn [pe_overflow pe_buf]. by rewrite <- !(assoc_L (++)).
Qed.

Lemma zlen_entries l : zlen (concat (entry_bytes <$> l)) = 29 * zlen l.
Proof.
  induction l as [|x l IH]; [done|]. rewrite fmap_cons. cbn [concat]. rewrite zlen_app, zlen_entry_bytes, IH, zlen_cons. lia.
Qed.
End bulk.

(** Bulk stat, end to end: against any unchanging file system, the
    server answers the client's STAT_BULK request with one frame of the
    request's id, and the client decodes from it, name by name and in order,
    exactly the mode, size and modification time the server's lstat of
    base/name gave, and "not present" where it failed, the base was refused or
    the joined path was too long. *)
Theorem stat_bulk_agrees fs eintr id base names s b :
  fs_ok fs -> path_ok base -> Forall path_ok names -> zlen names <= 1000000 -> (b <= eintr)%nat ->
  let dir := match resolve_path (g_root_norm (s_cfg s)) base PATH_MAX with Ok d => Some d | Err _ => None end in
  wpM (view fs) (handle_stat_bulk eintr id (pe_buf (stat_bulk_request base names))) s ([], b) (fun g ok s' =>
    ok = true /\ s' = s /\ exists payload,
      g.1 = encode_header (msg_code MSG_STAT_BULK_RESP) id (zlen payload) ++ payload /\
      decode_stat_bulk (length names) payload = Some (entry_of fs dir <$> names)).
Proof.
  intros Hfs Hb Hn Hc Hbud dir. pose proof (zlen_nonneg names) as Hz.
  destruct (stat_bulk_request_buf base names Hb Hn ltac:(lia)) as [_ ->]. unfold handle_stat_bulk.
  rewrite pd_at_init. rewrite (reads_at _ _ (Some base)) by (by apply reads_path).
  rewrite (reads_at _ _ (zlen names)) by (apply reads_u32'; unfold is_u32; lia).
  rewrite bool_decide_eq_false_2 by lia. cbn [pd_error pd_at orb]. rewrite (path_ok_cstr base) by done.
  unfold resolve. wp_step. wp_step. wp_step. wp_step. fold dir. wp_call ok Hok. simpl in Hok. subst ok. cbn [negb].
  replace (Z.to_nat (zlen names)) with (length names) by (unfold zlen; lia).
  unfold penc_init. rewrite fits_u32 by (rewrite zlen_nil; lia).
  wp_step. eapply wpM_mono; [apply stat_bulk_loop_view; [done|rewrite app_nil_l, zlen_u32_bytes; lia]|].
  intros g1 r s1 (-> & -> & ->). rewrite app_nil_l. unfold reply. cbn [pe_buf]. apply wpM_lift.
  set (l := entry_of fs dir <$> names). set (w := u32_bytes (zlen names) ++ concat (entry_bytes <$> l)).
  assert (Hlen : zlen l = zlen names) by (unfold zlen, l; by rewrite length_fmap).
  eapply wp_mono; [apply (frame_write_sink eintr (m := view fs) (fd := STDOUT_FILENO)); [done|done|]|].
  { subst w. rewrite zlen_app, zlen_u32_bytes, zlen_entries. lia. }
  intros g ok (-> & _ & _ & Ho & _). split_and!; [done|done|]. exists w. split; [exact Ho|].
  unfold decode_stat_bulk. rewrite pd_at_init. subst w.
  rewrite (reads_at _ _ (zlen names)) by (apply reads_u32'; unfold is_u32; lia).
  rewrite decide_False by (rewrite <- (u32_small (zlen names)) by (unfold is_u32; lia); rewrite i32_u32 by (unfold is_i32; lia); unfold zlen; lia).
  assert (Hr : reads (decode_stat_entries (length names)) (concat (entry_bytes <$> l)) l).
  { assert (length names = length l) as -> by (unfold l; by rewrite length_fmap). apply reads_entries.
    apply Forall_fmap, Forall_true. intros n. by apply entry_of_ok. }
  by rewrite (reads_at_end _ _ l _ Hr).
Qed.

(** Every even-sized name is a file. *)
Definition sample_fs (p : bytes) : res stat := if Nat.even (length p) then Ok sample_stat else Err ENOENT.

Lemma stat_bulk_agrees_witness :
  wpM (view sample_fs) (handle_stat_bulk 2 9 (pe_buf (stat_bulk_request (str "/srv/dst") [str "a"; str "bc"])))
    (set_s_cfg (set_g_root_norm (str "/srv") config0) server0) ([], 1%nat) (fun g ok _ => ok = true /\ exists payload,
      g.1 = encode_header (msg_code MSG_STAT_BULK_RESP) 9 (zlen payload) ++ payload /\
      decode_stat_bulk 2 payload = Some [Some (st_mode sample_stat, st_size sample_stat, st_mtim sample_stat); None]).
Proof.
  eapply wpM_mono; [apply (stat_bulk_agrees sample_fs 2 9 (str "/srv/dst") [str "a"; str "bc"]
    (set_s_cfg (set_g_root_norm (str "/srv") config0) server0) 1)|].
  - intros p st. unfold sample_fs. destruct (Nat.even _); [|done]. intros [= <-]. apply sample_stat_ok.
  - by apply path_ok_dec; vm_compute.
  - apply Forall_cons_2; [|apply Forall_cons_2; [|apply Forall_nil_2]]; apply path_ok_dec; by vm_compute.
  - by vm_compute.
  - lia.
  - intros g ok s' (-> & _ & payload & H1 & H2). split; [done|]. exists payload. split; [done|].
    etransitivity; [exact H2|by vm_compute].
Defined.
