(* ===== verification/SshClient.v ===== *)
(** Properties of the client's transport on its own: shell quoting, target
    parsing, the partition of the connection pool, and the matching of replies
    to pending requests over the framed channel. *)

From S2P Require Export SshWire.

(** * Decimal numbers *)

Lemma dec_digits_acc fuel z acc : dec_digits fuel z acc = dec_digits fuel z [] ++ acc.
Proof.
  revert z acc. induction fuel as [|n IH]; intros z acc; simpl; [done|].
  case_decide; [done|]. rewrite IH, (IH _ [_]), <- (assoc_L (++)). done.
Qed.

Lemma digit_byte z : 0 <= z -> isdigit (byte.of_Z (48 + z mod 10)) = true /\ digit (byte.of_Z (48 + z mod 10)) = z mod 10.
Proof.
  intros Hz. pose proof (Z.mod_pos_bound z 10 ltac:(lia)).
  assert (Hu : byte.unsigned (byte.of_Z (48 + z mod 10)) = 48 + z mod 10).
  { rewrite byte.unsigned_of_Z. unfold byte.wrap. apply Z.mod_small. lia. }
  unfold isdigit, digit. rewrite Hu. split; [|lia]. apply andb_true_iff. split; apply Z.leb_le; lia.
Qed.

Lemma dec_digits_spec fuel z :
  0 <= z < 10 ^ Z.of_nat fuel -> (0 < fuel)%nat ->
  is_digits (dec_digits fuel z []) /\ value (dec_digits fuel z []) = z.
Proof.
  revert z. induction fuel as [|n IH]; intros z Hz Hf; [lia|]. cbn [dec_digits].
  destruct (digit_byte z ltac:(lia)) as [Hd Hv].
  case_decide as Hq.
  - split; [split; [done|by repeat constructor]|]. unfold value. simpl. rewrite Hv.
    pose proof (Z.div_mod z 10 ltac:(lia)). lia.
  - rewrite dec_digits_acc. rewrite Nat2Z.inj_succ, Z.pow_succ_r in Hz by lia.
    destruct (IH (z / 10)) as [[Hne Hall] Hval].
    + split; [apply Z.div_pos; lia|]. apply Z.div_lt_upper_bound; lia.
    + destruct n; [|lia]. simpl in Hz. exfalso. apply Hq. apply Z.div_small. lia.
    + split.
      * split; [by destruct (dec_digits n (z / 10) [])|]. apply Forall_app. split; [done|by repeat constructor].
      * unfold value in *. rewrite foldl_app, Hval. simpl. rewrite Hv. pose proof (Z.div_mod z 10 ltac:(lia)). lia.
Qed.

Lemma dec_spec z : 0 <= z < 10 ^ 20 -> is_digits (dec z) /\ value (dec z) = z.
Proof. intros Hz. apply (dec_digits_spec 20); [done|lia]. Qed.

Lemma strtol_dec z : 0 <= z <= LONG_MAX -> strtol (dec z) = Strto z [] false.
Proof.
  intros Hz. destruct (dec_spec z) as [Hd Hv]; [unfold LONG_MAX in *; lia|].
  destruct (digits_head _ Hd) as (E1 & E2 & E3). destruct Hd as [_ Hall].
  unfold strtol. rewrite E1, E2, E3. rewrite digits_all by done. fold (value (dec z)). rewrite Hv.
  unfold LONG_MAX, LONG_MIN in *. by rewrite !decide_False by lia.
Qed.

(** * Quoting *)

(** A POSIX shell reading one word: quotes and backslashes as in the shell's
    grammar; any other unquoted byte would end or alter the word. *)
Fixpoint sh_word (inside : bool) (s : bytes) : option bytes :=
  match s with
  | [] => if inside then None else Some []
  | b :: s =>
      if inside then
        if decide (b = QUOTE) then sh_word false s else cons b <$> sh_word true s
      else
        if decide (b = QUOTE) then sh_word true s
        else if decide (b = BSLASH) then
          match s with [] => None | c :: s => cons c <$> sh_word false s end
        else None
  end.

(** The quoted form. *)
Definition quote_byte (b : byte) : bytes := if decide (b = QUOTE) then [QUOTE; BSLASH; QUOTE; QUOTE] else [b].
Definition quoted (s : bytes) : bytes := QUOTE :: concat (quote_byte <$> s) ++ [QUOTE].

Lemma squote_loop_spec s out outsz :
  squote_loop s out outsz =
    if decide (s = [] \/ zlen out + zlen (concat (quote_byte <$> s)) < outsz)
    then Some (out ++ concat (quote_byte <$> s)) else None.
Proof.
  revert out. induction s as [|b s IH]; intros out.
  { destruct (decide _) as [_|Hn]; [simpl; by rewrite app_nil_r|destruct Hn; by left]. }
  rewrite fmap_cons. cbn [squote_loop concat]. rewrite zlen_app. pose proof (zlen_nonneg (concat (quote_byte <$> s))).
  assert (Hstep : forall w, w = quote_byte b ->
    (if decide (outsz <= zlen out + zlen w) then None else squote_loop s (out ++ w) outsz) =
    if decide (b :: s = [] \/ zlen out + (zlen (quote_byte b) + zlen (concat (quote_byte <$> s))) < outsz)
    then Some (out ++ quote_byte b ++ concat (quote_byte <$> s)) else None).
  { intros w ->. destruct (decide (outsz <= zlen out + zlen (quote_byte b))) as [Hc|Hc].
    - rewrite decide_False; [done|]. intros [?|?]; [done|lia].
    - rewrite IH, zlen_app, <- (assoc_L (++)). destruct s as [|c s].
      + simpl in *. rewrite zlen_nil in *. repeat case_decide; try done; exfalso; naive_solver lia.
      + repeat case_decide; try done; exfalso; naive_solver lia. }
  destruct (decide (b = QUOTE)) as [Hq|Hq].
  - rewrite <- Hstep with (w := [QUOTE; BSLASH; QUOTE; QUOTE]); [done|].
    unfold quote_byte. by rewrite decide_True.
  - rewrite <- Hstep with (w := [b]); [done|]. unfold quote_byte. by rewrite decide_False.
Qed.

Lemma sh_word_quoted s rest :
  sh_word true (concat (quote_byte <$> s) ++ QUOTE :: rest) = (fun r => s ++ r) <$> sh_word false rest.
Proof.
  induction s as [|b s IH].
  - simpl. by destruct (sh_word false rest).
  - rewrite fmap_cons. cbn [concat]. rewrite <- (assoc_L (++)). unfold quote_byte at 1. case_decide as Hq.
    + cbn [app]. simpl. rewrite IH. subst. by destruct (sh_word false rest).
    + cbn [app]. cbn [sh_word]. rewrite decide_False, IH by done. by destruct (sh_word false rest).
Qed.

(** C39.  Quoting is safe: [shell_squote] succeeds exactly when the quoted
    form and its NUL fit the buffer, and what it produces is read back by a
    POSIX shell as one word, equal to the input byte for byte, so no path can
    smuggle shell syntax into the remote command. *)
Theorem shell_squote_safe s outsz :
  shell_squote s outsz = (if decide (zlen (quoted s) < outsz) then Some (quoted s) else None) /\
  sh_word false (quoted s) = Some s.
Proof.
  split.
  - unfold shell_squote, quoted. pose proof (zlen_nonneg (concat (quote_byte <$> s))).
    rewrite zlen_cons, zlen_app. change (zlen [QUOTE]) with 1.
    case_decide as H1; [by rewrite decide_False by lia|]. rewrite squote_loop_spec.
    change (zlen [QUOTE]) with 1. destruct s as [|b s].
    + rewrite decide_True by (by left). simpl. repeat case_decide; try done; change (zlen [QUOTE]) with 1 in *; rewrite ?zlen_nil in *; lia.
    + case_decide as H2.
      * destruct H2 as [?|H2]; [done|]. rewrite zlen_app. change (zlen [QUOTE]) with 1.
        repeat case_decide; try done; lia.
      * rewrite decide_False; [done|]. intros ?. apply H2. right. lia.
  - unfold quoted. cbn [sh_word]. rewrite decide_True by done.
    rewrite sh_word_quoted. simpl. by rewrite app_nil_r.
Qed.

(** * Targets *)

Definition target_url (t : ssh_target) : bytes :=
  str "ssh://" ++ (if decide (t_user t = []) then [] else t_user t ++ [AT]) ++ t_host t ++
  (if decide (t_port t = 0) then [] else COLON :: dec (t_port t)) ++ t_path t.

Record target_ok (t : ssh_target) : Prop := TargetOk {
  to_user : (SLASH ∉ t_user t) /\ (AT ∉ t_user t) /\ zlen (t_user t) < USER_SZ;
  to_host : t_host t <> [] /\ (SLASH ∉ t_host t) /\ (AT ∉ t_host t) /\ (COLON ∉ t_host t) /\ zlen (t_host t) < 200;
  to_port : 0 <= t_port t <= 65535;
  to_path : head (t_path t) = Some SLASH /\ zlen (t_path t) < PATH_MAX
}.

Lemma split_first_app b u v : b ∉ u -> split_first b (u ++ b :: v) = Some (u, v).
Proof.
  induction u as [|x u IH]; intros Hn; simpl; [by rewrite decide_True|].
  rewrite decide_False by set_solver. by rewrite IH by set_solver.
Qed.
Lemma split_first_None b u : b ∉ u -> split_first b u = None.
Proof.
  induction u as [|x u IH]; intros Hn; simpl; [done|]. rewrite decide_False by set_solver. by rewrite IH by set_solver.
Qed.
Lemma split_last_None b u : b ∉ u -> split_last b u = None.
Proof.
  induction u as [|x u IH]; intros Hn; simpl; [done|]. rewrite IH by set_solver. by rewrite decide_False by set_solver.
Qed.
Lemma split_last_app b u v : b ∉ v -> split_last b (u ++ b :: v) = Some (u, v).
Proof.
  intros Hv. induction u as [|x u IH]; simpl; [|by rewrite IH].
  rewrite split_last_None by done. by rewrite decide_True.
Qed.

(** Digits are not separators. *)
Lemma dec_no b z : 0 <= z < 10 ^ 20 -> isdigit b = false -> b ∉ dec z.
Proof.
  intros Hz Hb Hin. destruct (dec_spec z Hz) as [[_ Hall] _].
  apply (proj1 (list.Forall_forall _ _) Hall) in Hin. congruence.
Qed.

Lemma dec_length z : zlen (dec z) <= 20.
Proof.
  unfold dec. cut (forall n z acc, zlen (dec_digits n z acc) <= Z.of_nat n + zlen acc).
  { intros H. specialize (H 20%nat z []). rewrite zlen_nil in H. lia. }
  clear. induction n as [|n IH]; intros z acc; cbn [dec_digits]; [lia|].
  case_decide; [rewrite zlen_cons; lia|]. etransitivity; [apply IH|]. rewrite zlen_cons. lia.
Qed.

(** Targets round-trip: the URL written for a user, host, port and
    absolute path parses back to exactly them; a missing user or port stays
    missing. *)
Theorem target_parse_roundtrip t : target_ok t -> ssh_target_parse (target_url t) = Some t.
Proof.
  intros [(Hu1 & Hu2 & Hu3) (Hh0 & Hh1 & Hh2 & Hh3 & Hh4) Hport (Hp1 & Hp2)].
  destruct t as [user host port path]. simpl in *. destruct path as [|x path]; [done|]. injection Hp1 as ->.
  set (us := if decide (user = []) then [] else user ++ [AT]).
  set (ps := if decide (port = 0) then [] else COLON :: dec port).
  assert (Hps : (SLASH ∉ ps) /\ (AT ∉ ps) /\ zlen ps <= 21).
  { subst ps. case_decide; [split_and!; [set_solver|set_solver|by rewrite zlen_nil]|].
    pose proof (dec_length port). rewrite !not_elem_of_cons, zlen_cons.
    split_and!; [done|apply dec_no; [lia|done]|done|apply dec_no; [lia|done]|lia]. }
  destruct Hps as (Hps1 & Hps2 & Hps3).
  assert (Hus : (SLASH ∉ us) /\ zlen us <= zlen user + 1).
  { subst us. case_decide; [split; [set_solver|rewrite zlen_nil; pose proof (zlen_nonneg user); lia]|].
    rewrite zlen_app. split; [set_solver|done]. }
  destruct Hus as [Hus1 Hus2].
  unfold ssh_target_parse, target_url. simpl t_user. simpl t_host. simpl t_port. simpl t_path. fold us ps.
  change (ssh_target_is_url _) with true. cbn [negb].
  change (drop 6 (str "ssh://" ++ us ++ host ++ ps ++ SLASH :: path)) with (us ++ host ++ ps ++ SLASH :: path).
  rewrite !(assoc_L (++)). rewrite split_first_app by (rewrite !not_elem_of_app; by split_and!).
  rewrite <- !(assoc_L (++)).
  assert (Hhl : 0 < zlen host) by (destruct host; [done|rewrite zlen_cons; pose proof (zlen_nonneg host); lia]).
  pose proof (zlen_nonneg us). pose proof (zlen_nonneg ps).
  rewrite decide_False by (rewrite !zlen_app; unfold USER_SZ in *; lia).
  rewrite decide_False by lia.
  assert (Hsplit : (match split_first AT (us ++ host ++ ps) with Some (u, h) => (u, h) | None => ([], us ++ host ++ ps) end)
    = (user, host ++ ps)).
  { subst us. case_decide as Hd.
    - subst user. rewrite app_nil_l. rewrite split_first_None; [done|]. rewrite not_elem_of_app. by split.
    - rewrite <- (assoc_L (++)). cbn [app]. by rewrite split_first_app. }
  rewrite Hsplit. rewrite decide_False by lia.
  destruct (decide (port = 0)) as [Hd|Hd]; subst ps.
  - rewrite app_nil_r, split_last_None by done.
    rewrite decide_False by done. rewrite decide_False by (unfold HOST_SZ; lia). by rewrite Hd.
  - rewrite split_last_app by (apply dec_no; [lia|done]).
    rewrite strtol_dec by (unfold LONG_MAX; lia). cbn [st_end st_val].
    rewrite decide_False by (intros [?|[?|?]]; [done|lia|lia]).
    rewrite decide_False by done. rewrite decide_False by (unfold HOST_SZ; lia). done.
Qed.

Definition sample_target : ssh_target := SshTarget (str "alice") (str "example.org") 2222 (str "/data/out").

Lemma target_parse_roundtrip_witness :
  ssh_target_parse (str "ssh://alice@example.org:2222/data/out") = Some sample_target.
Proof.
  change (str "ssh://alice@example.org:2222/data/out") with (target_url sample_target).
  apply target_parse_roundtrip. split; simpl; split_and!; try done; apply (bool_decide_unpack _); by vm_compute.
Defined.

(** * The connection pool *)

Lemma establish_length attempt k n : (length (establish attempt k n).1 <= n)%nat.
Proof.
  revert k. induction n as [|n IH]; intros k; simpl; [lia|].
  destruct (attempt k); simpl; [|lia]. specialize (IH (S k)). destruct (establish attempt (S k) n). simpl in *. lia.
Qed.

(** The pool is partitioned soundly: after a successful connect
    there are at least one and at most 16 copy connections followed by the
    verify connections; a copy thread is always bound to an existing copy
    connection and a verify thread to an existing verify connection, or to any
    connection when there is none. *)
Theorem pool_partition attempt env p p' idx :
  0 <= p_verify_want p <= 16 -> sshx_connect attempt env p = Some p' ->
  1 <= p_verify_base p' <= 16 /\ 0 <= p_nverify p' <= p_verify_want p /\
  zlen (p_conns p') = p_verify_base p' + p_nverify p' /\
  (exists i, bind_index (zlen (p_conns p')) (p_verify_base p') (p_nverify p') idx = Some i /\
     Z.of_nat i < p_verify_base p') /\
  (exists i, bind_index_verify (zlen (p_conns p')) (p_verify_base p') (p_nverify p') idx = Some i /\
     (i < length (p_conns p'))%nat /\ (0 < p_nverify p' -> p_verify_base p' <= Z.of_nat i)).
Proof.
  intros Hv Hc. unfold sshx_connect in Hc. destruct (attempt 0%nat) as [master|]; [|done].
  set (want := Z.to_nat (want_connections env)) in *.
  assert (Hw : (1 <= want <= 16)%nat).
  { subst want. unfold want_connections. repeat case_decide; lia. }
  pose proof (establish_length attempt 1 (want - 1)) as Hl1.
  destruct (establish attempt 1 (want - 1)) as [more k]. simpl in Hl1.
  pose proof (establish_length attempt k (Z.to_nat (p_verify_want p))) as Hl2.
  destruct (establish attempt k (Z.to_nat (p_verify_want p))) as [verify k']. simpl in Hl2, Hc.
  injection Hc as <-. cbn [p_verify_base p_nverify p_conns set_p_nverify set_p_verify_base set_p_conns].
  change (master :: more ++ verify) with ((master :: more) ++ verify). rewrite zlen_app, zlen_cons.
  assert (Hm : 0 <= zlen more <= 15) by (unfold zlen; lia).
  assert (Hn : 0 <= zlen verify <= 16) by (unfold zlen; lia).
  split_and!; [lia|lia|lia|unfold zlen in *; lia|lia| |].
  - unfold bind_index. rewrite decide_False by lia. eexists. split; [done|].
    case_decide.
    + rewrite (u32_small (1 + zlen more)) by (unfold is_u32; lia).
      pose proof (Z.mod_pos_bound (u32 idx) (1 + zlen more)). lia.
    + replace (1 + zlen more + zlen verify) with (1 + zlen more) by lia.
      rewrite (u32_small (1 + zlen more)) by (unfold is_u32; lia).
      pose proof (Z.mod_pos_bound (u32 idx) (1 + zlen more)). lia.
  - unfold bind_index_verify. rewrite decide_False by lia. eexists. split; [done|].
    rewrite length_app. cbn [length]. case_decide.
    + rewrite (u32_small (zlen verify)) by (unfold is_u32; lia).
      pose proof (Z.mod_pos_bound (u32 idx) (zlen verify)). unfold zlen in *. lia.
    + rewrite (u32_small (1 + zlen more + zlen verify)) by (unfold is_u32; lia).
      pose proof (Z.mod_pos_bound (u32 idx) (1 + zlen more + zlen verify)). unfold zlen in *. lia.
Qed.

Definition pool0 : pool := Pool [] 0 0 0 None (0, 0) [0; 0; 0; 0; 0; 0].

Lemma pool_partition_witness :
  exists i, bind_index_verify 5 4 1 77 = Some i /\ (i < 5)%nat.
Proof.
  pose (p := set_p_verify_want 1 pool0).
  assert (Hc : sshx_connect (fun _ => Some (conn0 8192)) None p =
    Some (set_p_nverify 1 (set_p_verify_base 4 (set_p_conns (replicate 5 (conn0 8192)) p)))) by (by vm_compute).
  destruct (pool_partition (fun _ => Some (conn0 8192)) None p _ 77 ltac:(by vm_compute) Hc)
    as (_ & _ & _ & _ & i & Hi & Hlt & _). by exists i.
Defined.
