(* ===== verification/VerifySample.v ===== *)
(** Which blocks of a file are verified (src/verify.c): the map of a sparse
    file's data, the domain of blocks to sample from, how many, and which.

    C's double is binary64 (Stdlib's SpecFloat, which has no axioms). qsort is
    a stable sort here; equal offsets only occur for blocks that two extents
    share. *)

From Stdlib Require Import SpecFloat.
From S2P Require Export ServerVerify.
From stdpp Require Import list sorting.
#[local] Open Scope Z_scope.

(** * Hashing *)

Definition mix64 (x : Z) : Z :=
  let x := Z.lxor x (Z.shiftr x 30) in
  let x := u64 (x * 0xbf58476d1ce4e5b9) in
  let x := Z.lxor x (Z.shiftr x 27) in
  let x := u64 (x * 0x94d049bb133111eb) in
  Z.lxor x (Z.shiftr x 31).
Definition path_hash (s : bytes) : Z :=
  foldl (fun h b => u64 (Z.lxor h (byte.unsigned b) * 1099511628211)) 1469598103934665603 s.

(** * The data of a sparse file *)

(** [extent_map_t]. *)
Record extent_map := ExtentMap { em_extents : list (Z * Z); em_cap : Z; em_supported : bool }.
Definition no_map : extent_map := ExtentMap [] 0 false.

Section programs.
Context {S : Type}.

Definition seek_unsupported (e : Z) : bool := bool_decide (e = EINVAL \/ e = ENOTSUP \/ e = EOPNOTSUPP).

(** [false] stands for -1; the map keeps what it has then. [fuel] is the number
    of positions left. *)
Fixpoint extent_map_loop (fuel : nat) (fd size pos : Z) (map : extent_map) : M posix S (bool * extent_map) :=
  match fuel with
  | O => mret (true, map)
  | Datatypes.S fuel =>
      if decide (pos < size) then
        data ← call (seek_data fd pos);
        match data with
        | Err e => mret (if decide (e = ENXIO) then (true, map) else if seek_unsupported e then (true, no_map) else (false, map))
        | Ok data =>
            hole ← call (seek_hole fd data);
            match hole with
            | Err e => mret (if seek_unsupported e then (true, no_map) else (false, map))
            | Ok hole =>
                let hole := if decide (size < hole) then size else hole in
                let full := bool_decide (zlen (em_extents map) = em_cap map) in
                let cap := if decide (em_cap map = 0) then 16 else em_cap map * 2 in
                ok ← (if full then call (malloc (cap * 16)) else mret true);
                if negb ok then mret (false, map) else
                let map := ExtentMap (em_extents map ++ [(data, hole)]) (if full then cap else em_cap map) (em_supported map) in
                extent_map_loop fuel fd size (if decide (pos < hole) then hole else pos + 1) map
            end
        end
      else mret (true, map)
  end.
Definition extent_map_build (fd size : Z) : M posix S (bool * extent_map) :=
  extent_map_loop (Z.to_nat size) fd size 0 (ExtentMap [] 0 true).
End programs.

(** Binary search: the first extent that ends behind [offset]. *)
Fixpoint bsearch_end (fuel : nat) (ext : list (Z * Z)) (offset : Z) (lo hi : nat) : nat :=
  match fuel with
  | O => lo
  | S fuel =>
      if decide (lo < hi)%nat then
        let mid := (lo + (hi - lo) / 2)%nat in
        if decide ((default (0, 0) (ext !! mid)).2 <= offset) then bsearch_end fuel ext offset (S mid) hi
        else bsearch_end fuel ext offset lo mid
      else lo
  end.
Definition extent_map_range_is_hole (map : extent_map) (offset length : Z) : bool :=
  if negb (em_supported map) then false else
  let ext := em_extents map in
  let lo := bsearch_end (List.length ext) ext offset 0 (List.length ext) in
  bool_decide (lo = List.length ext) || bool_decide (offset + length <= (default (0, 0) (ext !! lo)).1).

(** * The domain *)

(** [sample_domain_t]. *)
Record sample_domain := SampleDomain { sd_map : option extent_map; sd_size : Z; sd_cum : list Z; sd_n : Z; sd_bytes : Z }.

(** Block numbers of an extent: from the block of its first byte to behind the
    block of its last. *)
Definition first_block (e : Z * Z) : Z := e.1 / VERIFY_BLOCK_SIZE.
Definition last_block (e : Z * Z) : Z := (e.2 + VERIFY_BLOCK_SIZE - 1) / VERIFY_BLOCK_SIZE.
Fixpoint cum_from (total : Z) (ext : list (Z * Z)) : list Z :=
  match ext with [] => [] | e :: ext => total :: cum_from (total + (last_block e - first_block e)) ext end.
Definition total_blocks (ext : list (Z * Z)) : Z := foldl (fun t e => t + (last_block e - first_block e)) 0 ext.
Definition total_bytes (ext : list (Z * Z)) : Z := foldl (fun t e => t + (e.2 - e.1)) 0 ext.

Definition sample_domain_init {S} (map : extent_map) (size : Z) : M posix S (option sample_domain) :=
  if negb (em_supported map) then
    mret (Some (SampleDomain None size [] ((size + VERIFY_BLOCK_SIZE - 1) / VERIFY_BLOCK_SIZE) size))
  else
    let ext := em_extents map in
    ok ← (if decide (0 < zlen ext) then call (malloc (zlen ext * 8)) else mret true);
    mret (if (ok : bool) then Some (SampleDomain (Some map) size (cum_from 0 ext) (total_blocks ext) (total_bytes ext)) else None).

(** The extent [i] with [cum[i] <= ordinal < cum[i+1]]. *)
Fixpoint bsearch_cum (fuel : nat) (cum : list Z) (ordinal : Z) (lo hi : nat) : nat :=
  match fuel with
  | O => lo
  | S fuel =>
      if decide (1 < hi - lo)%nat then
        let mid := (lo + (hi - lo) / 2)%nat in
        if decide (default 0 (cum !! mid) <= ordinal) then bsearch_cum fuel cum ordinal mid hi
        else bsearch_cum fuel cum ordinal lo mid
      else lo
  end.
(** Offset and length of a block. *)
Definition sample_domain_offset (d : sample_domain) (ordinal : Z) : Z * Z :=
  let o := match sd_map d with
           | None => ordinal * VERIFY_BLOCK_SIZE
           | Some map =>
               let ext := em_extents map in
               let lo := bsearch_cum (List.length ext) (sd_cum d) ordinal 0 (List.length ext) in
               (first_block (default (0, 0) (ext !! lo)) + (ordinal - default 0 (sd_cum d !! lo))) * VERIFY_BLOCK_SIZE
           end in
  let l := u64 (sd_size d - o) in
  (o, if decide (VERIFY_BLOCK_SIZE < l) then VERIFY_BLOCK_SIZE else l).

(** * How many *)

Definition f64_of_Z (z : Z) : spec_float := binary_normalize 53 1024 z 0 false.
Definition f64_100 : spec_float := f64_of_Z 100.
(** The double nearest to 99.999999. *)
Definition f64_99_999999 : spec_float := S754_finite false 7036874347397656 (-46).
(** Conversion to an unsigned integer truncates; it is undefined in C for a value
    out of range. *)
Definition Z_of_f64 (x : spec_float) : Z :=
  match x with
  | S754_finite s m e => let v := if decide (0 <= e) then Zpos m * 2 ^ e else Zpos m / 2 ^ (- e) in if s then - v else v
  | _ => 0
  end.
Definition sample_target (percent : spec_float) (n : Z) : Z :=
  let t := Z_of_f64 (SFdiv 53 1024 (SFadd 53 1024 (SFmul 53 1024 percent (f64_of_Z n)) f64_99_999999) f64_100) in
  let least := if decide (n = 1) then 1 else 2 in
  let t := if decide (t < least) then least else t in
  if decide (n < t) then n else t.

(** * Which *)

(** The power of two the indices are permuted in. *)
Fixpoint domain_loop (fuel : nat) (domain n : Z) : Z :=
  match fuel with
  | O => domain
  | S fuel => if decide (domain < n) then domain_loop fuel (Z.shiftl domain 1) n else domain
  end.
Definition domain_for (n : Z) : Z := domain_loop 64 1 n.

(** The indices of the permutation from [j] on, until [target] are chosen. *)
Fixpoint permute_loop (fuel : nat) (a b domain n target j emitted : Z) : list Z :=
  match fuel with
  | O => []
  | S fuel =>
      if decide (emitted < target /\ j < domain) then
        let idx := u64 (a * j + b) &. (domain - 1) in
        if decide (n <= idx \/ idx = 0 \/ idx = n - 1) then permute_loop fuel a b domain n target (j + 1) emitted
        else idx :: permute_loop fuel a b domain n target (j + 1) (emitted + 1)
      else []
  end.

Record sample_desc := SampleDesc { ds_index : Z; ds_offset : Z; ds_length : Z }.
Definition describe (dom : sample_domain) (idx : Z) : sample_desc :=
  let '(off, len) := sample_domain_offset dom idx in SampleDesc idx off len.

(** The indices in the order they are appended. *)
Definition sample_indices (seed : Z) (src : bytes) (size target n : Z) : list Z :=
  if decide (target = n) then seqZ 0 n else
  let ends := [0; n - 1] in
  if decide (target <= 2 \/ n <= 2) then ends else
  let s := mix64 (Z.lxor (Z.lxor seed (path_hash src)) size) in
  let domain := domain_for n in
  let a := Z.lor (mix64 s) 1 in
  let b := mix64 (Z.lxor s 0x9e3779b97f4a7c15) &. (domain - 1) in
  ends ++ permute_loop (Z.to_nat domain) a b domain n target 0 2.

(** Batches of [VERIFY_BATCH_MAX], each in the order of the file. *)
Definition by_offset (x y : sample_desc) : Prop := ds_offset x <= ds_offset y.
#[export] Instance by_offset_dec x y : Decision (by_offset x y).
Proof. unfold by_offset. apply _. Defined.
Fixpoint emit_batches (fuel : nat) (l : list sample_desc) : list sample_desc :=
  match fuel, l with
  | _, [] | O, _ => []
  | S fuel, _ =>
      let k := Z.to_nat VERIFY_BATCH_MAX in
      merge_sort by_offset (take k l) ++ emit_batches fuel (drop k l)
  end.

(** The samples of a file in the order the callback sees them. *)
Definition samples (seed : Z) (percent : spec_float) (src : bytes) (size : Z) (dom : sample_domain) : list sample_desc :=
  let n := sd_n dom in
  if decide (size <= 0 \/ n = 0) then [] else
  let target := sample_target percent n in
  let l := describe dom <$> sample_indices seed src size target n in
  if decide (target = n) then l else emit_batches (List.length l) l.

(** [for_each_sample] stops at the first callback that fails. *)
Fixpoint each_sample {S} (cb : sample_desc -> M posix S bool) (l : list sample_desc) : M posix S bool :=
  match l with
  | [] => mret true
  | x :: l => ok ← cb x; if (ok : bool) then each_sample cb l else mret false
  end.

(** * The choice *)

Lemma domain_loop_pow fuel k n : 0 <= k -> exists k', k <= k' <= k + Z.of_nat fuel /\ domain_loop fuel (2 ^ k) n = 2 ^ k' /\ (n <= 2 ^ k' \/ k' = k + Z.of_nat fuel).
Proof.
  revert k. induction fuel as [|fuel IH]; intros k Hk; cbn [domain_loop]; [exists k; split_and!; [lia|lia|done|right; lia]|].
  case_decide; [|exists k; split_and!; [lia|lia|done|left; lia]].
  rewrite Z.shiftl_mul_pow2 by lia. replace (2 ^ k * 2 ^ 1) with (2 ^ (k + 1)) by (rewrite Z.pow_add_r by lia; lia).
  destruct (IH (k + 1)) as (k' & H1 & H2 & H3); [lia|]. exists k'. split_and!; [lia|lia|done|]. destruct H3; [by left|right; lia].
Qed.
Lemma domain_for_spec n : n <= 2 ^ 64 -> exists k, 0 <= k <= 64 /\ domain_for n = 2 ^ k /\ n <= 2 ^ k.
Proof.
  intros Hn. destruct (domain_loop_pow 64 0 n) as (k & H1 & H2 & H3); [lia|]. exists k. split_and!; [lia|lia|done|].
  destruct H3 as [H3| ->]; [done|]. exact Hn.
Qed.

(** An odd factor permutes the residues of a power of two. *)
Definition step_index (a b k j : Z) : Z := (a * j + b) mod 2 ^ k.
Lemma step_index_inj a b k i j :
  0 <= k -> Z.odd a = true -> 0 <= i < 2 ^ k -> 0 <= j < 2 ^ k -> step_index a b k i = step_index a b k j -> i = j.
Proof.
  intros Hk Ha Hi Hj H. unfold step_index in H. assert (Hpos : 0 < 2 ^ k) by (apply Z.pow_pos_nonneg; lia).
  assert (Hd : (2 ^ k | a * (i - j))).
  { apply Z.mod_divide; [lia|]. replace (a * (i - j)) with ((a * i + b) - (a * j + b)) by lia.
    rewrite Zminus_mod, H, Z.sub_diag. by rewrite Z.mod_0_l by lia. }
  apply Z.gauss in Hd.
  - destruct Hd as [q Hq]. assert (q = 0) by nia. lia.
  - apply Z.coprime_pow_l; [done|]. destruct (Z.odd_spec a) as [[q ->] _]; [done|].
    unfold Z.coprime. rewrite Z.gcd_comm, Z.add_comm, Z.mul_comm, Z.gcd_comm, Z.gcd_add_mult_diag_r. by apply Z.gcd_1_r.
Qed.
Lemma step_index_masked a b k j : 0 <= k <= 64 -> u64 (a * j + b) &. (2 ^ k - 1) = step_index a b k j.
Proof.
  intros Hk. replace (2 ^ k - 1) with (Z.ones k) by (rewrite Z.ones_equiv; lia). rewrite Z.land_ones by lia.
  unfold u64, step_index. replace (2 ^ 64) with (2 ^ k * 2 ^ (64 - k)) by (rewrite <- Z.pow_add_r by lia; f_equal; lia).
  rewrite Z.rem_mul_r by (apply Z.pow_nonzero || apply Z.pow_pos_nonneg; lia).
  rewrite (Z.mul_comm (2 ^ k)), Z.mod_add by (apply Z.pow_nonzero; lia). by rewrite Z.mod_mod by (apply Z.pow_nonzero; lia).
Qed.

Definition inner (n idx : Z) : Prop := ~ (n <= idx \/ idx = 0 \/ idx = n - 1).
#[export] Instance inner_dec n idx : Decision (inner n idx).
Proof. unfold inner. apply _. Defined.

Lemma permute_loop_take fuel a b k n target j emitted :
  0 <= k <= 64 -> 0 <= j -> 2 ^ k - j <= Z.of_nat fuel ->
  permute_loop fuel a b (2 ^ k) n target j emitted =
  take (Z.to_nat (target - emitted)) (filter (inner n) (step_index a b k <$> seqZ j (2 ^ k - j))).
Proof.
  intros Hk. revert j emitted. induction fuel as [|fuel IH]; intros j emitted Hj Hf.
  { rewrite seqZ_nil by lia. by destruct (Z.to_nat _). }
  cbn [permute_loop]. destruct (decide (emitted < target /\ j < 2 ^ k)) as [[He Hjk]|Hno].
  2: { destruct (decide (emitted < target)) as [|]; [rewrite seqZ_nil by lia; by destruct (Z.to_nat _)|].
       by replace (Z.to_nat (target - emitted)) with 0%nat by lia. }
  rewrite step_index_masked by done. rewrite (seqZ_cons j) by lia. cbn [fmap list_fmap].
  replace (Z.succ j) with (j + 1) by lia. replace (Z.pred (2 ^ k - j)) with (2 ^ k - (j + 1)) by lia.
  rewrite filter_cons. destruct (decide (n <= step_index a b k j \/ _)) as [Hout|Hin].
  - rewrite decide_False by (unfold inner; tauto). apply IH; lia.
  - rewrite decide_True by done. replace (Z.to_nat (target - emitted)) with (S (Z.to_nat (target - (emitted + 1)))) by lia.
    cbn [take]. f_equal. apply IH; lia.
Qed.

Lemma inner_permuted a b k n :
  0 <= k -> Z.odd a = true -> 2 <= n <= 2 ^ k ->
  filter (inner n) (step_index a b k <$> seqZ 0 (2 ^ k - 0)) ≡ₚ seqZ 1 (n - 2).
Proof.
  intros Hk Ha Hn. rewrite Z.sub_0_r. assert (Hpos : 0 < 2 ^ k) by (apply Z.pow_pos_nonneg; lia).
  assert (HL : step_index a b k <$> seqZ 0 (2 ^ k) ≡ₚ seqZ 0 (2 ^ k)).
  { apply submseteq_length_Permutation; [|by rewrite length_fmap].
    apply NoDup_submseteq.
    - apply NoDup_fmap_2_strong; [|apply NoDup_seqZ]. intros i j Hi%elem_of_seqZ Hj%elem_of_seqZ. apply step_index_inj; [done|done|lia|lia].
    - intros x (j & -> & _)%list_elem_of_fmap. apply elem_of_seqZ. unfold step_index. pose proof (Z.mod_pos_bound (a * j + b) (2 ^ k)). lia. }
  rewrite HL. apply NoDup_Permutation; [apply NoDup_filter, NoDup_seqZ|apply NoDup_seqZ|].
  intros x. rewrite list_elem_of_filter, !elem_of_seqZ. unfold inner. lia.
Qed.

(** The indices are [target] different blocks, the first and the last among
    them. *)
Lemma sample_indices_spec seed src size target n :
  1 <= n <= 2 ^ 64 -> (if decide (n = 1) then 1 else 2) <= target <= n ->
  let l := sample_indices seed src size target n in
  NoDup l /\ zlen l = target /\ (forall i, i ∈ l -> 0 <= i < n) /\ 0 ∈ l /\ n - 1 ∈ l.
Proof.
  intros Hn Ht. unfold sample_indices. destruct (decide (target = n)) as [->|Hneq].
  { cbn zeta. split_and!; [apply NoDup_seqZ|unfold zlen; rewrite length_seqZ; lia|by intros i ?%elem_of_seqZ; lia|apply elem_of_seqZ; lia..]. }
  destruct (decide (n = 1)) as [->|Hn1]; [lia|].
  assert (Hends : forall l, NoDup l -> (forall i, i ∈ l -> 0 < i < n - 1) -> NoDup ([0; n - 1] ++ l)).
  { intros l Hl Hin. apply NoDup_app. split_and!; [|intros i Hi Hil; apply Hin in Hil; set_solver by lia|done].
    repeat constructor; set_solver by lia. }
  case_decide as Hfew.
  { cbn zeta. split_and!.
    - rewrite <- (app_nil_r [0; n - 1]). apply Hends; [constructor|]. intros i Hi. by apply not_elem_of_nil in Hi.
    - change (2 = target). lia.
    - intros i Hi. set_solver by lia.
    - set_solver.
    - set_solver. }
  cbn zeta. set (s := mix64 (Z.lxor (Z.lxor seed _) _)). destruct (domain_for_spec n) as (k & Hk & -> & Hnk); [lia|].
  set (b := Z.land (mix64 (Z.lxor s _)) _). set (a := Z.lor (mix64 s) 1).
  assert (Ha : Z.odd a = true) by (unfold a; rewrite <- Z.bit0_odd, Z.lor_spec; cbn; by rewrite orb_true_r).
  rewrite permute_loop_take by (try lia; rewrite Z2Nat.id; lia).
  pose proof (inner_permuted a b k n ltac:(lia) Ha ltac:(lia)) as HP. set (F := filter _ _) in *.
  assert (HFin : forall i, i ∈ take (Z.to_nat (target - 2)) F -> 0 < i < n - 1).
  { intros i (x & Hx & _)%elem_of_take. apply list_elem_of_lookup_2 in Hx. rewrite HP in Hx. apply elem_of_seqZ in Hx. lia. }
  assert (HFlen : length F = Z.to_nat (n - 2)) by (rewrite (Permutation_length HP); by rewrite length_seqZ).
  split_and!.
  - apply Hends; [|done]. assert (HF : NoDup F) by (rewrite HP; apply NoDup_seqZ). rewrite <- (take_drop (Z.to_nat (target - 2)) F) in HF. by apply NoDup_app in HF as [? _].
  - unfold zlen. rewrite length_app, length_take, HFlen. cbn [length]. lia.
  - intros i [Hi|Hi]%elem_of_app; [set_solver by lia|apply HFin in Hi; lia].
  - set_solver.
  - set_solver.
Qed.

Lemma emit_batches_perm fuel l : (length l <= fuel)%nat -> emit_batches fuel l ≡ₚ l.
Proof.
  revert l. induction fuel as [|fuel IH]; intros l Hl; [by destruct l; [|simpl in Hl; lia]|].
  destruct l as [|x l]; [done|]. cbn [emit_batches]. set (k := Z.to_nat VERIFY_BATCH_MAX). rewrite merge_sort_Permutation, IH.
  - by rewrite take_drop.
  - rewrite length_drop. simpl in *. unfold VERIFY_BATCH_MAX in k. lia.
Qed.
Lemma sample_target_bounds percent n : 1 <= n -> (if decide (n = 1) then 1 else 2) <= sample_target percent n <= n.
Proof. intros Hn. unfold sample_target. set (t := Z_of_f64 _). repeat case_decide; lia. Qed.

(** * The domain covers the data *)

Definition blocks (e : Z * Z) : Z := last_block e - first_block e.
(** Extents in order, not empty, within the file. *)
Definition extents_ok (size : Z) (ext : list (Z * Z)) : Prop :=
  Forall (fun e => 0 <= e.1 < e.2 /\ e.2 <= size) ext.

Lemma blocks_pos e : 0 <= e.1 < e.2 -> 0 < blocks e.
Proof.
  intros H. unfold blocks, last_block, first_block, VERIFY_BLOCK_SIZE.
  pose proof (Z.div_mod e.1 4096 ltac:(lia)). pose proof (Z.mod_pos_bound e.1 4096 ltac:(lia)).
  pose proof (Z.div_mod (e.2 + 4096 - 1) 4096 ltac:(lia)). pose proof (Z.mod_pos_bound (e.2 + 4096 - 1) 4096 ltac:(lia)). lia.
Qed.
Lemma block_in_extent e q :
  0 <= e.1 < e.2 -> 0 <= q < blocks e ->
  0 <= (first_block e + q) * VERIFY_BLOCK_SIZE < e.2 /\ e.1 < (first_block e + q) * VERIFY_BLOCK_SIZE + VERIFY_BLOCK_SIZE.
Proof.
  intros H Hq. unfold blocks, last_block, first_block, VERIFY_BLOCK_SIZE in *.
  pose proof (Z.div_mod e.1 4096 ltac:(lia)). pose proof (Z.mod_pos_bound e.1 4096 ltac:(lia)).
  pose proof (Z.div_mod (e.2 + 4096 - 1) 4096 ltac:(lia)). pose proof (Z.mod_pos_bound (e.2 + 4096 - 1) 4096 ltac:(lia)). lia.
Qed.
Lemma total_blocks_sum ext : total_blocks ext = sumZ blocks ext.
Proof.
  unfold total_blocks. assert (H : forall t, foldl (fun t e => t + (last_block e - first_block e)) t ext = t + sumZ blocks ext).
  { induction ext as [|e ext IH]; intros t; cbn; [lia|]. rewrite IH. unfold blocks at 2. fold (sumZ blocks ext). lia. }
  by rewrite H.
Qed.
Lemma cum_from_lookup t ext i : (i < length ext)%nat -> cum_from t ext !! i = Some (t + sumZ blocks (take i ext)).
Proof.
  revert t i. induction ext as [|e ext IH]; intros t i Hi; [simpl in Hi; lia|]. destruct i as [|i]; cbn [cum_from].
  - cbn. f_equal. lia.
  - cbn [lookup list_lookup take]. rewrite IH by (simpl in Hi; lia). f_equal. cbn. fold (sumZ blocks (take i ext)). unfold blocks at 2. lia.
Qed.
Lemma sum_take_S ext i e : ext !! i = Some e -> sumZ blocks (take (S i) ext) = sumZ blocks (take i ext) + blocks e.
Proof.
  revert i. induction ext as [|x ext IH]; intros [|i] H; simplify_eq/=; [lia|]. specialize (IH i H). cbn in IH. unfold sumZ in *. lia.
Qed.

Lemma sum_take_mono ext i j : Forall (fun e => 0 <= e.1 < e.2) ext -> (i <= j)%nat -> sumZ blocks (take i ext) <= sumZ blocks (take j ext).
Proof.
  intros Hok Hij. induction Hij as [|j _ IH]; [lia|]. destruct (ext !! j) as [e|] eqn:E.
  - rewrite (sum_take_S _ _ _ E). pose proof (Forall_lookup_1 _ _ _ _ Hok E) as He. pose proof (blocks_pos e He). lia.
  - apply lookup_ge_None in E. rewrite (take_ge ext (S j)) by lia. by rewrite (take_ge ext j) in IH by lia.
Qed.

(** The binary search finds the extent of an ordinal. *)
Lemma bsearch_cum_spec fuel ext ordinal lo hi :
  Forall (fun e => 0 <= e.1 < e.2) ext -> (lo < hi <= length ext)%nat -> (hi - lo <= S fuel)%nat ->
  sumZ blocks (take lo ext) <= ordinal < sumZ blocks (take hi ext) ->
  let i := bsearch_cum fuel (cum_from 0 ext) ordinal lo hi in
  (i < length ext)%nat /\ sumZ blocks (take i ext) <= ordinal < sumZ blocks (take (S i) ext).
Proof.
  intros Hok. revert lo hi. induction fuel as [|fuel IH]; intros lo hi Hlh Hf Ho; cbn [bsearch_cum].
  { replace hi with (S lo) in Ho by lia. split; [lia|done]. }
  case_decide as Hgap.
  2: { replace hi with (S lo) in Ho by lia. split; [lia|done]. }
  cbv zeta. set (mid := (lo + (hi - lo) / 2)%nat).
  assert (Hmid : (lo < mid < hi)%nat).
  { unfold mid. pose proof (Nat.div_le_lower_bound (hi - lo) 2 1 ltac:(lia) ltac:(lia)). pose proof (Nat.div_lt (hi - lo) 2 ltac:(lia) ltac:(lia)). lia. }
  rewrite cum_from_lookup by lia. cbn [default from_option id]. case_decide as Hle; apply IH; lia.
Qed.

Section domain.
Context (size : Z) (Hsize : 0 < size < 2 ^ 63).

(** What a block must be: within the file, and not empty. *)
Definition block_ok (s : Z * Z) : Prop := 0 <= s.1 /\ 1 <= s.2 <= VERIFY_BLOCK_SIZE /\ s.1 + s.2 <= size.

Lemma block_length o : 0 <= o < size -> let l := u64 (size - o) in
  (if decide (VERIFY_BLOCK_SIZE < l) then VERIFY_BLOCK_SIZE else l) = Z.min VERIFY_BLOCK_SIZE (size - o).
Proof. intros Ho. cbv zeta. rewrite u64_small by (unfold is_u64; lia). case_decide; lia. Qed.

Definition dense_domain : sample_domain := SampleDomain None size [] ((size + VERIFY_BLOCK_SIZE - 1) / VERIFY_BLOCK_SIZE) size.
Lemma dense_block i : 0 <= i < sd_n dense_domain ->
  block_ok (sample_domain_offset dense_domain i) /\ (sample_domain_offset dense_domain i).1 = i * VERIFY_BLOCK_SIZE.
Proof.
  intros Hi. unfold sample_domain_offset. cbn [dense_domain sd_map sd_size sd_n fst snd] in *.
  assert (Ho : 0 <= i * VERIFY_BLOCK_SIZE < size).
  { unfold VERIFY_BLOCK_SIZE in *. pose proof (Z.div_mod (size + 4096 - 1) 4096 ltac:(lia)). pose proof (Z.mod_pos_bound (size + 4096 - 1) 4096 ltac:(lia)). nia. }
  rewrite block_length by done. unfold block_ok. cbn [fst snd]. unfold VERIFY_BLOCK_SIZE in *. lia.
Qed.
Lemma dense_covers x : 0 <= x < size ->
  exists i, 0 <= i < sd_n dense_domain /\ let '(off, len) := sample_domain_offset dense_domain i in off <= x < off + len.
Proof.
  intros Hx. exists (x / VERIFY_BLOCK_SIZE).
  pose proof (Z.div_mod x 4096 ltac:(lia)). pose proof (Z.mod_pos_bound x 4096 ltac:(lia)).
  pose proof (Z.div_mod (size + 4096 - 1) 4096 ltac:(lia)). pose proof (Z.mod_pos_bound (size + 4096 - 1) 4096 ltac:(lia)).
  split; [cbn; unfold VERIFY_BLOCK_SIZE; split; [apply Z.div_pos; lia|nia]|].
  unfold sample_domain_offset. cbn [dense_domain sd_map sd_size].
  rewrite block_length by (unfold VERIFY_BLOCK_SIZE; nia). unfold VERIFY_BLOCK_SIZE. nia.
Qed.

Definition sparse_domain (map : extent_map) : sample_domain :=
  SampleDomain (Some map) size (cum_from 0 (em_extents map)) (total_blocks (em_extents map)) (total_bytes (em_extents map)).

(** An ordinal is a block of one extent. *)
Lemma sparse_block map i :
  extents_ok size (em_extents map) -> 0 <= i < sd_n (sparse_domain map) ->
  exists k e, em_extents map !! k = Some e /\ 0 <= i - sumZ blocks (take k (em_extents map)) < blocks e /\
    sample_domain_offset (sparse_domain map) i =
      (let o := (first_block e + (i - sumZ blocks (take k (em_extents map)))) * VERIFY_BLOCK_SIZE in (o, Z.min VERIFY_BLOCK_SIZE (size - o))) /\
    block_ok (sample_domain_offset (sparse_domain map) i).
Proof.
  intros Hok Hi. set (ext := em_extents map) in *.
  assert (Hok' : Forall (fun e => 0 <= e.1 < e.2) ext) by (eapply Forall_impl; [exact Hok|]; by intros e [? ?]).
  unfold sparse_domain in Hi. cbn [sd_n] in Hi. fold ext in Hi. rewrite total_blocks_sum in Hi.
  assert (Hne : (0 < length ext)%nat).
  { destruct ext as [|e l] eqn:E; [cbn in Hi; lia|simpl; lia]. }
  destruct (bsearch_cum_spec (length ext) ext i 0 (length ext) Hok') as [Hk Hb]; [lia|lia|by rewrite take_0, take_ge|].
  set (k := bsearch_cum _ _ _ _ _) in *. destruct (lookup_lt_is_Some_2 ext k Hk) as [e He]. rewrite (sum_take_S _ _ _ He) in Hb.
  exists k, e. assert (He2 : 0 <= e.1 < e.2 /\ e.2 <= size) by (apply (Forall_lookup_1 _ _ _ _ Hok He)).
  split; [done|]. split; [lia|].
  assert (Heq : sample_domain_offset (sparse_domain map) i =
      (let o := (first_block e + (i - sumZ blocks (take k ext))) * VERIFY_BLOCK_SIZE in (o, Z.min VERIFY_BLOCK_SIZE (size - o)))).
  { unfold sample_domain_offset. cbn [sparse_domain sd_map sd_cum sd_size]. fold ext. fold k. rewrite He, cum_from_lookup by done.
    cbn [default from_option id]. rewrite Z.add_0_l. cbv zeta. rewrite block_length; [done|].
    pose proof (block_in_extent e (i - sumZ blocks (take k ext)) ltac:(lia) ltac:(lia)). lia. }
  split; [exact Heq|]. rewrite Heq. cbv zeta. unfold block_ok. cbn [fst snd].
  pose proof (block_in_extent e (i - sumZ blocks (take k ext)) ltac:(lia) ltac:(lia)). unfold VERIFY_BLOCK_SIZE in *. lia.
Qed.

(** Every byte of data is in a block. *)
Lemma sparse_covers map k e x :
  extents_ok size (em_extents map) -> em_extents map !! k = Some e -> e.1 <= x < e.2 ->
  exists i, 0 <= i < sd_n (sparse_domain map) /\ let '(off, len) := sample_domain_offset (sparse_domain map) i in off <= x < off + len.
Proof.
  intros Hok He Hx. set (ext := em_extents map) in *.
  assert (Hok' : Forall (fun e => 0 <= e.1 < e.2) ext) by (eapply Forall_impl; [exact Hok|]; by intros ? [? ?]).
  assert (He2 : 0 <= e.1 < e.2 /\ e.2 <= size) by (apply (Forall_lookup_1 _ _ _ _ Hok He)).
  set (q := x / VERIFY_BLOCK_SIZE - first_block e).
  assert (Hq : 0 <= q < blocks e).
  { unfold q, blocks, last_block, first_block, VERIFY_BLOCK_SIZE.
    pose proof (Z.div_mod x 4096 ltac:(lia)). pose proof (Z.mod_pos_bound x 4096 ltac:(lia)).
    pose proof (Z.div_mod e.1 4096 ltac:(lia)). pose proof (Z.mod_pos_bound e.1 4096 ltac:(lia)).
    pose proof (Z.div_mod (e.2 + 4096 - 1) 4096 ltac:(lia)). pose proof (Z.mod_pos_bound (e.2 + 4096 - 1) 4096 ltac:(lia)). lia. }
  set (i := sumZ blocks (take k ext) + q). exists i.
  assert (Hi : 0 <= i < sd_n (sparse_domain map)).
  { cbn [sparse_domain sd_n]. fold ext. rewrite total_blocks_sum. pose proof (sum_take_S _ _ _ He) as HS.
    pose proof (sum_take_mono ext 0 k Hok' ltac:(lia)) as H0. rewrite take_0 in H0. change (sumZ blocks []) with 0 in H0.
    pose proof (sum_take_mono ext (S k) (length ext) Hok') as H1. rewrite (take_ge ext (length ext)) in H1 by lia.
    apply lookup_lt_Some in He. specialize (H1 ltac:(lia)). lia. }
  split; [done|]. destruct (sparse_block map i Hok Hi) as (k' & e' & He' & Hr & Hoff & _). fold ext in He', Hr, Hoff.
  assert (k' = k) as ->.
  { destruct (decide (k' < k)%nat).
    - pose proof (sum_take_mono ext (S k') k Hok' ltac:(lia)) as H. rewrite (sum_take_S _ _ _ He') in H. lia.
    - destruct (decide (k < k')%nat); [|lia]. pose proof (sum_take_mono ext (S k) k' Hok' ltac:(lia)) as H. rewrite (sum_take_S _ _ _ He) in H. lia. }
  assert (e' = e) as -> by congruence. rewrite Hoff. cbv zeta.
  replace (first_block e + (i - sumZ blocks (take k ext))) with (x / VERIFY_BLOCK_SIZE) by lia.
  unfold VERIFY_BLOCK_SIZE. pose proof (Z.div_mod x 4096 ltac:(lia)). pose proof (Z.mod_pos_bound x 4096 ltac:(lia)). lia.
Qed.
End domain.

(** The two kinds of domain, and the bytes they are about. *)
Inductive domain_of (size : Z) : sample_domain -> (Z -> Prop) -> Prop :=
| domain_dense : domain_of size (dense_domain size) (fun x => 0 <= x < size)
| domain_sparse map : extents_ok size (em_extents map) -> domain_of size (sparse_domain size map) (fun x => exists e, e ∈ em_extents map /\ e.1 <= x < e.2).

Lemma domain_block size dom data i : 0 < size < 2 ^ 63 -> domain_of size dom data -> 0 <= i < sd_n dom -> block_ok size (sample_domain_offset dom i).
Proof.
  intros Hs Hd Hi. destruct Hd as [|map Hok]; [by apply dense_block|].
  by destruct (sparse_block size Hs map i Hok Hi) as (k & e & _ & _ & _ & H).
Qed.
Lemma domain_covers size dom data x : 0 < size < 2 ^ 63 -> domain_of size dom data -> data x ->
  exists i, 0 <= i < sd_n dom /\ let '(off, len) := sample_domain_offset dom i in off <= x < off + len.
Proof.
  intros Hs Hd Hx. destruct Hd as [|map Hok]; [by apply dense_covers|]. destruct Hx as (e & He & Hx).
  apply list_elem_of_lookup in He as [k He]. by eapply sparse_covers.
Qed.

Lemma samples_perm seed percent src size dom :
  0 < size -> 1 <= sd_n dom <= 2 ^ 64 ->
  exists l, samples seed percent src size dom ≡ₚ describe dom <$> l /\ NoDup l /\ zlen l = sample_target percent (sd_n dom) /\
    (forall i, i ∈ l -> 0 <= i < sd_n dom) /\ 0 ∈ l /\ sd_n dom - 1 ∈ l.
Proof.
  intros Hs Hn. set (target := sample_target percent (sd_n dom)).
  destruct (sample_indices_spec seed src size target (sd_n dom) Hn) as (H1 & H2 & H3 & H4 & H5); [apply sample_target_bounds; lia|].
  exists (sample_indices seed src size target (sd_n dom)). split_and!; try done. unfold samples. rewrite decide_False by lia. fold target.
  case_decide; [done|]. by apply emit_batches_perm.
Qed.
Lemma samples_cover seed percent src size dom data x :
  0 < size < 2 ^ 63 -> 1 <= sd_n dom <= 2 ^ 64 -> domain_of size dom data -> sample_target percent (sd_n dom) = sd_n dom -> data x ->
  exists s, s ∈ samples seed percent src size dom /\ ds_offset s <= x < ds_offset s + ds_length s.
Proof.
  intros Hs Hn Hd Ht Hx. destruct (domain_covers size dom data x Hs Hd Hx) as (i & Hi & Hc).
  destruct (sample_domain_offset dom i) as [off len] eqn:E. exists (SampleDesc i off len). split; [|done].
  unfold samples. rewrite decide_False by lia. rewrite decide_True by done. apply list_elem_of_fmap. exists i.
  split; [unfold describe; by rewrite E|]. unfold sample_indices. rewrite decide_True by done. apply elem_of_seqZ. lia.
Qed.

(** C38.  The sample. Of the blocks a file has (all of them, or for a sparse file
    the blocks its data extents touch), exactly as many different ones are
    verified as were asked for, at least one and, where there are two, the first
    and the last: the multiplication by an odd number modulo a power of two
    visits every index once. Every block lies within the file and is not empty;
    and when all blocks are asked for, every byte of data is in one of them. *)
Theorem samples_chosen seed percent src size dom data :
  0 < size < 2 ^ 63 -> domain_of size dom data -> 1 <= sd_n dom <= 2 ^ 64 ->
  let target := sample_target percent (sd_n dom) in
  ((if decide (sd_n dom = 1) then 1 else 2) <= target <= sd_n dom) /\
  (exists l, samples seed percent src size dom ≡ₚ describe dom <$> l /\ NoDup l /\ zlen l = target /\
     (forall i, i ∈ l -> 0 <= i < sd_n dom) /\ 0 ∈ l /\ sd_n dom - 1 ∈ l) /\
  (forall s, s ∈ samples seed percent src size dom -> 0 <= ds_offset s /\ 1 <= ds_length s <= VERIFY_BLOCK_SIZE /\ ds_offset s + ds_length s <= size) /\
  (target = sd_n dom -> forall x, data x -> exists s, s ∈ samples seed percent src size dom /\ ds_offset s <= x < ds_offset s + ds_length s).
Proof.
  intros Hs Hd Hn target. split; [|split; [|split]].
  - apply sample_target_bounds. lia.
  - apply samples_perm; [lia|done].
  - intros s Hin. destruct (samples_perm seed percent src size dom ltac:(lia) Hn) as (l & Hp & _ & _ & Hl & _).
    rewrite Hp in Hin. apply list_elem_of_fmap in Hin as (i & -> & Hi). apply Hl in Hi.
    pose proof (domain_block size dom data i Hs Hd Hi) as H. unfold describe. by destruct (sample_domain_offset dom i).
  - intros Ht x Hx. by eapply samples_cover.
Qed.

(** A tenth of a file of a hundred blocks: ten of them. *)
Lemma samples_chosen_witness :
  let l := samples 42 (f64_of_Z 10) (str "/src/file") 409600 (dense_domain 409600) in
  zlen l = 10 /\ (exists k, l ≡ₚ describe (dense_domain 409600) <$> k /\ NoDup k /\ zlen k = 10).
Proof.
  pose proof (samples_chosen 42 (f64_of_Z 10) (str "/src/file") 409600 (dense_domain 409600) (fun x => 0 <= x < 409600)
    (conj eq_refl eq_refl) (domain_dense 409600)) as H.
  replace (sd_n (dense_domain 409600)) with 100 in H by (vm_compute; reflexivity).
  replace (sample_target (f64_of_Z 10) 100) with 10 in H by (vm_compute; reflexivity).
  assert (H0 : 1 <= 100 <= 2 ^ 64) by (split; [discriminate|discriminate]).
  specialize (H H0). cbv zeta in *. revert H. generalize (samples 42 (f64_of_Z 10) (str "/src/file") 409600 (dense_domain 409600)).
  generalize (describe (dense_domain 409600)). intros f l0 (_ & (l & Hl & Hnd & Hlen & _) & _).
  split; [|exact (ex_intro _ l (conj Hl (conj Hnd Hlen)))].
  unfold zlen in *. rewrite Hl, length_fmap. exact Hlen.
Defined.

(** Asking for everything means everything: the rounding of the doubles does not
    lose a block. *)
Example target_full : Forall (fun n => sample_target (f64_of_Z 100) n = n) [1; 2; 3; 7; 255; 1000; 99999; 2 ^ 31 - 1; 2 ^ 40; 2 ^ 51].
Proof. repeat (constructor; [by vm_compute|]). constructor. Qed.
