(* ===== verification/VerifyLocal.v ===== *)
(** Verifying one item (src/verify.c): the metadata of the target, the sampled
    blocks of both sides, and the counters (src/stats.c: [stats_record_verify]
    and its kin).

    What is read once per process is a parameter: the configuration, whether
    times are preserved, and what [verify_ownership_unpreservable] and
    [force_ownership_mismatch] have cached. Diagnostics carry their subject
    only; a local item's samples are compared in a state of their own, which is
    C's [local_ctx_t]. *)

From Stdlib Require Import SpecFloat.
From S2P Require Export VerifySample.
From stdpp Require Import list.
#[local] Open Scope Z_scope.

(** * Data *)

(** [verify_config_t], without the number of workers. *)
Record verify_config := VConfig { vc_metadata : bool; vc_data : bool; vc_include_skipped : bool; vc_percent : spec_float; vc_seed : Z }.

(** [verify_item_t]. *)
Record verify_item := VItem { vi_src : bytes; vi_dst : bytes; vi_st : stat; vi_skipped : bool; vi_is_dir : bool; vi_durable : bool }.

Inductive verify_meta_class := VERIFY_META_OK | VERIFY_META_MISMATCH | VERIFY_META_OWNERSHIP.

(** [verify_tls_t], and the totals it is folded into. *)
Record verify_tls := VTls {
  vn_objects : Z; vn_bytes : Z; vn_scope_bytes : Z; vn_blocks : Z;
  vn_metadata_objects : Z; vn_data_mismatches : Z; vn_metadata_mismatches : Z;
  vn_zero_mismatches : Z; vn_io_failures : Z; vn_failures : Z;
  vn_hole_blocks : Z; vn_hole_bytes : Z; vn_ownership_unpreserved : Z
}.
Definition tls0 : verify_tls := VTls 0 0 0 0 0 0 0 0 0 0 0 0 0.
Definition tls_add (a b : verify_tls) : verify_tls :=
  VTls (u64 (vn_objects a + vn_objects b)) (u64 (vn_bytes a + vn_bytes b)) (u64 (vn_scope_bytes a + vn_scope_bytes b))
    (u64 (vn_blocks a + vn_blocks b)) (u64 (vn_metadata_objects a + vn_metadata_objects b))
    (u64 (vn_data_mismatches a + vn_data_mismatches b)) (u64 (vn_metadata_mismatches a + vn_metadata_mismatches b))
    (u64 (vn_zero_mismatches a + vn_zero_mismatches b)) (u64 (vn_io_failures a + vn_io_failures b))
    (u64 (vn_failures a + vn_failures b)) (u64 (vn_hole_blocks a + vn_hole_blocks b)) (u64 (vn_hole_bytes a + vn_hole_bytes b))
    (u64 (vn_ownership_unpreserved a + vn_ownership_unpreserved b)).

(** The two once-only warnings, the thread's
    counters and the process's. *)
Record vstate := VState { vs_owner_warned : bool; vs_atime_warned : bool; vs_tls : verify_tls; vs_total : verify_tls }.
Definition set_vs_tls (t : verify_tls) (s : vstate) : vstate := VState (vs_owner_warned s) (vs_atime_warned s) t (vs_total s).
Abbreviation VM := (M posix vstate).

(** * Counters *)

Definition VERIFY_FLUSH_THRESHOLD : Z := 32.
Definition verify_tls_flush (s : vstate) : vstate :=
  VState (vs_owner_warned s) (vs_atime_warned s) tls0 (tls_add (vs_total s) (vs_tls s)).
Definition stats_record_verify (bytes scope_bytes blocks : Z)
    (metadata_checked data_mismatch metadata_mismatch expected_zero_mismatch io_failure failed : bool) : VM unit :=
  modify (fun s =>
    let t := tls_add (vs_tls s) (VTls 1 bytes scope_bytes blocks (b2z metadata_checked) (b2z data_mismatch) (b2z metadata_mismatch)
                                   (b2z expected_zero_mismatch) (b2z io_failure) (b2z failed) 0 0 0) in
    let s := set_vs_tls t s in
    if decide (VERIFY_FLUSH_THRESHOLD <= vn_objects t) then verify_tls_flush s else s).
Definition stats_record_verify_holes (blocks bytes : Z) : VM unit :=
  modify (fun s => set_vs_tls (tls_add (vs_tls s) (VTls 0 0 0 0 0 0 0 0 0 0 blocks bytes 0)) s).
Definition stats_record_verify_ownership (n : Z) : VM unit :=
  modify (fun s => set_vs_tls (tls_add (vs_tls s) (VTls 0 0 0 0 0 0 0 0 0 0 0 0 n)) s).

(** * Ownership *)

(** [getenv] and [geteuid] are asked the first time only. *)
Definition verify_ownership_unpreservable (env : option bytes) (euid : Z) : bool := bool_decide (env <> None) || bool_decide (euid <> 0).
Definition force_ownership_mismatch (env : option bytes) : bool := bool_decide (env <> None).

Section items.
Context (eintr : nat) (cfg : verify_config) (times unpreservable forced : bool).

Definition warn (line : bytes) : VM unit := call (eprintf line).

(** The first field other than ownership that differs. *)
Definition genuine_field (expected actual : stat) (is_dir : bool) : option bytes :=
  if negb (bool_decide (st_mode actual &. S_IFMT = st_mode expected &. S_IFMT)) then Some (str "type")
  else if negb is_dir && negb (bool_decide (st_size actual = st_size expected)) then Some (str "size")
  else if negb (bool_decide (st_mode actual &. o07777 = st_mode expected &. o07777)) then Some (str "mode")
  else if times && negb (bool_decide (st_atim actual = st_atim expected)) then Some (str "atime")
  else if times && negb (bool_decide (st_mtim actual = st_mtim expected)) then Some (str "mtime")
  else None.
Definition owner_field (expected actual : stat) : option bytes :=
  if negb (bool_decide (st_uid actual = st_uid expected)) then Some (str "uid")
  else if negb (bool_decide (st_gid actual = st_gid expected)) then Some (str "gid")
  else if forced then Some (str "uid") else None.

Definition verify_metadata_stat (expected actual : stat) (is_dir : bool) (path : bytes) : VM verify_meta_class :=
  match genuine_field expected actual is_dir with
  | Some f => warn (path ++ f);; mret VERIFY_META_MISMATCH
  | None =>
      match owner_field expected actual with
      | None => mret VERIFY_META_OK
      | Some f =>
          if unpreservable then
            warned ← gets vs_owner_warned;
            modify (fun s => VState true (vs_atime_warned s) (vs_tls s) (vs_total s));;
            when (negb warned) (warn (str "ownership"));;
            mret VERIFY_META_OWNERSHIP
          else warn (path ++ f);; mret VERIFY_META_MISMATCH
      end
  end.

(** * Reading *)

(** The bytes read, fewer than asked for at the end of the file; [None] is -1. *)
Fixpoint pread_full_loop (fuel : nat) (fd : Z) (want : nat) (done : bytes) (off : Z) : prog posix (option bytes) :=
  match want with
  | O => Ret (Some done)
  | S _ =>
      match fuel with
      | O => Stuck
      | S fuel =>
          Sys (pread fd (Z.of_nat want) (off + zlen done)) (fun r =>
            match r with
            | Err e => if decide (e = EINTR) then pread_full_loop fuel fd want done off else Ret None
            | Ok [] => Ret (Some done)
            | Ok d => pread_full_loop fuel fd (want - length d) (done ++ d) off
            end)
      end
  end.
Definition pread_full (fd : Z) (len : nat) (off : Z) : prog posix (option bytes) :=
  pread_full_loop (len + eintr) fd len [] off.

Definition open_verify_data (path : bytes) : VM (res Z) :=
  let flags := O_RDONLY |. O_CLOEXEC |. O_NOFOLLOW in
  if vc_metadata cfg && times then
    r ← call (open path (flags |. O_NOATIME) 0);
    match r with
    | Ok fd => mret (Ok fd)
    | Err e => warn path;; mret (Err e)
    end
  else
    warned ← gets vs_atime_warned;
    modify (fun s => VState (vs_owner_warned s) true (vs_tls s) (vs_total s));;
    when (negb warned) (warn (str "atime"));;
    call (open path flags 0).

Definition source_still_matches (item : verify_item) (fd : Z) : VM bool :=
  r ← call (fstat fd);
  let same := match r with
    | Err _ => false
    | Ok now => S_ISREG (st_mode now) && bool_decide (st_dev now = st_dev (vi_st item)) && bool_decide (st_ino now = st_ino (vi_st item))
                && bool_decide (st_size now = st_size (vi_st item)) && bool_decide (st_mtim now = st_mtim (vi_st item))
    end in
  when (negb same) (warn (vi_src item));; mret same.

Definition source_is_sparse (st : stat) : bool :=
  bool_decide (0 < st_size st) && bool_decide (u64 (st_blocks st * 512) < st_size st).

(** [percent >= 100.0] *)
Definition whole_file : bool := SFleb f64_100 (vc_percent cfg).
Definition advise_verification_access (fd : Z) : VM unit :=
  call (posix_fadvise fd 0 0 (if whole_file then POSIX_FADV_SEQUENTIAL else POSIX_FADV_RANDOM));; mret tt.

(** [for_each_sample] over the item's blocks, with a state of the caller's. *)
Definition for_each_sample {S} (item : verify_item) (dom : sample_domain) (cb : sample_desc -> M posix S bool) : M posix S bool :=
  if bool_decide (st_size (vi_st item) <= 0) || negb (vc_data cfg) then mret true
  else each_sample cb (samples (vc_seed cfg) (vc_percent cfg) (vi_src item) (st_size (vi_st item)) dom).

(** Run a program on a state of its own. *)
Definition on_state {S S' A} (c : M posix S A) (x : S) : M posix S' (A * S) :=
  fun s => prog_bind (fun '(a, x) => Ret ((a, x), s)) (c x).

(** * A local item *)

(** [local_ctx_t]: the counters and verdicts; the descriptors, the path and the
    map do not change while samples are compared. *)
Record local_ctx := LCtx { lc_bytes : Z; lc_blocks : Z; lc_hole_bytes : Z; lc_hole_blocks : Z;
                           lc_mismatch : bool; lc_data_mismatch : bool; lc_zero_mismatch : bool }.
Definition lctx0 : local_ctx := LCtx 0 0 0 0 false false false.

Definition compare_sample (src_fd dst_fd : Z) (path : bytes) (map : extent_map) (d : sample_desc) : M posix local_ctx bool :=
  let len := ds_length d in
  let expected_zero := extent_map_range_is_hole map (ds_offset d) len in
  sr ← (if expected_zero then mret (Some (replicate (Z.to_nat len) x00)) else lift (pread_full src_fd (Z.to_nat len) (ds_offset d)));
  dr ← lift (pread_full dst_fd (Z.to_nat len) (ds_offset d));
  modify (fun c => LCtx (u64 (lc_bytes c + len)) (u64 (lc_blocks c + 1))
                     (if expected_zero then u64 (lc_hole_bytes c + len) else lc_hole_bytes c)
                     (if expected_zero then u64 (lc_hole_blocks c + 1) else lc_hole_blocks c)
                     (lc_mismatch c) (lc_data_mismatch c) (lc_zero_mismatch c));;
  let same := match sr, dr with
              | Some a, Some b => bool_decide (zlen a = len) && bool_decide (zlen b = len) && bool_decide (a = b)
              | _, _ => false
              end in
  if same then mret true else
  seen ← gets lc_mismatch;
  when (negb seen) (call (eprintf path));;
  modify (fun c => LCtx (lc_bytes c) (lc_blocks c) (lc_hole_bytes c) (lc_hole_blocks c) true
                     (if expected_zero then lc_data_mismatch c else true) (if expected_zero then true else lc_zero_mismatch c));;
  mret true.

(** The verdict on the metadata: [failed], [meta_bad] and [structural_bad]. *)
Definition check_target (item : verify_item) : VM (bool * bool * bool) :=
  r ← call (lstat (vi_dst item));
  if vc_metadata cfg then
    match r with
    | Err _ => warn (vi_dst item);; mret (true, true, true)
    | Ok actual =>
        cls ← verify_metadata_stat (vi_st item) actual (vi_is_dir item) (vi_dst item);
        match cls with
        | VERIFY_META_OK => mret (false, false, false)
        | VERIFY_META_OWNERSHIP => stats_record_verify_ownership 1;; mret (false, false, false)
        | VERIFY_META_MISMATCH =>
            mret (true, true, negb (bool_decide (st_mode actual &. S_IFMT = st_mode (vi_st item) &. S_IFMT))
                              || (negb (vi_is_dir item) && negb (bool_decide (st_size actual = st_size (vi_st item)))))
        end
    end
  else
    let bad := match r with
      | Err _ => true
      | Ok actual => if vi_is_dir item then negb (S_ISDIR (st_mode actual))
                     else negb (S_ISREG (st_mode actual)) || negb (bool_decide (st_size actual = st_size (vi_st item)))
      end in
    when bad (warn (vi_dst item));; mret (bad, false, bad).

Definition opened (r : res Z) (c : Z -> VM unit) : VM unit := match r with Ok fd => c fd | Err _ => mret tt end.

(** The data of both sides; [failed] so far, the final context and the scope. *)
Definition compare_data (item : verify_item) (failed : bool) : VM (bool * local_ctx * Z) :=
  let size := st_size (vi_st item) in
  src ← open_verify_data (vi_src item);
  dst ← open_verify_data (vi_dst item);
  opened src advise_verification_access;;
  opened dst advise_verification_access;;
  '(built, map) ← (match src with
                   | Ok fd => if source_is_sparse (vi_st item) then extent_map_build fd size else mret (true, no_map)
                   | Err _ => mret (true, no_map)
                   end);
  let failed := failed || negb (built : bool) in
  dom ← sample_domain_init map size;
  '(failed, ctx, scope) ←
    match dom with
    | None => mret (true, lctx0, size)
    | Some dom =>
        '(bad, ctx) ←
          match src, dst with
          | Ok sfd, Ok dfd =>
              ok ← source_still_matches item sfd;
              if negb ok then mret (true, lctx0) else
              '(ok, ctx) ← on_state (for_each_sample item dom (compare_sample sfd dfd (vi_dst item) map)) lctx0;
              if negb (ok : bool) then mret (true, ctx) else
              ok ← source_still_matches item sfd; mret (negb ok, ctx)
          | Err _, _ => warn (vi_src item);; mret (true, lctx0)
          | _, Err _ => warn (vi_dst item);; mret (true, lctx0)
          end;
        mret (failed || (bad : bool), ctx, sd_bytes dom)
    end;
  opened src (fun fd => call (close fd);; mret tt);;
  opened dst (fun fd => call (close fd);; mret tt);;
  mret ((failed : bool) || lc_mismatch ctx, ctx, scope).

(** [true] is success. *)
Definition verify_local_item (item : verify_item) : VM bool :=
  '(failed, meta_bad, structural_bad) ← check_target item;
  let scope := if vi_is_dir item then 0 else u64 (st_size (vi_st item)) in
  '(failed, ctx, scope) ←
    (if negb (vi_is_dir item) && negb structural_bad && vc_data cfg && bool_decide (0 < st_size (vi_st item))
     then compare_data item failed else mret (failed, lctx0, scope));
  stats_record_verify (lc_bytes ctx) scope (lc_blocks ctx) (vc_metadata cfg) (lc_data_mismatch ctx) meta_bad
    (lc_zero_mismatch ctx) (failed && negb (lc_mismatch ctx) && negb meta_bad) failed;;
  stats_record_verify_holes (lc_hole_blocks ctx) (lc_hole_bytes ctx);;
  mret (negb failed).
End items.
