(* ===== verification/VerifyLocalOk.v ===== *)
(** What verifying a local item promises. The monitor watches the calls: only
    the item's two files are opened, for reading, nothing else is touched, and
    every descriptor is closed. *)

From Stdlib Require Import SpecFloat Sorted.
From S2P Require Export VerifyLocal.
From stdpp Require Import list gmap.
#[local] Open Scope Z_scope.

(** ** A state of one's own *)

Lemma wpM_on_state m {S S' A} (c : M posix S A) (x : S) (s : S') g (Q : mstate m -> A * S -> S' -> Prop) :
  wpM m c x g (fun g a x => Q g (a, x) s) -> wpM m (on_state c x) s g Q.
Proof. intros H. unfold wpM, on_state. apply wp_bind. eapply wp_mono; [exact H|]. by intros g' [a x']. Qed.

(** * The monitor *)

Record vghost := VG { vg_fds : gmap Z bytes; vg_intr : nat }.

Section reading.
Context (src dst : bytes) (files : bytes -> bytes) (st target : stat) (data : Z -> Prop) (clean : Prop).

Definition O_WRITES : Z := O_WRONLY |. 0x2 |. O_CREAT |. O_TRUNC.

Definition vread_pre (g : vghost) R (e : posix R) : Prop :=
  match e with
  | open p fl _ => (p = src \/ p = dst) /\ has_bits fl O_WRITES = false
  | pread fd _ _ | posix_fadvise fd _ _ _ | close fd => is_Some (vg_fds g !! fd)
  | fstat fd | seek_data fd _ | seek_hole fd _ => vg_fds g !! fd = Some src
  | lstat p => p = dst
  | malloc _ | eprintf _ => True
  | _ => False
  end.
Definition vread_adm (g : vghost) R (e : posix R) : R -> Prop :=
  match e in posix R return R -> Prop with
  | open _ _ _ => fun r => match r with Ok fd => 0 <= fd /\ vg_fds g !! fd = None | Err _ => ~ clean end
  | pread fd n off => fun r =>
      match r with
      | Ok d => zlen d <= Z.max 0 n /\ forall p, vg_fds g !! fd = Some p -> 0 <= off ->
                  d `prefix_of` drop (Z.to_nat off) (files p) /\ (clean -> 0 < n -> d = [] -> zlen (files p) <= off)
      | Err e => if decide (e = EINTR) then (0 < vg_intr g)%nat else ~ clean
      end
  | lstat _ => fun r => match r with Ok s => s = target | Err _ => ~ clean end
  | fstat _ => fun r => match r with Ok s => clean -> s = st | Err _ => ~ clean end
  | seek_data _ pos => fun r =>
      match r with
      | Ok d => pos <= d < st_size st /\ forall x, pos <= x < d -> ~ data x
      | Err e => (e = ENXIO -> forall x, pos <= x < st_size st -> ~ data x) /\ (e = ENXIO \/ seek_unsupported e \/ ~ clean)
      end
  | seek_hole _ pos => fun r => match r with Ok h => pos < h | Err e => seek_unsupported e \/ ~ clean end
  | malloc _ => fun b => b = true \/ ~ clean
  | _ => fun _ => True
  end.
Definition vread_upd (g : vghost) R (e : posix R) : R -> vghost :=
  match e in posix R return R -> vghost with
  | open p _ _ => fun r => match r with Ok fd => VG (<[fd := p]> (vg_fds g)) (vg_intr g) | Err _ => g end
  | close fd => fun _ => VG (delete fd (vg_fds g)) (vg_intr g)
  | pread _ _ _ => fun r =>
      match r with Err e => if decide (e = EINTR) then VG (vg_fds g) (pred (vg_intr g)) else g | Ok _ => g end
  | _ => fun _ => g
  end.
Definition reading : monitor posix := Monitor vghost vread_pre vread_adm vread_upd False.

(** ** Reading a range *)

(** What a positioned read of [len] bytes finds. *)
Definition sub (f : bytes) (off len : Z) : bytes := take (Z.to_nat len) (drop (Z.to_nat off) f).

Lemma pread_full_loop_ok fuel fd want done off g p :
  vg_fds g !! fd = Some p -> (want + vg_intr g <= fuel)%nat ->
  (0 <= off -> done `prefix_of` drop (Z.to_nat off) (files p)) ->
  wp reading (pread_full_loop fuel fd want done off) g (fun g' r =>
    vg_fds g' = vg_fds g /\ (vg_intr g' <= vg_intr g)%nat /\
    match r with
    | Some d => (length d <= length done + want)%nat /\ (0 <= off -> d `prefix_of` drop (Z.to_nat off) (files p) /\
        (clean -> (length d = length done + want)%nat \/ zlen (files p) <= off + zlen d))
    | None => ~ clean
    end).
Proof.
  intros Hfd. revert want done g Hfd. induction fuel as [|fuel IH]; intros want done g Hfd Hf Hd.
  { destruct want; [|lia]. cbn. split_and!; try done. - lia. - intros Ho. split; [by apply Hd|]. intros _. left. lia. }
  destruct want as [|want]; cbn [pread_full_loop].
  { cbn. split_and!; try done. - lia. - intros Ho. split; [by apply Hd|]. intros _. left. lia. }
  split; [by exists p|]. intros r Hr. destruct r as [d|e].
  - destruct Hr as [Hlen Hr]. cbn [mupd reading vread_upd]. destruct d as [|b d].
    + cbn. split_and!; try done; [lia|]. intros Ho. split; [by apply Hd|]. intros Hc. right.
      destruct (Hr p Hfd) as [_ H]; [unfold zlen; lia|]. apply H; [done|lia|done].
    + eapply wp_mono; [apply IH; [done|unfold zlen in Hlen; simpl in *; lia|]|].
      * intros Ho. destruct (Hr p Hfd) as [[k Hk] _]; [unfold zlen; lia|]. destruct (Hd Ho) as [k0 Hk0]. exists k.
        unfold zlen in Hk. replace (Z.to_nat (off + Z.of_nat (length done))) with (Z.to_nat off + length done)%nat in Hk by lia.
        rewrite <- drop_drop, Hk0, drop_app_length in Hk. by rewrite Hk0, Hk, (assoc_L (++)).
      * cbn beta. intros g' r (H1 & H2 & H3). split; [done|]. split; [done|]. destruct r as [d'|]; [|done].
        unfold zlen in *. rewrite length_app in H3. simpl in *. destruct H3 as [H3 H4]. split; [lia|].
        intros Ho. destruct (H4 Ho) as [H5 H6]. split; [done|]. intros Hc. destruct (H6 Hc) as [H|H]; [left; lia|by right].
  - cbn [madm reading vread_adm mupd vread_upd] in *. destruct (decide (e = EINTR)).
    + eapply wp_mono; [apply IH; [done|cbn [vg_intr]; lia|done]|]. cbn beta. cbn [vg_fds vg_intr]. intros g' r (H1 & H2 & H3).
      split; [done|]. split; [lia|done].
    + by cbn.
Qed.

Lemma prefix_sub d f off len :
  d `prefix_of` drop (Z.to_nat off) f -> zlen d = len -> d = sub f off len.
Proof.
  intros [k Hk] Hl. unfold sub, zlen in *. rewrite Hk. replace (Z.to_nat len) with (length d) by lia. by rewrite take_app_length.
Qed.

(** ** The map *)

Definition sorted (ext : list (Z * Z)) : Prop := StronglySorted (fun a b => a.2 <= b.1) ext.
Definition covers_below (ext : list (Z * Z)) (pos : Z) : Prop :=
  forall x, 0 <= x < pos -> x < st_size st -> data x -> exists e, e ∈ ext /\ e.1 <= x < e.2.
Definition map_below (ext : list (Z * Z)) (pos : Z) : Prop :=
  extents_ok (st_size st) ext /\ sorted ext /\ Forall (fun e => e.2 <= pos) ext /\ covers_below ext pos.
(** A finished map: no map at all, or one that has all data. *)
Definition map_good (m : extent_map) : Prop :=
  em_supported m = true -> extents_ok (st_size st) (em_extents m) /\ sorted (em_extents m) /\ covers_below (em_extents m) (st_size st).

Lemma map_below_done m pos : map_below (em_extents m) pos -> (forall x, pos <= x < st_size st -> ~ data x) -> map_good m.
Proof.
  intros (H1 & H2 & _ & H4) Hno _. split_and!; [done|done|]. intros x Hx Hs Hd. destruct (decide (x < pos)).
  - apply H4; [lia|done|done].
  - exfalso. apply (Hno x); [lia|done].
Qed.
Lemma sorted_snoc ext e : sorted ext -> Forall (fun x => x.2 <= e.1) ext -> sorted (ext ++ [e]).
Proof.
  intros Hs. induction Hs as [|a l Hs IH Ha]; intros Hb; [repeat constructor|]. apply Forall_cons_1 in Hb as [Hb1 Hb2].
  simpl. constructor; [by apply IH|]. apply Forall_app. split; [done|]. by constructor.
Qed.

Lemma extent_map_loop_ok {S} fuel fd pos map (s : S) g :
  vg_fds g !! fd = Some src -> 0 <= pos -> st_size st - pos <= Z.of_nat fuel -> map_below (em_extents map) pos -> em_supported map = true ->
  wpM reading (extent_map_loop fuel fd (st_size st) pos map) s g (fun g' '(b, m) s' =>
    g' = g /\ s' = s /\ (b = true -> map_good m) /\ (b = false -> ~ clean)).
Proof.
  intros Hfd. revert pos map. induction fuel as [|fuel IH]; intros pos map Hp Hf Hm Hsup; cbn [extent_map_loop].
  { apply wpM_ret. split_and!; try done. intros _. apply (map_below_done _ pos); [done|]. lia. }
  case_decide as Hlt.
  2: { apply wpM_ret. split_and!; try done. intros _. apply (map_below_done _ pos); [done|]. lia. }
  wp_call r Hr. destruct r as [d|e].
  2: { destruct Hr as [Hr1 Hr2]. case_decide as He.
       - apply wpM_ret. split_and!; try done. intros _. apply (map_below_done _ pos); [done|]. by apply Hr1.
       - destruct (seek_unsupported e) eqn:Eu; apply wpM_ret; split_and!; try done. destruct Hr2 as [?|[[]|?]]; done. }
  destruct Hr as [Hd1 Hd2]. wp_call r Hr. destruct r as [h|e].
  2: { change (seek_unsupported e \/ ~ clean) in Hr. destruct (seek_unsupported e) eqn:Eu; apply wpM_ret; split_and!; try done. intros _. destruct Hr as [[]|?]; done. }
  change (pos <= d < st_size st) in Hd1. change (d < h) in Hr. cbv zeta.
  set (hole := if decide (st_size st < h) then st_size st else h).
  assert (Hh : d < hole <= st_size st) by (subst hole; case_decide; lia).
  apply wpM_bind.
  apply (wpM_mono reading _ _ _ (fun (g' : mstate reading) (ok : bool) (s' : S) => g' = g /\ s' = s /\ (ok = false -> ~ clean))).
  { destruct (bool_decide _); [|by apply wpM_ret]. apply wpM_call; [done|]. intros r' [->|Hr']; by split_and!. }
  intros g' ok s' (-> & -> & Hok). destruct ok; cbn [negb]; [|apply wpM_ret; split_and!; try done; intros _; by apply Hok].
  rewrite decide_True by lia. apply IH; [lia|lia| |done]. cbn [em_extents].
  destruct Hm as (H1 & H2 & H3 & H4). split_and!.
  - apply Forall_app. split; [done|]. constructor; [cbn; lia|done].
  - apply sorted_snoc; [done|]. eapply Forall_impl; [exact H3|]. cbn. intros x Hx. lia.
  - apply Forall_app. split; [eapply Forall_impl; [exact H3|]; cbn; intros x Hx; lia|]. constructor; [cbn; lia|done].
  - intros x Hx Hs Hdx. destruct (decide (x < pos)).
    + destruct (H4 x) as (e & He & Hxe); [lia|done|done|]. exists e. split; [apply elem_of_app; by left|done].
    + destruct (decide (x < d)); [exfalso; by apply (Hd2 x); [lia|]|]. exists (d, hole). split; [apply elem_of_app; right; by apply list_elem_of_singleton|cbn; lia].
Qed.
Lemma extent_map_build_ok {S} fd (s : S) g :
  vg_fds g !! fd = Some src -> 0 < st_size st ->
  wpM reading (extent_map_build fd (st_size st)) s g (fun g' '(b, m) s' => g' = g /\ s' = s /\ (b = true -> map_good m) /\ (b = false -> ~ clean)).
Proof.
  intros Hfd Hs. apply extent_map_loop_ok; try done; [lia|]. split_and!; [constructor|constructor|constructor|]. intros x Hx. lia.
Qed.

(** ** A sampled block is no hole *)

Lemma bsearch_end_le fuel ext offset lo hi : (lo <= hi)%nat -> (lo <= bsearch_end fuel ext offset lo hi <= hi)%nat.
Proof.
  revert lo hi. induction fuel as [|fuel IH]; intros lo hi H; cbn [bsearch_end]; [lia|].
  destruct (decide (lo < hi)%nat); [|lia]. cbv zeta. pose proof (Nat.div_lt (hi - lo) 2 ltac:(lia) ltac:(lia)).
  set (mid := (lo + (hi - lo) / 2)%nat). destruct (decide _).
  - specialize (IH (S mid) hi). subst mid. lia.
  - specialize (IH lo mid). subst mid. lia.
Qed.
Lemma bsearch_end_spec fuel ext offset lo hi k e :
  sorted ext -> Forall (fun e => e.1 < e.2) ext -> (lo <= k < hi)%nat -> (hi <= length ext)%nat -> (hi - lo <= fuel)%nat ->
  ext !! k = Some e -> offset < e.2 ->
  (bsearch_end fuel ext offset lo hi <= k)%nat.
Proof.
  intros Hsort Hne. revert lo hi. induction fuel as [|fuel IH]; intros lo hi Hk Hhi Hf He Ho; cbn [bsearch_end]; [lia|].
  rewrite decide_True by lia. cbv zeta. set (mid := (lo + (hi - lo) / 2)%nat).
  assert (Hmid : (lo <= mid < hi)%nat) by (unfold mid; pose proof (Nat.div_lt (hi - lo) 2 ltac:(lia) ltac:(lia)); lia).
  destruct (lookup_lt_is_Some_2 ext mid) as [m Hm]; [lia|]. rewrite Hm. cbn [default from_option id].
  destruct (decide (m.2 <= offset)) as [Hle|Hgt].
  - apply IH; [|lia|lia|done|done]. destruct (decide (k <= mid)%nat) as [Hkm|]; [|lia]. exfalso.
    destruct (decide (k = mid)) as [->|]; [simplify_eq; lia|].
    pose proof (sorted_lookup _ ext Hsort k mid e m ltac:(lia) He Hm) as H. cbv beta in H. pose proof (Forall_lookup_1 _ _ _ _ Hne Hm) as H'. cbn in *. lia.
  - destruct (decide (k < mid)%nat); [apply IH; (done || lia)|]. pose proof (bsearch_end_le fuel ext offset lo mid ltac:(lia)). lia.
Qed.

Lemma block_not_hole map i :
  0 < st_size st < 2 ^ 63 -> em_supported map = true -> extents_ok (st_size st) (em_extents map) -> sorted (em_extents map) ->
  0 <= i < sd_n (sparse_domain (st_size st) map) ->
  let d := describe (sparse_domain (st_size st) map) i in
  extent_map_range_is_hole map (ds_offset d) (ds_length d) = false.
Proof.
  intros Hs Hsup Hok Hsort Hi. destruct (sparse_block (st_size st) Hs map i Hok Hi) as (k & e & He & Hq & Ho & _).
  cbv zeta. unfold describe. rewrite Ho. cbv zeta. cbn [ds_offset ds_length]. set (ext := em_extents map) in *.
  pose proof (Forall_lookup_1 _ _ _ _ Hok He) as [He1 He2]. pose proof (block_in_extent e _ He1 Hq) as Hb.
  set (o := (first_block e + _) * VERIFY_BLOCK_SIZE) in *. unfold extent_map_range_is_hole. rewrite Hsup. cbn [negb]. fold ext.
  pose proof (lookup_lt_Some _ _ _ He) as Hk.
  assert (Hlo : (bsearch_end (length ext) ext o 0 (length ext) <= k)%nat).
  { eapply bsearch_end_spec; [done| |lia|lia|lia|done|lia]. eapply Forall_impl; [exact Hok|]. cbn. intros x Hx. lia. }
  set (lo := bsearch_end _ _ _ _ _) in *. apply orb_false_iff. split; apply bool_decide_eq_false; [lia|].
  destruct (lookup_lt_is_Some_2 ext lo) as [m Hm]; [lia|]. rewrite Hm. cbn [default from_option id].
  assert (m.1 <= e.1).
  { destruct (decide (lo = k)) as [->|]; [simplify_eq; lia|]. pose proof (sorted_lookup _ _ Hsort lo k m e ltac:(lia) Hm He) as H3; cbv beta in H3.
    pose proof (Forall_lookup_1 _ _ _ _ Hok Hm) as [H' _]. lia. }
  lia.
Qed.

(** ** Comparing the samples *)

Definition agree (d : sample_desc) : Prop :=
  zlen (sub (files src) (ds_offset d) (ds_length d)) = ds_length d /\
  sub (files src) (ds_offset d) (ds_length d) = sub (files dst) (ds_offset d) (ds_length d).

Lemma sub_length f off len : 0 <= off -> zlen (sub f off len) = len -> 0 < len -> off + len <= zlen f.
Proof. unfold sub, zlen. rewrite length_take, length_drop. lia. Qed.

(** What one of the two reads says. *)
Definition read_result (p : bytes) (d : sample_desc) (r : option bytes) : Prop :=
  match r with
  | Some a => zlen a <= ds_length d /\ a `prefix_of` drop (Z.to_nat (ds_offset d)) (files p) /\
      (clean -> zlen a = ds_length d \/ zlen (files p) <= ds_offset d + zlen a)
  | None => ~ clean
  end.

Lemma pread_full_ok {S} eintr fd d (x : S) g p :
  vg_fds g !! fd = Some p -> (vg_intr g <= eintr)%nat ->
  wpM reading (lift (pread_full eintr fd (Z.to_nat (ds_length d)) (ds_offset d))) x g (fun g' r x' =>
    vg_fds g' = vg_fds g /\ (vg_intr g' <= vg_intr g)%nat /\ x' = x /\ (0 <= ds_offset d -> 0 <= ds_length d -> read_result p d r)).
Proof.
  intros Hfd Hi. apply wpM_lift. eapply wp_mono; [apply (pread_full_loop_ok _ _ _ _ _ _ p); [done|lia|intros _; by exists (drop (Z.to_nat (ds_offset d)) (files p))]|].
  cbn beta. intros g' r (H1 & H2 & H3). split_and!; try done. intros Ho Hl. destruct r as [a|]; [|done].
  cbn [length] in H3. destruct H3 as [H3 H4]. destruct (H4 Ho) as [H5 H6]. unfold read_result, zlen in *. split_and!; [lia|done|].
  intros Hc. destruct (H6 Hc) as [H|H]; [left; lia|by right].
Qed.

Lemma compare_sample_ok eintr map d (ctx : local_ctx) g sfd dfd path :
  vg_fds g !! sfd = Some src -> vg_fds g !! dfd = Some dst -> (vg_intr g <= eintr)%nat ->
  wpM reading (compare_sample eintr sfd dfd path map d) ctx g (fun g' ok ctx' =>
    vg_fds g' = vg_fds g /\ (vg_intr g' <= vg_intr g)%nat /\ ok = true /\
    (lc_mismatch ctx' = false -> lc_mismatch ctx = false) /\
    (extent_map_range_is_hole map (ds_offset d) (ds_length d) = false -> 0 <= ds_offset d -> 0 < ds_length d ->
       (lc_mismatch ctx' = false -> agree d) /\ (clean -> agree d -> lc_mismatch ctx' = lc_mismatch ctx))).
Proof.
  intros Hs Hd Hi. unfold compare_sample. cbv zeta. set (hole := extent_map_range_is_hole _ _ _). apply wpM_bind.
  apply (wpM_mono reading _ _ _ (fun (g' : mstate reading) (r : option bytes) (x' : local_ctx) =>
    vg_fds g' = vg_fds g /\ (vg_intr g' <= vg_intr g)%nat /\ x' = ctx /\ (hole = false -> 0 <= ds_offset d -> 0 <= ds_length d -> read_result src d r))).
  { destruct hole; [apply wpM_ret; by split_and!|]. eapply wpM_mono; [by apply (pread_full_ok _ _ _ _ _ src)|]. cbn beta. intros g' r x' (? & ? & ? & ?). by split_and!. }
  intros g1 a x1 (F1 & I1 & -> & Ha). apply wpM_bind.
  eapply wpM_mono; [apply (pread_full_ok _ _ _ _ _ dst); [by rewrite F1|lia]|]. cbn beta. intros g2 b x2 (F2 & I2 & -> & Hb).
  apply wpM_bind, wpM_modify. set (ctx1 := LCtx _ _ _ _ _ _ _). set (same := match a with Some _ => _ | None => _ end).
  assert (Hsame : hole = false -> 0 <= ds_offset d -> 0 < ds_length d -> (same = true -> agree d) /\ (clean -> agree d -> same = true)).
  { intros Hh Ho Hl. specialize (Ha Hh Ho ltac:(lia)). specialize (Hb Ho ltac:(lia)). unfold same. split.
    - destruct a as [a|], b as [b|]; try done. destruct Ha as (_ & Ha & _), Hb as (_ & Hb & _).
      rewrite !andb_true_iff, !bool_decide_eq_true. intros ((Hza & Hzb) & <-).
      unfold agree. rewrite <- (prefix_sub _ _ _ _ Ha Hza), <- (prefix_sub _ _ _ _ Hb Hzb). done.
    - intros Hc (Hz & He). pose proof (sub_length _ _ _ Ho Hz Hl). assert (Hz' := Hz). rewrite He in Hz'. pose proof (sub_length _ _ _ Ho Hz' Hl).
      destruct a as [a|]; [|done]. destruct b as [b|]; [|done]. destruct Ha as (La & Ha & Ca), Hb as (Lb & Hb & Cb).
      assert (zlen a = ds_length d) by (destruct (Ca Hc); lia). assert (zlen b = ds_length d) by (destruct (Cb Hc); lia).
      rewrite !andb_true_iff, !bool_decide_eq_true. split_and!; [done|done|].
      rewrite (prefix_sub _ _ _ _ Ha), (prefix_sub _ _ _ _ Hb) by done. done. }
  clearbody same. destruct same.
  - apply wpM_ret. subst ctx1. cbn [lc_mismatch]. split_and!; [congruence|lia|done|done|]. intros Hh Ho Hl. destruct (Hsame Hh Ho Hl). split; [intros _; auto|done].
  - apply wpM_bind, wpM_gets, wpM_bind. apply (wpM_mono reading _ _ _ (fun (g' : mstate reading) (_ : unit) (x' : local_ctx) => g' = g2 /\ x' = ctx1)).
    { apply wpM_when; intros _; [|done]. apply wpM_call; [done|]. by intros []. }
    intros g3 [] x3 (-> & ->). apply wpM_bind, wpM_modify, wpM_ret. cbn [lc_mismatch].
    split_and!; [congruence|lia|done|done|]. intros Hh Ho Hl. destruct (Hsame Hh Ho Hl) as [_ H2]. split; [done|]. intros Hc Hag. by specialize (H2 Hc Hag).
Qed.

Lemma compare_all_ok eintr map (l : list sample_desc) (ctx : local_ctx) g sfd dfd path :
  vg_fds g !! sfd = Some src -> vg_fds g !! dfd = Some dst -> (vg_intr g <= eintr)%nat ->
  wpM reading (each_sample (compare_sample eintr sfd dfd path map) l) ctx g (fun g' ok ctx' =>
    vg_fds g' = vg_fds g /\ (vg_intr g' <= vg_intr g)%nat /\ ok = true /\
    (lc_mismatch ctx' = false -> lc_mismatch ctx = false) /\
    (Forall (fun d => extent_map_range_is_hole map (ds_offset d) (ds_length d) = false /\ 0 <= ds_offset d /\ 0 < ds_length d) l ->
       (lc_mismatch ctx' = false -> Forall agree l) /\ (clean -> Forall agree l -> lc_mismatch ctx' = lc_mismatch ctx))).
Proof.
  intros Hs Hd. revert ctx g Hs Hd. induction l as [|d l IH]; intros ctx g Hs Hd Hi; cbn [each_sample]; [by apply wpM_ret|].
  apply wpM_bind. eapply wpM_mono; [by apply compare_sample_ok|]. cbn beta. intros g1 ok ctx1 (F1 & I1 & -> & M1 & A1).
  eapply wpM_mono; [apply IH; [by rewrite F1|by rewrite F1|lia]|]. cbn beta. intros g2 ok ctx2 (F2 & I2 & -> & M2 & A2).
  split_and!; [congruence|lia|done|auto|]. intros [(Hh & Ho & Hl) Hall]%Forall_cons_1.
  destruct (A1 Hh Ho Hl) as [B1 C1], (A2 Hall) as [B2 C2]. split.
  - intros Hm. constructor; [by apply B1, M2|by apply B2].
  - intros Hc [Hag Hags]%Forall_cons_1. by rewrite C2, C1.
Qed.

End reading.

(** * The domain that is sampled *)

Lemma blocks_le e : 0 <= e.1 < e.2 -> blocks e <= e.2 - e.1.
Proof.
  intros H. unfold blocks, last_block, first_block, VERIFY_BLOCK_SIZE.
  pose proof (Z.div_mod e.1 4096 ltac:(lia)). pose proof (Z.mod_pos_bound e.1 4096 ltac:(lia)).
  pose proof (Z.div_mod (e.2 + 4096 - 1) 4096 ltac:(lia)). pose proof (Z.mod_pos_bound (e.2 + 4096 - 1) 4096 ltac:(lia)). lia.
Qed.
Lemma sum_blocks_le size ext lo : extents_ok size ext -> sorted ext -> Forall (fun e => lo <= e.1) ext -> lo <= size -> sumZ blocks ext <= size - lo.
Proof.
  revert lo. induction ext as [|e ext IH]; intros lo Hok Hs Hlo Hsz; [cbn; lia|].
  apply Forall_cons_1 in Hok as [[He1 He2] Hok]. apply StronglySorted_inv in Hs as [Hs Hall]. apply Forall_cons_1 in Hlo as [Hlo _].
  specialize (IH e.2 Hok Hs Hall He2). pose proof (blocks_le e He1). cbn. fold (sumZ blocks ext). lia.
Qed.

Section domain.
Context (st : stat) (data : Z -> Prop) (Hsize : 0 < st_size st < 2 ^ 63).
Abbreviation size := (st_size st).

(** What the samples need of a domain. *)
Record good_domain (map : extent_map) (dom : sample_domain) (D : Z -> Prop) : Prop := GoodDomain {
  gd_of : domain_of size dom D;
  gd_n : 0 <= sd_n dom <= 2 ^ 64;
  gd_data : forall x, 0 <= x < size -> data x -> D x;
  gd_hole : forall i, 0 <= i < sd_n dom -> extent_map_range_is_hole map (ds_offset (describe dom i)) (ds_length (describe dom i)) = false
}.

Lemma good_dense map : em_supported map = false -> good_domain map (dense_domain size) (fun x => 0 <= x < size).
Proof.
  intros Hm. split; [constructor| |done|].
  - cbn [dense_domain sd_n]. unfold VERIFY_BLOCK_SIZE. pose proof (Z.div_pos (size + 4096 - 1) 4096 ltac:(lia) ltac:(lia)).
    pose proof (Z.div_le_upper_bound (size + 4096 - 1) 4096 (2 ^ 64) ltac:(lia) ltac:(lia)). lia.
  - intros i Hi. unfold extent_map_range_is_hole. by rewrite Hm.
Qed.
Lemma good_sparse map : em_supported map = true -> map_good st data map ->
  good_domain map (sparse_domain size map) (fun x => exists e, e ∈ em_extents map /\ e.1 <= x < e.2).
Proof.
  intros Hm Hg. destruct (Hg Hm) as (H1 & H2 & H3). split; [by constructor| | |].
  - cbn [sparse_domain sd_n]. rewrite total_blocks_sum. split.
    + pose proof (sum_take_mono (em_extents map) 0 (length (em_extents map))) as H. rewrite take_0, take_ge in H by lia. apply H; [|lia].
      eapply Forall_impl; [exact H1|]. cbn. intros x Hx. lia.
    + pose proof (sum_blocks_le size (em_extents map) 0 H1 H2) as H. etrans; [apply H; [|lia]|lia]. eapply Forall_impl; [exact H1|]. cbn. intros x Hx. lia.
  - intros x Hx Hd. apply H3; [done|lia|done].
  - intros i Hi. by apply block_not_hole.
Qed.

(** Every sample is a block of the domain. *)
Lemma samples_blocks seed percent src map dom D :
  good_domain map dom D ->
  Forall (fun d => extent_map_range_is_hole map (ds_offset d) (ds_length d) = false /\ 0 <= ds_offset d /\ 0 < ds_length d /\ ds_offset d + ds_length d <= size)
    (samples seed percent src size dom).
Proof.
  intros [Hof Hn _ Hh]. destruct (decide (sd_n dom = 0)) as [H0|H0].
  { unfold samples. rewrite decide_True by (by right). constructor. }
  destruct (samples_perm seed percent src size dom ltac:(lia) ltac:(lia)) as (l & Hp & _ & _ & Hl & _).
  rewrite Hp. apply Forall_fmap, Forall_forall. intros i Hi. apply Hl in Hi. cbn [compose].
  split; [by apply Hh|]. pose proof (domain_block size dom D i Hsize Hof Hi) as H. unfold block_ok in H.
  unfold describe. destruct (sample_domain_offset dom i). cbn in *. lia.
Qed.
End domain.

(** * The item *)

Section item.
Context (eintr : nat) (cfg : verify_config) (times unpreservable forced : bool).
Context (item : verify_item) (files : bytes -> bytes) (target : stat) (data : Z -> Prop) (clean : Prop).
Abbreviation st := (vi_st item).
Abbreviation size := (st_size (vi_st item)).
Abbreviation src := (vi_src item).
Abbreviation dst := (vi_dst item).
Abbreviation R := (reading src dst files st target data clean).
Abbreviation agrees := (agree src dst files).
Abbreviation chosen := (samples (vc_seed cfg) (vc_percent cfg) src size).

(** The metadata is as it should be. *)
Definition meta_accepted : Prop :=
  if vc_metadata cfg then
    st_mode target &. S_IFMT = st_mode st &. S_IFMT /\ (vi_is_dir item = false -> st_size target = size) /\
    st_mode target &. o07777 = st_mode st &. o07777 /\
    (times = true -> st_atim target = st_atim st /\ st_mtim target = st_mtim st) /\
    (unpreservable = true \/ st_uid target = st_uid st /\ st_gid target = st_gid st /\ forced = false)
  else if vi_is_dir item then S_ISDIR (st_mode target) = true
  else S_ISREG (st_mode target) = true /\ st_size target = size.

(** Every chosen block of a domain that has all the data is the same on both
    sides. *)
Definition data_verified : Prop :=
  exists dom D, domain_of size dom D /\ sd_n dom <= 2 ^ 64 /\ (forall x, 0 <= x < size -> data x -> D x) /\ Forall agrees (chosen dom).

Lemma open_verify_data_ok p s (g : mstate R) :
  p = src \/ p = dst ->
  wpM R (open_verify_data cfg times p) s g (fun g' r _ =>
    vg_intr g' = vg_intr g /\
    match r with
    | Ok fd => vg_fds g !! fd = None /\ vg_fds g' = <[fd := p]> (vg_fds g)
    | Err _ => vg_fds g' = vg_fds g /\ ~ clean
    end).
Proof.
  intros Hp. unfold open_verify_data. destruct (vc_metadata cfg && times).
  - wp_call r Hr. destruct r as [fd|e]; [apply wpM_ret; split; [done|by destruct Hr]|].
    apply wpM_bind, wpM_call; [done|]. intros [] _. by apply wpM_ret.
  - apply wpM_bind, wpM_gets, wpM_bind, wpM_modify, wpM_bind.
    apply (wpM_mono R _ _ _ (fun (g' : mstate R) (_ : unit) (_ : vstate) => g' = g)).
    { apply wpM_when; intros _; [|done]. by apply wpM_call. }
    intros g' [] s' ->. apply wpM_call; [by split|]. intros r Hr. destruct r as [fd|e]; [by destruct Hr|done].
Qed.

Lemma source_still_matches_ok fd s (g : mstate R) :
  vg_fds g !! fd = Some src ->
  wpM R (source_still_matches item fd) s g (fun g' r _ => g' = g /\ (clean -> S_ISREG (st_mode st) = true -> r = true)).
Proof.
  intros Hfd. unfold source_still_matches. wp_call r Hr. apply wpM_bind. set (same := match r with Ok _ => _ | Err _ => _ end).
  apply (wpM_mono R _ _ _ (fun (g' : mstate R) (_ : unit) (_ : vstate) => g' = g)).
  { apply wpM_when; intros _; [|done]. by apply wpM_call. }
  intros g' [] s' ->. apply wpM_ret. split; [done|]. intros Hc Hreg. unfold same. destruct r as [now|e]; [|done].
  rewrite (Hr Hc), Hreg. by rewrite !bool_decide_true.
Qed.
Definition with_fd (p : bytes) (r : res Z) (m : gmap Z bytes) : gmap Z bytes := match r with Ok fd => <[fd := p]> m | Err _ => m end.
Definition is_fd (m : gmap Z bytes) (p : bytes) (r : res Z) : Prop := match r with Ok fd => m !! fd = Some p | Err _ => True end.
Definition fresh_fd (m : gmap Z bytes) (r : res Z) : Prop := match r with Ok fd => m !! fd = None | Err _ => True end.

Lemma opened_advise_ok p r s (g : mstate R) :
  is_fd (vg_fds g) p r -> wpM R (opened r (advise_verification_access cfg)) s g (fun g' _ _ => g' = g).
Proof.
  intros H. destruct r as [fd|e]; [|by apply wpM_ret]. apply wpM_bind, wpM_call; [by exists p|]. intros x _. by apply wpM_ret.
Qed.
Lemma opened_close_ok p r m s (g : mstate R) :
  vg_fds g = with_fd p r m -> fresh_fd m r ->
  wpM R (opened r (fun fd => call (close fd);; mret tt)) s g (fun g' _ _ => vg_fds g' = m).
Proof.
  intros H Hm. destruct r as [fd|e]; [|by apply wpM_ret]. cbn in H, Hm.
  apply wpM_bind, wpM_call; [exists p; cbn; by rewrite H, lookup_insert_eq|]. intros x _. apply wpM_ret. cbn. rewrite H. by apply delete_insert_id.
Qed.

Lemma build_ok (r : res Z) (s : vstate) (g : mstate R) :
  0 < size -> is_fd (vg_fds g) src r ->
  wpM R (match r with Ok fd => if source_is_sparse st then extent_map_build fd size else mret (true, no_map) | Err _ => mret (true, no_map) end : VM (bool * extent_map)) s g
    (fun g' '(b, m) _ => g' = g /\ (b = true -> map_good st data m) /\ (b = false -> ~ clean)).
Proof.
  intros Hs H. assert (Hno : map_good st data no_map) by done. destruct r as [fd|e]; [|by apply wpM_ret].
  destruct (source_is_sparse st); [|by apply wpM_ret]. eapply wpM_mono; [by apply extent_map_build_ok|]. cbn beta. intros g' [b m] s' (? & _ & ? & ?). by split_and!.
Qed.
Lemma init_ok map (s : vstate) (g : mstate R) :
  0 < size < 2 ^ 63 ->
  wpM R (sample_domain_init map size) s g (fun g' r _ => g' = g /\
    match r with Some dom => map_good st data map -> exists D, good_domain st data map dom D | None => ~ clean end).
Proof.
  intros Hs. unfold sample_domain_init. destruct (em_supported map) eqn:Em; cbn [negb].
  2: { apply wpM_ret. split; [done|]. intros _. eexists. by apply good_dense. }
  apply wpM_bind. apply (wpM_mono R _ _ _ (fun (g' : mstate R) (ok : bool) (_ : vstate) => g' = g /\ (ok = false -> ~ clean))).
  { case_decide; [|by apply wpM_ret]. apply wpM_call; [done|]. intros r [->|Hr]; by split. }
  intros g' ok s' [-> Hok]. apply wpM_ret. split; [done|]. destruct ok; [|by apply Hok]. intros Hg. eexists. by apply good_sparse.
Qed.

(** Equal contents agree everywhere. *)
Lemma equal_agrees map dom D :
  0 < size < 2 ^ 63 -> good_domain st data map dom D -> files src = files dst -> zlen (files src) = size -> Forall agrees (chosen dom).
Proof.
  intros Hs Hg He Hl. eapply Forall_impl; [by eapply samples_blocks|]. cbn. intros d (_ & H1 & H2 & H3). split; [|by rewrite He].
  unfold sub, zlen in *. rewrite length_take, length_drop. lia.
Qed.

Definition same_contents : Prop := files src = files dst /\ zlen (files src) = size /\ S_ISREG (st_mode st) = true.

Lemma compare_files_ok map dom (s : vstate) (g : mstate R) sfd dfd :
  0 < size < 2 ^ 63 -> vc_data cfg = true -> vg_fds g !! sfd = Some src -> vg_fds g !! dfd = Some dst -> (vg_intr g <= eintr)%nat ->
  (map_good st data map -> exists D, good_domain st data map dom D) ->
  wpM R (ok ← source_still_matches item sfd;
         if negb ok then mret (true, lctx0) else
         '(ok, ctx) ← on_state (for_each_sample cfg item dom (compare_sample eintr sfd dfd dst map)) lctx0;
         if negb (ok : bool) then mret (true, ctx) else
         ok ← source_still_matches item sfd; mret (negb ok, ctx) : VM (bool * local_ctx)) s g
    (fun g' '(bad, ctx) _ => vg_fds g' = vg_fds g /\ (map_good st data map ->
       (bad = false -> lc_mismatch ctx = false -> data_verified) /\
       (clean -> same_contents -> bad = false /\ lc_mismatch ctx = false))).
Proof.
  intros Hs Hdata Hsf Hdf Hi Hdom. apply wpM_bind. eapply wpM_mono; [by apply source_still_matches_ok|]. cbn beta. intros g1 ok1 s1 [-> H1].
  destruct ok1; cbn [negb].
  2: { apply wpM_ret. split; [done|]. intros _. split; [done|]. intros Hc (_ & _ & Hreg). by specialize (H1 Hc Hreg). }
  apply wpM_bind, wpM_on_state. unfold for_each_sample. rewrite bool_decide_false, Hdata by lia. cbn [negb orb].
  eapply wpM_mono; [by apply compare_all_ok|]. cbn beta. intros g2 ok2 ctx (F2 & I2 & -> & _ & A2). cbn [negb].
  apply wpM_bind. eapply wpM_mono; [apply source_still_matches_ok; by rewrite F2|]. cbn beta. intros g3 ok3 s3 [-> H3]. apply wpM_ret.
  split; [done|]. intros Hg. destruct (Hdom Hg) as [D HD].
  destruct A2 as [A2 C2]. { eapply Forall_impl; [by eapply samples_blocks|]. cbn. tauto. }
  split.
  - intros _ Hm. exists dom, D. destruct HD. split_and!; [done|lia|done|by apply A2].
  - intros Hc (He & Hl & Hreg). rewrite (H3 Hc Hreg). split; [done|]. apply C2; [done|]. by eapply equal_agrees.
Qed.

Lemma compare_data_ok failed s (g : mstate R) :
  0 < size < 2 ^ 63 -> vc_data cfg = true -> vg_fds g = ∅ -> (vg_intr g <= eintr)%nat ->
  wpM R (compare_data eintr cfg times item failed) s g (fun g' '(failed', _, _) _ =>
    vg_fds g' = ∅ /\ (failed' = false -> failed = false /\ data_verified) /\
    (clean -> failed = false -> same_contents -> failed' = false)).
Proof.
  intros Hs Hdata Hfds Hi. unfold compare_data. cbv zeta.
  apply wpM_bind. eapply wpM_mono; [apply open_verify_data_ok; by left|]. cbn beta. intros g1 rs s1 [I1 H1].
  apply wpM_bind. eapply wpM_mono; [apply open_verify_data_ok; by right|]. cbn beta. intros g2 rd s2 [I2 H2].
  assert (Hg2 : vg_fds g2 = with_fd dst rd (with_fd src rs ∅) /\ fresh_fd (with_fd src rs ∅) rd /\ (is_ok rs = false \/ is_ok rd = false -> ~ clean)).
  { destruct rs, rd; cbn; rewrite Hfds in *; destruct H1 as [H1 H1'], H2 as [H2 H2']; rewrite ?H1', ?H2', ?H1, ?H2 in *; cbn; split_and!; try done; by intros []. }
  destruct Hg2 as (Hg2 & Hfr & Hbad).
  assert (Hsrc : is_fd (vg_fds g2) src rs).
  { rewrite Hg2. destruct rs as [sfd|], rd as [dfd|]; cbn in *; try done; [|by rewrite lookup_insert_eq].
    rewrite lookup_insert_ne; [by rewrite lookup_insert_eq|]. intros ->. by rewrite lookup_insert_eq in Hfr. }
  assert (Hdst : is_fd (vg_fds g2) dst rd) by (rewrite Hg2; destruct rd as [dfd|]; [cbn; by rewrite lookup_insert_eq|done]).
  clear H1 H2. apply wpM_bind. eapply wpM_mono; [by eapply opened_advise_ok|]. cbn beta. intros ? [] s3 ->.
  apply wpM_bind. eapply wpM_mono; [by eapply opened_advise_ok|]. cbn beta. intros ? [] s4 ->.
  apply wpM_bind. eapply wpM_mono; [apply build_ok; [lia|done]|]. cbn beta. intros g5 [built map] s5 (-> & Hmap & Hnb).
  apply wpM_bind. eapply wpM_mono; [by apply init_ok|]. cbn beta. intros g6 dom s6 [-> Hdom].
  apply wpM_bind.
  apply (wpM_mono R _ _ _ (fun (g' : mstate R) '(f, ctx, _) (_ : vstate) => vg_fds g' = vg_fds g2 /\
    (f = false -> lc_mismatch ctx = false -> failed = false /\ data_verified) /\
    (clean -> failed = false -> same_contents -> f = false /\ lc_mismatch ctx = false))).
  { destruct dom as [dom|]; [|by apply wpM_ret].
    apply wpM_bind. apply (wpM_mono R _ _ _ (fun (g' : mstate R) '(bad, ctx) (_ : vstate) => vg_fds g' = vg_fds g2 /\ (map_good st data map ->
       (bad = false -> lc_mismatch ctx = false -> data_verified) /\ (clean -> same_contents -> bad = false /\ lc_mismatch ctx = false)))).
    - destruct rs as [sfd|]; [destruct rd as [dfd|]|].
      + apply compare_files_ok; try done; lia.
      + apply wpM_bind, wpM_call; [done|]. intros [] _. apply wpM_ret. split; [done|]. intros _. split; [done|]. intros Hc. exfalso. apply Hbad; auto.
      + apply wpM_bind, wpM_call; [done|]. intros [] _. apply wpM_ret. split; [done|]. intros _. split; [done|]. intros Hc. exfalso. apply Hbad; auto.
    - intros g7 [bad ctx] s7 [F7 H7]. apply wpM_ret. split; [done|]. destruct built; [|rewrite orb_true_r; split; [done|intros Hc; by apply Hnb in Hc]].
      destruct (H7 (Hmap eq_refl)) as [A B]. destruct failed; cbn; [done|]. split; [intros; by split; [|apply A]|]. intros Hc _. by apply B. }
  intros g7 [[f ctx] scope] s7 (F7 & A7 & B7).
  assert (Hfrs : fresh_fd ∅ rs) by by destruct rs.
  apply wpM_bind. apply (wpM_mono R _ _ _ (fun (g' : mstate R) (_ : unit) (_ : vstate) => vg_fds g' = with_fd dst rd ∅)).
  { rewrite <- F7 in *. destruct rs as [sfd|]; [|by apply wpM_ret; rewrite Hg2].
    apply wpM_bind, wpM_call; [by exists src|]. intros x _. apply wpM_ret. cbn [mupd reading vread_upd vg_fds]. rewrite Hg2. cbn.
    destruct rd as [dfd|]; cbn in *; [|by apply delete_insert_id].
    rewrite delete_insert_ne; [by rewrite delete_insert_id|]. intros ->. by rewrite lookup_insert_eq in Hfr. }
  intros g8 [] s8 F8. apply wpM_bind. eapply wpM_mono; [apply (opened_close_ok dst rd ∅); [done|by destruct rd]|]. cbn beta. intros g9 [] s9 F9.
  apply wpM_ret. split; [done|]. split.
  - intros [Hf Hm]%orb_false_iff. by apply A7.
  - intros Hc Hf He. destruct (B7 Hc Hf He) as [-> ->]. done.
Qed.

(** ** The metadata *)

Definition genuine_ok : Prop :=
  st_mode target &. S_IFMT = st_mode st &. S_IFMT /\ (vi_is_dir item = false -> st_size target = size) /\
  st_mode target &. o07777 = st_mode st &. o07777 /\ (times = true -> st_atim target = st_atim st /\ st_mtim target = st_mtim st).
Lemma genuine_field_None : genuine_field times st target (vi_is_dir item) = None <-> genuine_ok.
Proof.
  unfold genuine_field, genuine_ok. destruct (vi_is_dir item), times; repeat (case_bool_decide; cbn [negb andb]); intuition congruence.
Qed.
Lemma owner_field_None : owner_field forced st target = None <-> st_uid target = st_uid st /\ st_gid target = st_gid st /\ forced = false.
Proof. unfold owner_field. destruct forced; repeat (case_bool_decide; cbn [negb]); intuition congruence. Qed.

Lemma verify_metadata_stat_ok s (g : mstate R) :
  vc_metadata cfg = true ->
  wpM R (verify_metadata_stat times unpreservable forced st target (vi_is_dir item) dst) s g (fun g' cls _ =>
    g' = g /\ (cls <> VERIFY_META_MISMATCH <-> meta_accepted)).
Proof.
  intros Hm. unfold verify_metadata_stat, meta_accepted. rewrite Hm. pose proof genuine_field_None as Hg. unfold genuine_ok in Hg.
  destruct (genuine_field _ _ _ _) as [f|].
  { apply wpM_bind, wpM_call; [done|]. intros [] _. apply wpM_ret. split; [done|]. split; [done|]. intros (H1 & H2 & H3 & H4 & _).
    enough (Some f = None) by done. by apply Hg. }
  destruct Hg as [Hg _]. specialize (Hg eq_refl). pose proof owner_field_None as Ho. destruct (owner_field _ _ _) as [f|].
  - destruct unpreservable.
    + apply wpM_bind, wpM_gets, wpM_bind, wpM_modify, wpM_bind.
      apply (wpM_mono R _ _ _ (fun (g' : mstate R) (_ : unit) (_ : vstate) => g' = g)).
      { apply wpM_when; intros _; [|done]. by apply wpM_call. }
      intros g' [] s' ->. apply wpM_ret. split; [done|]. split; [intros _|done]. destruct Hg as (? & ? & ? & ?). split_and!; auto.
    + apply wpM_bind, wpM_call; [done|]. intros [] _. apply wpM_ret. split; [done|]. split; [done|]. intros (_ & _ & _ & _ & [?|H]); [done|].
      apply Ho in H. done.
  - apply wpM_ret. split; [done|]. split; [intros _|done]. destruct Hg as (? & ? & ? & ?). split_and!; auto. right. by apply Ho.
Qed.

Lemma check_target_ok s (g : mstate R) :
  wpM R (check_target cfg times unpreservable forced item) s g (fun g' '(failed, _, structural) _ =>
    g' = g /\ (failed = false -> structural = false /\ meta_accepted) /\
    (clean -> meta_accepted -> failed = false /\ structural = false)).
Proof.
  unfold check_target. wp_call r Hr. destruct (vc_metadata cfg) eqn:Hm.
  - destruct r as [actual|e].
    2: { apply wpM_bind, wpM_call; [done|]. intros [] _. apply wpM_ret. split; [done|]. split; [done|]. intros Hc. by specialize (Hr Hc). }
    cbn in Hr. subst actual. apply wpM_bind. eapply wpM_mono; [by apply verify_metadata_stat_ok|]. cbn beta. intros g' cls s' [-> Hcls].
    destruct cls.
    + apply wpM_ret. split; [done|]. split; [intros _; split; [done|]; by apply Hcls|done].
    + apply wpM_ret. split; [done|]. split; [done|]. intros _ Ha. by apply Hcls in Ha.
    + apply wpM_bind, wpM_modify, wpM_ret. split; [done|]. split; [intros _; split; [done|]; by apply Hcls|done].
  - set (bad := match r with Ok _ => _ | Err _ => _ end). apply wpM_bind.
    apply (wpM_mono R _ _ _ (fun (g' : mstate R) (_ : unit) (_ : vstate) => g' = g)).
    { apply wpM_when; intros _; [|done]. by apply wpM_call. }
    intros g' [] s' ->. apply wpM_ret. split; [done|]. unfold bad, meta_accepted. rewrite Hm.
    destruct r as [actual|e]; [cbn in Hr; subst actual|by split; [|intros Hc; specialize (Hr Hc)]].
    destruct (vi_is_dir item); [by destruct (S_ISDIR _)|]. destruct (S_ISREG _); cbn [negb orb]; [|by split; [|intros _ []]].
    case_bool_decide; cbn; split; [by intros _| |done|]; by intros _ [].
Qed.
End item.

(** C8.  Verification of one local item is exact. Whatever the kernel answers:
    only the two files of the item are opened, for reading only, every descriptor
    is closed; and success is reported only if the metadata of the target is as it
    should be (type, size, permissions, times when they are preserved, ownership
    unless it could not have been preserved) and, with data verification on, every
    chosen block of a domain that contains all the data of the source is in the
    target byte for byte. When asked for all blocks, all data is the same. When
    nothing fails and the two sides agree, success is reported. *)
Theorem verify_local_exact eintr cfg times unpreservable forced item files target data clean intr s :
  0 <= st_size (vi_st item) < 2 ^ 63 -> (intr <= eintr)%nat ->
  wpM (reading (vi_src item) (vi_dst item) files (vi_st item) target data clean)
    (verify_local_item eintr cfg times unpreservable forced item) s (VG ∅ intr) (fun g' ok _ =>
      vg_fds g' = ∅ /\
      (ok = true -> meta_accepted cfg times unpreservable forced item target /\
         (vi_is_dir item = false -> vc_data cfg = true -> 0 < st_size (vi_st item) ->
          exists dom D, domain_of (st_size (vi_st item)) dom D /\
            (forall x, 0 <= x < st_size (vi_st item) -> data x -> D x) /\
            Forall (agree (vi_src item) (vi_dst item) files)
              (samples (vc_seed cfg) (vc_percent cfg) (vi_src item) (st_size (vi_st item)) dom) /\
            (sample_target (vc_percent cfg) (sd_n dom) = sd_n dom -> forall x, 0 <= x < st_size (vi_st item) -> data x ->
               files (vi_dst item) !! Z.to_nat x = files (vi_src item) !! Z.to_nat x))) /\
      (clean -> meta_accepted cfg times unpreservable forced item target -> same_contents item files -> ok = true)).
Proof.
  intros Hs Hi. unfold verify_local_item. apply wpM_bind. eapply wpM_mono; [apply check_target_ok|]. cbn beta.
  intros g1 [[failed mb] structural] s1 (-> & H1 & C1). cbv zeta. apply wpM_bind.
  set (run := negb (vi_is_dir item) && _ && _ && _).
  apply (wpM_mono (reading (vi_src item) (vi_dst item) files (vi_st item) target data clean) _ _ _
    (fun (g' : vghost) '(f, _, _) (_ : vstate) => vg_fds g' = ∅ /\
      (f = false -> failed = false /\ (run = true -> data_verified cfg item files data)) /\
      (clean -> failed = false -> same_contents item files -> f = false))).
  { destruct run eqn:Er; [|by apply wpM_ret]. subst run. rewrite !andb_true_iff, bool_decide_eq_true in Er. destruct Er as [[[_ _] Hd] Hpos].
    eapply wpM_mono; [apply compare_data_ok; [lia|done|done|done]|]. cbn beta. intros g' [[f ctx] scope] s' (F & A & C).
    split; [done|]. split; [|done]. intros Hf. destruct (A Hf). by split. }
  intros g2 [[f ctx] scope] s2 (F2 & A2 & C2). apply wpM_bind, wpM_modify, wpM_bind, wpM_modify, wpM_ret.
  split; [done|]. split.
  - intros Hok. apply negb_true_iff in Hok. destruct (A2 Hok) as [Hf Hv]. destruct (H1 Hf) as [Hst Hm]. split; [done|].
    intros Hdir Hdata Hpos. destruct Hv as (dom & D & HD & Hn & Hsub & Hall).
    { subst run. by rewrite Hdir, Hst, Hdata, bool_decide_true. }
    exists dom, D. split_and!; [done|done|done|]. intros Ht x Hx Hdx.
    destruct (decide (sd_n dom <= 0)) as [Hn0|Hn0].
    { destruct (domain_covers (st_size (vi_st item)) dom D x ltac:(lia) HD (Hsub x Hx Hdx)) as (i & Hi0 & _). lia. }
    destruct (samples_cover (vc_seed cfg) (vc_percent cfg) (vi_src item) (st_size (vi_st item)) dom D x ltac:(lia) ltac:(lia) HD Ht (Hsub x Hx Hdx)) as (d & Hd & Hin).
    rewrite Forall_forall in Hall. destruct (Hall d Hd) as [_ He].
    assert (Ho : 0 <= ds_offset d).
    { destruct (samples_perm (vc_seed cfg) (vc_percent cfg) (vi_src item) (st_size (vi_st item)) dom ltac:(lia) ltac:(lia)) as (l & Hp & _ & _ & Hl & _).
      rewrite Hp in Hd. apply list_elem_of_fmap in Hd as (i & -> & Hid). apply Hl in Hid.
      pose proof (domain_block (st_size (vi_st item)) dom D i ltac:(lia) HD Hid) as Hb. unfold block_ok in Hb. unfold describe in *. destruct (sample_domain_offset dom i). cbn in *. lia. }
    apply (f_equal (fun l => l !! (Z.to_nat x - Z.to_nat (ds_offset d))%nat)) in He. unfold sub in He.
    rewrite !lookup_take_lt, !lookup_drop in He by lia. by replace (Z.to_nat (ds_offset d) + (Z.to_nat x - Z.to_nat (ds_offset d)))%nat with (Z.to_nat x) in He by lia.
  - intros Hc Hm Hsame. destruct (C1 Hc Hm) as [Hf _]. by rewrite (C2 Hc Hf Hsame).
Qed.

(** * Two files on a kernel *)

Section kernel.
Context (files : bytes -> bytes) (st target : stat).

Definition fstate : Type := Z * gmap Z bytes.
Definition two_files (R : Type) (e : posix R) : fstate -> R * fstate :=
  match e in posix R return fstate -> R * fstate with
  | open p _ _ => fun k => (Ok k.1, (k.1 + 1, <[k.1 := p]> k.2))
  | close fd => fun k => (Ok tt, (k.1, delete fd k.2))
  | pread fd n off => fun k => (Ok (match k.2 !! fd with Some p => sub (files p) off n | None => [] end), k)
  | lstat _ => fun k => (Ok target, k)
  | fstat _ => fun k => (Ok st, k)
  | e => fun k => ((permissive _ e (Kstate 3 [])).1, k)
  end.
Definition two_inv (k : fstate) (g : vghost) : Prop := vg_fds g = k.2 /\ 0 <= k.1 /\ forall fd, k.1 <= fd -> k.2 !! fd = None.

Lemma two_files_ok src dst data clean : kernel_ok (reading src dst files st target data clean) two_files two_inv.
Proof.
  intros k g T e (Hg & Hk & Hfr) Hpre. destruct e; try done; unfold two_inv; cbn in *.
  - split; [split; [done|rewrite Hg; by apply Hfr]|]. rewrite Hg. split_and!; [done|lia|]. intros fd Hfd.
    rewrite lookup_insert_ne by lia. apply Hfr. lia.
  - split; [done|]. rewrite Hg. split_and!; [done|lia|]. intros x Hx. rewrite lookup_delete. by case_decide; [|apply Hfr].
  - split; [|done]. rewrite Hg in *. destruct Hpre as [p Hp]. rewrite Hp. split.
    + unfold sub, zlen. rewrite length_take. lia.
    + intros q Hq Ho. simplify_eq. split; [unfold sub; apply prefix_take|]. intros _ Hn Hnil. unfold sub in Hnil.
      apply (f_equal length) in Hnil. rewrite length_take, length_drop in Hnil. unfold zlen. cbn in Hnil. lia.
  - split; [|done]. split; [done|]. by right; left.
  - split; [|done]. by left.
  - split; [by left|done].
Qed.
End kernel.

(** A hundred bytes, checked in full with the metadata. *)
Definition w_stat : stat := Stat 1 2 (S_IFREG |. o0755) 1 0 0 100 8 (Timespec 1 0) (Timespec 2 0) (Timespec 3 0).
Definition w_item : verify_item := VItem (str "/a") (str "/b") w_stat false false true.
Definition w_cfg : verify_config := VConfig true true false f64_100 7.
Definition w_files (p : bytes) : bytes := replicate 100 x41.
Definition w_state : vstate := VState false false tls0 tls0.

Lemma verify_local_exact_witness :
  exists s' k, run (two_files w_files w_stat w_stat) (verify_local_item 0 w_cfg true false false w_item w_state) (3, ∅) = Some ((true, s'), k) /\ k.2 = ∅.
Proof.
  assert (H0 : 0 <= st_size (vi_st w_item) < 2 ^ 63) by (cbn [w_item vi_st w_stat st_size]; lia).
  pose proof (verify_local_exact 0 w_cfg true false false w_item w_files w_stat (fun _ => True) True 0 w_state H0 (le_n 0)) as H. clear H0.
  eapply (wp_run (reading (str "/a") (str "/b") w_files w_stat w_stat (fun _ => True) True) (two_files w_files w_stat w_stat) two_inv _ (3, ∅)) in H as ([ok s'] & k & g & Hrun & HI & Hfds & _ & Hc);
    [|by intros []|apply two_files_ok|by split_and!].
  assert (Hok : ok = true).
  { apply Hc; [exact Logic.I| |]; clear; [|split; [reflexivity|split; vm_compute; reflexivity]].
    cbv beta iota delta [meta_accepted w_cfg vc_metadata w_item vi_st vi_is_dir w_stat st_mode st_size st_atim st_mtim st_uid st_gid].
    split_and!; try reflexivity; try (intros _; split; reflexivity). right. split_and!; reflexivity. }
  destruct HI as (HI & _). rewrite Hok in Hrun. exists s', k. split; [exact Hrun|]. congruence.
Defined.

(** One byte changed: the mismatch is found and counted. *)
Definition bad_files (p : bytes) : bytes := if decide (p = str "/b") then <[57%nat := x42]> (w_files p) else w_files p.
Example corruption_found :
  match run (two_files bad_files w_stat w_stat) (verify_local_item 0 w_cfg true false false w_item w_state) (3, ∅) with
  | Some ((ok, s), _) => ok = false /\ vn_data_mismatches (vs_tls s) = 1 /\ vn_failures (vs_tls s) = 1
  | None => False
  end.
Proof. by vm_compute. Qed.
