(* ===== verification/VerifyRemote.v ===== *)
(** Verifying one item against a remote target (src/verify.c:
    [hash_sample], [flush_remote_batch], [verify_remote_item]): the source's
    blocks are hashed and sent in batches, the last of which carries the
    metadata. How a batch is sent is a parameter; over SSH it is
    [sshx_verify_batch]. The digest function is a parameter as well. *)

From S2P Require Export VerifyLocal SshClient.
From stdpp Require Import list.
#[local] Open Scope Z_scope.

(** [remote_ctx_t] without what does not change. *)
Record remote_ctx := RCtx { rc_batch : list sample; rc_bytes : Z; rc_blocks : Z; rc_hole_bytes : Z; rc_hole_blocks : Z; rc_failed : bool }.
Definition rctx0 : remote_ctx := RCtx [] 0 0 0 0 false.
Definition set_rc_batch (l : list sample) (c : remote_ctx) : remote_ctx :=
  RCtx l (rc_bytes c) (rc_blocks c) (rc_hole_bytes c) (rc_hole_blocks c) (rc_failed c).
Definition rc_fail (c : remote_ctx) : remote_ctx :=
  RCtx (rc_batch c) (rc_bytes c) (rc_blocks c) (rc_hole_bytes c) (rc_hole_blocks c) true.

(** Programs on one part of a pair. *)
Definition on_fst {A X Y} (c : M posix X A) : M posix (X * Y) A :=
  fun s => prog_bind (fun '(a, x) => Ret (a, (x, s.2))) (c s.1).
Definition on_snd {A X Y} (c : M posix Y A) : M posix (X * Y) A :=
  fun s => prog_bind (fun '(a, y) => Ret (a, (s.1, y))) (c s.2).

Section remote.
Context {P : Type} (send : bytes -> stat -> list sample -> Z -> M posix P (res unit)).
Context (eintr : nat) (blake3_hash : bytes -> bytes) (cfg : verify_config) (times : bool).
Abbreviation RM := (M posix (remote_ctx * P)).

Definition flush_remote_batch (item : verify_item) (check_metadata : bool) : RM bool :=
  batch ← gets (fun s => rc_batch s.1);
  let flags := verify_flags (vi_is_dir item) (check_metadata && vc_metadata cfg) (vc_metadata cfg && times) (whole_file cfg) in
  r ← on_snd (send (vi_dst item) (vi_st item) batch flags);
  match r with
  | Err _ => on_fst (modify rc_fail);; mret false
  | Ok _ => on_fst (modify (set_rc_batch []));; mret true
  end.

Definition hash_sample (item : verify_item) (src_fd : Z) (map : extent_map) (d : sample_desc) : RM bool :=
  let len := ds_length d in
  let expected_zero := extent_map_range_is_hole map (ds_offset d) len in
  buf ← (if expected_zero then mret (Some []) else lift (pread_full eintr src_fd (Z.to_nat len) (ds_offset d)));
  match (match buf with Some b => if expected_zero || bool_decide (zlen b = len) then Some b else None | None => None end) with
  | None => on_fst (modify rc_fail);; mret false
  | Some b =>
      let digest := Sample (ds_offset d) (u32 len) (if expected_zero then VERIFY_SAMPLE_EXPECT_ZERO else 0)
                      (if expected_zero then replicate (Z.to_nat VERIFY_DIGEST_SIZE) x00 else blake3_hash b) in
      on_fst (modify (fun c => RCtx (rc_batch c ++ [digest]) (u64 (rc_bytes c + len)) (u64 (rc_blocks c + 1))
                                 (if expected_zero then u64 (rc_hole_bytes c + len) else rc_hole_bytes c)
                                 (if expected_zero then u64 (rc_hole_blocks c + 1) else rc_hole_blocks c) (rc_failed c)));;
      count ← gets (fun s => zlen (rc_batch s.1));
      if decide (count = VERIFY_BATCH_MAX) then flush_remote_batch item false else mret true
  end.

(** Run on a context of its own, next to the sender's state. *)
Definition with_ctx {A} (c : RM A) (ctx : remote_ctx) : M posix (vstate * P) (A * remote_ctx) :=
  fun s => prog_bind (fun '(a, (ctx, p)) => Ret ((a, ctx), (s.1, p))) (c (ctx, s.2)).

(** Hashing and sending the data; the last, partial batch stays in the context. *)
Definition send_data (item : verify_item) : M posix (vstate * P) (remote_ctx * Z) :=
  let size := st_size (vi_st item) in
  src ← on_fst (open_verify_data cfg times (vi_src item));
  '(built, map) ←
    match src with
    | Err _ => on_fst (warn (vi_src item));; mret (false, no_map)
    | Ok fd =>
        on_fst (advise_verification_access cfg fd);;
        if source_is_sparse (vi_st item) then extent_map_build fd size else mret (true, no_map)
    end;
  '(ctx, scope) ←
    match src with
    | Ok fd =>
        if negb (built : bool) then mret (rc_fail rctx0, u64 size) else
        dom ← sample_domain_init map size;
        match dom with
        | None => mret (rc_fail rctx0, u64 size)
        | Some dom =>
            ok ← on_fst (source_still_matches item fd);
            if negb ok then mret (rc_fail rctx0, sd_bytes dom) else
            '(ok, ctx) ← with_ctx (for_each_sample cfg item dom (hash_sample item fd map)) rctx0;
            if negb (ok : bool) then mret (rc_fail ctx, sd_bytes dom) else
            ok ← on_fst (source_still_matches item fd);
            mret (if ok : bool then ctx else rc_fail ctx, sd_bytes dom)
        end
    | Err _ => mret (rc_fail rctx0, u64 size)
    end;
  on_fst (opened src (fun fd => call (close fd);; mret tt));;
  mret (ctx, scope).

Definition verify_remote_item (item : verify_item) : M posix (vstate * P) bool :=
  let scope := if vi_is_dir item then 0 else u64 (st_size (vi_st item)) in
  '(ctx, scope) ← (if negb (vi_is_dir item) && vc_data cfg && bool_decide (0 < st_size (vi_st item))
                   then send_data item else mret (rctx0, scope));
  '(_, ctx) ←
    (if negb (rc_failed ctx) && (bool_decide (0 < zlen (rc_batch ctx)) || vc_data cfg || vc_metadata cfg || vi_is_dir item)
     then with_ctx (flush_remote_batch item true) ctx else mret (true, ctx));
  on_fst (stats_record_verify (rc_bytes ctx) scope (rc_blocks ctx) (vc_metadata cfg) false false false false (rc_failed ctx));;
  on_fst (stats_record_verify_holes (rc_hole_blocks ctx) (rc_hole_bytes ctx));;
  mret (negb (rc_failed ctx)).
End remote.

(** Over the pool of connections. *)
Definition verify_remote_item_ssh (eintr : nat) : (bytes -> bytes) -> verify_config -> bool -> verify_item -> M posix (vstate * pool) bool :=
  verify_remote_item (sshx_verify_batch eintr) eintr.
