(* ===== verification/VerifyServerOk.v ===== *)
(** What the server's silence about a verification request means: when
    [handle_verify_path] leaves the error count alone, every block of the batch
    has the digest the client sent, and the metadata asked about is there. *)

From S2P Require Export ServerVerify SshWire VerifyLocalOk.
From stdpp Require Import list gmap.
#[local] Open Scope Z_scope.

(** * The monitor *)

Section server.
Context (tfiles : bytes -> bytes) (tstat : bytes -> stat).

Definition vserve_adm (g : vghost) R (e : posix R) : R -> Prop :=
  match e in posix R return R -> Prop with
  | open _ _ _ => fun r => match r with Ok fd => 0 <= fd /\ vg_fds g !! fd = None | Err _ => True end
  | pread fd n off => fun r =>
      match r with
      | Ok d => zlen d <= Z.max 0 n /\ forall p, vg_fds g !! fd = Some p -> 0 <= off -> d `prefix_of` drop (Z.to_nat off) (tfiles p)
      | Err e => e = EINTR -> (0 < vg_intr g)%nat
      end
  | fstat fd => fun r => match r with Ok s => forall p, vg_fds g !! fd = Some p -> s = tstat p | Err _ => True end
  | fstatat _ p _ => fun r => match r with Ok s => s = tstat p | Err _ => True end
  | _ => fun _ => True
  end.
Definition vserve : monitor posix := Monitor vghost (fun _ _ _ => True) vserve_adm vread_upd False.

(** ** Reports *)

(** [n] errors have been logged, and the configuration is the same. *)
Definition logged (n : Z) (s s' : server) : Prop :=
  s_cfg s' = s_cfg s /\ g_err_count (s_err s') = u64 (g_err_count (s_err s) + n).

Lemma logged_refl s : is_u64 (g_err_count (s_err s)) -> logged 0 s s.
Proof. intros H. split; [done|]. by rewrite Z.add_0_r, u64_small. Qed.
Lemma logged_trans a b s1 s2 s3 : logged a s1 s2 -> logged b s2 s3 -> logged (a + b) s1 s3.
Proof.
  intros [H1 H2] [H3 H4]. split; [congruence|]. rewrite H4, H2. unfold u64. rewrite Z.add_mod_idemp_l by lia. f_equal. lia.
Qed.
Lemma logged_err c kind path err (s : server) :
  wpM vserve (log_verify_error kind path err) s c (fun g _ s' => g = c /\ logged 1 s s').
Proof.
  apply wpM_modify. split; [done|]. split; [done|]. destruct s. cbn. unfold log_op_error_log. by destruct kind; cbn; case_decide.
Qed.
Lemma logged_when (b : bool) kind path err (s : server) g :
  is_u64 (g_err_count (s_err s)) ->
  wpM vserve (when b (log_verify_error kind path err)) s g (fun g' _ s' => g' = g /\ logged (b2z b) s s').
Proof. intros Hc. destruct b; [apply logged_err|]. apply wpM_ret. split; [done|]. by apply logged_refl. Qed.
Lemma logged_u64 n s s' : logged n s s' -> is_u64 (g_err_count (s_err s')).
Proof. intros [_ ->]. apply u64_range. Qed.

(** ** Reading *)

Lemma pread_loop_ok fuel fd want got off g p :
  vg_fds g !! fd = Some p -> (want + vg_intr g <= fuel)%nat -> 0 <= off -> got `prefix_of` drop (Z.to_nat off) (tfiles p) ->
  wp vserve (pread_loop fuel fd want got off) g (fun g' r =>
    vg_fds g' = vg_fds g /\ (vg_intr g' <= vg_intr g)%nat /\
    forall d, r = Some d -> length d = (length got + want)%nat /\ d `prefix_of` drop (Z.to_nat off) (tfiles p)).
Proof.
  intros Hfd Hf Ho. revert want got g Hfd Hf. induction fuel as [|fuel IH]; intros want got g Hfd Hf Hg.
  { destruct want; [|lia]. cbn. split_and!; try done. intros d [= <-]. split; [lia|done]. }
  destruct want as [|want]; cbn [pread_loop].
  { cbn. split_and!; try done. intros d [= <-]. split; [lia|done]. }
  split; [done|]. intros r Hr. destruct r as [d|e].
  - destruct Hr as [Hlen Hr]. cbn [mupd vserve vread_upd]. destruct d as [|b d]; [by cbn|].
    eapply wp_mono; [apply IH; [done|unfold zlen in Hlen; simpl in *; lia|]|].
    + destruct (Hr p Hfd) as [k Hk]; [unfold zlen; lia|]. destruct Hg as [k0 Hk0]. exists k.
      unfold zlen in Hk. replace (Z.to_nat (off + Z.of_nat (length got))) with (Z.to_nat off + length got)%nat in Hk by lia.
      rewrite <- drop_drop, Hk0, drop_app_length in Hk. by rewrite Hk0, Hk, (assoc_L (++)).
    + cbn beta. intros g' r (H1 & H2 & H3). split_and!; [done|done|]. intros d' Hd'. destruct (H3 d' Hd') as [H4 H5]. split; [|done].
      rewrite H4, length_app. unfold zlen in Hlen. simpl in *. lia.
  - cbn [madm vserve vserve_adm mupd vread_upd] in *. destruct (decide (e = EINTR)); [|by cbn].
    specialize (Hr e0). eapply wp_mono; [apply IH; [done|cbn [vg_intr]; lia|done]|]. cbn beta. cbn [vg_fds vg_intr]. intros g' r (H1 & H2 & H3).
    split_and!; [done|lia|done].
Qed.

(** ** The metadata *)

(** Everything but ownership. *)
Definition fields_ok (st : stat) (q : verify_req) (is_dir check_metadata check_times : bool) : Prop :=
  type_size_bad st q is_dir = false /\
  (check_metadata = true -> st_mode st &. o07777 = mt_mode (vr_meta q) &. o07777 /\
     (check_times = true -> st_atim st = mt_at (vr_meta q) /\ st_mtim st = mt_mt (vr_meta q))).
Definition owner_only (field : option bytes) : Prop := match field with None => True | Some f => f = str "uid" \/ f = str "gid" end.

Lemma mismatch_owner_only st m is_dir check_times forced :
  owner_only (metadata_mismatch_stat st m is_dir check_times forced) ->
  st_mode st &. o07777 = mt_mode m &. o07777 /\ (check_times = true -> st_atim st = mt_at m /\ st_mtim st = mt_mt m).
Proof.
  unfold metadata_mismatch_stat. destruct (_ || _); [by intros [H|H]|].
  destruct (decide (st_mode st &. o07777 <> mt_mode m &. o07777)) as [Hm|Hm]; [by intros [H|H]|]. destruct check_times; cbn [andb].
  - case_bool_decide; cbn [negb]; [|by intros [H'|H']]. case_bool_decide; cbn [negb]; [|by intros [H'|H']].
    intros _. split; [|done]. destruct (decide (st_mode st &. o07777 = mt_mode m &. o07777)); [done|by exfalso].
  - intros _. split; [|done]. destruct (decide (st_mode st &. o07777 = mt_mode m &. o07777)); [done|by exfalso].
Qed.

Lemma judge_field_ok field (s : server) g :
  is_u64 (g_err_count (s_err s)) ->
  wpM vserve (judge_field field) s g (fun g' r s' => g' = g /\ logged 0 s s' /\ (r = None -> owner_only field)).
Proof.
  intros Hc. unfold judge_field. apply wpM_bind, wpM_gets, wpM_bind. unfold forced_ownership. apply wpM_bind, wpM_call; [done|]. intros f _. apply wpM_ret.
  destruct field as [fl|]; [|apply wpM_ret; split_and!; [done|by apply logged_refl|done]].
  destruct (metadata_ownership_unpreservable _ _ _) eqn:E.
  - apply wpM_bind, wpM_modify, wpM_ret. split_and!; [done| |].
    + split; [done|]. destruct s. cbn. by rewrite Z.add_0_r, u64_small.
    + intros _. cbn in E. apply andb_true_iff in E as [_ E]. by apply bool_decide_eq_true in E.
  - apply wpM_ret. split_and!; [done|by apply logged_refl|done].
Qed.

Lemma verify_stat_only_ok path q is_dir cm ct (s : server) g :
  is_u64 (g_err_count (s_err s)) ->
  wpM vserve (verify_stat_only path q is_dir cm ct) s g (fun g' _ s' => vg_fds g' = vg_fds g /\
    exists k, 0 <= k <= 6 /\ logged k s s' /\ (k = 0 -> fields_ok (tstat path) q is_dir cm ct)).
Proof.
  intros Hc. unfold verify_stat_only. apply wpM_bind, wpM_call; [done|]. intros r Hr. destruct r as [st|e].
  2: { eapply wpM_mono; [apply logged_err|]. cbn beta. intros g' [] s' [-> H]. split; [done|]. exists 1. by split_and!. }
  cbn in Hr. subst st. apply wpM_bind. unfold forced_ownership. apply wpM_bind, wpM_call; [done|]. intros f _. apply wpM_ret. cbv zeta.
  apply wpM_bind. eapply wpM_mono; [by apply judge_field_ok|]. cbn beta. intros g1 [fl|] s1 (-> & L1 & H1).
  - eapply wpM_mono; [apply logged_err|]. cbn beta. intros g' [] s' [-> H]. split; [done|]. exists 1. split_and!; [done|done| |done].
    apply (logged_trans 0 1 s s1 s' L1 H).
  - apply wpM_ret. split; [done|]. exists 0. split_and!; [done|done|done|]. intros _. specialize (H1 eq_refl). unfold fields_ok.
    destruct (type_size_bad _ _ _); [by destruct H1|]. split; [done|]. intros ->. by apply mismatch_owner_only in H1.
Qed.

Section handler.
Context (eintr : nat) (blake3_hash : bytes -> bytes).

(** A block of the file is what the sample says. *)
Definition matches (f : bytes) (s : sample) : Prop :=
  zlen (sub f (sm_offset s) (sm_length s)) = sm_length s /\ compare_block blake3_hash (sub f (sm_offset s) (sm_length s)) s = false.

Definition io_fails (v : verdict) : Prop := v_io_bad v = true -> v_failed v = true.
(** A failed verdict says why. *)
Definition verdict_ok (v : verdict) : Prop := v_failed v = true -> v_data_bad v || v_zero_bad v || v_io_bad v = true.

Lemma check_sample_ok fd s v (x : server) g p :
  vg_fds g !! fd = Some p -> (vg_intr g <= eintr)%nat -> 0 <= sm_offset s -> 0 <= sm_length s ->
  wpM vserve (check_sample eintr blake3_hash fd s v) x g (fun g' v' x' =>
    vg_fds g' = vg_fds g /\ (vg_intr g' <= vg_intr g)%nat /\ x' = x /\ (verdict_ok v -> verdict_ok v') /\ (io_fails v -> io_fails v') /\
    (v_failed v' = false -> v_failed v = false /\ matches (tfiles p) s) /\ (v_failed v = true -> v' = v)).
Proof.
  intros Hfd Hi Ho Hl. unfold check_sample. destruct (v_failed v) eqn:Ev; [apply wpM_ret; by rewrite Ev|].
  apply wpM_bind, wpM_lift. unfold pread_exact. eapply wp_mono; [apply (pread_loop_ok _ _ _ _ _ _ p); [done|lia|done|]|].
  { by exists (drop (Z.to_nat (sm_offset s)) (tfiles p)). }
  cbn beta. intros g' r (F & I & Hr). apply wpM_ret. split; [done|]. split; [done|]. split; [done|].
  destruct r as [d|]; [|split_and!; [by unfold verdict_ok; cbn; rewrite !orb_true_r|done|done|done]].
  destruct (Hr d eq_refl) as [Hd Hp]. cbn [length] in Hd.
  destruct (compare_block blake3_hash d s) eqn:Ec.
  - destruct (has_bits (sm_flags s) VERIFY_SAMPLE_EXPECT_ZERO); (split_and!; [|done|done|done]); unfold verdict_ok; cbn; by rewrite ?orb_true_r.
  - rewrite Ev. split_and!; [done|done| |done]. intros _. split; [done|].
    assert (Hz : zlen d = sm_length s) by (unfold zlen; lia). unfold matches. rewrite <- (prefix_sub _ _ _ _ Hp Hz). done.
Qed.

Lemma sample_ok_nonneg size s : sample_ok size s = true -> 0 <= sm_offset s /\ sm_length s <> 0.
Proof.
  unfold sample_ok. rewrite negb_true_iff, !orb_false_iff, !bool_decide_eq_false. intros H. lia.
Qed.

(** The loop over a batch that decodes. *)
Lemma sample_loop_ok n fd size d v (x : server) g p ds dd :
  vg_fds g !! fd = Some p -> (vg_intr g <= eintr)%nat -> decode_samples n d = (Some ds, dd) -> Forall (fun s => 0 <= sm_length s) ds ->
  wpM vserve (sample_loop eintr blake3_hash n fd size d v) x g (fun g' '(v', d') x' =>
    vg_fds g' = vg_fds g /\ x' = x /\ (verdict_ok v -> verdict_ok v') /\ (io_fails v -> io_fails v') /\ (v_failed v = true -> v_failed v' = true) /\
    (v_failed v' = false -> pd_error d' = false -> Forall (matches (tfiles p)) ds)).
Proof.
  intros Hfd. revert d v g ds Hfd. induction n as [|n IH]; intros d v g ds Hfd Hi Hds Hlen; cbn [sample_loop decode_samples] in *.
  { apply wpM_ret. simplify_eq. split_and!; done. }
  destruct (pd_error d) eqn:Ed; [apply wpM_ret; split_and!; try done; by rewrite Ed|].
  destruct (decode_sample d) as [[s|] d1]; [|done]. destruct (decode_samples n d1) as [[l|] d2] eqn:El; [|done]. simplify_eq/=.
  apply Forall_cons_1 in Hlen as [Hs Hlen]. destruct (sample_ok size s) eqn:Es; [|apply wpM_ret; split_and!; done].
  apply sample_ok_nonneg in Es as [Ho _].
  apply wpM_bind. eapply wpM_mono; [by apply check_sample_ok|]. cbn beta. intros g1 v1 x1 (F1 & I1 & -> & V1 & Q1 & M1 & K1).
  eapply wpM_mono; [apply (IH d1 v1 g1 l); [by rewrite F1|lia|done|done]|]. cbn beta. intros g2 [v2 d'] x2 (F2 & -> & V2 & Q2 & K2 & M2).
  split_and!; [congruence|done|auto|auto| |].
  - intros Hv. apply K2. by rewrite (K1 Hv).
  - intros Hv Hd. constructor; [|by apply M2]. apply M1. destruct (v_failed v1) eqn:E1; [|done]. by rewrite K2 in Hv.
Qed.

(** The four reports of a failed batch. *)
Lemma report_ok (m d z i failed : bool) diagnostic (s : server) g :
  is_u64 (g_err_count (s_err s)) ->
  wpM vserve (when failed (when m (log_verify_error VERIFY_ERR_METADATA diagnostic EIO);; when d (log_verify_error VERIFY_ERR_DATA diagnostic EIO);;
      when z (log_verify_error VERIFY_ERR_ZERO diagnostic EIO);; when i (log_verify_error VERIFY_ERR_IO diagnostic EIO))) s g
    (fun g' _ s' => g' = g /\ exists k, 0 <= k <= 4 /\ logged k s s' /\ (k = 0 -> failed = true -> m || d || z || i = false)).
Proof.
  intros Hc. destruct failed; [|apply wpM_ret; split; [done|]; exists 0; split_and!; [done|done|by apply logged_refl|done]].
  cbn [when].
  apply wpM_bind. eapply wpM_mono; [by apply logged_when|]. cbn beta. intros ? [] s1 [-> L1].
  apply wpM_bind. eapply wpM_mono; [apply logged_when; by eapply logged_u64|]. cbn beta. intros ? [] s2 [-> L2].
  apply wpM_bind. eapply wpM_mono; [apply logged_when; by eapply logged_u64|]. cbn beta. intros ? [] s3 [-> L3].
  eapply wpM_mono; [apply logged_when; by eapply logged_u64|]. cbn beta. intros ? [] s4 [-> L4]. split; [done|].
  exists (b2z m + b2z d + b2z z + b2z i). split_and!; [by destruct m, d, z, i|by destruct m, d, z, i| |by destruct m, d, z, i].
  repeat eapply logged_trans; eassumption.
Qed.

Lemma verify_data_ok path q d cm ct fd (s : server) g p ds dd :
  is_u64 (g_err_count (s_err s)) ->
  vg_fds g !! fd = Some p -> (vg_intr g <= eintr)%nat -> decode_samples (Z.to_nat (vr_count q)) d = (Some ds, dd) -> Forall (fun s => 0 <= sm_length s) ds ->
  wpM vserve (verify_data eintr blake3_hash path q d cm ct fd) s g (fun g' _ s' => vg_fds g' = delete fd (vg_fds g) /\
    exists k, 0 <= k <= 6 /\ logged k s s' /\ (k = 0 -> fields_ok (tstat p) q false cm ct /\ Forall (matches (tfiles p)) ds)).
Proof.
  intros Hc Hfd Hi Hds Hlen. unfold verify_data. cbv zeta. apply wpM_bind, wpM_call; [done|]. intros ? _. cbn [mupd vserve vread_upd].
  apply wpM_bind, wpM_call; [done|]. intros st Hst. cbn [mupd vserve vread_upd].
  set (r0 := match st with Ok _ => _ | Err _ => _ end).
  assert (H0 : let '(v, mb, _) := r0 in io_fails v /\ (v_failed v = true -> mb || v_io_bad v = true) /\
    (v_failed v = false -> exists x, st = Ok x /\ x = tstat p /\ type_size_bad x q false = false)).
  { subst r0. destruct st as [x|e]; [|done]. destruct (type_size_bad x q false) eqn:Et; [done|]. split_and!; try done. intros _. exists x. split_and!; [done|by apply Hst|done]. }
  destruct r0 as [[v mb] field]. destruct H0 as (Hio & Hv1 & Hv2).
  apply wpM_bind. eapply wpM_mono; [by eapply sample_loop_ok|]. cbn beta. intros g1 [v' d'] ? (F1 & -> & V1 & Q1 & K1 & M1). specialize (Q1 Hio).
  set (malformed := pd_error d' || _). apply wpM_bind. eapply wpM_mono; [by apply logged_when|]. cbn beta. intros ? [] s1 [-> L1].
  assert (Hwhy : v_failed v' = true -> mb || (v_data_bad v' || v_zero_bad v' || v_io_bad v') = true).
  { intros Hv'. destruct mb; [done|]. apply V1; [|done]. intros Hv. specialize (Hv1 Hv). cbn [orb] in Hv1. rewrite Hv1. by rewrite !orb_true_r. }
  apply wpM_bind. apply (wpM_mono vserve _ _ _ (fun (g' : vghost) '(f, mb', _) (s' : server) => g' = g1 /\ logged 0 s1 s' /\
    (f = true -> mb' || (v_data_bad v' || v_zero_bad v' || v_io_bad v') || malformed = true) /\
    (f = false -> v_failed v' = false /\ malformed = false /\ fields_ok (tstat p) q false cm ct))).
  { assert (Hc1 : is_u64 (g_err_count (s_err s1))) by (by eapply logged_u64).
    assert (Hst' : v_failed v = false -> v_io_bad v' = false -> cm = false -> fields_ok (tstat p) q false cm ct).
    { intros Hv _ ->. destruct (Hv2 Hv) as (x & _ & -> & Ht). by split. }
    assert (Hback : v_failed v' = false -> v_failed v = false) by (intros Hv'; destruct (v_failed v); [by rewrite K1 in Hv'|done]).
    assert (Hnio : v_failed v' = false -> v_io_bad v' = false).
    { intros Hv'. destruct (v_io_bad v') eqn:E; [|done]. by rewrite (Q1 E) in Hv'. }
    destruct st as [x|e].
    2: { apply wpM_ret. split_and!; [done|by apply logged_refl| |].
         - destruct (v_failed v'); cbn [orb]; [intros _; by rewrite Hwhy|]. intros ->. by rewrite orb_true_r.
         - intros [Hf _]%orb_false_iff. destruct (Hv2 (Hback Hf)) as (x & ? & _). done. }
    destruct (cm && negb (v_io_bad v')) eqn:Ecm.
    - apply wpM_bind. unfold forced_ownership. apply wpM_bind, wpM_call; [done|]. intros fo _. apply wpM_ret.
      apply wpM_bind. eapply wpM_mono; [by apply judge_field_ok|]. cbn beta. intros ? [fl|] s2 (-> & L2 & H2).
      + apply wpM_ret. by split_and!.
      + apply wpM_ret. split_and!; [done|done| |].
        * destruct (v_failed v'); cbn [orb]; [intros _; by rewrite Hwhy|]. intros ->. by rewrite orb_true_r.
        * intros [Hf Hm]%orb_false_iff. split_and!; [done|done|]. destruct (Hv2 (Hback Hf)) as (x' & [= <-] & -> & Ht).
          split; [done|]. intros _. by apply mismatch_owner_only in H2.
    - apply wpM_ret. split_and!; [done|by apply logged_refl| |].
      + destruct (v_failed v'); cbn [orb]; [intros _; by rewrite Hwhy|]. intros ->. by rewrite orb_true_r.
      + intros [Hf Hm]%orb_false_iff. split_and!; [done|done|]. apply Hst'; [auto|auto|]. rewrite (Hnio Hf) in Ecm. by destruct cm. }
  intros ? [[f mb'] field'] s2 (-> & L2 & W2 & A2). apply wpM_bind, wpM_call; [done|]. intros ? _. cbn [mupd vserve vread_upd].
  eapply wpM_mono; [apply report_ok; by eapply logged_u64|]. cbn beta. intros ? [] s3 (-> & k & Hk & L3 & R3). cbn [vg_fds].
  split; [by rewrite F1|]. exists (b2z malformed + 0 + k). split_and!.
  - destruct malformed; cbn; lia.
  - destruct malformed; cbn; lia.
  - eapply logged_trans; [|exact L3]. by eapply logged_trans.
  - intros H0. assert (malformed = false /\ k = 0) as [Hm ->] by (destruct malformed; cbn in H0; split; (done || lia)). rewrite Hm in W2.
    destruct f.
    { specialize (W2 eq_refl). specialize (R3 eq_refl eq_refl). by destruct mb', (v_data_bad v'), (v_zero_bad v'), (v_io_bad v'). }
    destruct (A2 eq_refl) as (Hf & _ & Hok). split; [done|]. apply M1; [done|].
    subst malformed. by apply orb_false_iff in Hm as [Hm _].
Qed.
(** The request the server decodes. *)
Definition req_of (path : bytes) (st : stat) (ds : list sample) (flags : Z) : verify_req :=
  VerifyReq path (meta_of st) (st_size st) flags (zlen ds).
Definition silent_means (root path : bytes) (st : stat) (ds : list sample) (flags : Z) : Prop :=
  exists p, resolve_path root path PATH_MAX = Ok p /\
    fields_ok (tstat p) (req_of path st ds flags) (has_bits flags ECOPY_VERIFY_DIRECTORY) (has_bits flags ECOPY_VERIFY_METADATA)
      (has_bits flags ECOPY_VERIFY_PRESERVE_TIME) /\
    Forall (matches (tfiles p)) ds.

Lemma handle_verify_path_ok path st ds flags (s : server) intr :
  is_u64 (g_err_count (s_err s)) -> (intr <= eintr)%nat ->
  path_ok path -> stat_ok st -> Forall sample_wf ds -> is_u8 flags -> zlen ds <= VERIFY_BATCH_MAX ->
  wpM vserve (handle_verify_path eintr blake3_hash (pe_buf (verify_request path st ds flags))) s (VG ∅ intr) (fun g' _ s' =>
    vg_fds g' = ∅ /\ exists k, 0 <= k <= 6 /\ logged k s s' /\ (k = 0 -> silent_means (g_root_norm (s_cfg s)) path st ds flags)).
Proof.
  intros Hc Hi Hp Hst Hds Hfl Hn. unfold VERIFY_BATCH_MAX in Hn. unfold handle_verify_path.
  destruct (verify_request_agrees path st ds flags Hp Hst Hds Hfl ltac:(lia)) as (_ & d & Hd & Hs & _). rewrite Hd.
  cbn [vr_flags vr_size vr_count vr_path]. cbv zeta. set (isd := has_bits flags ECOPY_VERIFY_DIRECTORY) in *.
  set (cm := has_bits flags ECOPY_VERIFY_METADATA) in *. set (ct := has_bits flags ECOPY_VERIFY_PRESERVE_TIME) in *.
  assert (Hlog : forall kind p e (s0 : server) g, logged 0 s s0 -> vg_fds g = ∅ ->
    wpM vserve (log_verify_error kind p e) s0 g (fun g' _ s' => vg_fds g' = ∅ /\ exists k, 0 <= k <= 6 /\ logged k s s' /\ (k = 0 -> silent_means (g_root_norm (s_cfg s)) path st ds flags))).
  { intros kind p e s0 g L0 Hg. eapply wpM_mono; [apply logged_err|]. cbn beta. intros g' [] s' [-> L]. split; [done|]. exists 1. split_and!; [done|done| |done].
    apply (logged_trans 0 1 s s0 s' L0 L). }
  set (bad := pd_error d || _ || _ || _ || _). destruct bad eqn:Eb.
  { apply wpM_bind, wpM_ret. apply Hlog; [by apply logged_refl|done]. }
  apply wpM_bind. unfold resolve. apply wpM_bind, wpM_gets, wpM_ret. destruct (resolve_path _ _ _) as [p|e] eqn:Er; [|apply Hlog; [by apply logged_refl|done]].
  case_decide as H0.
  - eapply wpM_mono; [by apply verify_stat_only_ok|]. cbn beta. intros g' [] s' (F & k & Hk & L & R). split; [done|]. exists k. split_and!; [lia|lia|done|].
    intros Hk0. exists p. split_and!; [done|by apply R|]. destruct ds; [constructor|]. unfold zlen in H0. simpl in H0. lia.
  - assert (Hisd : isd = false).
    { subst bad. destruct isd; [|done]. cbn [andb] in Eb. rewrite (bool_decide_false (zlen ds = 0)) in Eb by done. cbn [negb] in Eb. by rewrite orb_true_r in Eb. }
    apply wpM_bind, wpM_gets, wpM_bind. apply (wpM_mono vserve _ _ _ (fun (g' : vghost) (_ : unit) (s' : server) => g' = VG ∅ intr /\ s_err s' = s_err s /\ s_cfg s' = s_cfg s)).
    { apply wpM_when; intros _; [|done]. apply wpM_bind, wpM_modify, wpM_when; intros _; [|by destruct s]. apply wpM_call; [done|]. intros [] _. by destruct s. }
    intros ? [] s1 (-> & He & Hcf). assert (L1 : logged 0 s s1) by (split; [done|]; by rewrite He, Z.add_0_r, u64_small).
    apply wpM_bind, wpM_call; [done|]. intros r Hr. destruct r as [fd|e].
    + cbn [mupd vserve vread_upd vg_fds vg_intr]. eapply wpM_mono; [eapply (verify_data_ok _ _ _ _ _ _ _ _ p)|].
      * by rewrite He.
      * cbn. by rewrite lookup_insert_eq.
      * cbn. lia.
      * cbn [vr_count]. unfold zlen. rewrite Nat2Z.id. rewrite <- Hs. apply surjective_pairing.
      * eapply Forall_impl; [exact Hds|]. intros x (_ & Hx & _). unfold is_u32 in Hx. lia.
      * cbn beta. intros g' [] s' (F & k & Hk & L & R). split; [rewrite F; cbn; by rewrite delete_insert_id|]. exists k. split_and!; [lia|lia| |].
        -- apply (logged_trans 0 k s s1 s' L1 L).
        -- intros Hk0. destruct (R Hk0) as [R1 R2]. exists p. fold isd cm ct. rewrite Hisd. by split_and!.
    + cbn [mupd vserve vread_upd]. apply wpM_bind. apply (wpM_mono vserve _ _ _ (fun (g' : vghost) (_ : unit) (s' : server) => g' = VG ∅ intr /\ s' = s1)).
      { apply wpM_when; intros _; [|done]. apply wpM_call; [done|]. by intros [] _. }
      intros ? [] ? [-> ->]. by apply Hlog.
Qed.
End handler.
End server.
