(* ===== verification/VerifyRemoteOk.v ===== *)
(** Verifying a remote item end to end: what the client sends, and what the
    server's silence about all of it means for the two files. *)

From Stdlib Require Import SpecFloat.
From S2P Require Export VerifyRemote VerifyServerOk.
From stdpp Require Import list gmap.
#[local] Open Scope Z_scope.

(** * A sender that keeps a record *)

Record vbatch := Batch { b_path : bytes; b_stat : stat; b_samples : list sample; b_flags : Z }.
(** [fate] says which sends succeed. *)
Definition log_send (fate : nat -> bool) (path : bytes) (st : stat) (ds : list sample) (flags : Z) : M posix (list vbatch) (res unit) :=
  fun log => Ret (if fate (length log) then Ok tt else Err 0, log ++ [Batch path st ds flags]).
Definition sent (log : list vbatch) : list sample := concat (b_samples <$> log).

Lemma sent_snoc log b : sent (log ++ [b]) = sent log ++ b_samples b.
Proof. unfold sent. rewrite fmap_app, concat_app. cbn. by rewrite app_nil_r. Qed.

(** ** Lifting *)

Lemma wpM_on_fst m {A X Y} (c : M posix X A) (s : X * Y) g (Q : mstate m -> A -> X * Y -> Prop) :
  wpM m c s.1 g (fun g a x => Q g a (x, s.2)) -> wpM m (on_fst c) s g Q.
Proof. intros H. unfold wpM, on_fst. apply wp_bind. eapply wp_mono; [exact H|]. by intros g' [a x]. Qed.
Lemma wpM_with_ctx m {P A} (c : M posix (remote_ctx * P) A) ctx (s : vstate * P) g (Q : mstate m -> A * remote_ctx -> vstate * P -> Prop) :
  wpM m c (ctx, s.2) g (fun g a x => Q g (a, x.1) (s.1, x.2)) -> wpM m (with_ctx c ctx) s g Q.
Proof. intros H. unfold wpM, with_ctx. apply wp_bind. eapply wp_mono; [exact H|]. by intros g' [a [ctx' p]]. Qed.

Section item.
Context (fate : nat -> bool) (eintr : nat) (blake3_hash : bytes -> bytes) (cfg : verify_config) (times : bool).
Context (item : verify_item) (files : bytes -> bytes) (data : Z -> Prop).
Abbreviation st := (vi_st item).
Abbreviation size := (st_size (vi_st item)).
Abbreviation src := (vi_src item).
Abbreviation R := (reading src src files st st data False).
Abbreviation chosen := (samples (vc_seed cfg) (vc_percent cfg) src size).
Abbreviation send := (log_send fate).

(** A block's digest. *)
Definition digest (d : sample_desc) : sample :=
  Sample (ds_offset d) (ds_length d) 0 (blake3_hash (sub (files src) (ds_offset d) (ds_length d))).
Definition data_flags (check : bool) : Z :=
  verify_flags (vi_is_dir item) (check && vc_metadata cfg) (vc_metadata cfg && times) (whole_file cfg).
Definition small_batch (b : vbatch) : Prop :=
  b_path b = vi_dst item /\ b_stat b = st /\ b_flags b = data_flags false /\ zlen (b_samples b) <= VERIFY_BATCH_MAX.

(** What has been hashed is in the batches sent and the one being filled. *)
Definition collected (l : list sample_desc) (c : remote_ctx) (log : list vbatch) : Prop :=
  sent log ++ rc_batch c = digest <$> l /\ zlen (rc_batch c) < VERIFY_BATCH_MAX /\ rc_failed c = false /\ Forall small_batch log.

Definition plain (map : extent_map) (d : sample_desc) : Prop :=
  extent_map_range_is_hole map (ds_offset d) (ds_length d) = false /\ 0 <= ds_offset d /\ 0 < ds_length d <= VERIFY_BLOCK_SIZE /\ ds_offset d + ds_length d <= size.

Lemma hash_sample_ok l map d fd s (g : mstate R) :
  vg_fds g !! fd = Some src -> (vg_intr g <= eintr)%nat -> plain map d -> collected l s.1 s.2 ->
  wpM R (hash_sample send eintr blake3_hash cfg times item fd map d) s g (fun g' ok s' =>
    vg_fds g' = vg_fds g /\ (vg_intr g' <= vg_intr g)%nat /\
    (ok = true -> zlen (sub (files src) (ds_offset d) (ds_length d)) = ds_length d /\ collected (l ++ [d]) s'.1 s'.2)).
Proof.
  intros Hfd Hi (Hh & Ho & Hl & _) (C1 & C2 & C3 & C4). unfold hash_sample. cbv zeta. rewrite Hh. cbn [orb].
  apply wpM_bind. eapply wpM_mono; [by apply (pread_full_ok _ _ _ _ _ _ _ _ _ _ _ _ src)|]. cbn beta. intros g1 r s1 (F & I & -> & Hr).
  specialize (Hr Ho ltac:(lia)). destruct r as [b|]; [|apply wpM_bind, wpM_on_fst, wpM_modify, wpM_ret; by split_and!].
  destruct Hr as (Hb1 & Hb2 & _). case_bool_decide as Hz; [|apply wpM_bind, wpM_on_fst, wpM_modify, wpM_ret; by split_and!].
  pose proof (prefix_sub _ _ _ _ Hb2 Hz) as Eb. rewrite <- Eb. assert (Hd : Sample (ds_offset d) (u32 (ds_length d)) 0 (blake3_hash b) = digest d).
  { unfold digest. rewrite <- Eb, u32_small; [done|]. unfold is_u32, VERIFY_BLOCK_SIZE in *. lia. }
  rewrite Hd. apply wpM_bind, wpM_on_fst, wpM_modify, wpM_bind, wpM_gets. cbn [fst snd rc_batch rc_failed].
  assert (C1' : sent s.2 ++ rc_batch s.1 ++ [digest d] = digest <$> l ++ [d]) by (by rewrite (assoc_L (++)), C1, fmap_app).
  assert (Hlen : zlen (rc_batch s.1 ++ [digest d]) = zlen (rc_batch s.1) + 1) by (unfold zlen; rewrite length_app; simpl; lia).
  case_decide as Hfull.
  - unfold flush_remote_batch. apply wpM_bind, wpM_gets, wpM_bind. cbv zeta. cbn [fst snd rc_batch].
    unfold wpM, on_snd, log_send. cbn [prog_bind wp]. destruct (fate _).
    + split_and!; try done. intros _. split; [done|]. cbn [snd fst]. split_and!; [|done|done|].
      * rewrite sent_snoc. cbn [b_samples rc_batch set_rc_batch]. by rewrite app_nil_r.
      * apply Forall_app. split; [done|]. apply Forall_singleton. split_and!; [done|done|done|]. cbn [b_samples]. lia.
    + cbn. by split_and!.
  - apply wpM_ret. split_and!; try done. intros _. split; [done|]. split_and!; [done| |done|done]. cbn [rc_batch fst]. lia.
Qed.

Lemma hash_all_ok l0 map l fd s (g : mstate R) :
  vg_fds g !! fd = Some src -> (vg_intr g <= eintr)%nat -> Forall (plain map) l -> collected l0 s.1 s.2 ->
  wpM R (each_sample (hash_sample send eintr blake3_hash cfg times item fd map) l) s g (fun g' ok s' =>
    vg_fds g' = vg_fds g /\ (ok = true -> Forall (fun d => zlen (sub (files src) (ds_offset d) (ds_length d)) = ds_length d) l /\ collected (l0 ++ l) s'.1 s'.2)).
Proof.
  revert l0 s g. induction l as [|d l IH]; intros l0 s g Hfd Hi Hl Hc; cbn [each_sample].
  { apply wpM_ret. split; [done|]. rewrite app_nil_r. by split. }
  apply Forall_cons_1 in Hl as [Hd Hl]. apply wpM_bind. eapply wpM_mono; [by apply (hash_sample_ok l0)|]. cbn beta. intros g1 ok s1 (F & I & H).
  destruct ok; [|by apply wpM_ret]. destruct (H eq_refl) as [Hz Hc1].
  eapply wpM_mono; [apply (IH (l0 ++ [d])); [by rewrite F|lia|done|done]|]. cbn beta. intros g2 ok s2 (F2 & H2). split; [congruence|].
  intros Hok. destruct (H2 Hok) as [Hz2 Hc2]. split; [by constructor|]. by rewrite <- (assoc_L (++)) in Hc2.
Qed.

(** The data of the item is on its way: every chosen block of a domain with all
    the data has been hashed, in order. *)
Definition hashed (c : remote_ctx) (log : list vbatch) : Prop :=
  exists dom D, domain_of size dom D /\ (forall x, 0 <= x < size -> data x -> D x) /\
    Forall (fun d => zlen (sub (files src) (ds_offset d) (ds_length d)) = ds_length d /\ 0 <= ds_offset d /\ 0 < ds_length d <= VERIFY_BLOCK_SIZE /\ ds_offset d + ds_length d <= size) (chosen dom) /\
    collected (chosen dom) c log.

Abbreviation self := (VItem (vi_src item) (vi_src item) (vi_st item) false false true).

Lemma send_data_ok (s : vstate) (g : mstate R) :
  0 < size < 2 ^ 63 -> vc_data cfg = true -> vg_fds g = ∅ -> (vg_intr g <= eintr)%nat ->
  wpM R (send_data send eintr blake3_hash cfg times item) (s, []) g (fun g' '(ctx, _) s' =>
    vg_fds g' = ∅ /\ (rc_failed ctx = false -> hashed ctx s'.2)).
Proof.
  intros Hs Hdata Hfds Hi. unfold send_data. cbv zeta.
  apply wpM_bind, wpM_on_fst. eapply wpM_mono; [apply (open_verify_data_ok cfg times self files st data False); by left|]. cbn beta. cbn [fst snd].
  intros g1 r s1 [I1 H1]. destruct r as [fd|e].
  2: { destruct H1 as [H1 _]. apply wpM_bind, wpM_bind, wpM_on_fst, wpM_call; [done|]. intros [] _. apply wpM_ret.
       apply wpM_bind, wpM_ret, wpM_bind, wpM_on_fst, wpM_ret, wpM_ret. split; [by etrans|done]. }
  destruct H1 as [Hnone H1]. rewrite Hfds in H1.
  assert (Hfd : vg_fds g1 !! fd = Some src) by (rewrite H1; by rewrite lookup_insert_eq).
  apply wpM_bind, wpM_bind, wpM_on_fst. apply (wpM_mono R _ _ _ (fun (g' : mstate R) (_ : unit) (x : vstate) => g' = g1)).
  { apply wpM_bind, wpM_call; [by exists src|]. intros x _. by apply wpM_ret. }
  cbn [fst snd]. intros ? [] s2 ->.
  apply (wpM_mono R _ _ _ (fun (g' : mstate R) '(b, m) (s' : vstate * list vbatch) => g' = g1 /\ s'.2 = [] /\ (b = true -> map_good st data m))).
  { assert (Hno : map_good st data no_map) by done. destruct (source_is_sparse st); [|by apply wpM_ret].
    eapply wpM_mono; [apply (extent_map_build_ok src src files st st data False fd); [done|lia]|]. cbn beta. intros g' [b m] s' (? & -> & ? & _). by split_and!. }
  intros ? [built map] s3 (-> & Hlog & Hmap). apply wpM_bind.
  apply (wpM_mono R _ _ _ (fun (g' : mstate R) '(ctx, _) (s' : vstate * list vbatch) => vg_fds g' = vg_fds g1 /\ (rc_failed ctx = false -> hashed ctx s'.2))).
  { destruct built; cbn [negb]; [|by apply wpM_ret]. specialize (Hmap eq_refl).
    apply wpM_bind. apply (wpM_mono R _ _ _ (fun (g' : mstate R) r (s' : vstate * list vbatch) => g' = g1 /\ s'.2 = [] /\
      match r with Some dom => exists D, good_domain st data map dom D | None => True end)).
    { unfold sample_domain_init. destruct (em_supported map) eqn:Em; cbn [negb].
      - apply wpM_bind. apply (wpM_mono R _ _ _ (fun (g' : mstate R) (_ : bool) (s' : vstate * list vbatch) => g' = g1 /\ s'.2 = [])).
        { case_decide; [apply wpM_call; [done|]; by intros ? _|by apply wpM_ret]. }
        intros ? ok s4 [-> Hl4]. apply wpM_ret. split_and!; [done|done|]. destruct ok; [|done]. eexists. by apply good_sparse.
      - apply wpM_ret. split_and!; [done|done|]. eexists. by apply good_dense. }
    intros ? [dom|] s4 (-> & Hl4 & Hdom); [|by apply wpM_ret]. destruct Hdom as [D HD].
    apply wpM_bind, wpM_on_fst. eapply wpM_mono; [by apply (source_still_matches_ok self files st data False)|]. cbn beta. intros ? ok5 s5 [-> _].
    destruct ok5; cbn [negb]; [|by apply wpM_ret].
    apply wpM_bind, wpM_with_ctx. unfold for_each_sample. rewrite bool_decide_false, Hdata by lia. cbn [negb orb fst snd].
    assert (Hpl : Forall (plain map) (chosen dom)).
    { apply Forall_forall. intros d Hd. pose proof (samples_blocks st data Hs (vc_seed cfg) (vc_percent cfg) src map dom D HD) as Hb.
      rewrite Forall_forall in Hb. destruct (Hb d Hd) as (B1 & B2 & B3 & B4). split; [done|]. split; [done|]. split; [|done]. split; [done|].
      destruct HD as [Hof Hn _ _]. destruct (decide (sd_n dom = 0)) as [E0|E0].
      { unfold samples in Hd. rewrite decide_True in Hd by (by right). by apply not_elem_of_nil in Hd. }
      destruct (samples_perm (vc_seed cfg) (vc_percent cfg) src size dom ltac:(lia) ltac:(lia)) as (k & Hp & _ & _ & Hk & _).
      rewrite Hp in Hd. apply list_elem_of_fmap in Hd as (i & -> & Hid). apply Hk in Hid.
      pose proof (domain_block size dom D i Hs Hof Hid) as Hblk. unfold block_ok in Hblk. unfold describe. destruct (sample_domain_offset dom i). cbn in *. lia. }
    eapply wpM_mono; [apply (hash_all_ok []); [done|lia|exact Hpl|]|].
    { cbn [fst snd]. rewrite Hl4. by split_and!. }
    cbn beta. intros g6 ok6 s6 (F6 & H6). destruct ok6; cbn [negb]; [|by apply wpM_ret].
    destruct (H6 eq_refl) as [Hz Hc]. apply wpM_bind, wpM_on_fst. eapply wpM_mono; [apply (source_still_matches_ok self files st data False); by rewrite F6|].
    cbn beta. intros ? ok7 s7 [-> _]. apply wpM_ret. split; [done|]. destruct ok7; [|done]. intros _. cbn [snd].
    exists dom, D. destruct HD as [Hof Hn Hsub _]. split_and!; [done|done| |done].
    apply Forall_forall. intros d Hd. rewrite Forall_forall in Hz, Hpl. split; [by apply Hz|]. by destruct (Hpl d Hd) as (_ & ? & ?). }
  intros g8 [ctx scope] s8 [F8 H8]. apply wpM_bind, wpM_on_fst, wpM_bind, wpM_call; [exists src; by rewrite F8|]. intros x _. apply wpM_ret, wpM_ret.
  cbn [mupd reading vread_upd vg_fds snd]. split; [|done]. rewrite F8, H1. by apply delete_insert_id.
Qed.

Lemma verify_remote_item_ok (s : vstate) (g : mstate R) :
  0 <= size < 2 ^ 63 -> vc_data cfg || vc_metadata cfg || vi_is_dir item = true -> vg_fds g = ∅ -> (vg_intr g <= eintr)%nat ->
  wpM R (verify_remote_item send eintr blake3_hash cfg times item) (s, []) g (fun g' ok s' =>
    vg_fds g' = ∅ /\ (ok = true -> exists c log, s'.2 = log ++ [Batch (vi_dst item) st (rc_batch c) (data_flags true)] /\
      (if negb (vi_is_dir item) && vc_data cfg && bool_decide (0 < size) then hashed c log else collected [] c log))).
Proof.
  intros Hs Hon Hfds Hi. unfold verify_remote_item. cbv zeta. apply wpM_bind. set (run := negb _ && _ && _).
  apply (wpM_mono R _ _ _ (fun (g' : mstate R) '(ctx, _) (s' : vstate * list vbatch) => vg_fds g' = ∅ /\
    (rc_failed ctx = false -> if run then hashed ctx s'.2 else collected [] ctx s'.2))).
  { destruct run eqn:Er; [|by apply wpM_ret]. subst run. rewrite !andb_true_iff, bool_decide_eq_true in Er. destruct Er as [[_ Hd] Hpos].
    apply send_data_ok; try done. lia. }
  intros g1 [ctx scope] s1 [F1 H1]. apply wpM_bind.
  apply (wpM_mono R _ _ _ (fun (g' : mstate R) '(_, c') (s' : vstate * list vbatch) => g' = g1 /\
    (rc_failed c' = false -> rc_failed ctx = false /\ s'.2 = s1.2 ++ [Batch (vi_dst item) st (rc_batch ctx) (data_flags true)]))).
  { destruct (rc_failed ctx) eqn:Ef; cbn [negb andb].
    { apply wpM_ret. split; [done|]. congruence. }
    assert (Hgo : bool_decide (0 < zlen (rc_batch ctx)) || vc_data cfg || vc_metadata cfg || vi_is_dir item = true).
    { clear -Hon. destruct (bool_decide _); [done|exact Hon]. }
    rewrite Hgo. apply wpM_with_ctx. unfold flush_remote_batch. apply wpM_bind, wpM_gets, wpM_bind. cbv zeta. cbn [fst snd].
    unfold wpM, on_snd, log_send. cbn [prog_bind wp]. destruct (fate _); cbn; split; done. }
  intros ? [u c'] s2 [-> H2]. apply wpM_bind, wpM_on_fst, wpM_modify, wpM_bind, wpM_on_fst, wpM_modify, wpM_ret. split; [done|].
  intros Hok. apply negb_true_iff in Hok. destruct (H2 Hok) as [Hf Hl]. exists ctx, s1.2. cbn [snd]. split; [done|]. by apply H1.
Qed.
End item.

(** * End to end *)

(** The server handled the batch, some kernel under it serving [tfiles] with the
    metadata [tstat], and logged no error. *)
Definition server_silent (root : bytes) (tfiles : bytes -> bytes) (tstat : bytes -> stat) (blake3_hash : bytes -> bytes) (b : vbatch) : Prop :=
  exists (K : Type) (h : forall R, posix R -> K -> R * K) (I : K -> vghost -> Prop) (k k' : K) (eintr intr : nat) (s s' : server),
    kernel_ok (vserve tfiles tstat) h I /\ I k (VG ∅ intr) /\ (intr <= eintr)%nat /\ is_u64 (g_err_count (s_err s)) /\
    g_root_norm (s_cfg s) = root /\
    run h (handle_verify_path eintr blake3_hash (pe_buf (verify_request (b_path b) (b_stat b) (b_samples b) (b_flags b))) s) k = Some ((tt, s'), k') /\
    g_err_count (s_err s') = g_err_count (s_err s).

Lemma server_silent_means root tfiles tstat blake3_hash b :
  path_ok (b_path b) -> stat_ok (b_stat b) -> Forall sample_wf (b_samples b) -> is_u8 (b_flags b) -> zlen (b_samples b) <= VERIFY_BATCH_MAX ->
  server_silent root tfiles tstat blake3_hash b -> silent_means tfiles tstat blake3_hash root (b_path b) (b_stat b) (b_samples b) (b_flags b).
Proof.
  intros Hp Hst Hds Hfl Hn (K & h & I & k & k' & eintr & intr & s & s' & Hh & HI & Hi & Hc & <- & Hrun & Hsame).
  pose proof (handle_verify_path_ok tfiles tstat eintr blake3_hash (b_path b) (b_stat b) (b_samples b) (b_flags b) s intr Hc Hi Hp Hst Hds Hfl Hn) as H.
  eapply (wp_run (vserve tfiles tstat) h I _ k) in H as ([[] s2] & k2 & g2 & Hrun2 & _ & _ & n & Hnr & [_ L] & Hm); [|by intros []|done|done].
  rewrite Hrun in Hrun2. simplify_eq. apply Hm. rewrite Hsame in L. unfold u64, is_u64 in *.
  destruct (decide (g_err_count (s_err s) + n < 2 ^ 64)).
  - rewrite Z.mod_small in L by lia. lia.
  - rewrite (Z.mod_eq _ (2 ^ 64)) in L by lia. assert ((g_err_count (s_err s) + n) / 2 ^ 64 = 1) as E; [|lia].
    symmetry. apply (Z.div_unique _ _ 1 (g_err_count (s_err s) + n - 2 ^ 64)); lia.
Qed.

Lemma has_verify_flags d m t q :
  has_bits (verify_flags d m t q) ECOPY_VERIFY_DIRECTORY = d /\ has_bits (verify_flags d m t q) ECOPY_VERIFY_METADATA = m /\
  has_bits (verify_flags d m t q) ECOPY_VERIFY_PRESERVE_TIME = t /\ is_u8 (verify_flags d m t q).
Proof. destruct d, m, t, q; split_and!; by vm_compute. Qed.

Lemma digest_wf blake3_hash item files d :
  st_size (vi_st item) < 2 ^ 63 -> (forall b, length (blake3_hash b) = 32%nat) -> 0 <= ds_offset d -> 0 < ds_length d <= VERIFY_BLOCK_SIZE ->
  ds_offset d + ds_length d <= st_size (vi_st item) -> sample_wf (digest blake3_hash item files d).
Proof.
  intros Hs Hh Ho Hl He. unfold VERIFY_BLOCK_SIZE in *. split_and!; cbn [digest sm_offset sm_length sm_flags sm_digest]; [| | |by apply Hh];
    unfold is_i64, is_u32, is_u8; lia.
Qed.

(** Batches the server can decode, and is silent about, match the file. *)
Definition batch_wf (item : verify_item) (b : vbatch) : Prop :=
  b_path b = vi_dst item /\ b_stat b = vi_st item /\ is_u8 (b_flags b) /\ zlen (b_samples b) <= VERIFY_BATCH_MAX /\ Forall sample_wf (b_samples b).
Lemma silent_match root tfiles tstat blake3_hash item p log :
  path_ok (vi_dst item) -> stat_ok (vi_st item) -> resolve_path root (vi_dst item) PATH_MAX = Ok p ->
  Forall (batch_wf item) log -> Forall (server_silent root tfiles tstat blake3_hash) log -> Forall (matches blake3_hash (tfiles p)) (sent log).
Proof.
  intros Hp Hst Hr Hwf Hs. unfold sent. induction Hs as [|b log Hb Hs IH]; [constructor|]. apply Forall_cons_1 in Hwf as [(W1 & W2 & W3 & W4 & W5) Hwf].
  cbn. apply Forall_app. split; [|by apply IH]. destruct (server_silent_means root tfiles tstat blake3_hash b) as (q & Hq & _ & Hm); try done.
  - by rewrite W1.
  - by rewrite W2.
  - rewrite W1, Hr in Hq. by simplify_eq.
Qed.
Lemma flags_u8 cfg times item check : is_u8 (data_flags cfg times item check).
Proof. by apply has_verify_flags. Qed.
Lemma collected_wf blake3_hash cfg times item files l c log check :
  collected blake3_hash cfg times item files l c log -> Forall sample_wf (digest blake3_hash item files <$> l) ->
  Forall (batch_wf item) (log ++ [Batch (vi_dst item) (vi_st item) (rc_batch c) (data_flags cfg times item check)]).
Proof.
  intros (C1 & C2 & _ & C4) Hwf. rewrite <- C1 in Hwf. apply Forall_app in Hwf as [Hwf Hwf2]. apply Forall_app. split.
  - clear C1 C2. unfold sent in Hwf. induction C4 as [|b log (B1 & B2 & B3 & B4) _ IH]; [constructor|]. cbn in Hwf. apply Forall_app in Hwf as [Hb Hwf].
    constructor; [|by apply IH]. split_and!; try done. rewrite B3. apply flags_u8.
  - apply Forall_singleton. split_and!; try done; [apply flags_u8|cbn [b_samples]; lia].
Qed.

(** C9.  Remote verification, end to end. The client reads only the source, closes
    it, and when it reports success it has sent its chosen blocks' digests and the
    metadata in batches the server can decode; if the server, working on files
    [tfiles] with metadata [tstat], logs no error for any of them, then the
    target's type, size, permissions and times are the source's, and every chosen
    block of a domain that contains all the data of the source has the same BLAKE3
    digest on both sides. *)
Theorem remote_verification fate eintr blake3_hash cfg times item files data root tfiles tstat intr s :
  0 <= st_size (vi_st item) < 2 ^ 63 -> (intr <= eintr)%nat -> vc_data cfg || vc_metadata cfg || vi_is_dir item = true ->
  path_ok (vi_dst item) -> stat_ok (vi_st item) -> (forall b, length (blake3_hash b) = 32%nat) ->
  wpM (reading (vi_src item) (vi_src item) files (vi_st item) (vi_st item) data False)
    (verify_remote_item (log_send fate) eintr blake3_hash cfg times item) (s, []) (VG ∅ intr) (fun g' ok s' =>
    vg_fds g' = ∅ /\
    (ok = true -> Forall (server_silent root tfiles tstat blake3_hash) s'.2 ->
      exists p, resolve_path root (vi_dst item) PATH_MAX = Ok p /\
        (if vi_is_dir item then S_ISDIR (st_mode (tstat p)) = true
         else S_ISREG (st_mode (tstat p)) = true /\ st_size (tstat p) = st_size (vi_st item)) /\
        (vc_metadata cfg = true ->
           st_mode (tstat p) &. o07777 = st_mode (vi_st item) &. o07777 /\
           (times = true -> st_atim (tstat p) = st_atim (vi_st item) /\ st_mtim (tstat p) = st_mtim (vi_st item))) /\
        (vi_is_dir item = false -> vc_data cfg = true -> 0 < st_size (vi_st item) ->
           exists dom D, domain_of (st_size (vi_st item)) dom D /\
             (forall x, 0 <= x < st_size (vi_st item) -> data x -> D x) /\
             Forall (fun d => zlen (sub (files (vi_src item)) (ds_offset d) (ds_length d)) = ds_length d /\
                       zlen (sub (tfiles p) (ds_offset d) (ds_length d)) = ds_length d /\
                       blake3_hash (sub (tfiles p) (ds_offset d) (ds_length d)) = blake3_hash (sub (files (vi_src item)) (ds_offset d) (ds_length d)))
               (samples (vc_seed cfg) (vc_percent cfg) (vi_src item) (st_size (vi_st item)) dom)))).
Proof.
  intros Hs Hi Hon Hp Hst Hh. eapply wpM_mono; [by apply verify_remote_item_ok|]. cbn beta.
  intros g' ok s' [F H]. split; [done|]. intros Hok Hsil. destruct (H Hok) as (c & log & El & Hc). clear H. rewrite El in Hsil.
  set (last := Batch _ _ _ _) in Hsil. set (l := log ++ [last]) in Hsil.
  assert (Hl : exists ds, collected blake3_hash cfg times item files ds c log /\ Forall sample_wf (digest blake3_hash item files <$> ds) /\
    (vi_is_dir item = false -> vc_data cfg = true -> 0 < st_size (vi_st item) -> exists dom D, domain_of (st_size (vi_st item)) dom D /\
       (forall x, 0 <= x < st_size (vi_st item) -> data x -> D x) /\ ds = samples (vc_seed cfg) (vc_percent cfg) (vi_src item) (st_size (vi_st item)) dom /\
       Forall (fun d => zlen (sub (files (vi_src item)) (ds_offset d) (ds_length d)) = ds_length d) ds)).
  { destruct (negb (vi_is_dir item) && vc_data cfg && bool_decide (0 < st_size (vi_st item))) eqn:Er.
    - destruct Hc as (dom & D & HD & Hsub & Hall & Hcol). eexists. split; [exact Hcol|]. split.
      + apply Forall_fmap. eapply Forall_impl; [exact Hall|]. cbn. intros d (_ & ? & ? & ?). apply digest_wf; try done; lia.
      + intros _ _ _. exists dom, D. split_and!; try done. eapply Forall_impl; [exact Hall|]. cbn. by intros d (? & _).
    - exists []. split_and!; [done|constructor|]. intros Hd1 Hd2 Hd3. by rewrite Hd1, Hd2, bool_decide_true in Er. }
  destruct Hl as (ds & Hcol & Hdwf & Hdom).
  assert (Hwf : Forall (batch_wf item) l) by (by eapply collected_wf).
  assert (Hlast : silent_means tfiles tstat blake3_hash root (b_path last) (b_stat last) (b_samples last) (b_flags last)).
  { apply Forall_app in Hwf as [_ Hw]. apply Forall_singleton in Hw as (W1 & W2 & W3 & W4 & W5).
    apply Forall_app in Hsil as [_ Hs1]. apply Forall_cons_1 in Hs1 as [Hs1 _]. apply server_silent_means; [exact Hp|exact Hst|exact W5|exact W3|exact W4|exact Hs1]. }
  destruct Hlast as (p & Hp1 & [Ht Hm] & _). cbn [last b_path b_stat b_flags] in Hp1, Ht, Hm. unfold data_flags in Ht, Hm. cbn [andb] in Ht, Hm.
  destruct (has_verify_flags (vi_is_dir item) (vc_metadata cfg) (vc_metadata cfg && times) (whole_file cfg)) as (E1 & E2 & E3 & _). rewrite E1, E2, E3 in *.
  exists p. split; [done|]. split; [|split].
  - unfold type_size_bad in Ht. cbn [req_of vr_size] in Ht. destruct (vi_is_dir item); cbn [negb andb] in Ht.
    + rewrite orb_false_r in Ht. by apply negb_false_iff in Ht.
    + apply orb_false_iff in Ht as [Ht1 Ht2]. apply negb_false_iff in Ht1, Ht2. split; [done|]. by apply bool_decide_eq_true in Ht2.
  - intros Hmd. destruct (Hm Hmd) as [Hmode Htimes]. cbn [req_of vr_meta meta_of mt_mode mt_at mt_mt] in *. rewrite Hmd in Htimes. split; [|done].
    by rewrite Hmode, <- Z.land_assoc, Z.land_diag.
  - intros Hd1 Hd2 Hd3. destruct (Hdom Hd1 Hd2 Hd3) as (dom & D & HD & Hsub & Eds & Hfull). exists dom, D. split; [done|]. split; [done|].
    rewrite <- Eds. pose proof (silent_match root tfiles tstat blake3_hash item p l Hp Hst Hp1 Hwf Hsil) as Hmatch.
    subst l. rewrite sent_snoc in Hmatch. cbn [last b_samples] in Hmatch. destruct Hcol as (C1 & _). rewrite C1, Forall_fmap in Hmatch.
    rewrite Forall_forall in Hmatch, Hfull |- *. intros d Hd. destruct (Hmatch d Hd) as [M1 M2]. cbn [digest sm_offset sm_length] in M1, M2.
    split_and!; [by apply Hfull|done|]. unfold compare_block in M2. cbn in M2. apply negb_false_iff in M2. by apply bool_decide_eq_true in M2.
Qed.

(** ** Both ends on kernels *)

(** The server's kernel. *)
Definition serve (files : bytes -> bytes) (st : stat) (R : Type) (e : posix R) : fstate -> R * fstate :=
  match e in posix R return fstate -> R * fstate with
  | fstatat _ _ _ => fun k => (Ok st, k)
  | e => fun k => two_files files st st _ e k
  end.
Lemma serve_ok files st : kernel_ok (vserve files (fun _ => st)) (serve files st) two_inv.
Proof.
  intros k g T e (Hg & Hk & Hfr) _. destruct e; try done; unfold two_inv; cbn in *.
  - split; [split; [done|rewrite Hg; by apply Hfr]|]. rewrite Hg. split_and!; [done|lia|]. intros fd Hfd.
    rewrite lookup_insert_ne by lia. apply Hfr. lia.
  - split; [done|]. rewrite Hg. split_and!; [done|lia|]. intros x Hx. rewrite lookup_delete. by case_decide; [|apply Hfr].
  - split; [|done]. split; [destruct (k.2 !! fd); unfold sub, zlen; rewrite ?length_take; cbn; lia|].
    intros p Hp _. rewrite Hg in Hp. rewrite Hp. unfold sub. apply prefix_take.
Qed.

Definition toy_hash (b : bytes) : bytes := take 32 (b ++ replicate 32 x00).
Definition r_item : verify_item := VItem (str "/a") (str "/srv/b") w_stat false false true.
Definition r_server : server := set_s_cfg (set_g_root_norm (str "/srv") config0) server0.

Lemma silent_by_run files st h b :
  match run (serve files st) (handle_verify_path 0 h (pe_buf (verify_request (b_path b) (b_stat b) (b_samples b) (b_flags b))) r_server) (3, ∅) with
  | Some ((_, s'), _) => bool_decide (g_err_count (s_err s') = 0)
  | None => false
  end = true ->
  server_silent (str "/srv") files (fun _ => st) h b.
Proof.
  destruct (run _ _ _) as [[[[] s'] k']|] eqn:E; [|done]. intros H. apply bool_decide_eq_true in H.
  exists fstate, (serve files st), two_inv, (3, ∅), k', 0%nat, 0%nat, r_server, s'.
  split; [apply serve_ok|]. split; [by split_and!|]. split; [done|]. split; [by vm_compute|]. split; [by vm_compute|]. split; [exact E|]. by rewrite H.
Qed.

(** The client's frames, handled by the server, over equal files. *)
Lemma remote_verification_witness :
  exists s' log k, run (two_files w_files w_stat w_stat) (verify_remote_item (log_send (fun _ => true)) 0 toy_hash w_cfg true r_item (w_state, [])) (3, ∅)
      = Some ((true, (s', log)), k) /\ log <> [] /\
    exists p, resolve_path (str "/srv") (str "/srv/b") PATH_MAX = Ok p /\
      exists dom D, domain_of 100 dom D /\ Forall (fun d => toy_hash (sub (w_files p) (ds_offset d) (ds_length d)) = toy_hash (sub (w_files (str "/a")) (ds_offset d) (ds_length d)))
        (samples 7 f64_100 (str "/a") 100 dom).
Proof.
  assert (H0 : 0 <= st_size (vi_st r_item) < 2 ^ 63) by (cbn [r_item vi_st w_stat st_size]; lia).
  assert (Hh : forall b, length (toy_hash b) = 32%nat).
  { intros b. unfold toy_hash. rewrite length_take, length_app, length_replicate. lia. }
  assert (Hp : path_ok (vi_dst r_item)) by (apply path_ok_dec; vm_compute; reflexivity).
  assert (Hst : stat_ok (vi_st r_item)) by (split; vm_compute; split; congruence).
  pose proof (remote_verification (fun _ => true) 0 toy_hash w_cfg true r_item w_files (fun _ => True) (str "/srv") w_files (fun _ => w_stat) 0 w_state
    H0 (le_n 0) eq_refl Hp Hst Hh) as H. clear H0 Hh Hp Hst.
  eapply (wp_run (reading (str "/a") (str "/a") w_files w_stat w_stat (fun _ => True) False) (two_files w_files w_stat w_stat) two_inv _ (3, ∅)) in H
    as ([ok [s' log]] & k & g & Hrun & _ & _ & H); [|by intros []|apply two_files_ok|by split_and!].
  assert (Hc : match run (two_files w_files w_stat w_stat) (verify_remote_item (log_send (fun _ => true)) 0 toy_hash w_cfg true r_item (w_state, [])) (3, ∅) with
    | Some ((ok, (_, log)), _) => ok = true /\ log <> [] /\ Forall (server_silent (str "/srv") w_files (fun _ => w_stat) toy_hash) log
    | None => False end).
  { clear. match goal with |- match ?r with _ => _ end => let v := eval vm_compute in r in replace r with v by (vm_compute; reflexivity) end.
    cbv beta iota. split; [reflexivity|]. split; [discriminate|]. constructor; [|constructor]. apply silent_by_run. vm_compute. reflexivity. }
  rewrite Hrun in Hc. destruct Hc as (-> & Hne & Hsil). exists s', log, k. split; [exact Hrun|]. split; [exact Hne|].
  destruct (H eq_refl Hsil) as (p & Hres & _ & _ & Hd). exists p. split; [exact Hres|].
  destruct (Hd eq_refl eq_refl eq_refl) as (dom & D & HD & _ & Hall). exists dom, D. split; [exact HD|].
  eapply Forall_impl; [exact Hall|]. intros d (_ & _ & E). exact E.
Defined.
