(* ===== verification/VerifyTree.v ===== *)
(** Verification without a copy (src/verify.c: [join_child_path], [walk_submit],
    [verify_run_tree]): the source tree is walked and every regular file and
    directory of it is handed to a pool of checkers of its own.

    Programs run in [M posix (list verify_item)]: the items the pool has
    accepted. [accepts n] says whether the pool takes an item when it has taken
    [n] already (VerifyPool.v: it refuses only after an interruption);
    [make_item] running out of memory is a refusal as well. Counters and thread
    binding are left out. *)

From S2P Require Export VerifyLocal.
From stdpp Require Import list gmap.
#[local] Open Scope Z_scope.

(** * The walk *)

Definition join_child_path (parent name : bytes) : option bytes :=
  let p := parent ++ (if decide (parent = [SLASH]) then [] else [SLASH]) ++ name in
  if decide (PATH_MAX <= zlen p) then None else Some p.
Definition dot_name (name : bytes) : bool := bool_decide (name = str "." \/ name = str "..").
Definition verifiable (st : stat) : bool := S_ISREG (st_mode st) || S_ISDIR (st_mode st).

Section walk.
(** [metadata] is g_cfg.metadata, [times] copy_policy_preserve_times(). *)
Context (metadata times : bool) (accepts : nat -> bool) (width : nat).
#[local] Abbreviation TM := (M posix (list verify_item)).

Definition tree_item (src dst : bytes) (st : stat) : verify_item := VItem src dst st false (S_ISDIR (st_mode st)) false.
Definition submit_item (i : verify_item) : TM bool :=
  n ← gets length;
  if accepts n then modify (fun l => l ++ [i]);; mret true else mret false.
Definition dir_flags : Z := O_RDONLY |. O_DIRECTORY |. O_CLOEXEC |. O_NOFOLLOW |. (if metadata && times then O_NOATIME else 0).
Definition report_path (path : bytes) : TM unit := call (eprintf path).

(** The loop over the entries of one directory; [visit] is the call of
    [walk_submit] for a child. *)
Fixpoint submit_entries (visit : bytes -> bytes -> stat -> TM bool) (n : nat) (dir : Z) (src dst : bytes) (ok : bool) : TM bool :=
  match n with
  | O => stuck
  | S n =>
      stop ← call shutdown_requested;
      if (stop : bool) then mret false else
      de ← call (readdir dir);
      match de with
      | Err _ => mret false
      | Ok None => mret ok
      | Ok (Some (name, _)) =>
          if dot_name name then submit_entries visit n dir src dst ok else
          match join_child_path src name, join_child_path dst name with
          | Some child_src, Some child_dst =>
              r ← call (lstat child_src);
              match r with
              | Err _ => submit_entries visit n dir src dst false
              | Ok st =>
                  if verifiable st then b ← visit child_src child_dst st; submit_entries visit n dir src dst (ok && b)
                  else submit_entries visit n dir src dst ok
              end
          | _, _ => report_path src;; submit_entries visit n dir src dst false
          end
      end
  end.

(** [depth] bounds the recursion, [width] the entries of a directory. *)
Fixpoint walk_submit (depth : nat) (src dst : bytes) (known : stat) : TM bool :=
  match depth with
  | O => stuck
  | S depth =>
      if negb (verifiable known) then mret true else
      taken ← submit_item (tree_item src dst known);
      if negb taken then mret false else
      if S_ISREG (st_mode known) then mret true else
      r ← call (open src dir_flags 0);
      match r with
      | Err _ => report_path src;; mret false
      | Ok fd =>
          d ← call (fdopendir fd);
          match d with
          | Err _ => call (close fd);; report_path src;; mret false
          | Ok _ =>
              ok ← submit_entries (walk_submit depth) width fd src dst true;
              call (closedir fd);; mret ok
          end
      end
  end.

(** [started]: the pool could be started; [verdict]: what [verify_pool_finish]
    makes of the items; [barrier]: the last barrier of a remote run. *)
Definition verify_run_tree (started : bool) (verdict : list verify_item -> bool) (remote barrier : bool) (depth : nat) (src dst : bytes) : TM bool :=
  r ← call (lstat src);
  match r with
  | Err _ => report_path src;; mret false
  | Ok st =>
      if negb started then report_path src;; mret false else
      walked ← walk_submit depth src dst st;
      finished ← gets verdict;
      mret (walked && finished && (negb remote || barrier))
  end.
End walk.

(** * A source tree that does not change *)

Section tree.
(** What lstat and readdir answer when they answer. *)
Context (stats : bytes -> option stat) (dirs : bytes -> list bytes).

Fixpoint tree_items (depth : nat) (src dst : bytes) (st : stat) : list verify_item :=
  match depth with
  | O => []
  | S depth =>
      if negb (verifiable st) then [] else
      tree_item src dst st ::
      if S_ISREG (st_mode st) then [] else
      concat ((fun name =>
        if dot_name name then [] else
        match join_child_path src name, join_child_path dst name with
        | Some child_src, Some child_dst => match stats child_src with Some st => tree_items depth child_src child_dst st | None => [] end
        | _, _ => []
        end) <$> dirs src)
  end.

(** Every path of the walk, and its counterpart, fits PATH_MAX. *)
Fixpoint tree_fits (depth : nat) (src dst : bytes) (st : stat) : bool :=
  match depth with
  | O => true
  | S depth =>
      negb (S_ISDIR (st_mode st)) ||
      forallb (fun name =>
        dot_name name ||
        match join_child_path src name, join_child_path dst name with
        | Some child_src, Some child_dst => match stats child_src with Some st => tree_fits depth child_src child_dst st | None => true end
        | _, _ => false
        end) (dirs src)
  end.

(** Streams with the names they have still to give; whether a call has failed or
    the walk was interrupted. *)
Record tghost := TG { tg_fds : gmap Z (bytes * list bytes); tg_err : bool }.
Definition tree_pre (g : tghost) R (e : posix R) : Prop :=
  match e with
  | open _ flags _ => flags &. (O_WRONLY |. O_CREAT |. O_TRUNC) = 0
  | close fd | closedir fd | fdopendir fd | readdir fd => is_Some (tg_fds g !! fd)
  | lstat _ | eprintf _ | shutdown_requested => True
  | _ => False
  end.
Definition tree_adm (g : tghost) R (e : posix R) : R -> Prop :=
  match e in posix R return R -> Prop with
  | open _ _ _ => fun r => match r with Ok fd => tg_fds g !! fd = None | Err _ => True end
  | lstat p => fun r => match r with Ok st => stats p = Some st | Err _ => True end
  | readdir fd => fun r =>
      match r with
      | Ok (Some (name, _)) => exists p l, tg_fds g !! fd = Some (p, name :: l)
      | Ok None => exists p, tg_fds g !! fd = Some (p, [])
      | Err _ => True
      end
  | _ => fun _ => True
  end.
Definition tree_upd (g : tghost) R (e : posix R) : R -> tghost :=
  match e in posix R return R -> tghost with
  | open p _ _ => fun r => match r with Ok fd => TG (<[fd := (p, dirs p)]> (tg_fds g)) (tg_err g) | Err _ => TG (tg_fds g) true end
  | lstat p => fun r => match r with Ok _ => g | Err _ => TG (tg_fds g) true end
  | fdopendir _ => fun r => match r with Ok _ => g | Err _ => TG (tg_fds g) true end
  | readdir fd => fun r =>
      match r with
      | Ok (Some _) => TG (alter (fun x => (fst x, tail (snd x))) fd (tg_fds g)) (tg_err g)
      | Ok None => g
      | Err _ => TG (tg_fds g) true
      end
  | close fd | closedir fd => fun _ => TG (delete fd (tg_fds g)) (tg_err g)
  | shutdown_requested => fun r => TG (tg_fds g) (r || tg_err g)
  | _ => fun _ => g
  end.
Definition source : monitor posix := Monitor tghost tree_pre tree_adm tree_upd False.

(** * The walk finds the tree *)

Section correct.
Context (metadata times : bool) (accepts : nat -> bool) (width : nat).
Hypothesis Hwidth : forall p, (length (dirs p) < width)%nat.
Hypothesis Hnames : forall p name, name ∈ dirs p -> name <> [].

(** A walk that starts with [n] items taken, [e] telling whether a call has
    failed before, and ends in [g] with the answer [b], having taken [t] of the
    items [l]; [f] tells whether the paths fit. Success means that nothing went
    wrong; failure has one of three causes; once the pool refuses it goes on
    refusing. *)
Definition refused (n : nat) (l t : list verify_item) : Prop := accepts (n + length t) = false /\ (length t < length l)%nat.
Definition reported (n : nat) (e b : bool) (g : tghost) (l t : list verify_item) (f : bool) : Prop :=
  t `sublist_of` l /\ (b = true -> t = l /\ f = true /\ tg_err g = e) /\
  (b = false -> tg_err g = true \/ f = false \/ refused n l t) /\ (accepts n = false -> t = []).

Lemma join_longer p name c : name <> [] -> join_child_path p name = Some c -> zlen p + 1 <= zlen c < PATH_MAX.
Proof.
  unfold join_child_path. intros Hn. case_decide as Hl; [done|]. intros [= <-].
  assert (1 <= zlen name) by (destruct name; [done|rewrite zlen_cons; pose proof (zlen_nonneg name); lia]).
  split; [|lia]. case_decide as E; rewrite !zlen_app; [subst p; change (zlen [SLASH]) with 1; change (zlen (@nil byte)) with 0; lia|].
  change (zlen [SLASH]) with 1. lia.
Qed.
Lemma flags_harmless : dir_flags metadata times &. (O_WRONLY |. O_CREAT |. O_TRUNC) = 0.
Proof. unfold dir_flags. by destruct metadata, times. Qed.

Definition child_items (depth : nat) (src dst name : bytes) : list verify_item :=
  if dot_name name then [] else
  match join_child_path src name, join_child_path dst name with
  | Some cs, Some cd => match stats cs with Some st => tree_items depth cs cd st | None => [] end
  | _, _ => []
  end.
Lemma alter_some {A} (f : A -> A) (m : gmap Z A) i x : m !! i = Some x -> alter f i m = <[i := f x]> m.
Proof.
  intros H. apply map_eq. intros j. destruct (decide (j = i)) as [->|Hne]; [by rewrite lookup_alter_eq, lookup_insert_eq, H|by rewrite lookup_alter_ne, lookup_insert_ne].
Qed.
Lemma tree_items_eq depth src dst st :
  tree_items (S depth) src dst st = if negb (verifiable st) then [] else
    tree_item src dst st :: (if S_ISREG (st_mode st) then [] else concat (child_items depth src dst <$> dirs src)).
Proof. done. Qed.
Lemma not_verifiable depth src dst st : verifiable st = false -> tree_items depth src dst st = [].
Proof. intros H. destruct depth; [done|]. by rewrite tree_items_eq, H. Qed.

Definition child_fits (depth : nat) (src dst name : bytes) : bool :=
  dot_name name ||
  match join_child_path src name, join_child_path dst name with
  | Some cs, Some cd => match stats cs with Some st => tree_fits depth cs cd st | None => true end
  | _, _ => false
  end.
Lemma tree_fits_eq depth src dst st :
  tree_fits (S depth) src dst st = negb (S_ISDIR (st_mode st)) || forallb (child_fits depth src dst) (dirs src).
Proof. done. Qed.
Lemma verifiable_reg st : S_ISREG (st_mode st) = true -> S_ISDIR (st_mode st) = false.
Proof. unfold S_ISREG, S_ISDIR. intros H%Z.eqb_eq. rewrite H. by vm_compute. Qed.
Lemma tree_fits_leaf depth src dst st : S_ISDIR (st_mode st) = false -> tree_fits depth src dst st = true.
Proof. intros H. destruct depth; [done|]. by rewrite tree_fits_eq, H. Qed.

Lemma reported_err n e g l t f : t `sublist_of` l -> (accepts n = false -> t = []) -> tg_err g = true -> reported n e false g l t f.
Proof. intros. split_and!; try done. intros _. by left. Qed.
Lemma reported_step n e b b' g g' l l' t t' f f' :
  reported n e b g l t f -> reported (n + length t) (tg_err g) b' g' l' t' f' -> (tg_err g = true -> tg_err g' = true) ->
  reported n e (b && b') g' (l ++ l') (t ++ t') (f && f').
Proof.
  intros (H1 & H2 & H3 & H4) (H1' & H2' & H3' & H4') Hg. split_and!; [by apply sublist_app| | |].
  - intros [E1 E2]%andb_prop. destruct (H2 E1) as (-> & -> & <-), (H2' E2) as (-> & -> & ->). done.
  - pose proof (sublist_length _ _ H1). unfold refused in *. rewrite !length_app. destruct b; cbn.
    + intros Hb. destruct (H3' Hb) as [?|[->|[Ha Hlt]]]; [by left|right; left; by rewrite andb_false_r|right; right].
      rewrite (assoc_L Nat.add). split; [done|lia].
    + intros _. destruct (H3 eq_refl) as [?|[->|[Ha Hlt]]]; [left; by apply Hg|right; by left|right; right].
      rewrite (H4' Ha). cbn. rewrite Nat.add_0_r. split; [done|lia].
  - intros Ha. specialize (H4 Ha). subst t. rewrite Nat.add_0_r in H4'. by rewrite H4'.
Qed.

(** The loop over a directory's entries, given what the call for a child does. *)
Lemma submit_entries_ok depth visit dir src dst n names l0 ok items taken f e s g :
  (forall cs cd st s g, stats cs = Some st -> zlen src + 1 <= zlen cs < PATH_MAX ->
     wpM source (visit cs cd st) s g (fun g' b s' => tg_fds g' = tg_fds g /\ (tg_err g = true -> tg_err g' = true) /\
       exists t, s' = s ++ t /\ reported (length s) (tg_err g) b g' (tree_items depth cs cd st) t (tree_fits depth cs cd st))) ->
  (length names < n)%nat -> (forall name, name ∈ names -> name ∈ dirs src) -> tg_fds g !! dir = Some (src, names) ->
  s = l0 ++ taken -> reported (length l0) e ok g items taken f ->
  wpM source (submit_entries visit n dir src dst ok) s g (fun g' b s' =>
    (exists names', tg_fds g' = <[dir := (src, names')]> (tg_fds g)) /\ (tg_err g = true -> tg_err g' = true) /\
    exists t, s' = l0 ++ t /\ reported (length l0) e b g' (items ++ concat (child_items depth src dst <$> names)) t (f && forallb (child_fits depth src dst) names)).
Proof.
  intros Hvisit. revert names ok items taken f s g. induction n as [|n IH]; intros names ok items taken f s g Hn Hin Hfd -> Hrep; [lia|]. cbn [submit_entries].
  pose proof Hrep as (R1 & R2 & R3 & R4).
  assert (Hfail : forall g' : tghost, tg_err g' = true -> tg_fds g' = tg_fds g ->
    (exists names', tg_fds g' = <[dir := (src, names')]> (tg_fds g)) /\ (tg_err g = true -> tg_err g' = true) /\
    exists t, l0 ++ taken = l0 ++ t /\ reported (length l0) e false g' (items ++ concat (child_items depth src dst <$> names)) t (f && forallb (child_fits depth src dst) names)).
  { intros g' E Ef. split_and!; [exists names; by rewrite insert_id|done|]. exists taken. split; [done|]. by apply reported_err; [apply sublist_inserts_r| |]. }
  wp_call stop Hstop. destruct stop; [by apply wpM_ret, Hfail|].
  wp_call de Hde; [by eexists|]. destruct de as [[[name ty]|]|err]; [| |by apply wpM_ret, Hfail].
  2: { destruct Hde as (p' & E). cbn in E. rewrite Hfd in E. injection E as <- ->. apply wpM_ret. split_and!; [exists []; cbn; by rewrite insert_id|done|].
       exists taken. cbn. by rewrite app_nil_r, andb_true_r. }
  destruct Hde as (p' & rest & E). cbn in E. rewrite Hfd in E. injection E as <- ->. cbn [orb].
  set (g1 := TG (alter (fun x => (fst x, tail (snd x))) dir (tg_fds g)) (tg_err g)).
  assert (Eg1 : tg_fds g1 = <[dir := (src, rest)]> (tg_fds g)) by (cbn; by rewrite (alter_some _ _ _ _ Hfd)).
  (* one entry, and then the others *)
  assert (Hnext : forall b' t g2, tg_fds g2 = tg_fds g1 -> (tg_err g = true -> tg_err g2 = true) ->
    reported (length (l0 ++ taken)) (tg_err g) b' g2 (child_items depth src dst name) t (child_fits depth src dst name) ->
    wpM source (submit_entries visit n dir src dst (ok && b')) ((l0 ++ taken) ++ t) g2 (fun g' b s' =>
      (exists names', tg_fds g' = <[dir := (src, names')]> (tg_fds g)) /\ (tg_err g = true -> tg_err g' = true) /\
      exists t, s' = l0 ++ t /\ reported (length l0) e b g' (items ++ concat (child_items depth src dst <$> (name :: rest))) t
        (f && forallb (child_fits depth src dst) (name :: rest)))).
  { intros b' t g2 E2 E3 Hrep'. eapply wpM_mono.
    - apply (IH rest (ok && b') (items ++ child_items depth src dst name) (taken ++ t) (f && child_fits depth src dst name));
        [cbn in Hn; lia|set_solver| |by rewrite <- (assoc_L (++))|].
      + rewrite E2, Eg1. apply lookup_insert_eq.
      + rewrite length_app in Hrep'. by eapply reported_step.
    - intros g' b s' ((names' & Ef) & Hm & t' & -> & Hr). split_and!; [exists names'; by rewrite Ef, E2, Eg1, insert_insert_eq|auto|].
      exists t'. split; [done|]. cbn. by rewrite (assoc_L (++)), andb_assoc. }
  assert (Hskip : child_items depth src dst name = [] -> child_fits depth src dst name = true ->
    wpM source (submit_entries visit n dir src dst ok) (l0 ++ taken) g1 (fun g' b s' =>
      (exists names', tg_fds g' = <[dir := (src, names')]> (tg_fds g)) /\ (tg_err g = true -> tg_err g' = true) /\
      exists t, s' = l0 ++ t /\ reported (length l0) e b g' (items ++ concat (child_items depth src dst <$> (name :: rest))) t
        (f && forallb (child_fits depth src dst) (name :: rest)))).
  { intros E1 E2. rewrite <- (app_nil_r (l0 ++ taken)), <- (andb_true_r ok). apply Hnext; [done|done|]. rewrite E1, E2. by split_and!. }
  assert (Hbad : forall g2, tg_fds g2 = tg_fds g1 -> (tg_err g = true -> tg_err g2 = true) -> tg_err g2 = true \/ child_fits depth src dst name = false ->
    wpM source (submit_entries visit n dir src dst false) (l0 ++ taken) g2 (fun g' b s' =>
      (exists names', tg_fds g' = <[dir := (src, names')]> (tg_fds g)) /\ (tg_err g = true -> tg_err g' = true) /\
      exists t, s' = l0 ++ t /\ reported (length l0) e b g' (items ++ concat (child_items depth src dst <$> (name :: rest))) t
        (f && forallb (child_fits depth src dst) (name :: rest)))).
  { intros g2 E2 E3 Ex. rewrite <- (app_nil_r (l0 ++ taken)), <- (andb_false_r ok). apply Hnext; [done|done|]. split_and!; [apply sublist_nil_l|done| |done].
    intros _. destruct Ex; [by left|right; by left]. }
  destruct (dot_name name) eqn:Ed; [apply Hskip; [unfold child_items|unfold child_fits]; by rewrite Ed|].
  destruct (join_child_path src name) as [cs|] eqn:Es; cycle 1.
  { apply wpM_bind. unfold report_path. wp_call u Hu. apply Hbad; [done|done|right]. unfold child_fits. by rewrite Ed, Es. }
  destruct (join_child_path dst name) as [cd|] eqn:Et; cycle 1.
  { apply wpM_bind. unfold report_path. wp_call u Hu. apply Hbad; [done|done|right]. unfold child_fits. by rewrite Ed, Es, Et. }
  wp_call r Hr. destruct r as [st|err]; cycle 1.
  { apply Hbad; [done|done|by left]. }
  cbn in Hr. assert (Ech : child_items depth src dst name = tree_items depth cs cd st) by (unfold child_items; by rewrite Ed, Es, Et, Hr).
  assert (Efi : child_fits depth src dst name = tree_fits depth cs cd st) by (unfold child_fits; by rewrite Ed, Es, Et, Hr).
  destruct (verifiable st) eqn:Ev.
  2:{ apply Hskip; [rewrite Ech; by apply not_verifiable|rewrite Efi]. apply tree_fits_leaf. unfold verifiable in Ev. by apply orb_false_iff in Ev as [_ ?]. }
  apply wpM_bind. eapply wpM_mono; [apply Hvisit; [exact Hr|apply (join_longer _ name); [by eapply Hnames, Hin, list_elem_of_here|done]]|].
  intros g2 b s2 (E2 & E3 & t & -> & Hrep'). apply Hnext; [done|exact E3|]. by rewrite Ech, Efi.
Qed.

Lemma walk_submit_ok depth src dst st s g : PATH_MAX <= zlen src + Z.of_nat depth -> zlen src < PATH_MAX ->
  wpM source (walk_submit metadata times accepts width depth src dst st) s g (fun g' b s' =>
    tg_fds g' = tg_fds g /\ (tg_err g = true -> tg_err g' = true) /\
    exists t, s' = s ++ t /\ reported (length s) (tg_err g) b g' (tree_items depth src dst st) t (tree_fits depth src dst st)).
Proof.
  revert src dst st s g. induction depth as [|depth IH]; intros src dst st s g Hd Hl; [lia|]. cbn [walk_submit]. rewrite tree_items_eq.
  destruct (verifiable st) eqn:Ev; cbn [negb].
  2:{ apply wpM_ret. split_and!; [done|done|]. exists []. rewrite app_nil_r. split; [done|]. split_and!; [done| |done|done]. intros _. split_and!; [done| |done].
      apply tree_fits_leaf. unfold verifiable in Ev. by apply orb_false_iff in Ev as [_ ?]. }
  unfold submit_item. repeat wp_step. destruct (accepts (length s)) eqn:Ea; cycle 1.
  { repeat wp_step. split_and!; [done|done|]. exists []. rewrite app_nil_r. split; [done|]. split_and!; [apply sublist_nil_l|done| |done].
    intros _. right; right. split; [by rewrite Nat.add_0_r|cbn; lia]. }
  repeat wp_step. cbn [negb]. destruct (S_ISREG (st_mode st)) eqn:Ereg.
  { apply wpM_ret. split_and!; [done|done|]. exists [tree_item src dst st]. split; [done|]. split_and!; [done| |done|congruence].
    intros _. split_and!; [done| |done]. by apply tree_fits_leaf, verifiable_reg. }
  assert (Hone : forall l, [tree_item src dst st] `sublist_of` tree_item src dst st :: l) by (intros l; apply sublist_skip, sublist_nil_l).
  assert (Hopen : forall g' : tghost, tg_err g' = true -> tg_fds g' = tg_fds g -> tg_fds g' = tg_fds g /\ (tg_err g = true -> tg_err g' = true) /\
    exists t, s ++ [tree_item src dst st] = s ++ t /\
      reported (length s) (tg_err g) false g' (tree_item src dst st :: concat (child_items depth src dst <$> dirs src)) t (tree_fits (S depth) src dst st)).
  { intros g' E Ef. split_and!; [done|done|]. eexists. split; [done|]. by apply reported_err; [|congruence|]. }
  wp_call r Hr; [apply flags_harmless|]. destruct r as [fd|err]; [|unfold report_path; wp_call u Hu; by apply wpM_ret, Hopen].
  cbn in Hr. set (g1 := TG (<[fd := (src, dirs src)]> (tg_fds g)) (tg_err g)).
  assert (Hdel : forall x, delete fd (<[fd := x]> (tg_fds g1)) = tg_fds g) by (intros x; cbn; by rewrite insert_insert_eq, delete_insert_id).
  wp_call d Hd2; [cbn; rewrite lookup_insert_eq; by eexists|]. destruct d as [u|err]; cycle 1.
  { wp_call c Hc; [cbn; rewrite lookup_insert_eq; by eexists|]. unfold report_path. wp_call u Hu. apply wpM_ret, Hopen; [done|]. cbn. by rewrite delete_insert_id. }
  apply wpM_bind. eapply wpM_mono.
  - apply (submit_entries_ok depth _ fd src dst width (dirs src) s true [tree_item src dst st] [tree_item src dst st] true (tg_err g)); [|done|done|apply lookup_insert_eq|done|].
    + intros cs cd st' s' g' _ Hcs. apply IH; lia.
    + split_and!; [done|done|done|congruence].
  - intros g2 b s2 ((names' & E2) & Hm & t & -> & Hrep). cbn [app] in Hrep. wp_call u2 Hu2; [cbn; rewrite E2, lookup_insert_eq; by eexists|]. wp_step.
    split_and!; [cbn; rewrite E2; apply Hdel|exact Hm|]. exists t. split; [done|].
    rewrite tree_fits_eq. unfold verifiable in Ev. rewrite Ereg in Ev. cbn [orb] in Ev. rewrite Ev. cbn [negb orb]. exact Hrep.
Qed.

(** C27.  Verification without a copy reaches the whole tree. On a source tree that
    does not change, whatever calls fail: nothing is opened for writing and every
    directory stream is closed; only files and directories of the tree are handed
    to the checkers, each paired with the path it should have on the other side,
    in the order of the walk; success is reported exactly when no call has
    failed, the walk was not interrupted, every path of the tree fits, the pool
    started, all items of the tree have been handed over, the checkers found
    nothing wrong, and the last barrier of a remote run succeeded; and when no
    call has failed an item is only left out because a path does not fit or the
    pool refuses items from that one on. PATH_MAX levels of recursion are
    enough. *)
Theorem verify_run_tree_exact started verdict remote barrier src dst fds :
  zlen src < PATH_MAX ->
  wpM source (verify_run_tree metadata times accepts width started verdict remote barrier (Z.to_nat PATH_MAX) src dst) [] (TG fds false) (fun g' b items =>
    let items_of := tree_items (Z.to_nat PATH_MAX) src dst in
    let fits := tree_fits (Z.to_nat PATH_MAX) src dst in
    tg_fds g' = fds /\
    (forall st, stats src = Some st -> items `sublist_of` items_of st) /\
    (b = true <-> tg_err g' = false /\ started = true /\ verdict items = true /\ (remote = true -> barrier = true) /\
       exists st, stats src = Some st /\ fits st = true /\ items = items_of st) /\
    (tg_err g' = false -> started = true -> forall st, stats src = Some st ->
       items = items_of st \/ fits st = false \/ (accepts (length items) = false /\ (length items < length (items_of st))%nat))).
Proof.
  intros Hl. unfold verify_run_tree. cbv zeta. wp_call r Hr. destruct r as [st|err]; cycle 1.
  { unfold report_path. wp_call u Hu. wp_step. split_and!; [done|intros; apply sublist_nil_l| |by cbn]. split; [done|]. by intros (? & _). }
  cbn in Hr. destruct started; cbn [negb]; cycle 1.
  { unfold report_path. wp_call u Hu. wp_step. split_and!; [done|intros; apply sublist_nil_l| |done]. split; [done|]. by intros (_ & ? & _). }
  apply wpM_bind. eapply wpM_mono; [apply walk_submit_ok; [pose proof (zlen_nonneg src); lia|done]|].
  intros g2 b s2 (E2 & Hm & t & -> & R1 & R2 & R3 & _). cbn [app length tg_err] in *. repeat wp_step.
  assert (Hst : forall st', stats src = Some st' -> st' = st) by (intros st' E; congruence).
  split_and!; [done|by intros st' ->%Hst| |].
  - split.
    + intros [[E1 E3]%andb_prop E4]%andb_prop. destruct (R2 E1) as (-> & Hf & He). split_and!; [done|done|done|intros ->; done|]. by exists st.
    + intros (He & _ & -> & Hb & st' & Hs & Hf & ->). apply Hst in Hs as ->. destruct b.
      * cbn. destruct remote; [by rewrite Hb|done].
      * destruct (R3 eq_refl) as [?|[?|[_ ?]]]; [congruence|congruence|lia].
  - intros He _ st' ->%Hst. destruct b; [left; by destruct (R2 eq_refl)|]. destruct (R3 eq_refl) as [?|[?|?]]; [congruence|by right; left|by right; right].
Qed.
End correct.

(** ** A kernel with this tree *)

Definition tree_answer (g : tghost) (n : Z) R (e : posix R) : R :=
  match e in posix R return R with
  | open _ _ _ => Ok n
  | lstat p => match stats p with Some st => Ok st | None => Err ENOENT end
  | readdir fd => match tg_fds g !! fd with Some (_, name :: _) => Ok (Some (name, 0)) | Some (_, []) => Ok None | None => Err EIO end
  | e => (permissive _ e (Kstate 0 [])).1
  end.
Definition tree_kernel (R : Type) (e : posix R) (k : tghost * Z) : R * (tghost * Z) :=
  let r := tree_answer k.1 k.2 R e in (r, (tree_upd k.1 R e r, k.2 + 1)).
Lemma tree_kernel_ok : kernel_ok source tree_kernel (fun k g => g = k.1 /\ forall fd, k.2 <= fd -> tg_fds g !! fd = None).
Proof.
  intros [g n] g' R e [-> Hfds] Hpre. cbn [fst snd] in *. split; [|split; [done|]].
  - destruct e; cbn; try done.
    + by apply Hfds.
    + by destruct (stats path).
    + destruct (tg_fds g !! fd) as [[q [|name l]]|]; [by eexists|by eexists _, _|done].
  - intros fd Hfd. specialize (Hfds fd ltac:(cbn in Hfd; lia)). destruct e; cbn; try done.
    + rewrite lookup_insert_ne; [done|]. cbn in Hfd. lia.
    + destruct (decide (fd0 = fd)) as [->|]; [apply lookup_delete_eq|by rewrite lookup_delete_ne].
    + by destruct (stats path).
    + destruct (tg_fds g !! fd0) as [[q [|name l]]|]; cbn; try done. rewrite lookup_alter_None. done.
    + destruct (decide (fd0 = fd)) as [->|]; [apply lookup_delete_eq|by rewrite lookup_delete_ne].
Qed.
End tree.

(** ** One directory with one file *)

Definition t_file : stat := Stat 1 9 S_IFREG 1 0 0 3 8 (Timespec 1 0) (Timespec 1 0) (Timespec 1 0).
Definition t_stats (p : bytes) : option stat := if decide (p = str "/a") then Some dir_stat else if decide (p = str "/a/f") then Some t_file else None.
Definition t_dirs (p : bytes) : list bytes := if decide (p = str "/a") then [str "."; str "f"] else [].

Lemma verify_run_tree_exact_witness :
  exists k, run (tree_kernel t_stats t_dirs) (verify_run_tree true true (fun _ => true) 3 true (fun _ => true) false false (Z.to_nat PATH_MAX) (str "/a") (str "/b") []) (TG ∅ false, 3) =
    Some ((true, [tree_item (str "/a") (str "/b") dir_stat; tree_item (str "/a/f") (str "/b/f") t_file]), k) /\
  tree_items t_stats t_dirs (Z.to_nat PATH_MAX) (str "/a") (str "/b") dir_stat = [tree_item (str "/a") (str "/b") dir_stat; tree_item (str "/a/f") (str "/b/f") t_file].
Proof.
  assert (Hw : forall p, (length (t_dirs p) < 3)%nat) by (intros p; unfold t_dirs; case_decide; cbn; lia).
  assert (Hn : forall p name, name ∈ t_dirs p -> name <> []) by (intros p name; unfold t_dirs; case_decide; set_solver).
  assert (Hl : zlen (str "/a") < PATH_MAX) by done.
  pose proof (verify_run_tree_exact t_stats t_dirs true true (fun _ => true) 3 Hw Hn true (fun _ => true) false false (str "/a") (str "/b") ∅ Hl) as H. cbv zeta in H.
  eapply (wp_run (source t_stats t_dirs) (tree_kernel t_stats t_dirs) _ _ (TG ∅ false, 3)) in H as ([b items] & k & g & Hrun & _ & _ & _ & Hb & _); [|by intros []|apply tree_kernel_ok|by split].
  assert (b = true /\ items = [tree_item (str "/a") (str "/b") dir_stat; tree_item (str "/a/f") (str "/b/f") t_file]) as [-> ->].
  { vm_compute in Hrun. injection Hrun as <- <- _. by split. }
  exists k. split; [exact Hrun|]. destruct (proj1 Hb eq_refl) as (_ & _ & _ & _ & st & Est & _ & E). injection Est as <-. symmetry. exact E.
Defined.
