(* ===== verification/VerifyPool.v ===== *)
(** The verification pool (src/verify.c: [verify_pool_worker],
    [verify_pool_submit], [verify_pool_finish], [run_pool_list],
    [verify_run_tree], [verify_request_stop]): a bounded queue, checkers, and one
    thread that submits items and then finishes the pool.

    [vstep] interleaves the critical sections under the pool's lock. What
    verifying an item does is VerifyLocal.v; here an item fails or not. The
    states of a checker and the condition variable it sleeps on are those of
    ServerPool.v. [hook] says whether [verify_request_stop] reaches this pool:
    it does for the pipeline's, [g_pipe_pool], and does not for one that
    [run_pool_list] or [verify_run_tree] keep on their stack. *)

From S2P Require Export ServerPool.
From stdpp Require Import list.
#[local] Open Scope Z_scope.

Section pool.
Context {J : Type} (fails : J -> bool).

(** [verify_pool_t] and [g_run_active], without the peaks. *)
Record vpool := VPool { vp_list : list J; vp_queued : Z; vp_active : Z; vp_stop : bool; vp_failed : bool }.

(** [verify_pool_start]: the bound on the queue. *)
Definition pool_limit (nthreads : Z) : Z := let l := nthreads * 4 in if decide (l < 16) then 16 else l.

(** The submitting thread: between items; in [verify_pool_submit], asleep on
    space_cv, signalled; joining the checkers; done. *)
Inductive submitter := SNext | SSubmit (j : J) | SSpace (j : J) | SSpaceWoken (j : J) | SJoin | SDone.

(** [q_todo] is still to be submitted, [q_done] has been verified, [q_dropped]
    has been freed unverified; [q_bad] is the submitter's own verdict, [q_shut]
    is g_shutdown_requested and [q_asked] whether the stop request has run. *)
Record vsys := VSys { q_pool : vpool; q_workers : list (worker J); q_sub : submitter; q_todo : list J;
                      q_done : list J; q_dropped : list J; q_bad : bool; q_shut : bool; q_asked : bool }.

(** ** Critical sections *)

(** A checker with the lock: the pool, its next state, and whether it signals
    space_cv. *)
Definition vpool_take (shut : bool) (b : vpool) : vpool * worker J * bool :=
  match vp_list b with
  | [] => (b, if vp_stop b then WExit else WParked, false)
  | j :: l => if shut then (b, WExit, false)
              else (VPool l (vp_queued b - 1) (vp_active b + 1) (vp_stop b) (vp_failed b), WRun j, true)
  end.
(** After the item. *)
Definition vpool_after (j : J) (b : vpool) : vpool :=
  VPool (vp_list b) (vp_queued b) (vp_active b - 1) (vp_stop b) (vp_failed b || fails j).
Definition vpool_push (j : J) (b : vpool) : vpool :=
  VPool (vp_list b ++ [j]) (vp_queued b + 1) (vp_active b) (vp_stop b) (vp_failed b).
Definition vpool_stop (b : vpool) : vpool := VPool (vp_list b) (vp_queued b) (vp_active b) true (vp_failed b).
Definition vpool_clear (b : vpool) : vpool := VPool [] (vp_queued b) 0 (vp_stop b) (vp_failed b).

Definition vspace_signal (p : submitter) : submitter := match p with SSpace j => SSpaceWoken j | _ => p end.
Definition vsubmitting (p : submitter) (j : J) : Prop := p = SSubmit j \/ p = SSpaceWoken j.

(** The return value of [run_pool_list] and [verify_run_tree]: true is 0. *)
Definition vverdict (y : vsys) : bool := negb (q_bad y) && negb (vp_failed (q_pool y)).

Inductive vstep (intr hook : bool) (limit : Z) : vsys -> vsys -> Prop :=
(** A checker takes an item, sleeps, or leaves. *)
| vs_take i w b ws p todo dn dr bad shut ask :
    ws !! i = Some w -> w = WIdle \/ w = WWoken ->
    vstep intr hook limit (VSys b ws p todo dn dr bad shut ask)
      (let '(b', w', sig) := vpool_take shut b in VSys b' (<[i := w']> ws) (if sig then vspace_signal p else p) todo dn dr bad shut ask)
(** A checker has verified its item. *)
| vs_after i j b ws p todo dn dr bad shut ask :
    ws !! i = Some (WRun j) ->
    vstep intr hook limit (VSys b ws p todo dn dr bad shut ask)
      (VSys (vpool_after j b) (<[i := WIdle]> ws) p todo (dn ++ [j]) dr bad shut ask)
(** The submitter has an item, or the walk sees the shutdown flag. *)
| vs_next j b ws todo dn dr bad shut ask :
    vstep intr hook limit (VSys b ws SNext (j :: todo) dn dr bad shut ask) (VSys b ws (SSubmit j) todo dn dr bad shut ask)
| vs_abandon b ws todo dn dr bad ask :
    todo <> [] ->
    vstep intr hook limit (VSys b ws SNext todo dn dr bad true ask) (VSys b ws SNext [] dn (dr ++ todo) true true ask)
(** [verify_pool_submit]: no room; stopped; room. *)
| vs_full p j b ws todo dn dr bad ask :
    vsubmitting p j -> limit <= vp_queued b -> vp_stop b = false ->
    vstep intr hook limit (VSys b ws p todo dn dr bad false ask) (VSys b ws (SSpace j) todo dn dr bad false ask)
| vs_refuse p j b ws todo dn dr bad shut ask :
    vsubmitting p j -> vp_stop b || shut = true ->
    vstep intr hook limit (VSys b ws p todo dn dr bad shut ask) (VSys b ws SNext todo dn (dr ++ [j]) true shut ask)
| vs_push p j b ws ws' todo dn dr bad ask :
    vsubmitting p j -> vp_queued b < limit -> vp_stop b = false -> work_signal ws ws' ->
    vstep intr hook limit (VSys b ws p todo dn dr bad false ask) (VSys (vpool_push j b) ws' SNext todo dn dr bad false ask)
(** [verify_pool_finish]. *)
| vs_stop b ws dn dr bad shut ask :
    vstep intr hook limit (VSys b ws SNext [] dn dr bad shut ask) (VSys (vpool_stop b) (wake_worker <$> ws) SJoin [] dn dr bad shut ask)
| vs_join b ws dn dr bad shut ask :
    Forall (eq WExit) ws ->
    vstep intr hook limit (VSys b ws SJoin [] dn dr bad shut ask) (VSys (vpool_clear b) ws SDone [] dn (dr ++ vp_list b) bad shut ask)
(** The signal handler; then the watcher thread runs [verify_request_stop]. *)
| vs_shutdown b ws p todo dn dr bad ask :
    intr = true -> p <> SDone ->
    vstep intr hook limit (VSys b ws p todo dn dr bad false ask) (VSys b ws p todo dn dr bad true ask)
| vs_request b ws p todo dn dr bad :
    hook = true -> p <> SDone ->
    vstep intr hook limit (VSys b ws p todo dn dr bad true false) (VSys (vpool_stop b) (wake_worker <$> ws) (vspace_signal p) todo dn dr bad true true).

Definition vsys0 (started : nat) (input : list J) : vsys :=
  VSys (VPool [] 0 0 false false) (replicate started WIdle) SNext input [] [] false false false.
End pool.
Arguments vpool : clear implicits.
Arguments submitter : clear implicits.
Arguments vsys : clear implicits.

(** * Invariant *)

Section pool.
Context {J : Type} (fails : J -> bool) (intr hook : bool) (limit : Z) (started : nat) (input : list J).
Implicit Types (b : vpool J) (ws : list (worker J)) (p : submitter J) (y : vsys J).
Abbreviation step := (vstep fails intr hook limit).

Definition vheld p : list J := match p with SSubmit j | SSpace j | SSpaceWoken j => [j] | _ => [] end.
Definition vclosed p : bool := match p with SJoin | SDone => true | _ => false end.

Record vinv y : Prop := VInv {
  vi_queued : vp_queued (q_pool y) = zlen (vp_list (q_pool y)) \/ q_sub y = SDone;
  vi_active : vp_active (q_pool y) = zlen (running (q_workers y));
  vi_bound : zlen (vp_list (q_pool y)) <= limit;
  vi_len : length (q_workers y) = started;
  vi_stop : vp_stop (q_pool y) = vclosed (q_sub y) || q_asked y;
  vi_asked : q_asked y = true -> q_shut y = true;
  vi_shut : q_shut y = true -> intr = true;
  vi_exit : WExit ∈ q_workers y -> q_shut y = true \/ (vp_stop (q_pool y) = true /\ vp_list (q_pool y) = []);
  vi_parked : vp_stop (q_pool y) = true -> WParked ∉ q_workers y;
  vi_todo : vclosed (q_sub y) = true -> q_todo y = [];
  vi_done : q_sub y = SDone -> Forall (eq WExit) (q_workers y) /\ vp_list (q_pool y) = [];
  vi_input : input ≡ₚ q_done y ++ running (q_workers y) ++ vp_list (q_pool y) ++ vheld (q_sub y) ++ q_todo y ++ q_dropped y;
  vi_failed : vp_failed (q_pool y) = existsb fails (q_done y);
  vi_clean : q_shut y = false -> q_dropped y = [] /\ q_bad y = false;
  vi_awake : Forall gone (q_workers y) -> vp_list (q_pool y) = [] \/ q_shut y = true;
  vi_space : forall j, q_sub y = SSpace j -> limit <= zlen (vp_list (q_pool y)) /\ vp_stop (q_pool y) = false
}.

#[local] Arguments running {J} ws : simpl never.

Lemma vinv_init : 0 <= limit -> vinv (vsys0 started input).
Proof.
  intros Hl. assert (Er : running (replicate started (@WIdle J)) = []).
  { unfold running. rewrite fmap_replicate. by induction started. }
  assert (Hne : forall w : worker J, w ∈ replicate started WIdle -> w = WIdle) by (by intros w [-> _]%elem_of_replicate).
  split; cbn; rewrite ?Er; try done.
  - by left.
  - by rewrite length_replicate.
  - by intros ?%Hne.
  - by rewrite app_nil_r.
  - by left.
Qed.

Lemma existsb_snoc (l : list J) j : existsb fails (l ++ [j]) = existsb fails l || fails j.
Proof. rewrite existsb_app. cbn. by rewrite orb_false_r. Qed.

Lemma running_broadcast ws : running (wake_worker <$> ws) = running ws.
Proof. unfold running. rewrite <- list_fmap_compose. f_equal. apply list_fmap_ext. by intros k [] _. Qed.
Lemma broadcast_exit ws : WExit ∈ wake_worker <$> ws -> WExit ∈ ws.
Proof. intros (w & Hw & Hin)%list_elem_of_fmap. by destruct w; simplify_eq. Qed.
Lemma broadcast_parked ws : WParked ∉ wake_worker <$> ws.
Proof. intros (w & Hw & Hin)%list_elem_of_fmap. by destruct w. Qed.
Lemma broadcast_gone ws : Forall gone (wake_worker <$> ws) -> Forall gone ws.
Proof.
  rewrite Forall_fmap. intros H. eapply Forall_impl; [exact H|]. intros w [Hw|Hw]; destruct w; try done; by right.
Qed.

Lemma vinv_take i w b ws p todo dn dr bad shut ask :
  vinv (VSys b ws p todo dn dr bad shut ask) -> ws !! i = Some w -> w = WIdle \/ w = WWoken ->
  vinv (let '(b', w', sig) := vpool_take shut b in VSys b' (<[i := w']> ws) (if sig then vspace_signal p else p) todo dn dr bad shut ask).
Proof.
  intros [Hq Ha Hb Hlen Hst Hak Hsh Hex Hpk Htd Hdn Hin Hfl Hcl Haw Hsp] Hi Hw. cbn in *.
  assert (Hj : job_of w = []) by (by destruct Hw; subst). assert (Hg : ~ gone w) by (destruct Hw; subst; by intros [?|?]).
  assert (Hnd : p <> SDone).
  { intros ->. destruct (Hdn eq_refl) as [Hall _]. pose proof (Forall_lookup_1 _ _ _ _ Hall Hi) as <-. by destruct Hw. }
  assert (Hne : forall w', Forall gone (<[i := w']> ws) -> gone w').
  { intros w' Hall. apply (Forall_lookup_1 _ _ i _ Hall). apply list_lookup_insert_eq. by eapply lookup_lt_Some. }
  pose proof (fun w' => running_zlen ws i w w' Hi) as Hz. destruct (running_at ws i w Hi) as (R & H1 & H2). rewrite Hj in *.
  unfold vpool_take. destruct (vp_list b) as [|j l] eqn:El; [|destruct shut].
  - (* nothing to do *)
    specialize (Hz (if vp_stop b then WExit else WParked)). specialize (H2 (if vp_stop b then WExit else WParked)).
    assert (E0 : job_of (if vp_stop b then @WExit J else WParked) = []) by (by destruct (vp_stop b)). rewrite E0 in *. change (zlen (@nil J)) with 0 in *.
    split; cbn; rewrite ?El; try done.
    + rewrite Ha. lia.
    + by rewrite length_insert.
    + intros [Hx|Hx]%elem_insert; [|by apply Hex in Hx; rewrite ?El in Hx]. destruct (vp_stop b); [right; by split|done].
    + intros Hs [Hx|Hx]%elem_insert; [by rewrite Hs in Hx|]. by apply (Hpk Hs).
    + rewrite Hin. cbn. by rewrite H1, H2.
    + intros _. by left.
  - (* leaves at once *)
    specialize (Hz WExit). specialize (H2 WExit). cbn [job_of] in *. change (zlen (@nil J)) with 0 in *.
    split; cbn; rewrite ?El; try done.
    + rewrite Ha. lia.
    + by rewrite length_insert.
    + intros _. by left.
    + intros Hs [Hx|Hx]%elem_insert; [done|]. by apply (Hpk Hs).
    + rewrite Hin. cbn. by rewrite H1, H2.
    + intros _. by right.
  - specialize (Hz (WRun j)). specialize (H2 (WRun j)). cbn [job_of] in *. change (zlen (@nil J)) with 0 in *. change (zlen [j]) with 1 in *. rewrite zlen_cons in *.
    assert (Hp' : vheld (vspace_signal p) = vheld p /\ vclosed (vspace_signal p) = vclosed p /\ vspace_signal p <> SDone /\ (forall k, vspace_signal p <> SSpace k)).
    { by destruct p. }
    destruct Hp' as (E1 & E2 & E3 & E4).
    split; cbn; rewrite ?E1, ?E2; try done.
    + left. destruct Hq; [lia|done].
    + rewrite Ha. lia.
    + lia.
    + by rewrite length_insert.
    + intros [Hx|Hx]%elem_insert; [done|]. destruct (Hex Hx) as [?|[_ ?]]; [by left|done].
    + intros Hs [Hx|Hx]%elem_insert; [done|]. by apply (Hpk Hs).
    + rewrite Hin, H1, H2. cbn. perm.
    + intros Hall. apply Hne in Hall. by destruct Hall.
    + intros k Hk. by apply E4 in Hk.
Qed.

Lemma vinv_after i j b ws p todo dn dr bad shut ask :
  vinv (VSys b ws p todo dn dr bad shut ask) -> ws !! i = Some (WRun j) ->
  vinv (VSys (vpool_after fails j b) (<[i := WIdle]> ws) p todo (dn ++ [j]) dr bad shut ask).
Proof.
  intros [Hq Ha Hb Hlen Hst Hak Hsh Hex Hpk Htd Hdn Hin Hfl Hcl Haw Hsp] Hi. cbn in *.
  pose proof (running_zlen ws i _ WIdle Hi) as Hz. destruct (running_at ws i _ Hi) as (R & H1 & H2). specialize (H2 WIdle).
  cbn [job_of app] in *. change (zlen [j]) with 1 in Hz. change (zlen (@nil J)) with 0 in Hz.
  split; cbn; try done.
  - lia.
  - by rewrite length_insert.
  - intros [?|?]%elem_insert; [done|auto].
  - intros Hs [?|?]%elem_insert; [done|]. by apply (Hpk Hs).
  - intros E. destruct (Hdn E) as [Hall _]. by pose proof (Forall_lookup_1 _ _ _ _ Hall Hi).
  - rewrite Hin, H1. rewrite H2. perm.
  - by rewrite existsb_snoc, Hfl.
  - intros Hall. by apply (gone_insert _ i WIdle) in Hall; [|apply list_lookup_insert_eq; by eapply lookup_lt_Some|intros [?|?]].
Qed.

(** Steps of the submitter that leave the pool alone: [x] is dropped. *)
Lemma vinv_sub x p' todo' bad' b ws p todo dn dr bad shut ask :
  vinv (VSys b ws p todo dn dr bad shut ask) -> vheld p ++ todo ≡ₚ vheld p' ++ todo' ++ x ->
  vclosed p = false -> vclosed p' = false -> p' <> SDone -> (shut = false -> x = [] /\ bad' = bad) ->
  (forall j, p' = SSpace j -> limit <= zlen (vp_list b) /\ vp_stop b = false) ->
  vinv (VSys b ws p' todo' dn (dr ++ x) bad' shut ask).
Proof.
  intros [Hq Ha Hb Hlen Hst Hak Hsh Hex Hpk Htd Hdn Hin Hfl Hcl Haw Hsp] E Hc Hc' Hnd Hx Hs. cbn in *.
  split; cbn; try done.
  - left. destruct Hq; [done|]. by subst.
  - by rewrite Hst, Hc, Hc'.
  - intros Hcc. congruence.
  - rewrite Hin. transitivity (dn ++ running ws ++ vp_list b ++ (vheld p ++ todo) ++ dr); [perm|]. rewrite E. perm.
  - intros Hsf. destruct (Hx Hsf) as [-> ->]. rewrite app_nil_r. by apply Hcl.
Qed.

Lemma vinv_push p j b ws ws' todo dn dr bad ask :
  vinv (VSys b ws p todo dn dr bad false ask) -> vsubmitting p j -> vp_queued b < limit -> vp_stop b = false -> work_signal ws ws' -> (0 < started)%nat ->
  vinv (VSys (vpool_push j b) ws' SNext todo dn dr bad false ask).
Proof.
  intros [Hq Ha Hb Hlen Hst Hak Hsh Hex Hpk Htd Hdn Hin Hfl Hcl Haw Hsp] Hp Hroom Hns Hsig Hn. cbn in *.
  assert (Hheld : vheld p = [j] /\ vclosed p = false /\ p <> SDone) by (by destruct Hp; subst). destruct Hheld as (Eh & Ec & Ed).
  destruct Hq as [Hq|?]; [|done].
  assert (Hnx : WExit ∉ ws) by (intros [?|[? _]]%Hex; congruence).
  assert (Hw : running ws' = running ws /\ length ws' = length ws /\ (WExit ∈ ws' -> WExit ∈ ws) /\ ~ Forall gone ws').
  { destruct Hsig as [ws i Hi|ws Hno].
    - split_and!; [|by rewrite length_insert|intros [?|?]%elem_insert; done|].
      + unfold running. rewrite list_fmap_insert. rewrite list_insert_id; [done|]. by rewrite list_lookup_fmap, Hi.
      + apply (gone_insert _ i WWoken); [apply list_lookup_insert_eq; by eapply lookup_lt_Some|by intros [?|?]].
    - split_and!; try done. destruct ws as [|w ws]; [simpl in Hlen; lia|]. intros [Hg _]%Forall_cons_1.
      destruct Hg; subst w; [apply Hno|apply Hnx]; apply list_elem_of_here. }
  destruct Hw as (Er & El & Ex & Eg).
  split; cbn; try done.
  - left. rewrite zlen_app. change (zlen [j]) with 1. lia.
  - by rewrite Er.
  - rewrite zlen_app. change (zlen [j]) with 1. lia.
  - by rewrite El.
  - by rewrite Hst, Ec.
  - by intros ?%Ex.
  - congruence.
  - rewrite Er, Hin, Eh. perm.
Qed.

Lemma vinv_stop b ws dn dr bad shut ask :
  vinv (VSys b ws SNext [] dn dr bad shut ask) -> vinv (VSys (vpool_stop b) (wake_worker <$> ws) SJoin [] dn dr bad shut ask).
Proof.
  intros [Hq Ha Hb Hlen Hst Hak Hsh Hex Hpk Htd Hdn Hin Hfl Hcl Haw Hsp]. cbn in *.
  split; cbn; rewrite ?length_fmap; try done.
  - left. by destruct Hq.
  - by rewrite running_broadcast.
  - intros [?|[? ?]]%broadcast_exit%Hex; [by left|right; by split].
  - intros _. apply broadcast_parked.
  - by rewrite running_broadcast.
  - intros Hg%broadcast_gone. by apply Haw.
Qed.
Lemma vinv_join b ws dn dr bad shut ask :
  vinv (VSys b ws SJoin [] dn dr bad shut ask) -> Forall (eq WExit) ws -> (0 < started)%nat ->
  vinv (VSys (vpool_clear b) ws SDone [] dn (dr ++ vp_list b) bad shut ask).
Proof.
  intros [Hq Ha Hb Hlen Hst Hak Hsh Hex Hpk Htd Hdn Hin Hfl Hcl Haw Hsp] Hall Hn. cbn in *.
  assert (Hx : WExit ∈ ws) by (destruct ws as [|w ws]; [simpl in Hlen; lia|]; apply Forall_cons_1 in Hall as [<- _]; apply list_elem_of_here).
  assert (Er : running ws = []) by (clear -Hall; induction Hall as [|w ws <- _ IH]; [done|exact IH]).
  split; cbn; try done.
  - by right.
  - by rewrite Er.
  - pose proof (zlen_nonneg (vp_list b)). change (zlen (@nil J)) with 0. lia.
  - intros Hx'. destruct (Hex Hx') as [?|[? _]]; [by left|right; by split].
  - rewrite Hin, Er. perm.
  - intros Hs. destruct (Hcl Hs) as [-> ->]. destruct (Hex Hx) as [?|[_ ->]]; [congruence|done].
  - by left.
Qed.

Lemma vinv_shutdown b ws p todo dn dr bad ask :
  vinv (VSys b ws p todo dn dr bad false ask) -> intr = true -> vinv (VSys b ws p todo dn dr bad true ask).
Proof.
  intros [Hq Ha Hb Hlen Hst Hak Hsh Hex Hpk Htd Hdn Hin Hfl Hcl Haw Hsp] Hi. cbn in *. split; cbn; try done.
  - intros _. by left.
  - intros _. by right.
Qed.
Lemma vinv_request b ws p todo dn dr bad :
  vinv (VSys b ws p todo dn dr bad true false) -> p <> SDone ->
  vinv (VSys (vpool_stop b) (wake_worker <$> ws) (vspace_signal p) todo dn dr bad true true).
Proof.
  intros [Hq Ha Hb Hlen Hst Hak Hsh Hex Hpk Htd Hdn Hin Hfl Hcl Haw Hsp] Hp. cbn in *.
  assert (Hp' : vheld (vspace_signal p) = vheld p /\ vclosed (vspace_signal p) = vclosed p /\ vspace_signal p <> SDone /\ (forall k, vspace_signal p <> SSpace k)).
  { by destruct p. }
  destruct Hp' as (E1 & E2 & E3 & E4).
  split; cbn; rewrite ?E1, ?E2, ?length_fmap; try done.
  - left. by destruct Hq.
  - by rewrite running_broadcast.
  - by rewrite orb_true_r.
  - intros _. by left.
  - intros _. apply broadcast_parked.
  - by rewrite running_broadcast.
  - intros _. by right.
  - intros k Hk. by apply E4 in Hk.
Qed.

Lemma vinv_step y y' : (0 < started)%nat -> vinv y -> step y y' -> vinv y'.
Proof.
  intros Hn Hinv Hst. destruct Hst.
  - by eapply vinv_take.
  - by apply vinv_after.
  - pose proof (vinv_sub [] (SSubmit j) todo bad _ _ _ _ _ _ _ _ _ Hinv) as H. rewrite !app_nil_r in H. apply H; done.
  - apply (vinv_sub todo SNext [] true _ _ _ _ _ _ _ _ _ Hinv); done.
  - pose proof (vinv_sub [] (SSpace j) todo bad _ _ _ _ _ _ _ _ _ Hinv) as H'. rewrite !app_nil_r in H'.
    apply H'; try done; try (by destruct H; subst). intros k _. destruct (vi_queued _ Hinv) as [E|E]; cbn in E; [split; [lia|done]|by destruct H; subst].
  - assert (Hsh : shut = false -> vp_stop b = false).
    { intros ->. pose proof (vi_stop _ Hinv) as E. cbn in E. rewrite E. destruct H; subst; cbn; destruct ask eqn:Ea; try done;
        by pose proof (vi_asked _ Hinv eq_refl). }
    apply (vinv_sub [j] SNext todo true _ _ _ _ _ _ _ _ _ Hinv); try done.
    + destruct H; subst; cbn; perm.
    + by destruct H; subst.
    + intros E. rewrite E, (Hsh E) in H0. done.
  - by eapply vinv_push.
  - by apply vinv_stop.
  - by apply vinv_join.
  - by apply vinv_shutdown.
  - by apply vinv_request.
Qed.

Lemma vinv_reach y : 0 <= limit -> (0 < started)%nat -> rtc step (vsys0 started input) y -> vinv y.
Proof.
  intros Hl Hn Hr. assert (H0 : vinv (vsys0 started input)) by (by apply vinv_init).
  induction Hr as [|y1 y2 y3 Hst _ IH]; [done|]. apply IH. by eapply vinv_step.
Qed.

(** * Progress and termination *)

#[local] Instance checker_gone_dec (w : worker J) : Decision (gone w) := gone_dec w.

Lemma checker_step b ws p todo dn dr bad shut ask :
  ~ Forall gone ws -> exists y', step (VSys b ws p todo dn dr bad shut ask) y'.
Proof.
  intros Hn. apply (not_Forall_Exists gone) in Hn.
  apply list.Exists_exists in Hn as (w & (i & Hi)%list_elem_of_lookup_1 & Hg).
  destruct w; [eexists; by eapply vs_take; [|left]|by destruct Hg; left|eexists; by eapply vs_take; [|right]
    |eexists; by eapply vs_after|by destruct Hg; right].
Qed.
Lemma vsubmit_step p j b ws todo dn dr bad shut ask :
  vsubmitting p j -> exists y', step (VSys b ws p todo dn dr bad shut ask) y'.
Proof.
  intros Hp. destruct (vp_stop b || shut) eqn:E; [eexists; by eapply vs_refuse|]. apply orb_false_iff in E as [Es ->].
  destruct (decide (limit <= vp_queued b)); [eexists; by eapply vs_full|].
  destruct (parked_dec ws) as [[i Hi]|Hno].
  - eexists. eapply vs_push; [done|lia|done|by apply work_hit].
  - eexists. eapply vs_push; [done|lia|done|by apply work_lost].
Qed.

Lemma vpool_progress y :
  1 <= limit -> intr = false \/ hook = true -> vinv y -> q_sub y = SDone \/ exists y', step y y'.
Proof.
  intros Hlim Hih Hinv. destruct y as [b ws p todo dn dr bad shut ask]. destruct Hinv as [Hq Ha Hb Hlen Hst Hak Hsh Hex Hpk Htd Hdn Hin Hfl Hcl Haw Hsp].
  cbn in *. destruct p as [|j|j|j| |]; [right..|by left].
  - destruct todo; eexists; [apply vs_stop|apply vs_next].
  - eapply vsubmit_step. by left.
  - destruct (Hsp j eq_refl) as [Hf Hs]. destruct shut.
    + destruct Hih as [?|Hh]; [by rewrite Hsh in * by done|]. destruct ask; [by rewrite Hst in Hs|]. eexists. by apply vs_request.
    + apply checker_step. intros Hg. destruct (Haw Hg) as [El|?]; [|done]. rewrite El in Hf. change (zlen (@nil J)) with 0 in Hf. lia.
  - eapply vsubmit_step. by right.
  - rewrite Htd by done. destruct (decide (Forall gone ws)) as [Hg|Hg]; [|by apply checker_step].
    eexists. apply vs_join. apply Forall_lookup. intros i w Hi. destruct (Forall_lookup_1 _ _ _ _ Hg Hi) as [->|E]; [|done].
    destruct Hpk; [by rewrite Hst|]. by eapply list_elem_of_lookup_2.
Qed.

(** Steps left. *)
Definition sub_work p : nat :=
  match p with SNext => started + 2 | SSubmit _ | SSpaceWoken _ => started + 9 | SSpace _ => started + 8 | SJoin => 1 | SDone => 0 end.
Definition vwork y : nat :=
  8 * length (q_todo y) + sub_work (q_sub y) + 4 * length (vp_list (q_pool y)) + sum_list_with worker_work (q_workers y) +
  (if q_shut y then 0 else 1) + (if q_asked y then 0 else started + 2).

Lemma vwork_step y y' : length (q_workers y) = started -> step y y' -> (vwork y' < vwork y)%nat.
Proof.
  intros Hlen Hst. unfold vwork. destruct Hst; cbn [q_pool q_workers q_sub q_todo q_shut q_asked vp_list vpool_after vpool_stop vpool_clear] in *.
  - unfold vpool_take. destruct (vp_list b) as [|j l] eqn:El; [|destruct shut]; cbn [q_pool q_workers q_sub q_todo q_shut q_asked vp_list] in *; rewrite ?El.
    + pose proof (work_at ws i w (if vp_stop b then WExit else WParked) H). cbn [length].
      assert (worker_work (if vp_stop b then @WExit J else WParked) = 0)%nat by (by destruct (vp_stop b)).
      destruct H0; subst; cbn [worker_work] in *; lia.
    + pose proof (work_at ws i w WExit H). destruct H0; subst; cbn [worker_work length] in *; lia.
    + pose proof (work_at ws i w (WRun j) H). assert (sub_work (vspace_signal p) <= sub_work p + 1)%nat by (destruct p; cbn; lia).
      destruct H0; subst; cbn [worker_work length] in *; lia.
  - pose proof (work_at ws i _ WIdle H). cbn [worker_work] in *. lia.
  - cbn [sub_work length]. lia.
  - destruct todo; [done|]. cbn [length]. lia.
  - destruct H; subst; cbn [sub_work]; lia.
  - destruct H; subst; cbn [sub_work]; lia.
  - cbn [vpool_push vp_list]. rewrite length_app. cbn [length].
    assert (sum_list_with worker_work ws' <= sum_list_with worker_work ws + 1)%nat.
    { destruct H2 as [ws i Hi|]; [|lia]. pose proof (work_at ws i _ WWoken Hi). cbn [worker_work] in *. lia. }
    destruct H; subst; cbn [sub_work]; lia.
  - pose proof (work_broadcast ws). cbn [sub_work]. lia.
  - cbn [sub_work length]. lia.
  - lia.
  - pose proof (work_broadcast ws). assert (sub_work (vspace_signal p) <= sub_work p + 1)%nat by (destruct p; cbn; lia). lia.
Qed.

Lemma vwork_run k y :
  (0 < started)%nat -> 0 <= limit -> nsteps step k (vsys0 started input) y -> (k + vwork y <= vwork (vsys0 started input))%nat.
Proof.
  intros Hn Hl. revert y. induction k as [|k IH]; intros y Hr; [inversion Hr; lia|].
  apply nsteps_inv_r in Hr as (z & Hz & Hst). specialize (IH z Hz).
  assert (Hinv : vinv z) by (by eapply vinv_reach, rtc_nsteps_2).
  pose proof (vwork_step z y (vi_len _ Hinv) Hst). lia.
Qed.
End pool.

(** C26.  The verification pool does what it is asked to. However checkers,
    submitter and interruption interleave: the queue never exceeds its bound,
    every item is verified or dropped, once, and a drop only happens after an
    interruption; at the end nothing is left behind, and without an interruption
    every item has been verified exactly once and the verdict is success exactly
    if none failed. *)
Theorem verify_pool_verdict {J} (fails : J -> bool) intr hook limit started input (y : vsys J) :
  1 <= limit -> (0 < started)%nat -> rtc (vstep fails intr hook limit) (vsys0 started input) y ->
  zlen (vp_list (q_pool y)) <= limit /\
  input ≡ₚ q_done y ++ running (q_workers y) ++ vp_list (q_pool y) ++ vheld (q_sub y) ++ q_todo y ++ q_dropped y /\
  (q_shut y = false -> q_dropped y = []) /\
  (q_sub y = SDone -> input ≡ₚ q_done y ++ q_dropped y /\ vverdict y = negb (q_bad y) && forallb (fun j => negb (fails j)) (q_done y) /\
     (q_shut y = false -> q_done y ≡ₚ input /\ vverdict y = forallb (fun j => negb (fails j)) input)).
Proof.
  intros Hl Hn Hr. pose proof (vinv_reach fails intr hook limit started input y ltac:(lia) Hn Hr) as [Hq Ha Hb Hlen Hst Hak Hsh Hex Hpk Htd Hdn Hin Hfl Hcl Haw Hsp].
  assert (Hv : vverdict y = negb (q_bad y) && forallb (fun j => negb (fails j)) (q_done y)).
  { unfold vverdict. rewrite Hfl. f_equal. clear. induction (q_done y) as [|j l IH]; [done|]. cbn. by rewrite negb_orb, IH. }
  split_and!; [done|done|intros E; by apply Hcl|]. intros E. destruct (Hdn E) as [Hall El].
  assert (Er : running (q_workers y) = []) by (clear -Hall; induction Hall as [|w ws <- _ IH]; [done|exact IH]).
  rewrite Er, El, E in Hin. cbn in Hin. rewrite (Htd ltac:(by rewrite E)) in Hin. cbn in Hin.
  split_and!; [done|done|]. intros Es. destruct (Hcl Es) as [Ed Eb]. rewrite Ed, app_nil_r in Hin. split; [done|]. rewrite Hv, Eb. cbn [negb andb].
  apply eq_bool_prop_intro. rewrite !forallb_True. by rewrite Hin.
Qed.

(** The verification pool finishes: when it is not interrupted, or when the
    stop request reaches it, no run has more than eight steps per item, three per
    checker and five, and a run that cannot go on has ended. *)
Theorem verify_pool_finishes {J} (fails : J -> bool) intr hook limit started input k (y : vsys J) :
  1 <= limit -> (0 < started)%nat -> intr = false \/ hook = true -> nsteps (vstep fails intr hook limit) k (vsys0 started input) y ->
  (k <= 8 * length input + 3 * started + 5)%nat /\ (q_sub y = SDone \/ exists y', vstep fails intr hook limit y y').
Proof.
  intros Hl Hn Hih Hr. split.
  - pose proof (vwork_run fails intr hook limit started input k y Hn ltac:(lia) Hr) as Hk. unfold vsys0 in Hk. unfold vwork at 2 in Hk.
    cbn [q_pool q_workers q_sub q_todo q_shut q_asked vp_list length sub_work] in Hk. rewrite work_replicate in Hk. cbn [worker_work] in Hk. lia.
  - eapply vpool_progress; [done|done|]. by eapply vinv_reach, rtc_nsteps_2; [lia|..].
Qed.

(** * The interrupt *)

Section hang.
Context {J : Type} (fails : J -> bool) (limit : Z).
Abbreviation istep := (vstep fails true false limit).
Implicit Types (ws : list (worker J)) (js l todo : list J).

Definition busy ws : Prop := WParked ∉ ws.
Lemma busy_runs js : busy (WRun <$> js).
Proof. by intros (j & ? & _)%list_elem_of_fmap. Qed.
Lemma busy_app ws1 ws2 : busy ws1 -> busy ws2 -> busy (ws1 ++ ws2).
Proof. intros H1 H2 [?|?]%elem_of_app; [by apply H1|by apply H2]. Qed.
Lemma busy_idle n : busy (replicate n WIdle).
Proof. by intros [? _]%elem_of_replicate. Qed.

Lemma insert_mid {A} (l1 l2 : list A) x y : <[length l1 := y]> (l1 ++ x :: l2) = l1 ++ y :: l2.
Proof. rewrite insert_app_r_alt by lia. by rewrite Nat.sub_diag. Qed.
Lemma lookup_mid {A} (l1 l2 : list A) x : (l1 ++ x :: l2) !! length l1 = Some x.
Proof. rewrite lookup_app_r by lia. by rewrite Nat.sub_diag. Qed.

(** Every checker gets an item. *)
Lemma hang_give js rs a todo :
  1 <= limit -> busy rs ->
  rtc istep (VSys (VPool [] 0 a false false) (rs ++ replicate (length js) WIdle) SNext (js ++ todo) [] [] false false false)
    (VSys (VPool [] 0 (a + zlen js) false false) (rs ++ (WRun <$> js)) SNext todo [] [] false false false).
Proof.
  intros Hl. revert rs a. induction js as [|j js IH]; intros rs a Hb; [rewrite Z.add_0_r; apply rtc_refl|].
  cbn [app length replicate fmap list_fmap]. eapply rtc_l; [apply vs_next|].
  eapply rtc_l; [apply (vs_push _ _ _ _ _ j); [by left|cbn; lia|done|apply work_lost]|].
  { apply busy_app; [done|]. change (WIdle :: replicate (length js) WIdle) with (replicate (S (length js)) (@WIdle J)). apply busy_idle. }
  eapply rtc_l; [apply (vs_take _ _ _ _ (length rs) WIdle); [apply lookup_mid|by left]|]. cbn.
  rewrite insert_mid. specialize (IH (rs ++ [WRun j]) (a + 1)). rewrite <- !(assoc_L (++)) in IH. rewrite zlen_cons.
  replace (a + (1 + zlen js)) with (a + 1 + zlen js) by lia. apply IH. apply busy_app; [done|]. by intros ?%list_elem_of_singleton.
Qed.
(** The queue fills up. *)
Lemma hang_fill js l ws a todo :
  busy ws -> zlen l + zlen js <= limit ->
  rtc istep (VSys (VPool l (zlen l) a false false) ws SNext (js ++ todo) [] [] false false false)
    (VSys (VPool (l ++ js) (zlen (l ++ js)) a false false) ws SNext todo [] [] false false false).
Proof.
  intros Hb. revert l. induction js as [|j js IH]; intros l Hl; [rewrite app_nil_r; apply rtc_refl|].
  rewrite zlen_cons in Hl. pose proof (zlen_nonneg js). cbn [app]. eapply rtc_l; [apply vs_next|].
  eapply rtc_l; [apply (vs_push _ _ _ _ _ j); [by left|cbn; lia|done|by apply work_lost]|].
  specialize (IH (l ++ [j])). rewrite <- (assoc_L (++)) in IH. cbn [vpool_push vp_list vp_queued vp_active vp_stop vp_failed app] in *.
  assert (E : zlen (l ++ [j]) = zlen l + 1) by (rewrite zlen_app; done). rewrite E in IH. apply IH. lia.
Qed.
(** After the interrupt every checker finishes its item and leaves. *)
Lemma hang_leave js es l q a fl p todo dn :
  l <> [] ->
  exists fl', rtc istep (VSys (VPool l q a false fl) (es ++ (WRun <$> js)) p todo dn [] false true false)
    (VSys (VPool l q (a - zlen js) false fl') (es ++ replicate (length js) WExit) p todo (dn ++ js) [] false true false).
Proof.
  intros Hl. revert es a fl dn. induction js as [|j js IH]; intros es a fl dn; [exists fl; cbn; rewrite Z.sub_0_r, !app_nil_r; apply rtc_refl|].
  destruct (IH (es ++ [WExit]) (a - 1) (fl || fails j) (dn ++ [j])) as [fl' Hr]. exists fl'. cbn [fmap list_fmap length replicate].
  eapply rtc_l; [apply (vs_after _ _ _ _ (length es) j); apply lookup_mid|]. rewrite insert_mid. cbn.
  eapply rtc_l; [apply (vs_take _ _ _ _ (length es) WIdle); [apply lookup_mid|by left]|]. unfold vpool_take. cbn [vp_list].
  destruct l as [|x l]; [done|]. cbn. rewrite insert_mid. rewrite <- !(assoc_L (++)) in Hr. rewrite zlen_cons.
  replace (a - (1 + zlen js)) with (a - 1 - zlen js) by lia. exact Hr.
Qed.

(** Nobody can move: the checkers are gone and the submitter sleeps. *)
Lemma hang_stuck b n j todo dn dr bad y :
  ~ istep (VSys b (replicate n WExit) (SSpace j) todo dn dr bad true false) y.
Proof.
  intros H. inversion H; subst; try done.
  all: try match goal with Hi : replicate _ _ !! _ = Some _ |- _ => apply lookup_replicate_1 in Hi as [? _]; subst end.
  all: unfold vsubmitting in *; naive_solver.
Qed.
End hang.

(** An interrupt can hang the verification: for a pool that the stop request
    does not reach, [verify_run_tree]'s and [run_pool_list]'s own, an interrupt
    while the checkers are busy and the queue is full lets every checker leave
    without a signal to the submitting thread, which sleeps for good. *)
Theorem verify_pool_interrupt_hangs {J} (fails : J -> bool) limit started (input : list J) :
  1 <= limit -> limit + Z.of_nat started + 1 <= zlen input ->
  exists y, rtc (vstep fails true false limit) (vsys0 started input) y /\ q_shut y = true /\ q_sub y <> SDone /\
    forall y', ~ vstep fails true false limit y y'.
Proof.
  intros Hl Hn. assert (Hs : exists js fill j todo, input = js ++ fill ++ j :: todo /\ length js = started /\ length fill = Z.to_nat limit).
  { unfold zlen in Hn. destruct (drop (started + Z.to_nat limit) input) as [|j todo] eqn:E.
    { apply (f_equal length) in E. rewrite length_drop in E. simpl in E. lia. }
    exists (take started input), (take (Z.to_nat limit) (drop started input)), j, todo. split_and!.
    - rewrite <- E, <- drop_drop, take_drop. by rewrite take_drop.
    - rewrite length_take. lia.
    - rewrite length_take, length_drop. lia. }
  destruct Hs as (js & fill & j & todo & -> & Ej & Ef).
  destruct (hang_leave fails limit js [] fill (zlen fill) (0 + zlen js) false (SSpace j) todo []) as [fl' Hleave].
  { intros ->. simpl in Ef. lia. }
  eexists. split; [|split; [|split; [|intros y'; apply hang_stuck]]].
  - unfold vsys0. rewrite <- Ej. etrans; [apply (hang_give fails limit js [] 0); [done|by intros ?%not_elem_of_nil]|]. cbn [app].
    etrans; [apply (hang_fill fails limit fill [] (WRun <$> js) (0 + zlen js) (j :: todo)); [apply busy_runs|unfold zlen; simpl; lia]|]. cbn [app].
    eapply rtc_l; [apply vs_next|]. eapply rtc_l; [apply (vs_full _ _ _ _ _ j); [by left|cbn; unfold zlen; lia|done]|].
    eapply rtc_l; [by apply vs_shutdown|]. exact Hleave.
  - done.
  - done.
Qed.

(** ** Small runs *)

(** One checker and one item, which fails. *)
Lemma one_item : exists y, nsteps (vstep (fun n => bool_decide (n = 1%nat)) false false 16) 7 (vsys0 1 [1%nat]) y /\ q_sub y = SDone /\ vverdict y = false /\ q_shut y = false.
Proof.
  eexists. split; [|split; [|split]].
  - eapply nsteps_l; [apply vs_next|]. eapply nsteps_l.
    { eapply (vs_push _ _ _ _ _ 1%nat); [by left|cbn; lia|done|apply work_lost]. by intros ?%list_elem_of_singleton. }
    eapply nsteps_l; [apply (vs_take _ _ _ _ 0 WIdle); [done|by left]|]. cbn.
    eapply nsteps_l; [by apply (vs_after _ _ _ _ 0 1%nat)|]. cbn.
    eapply nsteps_l; [apply vs_stop|]. cbn.
    eapply nsteps_l; [apply (vs_take _ _ _ _ 0 WIdle); [done|by left]|]. cbn.
    eapply nsteps_l; [apply vs_join; by constructor|]. apply nsteps_O.
  - done.
  - done.
  - done.
Qed.
Lemma verify_pool_verdict_witness : exists y, q_done y ≡ₚ [1%nat] /\ vverdict (J := nat) y = false.
Proof.
  destruct one_item as (y & Hr & Hd & Hv & Hs). exists y. split; [|exact Hv].
  destruct (verify_pool_verdict (fun n => bool_decide (n = 1%nat)) false false 16 1 [1%nat] y) as (_ & _ & _ & H);
    [lia|lia|by eapply rtc_nsteps_2|]. destruct (H Hd) as (_ & _ & H'). by apply H'.
Defined.
Lemma verify_pool_finishes_witness : exists y, nsteps (vstep (fun n => bool_decide (n = 1%nat)) false false 16) 7 (vsys0 1 [1%nat]) y /\ (7 <= 8 * 1 + 3 * 1 + 5)%nat.
Proof.
  destruct one_item as (y & Hr & _). exists y. split; [exact Hr|].
  destruct (verify_pool_finishes (fun n => bool_decide (n = 1%nat)) false false 16 1 [1%nat] 7 y) as [H _]; [lia|lia|by left|exact Hr|]. exact H.
Defined.
(** The smallest pool: one checker, sixteen slots, eighteen files. *)
Lemma verify_pool_interrupt_hangs_witness :
  exists y, rtc (vstep (fun _ : nat => false) true false (pool_limit 1)) (vsys0 1 (seq 0 18)) y /\ q_sub y <> SDone.
Proof.
  destruct (verify_pool_interrupt_hangs (fun _ : nat => false) (pool_limit 1) 1 (seq 0 18)) as (y & H1 & _ & H2 & _); [by vm_compute|by vm_compute|].
  exists y. split; [exact H1|exact H2].
Defined.
