(* ===== verification/Traversal.v ===== *)
(** The traversal of a copy (src/traversal.c): target directories, the batches
    of files with their existence check, symbolic links, the records of
    directories and the pass that gives every directory its metadata.

    What the traversal asks of the other components is a type class,
    [services]: the copy workers, the registry of hard links, verification and
    the SSH transport, over a state of theirs. The callbacks are a consumer of
    the walker of DirNode.v. The two locks are implicit, the statistics are left
    out, and diagnostics carry their subject only. *)

From S2P Require Export DirNode FsUtil EnvUtil.
From S2P Require Export Hardlinks.
From S2P Require Export Dirwalk.
From S2P Require Edelete.
From stdpp Require Import list.
#[local] Open Scope Z_scope.

(** * Other components *)

(** A destination's state as both backends report it: mode, size and
    modification time. *)
Definition dstate : Type := Z * Z * timespec.

(** Results: [false] is a failure. *)
Class services (X : Type) := {
  svc_note : stat -> bytes -> M posix X hl_result;                         (* hardlinks_note *)
  svc_enqueue : dir_handle -> list (bytes * stat) -> M posix X bool;       (* workers_enqueue_batch *)
  svc_release : dir_handle -> M posix X unit;                              (* dir_handle_release, shared with the workers *)
  svc_verify_file : bytes -> bytes -> stat -> bool -> bool -> M posix X bool;   (* verify_queue_file *)
  svc_verify_dir : bytes -> bytes -> stat -> M posix X bool;               (* verify_queue_directory *)
  svc_stat_bulk : bytes -> list bytes -> M posix X (option (list (option dstate)));   (* sshx_stat_bulk *)
  svc_setmeta : bytes -> stat -> bool -> M posix X bool;                   (* sshx_setmeta *)
  svc_symlink : bytes -> bytes -> stat -> M posix X bool;                  (* sshx_symlink *)
  svc_mkdir : bytes -> Z -> M posix X bool                                 (* sshx_mkdir *)
}.

(** * State *)

(** [dir_record_t]. *)
Record trav_rec := TravRec { tr_src : bytes; tr_dst : bytes; tr_st : stat; tr_depth : Z }.

(** [trav_dir_t]: the batch is its first [n] entries. *)
Record trav_dir := TravDir { td_handle : dir_handle; td_batch : list (bytes * stat); td_saw_file : bool; td_remote : bool }.

(** [file_scratch_t]: which of the thread's arrays are allocated. *)
Record file_scratch := Scratch { sc_batch : bool; sc_names : bool; sc_present : bool; sc_dst_st : bool }.

(** g_status, the finalize list with its capacity, the thread's scratch, the
    state of fs_util.c, that of the services, and the directory being
    processed. *)
Record trav (X : Type) := Trav {
  t_status : bool; t_dirs : list trav_rec; t_cap : Z; t_scratch : file_scratch; t_fsu : fsu; t_svc : X; t_dir : option trav_dir
}.
Arguments Trav {X}.
Arguments t_status {X}.
Arguments t_dirs {X}.
Arguments t_cap {X}.
Arguments t_scratch {X}.
Arguments t_fsu {X}.
Arguments t_svc {X}.
Arguments t_dir {X}.

Definition FILE_STAT_BATCH : Z := 512.
Definition NAME_ROOM : Z := 256.   (* sizeof(name) of file_entry_t *)

Section traversal.
Context {X : Type} `{services X}.
Context (env : fsenv) (remote verify_meta : bool) (src_root dst_root : bytes).
Abbreviation TM := (M posix (trav X)).

Definition set_dir (d : option trav_dir) (s : trav X) : trav X :=
  Trav (t_status s) (t_dirs s) (t_cap s) (t_scratch s) (t_fsu s) (t_svc s) d.
Definition mark_traversal_error : TM unit :=
  modify (fun s => Trav true (t_dirs s) (t_cap s) (t_scratch s) (t_fsu s) (t_svc s) (t_dir s)).
Definition tsay (line : bytes) : TM unit := call (eprintf line).

(** Programs of fs_util.c and of the services. *)
Definition fs {A} (c : FM A) : TM A := fun s =>
  prog_bind (fun '(a, u) => Ret (a, Trav (t_status s) (t_dirs s) (t_cap s) (t_scratch s) u (t_svc s) (t_dir s))) (c (t_fsu s)).
Definition svc {A} (c : M posix X A) : TM A := fun s =>
  prog_bind (fun '(a, x) => Ret (a, Trav (t_status s) (t_dirs s) (t_cap s) (t_scratch s) (t_fsu s) x (t_dir s))) (c (t_svc s)).

Definition dst_fresh : bool := copy_policy_destination_fresh (e_policy env).

(** [snprintf] into a buffer of [size] bytes that must hold all of it. *)
Definition copy_path_checked (size : Z) (s : bytes) : option bytes := if decide (size <= zlen s) then None else Some s.

(** The path below the source root, under the target root. *)
Definition dst_path_for (src : bytes) : option bytes := copy_path_checked PATH_MAX (dst_root ++ drop (length src_root) src).

Definition open_or_create_target_dir_path (path : bytes) (mode : Z) : TM (option Z) :=
  let create_mode := (mode &. o07777) |. S_IRUSR |. S_IWUSR |. S_IXUSR in
  let open_it :=
    fd ← call (open path (O_RDONLY |. O_DIRECTORY |. O_CLOEXEC |. O_NOFOLLOW) 0);
    match fd with Ok fd => mret (Some fd) | Err _ => tsay path;; mret None end in
  r ← call (lstat path);
  match r with
  | Ok st => if S_ISDIR (st_mode st) then open_it else tsay path;; mret None
  | Err e =>
      if decide (e = ENOENT) then
        m ← call (mkdir path create_mode);
        if (match m with Ok _ => true | Err e => bool_decide (e = EEXIST) end) then
          r ← call (lstat path);
          match r with
          | Err _ => tsay path;; mret None
          | Ok st => if S_ISDIR (st_mode st) then open_it else tsay path;; mret None
          end
        else tsay path;; mret None
      else tsay path;; mret None
  end.

(** * The finalize list *)

Definition record_directory_for_finalize (src dst : bytes) (st : stat) (depth : Z) : TM bool :=
  a ← call (malloc (zlen src + 1));
  b ← call (malloc (zlen dst + 1));
  if negb ((a : bool) && (b : bool)) then tsay (str "strdup");; mret false else
  cap ← gets t_cap;
  n ← gets (fun s => zlen (t_dirs s));
  let new_cap := if decide (cap = 0) then 1024 else cap * 2 in
  ok ← (if decide (n = cap) then call (malloc (new_cap * 176)) else mret true);
  if negb ok then tsay (str "realloc");; mret false else
  modify (fun s => Trav (t_status s) (t_dirs s ++ [TravRec src dst st depth]) (if decide (n = cap) then new_cap else cap)
                     (t_scratch s) (t_fsu s) (t_svc s) (t_dir s));;
  mret true.

(** * Files *)

Definition file_scratch_get : TM bool :=
  let incremental := negb dst_fresh in
  let put f := modify (fun s => Trav (t_status s) (t_dirs s) (t_cap s) (f (t_scratch s)) (t_fsu s) (t_svc s) (t_dir s)) in
  s ← gets t_scratch;
  ok ← (if sc_batch s then mret true else ok ← call (malloc 204800); put (fun s => Scratch ok (sc_names s) (sc_present s) (sc_dst_st s));; mret ok);
  if negb (ok : bool) then tsay (str "malloc");; mret false else
  ok ← (if incremental && negb (sc_present s) then
          a ← call (malloc 2048); b ← call (malloc 73728);
          put (fun s => Scratch (sc_batch s) (sc_names s) a b);; mret ((a : bool) && (b : bool))
        else mret true);
  if negb (ok : bool) then tsay (str "malloc");; mret false else
  ok ← (if incremental && remote && negb (sc_names s) then
          a ← call (malloc 4096); put (fun s => Scratch (sc_batch s) a (sc_present s) (sc_dst_st s));; mret a
        else mret true);
  if negb (ok : bool) then tsay (str "malloc");; mret false else mret true.

Definition join_under (parent name : bytes) : option bytes := path_join_fast parent name PATH_MAX.

(** What the batch's files are like at the destination: [Err] is -1. *)
Definition stat_one (h : dir_handle) (name : bytes) : TM (res (option dstate)) :=
  r ← call (fstatat (dh_dst_fd h) name AT_SYMLINK_NOFOLLOW);
  match r with
  | Ok st => mret (Ok (Some (st_mode st, st_size st, st_mtim st)))
  | Err e =>
      if decide (e = ENOENT) then mret (Ok None)
      else tsay (default (dh_dst h) (join_under (dh_dst h) name));; mret (Err e)
  end.
Fixpoint stat_each (h : dir_handle) (l : list (bytes * stat)) : TM (list (res (option dstate)) * bool) :=
  match l with
  | [] => mret ([], true)
  | (name, _) :: l =>
      r ← stat_one h name;
      '(rs, ok) ← stat_each h l;
      mret (r :: rs, is_ok r && ok)
  end.
(** The states, and whether all is well; nothing is asked when the
    destination is fresh. *)
Definition stat_destination_batch (d : trav_dir) (batch : list (bytes * stat)) : TM (list (res (option dstate)) * bool) :=
  if dst_fresh then mret ([], true) else
  if td_remote d then
    r ← svc (svc_stat_bulk (dh_dst (td_handle d)) (fst <$> batch));
    match r with
    | Some l => mret (Ok <$> l, true)
    | None => tsay (dh_dst (td_handle d));; mret ([], false)
    end
  else stat_each (td_handle d) batch.

(** One file of the batch: [Some true] is to be copied, [Some false] has been
    skipped, [None] has failed. *)
Definition classify_file (d : trav_dir) (name : bytes) (st : stat) (state : res (option dstate)) : TM (option bool) :=
  let h := td_handle d in
  match join_under (dh_src h) name, join_under (dh_dst h) name with
  | Some src_path, Some dst_path =>
      match (if dst_fresh then Ok None else state) with
      | Err _ => mret None
      | Ok None => mret (Some true)
      | Ok (Some (mode, size, mtim)) =>
          if negb (S_ISREG mode) then tsay dst_path;; mret None else
          if bool_decide (st_size st = size) && bool_decide (st_mtim st = mtim) then
            ok ← (if td_remote d then svc (svc_setmeta dst_path st false)
                  else fs (preserve_path_metadata_at env (dh_dst_fd h) name dst_path st S_IFREG));
            if negb (ok : bool) then mret None else
            ok ← svc (svc_verify_file src_path dst_path st true true);
            if (ok : bool) then mret (Some false) else tsay dst_path;; mret None
          else mret (Some true)
      end
  | _, _ => tsay (dh_src h);; mret None
  end.

(** The files to copy, in order, and whether none failed. *)
Fixpoint classify (d : trav_dir) (batch : list (bytes * stat)) (states : list (res (option dstate))) : TM (list (bytes * stat) * bool) :=
  match batch with
  | [] => mret ([], true)
  | (name, st) :: batch =>
      r ← classify_file d name st (default (Ok None) (head states));
      '(l, ok) ← classify d batch (tail states);
      mret (match r with Some true => (name, st) :: l | _ => l end, bool_decide (r <> None) && ok)
  end.

Definition flush_file_batch (d : trav_dir) : TM bool :=
  let batch := td_batch d in
  modify (set_dir (Some (TravDir (td_handle d) [] (td_saw_file d) (td_remote d))));;
  if decide (batch = []) then mret true else
  '(states, ok) ← stat_destination_batch d batch;
  if negb (ok : bool) && td_remote d then mret false else
  '(items, ok2) ← classify d batch states;
  ok3 ← (if decide (items = []) then mret true else svc (svc_enqueue (td_handle d) items));
  mret (ok && (ok2 : bool) && (ok3 : bool)).

(** * Symbolic links *)

Definition copy_symlink_entry (d : trav_dir) (name : bytes) (st : stat) : TM unit :=
  let h := td_handle d in
  r ← call (readlinkat (dh_src_fd h) name (PATH_MAX - 1));
  match r with
  | Err _ => tsay name;; mark_traversal_error
  | Ok target =>
      if decide (PATH_MAX - 1 <= zlen target) then tsay name;; mark_traversal_error else
      match join_under (dh_dst h) name with
      | None => tsay (dh_dst h);; mark_traversal_error
      | Some dst_path =>
          let target := cstr target in
          ok ← (if td_remote d then
                  ok ← svc (svc_symlink dst_path target st);
                  when (negb ok) (tsay dst_path);; mret ok
                else fs (symlink_recreate_at env (dh_dst_fd h) name target st));
          when (negb (ok : bool)) mark_traversal_error
      end
  end.

(** * The callbacks *)

(** A failing [walk_dir_begin] closes what it opened. *)
Definition close_if (fd : Z) : TM unit := when (bool_decide (0 <= fd)) (call (close fd);; mret tt).
Definition begin_fails : TM bool := mark_traversal_error;; mret false.

Definition walk_dir_begin (n : node) (dir_fd : Z) : TM bool :=
  let st := copy_policy_apply_id_override (e_policy env) (nd_st n) in
  match dst_path_for (nd_path n) with
  | None => tsay (nd_path n);; begin_fails
  | Some dst =>
      ok ← call (malloc 40);
      if negb ok then tsay (str "calloc");; begin_fails else
      ok ← file_scratch_get;
      if negb (ok : bool) then begin_fails else
      dst_fd ← (if remote then mret (Some (-1)) else open_or_create_target_dir_path dst (st_mode st &. o07777));
      match dst_fd with
      | None => begin_fails
      | Some dst_fd =>
          src_fd ← call (dup dir_fd);
          match src_fd with
          | Err _ => tsay (nd_path n);; close_if dst_fd;; begin_fails
          | Ok src_fd =>
              h ← fs (dir_handle_create (nd_path n) dst src_fd dst_fd);
              match h with
              | None => call (close src_fd);; close_if dst_fd;; begin_fails
              | Some h =>
                  ok ← record_directory_for_finalize (nd_path n) dst st (nd_depth n);
                  if negb (ok : bool) then fs (dir_handle_release h);; begin_fails else
                  modify (set_dir (Some (TravDir h [] false remote)));;
                  mret true
              end
          end
      end
  end.

(** [d->s->batch[d->n++]], and a flush when the batch is full. *)
Definition add_file (d : trav_dir) (name : bytes) (st : stat) : TM unit :=
  let d := TravDir (td_handle d) (td_batch d ++ [(name, st)]) true (td_remote d) in
  modify (set_dir (Some d));;
  if decide (zlen (td_batch d) = FILE_STAT_BATCH) then
    ok ← flush_file_batch d; when (negb ok) mark_traversal_error
  else mret tt.

(** [true] is DIRWALK_DESCEND. The walker always passes the metadata: this
    consumer does not ask for lazy stat. *)
Definition walk_entry (n : node) (dir_fd : Z) (name : bytes) (st_in : option stat) : TM bool :=
  d ← gets t_dir;
  match d, st_in with
  | Some d, Some st_in =>
      let st := copy_policy_apply_id_override (e_policy env) st_in in
      if S_ISDIR (st_mode st) then
        mret (negb (negb (td_remote d) &&
                    match join_under (nd_path n) name with Some child => path_is_under_root child dst_root | None => false end))
      else if S_ISLNK (st_mode st) then copy_symlink_entry d name st;; mret false
      else if negb (S_ISREG (st_mode st)) then mret false
      else if decide (NAME_ROOM <= zlen name) then tsay name;; mark_traversal_error;; mret false
      else if decide (1 < st_nlink st) then
        match join_under (dh_dst (td_handle d)) name with
        | None => tsay (dh_dst (td_handle d));; mark_traversal_error;; mret false
        | Some dst_path =>
            hr ← svc (svc_note st dst_path);
            if decide (hr = HL_SECONDARY) then mret false else
            when (bool_decide (hr = HL_ERROR)) mark_traversal_error;;
            add_file d name st;; mret false
        end
      else add_file d name st;; mret false
  | _, _ => stuck
  end.

Definition walk_dir_end (n : node) (dir_fd : Z) (failed : bool) : TM unit :=
  d ← gets t_dir;
  match d with
  | None => stuck
  | Some d =>
      when failed mark_traversal_error;;
      ok ← flush_file_batch d;
      when (negb ok) mark_traversal_error;;
      (if td_remote d && negb (td_saw_file d) then
         ok ← svc (svc_mkdir (dh_dst (td_handle d)) (st_mode (nd_st n) &. o07777));
         when (negb ok) (tsay (dh_dst (td_handle d));; mark_traversal_error)
       else mret tt);;
      svc (svc_release (td_handle d));;
      modify (set_dir None)
  end.

Definition walk_error (path : bytes) : TM unit := mark_traversal_error.

Definition traversal_ops : dirwalk_ops (trav X) := DirwalkOps walk_dir_begin walk_entry walk_dir_end walk_error.

(** * Start, finalize, status *)

(** The configuration of the walk from the environment. *)
Definition traversal_workers (var : option bytes) : Z := env_int_or_default var 8 1 128.
Definition traversal_cfg (getdents_buf : option bytes) : dirwalk_cfg :=
  let v := env_int_or_default getdents_buf 262144 0 (64 * 1024 * 1024) in
  DirwalkCfg (if bool_decide (0 < v) && bool_decide (v < 4096) then 4096 else v) true false.

(** What happens before [dirwalk_start]: the root's metadata for it, or [None]. *)
Definition traversal_start (src_dir dst_dir : bytes) : TM (option stat) :=
  modify (fun s => Trav false [] 0 (t_scratch s) (t_fsu s) (t_svc s) (t_dir s));;
  match copy_path_checked PATH_MAX src_dir, copy_path_checked PATH_MAX dst_dir with
  | Some src, Some _ =>
      r ← call (lstat src);
      match r with
      | Err _ => tsay src;; mret None
      | Ok st => if negb (S_ISDIR (st_mode st)) then tsay src;; mret None
                 else mret (Some (copy_policy_apply_id_override (e_policy env) st))
      end
  | _, _ => tsay src_dir;; mret None
  end.

Definition finalize_one (r : trav_rec) : TM bool :=
  ok ← (if remote then svc (svc_setmeta (tr_dst r) (tr_st r) true) else fs (preserve_path_metadata env (tr_dst r) (tr_st r)));
  if (ok : bool) && verify_meta then svc (svc_verify_dir (tr_src r) (tr_dst r) (tr_st r)) else mret ok.

End traversal.

(** [qsort]'s order: deepest first, then by target path. *)
Definition dir_record_cmp_desc_depth (a b : trav_rec) : comparison :=
  if decide (tr_depth a = tr_depth b) then Edelete.strcmp (tr_dst a) (tr_dst b) else Z.compare (tr_depth b) (tr_depth a).

(** The pass over the sorted list: [fn] is [finalize_one], [barrier] what
    [finalize_barrier] answers after a group. *)
Definition finalize_groups (sorted : list trav_rec) (workers : nat) (fn barrier : nat -> bool) (alloc : nat -> bool) (creatable : nat -> nat) : list (list nat) * bool :=
  depth_groups (length sorted) workers (fun i => default 0 (tr_depth <$> sorted !! i)) false None fn barrier alloc creatable.
Definition finalize_directories_parallel (sorted : list trav_rec) (workers : nat) (fn : nat -> bool) (first : bool) (barrier : nat -> bool)
    (alloc : nat -> bool) (creatable : nat -> nat) : list (list nat) * bool :=
  if decide (sorted = []) then ([], true) else
  if negb first then ([], false) else finalize_groups sorted workers fn barrier alloc creatable.
