(* ===== verification/TraversalOk.v ===== *)
(** What the traversal of a copy promises: which files of a directory reach the
    copy workers and which are skipped, and the order in which directories get
    their metadata. *)

From Stdlib Require Import Sorted.
From S2P Require Export Traversal.
From stdpp Require Import list.
#[local] Open Scope Z_scope.

(** * Services that keep a record

    Every service appends what it was asked to a log; [fate] says, from the log,
    whether it succeeds, [note] is the answer of the registry of hard links, and
    [target] what is at the destination under each name. *)
Inductive tevent :=
| ev_note (st : stat) (dst : bytes)
| ev_enqueue (h : dir_handle) (files : list (bytes * stat))
| ev_release (h : dir_handle)
| ev_verify (src dst : bytes) (st : stat)
| ev_verify_dir (src dst : bytes) (st : stat)
| ev_bulk (dir : bytes) (names : list bytes)
| ev_setmeta (path : bytes) (st : stat) (is_dir : bool)
| ev_symlink (path target : bytes)
| ev_mkdir (path : bytes) (mode : Z).
Definition tlog : Type := list tevent.

Definition record {A} (e : tevent) (answer : tlog -> A) : M posix tlog A := fun l => Ret (answer l, l ++ [e]).

Definition recording (fate : tlog -> bool) (note : stat -> bytes -> hl_result) (target : bytes -> option dstate) : services tlog := {|
  svc_note st dst := record (ev_note st dst) (fun _ => note st dst);
  svc_enqueue h l := record (ev_enqueue h l) fate;
  svc_release h := record (ev_release h) (fun _ => tt);
  svc_verify_file src dst st _ _ := record (ev_verify src dst st) fate;
  svc_verify_dir src dst st := record (ev_verify_dir src dst st) fate;
  svc_stat_bulk dir names := record (ev_bulk dir names) (fun l => if fate l then Some (target <$> names) else None);
  svc_setmeta path st is_dir := record (ev_setmeta path st is_dir) fate;
  svc_symlink path t st := record (ev_symlink path t) fate;
  svc_mkdir path mode := record (ev_mkdir path mode) fate
|}.

(** What a log says: the batches for the workers, the items for verification
    that were not copied, the handles given back. *)
Definition batches (l : tlog) : list (list (bytes * stat)) := omap (fun e => match e with ev_enqueue _ b => Some b | _ => None end) l.
Definition checked (l : tlog) : list (bytes * bytes * stat) := omap (fun e => match e with ev_verify a b c => Some (a, b, c) | _ => None end) l.
Definition released (l : tlog) : list dir_handle := omap (fun e => match e with ev_release h => Some h | _ => None end) l.
Definition obs (l : tlog) : list (list (bytes * stat)) * list (bytes * bytes * stat) * list dir_handle := (batches l, checked l, released l).

Lemma obs_snoc l e : obs (l ++ [e]) =
  (batches l ++ batches [e], checked l ++ checked [e], released l ++ released [e]).
Proof. unfold obs, batches, checked, released. by rewrite !omap_app. Qed.
Lemma obs_other l e : batches [e] = [] -> checked [e] = [] -> released [e] = [] -> obs (l ++ [e]) = obs l.
Proof. intros H1 H2 H3. by rewrite obs_snoc, H1, H2, H3, !app_nil_r. Qed.

Section directory.
Context (fate : tlog -> bool) (note : stat -> bytes -> hl_result) (target : bytes -> option dstate).
Context (env : fsenv) (remote verify_meta : bool) (src_root dst_root : bytes).
(** The names symbolic links may be made under, and the directories that may be
    made. *)
Context (links made : bytes -> Prop).
#[local] Instance log_services : services tlog := recording fate note target.
Abbreviation S := (trav tlog).
Abbreviation TM := (M posix S).

(** * The monitor

    No file is opened for writing or written, nothing is linked or removed but a
    temporary name; a symbolic link is made under one of [links] or under a
    temporary name and then moved to one of [links] in the same directory; a
    directory is only made if [made] says so; and the destination is as [target]
    says. *)

Definition NO_WRITES : Z := O_WRONLY |. O_CREAT |. O_TRUNC.
Definition look_pre R (e : posix R) : Prop :=
  match e with
  | write _ _ | pwrite _ _ _ | ftruncate _ _ | fallocate _ _ _ _ | copy_file_range _ _ _ _ _ | rename _ _ | unlink _ | link _ _ | linkat _ _ _ _ _ => False
  | symlinkat _ _ n => temp_name n \/ links n
  | renameat d n d' n' => d = d' /\ temp_name n /\ links n'
  | unlinkat _ n _ => temp_name n
  | mkdir p _ => made p
  | open _ fl _ | openat _ _ fl _ => has_bits fl NO_WRITES = false
  | _ => True
  end.
Definition look_adm R (e : posix R) : R -> Prop :=
  match e in posix R return R -> Prop with
  | fstatat _ name _ => fun r =>
      match r with
      | Ok st => target name = Some (st_mode st, st_size st, st_mtim st)
      | Err e => e = ENOENT -> target name = None
      end
  | _ => fun _ => True
  end.
Definition looking : monitor posix := Monitor unit (fun _ => look_pre) (fun _ => look_adm) (fun g _ _ _ => g) False.
Abbreviation W := looking.

(** ** fs_util.c under the monitor *)

Abbreviation runs := (completes W (S := fsu)).
Ltac runs_solve := repeat first [completes_step | progress unfold complain, close_].

Lemma note_chown_runs : runs note_chown_not_preserved.
Proof. unfold note_chown_not_preserved. runs_solve. Qed.
Lemma apply_owner_runs chown what st : (forall u g, look_pre _ (chown u g)) -> runs (apply_owner env chown what st).
Proof.
  intros Hc. unfold apply_owner. destruct (owner_matches_self _ _); [apply completes_ret|]. destruct (chown_ids _ _) as [u g].
  apply completes_bind; [case_decide; [|apply completes_ret]; apply completes_bind; [apply completes_call; intros ?; by apply Hc|intros ?; apply completes_ret]|intros cerr].
  pose proof note_chown_runs. runs_solve.
Qed.
Lemma preserve_fd_metadata_runs fd st : runs (preserve_fd_metadata env fd st).
Proof. unfold preserve_fd_metadata, preserve_fd_metadata_impl. apply completes_bind; [by apply apply_owner_runs|intros ok]. runs_solve. Qed.
Lemma preserve_path_metadata_runs dst st : runs (preserve_path_metadata env dst st).
Proof. unfold preserve_path_metadata. pose proof preserve_fd_metadata_runs. runs_solve. Qed.
Lemma preserve_path_metadata_at_runs fd name display st ty : runs (preserve_path_metadata_at env fd name display st ty).
Proof. unfold preserve_path_metadata_at. pose proof preserve_fd_metadata_runs. runs_solve. Qed.
Lemma apply_symlink_metadata_runs fd name st : runs (apply_symlink_metadata env fd name st).
Proof. unfold apply_symlink_metadata. apply completes_bind; [by apply apply_owner_runs|intros ok]. runs_solve. Qed.
Lemma make_temp_name_temp size (u : fsu) g :
  wpM W (make_temp_name size) u g (fun _ r _ => match r with Ok n => temp_name n | Err _ => True end).
Proof.
  unfold make_temp_name. wp_step. wp_step. wp_step. wp_step. case_decide; [done|]. wp_call pid Hpid. wp_step. by eexists.
Qed.
Lemma symlink_recreate_at_runs fd name t st : links name -> runs (symlink_recreate_at env fd name t st).
Proof.
  intros Hname. unfold symlink_recreate_at. cbv zeta. pose proof apply_symlink_metadata_runs as Hmeta.
  set (via := make_temp_name 256 ≫= _). assert (Hvia : runs via).
  { intros u g. subst via. apply wpM_bind. eapply wpM_mono; [apply make_temp_name_temp|]. cbn beta. intros g1 [n|e] u1 Hn; [|by apply wpM_bind, wpM_call].
    apply wpM_bind, wpM_call; [by left|]. intros [r|e] _; [|by apply wpM_bind, wpM_call].
    apply wpM_bind. eapply wpM_mono; [apply Hmeta|]. cbn beta. intros g2 [] u2 _. apply wpM_bind, wpM_call; [by split_and!|]. intros [r'|e] _; [done|].
    apply wpM_bind, wpM_call; [done|]. intros x _. by apply wpM_bind, wpM_call. }
  destruct (copy_policy_small_inplace _); [|done]. apply completes_bind; [apply completes_call; intros ?; by right|]. intros [r|e].
  - apply completes_bind; [apply Hmeta|]. intros []. apply completes_ret.
  - case_decide; [done|]. runs_solve.
Qed.
Lemma dir_handle_release_runs h : runs (dir_handle_release h).
Proof. unfold dir_handle_release. runs_solve. Qed.

(** ** The traversal under the monitor *)

(** Same status, directory and log (but for events of no interest). *)
Definition same (s s' : S) : Prop :=
  t_status s' = t_status s /\ t_dir s' = t_dir s /\ t_dirs s' = t_dirs s /\ obs (t_svc s') = obs (t_svc s).
#[local] Instance same_preorder : PreOrder same.
Proof. split; [by intros s|]. intros a b c (? & ? & ? & ?) (? & ? & ? & ?). split_and!; congruence. Qed.

Lemma fs_ok {A} (c : FM A) s g (Q : mstate W -> A -> S -> Prop) :
  runs c -> (forall g a s', same s s' -> Q g a s') -> wpM W (fs c) s g Q.
Proof. intros Hc HQ. unfold wpM, fs. apply wp_bind. eapply wp_mono; [apply Hc|]. intros g' [a u] _. by apply HQ. Qed.
Lemma svc_record_ok {A} e (f : tlog -> A) (s : S) g (Q : mstate W -> A -> S -> Prop) :
  Q g (f (t_svc s)) (Trav (t_status s) (t_dirs s) (t_cap s) (t_scratch s) (t_fsu s) (t_svc s ++ [e]) (t_dir s)) ->
  wpM W (svc (record e f)) s g Q.
Proof. done. Qed.
Lemma svc_other_ok {A} e (f : tlog -> A) (s : S) g (Q : mstate W -> A -> S -> Prop) :
  batches [e] = [] -> checked [e] = [] -> released [e] = [] ->
  (forall s', same s s' -> Q g (f (t_svc s)) s') -> wpM W (svc (record e f)) s g Q.
Proof. intros H1 H2 H3 HQ. apply svc_record_ok, HQ. split_and!; [done..|]. by apply obs_other. Qed.
Lemma tsay_ok line (s : S) g (Q : mstate W -> unit -> S -> Prop) : Q g tt s -> wpM W (tsay line) s g Q.
Proof. intros HQ. apply wpM_call; [done|]. by intros [] _. Qed.

(** * The existence check *)

Definition is_fresh : bool := dst_fresh env.
(** What [stat_destination_batch] should say. *)
Definition truth (batch : list (bytes * stat)) : list (res (option dstate)) :=
  if is_fresh then [] else (fun f => Ok (target f.1)) <$> batch.

Lemma stat_one_ok h name (s : S) g : wpM W (stat_one h name) s g (fun _ r s' => same s s' /\ (is_ok r = true -> r = Ok (target name))).
Proof.
  unfold stat_one. wp_call r Hr. destruct r as [st|e]; cbn [madm W looking look_adm] in Hr.
  - apply wpM_ret. split; [done|]. by rewrite Hr.
  - case_decide; [apply wpM_ret; split; [done|]; by rewrite Hr|]. apply wpM_bind, tsay_ok, wpM_ret. by split.
Qed.
Lemma stat_each_ok h batch (s : S) g :
  wpM W (stat_each h batch) s g (fun _ '(rs, ok) s' => same s s' /\ (ok = true -> rs = (fun f => Ok (target f.1)) <$> batch)).
Proof.
  revert s g. induction batch as [|[name st] batch IH]; intros s g; cbn [stat_each]; [by apply wpM_ret|].
  apply wpM_bind. eapply wpM_mono; [apply stat_one_ok|]. cbn beta. intros g1 r s1 [H1 Hr].
  apply wpM_bind. eapply wpM_mono; [apply IH|]. cbn beta. intros g2 [rs ok] s2 [H2 Hrs]. apply wpM_ret.
  split; [by etrans|]. intros [Ho1 Ho2]%andb_true_iff. rewrite Hr, Hrs by done. done.
Qed.
Lemma stat_destination_batch_ok d batch (s : S) g :
  wpM W (stat_destination_batch env d batch) s g (fun _ '(rs, ok) s' => same s s' /\ (ok = true -> rs = truth batch)).
Proof.
  unfold stat_destination_batch, truth, is_fresh. destruct (dst_fresh env); [by apply wpM_ret|]. destruct (td_remote d); [|apply stat_each_ok].
  apply wpM_bind, svc_other_ok; try done. intros s' Hs. destruct (fate _).
  - apply wpM_ret. split; [done|]. intros _. by rewrite <- !list_fmap_compose.
  - apply wpM_bind, tsay_ok, wpM_ret. by split.
Qed.

(** * What is copied and what is skipped *)

(** The file is copied: nothing of its size and modification time is there. *)
Definition needed (f : bytes * stat) : bool :=
  is_fresh || match target f.1 with
              | Some (mode, size, mtim) => negb (bool_decide (st_size f.2 = size) && bool_decide (st_mtim f.2 = mtim))
              | None => true
              end.
(** What stands in its place, if anything, is a regular file. *)
Definition replaceable (f : bytes * stat) : Prop :=
  is_fresh = false -> match target f.1 with Some (mode, _, _) => S_ISREG mode = true | None => True end.
Definition skip_item (h : dir_handle) (f : bytes * stat) : bytes * bytes * stat :=
  (default [] (join_under (dh_src h) f.1), default [] (join_under (dh_dst h) f.1), f.2).
Definition skipped (h : dir_handle) (fs : list (bytes * stat)) : list (bytes * bytes * stat) :=
  skip_item h <$> filter (fun f => needed f = false) fs.
Definition to_copy (fs : list (bytes * stat)) : list (bytes * stat) := filter (fun f => needed f = true) fs.

Lemma needed_app_copy fs1 fs2 : to_copy (fs1 ++ fs2) = to_copy fs1 ++ to_copy fs2.
Proof. apply filter_app. Qed.
Lemma skipped_app h fs1 fs2 : skipped h (fs1 ++ fs2) = skipped h fs1 ++ skipped h fs2.
Proof. unfold skipped. by rewrite filter_app, fmap_app. Qed.

(** [same] but for items given to verification. *)
Definition same_but (items : list (bytes * bytes * stat)) (s s' : S) : Prop :=
  t_status s' = t_status s /\ t_dir s' = t_dir s /\ t_dirs s' = t_dirs s /\ batches (t_svc s') = batches (t_svc s) /\
  checked (t_svc s') = checked (t_svc s) ++ items /\ released (t_svc s') = released (t_svc s).
Lemma same_same_but s s' : same s s' -> same_but [] s s'.
Proof. intros (? & ? & ? & Ho). unfold obs in Ho. unfold same_but. rewrite app_nil_r. split_and!; congruence. Qed.
Lemma same_but_trans l1 l2 s1 s2 s3 : same_but l1 s1 s2 -> same_but l2 s2 s3 -> same_but (l1 ++ l2) s1 s3.
Proof. intros (? & ? & ? & ? & H & ?) (? & ? & ? & ? & H' & ?). split_and!; try congruence. by rewrite H', H, (assoc_L (++)). Qed.

Lemma classify_file_ok d name st state (s : S) g :
  wpM W (classify_file env d name st state) s g (fun _ r s' => exists items, same_but items s s' /\
    (is_fresh = true \/ state = Ok (target name) ->
     match r with
     | Some b => b = needed (name, st) /\ replaceable (name, st) /\ items = if b then [] else [skip_item (td_handle d) (name, st)]
     | None => True
     end)).
Proof.
  unfold classify_file, skip_item, needed, replaceable, is_fresh. cbn [fst snd].
  assert (Hquiet : forall x (s : S) g, wpM W (tsay x;; mret None : TM (option bool)) s g (fun _ r s' => r = None /\ same_but [] s s')).
  { intros x s0 g0. apply wpM_bind, tsay_ok, wpM_ret. split; [done|]. by apply same_same_but. }
  destruct (join_under (dh_src (td_handle d)) name) as [src|]; [|eapply wpM_mono; [apply Hquiet|]; intros ? ? ? [-> ?]; by exists []].
  destruct (join_under (dh_dst (td_handle d)) name) as [dst|]; [|eapply wpM_mono; [apply Hquiet|]; intros ? ? ? [-> ?]; by exists []].
  cbn [default from_option id]. set (state' := if dst_fresh env then Ok None else state).
  assert (Hst : dst_fresh env = true \/ state = Ok (target name) -> state' = Ok (if dst_fresh env then None else target name)).
  { subst state'. destruct (dst_fresh env); [done|]. by intros [|]. }
  destruct state' as [[[[mode size] mtim]|]|e].
  - destruct (S_ISREG mode) eqn:Er; cbn [negb]; [|eapply wpM_mono; [apply Hquiet|]; intros ? ? ? [-> ?]; by exists []].
    destruct (bool_decide (st_size st = size) && bool_decide (st_mtim st = mtim)) eqn:Esame.
    + apply wpM_bind. apply (wpM_mono W _ _ _ (fun (_ : mstate W) (_ : bool) (s' : S) => same s s')).
      { destruct (td_remote d); [by apply svc_other_ok|]. apply fs_ok; [apply preserve_path_metadata_at_runs|done]. }
      intros g1 ok s1 H1. destruct ok; cbn [negb]; [|apply wpM_ret; exists []; split; [by apply same_same_but|done]].
      apply wpM_bind, svc_record_ok. set (s2 := Trav _ _ _ _ _ _ _).
      assert (H2 : same_but [(src, dst, st)] s s2).
      { eapply (same_but_trans []); [by apply same_same_but|]. unfold same_but, s2. cbn [t_status t_dir t_dirs t_svc].
        unfold batches, checked, released. rewrite !omap_app. cbn. by rewrite !app_nil_r. }
      destruct (fate _).
      * apply wpM_ret. exists [(src, dst, st)]. split; [done|]. intros Hx. specialize (Hst Hx).
        destruct (dst_fresh env); [done|]. injection Hst as Hst. rewrite <- Hst. by rewrite Esame.
      * apply wpM_bind, tsay_ok, wpM_ret. by exists [(src, dst, st)].
    + apply wpM_ret. exists []. split; [by apply same_same_but|]. intros Hx. specialize (Hst Hx).
      destruct (dst_fresh env); [done|]. injection Hst as Hst. rewrite <- Hst. by rewrite Esame.
  - apply wpM_ret. exists []. split; [by apply same_same_but|]. intros Hx. specialize (Hst Hx).
    destruct (dst_fresh env); [done|]. injection Hst as Hst. by rewrite <- Hst.
  - apply wpM_ret. exists []. split; [by apply same_same_but|done].
Qed.

Lemma classify_ok d batch states (s : S) g :
  wpM W (classify env d batch states) s g (fun _ '(l, ok) s' => exists items, same_but items s s' /\
    (states = truth batch -> ok = true -> l = to_copy batch /\ items = skipped (td_handle d) batch /\ Forall replaceable batch)).
Proof.
  revert states s g. induction batch as [|[name st] batch IH]; intros states s g; cbn [classify].
  { apply wpM_ret. exists []. split; [by apply same_same_but|done]. }
  apply wpM_bind. eapply wpM_mono; [apply classify_file_ok|]. cbn beta. intros g1 r s1 (i1 & H1 & Hr).
  apply wpM_bind. eapply wpM_mono; [apply IH|]. cbn beta. intros g2 [l ok] s2 (i2 & H2 & Hl). apply wpM_ret.
  exists (i1 ++ i2). split; [by eapply same_but_trans|]. intros Hst [Hb Hok]%andb_true_iff. apply bool_decide_eq_true in Hb.
  unfold truth in *. destruct r as [b|]; [|done]. destruct Hr as (-> & Hrep & ->).
  { destruct is_fresh; [by left|right]. by rewrite Hst. }
  destruct Hl as (-> & -> & Hall); [by destruct is_fresh; rewrite Hst|done|].
  unfold to_copy, skipped. rewrite !filter_cons. split_and!; [| |by constructor].
  - destruct (needed (name, st)) eqn:E; [by rewrite decide_True|by rewrite decide_False].
  - destruct (needed (name, st)) eqn:E; [by rewrite decide_False|by rewrite decide_True].
Qed.

(** The state after a flush: the batch is empty, and when all went well its
    files have been handed on or skipped. *)
Definition flushed (d : trav_dir) (ok : bool) (s s' : S) : Prop :=
  let batch := td_batch d in
  t_status s' = t_status s /\ t_dir s' = Some (TravDir (td_handle d) [] (td_saw_file d) (td_remote d)) /\ t_dirs s' = t_dirs s /\
  released (t_svc s') = released (t_svc s) /\
  (exists b, batches (t_svc s') = batches (t_svc s) ++ b /\
     (ok = true -> concat b = to_copy batch /\ checked (t_svc s') = checked (t_svc s) ++ skipped (td_handle d) batch /\
        Forall replaceable batch /\ Forall (fun b => b <> [] /\ zlen b <= zlen batch) b)).

Lemma to_copy_short batch : zlen (to_copy batch) <= zlen batch.
Proof. unfold to_copy, zlen. pose proof (length_filter (fun f => needed f = true) batch). lia. Qed.

Lemma flush_file_batch_ok d (s : S) g : wpM W (flush_file_batch env d) s g (fun _ ok s' => flushed d ok s s').
Proof.
  unfold flush_file_batch. cbv zeta. apply wpM_bind, wpM_modify. set (s0 := set_dir _ s).
  unfold flushed. case_decide as Hb.
  { apply wpM_ret. split_and!; try done. exists []. rewrite Hb, !app_nil_r. split; [done|]. intros _. split_and!; try done; constructor. }
  apply wpM_bind. eapply wpM_mono; [apply stat_destination_batch_ok|]. cbn beta. intros g1 [states ok] s1 [H1 Hst].
  destruct H1 as (T1 & D1 & L1 & O1). unfold obs in O1.
  destruct (negb ok && td_remote d) eqn:En.
  { apply wpM_ret. split_and!; [done|done|done|by injection O1|]. exists []. rewrite app_nil_r. by injection O1 as -> _ _. }
  apply wpM_bind. eapply wpM_mono; [apply classify_ok|]. cbn beta. intros g2 [items ok2] s2 (chk & (T2 & D2 & L2 & B2 & C2 & R2) & Hcl).
  assert (Hb2 : batches (t_svc s2) = batches (t_svc s)) by (rewrite B2; by injection O1).
  assert (Hc2 : checked (t_svc s2) = checked (t_svc s) ++ chk) by (rewrite C2; f_equal; by injection O1).
  assert (Hr2 : released (t_svc s2) = released (t_svc s)) by (rewrite R2; by injection O1).
  assert (Hd2 : t_dir s2 = t_dir s0) by congruence. assert (Hl2 : t_dirs s2 = t_dirs s) by (rewrite L2, L1; done). assert (Ht2 : t_status s2 = t_status s) by (rewrite T2, T1; done).
  apply wpM_bind. case_decide as Hi.
  - apply wpM_ret, wpM_ret. split_and!; [done|done|done|done|]. exists []. rewrite app_nil_r. split; [done|].
    rewrite !andb_true_iff. intros [[Ho Ho2] _]. destruct (Hcl (Hst Ho) Ho2) as (E1 & -> & Hrep). subst items. by rewrite <- E1; split_and!.
  - apply svc_record_ok, wpM_ret. cbn [t_status t_dir t_dirs t_svc]. unfold batches, checked, released in *. rewrite !omap_app. cbn [omap list_omap]. rewrite !app_nil_r.
    split_and!; [done|done|done|done|]. exists [items]. rewrite Hb2. split; [done|].
    rewrite !andb_true_iff. intros [[Ho Ho2] _]. destruct (Hcl (Hst Ho) Ho2) as (E1 & -> & Hrep). cbn [concat]. rewrite app_nil_r.
    split_and!; try done. constructor; [|constructor]. split; [done|]. rewrite E1. apply to_copy_short.
Qed.

(** * The entries of a directory *)

(** The file an entry stands for, unless it is a further name of an inode met
    before. *)
Definition file_of (h : dir_handle) (e : bytes * stat) : option (bytes * stat) :=
  let st := copy_policy_apply_id_override (e_policy env) e.2 in
  if S_ISDIR (st_mode st) || S_ISLNK (st_mode st) || negb (S_ISREG (st_mode st)) then None else
  if bool_decide (1 < st_nlink st) &&
     match join_under (dh_dst h) e.1 with Some p => bool_decide (note st p = HL_SECONDARY) | None => false end then None
  else Some (e.1, st).
Definition descends (n : node) (e : bytes * stat) : bool :=
  S_ISDIR (st_mode (copy_policy_apply_id_override (e_policy env) e.2)) &&
  negb (negb remote && match join_under (nd_path n) e.1 with Some child => path_is_under_root child dst_root | None => false end).

Context (ds : list trav_rec).
(** What holds after the entries [done], while no error has been recorded. *)
Definition good_batch (b : list (bytes * stat)) : Prop := b <> [] /\ zlen b <= FILE_STAT_BATCH.
Definition accounted (h : dir_handle) (files batch : list (bytes * stat)) (saw : bool) (log : tlog) : Prop :=
  exists past, files = past ++ batch /\ concat (batches log) = to_copy past /\ checked log = skipped h past /\
    Forall replaceable past /\ Forall good_batch (batches log) /\ saw = bool_decide (files <> []).
Definition progress (h : dir_handle) (files : list (bytes * stat)) (s : S) : Prop :=
  exists d, t_dirs s = ds /\ t_dir s = Some d /\ td_handle d = h /\ td_remote d = remote /\ zlen (td_batch d) < FILE_STAT_BATCH /\
    released (t_svc s) = [] /\ (t_status s = false -> accounted h files (td_batch d) (td_saw_file d) (t_svc s)).

(** A step that is of no interest to the files. *)
Definition aside (s s' : S) : Prop :=
  t_dir s' = t_dir s /\ t_dirs s' = t_dirs s /\ obs (t_svc s') = obs (t_svc s) /\ (t_status s' = false -> t_status s = false).
#[local] Instance aside_preorder : PreOrder aside.
Proof. split; [by intros s|]. intros a b c (? & ? & ? & ?) (? & ? & ? & ?). split_and!; [congruence..|auto]. Qed.
Lemma same_aside s s' : same s s' -> aside s s'.
Proof. intros (H1 & H2 & H3 & H4). split_and!; [done..|]. by rewrite H1. Qed.
Lemma accounted_obs h files batch saw log log' : obs log' = obs log -> accounted h files batch saw log -> accounted h files batch saw log'.
Proof. intros Ho (past & H1 & H2 & H3 & H4 & H5 & H6). exists past. injection Ho as E1 E2 _. by rewrite E1, E2. Qed.
Lemma progress_aside h files s s' : aside s s' -> progress h files s -> progress h files s'.
Proof.
  intros (Hd & Hl & Ho & Hs) (d & H0 & H1 & H2 & H3 & H4 & H5 & H6). exists d. rewrite Hd, Hl. injection Ho as E1 E2 E3. rewrite E3.
  split_and!; try done. intros Hf. eapply accounted_obs; [|by apply H6, Hs]. unfold obs. by rewrite E1, E2, E3.
Qed.
Lemma mark_error_ok (s : S) g (Q : mstate W -> unit -> S -> Prop) :
  (forall s', aside s s' -> t_status s' = true -> Q g tt s') -> wpM W mark_traversal_error s g Q.
Proof. intros HQ. apply wpM_modify, HQ; [|done]. by split_and!. Qed.
Lemma say_error_ok x (s : S) g (Q : mstate W -> unit -> S -> Prop) :
  (forall s', aside s s' -> t_status s' = true -> Q g tt s') -> wpM W (tsay x;; mark_traversal_error) s g Q.
Proof. intros HQ. by apply wpM_bind, tsay_ok, mark_error_ok. Qed.

Lemma copy_symlink_entry_ok d name st (s : S) g : (td_remote d = false -> links name) -> wpM W (copy_symlink_entry env d name st) s g (fun _ _ s' => aside s s').
Proof.
  intros Hname. unfold copy_symlink_entry. wp_call r Hr. clear Hr. destruct r as [t|e]; [|by apply say_error_ok].
  case_decide; [by apply say_error_ok|]. destruct (join_under _ _) as [p|]; [|by apply say_error_ok]. cbv zeta.
  apply wpM_bind. apply (wpM_mono W _ _ _ (fun (_ : mstate W) (_ : bool) (s' : S) => same s s')).
  - destruct (td_remote d) eqn:Erem.
    + apply wpM_bind, svc_other_ok; try done. intros s' Hs. apply wpM_bind. destruct (negb _); [by apply tsay_ok, wpM_ret|by apply wpM_ret, wpM_ret].
    + apply fs_ok; [by apply symlink_recreate_at_runs, Hname|done].
  - intros g' ok s' Hs. destruct ok; [by apply wpM_ret, same_aside|]. apply mark_error_ok. intros s2 H2 _. etrans; [by apply same_aside|done].
Qed.

(** ** Flushing and adding *)

(** A batch of at most [FILE_STAT_BATCH] files is flushed. *)
Lemma flush_progress h files d (s : S) g :
  t_dirs s = ds -> t_dir s = Some d -> td_handle d = h -> td_remote d = remote -> zlen (td_batch d) <= FILE_STAT_BATCH -> released (t_svc s) = [] ->
  (t_status s = false -> accounted h files (td_batch d) (td_saw_file d) (t_svc s)) ->
  wpM W (ok ← flush_file_batch env d; when (negb ok) mark_traversal_error : TM unit) s g (fun _ _ s' =>
    progress h files s' /\ t_dir s' = Some (TravDir h [] (td_saw_file d) remote)).
Proof.
  intros Hl Hd Hh Hr Hz Hrel Hacc. apply wpM_bind. eapply wpM_mono; [apply flush_file_batch_ok|]. cbn beta.
  intros g1 ok s1 (T1 & D1 & L1 & R1 & b & B1 & Hok). rewrite Hh, Hr in D1.
  assert (Hp : forall st, (st = false -> ok = true) -> (st = false -> t_status s = false) ->
    progress h files (Trav st (t_dirs s1) (t_cap s1) (t_scratch s1) (t_fsu s1) (t_svc s1) (t_dir s1))).
  { intros st Hst1 Hst2. exists (TravDir h [] (td_saw_file d) remote). cbn [t_dir t_dirs t_svc t_status td_batch td_handle td_remote td_saw_file].
    split_and!; [congruence|done|done|done|done|by rewrite R1|]. intros Hf. destruct (Hacc (Hst2 Hf)) as (past & E1 & E2 & E3 & E4 & E5 & E6).
    destruct (Hok (Hst1 Hf)) as (O1 & O2 & O3 & O4). exists (past ++ td_batch d). rewrite app_nil_r.
    rewrite needed_app_copy, skipped_app, B1, concat_app, E2, O1, O2, E3, Hh. split_and!; try done.
    - by apply Forall_app.
    - apply Forall_app. split; [done|]. eapply Forall_impl; [exact O4|]. intros x [Hx1 Hx2]. split; [done|]. lia. }
  destruct ok; cbn [negb when].
  - apply wpM_ret. split; [|done]. specialize (Hp (t_status s1)). destruct s1. apply Hp; [done|]. by rewrite T1.
  - apply wpM_modify. split; [|done]. by apply Hp.
Qed.

Lemma add_file_ok h files name st d (s : S) g :
  t_dir s = Some d -> progress h files s ->
  wpM W (add_file env d name st) s g (fun _ _ s' => progress h (files ++ [(name, st)]) s').
Proof.
  intros Hd (d' & H0 & H1 & H2 & H3 & H4 & H5 & H6). assert (d' = d) as -> by congruence. unfold add_file. cbv zeta. apply wpM_bind, wpM_modify.
  set (d1 := TravDir _ _ true _). set (s1 := set_dir _ s).
  assert (Hacc : t_status s1 = false -> accounted h (files ++ [(name, st)]) (td_batch d1) true (t_svc s1)).
  { intros Hs. destruct (H6 Hs) as (past & E1 & E2 & E3 & E4 & E5 & E6). exists past. split_and!; try done.
    - cbn. by rewrite E1, (assoc_L (++)).
    - symmetry. apply bool_decide_eq_true. by destruct files. }
  case_decide as Hfull.
  - eapply wpM_mono; [apply (flush_progress h (files ++ [(name, st)]))|]; try done; [lia|]. by intros ? ? ? [? _].
  - apply wpM_ret. exists d1. split_and!; try done. cbn [td_batch d1] in *. rewrite zlen_app in *. cbn in *. unfold zlen, FILE_STAT_BATCH in *. cbn in *. lia.
Qed.

Lemma trav_entry_ok n fd h files name st (s : S) g :
  (remote = false -> S_ISLNK (st_mode st) = true -> links name) -> progress h files s ->
  wpM W (walk_entry env dst_root n fd name (Some st)) s g (fun _ down s' =>
    progress h (files ++ option_list (file_of h (name, st))) s' /\ down = descends n (name, st)).
Proof.
  intros Hlink Hp. pose proof Hp as (d & _ & Hd & Hh & Hr & _). unfold walk_entry. apply wpM_bind, wpM_gets. rewrite Hd.
  unfold file_of, descends. cbn [fst snd]. set (st' := copy_policy_apply_id_override _ _). rewrite Hr.
  assert (Hno : progress h (files ++ []) s) by by rewrite app_nil_r.
  destruct (S_ISDIR _) eqn:Ed; cbn [orb andb]; [by apply wpM_ret|].
  assert (Hm : st_mode st = st_mode st') by (subst st'; by destruct st).
  rewrite Hm in Hlink. clear Hm. revert Hlink. destruct (S_ISLNK (st_mode st')) eqn:El; cbn [orb]; intros Hlink.
  { apply wpM_bind. eapply wpM_mono; [apply copy_symlink_entry_ok; intros Hrem; apply Hlink; [congruence|done]|]. cbn beta. intros g' [] s' Hs. apply wpM_ret. split; [by eapply progress_aside|done]. }
  destruct (S_ISREG _); cbn [negb]; [|by apply wpM_ret].
  assert (Hadd : forall (s1 : S) g1, aside s s1 -> wpM W (add_file env d name st';; mret false : TM bool) s1 g1
      (fun _ down s' => progress h (files ++ [(name, st')]) s' /\ down = false)).
  { intros s1 g1 Hs1. apply wpM_bind. eapply wpM_mono; [apply (add_file_ok h files)|].
    - destruct Hs1 as [-> _]. done.
    - by eapply progress_aside.
    - cbn beta. intros ? [] s2 H2. by apply wpM_ret. }
  assert (Herr : forall x fs, wpM W (tsay x;; mark_traversal_error;; mret false : TM bool) s g (fun _ down s' => progress h fs s' /\ down = false)).
  { intros x fs. apply wpM_bind, tsay_ok, wpM_bind, wpM_modify, wpM_ret. split; [|done].
    destruct Hp as (d' & H0 & H1 & H2 & H3 & H4 & H5 & H6). by exists d'. }
  case_decide; [apply Herr|]. case_decide as Hl; [rewrite bool_decide_true by done|rewrite bool_decide_false by done; by apply Hadd].
  rewrite Hh. destruct (join_under (dh_dst h) name) as [p|]; [|apply Herr]. cbn [andb].
  apply wpM_bind, svc_other_ok; try done. intros s1 H1%same_aside.
  destruct (decide (note st' p = HL_SECONDARY)) as [Hn|Hn]; [rewrite bool_decide_true by done|rewrite (bool_decide_false (note st' p = HL_SECONDARY)) by done].
  - apply wpM_ret. split; [|done]. by eapply progress_aside.
  - apply wpM_bind. destruct (bool_decide _).
    + apply mark_error_ok. intros s2 H2 _. apply Hadd. by etrans.
    + by apply wpM_ret, Hadd.
Qed.

(** The callbacks of one directory, in the walker's order: the entries, then the
    end, with a mark when reading the directory failed. The names returned are
    those to descend into. *)
Fixpoint walk_entries (n : node) (fd : Z) (es : list (bytes * stat)) : TM (list bytes) :=
  match es with
  | [] => mret []
  | (name, st) :: es =>
      down ← walk_entry env dst_root n fd name (Some st);
      l ← walk_entries n fd es;
      mret (if (down : bool) then name :: l else l)
  end.
Definition directory (n : node) (fd : Z) (es : list (bytes * stat)) (failed : bool) : TM (option (list bytes)) :=
  ok ← walk_dir_begin env remote src_root dst_root n fd;
  if (ok : bool) then
    l ← walk_entries n fd es;
    walk_dir_end env n fd failed;;
    mret (Some l)
  else mret None.

Lemma trav_entries_ok n fd h es files (s : S) g :
  (forall name st, (name, st) ∈ es -> remote = false -> S_ISLNK (st_mode st) = true -> links name) -> progress h files s ->
  wpM W (walk_entries n fd es) s g (fun _ l s' =>
    progress h (files ++ omap (file_of h) es) s' /\ l = fst <$> filter (fun e => descends n e = true) es).
Proof.
  revert files s g. induction es as [|[name st] es IH]; intros files s g Hlink Hp; cbn [walk_entries].
  { apply wpM_ret. by rewrite app_nil_r. }
  apply wpM_bind. eapply wpM_mono; [apply (trav_entry_ok n fd h files); [apply Hlink, list_elem_of_here|done]|]. cbn beta. intros g1 down s1 [H1 ->].
  apply wpM_bind. eapply wpM_mono; [apply IH; [intros ? ? Hin; by eapply Hlink, list_elem_of_further|done]|]. cbn beta. intros g2 l s2 [H2 ->]. apply wpM_ret. split.
  - cbn [omap list_omap]. destruct (file_of h (name, st)); cbn [option_list] in H2.
    + by rewrite <- (assoc_L (++)) in H2.
    + by rewrite app_nil_r in H2.
  - rewrite filter_cons. destruct (descends n (name, st)) eqn:E; [by rewrite decide_True|by rewrite decide_False].
Qed.

(** ** The start and the end of a directory *)

Lemma file_scratch_get_ok (s : S) g : wpM W (file_scratch_get env remote) s g (fun _ _ s' => same s s').
Proof.
  assert (Hput : forall f (s : S) g (Q : mstate W -> unit -> S -> Prop), (forall s', same s s' -> Q g tt s') ->
    wpM W (modify (fun s => Trav (t_status s) (t_dirs s) (t_cap s) (f (t_scratch s)) (t_fsu s) (t_svc s) (t_dir s)) : TM unit) s g Q).
  { intros f s0 g0 Q HQ. by apply wpM_modify, HQ. }
  assert (Hstop : forall (s1 : S) g1, same s s1 -> wpM W (tsay (str "malloc");; mret false : TM bool) s1 g1 (fun _ _ s' => same s s')).
  { intros s1 g1 H1. by apply wpM_bind, tsay_ok, wpM_ret. }
  unfold file_scratch_get. cbv zeta. apply wpM_bind, wpM_gets, wpM_bind.
  apply (wpM_mono W _ _ _ (fun (_ : mstate W) (_ : bool) (s' : S) => same s s')).
  { destruct (sc_batch _); [by apply wpM_ret|]. wp_call ok H. by apply wpM_bind, (Hput (fun s => Scratch ok (sc_names s) (sc_present s) (sc_dst_st s))). }
  intros g1 ok s1 H1. destruct ok; cbn [negb]; [|by apply Hstop]. apply wpM_bind.
  apply (wpM_mono W _ _ _ (fun (_ : mstate W) (_ : bool) (s' : S) => same s s')).
  { destruct (_ && _); [|by apply wpM_ret]. wp_call a Ha. wp_call b Hb. apply wpM_bind, (Hput (fun s => Scratch (sc_batch s) (sc_names s) a b)).
    intros s2 H2. apply wpM_ret. by etrans. }
  intros g2 ok2 s2 H2. destruct ok2; cbn [negb]; [|by apply Hstop]. apply wpM_bind.
  apply (wpM_mono W _ _ _ (fun (_ : mstate W) (_ : bool) (s' : S) => same s s')).
  { destruct (_ && _); [|by apply wpM_ret]. wp_call a Ha. apply wpM_bind, (Hput (fun s => Scratch (sc_batch s) a (sc_present s) (sc_dst_st s))).
    intros s3 H3. apply wpM_ret. by etrans. }
  intros g3 ok3 s3 H3. destruct ok3; cbn [negb]; [|by apply Hstop]. by apply wpM_ret.
Qed.

Lemma open_target_ok path mode (s : S) g : made path -> wpM W (open_or_create_target_dir_path path mode) s g (fun _ _ s' => s' = s).
Proof.
  intros Hmade.
  assert (Hfail : wpM W (tsay path;; mret None : TM (option Z)) s g (fun _ _ s' => s' = s)) by by apply wpM_bind, tsay_ok, wpM_ret.
  unfold open_or_create_target_dir_path. cbv zeta.
  assert (Hopen : wpM W (fd ← call (open path (O_RDONLY |. O_DIRECTORY |. O_CLOEXEC |. O_NOFOLLOW) 0);
      match fd with Ok fd => mret (Some fd) | Err _ => tsay path;; mret None end : TM (option Z)) s g (fun _ _ s' => s' = s)).
  { apply wpM_bind, wpM_call; [done|]. intros [fd|e] _; [by apply wpM_ret|exact Hfail]. }
  apply wpM_bind, wpM_call; [done|]. intros [st|e] _; [destruct (S_ISDIR _); [exact Hopen|exact Hfail]|].
  case_decide; [|exact Hfail]. apply wpM_bind, wpM_call; [done|]. intros m _. destruct (match m with Ok _ => _ | Err _ => _ end); [|exact Hfail].
  apply wpM_bind, wpM_call; [done|]. intros [st|e'] _; [|exact Hfail]. destruct (S_ISDIR _); [exact Hopen|exact Hfail].
Qed.

Lemma record_directory_ok src dst st depth (s : S) g :
  wpM W (record_directory_for_finalize src dst st depth) s g (fun _ ok s' =>
    t_status s' = t_status s /\ t_dir s' = t_dir s /\ t_svc s' = t_svc s /\ (ok = true -> t_dirs s' = t_dirs s ++ [TravRec src dst st depth])).
Proof.
  unfold record_directory_for_finalize. wp_call a Ha. wp_call b Hb. destruct (negb _); [by apply wpM_bind, tsay_ok, wpM_ret|].
  apply wpM_bind, wpM_gets, wpM_bind, wpM_gets. cbv zeta. apply wpM_bind.
  apply (wpM_mono W _ _ _ (fun (_ : mstate W) (_ : bool) (s' : S) => s' = s)).
  { case_decide; [by apply wpM_call|by apply wpM_ret]. }
  intros g1 ok s1 ->. destruct ok; cbn [negb]; [|by apply wpM_bind, tsay_ok, wpM_ret]. by apply wpM_bind, wpM_modify, wpM_ret.
Qed.

(** The handle that is created. *)
Definition handle_for (n : node) (dst : bytes) (h : dir_handle) : Prop :=
  dh_src h = snprintf_s PATH_MAX (nd_path n) /\ dh_dst h = dst /\ dh_refs h = 1.

Lemma close_if_ok fd (s : S) g (Q : mstate W -> unit -> S -> Prop) : Q g tt s -> wpM W (close_if fd) s g Q.
Proof. intros HQ. apply wpM_when; intros _; [|done]. apply wpM_bind, wpM_call; [done|]. intros r _. by apply wpM_ret. Qed.
Lemma begin_fails_ok (s : S) g (Q : mstate W -> bool -> S -> Prop) :
  (forall s', t_status s' = true -> Q g false s') -> wpM W begin_fails s g Q.
Proof. intros HQ. by apply wpM_bind, wpM_modify, wpM_ret, HQ. Qed.
Lemma dir_handle_create_ok a b c d (s : S) g :
  wpM W (fs (dir_handle_create a b c d)) s g (fun _ r s' =>
    t_status s' = t_status s /\ t_dir s' = t_dir s /\ t_dirs s' = t_dirs s /\ t_svc s' = t_svc s /\
    match r with Some h => dh_src h = snprintf_s PATH_MAX a /\ dh_dst h = snprintf_s PATH_MAX b /\ dh_refs h = 1 | None => True end).
Proof.
  set (P := fun (r : option dir_handle) => match r with Some h => dh_src h = snprintf_s PATH_MAX a /\ dh_dst h = snprintf_s PATH_MAX b /\ dh_refs h = 1 | None => True end).
  assert (Hc : forall u g, wpM W (dir_handle_create a b c d) u g (fun _ r _ => P r)).
  { intros u g0. unfold dir_handle_create. apply wpM_bind, wpM_call; [done|]. intros [] _; cbn [negb].
    - apply wpM_bind, wpM_call; [done|]. intros st _. by apply wpM_ret.
    - apply wpM_bind, wpM_call; [done|]. intros [] _. by apply wpM_ret. }
  unfold wpM, fs. apply wp_bind. eapply wp_mono; [apply Hc|]. by intros g' [r u] Hr.
Qed.

Lemma trav_begin_ok n fd (s : S) g :
  t_svc s = [] -> (forall dst, remote = false -> dst_path_for src_root dst_root (nd_path n) = Some dst -> made dst) ->
  wpM W (walk_dir_begin env remote src_root dst_root n fd) s g (fun _ ok s' =>
    if ok then exists h dst, dst_path_for src_root dst_root (nd_path n) = Some dst /\ handle_for n dst h /\
      t_dirs s' = t_dirs s ++ [TravRec (nd_path n) dst (copy_policy_apply_id_override (e_policy env) (nd_st n)) (nd_depth n)] /\
      (ds = t_dirs s' -> progress h [] s')
    else t_status s' = true).
Proof.
  intros Hlog Hmade. unfold walk_dir_begin. cbv zeta. set (st := copy_policy_apply_id_override _ _).
  assert (Hbad : forall (s1 : S) g1 (P : S -> Prop), wpM W begin_fails s1 g1 (fun _ ok s' => if ok then P s' else t_status s' = true)).
  { intros. by apply begin_fails_ok. }
  destruct (dst_path_for _ _ _) as [dst|] eqn:Edst; [|by apply wpM_bind, tsay_ok].
  assert (Hdst : snprintf_s PATH_MAX dst = dst).
  { unfold dst_path_for, copy_path_checked in Edst. case_decide; [done|]. simplify_eq. apply snprintf_s_id. lia. }
  wp_call ok Hok. clear Hok. destruct ok; cbn [negb]; [|by apply wpM_bind, tsay_ok].
  apply wpM_bind. eapply wpM_mono; [apply file_scratch_get_ok|]. cbn beta. intros g1 ok s1 (T1 & D1 & L1 & O1).
  assert (Hstart : forall s2 : S, t_svc s2 = t_svc s1 -> obs (t_svc s2) = obs []) by (intros s2 ->; by rewrite O1, Hlog).
  destruct ok; cbn [negb]; [|apply Hbad]. apply wpM_bind.
  apply (wpM_mono W _ _ _ (fun (_ : mstate W) (_ : option Z) (s' : S) => s' = s1)).
  { destruct remote; [by apply wpM_ret|by apply open_target_ok, Hmade]. }
  intros g2 [dfd|] s2 ->; [|apply Hbad]. wp_call sfd Hs. clear Hs. destruct sfd as [sfd|]; [|by apply wpM_bind, tsay_ok, wpM_bind, close_if_ok].
  apply wpM_bind. eapply wpM_mono; [apply dir_handle_create_ok|]. cbn beta. intros g3 [h|] s3 (T3 & D3 & L3 & S3 & Hh).
  2: { apply wpM_bind, wpM_call; [done|]. intros r _. by apply wpM_bind, close_if_ok. }
  apply wpM_bind. eapply wpM_mono; [apply record_directory_ok|]. cbn beta. intros g4 ok s4 (T4 & D4 & S4 & L4).
  destruct ok; cbn [negb].
  2: { apply wpM_bind, fs_ok; [apply dir_handle_release_runs|]. intros g5 r s5 _. apply Hbad. }
  apply wpM_bind, wpM_modify, wpM_ret. exists h, dst. cbn [set_dir t_dirs]. specialize (L4 eq_refl).
  split_and!; [done|by rewrite Hdst in Hh|by rewrite L4, L3, L1|]. intros Hds. unfold set_dir. eexists. cbn [t_dir t_dirs t_svc t_status].
  split_and!; [done|done|done|done|done| |].
  - assert (E : obs (t_svc s4) = obs []) by (apply Hstart; congruence). by injection E.
  - intros _. assert (E : obs (t_svc s4) = obs []) by (apply Hstart; congruence). injection E as E1 E2 _.
    exists []. cbn. rewrite E1, E2. split_and!; try done; constructor.
Qed.

Lemma flush_then {B} d (s : S) g (k : TM B) (Q : mstate W -> B -> S -> Prop) :
  wpM W (ok ← flush_file_batch env d; when (negb ok) mark_traversal_error : TM unit) s g (fun g _ s => wpM W k s g Q) ->
  wpM W (ok ← flush_file_batch env d; when (negb ok) mark_traversal_error;; k) s g Q.
Proof.
  intros H%wp_bind. apply wpM_bind. eapply wp_mono; [exact H|]. intros g' [ok s'] H'. by apply wpM_bind.
Qed.

(** An empty remote directory is created by a request of its own. *)
Definition announced (h : dir_handle) (files : list (bytes * stat)) (log : tlog) : Prop :=
  remote = true -> files = [] -> exists mode, ev_mkdir (dh_dst h) mode ∈ log.

Lemma trav_end_ok n fd failed h files (s : S) g :
  progress h files s ->
  wpM W (walk_dir_end env n fd failed) s g (fun _ _ s' =>
    t_dirs s' = ds /\ t_dir s' = None /\ released (t_svc s') = [h] /\
    (t_status s' = false -> failed = false /\ accounted h files [] (bool_decide (files <> [])) (t_svc s') /\ announced h files (t_svc s'))).
Proof.
  intros Hp. pose proof Hp as (d & _ & Hd & _). unfold walk_dir_end. apply wpM_bind, wpM_gets. rewrite Hd. apply wpM_bind.
  apply (wpM_mono W _ _ _ (fun (_ : mstate W) (_ : unit) (s1 : S) => t_dir s1 = Some d /\ progress h files s1 /\ (t_status s1 = false -> failed = false))).
  { apply wpM_when; intros Hf; [|by split_and!]. apply mark_error_ok. intros s1 H1 Ht. split_and!; [by destruct H1 as [-> _]|by eapply progress_aside|by rewrite Ht]. }
  intros g1 [] s1 (D1 & P1 & F1). destruct P1 as (d' & Hl & D1' & Hh & Hr & Hz & Hrel & Hacc). assert (d' = d) as -> by congruence. clear D1'.
  apply flush_then. apply (wpM_mono W _ _ _ (fun (_ : mstate W) (_ : unit) (s2 : S) =>
    progress h files s2 /\ t_dir s2 = Some (TravDir h [] (td_saw_file d) remote) /\ (t_status s2 = false -> t_status s1 = false))).
  { unfold wpM. eapply wp_mono; [apply wp_and; [apply (flush_progress h files d); try done; lia|]|].
    - instantiate (1 := fun _ '(_, s2) => t_status s2 = false -> t_status s1 = false).
      change (wpM W (ok ← flush_file_batch env d; when (negb ok) mark_traversal_error : TM unit) s1 g1 (fun _ _ s2 => t_status s2 = false -> t_status s1 = false)).
      apply wpM_bind. eapply wpM_mono; [apply flush_file_batch_ok|]. cbn beta. intros g2 ok s2 (T2 & _). rewrite <- T2.
      destruct ok; [by apply wpM_ret|]. by apply wpM_modify.
    - intros g2 [[] s2] [[H1 H2] H3]. by split_and!. }
  intros g2 [] s2 (P2 & D2 & T2). apply wpM_bind.
  apply (wpM_mono W _ _ _ (fun (_ : mstate W) (_ : unit) (s3 : S) => progress h files s3 /\ t_dir s3 = Some (TravDir h [] (td_saw_file d) remote) /\
    (t_status s3 = false -> t_status s1 = false /\ announced h files (t_svc s3)))).
  { rewrite Hr, Hh. unfold announced. destruct remote eqn:Er; cbn [andb]; [|by apply wpM_ret; split; [|split; [|split; [auto|]]]].
    assert (Hsaw : t_status s1 = false -> files = [] -> td_saw_file d = false).
    { intros Ht ->. by destruct (Hacc Ht) as (? & _ & _ & _ & _ & _ & ->). }
    destruct (td_saw_file d) eqn:Es; cbn [negb].
    { apply wpM_ret. split; [done|]. split; [done|]. intros Ht. split; [by apply T2|]. intros _ Hf. by specialize (Hsaw (T2 Ht) Hf). }
    apply wpM_bind, svc_record_ok. set (s3 := Trav _ _ _ _ _ _ _).
    assert (H3 : aside s2 s3) by (split_and!; [done|done|by apply obs_other|done]).
    assert (Hin : exists mode, ev_mkdir (dh_dst h) mode ∈ t_svc s3) by (eexists; apply elem_of_app; right; by apply list_elem_of_singleton).
    destruct (fate _); cbn [negb]; [apply wpM_ret|apply say_error_ok; intros s4 H4 Ht4].
    - split; [by eapply progress_aside|]. split; [done|]. intros Ht. split; [by apply T2|done].
    - split; [eapply progress_aside; [|exact P2]; by etrans|]. split; [|by rewrite Ht4]. by destruct H4 as [-> _]. }
  intros g3 [] s3 (P3 & D3 & T3). apply wpM_bind, svc_record_ok, wpM_modify. cbn [set_dir t_dirs t_dir t_svc t_status].
  destruct P3 as (d3 & Hl3 & D3' & _ & _ & _ & Hrel3 & Hacc3). rewrite Hh. assert (d3 = TravDir h [] (td_saw_file d) remote) as -> by congruence.
  split_and!; [done|done|unfold released in *; by rewrite omap_app, Hrel3|].
  intros Ht. destruct (T3 Ht) as [Ht1 Hann]. split_and!; [by apply F1| |].
  - destruct (Hacc3 Ht) as (past & E1 & E2 & E3 & E4 & E5 & E6). exists past. unfold batches, checked in *. rewrite !omap_app. cbn [omap list_omap].
    rewrite !app_nil_r. cbn in E1. rewrite app_nil_r in E1. split_and!; try done.
  - intros Hr' Hf. destruct (Hann Hr' Hf) as [mode Hin]. exists mode. apply elem_of_app. by left.
Qed.
End directory.

(** What a directory's own processing may make at a local destination: the
    entries that are symbolic links, and the directory itself. *)
Definition own_links (remote : bool) (es : list (bytes * stat)) (name : bytes) : Prop :=
  remote = false /\ exists st, (name, st) ∈ es /\ S_ISLNK (st_mode st) = true.
Definition own_dir (remote : bool) (src_root dst_root : bytes) (n : node) (path : bytes) : Prop :=
  remote = false /\ dst_path_for src_root dst_root (nd_path n) = Some path.


(** ** A directory on a kernel *)

(** One file already there, one out of date, one absent, a directory, a further
    name of an inode. *)
Definition x_stat (mode nlink size : Z) : stat := Stat 1 2 (mode |. o0755) nlink 0 0 size 8 (Timespec 1 0) (Timespec 2 0) (Timespec 3 0).
Definition x_entries : list (bytes * stat) :=
  [(str "a", x_stat S_IFREG 1 100); (str "b", x_stat S_IFREG 1 5); (str "c", x_stat S_IFDIR 2 0); (str "d", x_stat S_IFREG 1 7); (str "e", x_stat S_IFREG 2 5)].
Definition x_target (name : bytes) : option dstate :=
  if decide (name = str "a") then Some (S_IFREG |. o0755, 100, Timespec 2 0) else
  if decide (name = str "b") then Some (S_IFREG |. o0755, 4, Timespec 2 0) else None.
Definition x_kernel (R : Type) (e : posix R) (k : kstate) : R * kstate :=
  match e in posix R return R * kstate with
  | fstat _ => (Ok (x_stat S_IFREG 1 100), k)
  | fstatat _ name _ => (match x_target name with
                         | Some (mode, size, mtim) => Ok (Stat 1 2 mode 1 0 0 size 8 (Timespec 1 0) mtim (Timespec 3 0))
                         | None => Err ENOENT
                         end, k)
  | e => permissive _ e k
  end.
Definition x_env : fsenv := FsEnv 0 0 [] true false false 0 (Policy false false true false None None).
Definition x_node : node := Node (str "/src/dir") (x_stat S_IFDIR 2 0) 1.
Definition x_state : trav tlog := Trav false [] 0 (Scratch false false false false) fsu0 [] None.
Definition x_run := directory (fun _ => true) (fun _ _ => HL_SECONDARY) x_target x_env false (str "/src") (str "/dst") x_node 3 x_entries false x_state.

Lemma x_kernel_ok links made : kernel_ok (looking x_target links made) x_kernel (fun _ _ => True).
Proof.
  intros k g R e _ _. split; [|done]. destruct e; try done. cbn.
  destruct (x_target name) as [[[mode size] mtim]|] eqn:E; [done|]. by intros _.
Qed.


(** * The final pass over the directories *)

(** C23.  Directories get their metadata bottom up. Of the directories recorded
    none is finalized twice; when one is finalized, every deeper directory has
    been finalized successfully in an earlier group, so that the permissions of
    a directory cannot shut out what is below it, and the first barrier has
    passed; and when the pass succeeds all have been, with success. *)
Theorem finalize_bottom_up dirs sorted workers fn first barrier alloc creatable :
  sorted ≡ₚ dirs -> StronglySorted (fun a b => dir_record_cmp_desc_depth a b <> Gt) sorted ->
  let '(calls, ok) := finalize_directories_parallel sorted workers fn first barrier alloc creatable in
  (exists m, concat calls = seq 0 m /\ (m <= length dirs)%nat) /\
  (forall a b ca cb i j x y, calls !! a = Some ca -> calls !! b = Some cb -> i ∈ ca -> j ∈ cb ->
     sorted !! i = Some x -> sorted !! j = Some y -> tr_depth y < tr_depth x -> (a < b)%nat /\ fn i = true) /\
  (calls <> [] -> first = true) /\
  (ok = true -> concat calls = seq 0 (length dirs) /\ forall i, (i < length dirs)%nat -> fn i = true).
Proof.
  intros Hperm Hsorted. unfold finalize_directories_parallel. case_decide as Hnil.
  { subst sorted. rewrite <- (Permutation_length Hperm). cbn. split_and!; [by exists 0%nat|done|done|]. intros _. split; [done|]. lia. }
  destruct first; cbn [negb].
  2: { split_and!; [exists 0%nat; split; [done|lia]|done|done|done]. }
  set (depth := fun i : nat => default 0 (tr_depth <$> sorted !! i)).
  assert (Hdepth : forall i j, (i <= j < length sorted)%nat -> depth j <= depth i).
  { intros i j [Hij Hj]. destruct (decide (i = j)) as [->|]; [done|].
    destruct (lookup_lt_is_Some_2 sorted i) as [x Hx]; [lia|]. destruct (lookup_lt_is_Some_2 sorted j Hj) as [y Hy].
    pose proof (sorted_lookup _ _ Hsorted i j x y ltac:(lia) Hx Hy) as H. unfold depth. rewrite Hx, Hy. simpl.
    unfold dir_record_cmp_desc_depth in H. case_decide; [lia|]. destruct (Z.compare_spec (tr_depth y) (tr_depth x)); [lia|lia|done]. }
  unfold finalize_groups, depth_groups. fold depth.
  destruct (groups_loop_spec (length sorted) workers depth false None fn barrier alloc creatable (length sorted) 0 Hdepth)
    as (m & H1 & H2 & H3 & H4 & H5); [lia|lia|].
  pose proof (groups_flat (length sorted) workers depth false None fn barrier alloc creatable (length sorted) 0) as Hflat.
  destruct (groups_loop _ _ _ _ _ _ _ _ _ (length sorted) 0) as [calls ok]. cbn [fst snd] in *. rewrite <- (Permutation_length Hperm). split_and!.
  - exists m. split; [done|lia].
  - intros a b ca cb i j x y Ha Hb Hi Hj Hx Hy Hxy.
    assert (Hat : depth i = tr_depth x /\ depth j = tr_depth y) by (unfold depth; by rewrite Hx, Hy). destruct Hat as [Ax Ay].
    assert (Hab : (a < b)%nat).
    { destruct (Nat.lt_trichotomy a b) as [|[->|Hgt]]; [done| |]; exfalso.
      - assert (ca = cb) as -> by congruence. pose proof (Forall_lookup_1 _ _ _ _ Hflat Hb i j Hi Hj). lia.
      - pose proof (sorted_lookup _ _ H3 b a cb ca Hgt Hb Ha j i Hj Hi). lia. }
    split; [done|]. apply (H4 a ca i); [|done|done]. apply lookup_lt_Some in Hb. lia.
  - done.
  - intros Hok. destruct (H5 Hok) as [Hm Hall]. rewrite H1. split; [f_equal; lia|]. intros i Hi. apply Hall. lia.
Qed.

Definition f_rec (path : bytes) (depth : Z) : trav_rec := TravRec path path (x_stat S_IFDIR 2 0) depth.
Definition f_dirs : list trav_rec := [f_rec (str "/t") 0; f_rec (str "/t/a") 1; f_rec (str "/t/a/x") 2; f_rec (str "/t/b") 1].
Definition f_sorted : list trav_rec := [f_rec (str "/t/a/x") 2; f_rec (str "/t/a") 1; f_rec (str "/t/b") 1; f_rec (str "/t") 0].
Lemma finalize_bottom_up_witness :
  let '(calls, ok) := finalize_directories_parallel f_sorted 2 (fun _ => true) true (fun _ => true) (fun _ => true) (fun _ => 2%nat) in
  calls = [[0%nat]; [1%nat; 2%nat]; [3%nat]] /\ ok = true /\ concat calls = seq 0 4.
Proof.
  assert (Hperm : f_sorted ≡ₚ f_dirs) by (etrans; [apply (Permutation_app_comm (take 3 f_sorted) (drop 3 f_sorted))|apply perm_skip, perm_swap]).
  assert (Hsorted : StronglySorted (fun a b => dir_record_cmp_desc_depth a b <> Gt) f_sorted) by (repeat constructor; vm_compute; congruence).
  pose proof (finalize_bottom_up f_dirs f_sorted 2 (fun _ => true) true (fun _ => true) (fun _ => true) (fun _ => 2%nat) Hperm Hsorted) as H.
  assert (E : finalize_directories_parallel f_sorted 2 (fun _ => true) true (fun _ => true) (fun _ => true) (fun _ => 2%nat) =
    ([[0%nat]; [1%nat; 2%nat]; [3%nat]], true)) by (vm_compute; reflexivity).
  rewrite E in *. destruct H as (_ & _ & _ & H). destruct (H eq_refl) as [H' _]. split; [reflexivity|]. split; [reflexivity|]. exact H'.
Defined.

(** * A scratch half allocated

    When the array of states cannot be allocated but the one before it can, the
    directory fails; for the thread's next directory the scratch passes for
    complete, and the existence check has no room for its answers. *)
Definition short_of_memory (R : Type) (e : posix R) (k : bool) : R * bool :=
  match e in posix R return R * bool with
  | malloc n => if decide (n = 73728) then (k, true) else (true, k)
  | e => ((permissive _ e (Kstate 3 [])).1, k)
  end.
Example scratch_half_allocated :
  let twice : M posix (trav tlog) (bool * bool) :=
    a ← file_scratch_get x_env false; b ← file_scratch_get x_env false; mret (a, b) in
  exists s, run short_of_memory (twice x_state) false = Some ((false, true, s), true) /\ sc_dst_st (t_scratch s) = false /\ sc_present (t_scratch s) = true.
Proof. eexists. split; [vm_compute; reflexivity|by split]. Qed.
