(* ===== verification/RemoteCopy.v ===== *)
(** Copying one file to a remote destination (src/workers.c, "remote (SSH)
    destination copy"): the single-frame path for small files and the streamed
    path with its walk over the data of a sparse file.

    What carries the requests is a type class, [remote]: the SSH transport is
    [ssh_remote], and RemoteCopyOk.v has one that keeps a record. Loops take
    [fuel], as in LocalCopy.v; statistics and progress are left out. *)

From S2P Require Export LocalCopy VerifyRemote.
From stdpp Require Import list.
#[local] Open Scope Z_scope.

(** * The transport *)

Class remote (P F : Type) := {
  rm_putfile : bytes -> stat -> Z -> bytes -> bool -> M posix P (res unit);        (* sshx_putfile *)
  rm_begin : bytes -> Z -> Z -> Z -> bool -> bool -> M posix P (option F);         (* sshx_file_begin *)
  rm_write : F -> bytes -> Z -> M posix P (bool * F);                              (* sshx_file_write *)
  rm_ftruncate : F -> Z -> M posix P (bool * F);                                   (* sshx_file_ftruncate *)
  rm_commit : F -> stat -> M posix P bool;                                         (* sshx_file_commit *)
  rm_abort : F -> M posix P unit                                                   (* sshx_file_abort *)
}.

Definition ssh_remote (eintr frames : nat) : remote pool sshx_file := {|
  rm_putfile := sshx_putfile eintr frames;
  rm_begin := sshx_file_begin eintr;
  rm_write := sshx_file_write eintr;
  rm_ftruncate := sshx_file_ftruncate eintr;
  rm_commit f st := r ← sshx_file_commit eintr frames f st; mret (bool_decide (r = Some 0));
  rm_abort := sshx_file_abort eintr
|}.

Section remote_copy.
Context {P F : Type} `{remote P F}.
Context (env : fsenv) (r : runtime) (src_fd src_mode : Z).
Abbreviation RM := (M posix (fsu * P)).

(** Programs of fs_util.c, and requests. *)
Definition on_fsu {A} (c : FM A) : RM A := fun s => prog_bind (fun '(a, u) => Ret (a, (u, s.2))) (c s.1).
Definition ask {A} (c : M posix P A) : RM A := fun s => prog_bind (fun '(a, p) => Ret (a, (s.1, p))) (c s.2).
Definition rsay (line : bytes) : RM unit := call (eprintf line).
Definition inplace : bool := copy_policy_small_inplace (e_policy env).

(** * One frame *)

(** [while (pos < size)]: what has been read, or [None] when a read fails. *)
Fixpoint putfile_read (fuel : nat) (fd size : Z) (got : bytes) : RM (option bytes) :=
  if decide (size <= zlen got) then mret (Some got) else
  match fuel with
  | O => stuck
  | S fuel =>
      d ← call (pread fd (size - zlen got) (zlen got));
      match d with
      | Err _ => rsay (str "pread");; mret None
      | Ok [] => mret (Some got)
      | Ok d => putfile_read fuel fd size (got ++ d)
      end
  end.
Definition copy_file_remote_putfile (fuel : nat) (t : task) (size : Z) : RM bool :=
  fd ← on_fsu (open_read_at_buffered src_fd (t_name t) (t_src t) (Some (t_st t)));
  match fd with
  | None => mret false
  | Some fd =>
      ok ← on_fsu (thread_io_buffer (if decide (0 < size) then size else 1));
      if negb (ok : bool) then rsay (str "thread_io_buffer failed");; on_fsu (close_ fd);; mret false else
      data ← putfile_read fuel fd size [];
      on_fsu (close_ fd);;
      match data with
      | None => mret false
      | Some data => ok ← ask (rm_putfile (t_dst t) (t_st t) src_mode data inplace); mret (is_ok ok)
      end
  end.

(** * Streaming *)

(** Loops pass the handle and the payload; [false] is [goto out]. *)
Definition streamed : Type := bool * F * Z.

Fixpoint extent_stream (fuel : nat) (fd chunk p hole : Z) (f : F) (payload : Z) : RM streamed :=
  if decide (hole <= p) then mret (true, f, payload) else
  match fuel with
  | O => stuck
  | S fuel =>
      let remain := hole - p in
      let want := if decide (remain < chunk) then remain else chunk in
      d ← call (pread fd want p);
      match d with
      | Err _ => rsay (str "pread");; mret (false, f, payload)
      | Ok [] => mret (true, f, payload)
      | Ok d =>
          '(ok, f) ← ask (rm_write f d p);
          if negb (ok : bool) then mret (false, f, payload)
          else extent_stream fuel fd chunk (p + zlen d) hole f (payload + zlen d)
      end
  end.

Definition seek_refused (e : Z) : bool := bool_decide (e = EINVAL \/ e = ENOTSUP \/ e = EOPNOTSUPP).
(** Where the next data is: [inr]; or the end of the loop, with its result. *)
Definition next_data (pos : Z) (d : res Z) : bool + Z :=
  match d with
  | Ok data => inr data
  | Err e => if decide (e = ENXIO) then inl true else if seek_refused e then inr pos else inl false
  end.
Fixpoint sparse_stream (fuel : nat) (fd chunk size pos : Z) (f : F) (payload : Z) : RM streamed :=
  if decide (size <= pos) then mret (true, f, payload) else
  match fuel with
  | O => stuck
  | S fuel =>
      stop ← call shutdown_requested;
      if stop : bool then mret (true, f, payload) else
      d ← call (seek_data fd pos);
      match next_data pos d with
      | inl ok => when (negb ok) (rsay (str "lseek SEEK_DATA"));; mret (ok, f, payload)
      | inr data =>
          if decide (size <= data) then mret (true, f, payload) else
          h ← call (seek_hole fd data);
          match h with
          | Err _ => rsay (str "lseek SEEK_HOLE");; mret (false, f, payload)
          | Ok hole =>
              let hole := if decide (size < hole) then size else hole in
              '(ok, f, payload) ← extent_stream (Z.to_nat (hole - data)) fd chunk data hole f payload;
              if negb (ok : bool) then mret (false, f, payload)
              else sparse_stream fuel fd chunk size hole f payload
          end
      end
  end.
Fixpoint dense_stream (fuel : nat) (fd chunk size pos : Z) (f : F) (payload : Z) : RM streamed :=
  if decide (size <= pos) then mret (true, f, payload) else
  match fuel with
  | O => stuck
  | S fuel =>
      stop ← call shutdown_requested;
      if stop : bool then mret (true, f, payload) else
      d ← call (pread fd chunk pos);
      match d with
      | Err _ => rsay (str "pread");; mret (false, f, payload)
      | Ok [] => mret (true, f, payload)
      | Ok d =>
          '(ok, f) ← ask (rm_write f d pos);
          if negb (ok : bool) then mret (false, f, payload)
          else dense_stream fuel fd chunk size (pos + zlen d) f (payload + zlen d)
      end
  end.

(** The loop, the test for a shutdown, and the truncation of a sparse file. *)
Definition stream_body (fuel : nat) (t : task) (fd chunk : Z) (f : F) : RM streamed :=
  let size := st_size (t_st t) in
  '(ok, f, payload) ← (if t_sparse t then sparse_stream fuel fd chunk size 0 f 0 else dense_stream fuel fd chunk size 0 f 0);
  if negb (ok : bool) then mret (false, f, payload) else
  stop ← call shutdown_requested;
  if stop : bool then mret (false, f, payload) else
  if t_sparse t then '(ok, f) ← ask (rm_ftruncate f size); mret (ok : bool, f, payload) else mret (true, f, payload).

(** From the label [out] on: [f] is not NULL. *)
Definition copy_file_remote_out (f : F) (fd payload : Z) : RM (bool * Z) :=
  ask (rm_abort f);; on_fsu (close_ fd);; mret (false, payload).

Definition remote_chunk : Z := if decide (0 < g_chunk_size r) then g_chunk_size r else 1024 * 1024.
Definition copy_file_remote (fuel : nat) (t : task) : RM (bool * Z) :=
  let size := st_size (t_st t) in
  if negb (t_sparse t) && bool_decide (size <= g_ssh_putfile_max r) then
    ok ← copy_file_remote_putfile fuel t size; mret (ok, if ok : bool then u64 size else 0)
  else
  i ← on_fsu (if t_sparse t then open_read_at_buffered src_fd (t_name t) (t_src t) (Some (t_st t))
             else fd ← open_read_at_maybe_direct env src_fd (t_name t) (t_src t) (Some (t_st t)); mret (fst <$> fd));
  match i with
  | None => mret (false, 0)
  | Some fd =>
      f ← ask (rm_begin (t_dst t) (st_mode (t_st t) &. o07777) src_mode size (t_sparse t) inplace);
      match f with
      | None => on_fsu (close_ fd);; mret (false, 0)
      | Some f =>
          ok ← on_fsu (thread_io_buffer remote_chunk);
          if negb (ok : bool) then rsay (str "thread_io_buffer failed");; copy_file_remote_out f fd 0 else
          '(ok, f, payload) ← stream_body fuel t fd remote_chunk f;
          if negb (ok : bool) then copy_file_remote_out f fd payload else
          done ← ask (rm_commit f (t_st t));
          on_fsu (close_ fd);; mret (done : bool, payload)
      end
  end.

(** What a worker hands to verification afterwards: is the file at its final
    name already? *)
Definition copied_durable (active : bool) (t : task) : bool :=
  negb active || t_sparse t || bool_decide (g_ssh_putfile_max r < st_size (t_st t)).
End remote_copy.
