(* ===== verification/RemoteCopyOk.v ===== *)
(** What copying a file to a remote destination promises: on the client's side,
    which requests are sent; on the server's, what they make of its file. *)

From S2P Require Export Durability RemoteCopy LocalCopyRun.
From stdpp Require Import list gmap.
#[local] Open Scope Z_scope.

(** * A latch on a monitor

    Once the shutdown flag has been seen set it stays set. *)
Section latched.
Context (m : monitor posix) (Hm : forall g, ~ mpre m g shutdown_requested).

Definition is_stop {R} (e : posix R) : bool := match e with shutdown_requested => true | _ => false end.
Definition stop_answer {R} (e : posix R) : R -> option bool :=
  match e in posix R return R -> option bool with shutdown_requested => Some | _ => fun _ => None end.
Definition latched : monitor posix := {|
  mstate := mstate m * bool;
  mpre g R e := if is_stop e then True else mpre m g.1 e;
  madm g R e r := match stop_answer e r with Some b => g.2 = true -> b = true | None => madm m g.1 e r end;
  mupd g R e r := match stop_answer e r with Some b => (g.1, b) | None => (mupd m g.1 e r, g.2) end;
  mstuck := mstuck m
|}.

Lemma wp_latched {A} (p : prog posix A) g b Q :
  wp m p g Q -> wp latched p (g, b) (fun g' a => Q g'.1 a /\ g'.2 = b).
Proof.
  revert g. induction p as [a|R e k IH|]; intros g; [done| |done]. intros [Hp Hk].
  destruct e; try (split; [exact Hp|]; intros r Hr; apply IH, Hk, Hr). by apply Hm in Hp.
Qed.
Lemma wpM_latched {S A} (c : M posix S A) s g b Q :
  wpM m c s g Q -> wpM latched c s (g, b) (fun g' a s' => Q g'.1 a s' /\ g'.2 = b).
Proof.
  intros H. unfold wpM in *. eapply wp_mono; [by apply wp_latched|]. by intros g' [a s'].
Qed.
End latched.

(** * A transport that keeps a record

    Every request is logged with its outcome, which [fate] decides from the
    record so far; a handle is its [failed] mark. *)
Inductive rframe :=
| rf_put (path : bytes) (st : stat) (parent_mode : Z) (data : bytes) (inplace : bool)
| rf_open (path : bytes) (mode parent_mode size : Z) (sparse inplace : bool)
| rf_write (data : bytes) (off : Z)
| rf_trunc (size : Z)
| rf_commit (st : stat)
| rf_abort.
Definition rlog : Type := list (rframe * bool).

Definition note_frame (fate : rlog -> bool) (f : rframe) : M posix rlog bool := fun l => Ret (fate l, l ++ [(f, fate l)]).
Definition log_remote (fate : rlog -> bool) : remote rlog bool := {|
  rm_putfile path st pm data ip := ok ← note_frame fate (rf_put path st pm data ip); mret (if ok : bool then Ok tt else Err 0);
  rm_begin path mode pm size sparse ip := ok ← note_frame fate (rf_open path mode pm size sparse ip); mret (if ok : bool then Some false else None);
  rm_write f d off := if f : bool then mret (false, f) else ok ← note_frame fate (rf_write d off); mret (ok, negb ok);
  rm_ftruncate f n := if f : bool then mret (false, f) else ok ← note_frame fate (rf_trunc n); mret (ok, negb ok);
  rm_commit f st := if f : bool then note_frame fate rf_abort;; mret false else note_frame fate (rf_commit st);
  rm_abort f := note_frame fate rf_abort;; mret tt
|}.

(** What the frames make of a file. *)
Definition apply_frame (c : bytes) (f : rframe * bool) : bytes :=
  match f.1 with
  | rf_write d off => store_at (Z.to_nat off) d c
  | rf_trunc n => LocalCopyOk.resize (Z.to_nat n) c
  | _ => c
  end.
Definition contents (l : rlog) : bytes := foldl apply_frame [] l.

Definition is_write (n : Z) (f : rframe * bool) : Prop :=
  match f with (rf_write d off, true) => d <> [] /\ 0 <= off /\ off + zlen d <= n | _ => False end.
Definition publishes (f : rframe * bool) : Prop := match f with (rf_put _ _ _ _ _, true) | (rf_commit _, true) => True | _ => False end.
Definition closes (f : rframe * bool) : Prop := match f with (rf_commit _, _) | (rf_abort, _) => True | _ => False end.

Lemma contents_snoc l f : contents (l ++ [f]) = apply_frame (contents l) f.
Proof. unfold contents. by rewrite foldl_app. Qed.

Lemma remote_chunk_pos r : 0 < remote_chunk r.
Proof. unfold remote_chunk. case_decide; lia. Qed.

Section client.
Context (fate : rlog -> bool) (env : fsenv) (r : runtime) (src_fd src_mode : Z) (t : task) (src : bytes).
Context (Hsrc : src_fd <> -1) (Hsize : st_size (t_st t) = zlen src).
#[local] Instance remote_log : remote rlog bool := log_remote fate.
Abbreviation RM := (M posix (fsu * rlog)).
Abbreviation CM := (copying src_fd (-1) t false src).
Abbreviation L := (latched CM).

Let Hchunk : 0 < remote_chunk r := remote_chunk_pos r.
Lemma copying_no_stop g : ~ mpre CM g shutdown_requested.
Proof. intros []. Qed.
Lemma on_fsu_ok {A} (c : FM A) s (g : mstate L) (Q : mstate L -> A -> fsu * rlog -> Prop) :
  wpM CM c s.1 g.1 (fun g' a u => Q (g', g.2) a (u, s.2)) -> wpM L (on_fsu c) s g Q.
Proof.
  intros H. unfold wpM, on_fsu. apply wp_bind. destruct g as [g b]. eapply wp_mono; [apply wp_latched; [apply copying_no_stop|exact H]|].
  intros [g' b'] [a u] [HQ Hb]. cbn in *. by subst b'.
Qed.
Lemma ask_ok {A} (c : M posix rlog A) s (g : mstate L) (Q : mstate L -> A -> fsu * rlog -> Prop) :
  wpM L c s.2 g (fun g' a l => Q g' a (s.1, l)) -> wpM L (ask c) s g Q.
Proof. intros H. unfold wpM, ask. apply wp_bind. eapply wp_mono; [exact H|]. by intros g' [a l]. Qed.
Lemma rsay_ok x (s : fsu * rlog) (g : mstate L) (Q : mstate L -> unit -> fsu * rlog -> Prop) : Q g tt s -> wpM L (rsay x) s g Q.
Proof. intros HQ. apply wpM_call; [done|]. intros [] _. by destruct g. Qed.

(** ** What a loop adds to the record *)

Definition any_write (f : rframe * bool) : Prop := match f.1 with rf_write _ _ => True | _ => False end.
(** Writes only; when the loop ends well all have been sent, and unless it was
    told to stop, [P] holds of the contents. *)
Definition extends (log : rlog) (g : mstate L) (x : bool * bool * Z) (log' : rlog) (P : bytes -> Prop) : Prop :=
  exists ws, log' = log ++ ws /\ Forall any_write ws /\
    (x.1.1 = true -> x.1.2 = false /\ Forall (is_write (zlen src)) ws /\ (g.2 = false -> P (contents log'))).

Lemma extends_nil log (g : mstate L) x (P : bytes -> Prop) :
  x.1.2 = false -> (x.1.1 = true -> g.2 = false -> P (contents log)) -> extends log g x log P.
Proof. intros Hf HP. exists []. rewrite app_nil_r. split_and!; try done. intros Hx. split_and!; auto. Qed.
Lemma extends_fail log (g : mstate L) f payload log' P w :
  any_write w -> log' = log ++ [w] -> extends log g (false, f, payload) log' P.
Proof. intros Hw ->. exists [w]. split_and!; [done|by constructor|done]. Qed.
Lemma extends_cons log w (g : mstate L) x log' P :
  is_write (zlen src) w -> extends (log ++ [w]) g x log' P -> extends log g x log' P.
Proof.
  intros Hw (ws & -> & Ha & Hx). exists (w :: ws). rewrite <- (assoc_L (++)). split_and!; [done| |].
  - constructor; [|done]. by destruct w as [[] []].
  - intros H. destruct (Hx H) as (H1 & H2 & H3). split_and!; [done|by constructor|]. by rewrite <- (assoc_L (++)) in H3.
Qed.
Lemma extends_trans log log1 log' (g1 g : mstate L) x1 x P1 P :
  extends log g1 x1 log1 P1 -> x1.1.1 = true -> extends log1 g x log' P -> extends log g x log' P.
Proof.
  intros (ws & -> & Ha & Hx) Hok (ws2 & -> & Ha2 & Hx2). exists (ws ++ ws2). rewrite (assoc_L (++)). split_and!; [done|by apply Forall_app|].
  intros H. destruct (Hx2 H) as (H1 & H2 & H3). destruct (Hx Hok) as (_ & H4 & _). split_and!; [done|by apply Forall_app|done].
Qed.

(** One block: read at [p], sent. *)
Lemma send_ok d p (s : fsu * rlog) (g : mstate L) :
  wpM L (ask (rm_write (false : bool) d p)) s g (fun g' '(ok, f) s' =>
    g' = g /\ f = negb ok /\ s' = (s.1, s.2 ++ [(rf_write d p, ok)])).
Proof. apply ask_ok. by split_and!. Qed.
Lemma store_block d p log ok :
  0 <= p -> d <> [] -> d `prefix_of` drop (Z.to_nat p) src -> holds src (Z.to_nat p) (contents log) ->
  full src (Z.to_nat (p + zlen d)) (contents (log ++ [(rf_write d p, ok)])).
Proof.
  intros Hp Hd Hpre Hh. rewrite contents_snoc. unfold apply_frame. cbn [fst].
  replace (Z.to_nat (p + zlen d)) with (Z.to_nat p + length d)%nat by (unfold zlen; lia). by apply holds_store.
Qed.
Lemma read_bounds p n d :
  0 <= p < zlen src -> 0 < n -> reads src p n d -> d <> [] /\ 0 < zlen d <= n /\ p + zlen d <= zlen src /\ d `prefix_of` drop (Z.to_nat p) src.
Proof.
  intros Hp Hn Hr. destruct (reads_length src p n d ltac:(lia) Hr) as [Hl|Hl].
  - destruct Hr as (H1 & H2 & H3). assert (d <> []) by (intros Hd; destruct (H3 Hd); lia). split_and!; try done; [destruct d; [done|rewrite zlen_cons; pose proof (zlen_nonneg d); lia]|lia].
  - destruct Hr as (H1 & H2 & H3). destruct (H3 Hl); lia.
Qed.

Lemma extent_stream_ok fuel fd p hole payload (s : fsu * rlog) (g : mstate L) :
  is_src (cg_fds g.1) fd -> 0 <= p -> hole <= zlen src -> hole - p <= Z.of_nat fuel -> holds src (Z.to_nat p) (contents s.2) ->
  wpM L (extent_stream fuel fd (remote_chunk r) p hole false payload) s g (fun g' x s' =>
    g' = g /\ extends s.2 g x s'.2 (holds src (Z.to_nat hole))).
Proof.
  intros Hfd. revert p payload s. induction fuel as [|fuel IH]; intros p payload s Hp Hh Hf Hc; cbn [extent_stream].
  all: destruct (decide (hole <= p)); [apply wpM_ret; split; [done|]; apply extends_nil; [done|]; intros _ _; apply (holds_mono _ _ (Z.to_nat p)); [lia|done]|].
  { lia. }
  cbv zeta. set (want := if decide _ then _ else _). assert (Hw : 0 < want <= hole - p) by (subst want; case_decide; lia).
  apply wpM_bind, wpM_call; [done|]. intros d Hd. cbn [mupd latched stop_answer]. change (mupd CM g.1 (pread fd want p) d) with g.1. rewrite <- surjective_pairing.
  destruct d as [d|e]; [|apply wpM_bind, rsay_ok, wpM_ret; split; [done|]; by apply extends_nil].
  change (reads src p want d) in Hd. destruct (read_bounds p want d ltac:(lia) ltac:(lia) Hd) as (Hne & Hl & He & Hpre).
  destruct d as [|b d]; [done|]. set (db := b :: d) in *. apply wpM_bind. eapply wpM_mono; [apply send_ok|]. cbn beta.
  intros g1 [ok f] s1 (-> & -> & ->). destruct ok; cbn [negb].
  - eapply wpM_mono; [apply IH; try done; [lia|lia|cbn [snd]; by apply full_holds, store_block]|]. cbn beta. intros g2 x s2 [-> Hx].
    split; [done|]. eapply extends_cons; [|exact Hx]. by split_and!.
  - apply wpM_ret. split; [done|]. by apply (extends_fail _ _ _ _ _ _ (rf_write db p, false)).
Qed.

Lemma dense_stream_ok fuel fd pos payload (s : fsu * rlog) (g : mstate L) :
  is_src (cg_fds g.1) fd -> 0 <= pos -> zlen src - pos <= Z.of_nat fuel -> full src (Z.to_nat pos) (contents s.2) ->
  wpM L (dense_stream fuel fd (remote_chunk r) (zlen src) pos false payload) s g (fun g' x s' =>
    g'.1 = g.1 /\ extends s.2 g' x s'.2 (full src (length src))).
Proof.
  revert pos payload s g. induction fuel as [|fuel IH]; intros pos payload s g Hfd Hp Hf Hc; cbn [dense_stream].
  all: destruct (decide (zlen src <= pos)); [apply wpM_ret; split; [done|]; apply extends_nil; [done|]; intros _ _; apply (full_mono _ _ (Z.to_nat pos)); [unfold zlen in *; lia|done]|].
  { lia. }
  apply wpM_bind, wpM_call; [done|]. intros stop Hs. cbn [mupd latched stop_answer].
  destruct stop; [apply wpM_ret; split; [done|]; by apply extends_nil|].
  apply wpM_bind, wpM_call; [done|]. intros d Hd. cbn [mupd latched stop_answer fst snd]. change (mupd CM g.1 (pread fd (remote_chunk r) pos) d) with g.1.
  destruct d as [d|e]; [|apply wpM_bind, rsay_ok, wpM_ret; split; [done|]; by apply extends_nil].
  change (reads src pos (remote_chunk r) d) in Hd. destruct (read_bounds pos (remote_chunk r) d ltac:(lia) ltac:(lia) Hd) as (Hne & Hl & He & Hpre).
  destruct d as [|b d]; [done|]. set (db := b :: d) in *. apply wpM_bind. eapply wpM_mono; [apply send_ok|]. cbn beta.
  intros g1 [ok f] s1 (-> & -> & ->). destruct ok; cbn [negb].
  - eapply wpM_mono; [apply IH; try done; [lia|lia|cbn [snd]; apply store_block; try done; by apply full_holds]|]. cbn beta. intros g2 x s2 [Hg Hx].
    split; [done|]. eapply extends_cons; [|exact Hx]. by split_and!.
  - apply wpM_ret. split; [done|]. by apply (extends_fail _ _ _ _ _ _ (rf_write db pos, false)).
Qed.

Lemma sparse_stream_ok fuel fd pos payload (s : fsu * rlog) (g : mstate L) :
  is_src (cg_fds g.1) fd -> 0 <= pos -> zlen src - pos <= Z.of_nat fuel -> holds src (Z.to_nat pos) (contents s.2) ->
  wpM L (sparse_stream fuel fd (remote_chunk r) (zlen src) pos false payload) s g (fun g' x s' =>
    g'.1 = g.1 /\ extends s.2 g' x s'.2 (holds src (length src))).
Proof.
  revert pos payload s g. induction fuel as [|fuel IH]; intros pos payload s g Hfd Hp Hf Hc; cbn [sparse_stream].
  all: destruct (decide (zlen src <= pos)); [apply wpM_ret; split; [done|]; apply extends_nil; [done|]; intros _ _; apply (holds_mono _ _ (Z.to_nat pos)); [unfold zlen in *; lia|done]|].
  { lia. }
  apply wpM_bind, wpM_call; [done|]. intros stop Hs. cbn [mupd latched stop_answer].
  destruct stop; [apply wpM_ret; split; [done|]; by apply extends_nil|].
  apply wpM_bind, wpM_call; [done|]. intros d Hd. cbn [mupd latched stop_answer fst snd]. change (mupd CM g.1 (seek_data fd pos) d) with g.1.
  change (match d with Ok d => pos <= d /\ forall x b, pos <= Z.of_nat x < d -> src !! x = Some b -> b = x00
                     | Err e => e = ENXIO -> forall x b, pos <= Z.of_nat x -> src !! x = Some b -> b = x00 end) in Hd.
  assert (Hnext : match next_data pos d with
    | inl true => holds src (length src) (contents s.2)
    | inl false => True
    | inr data => pos <= data /\ forall q, q <= data -> holds src (Z.to_nat q) (contents s.2)
    end).
  { unfold next_data. destruct d as [d|e].
    - destruct Hd as [Hd Hz]. split; [done|]. intros q Hq. eapply holds_zeros; [done|]. intros x b Hx. apply Hz. lia.
    - case_decide as He; [eapply holds_zeros; [done|]; intros x b Hx; apply Hd; [done|lia]|]. destruct (seek_refused e); [|done].
      split; [lia|]. intros q Hq. apply (holds_mono _ _ (Z.to_nat pos)); [lia|done]. }
  destruct (next_data pos d) as [[]|data]; cbn [negb when].
  { apply wpM_bind, wpM_ret, wpM_ret. split; [done|]. by apply extends_nil. }
  { apply wpM_bind, rsay_ok, wpM_ret. split; [done|]. by apply extends_nil. }
  destruct Hnext as [Hle Hn]. case_decide as Hend.
  { apply wpM_ret. split; [done|]. apply extends_nil; [done|]. intros _ _.
    replace (length src) with (Z.to_nat (zlen src)) by (unfold zlen; lia). by apply Hn. }
  apply wpM_bind, wpM_call; [done|]. intros h Hh. cbn [mupd latched stop_answer fst snd]. change (mupd CM g.1 (seek_hole fd data) h) with g.1.
  destruct h as [h|e]; [|apply wpM_bind, rsay_ok, wpM_ret; split; [done|]; by apply extends_nil].
  change (data < h) in Hh. cbv zeta. set (hole := if decide _ then _ else _). assert (Hb : data < hole <= zlen src) by (subst hole; case_decide; lia).
  apply wpM_bind. eapply wpM_mono; [apply extent_stream_ok; try done; [lia|lia|lia|by apply Hn]|]. cbn beta.
  intros g1 [[ok f] p1] s1 [-> Hx]. destruct ok; cbn [negb].
  - pose proof Hx as (ws & Hlog & _ & Hx'). destruct (Hx' eq_refl) as (Hf1 & _ & Hx2). cbn in Hf1. subst f.
    eapply wpM_mono; [apply IH; try done; [lia|lia|by apply Hx2]|]. cbn beta. intros g2 x s2 [Hg Hx3]. split; [done|].
    by eapply extends_trans; [exact Hx| |exact Hx3].
  - apply wpM_ret. split; [done|]. destruct Hx as (ws & -> & Ha & _). by exists ws.
Qed.

(** ** The whole copy *)

(** Neither publishes nor ends a file. *)
Definition quiet (f : rframe * bool) : Prop := ~ publishes f /\ ~ closes f.
Lemma any_write_quiet ws : Forall any_write ws -> Forall quiet ws.
Proof. intros H. eapply Forall_impl; [exact H|]. intros [[] []] Hw; (by destruct Hw) || (by split; intros []). Qed.

Definition trunc_frames : rlog := if t_sparse t then [(rf_trunc (zlen src), true)] else [].
Lemma stream_body_ok fuel fd (s : fsu * rlog) (g : mstate L) :
  is_src (cg_fds g.1) fd -> zlen src <= Z.of_nat fuel -> contents s.2 = [] ->
  wpM L (stream_body fuel t fd (remote_chunk r) false) s g (fun g' '(ok, f, _) s' => g'.1 = g.1 /\
    (exists l, s'.2 = s.2 ++ l /\ Forall quiet l) /\
    (ok = true -> f = false /\ exists ws, s'.2 = s.2 ++ ws ++ trunc_frames /\ Forall (is_write (zlen src)) ws /\ contents s'.2 = src)).
Proof.
  intros Hfd Hf Hc. unfold stream_body. cbv zeta. rewrite Hsize. set (P := if t_sparse t then holds src (length src) else full src (length src)).
  apply wpM_bind. apply (wpM_mono L _ _ _ (fun (g' : mstate L) x (s' : fsu * rlog) => g'.1 = g.1 /\ extends s.2 g' x s'.2 P)).
  { subst P. destruct (t_sparse t).
    - apply sparse_stream_ok; [done|lia|lia|]. rewrite Hc. apply full_holds, full_nil.
    - apply dense_stream_ok; [done|lia|lia|]. rewrite Hc. apply full_nil. }
  intros g1 [[ok f] payload] s1 [Hg Hx]. destruct Hx as (ws & Hlog & Ha & Hok). cbn in Hok.
  assert (Hq : exists l, s1.2 = s.2 ++ l /\ Forall quiet l) by (exists ws; split; [done|by apply any_write_quiet]).
  destruct ok; cbn [negb]; [|by apply wpM_ret]. destruct (Hok eq_refl) as (-> & Hw & HP).
  apply wpM_bind, wpM_call; [done|]. intros stop Hs. cbn [mupd latched stop_answer]. destruct stop; [by apply wpM_ret|].
  assert (H2 : g1.2 = false) by (destruct (g1.2) eqn:E; [by specialize (Hs E)|done]). specialize (HP H2).
  unfold P, trunc_frames in *. destruct (t_sparse t).
  - apply wpM_bind. apply (wpM_mono L _ _ _ (fun (g' : mstate L) '(ok, f) (s' : fsu * rlog) => g' = (g1.1, false) /\ f = negb ok /\ s' = (s1.1, s1.2 ++ [(rf_trunc (zlen src), ok)]))).
    { apply ask_ok. by split_and!. }
    intros g2 [ok f] s2 (-> & -> & ->). apply wpM_ret. split; [done|]. cbn [snd]. rewrite Hlog. split.
    + exists (ws ++ [(rf_trunc (zlen src), ok)]). rewrite (assoc_L (++)). split; [done|]. apply Forall_app. split; [by apply any_write_quiet|by apply Forall_singleton; split; intros []].
    + intros ->. split; [done|]. exists ws. rewrite (assoc_L (++)), contents_snoc. split_and!; try done. rewrite <- Hlog.
      unfold apply_frame. cbn [fst]. replace (Z.to_nat (zlen src)) with (length src) by (unfold zlen; lia). by apply holds_resize.
  - apply wpM_ret. split; [done|]. split; [done|]. intros _. split; [done|]. exists ws. rewrite app_nil_r. split_and!; [done..|]. by apply full_all.
Qed.

Lemma close_ok fd (s : fsu * rlog) (g : mstate L) (Q : mstate L -> unit -> fsu * rlog -> Prop) :
  is_Some (cg_fds g.1 !! fd) -> Q (with_fds (delete fd) g.1, g.2) tt s -> wpM L (on_fsu (close_ fd)) s g Q.
Proof.
  intros Hfd HQ. apply on_fsu_ok. unfold close_. apply wpM_bind, wpM_call; [done|]. intros x _. apply wpM_ret. by destruct s.
Qed.
Lemma buffer_ok n (s : fsu * rlog) (g : mstate L) (Q : mstate L -> bool -> fsu * rlog -> Prop) :
  (forall b u, Q g b (u, s.2)) -> wpM L (on_fsu (thread_io_buffer n)) s g Q.
Proof.
  intros HQ. apply on_fsu_ok. apply wpM_unseen; [apply unseen_buffer|]. intros b u. destruct g. apply HQ.
Qed.

Lemma putfile_read_ok fuel fd size got (s : fsu * rlog) (g : mstate L) :
  is_src (cg_fds g.1) fd -> size = zlen src -> got `prefix_of` src -> size - zlen got <= Z.of_nat fuel ->
  wpM L (putfile_read fuel fd size got) s g (fun g' d s' => g' = g /\ s' = s /\ (forall x, d = Some x -> x = src)).
Proof.
  intros Hfd ->. revert got. induction fuel as [|fuel IH]; intros got Hp Hf; cbn [putfile_read].
  all: assert (Hl : zlen got <= zlen src) by (apply prefix_length in Hp; unfold zlen; lia).
  all: assert (Hfull : zlen src <= zlen got -> got = src) by (intros H; destruct Hp as [k ->]; unfold zlen in H; rewrite length_app in H; destruct k; [by rewrite app_nil_r|simpl in H; lia]).
  all: destruct (decide (zlen src <= zlen got)); [apply wpM_ret; split_and!; [done|done|]; intros x [= <-]; by apply Hfull|].
  { lia. }
  apply wpM_bind, wpM_call; [done|]. intros d Hd. cbn [mupd latched stop_answer fst snd]. change (mupd CM g.1 (pread fd (zlen src - zlen got) (zlen got)) d) with g.1. rewrite <- surjective_pairing.
  destruct d as [d|e]; [|apply wpM_bind, rsay_ok, wpM_ret; by split_and!].
  change (reads src (zlen got) (zlen src - zlen got) d) in Hd. pose proof (zlen_nonneg got).
  destruct (read_bounds (zlen got) (zlen src - zlen got) d ltac:(lia) ltac:(lia) Hd) as (Hne & Hlen & He & Hpre).
  destruct d as [|b d]; [done|]. apply IH.
  - destruct Hp as [k Hk], Hpre as [k2 Hk2]. exists k2. unfold zlen in Hk2. rewrite Nat2Z.id in Hk2. rewrite Hk, drop_app_length in Hk2. by rewrite Hk, Hk2, (assoc_L (++)).
  - rewrite zlen_app. lia.
Qed.

(** What a record says about a copy that worked, and one that did not. *)
Definition copied_by (log : rlog) : Prop :=
  log = [(rf_put (t_dst t) (t_st t) src_mode src (inplace env), true)] \/
  exists ws, log = (rf_open (t_dst t) (st_mode (t_st t) &. o07777) src_mode (zlen src) (t_sparse t) (inplace env), true) ::
                   ws ++ trunc_frames ++ [(rf_commit (t_st t), true)] /\
    Forall (is_write (zlen src)) ws /\ contents log = src.
Definition given_up (log : rlog) : Prop :=
  Forall (fun f => ~ publishes f) log /\
  forall f, f ∈ log -> (match f with (rf_open _ _ _ _ _ _, true) => True | _ => False end) -> exists c, last log = Some c /\ closes c.

Lemma given_up_nil : given_up [].
Proof. split; [done|]. intros f Hf. by apply not_elem_of_nil in Hf. Qed.
Lemma given_up_open path mode pm n sp ip : given_up [(rf_open path mode pm n sp ip, false)].
Proof. split; [apply Forall_singleton; intros []|]. intros f ->%list_elem_of_singleton []. Qed.
Lemma given_up_last log c : Forall (fun f => ~ publishes f) log -> ~ publishes c -> closes c -> given_up (log ++ [c]).
Proof.
  intros Hl Hc Hcl. split; [apply Forall_app; split; [done|by apply Forall_singleton]|]. intros f _ _. exists c. by rewrite last_snoc.
Qed.

Lemma putfile_ok fuel (u : fsu) :
  zlen src <= Z.of_nat fuel ->
  wpM L (copy_file_remote_putfile env src_fd src_mode fuel t (zlen src)) (u, []) (cg0, false) (fun g' ok s' =>
    cg_fds g'.1 = ∅ /\ if ok : bool then copied_by s'.2 else given_up s'.2).
Proof.
  intros Hf. unfold copy_file_remote_putfile. apply wpM_bind, on_fsu_ok. eapply wpM_mono; [apply open_read_buffered_ok|]. cbn beta. cbn [fst snd].
  intros g1 [fd|] u1 H1; [|apply wpM_ret; rewrite H1; split; [done|apply given_up_nil]]. destruct H1 as (Hfd & _ & ->). cbn [fst snd].
  set (g := (with_fds (insert fd (RSrc 0)) cg0, false) : mstate L).
  assert (Hs : is_src (cg_fds g.1) fd) by (exists 0; by apply lookup_insert_eq).
  assert (Hin : is_Some (cg_fds g.1 !! fd)) by (exists (RSrc 0); by apply lookup_insert_eq).
  assert (Hclosed : cg_fds (with_fds (delete fd) g.1) = ∅) by by apply delete_insert_id.
  apply wpM_bind, buffer_ok. intros ok u2. destruct ok; cbn [negb].
  2: { apply wpM_bind, rsay_ok, wpM_bind, close_ok; [exact Hin|]. apply wpM_ret. split; [exact Hclosed|apply given_up_nil]. }
  apply wpM_bind. eapply wpM_mono; [apply putfile_read_ok; try done; [apply prefix_nil|rewrite zlen_nil; lia]|]. cbn beta.
  intros g2 d s2 (-> & -> & Hd). apply wpM_bind, close_ok; [exact Hin|]. destruct d as [d|]; [|apply wpM_ret; split; [exact Hclosed|apply given_up_nil]].
  rewrite (Hd d) by done. apply wpM_bind, ask_ok. cbn [snd].
  apply (wpM_mono L _ _ _ (fun (g' : mstate L) (x : res unit) (l : rlog) => g' = (with_fds (delete fd) g.1, g.2) /\
    l = [(rf_put (t_dst t) (t_st t) src_mode src (inplace env), is_ok x)])); [apply wpM_bind; unfold wpM, note_frame; cbn; destruct (fate []); by split|].
  intros g3 x l [-> ->]. apply wpM_ret. split; [exact Hclosed|]. cbn [snd]. destruct (is_ok x) eqn:Ex; rewrite ?Ex.
  - by left.
  - split; [apply Forall_singleton; intros []|]. intros f ->%list_elem_of_singleton [].
Qed.

Lemma commit_ok log (u : fsu) (g : mstate L) :
  wpM L (ask (rm_commit (false : bool) (t_st t))) (u, log) g (fun g' ok s' => g' = g /\ s' = (u, log ++ [(rf_commit (t_st t), ok)])).
Proof. apply ask_ok. by split. Qed.

Lemma out_ok f fd payload l (u : fsu) (g : mstate L) o :
  cg_fds g.1 = {[fd := RSrc o]} -> Forall (fun f => ~ publishes f) l ->
  wpM L (copy_file_remote_out f fd payload) (u, l) g (fun g' '(ok, _) s' => cg_fds g'.1 = ∅ /\ ok = false /\ given_up s'.2).
Proof.
  intros Hg Hl. unfold copy_file_remote_out. apply wpM_bind, ask_ok. cbn [snd].
  apply (wpM_mono L _ _ _ (fun (g' : mstate L) (_ : unit) (l' : rlog) => g' = g /\ exists b, l' = l ++ [(rf_abort, b)])); [by split; [|eexists]|].
  intros g1 [] l' [-> [b ->]]. apply wpM_bind, close_ok; [rewrite Hg, lookup_singleton_eq; by eexists|]. apply wpM_ret. split_and!; [|done|].
  - change (delete fd (cg_fds g.1) = ∅). rewrite Hg. by apply delete_singleton_eq.
  - apply given_up_last; [done|intros []|done].
Qed.

Lemma streamed_ok fuel fd (u : fsu) payload0 :
  zlen src <= Z.of_nat fuel ->
  wpM L ('(ok, f, payload) ← stream_body fuel t fd (remote_chunk r) false;
     if negb (ok : bool) then copy_file_remote_out f fd payload else
     done ← ask (rm_commit f (t_st t));
     on_fsu (close_ fd);; mret (done : bool, payload) : RM (bool * Z))
    (u, [(rf_open (t_dst t) (st_mode (t_st t) &. o07777) src_mode (zlen src) (t_sparse t) (inplace env), true)])
    (with_fds (insert fd (RSrc 0)) cg0, payload0) (fun g' '(ok, _) s' => cg_fds g'.1 = ∅ /\ if ok : bool then copied_by s'.2 else given_up s'.2).
Proof.
  intros Hf. set (op := (rf_open _ _ _ _ _ _, true)). set (g := (with_fds (insert fd (RSrc 0)) cg0, payload0) : mstate L).
  assert (Hs : is_src (cg_fds g.1) fd) by (exists 0; by apply lookup_insert_eq).
  assert (Hg : cg_fds g.1 = {[fd := RSrc 0]}) by by apply insert_empty.
  apply wpM_bind. eapply wpM_mono; [by apply stream_body_ok|]. cbn beta. intros g1 [[ok f] payload] [u1 l1] (Hg1 & (l & Hl & Hq) & Hok). cbn [snd] in *.
  assert (Hq1 : Forall (fun f => ~ publishes f) l1).
  { rewrite Hl. apply Forall_app. split; [apply Forall_singleton; intros []|]. eapply Forall_impl; [exact Hq|]. by intros x [? _]. }
  destruct ok; cbn [negb].
  - destruct (Hok eq_refl) as (-> & ws & Hws & Hw & Hc). apply wpM_bind. eapply wpM_mono; [apply commit_ok|]. cbn beta. intros g2 done s2 [-> ->].
    apply wpM_bind, close_ok; [rewrite Hg1, Hg, lookup_singleton_eq; by eexists|]. apply wpM_ret. cbn [fst snd]. split.
    { change (delete fd (cg_fds g1.1) = ∅). rewrite Hg1, Hg. by apply delete_singleton_eq. }
    destruct done; [|apply given_up_last; [done|intros []|done]]. right. exists ws. split_and!; [|done|by rewrite contents_snoc].
    rewrite Hws. cbn [app]. by rewrite <- !(assoc_L (++)).
  - eapply wpM_mono; [apply (out_ok _ _ _ _ _ _ 0); [by rewrite Hg1|done]|]. cbn beta. intros g2 [ok p] s2 (H1 & -> & H2). by split.
Qed.

Lemma copy_file_remote_ok fuel (u : fsu) :
  zlen src <= Z.of_nat fuel ->
  wpM L (copy_file_remote env r src_fd src_mode fuel t) (u, []) (cg0, false) (fun g' '(ok, _) s' =>
    cg_fds g'.1 = ∅ /\ if ok : bool then copied_by s'.2 else given_up s'.2).
Proof.
  intros Hf. unfold copy_file_remote. cbv zeta. rewrite Hsize. destruct (_ && _).
  { apply wpM_bind. eapply wpM_mono; [by apply putfile_ok|]. cbn beta. intros g1 ok s1 H1. apply wpM_ret. exact H1. }
  apply wpM_bind, on_fsu_ok. cbn [fst snd]. apply (wpM_mono CM _ _ _ (fun (g' : mstate CM) fd (_ : fsu) => opened_src cg0 g' fd)).
  { destruct (t_sparse t); [apply open_read_buffered_ok|]. apply wpM_bind. eapply wpM_mono; [apply open_read_maybe_direct_ok|].
    cbn beta. intros g' x s' H. by apply wpM_ret. }
  intros g1 [fd|] u1 H1; [|apply wpM_ret; rewrite H1; split; [done|apply given_up_nil]]. destruct H1 as (Hfd & _ & ->).
  set (g := with_fds (insert fd (RSrc 0)) cg0).
  assert (Hclosed : cg_fds (with_fds (delete fd) g) = ∅) by by apply delete_insert_id.
  assert (Hin : is_Some (cg_fds g !! fd)) by (exists (RSrc 0); by apply lookup_insert_eq).
  apply wpM_bind, ask_ok. cbn [snd].
  apply (wpM_mono L _ _ _ (fun (g' : mstate L) (x : option bool) (l : rlog) => g' = (g, false) /\ (x = None \/ x = Some false) /\
    l = [(rf_open (t_dst t) (st_mode (t_st t) &. o07777) src_mode (zlen src) (t_sparse t) (inplace env), bool_decide (is_Some x))])).
  { apply wpM_bind. unfold wpM, note_frame. cbn. destruct (fate []); cbn; split_and!; try done; auto. }
  intros g2 [f|] l (-> & Hx & ->); cbn [fst].
  2: { apply wpM_bind, close_ok; [done|]. apply wpM_ret. split; [exact Hclosed|]. apply given_up_open. }
  destruct Hx as [?|[= ->]]; [done|]. rewrite bool_decide_true by by eexists. apply wpM_bind, buffer_ok. intros ok u2. cbn [snd]. destruct ok; cbn [negb].
  - by apply streamed_ok.
  - apply wpM_bind, rsay_ok. eapply wpM_mono; [apply (out_ok _ _ _ _ _ _ 0); [by apply insert_empty|apply Forall_singleton; intros []]|].
    cbn beta. intros g3 [ok p] s3 (H1 & -> & H2). by split.
Qed.
End client.

(** * The server's side *)

(** The body of a WRITE frame, and the server's handling of those in a record. *)
Definition write_body (fid off : Z) (d : bytes) : bytes := u64_bytes fid ++ u64_bytes (u64 off) ++ d.
Fixpoint serve_writes (eintr : nat) (fid : Z) (log : rlog) : SM unit :=
  match log with
  | [] => mret tt
  | (rf_write d off, _) :: log => handle_write eintr (write_body fid off d);; serve_writes eintr fid log
  | _ :: log => serve_writes eintr fid log
  end.

(** The same bytes, where what was never written reads as zero. *)
Definition same_bytes (m : gmap Z byte) (l : bytes) : Prop := forall i : nat, default x00 (m !! Z.of_nat i) = default x00 (l !! i).
Lemma same_bytes_store m l d off :
  0 <= off -> same_bytes m l -> same_bytes (store off d m) (store_at (Z.to_nat off) d l).
Proof.
  intros Ho H i. rewrite store_lookup, store_at_lookup. destruct (decide (i < Z.to_nat off)%nat).
  - rewrite decide_False by lia. rewrite (H i). destruct (decide (i < length l)%nat); [done|]. by rewrite lookup_ge_None_2 by lia.
  - destruct (decide (i < Z.to_nat off + length d)%nat).
    + rewrite decide_True by (unfold zlen; lia). do 2 f_equal. lia.
    + rewrite decide_False by (unfold zlen; lia). apply H.
Qed.

Section server.
Context (eintr : nat) (fid fd : Z) (Hfid : is_u64 fid) (Hfd : 0 <= fd).
Abbreviation D := (disk fd).

Lemma serve_broken log n s (g : mstate D) :
  Forall (fun f => is_write n f \/ ~ any_write f) log -> 0 <= n < 2 ^ 63 -> broken fid fd s ->
  wpM D (serve_writes eintr fid log) s g (fun _ _ s' => broken fid fd s').
Proof.
  intros Hall Hn Hb. revert s g Hb. induction Hall as [|[f ok] log Hf Hall IH]; intros s g Hb; [by apply wpM_ret|].
  destruct f; cbn [serve_writes]; try (by apply IH). destruct Hf as [Hf|Hf]; [|by destruct Hf].
  destruct ok; [|done]. destruct Hf as (_ & Ho & Hl). pose proof (zlen_nonneg data). apply wpM_bind.
  eapply wpM_mono; [apply (handle_write_broken _ _ fd); [done|unfold is_i64; lia|done]|]. cbn beta. intros g' [] s' [-> ->]. by apply IH.
Qed.
Lemma serve_writes_ok log n s c b l :
  Forall (fun f => is_write n f \/ ~ any_write f /\ (forall k, f.1 <> rf_trunc k)) log -> 0 <= n < 2 ^ 63 -> healthy fid fd s -> (b <= eintr)%nat -> same_bytes c l ->
  wpM D (serve_writes eintr fid log) s (c, b) (fun g' _ s' =>
    healthy fid fd s' /\ same_bytes g'.1 (foldl apply_frame l log) \/ broken fid fd s').
Proof.
  intros Hall Hn. revert s c b l. induction Hall as [|[f ok] log Hf Hall IH]; intros s c b l Hs Hb Hl; [apply wpM_ret; by left|].
  destruct f; cbn [serve_writes foldl]; try (by apply IH).
  2: { destruct Hf as [Hf|[_ Hf]]; [done|]. by destruct (Hf size). }
  destruct Hf as [Hf|[Hf _]]; [|by destruct Hf]. destruct ok; [|done]. destruct Hf as (_ & Ho & He). pose proof (zlen_nonneg data).
  destruct Hs as (f & Hff & Hfl & Hffd & Hid). rewrite <- Hffd. apply wpM_bind.
  eapply wpM_mono; [apply (handle_write_disk eintr b fid off data f); [done|unfold is_i64; lia|done|done|lia|done]|].
  cbn beta. rewrite Hffd. intros [c1 b1] [] s1 [Hb1 [[H1 Hc]|H1]]; cbn [fst snd] in *.
  - apply IH; [done|lia|]. rewrite Hc. unfold apply_frame. cbn [fst]. by apply same_bytes_store.
  - eapply wpM_mono; [apply (serve_broken log n); [|done|done]|by right].
    eapply Forall_impl; [exact Hall|]. intros x [?|[? _]]; auto.
Qed.
End server.

(** ** End to end *)

(** The server's handling of the WRITE frames of a record on a new file. *)
Definition stored_by_server (src : bytes) (log : rlog) : Prop :=
  forall eintr fid fd s b, is_u64 fid -> 0 <= fd -> healthy fid fd s -> (b <= eintr)%nat ->
    wpM (disk fd) (serve_writes eintr fid log) s (∅, b) (fun g' _ s' =>
      healthy fid fd s' /\ (forall i x, src !! i = Some x -> default x00 (g'.1 !! Z.of_nat i) = x) \/ broken fid fd s').

Lemma serve_writes_tail m eintr fid log tail s (g : mstate m) Q :
  Forall (fun f => ~ any_write f) tail -> wpM m (serve_writes eintr fid log) s g Q -> wpM m (serve_writes eintr fid (log ++ tail)) s g Q.
Proof.
  intros Ht. revert s g. induction log as [|[f ok] log IH]; intros s g H; cbn [app].
  - revert s g H. induction Ht as [|[f ok] tail Hf Ht IH]; intros s g H; [done|]. destruct f; cbn [serve_writes]; try (by apply IH). by destruct Hf.
  - destruct f; cbn [serve_writes] in *; try (by apply IH). apply wpM_bind. unfold wpM, mbind, M_mbind in H. apply wp_bind in H.
    eapply wp_mono; [exact H|]. intros g' [[] s'] H'. by apply IH.
Qed.

Lemma streamed_stored src t ws op ci log :
  zlen src < 2 ^ 63 -> ~ any_write op -> (forall k, op.1 <> rf_trunc k) -> ~ any_write ci -> (forall c, apply_frame c ci = c) -> (forall c, apply_frame c op = c) ->
  log = op :: ws ++ trunc_frames t src ++ [ci] -> Forall (is_write (zlen src)) ws -> contents log = src -> stored_by_server src log.
Proof.
  intros Hlen Hop Hopt Hci Hci2 Hop2 -> Hw Hc eintr fid fd s b Hfid Hfd Hh Hb. rewrite app_comm_cons. apply serve_writes_tail.
  { apply Forall_app. split; [|by apply Forall_singleton]. unfold trunc_frames. destruct (t_sparse t); [|done]. apply Forall_singleton. intros []. }
  pose proof (zlen_nonneg src). eapply wpM_mono; [apply (serve_writes_ok eintr fid fd Hfid Hfd _ (zlen src) s ∅ b []); [|lia|done|done|intros i; by rewrite lookup_empty, lookup_nil]|].
  { constructor; [by right|]. eapply Forall_impl; [exact Hw|]. by left. }
  cbn beta. intros g' _ s' [[H1 H2]|H1]; [left|by right]. split; [done|]. intros i x Hx. rewrite (H2 i). cbn [foldl]. rewrite Hop2.
  unfold contents in Hc. cbn [foldl] in Hc. rewrite Hop2, !foldl_app in Hc. cbn [foldl] in Hc. rewrite Hci2 in Hc.
  set (c := foldl apply_frame [] ws) in *. unfold trunc_frames in Hc. destruct (t_sparse t); cbn [foldl] in Hc; [|by rewrite Hc, Hx].
  unfold apply_frame in Hc. cbn [fst] in Hc. pose proof (lookup_lt_Some _ _ _ Hx) as Hi. rewrite <- Hc in Hx. unfold LocalCopyOk.resize in Hx.
  apply lookup_app_Some in Hx as [Hx|[Hge Hx]].
  - apply lookup_take_Some in Hx as [Hx _]. by rewrite Hx.
  - rewrite length_take in Hge. apply lookup_replicate in Hx as [-> _]. rewrite lookup_ge_None_2; [done|]. unfold zlen in Hge. lia.
Qed.

(** C6.  Copying to a remote destination, end to end. For a source that does
    not change, whatever the kernel and the transport answer: all descriptors
    are closed; success is reported only if the record of requests is one
    accepted PUTFILE with all the bytes and the metadata, or an accepted OPEN,
    accepted WRITEs inside the file, for a sparse source the truncation to its
    size, and a COMMIT the server answered with success; and then a server that
    handles those WRITEs on a new file either has every byte of the source
    (holes reading as zeros) or has marked the file as failed, which COMMIT
    reports. When success is not reported nothing was published, and a file that
    was opened has been aborted or its COMMIT has failed. *)
Theorem remote_copy_exact fate env r src_fd src_mode t src fuel u :
  src_fd <> -1 -> st_size (t_st t) = zlen src -> zlen src < 2 ^ 63 -> zlen src <= Z.of_nat fuel ->
  wpM (latched (copying src_fd (-1) t false src))
    (copy_file_remote (H := log_remote fate) env r src_fd src_mode fuel t) (u, []) (cg0, false) (fun g' '(ok, _) s' =>
      cg_fds g'.1 = ∅ /\
      if ok : bool then
        s'.2 = [(rf_put (t_dst t) (t_st t) src_mode src (inplace env), true)] \/
        (exists ws, s'.2 = (rf_open (t_dst t) (st_mode (t_st t) &. o07777) src_mode (zlen src) (t_sparse t) (inplace env), true) ::
                           ws ++ trunc_frames t src ++ [(rf_commit (t_st t), true)] /\ Forall (is_write (zlen src)) ws) /\
        contents s'.2 = src /\ stored_by_server src s'.2
      else given_up s'.2).
Proof.
  intros Hsrc Hsize Hlen Hf. eapply wpM_mono; [by apply copy_file_remote_ok|]. cbn beta. intros g' [ok p] s' [Hfds Hr]. split; [done|].
  destruct ok; [|done]. destruct Hr as [Hr|(ws & Hl & Hw & Hc)]; [by left|right]. split; [by exists ws|]. split; [done|].
  eapply streamed_stored; [done| | | | | |exact Hl|done|done]; first [done | intros []].
Qed.

(** ** A run *)

Lemma latched_kernel m {K} (h : forall R, posix R -> K -> R * K) I :
  kernel_ok m h I -> (forall k, h _ shutdown_requested k = (false, k)) -> kernel_ok (latched m) h (fun k g => I k g.1 /\ g.2 = false).
Proof.
  intros Hh Hstop k [g b] R e [HI Hb] Hp. cbn in HI, Hb. subst b.
  destruct e; try (destruct (Hh k g _ _ HI Hp) as [H1 H2]; split; [exact H1|]; split; [exact H2|done]).
  rewrite Hstop. by split.
Qed.

(** Five bytes in blocks of two, over the streamed path. *)
Definition r_config : runtime := Runtime 1 1 1 1 1 1 false 2 (2 ^ 30) 0 1 1 1 true.
Lemma remote_copy_exact_witness :
  exists s' k, run (answering 3 (copy_task 5) (str "hello") None)
      (copy_file_remote (H := log_remote (fun _ => true)) no_env r_config 3 o0755 5 (copy_task 5) (fsu0, [])) (cg0, 5) = Some ((true, 5, s'), k) /\
    contents s'.2 = str "hello" /\ stored_by_server (str "hello") s'.2.
Proof.
  assert (Hlen : zlen (str "hello") < 2 ^ 63) by (vm_compute; reflexivity).
  assert (Hfuel : zlen (str "hello") <= Z.of_nat 5) by (vm_compute; congruence).
  pose proof (remote_copy_exact (fun _ => true) no_env r_config 3 o0755 (copy_task 5) (str "hello") 5 fsu0 ltac:(discriminate) eq_refl Hlen Hfuel) as H.
  clear Hlen Hfuel.
  eapply (wp_run (latched (copying 3 (-1) (copy_task 5) false (str "hello"))) (answering 3 (copy_task 5) (str "hello") None) _ _ (cg0, 5)) in H
    as ([[ok p] s'] & k & g & Hrun & _ & _ & H); [|exact id|apply latched_kernel; [apply answering_ok|by intros []]|].
  2: { split; [|reflexivity]. split; [reflexivity|]. split; [cbn; lia|]. split; [|cbn; congruence].
       intros fd [o Ho]. cbn in Ho. rewrite lookup_empty in Ho. discriminate. }
  assert (E : exists s1 k1, run (answering 3 (copy_task 5) (str "hello") None)
      (copy_file_remote (H := log_remote (fun _ => true)) no_env r_config 3 o0755 5 (copy_task 5) (fsu0, [])) (cg0, 5) = Some ((true, 5, s1), k1) /\
      head s1.2 <> Some (rf_put (str "dst/f") (t_st (copy_task 5)) o0755 (str "hello") false, true)).
  { do 2 eexists. split; [vm_compute; reflexivity|]. vm_compute. discriminate. }
  destruct E as (s1 & k1 & E & Hhead). rewrite E in Hrun. injection Hrun as <- <- <- <-. exists s1, k1. split; [exact E|].
  destruct H as [H|[_ [H1 H2]]]; [|split; [exact H1|exact H2]]. exfalso. apply Hhead. rewrite H. reflexivity.
Defined.

(** * File systems without SEEK_DATA *)

Definition holeless : monitor posix := Monitor unit (fun _ R e => match e with shutdown_requested => False | _ => True end)
  (fun _ R e => match e in posix R return R -> Prop with seek_data _ _ | seek_hole _ _ => fun r => r = Err EINVAL | _ => fun _ => True end)
  (fun g _ _ _ => g) False.

Section holeless.
Context (fate : rlog -> bool) (env : fsenv) (r : runtime) (src_fd src_mode : Z) (t : task).
#[local] Instance holeless_log : remote rlog bool := log_remote fate.
Abbreviation RM := (M posix (fsu * rlog)).
(** With the shutdown flag, which stays set. *)
Abbreviation W := (latched holeless).

Lemma holeless_no_stop g : ~ mpre holeless g shutdown_requested.
Proof. intros []. Qed.
Lemma holeless_fsu {A} (c : FM A) s (g : mstate W) (Q : mstate W -> A -> fsu * rlog -> Prop) :
  completes holeless c -> (forall a s', Q g a s') -> wpM W (on_fsu c) s g Q.
Proof.
  intros Hc HQ. unfold wpM, on_fsu. apply wp_bind. destruct g as [u b].
  eapply wp_mono; [apply (wp_latched holeless holeless_no_stop _ u b _ (Hc s.1 u))|]. intros [[] b'] [a v] [_ Hb]. cbn in Hb. subst b'.
  destruct u. apply HQ.
Qed.
Lemma holeless_ask {A} (c : M posix rlog A) s (g : mstate W) (Q : mstate W -> A -> fsu * rlog -> Prop) :
  (forall l, exists a l', c l = Ret (a, l')) -> (forall a s', Q g a s') -> wpM W (ask c) s g Q.
Proof. intros Hc HQ. unfold wpM, ask. apply wp_bind. destruct (Hc s.2) as (a & l & ->). apply HQ. Qed.
Lemma holeless_say x (s : fsu * rlog) (g : mstate W) (Q : mstate W -> unit -> fsu * rlog -> Prop) : Q g tt s -> wpM W (rsay x) s g Q.
Proof. intros HQ. apply wpM_call; [done|]. intros [] _. by destruct g. Qed.

Ltac fs_solve := repeat first [completes_step | progress unfold complain, close_].
Lemma close_holeless fd : completes holeless (close_ fd).
Proof. fs_solve. Qed.
Lemma validate_holeless fd display e : completes holeless (validate_opened_source_file fd display e).
Proof. unfold validate_opened_source_file. fs_solve. Qed.
Lemma open_holeless dfd name display e : completes holeless (open_read_at_buffered dfd name display e).
Proof. unfold open_read_at_buffered. pose proof validate_holeless. fs_solve. Qed.
Lemma buffer_holeless n : completes holeless (thread_io_buffer n).
Proof. unfold thread_io_buffer. fs_solve. Qed.

Lemma out_holeless f fd payload (s : fsu * rlog) (g : mstate W) :
  wpM W (copy_file_remote_out f fd payload) s g (fun _ '(ok, _) _ => ok = false).
Proof.
  unfold copy_file_remote_out. apply wpM_bind, holeless_ask; [by do 2 eexists|]. intros [] s1.
  apply wpM_bind, holeless_fsu; [apply close_holeless|]. intros [] s2. by apply wpM_ret.
Qed.
Lemma sparse_holeless fuel fd chunk size f payload (s : fsu * rlog) (g : mstate W) :
  0 < size -> (0 < fuel)%nat ->
  wpM W (sparse_stream fuel fd chunk size 0 f payload) s g (fun g' '(ok, _, _) _ => ok = true -> g'.2 = true).
Proof.
  intros Hs Hf. destruct fuel as [|fuel]; [lia|]. cbn [sparse_stream]. rewrite decide_False by lia.
  apply wpM_bind, wpM_call; [done|]. intros stop _. cbn [mupd latched stop_answer]. destruct stop; [by apply wpM_ret|].
  apply wpM_bind, wpM_call; [done|]. intros d Hd. change (d = Err EINVAL) in Hd. subst d.
  change (next_data 0 (Err EINVAL)) with (inr 0 : bool + Z). cbv iota beta. rewrite decide_False by lia.
  apply wpM_bind, wpM_call; [done|]. intros h Hh. change (h = Err EINVAL) in Hh. subst h. cbv iota beta.
  apply wpM_bind, holeless_say. by apply wpM_ret.
Qed.
End holeless.

(** C35.  A sparse file on a file system that knows neither SEEK_DATA nor
    SEEK_HOLE cannot be copied to a remote destination: whatever else is
    answered, the copy fails. The code means to send the rest as data, but then
    asks for the end of it, and takes the refusal for an error. The local copy
    sends everything. *)
Theorem remote_sparse_needs_holes fate env r src_fd src_mode fuel t s :
  t_sparse t = true -> 0 < st_size (t_st t) -> (0 < fuel)%nat ->
  wpM (latched holeless) (copy_file_remote (H := log_remote fate) env r src_fd src_mode fuel t) s (tt, false) (fun _ '(ok, _) _ => ok = false).
Proof.
  intros Hsp Hsize Hf. unfold copy_file_remote. cbv zeta. rewrite Hsp. cbn [negb andb].
  apply wpM_bind, holeless_fsu; [apply open_holeless|]. intros [fd|] s1; [|by apply wpM_ret].
  apply wpM_bind, holeless_ask; [by intros l; cbn; destruct (fate l); do 2 eexists|]. intros [f|] s2.
  2: { apply wpM_bind, holeless_fsu; [apply close_holeless|]. intros [] s3. by apply wpM_ret. }
  apply wpM_bind, holeless_fsu; [apply buffer_holeless|]. intros ok s3. destruct ok; cbn [negb].
  2: { apply wpM_bind, holeless_say, out_holeless. }
  apply wpM_bind. apply (wpM_mono (latched holeless) _ _ _ (fun _ '(ok, _, _) _ => ok = false)).
  - unfold stream_body. cbv zeta. rewrite Hsp. apply wpM_bind. eapply wpM_mono; [by apply sparse_holeless|]. cbn beta.
    intros g4 [[ok f4] p4] s4 Hstop. destruct ok; cbn [negb]; [|by apply wpM_ret].
    apply wpM_bind, wpM_call; [done|]. intros stop Hst. cbn [madm latched stop_answer] in Hst. rewrite Hst by by apply Hstop. by apply wpM_ret.
  - intros g4 [[ok f4] p4] s4 ->. cbn [negb]. apply out_holeless.
Qed.

Definition sparse_task : task := Task (str "src/f") (str "dst/f") (str "f") (t_st (copy_task 5)) true 0.
Definition no_seeks (R : Type) (e : posix R) (k : kstate) : R * kstate :=
  match e in posix R return R * kstate with
  | seek_data _ _ | seek_hole _ _ => (Err EINVAL, k)
  | fstat _ => (Ok (t_st sparse_task), k)
  | e => permissive _ e k
  end.
Lemma remote_sparse_needs_holes_witness :
  exists p s k, run no_seeks (copy_file_remote (H := log_remote (fun _ => true)) no_env r_config 3 o0755 5 sparse_task (fsu0, [])) (Kstate 5 []) = Some (false, p, s, k).
Proof.
  pose proof (remote_sparse_needs_holes (fun _ => true) no_env r_config 3 o0755 5 sparse_task (fsu0, []) eq_refl eq_refl (Nat.lt_0_succ 4)) as H.
  eapply (wp_run (latched holeless) no_seeks _ _ (Kstate 5 [])) in H as ([[ok p] s] & k & g & Hrun & _ & H);
    [|exact id|apply (latched_kernel holeless no_seeks (fun _ _ => True)); [|intros []; reflexivity]|split; [exact Logic.I|reflexivity]].
  - exists p, s, k. cbv beta iota in H. subst ok. exact Hrun.
  - intros k0 g0 R e _ _. split; [|exact Logic.I]. destruct e; try exact Logic.I; reflexivity.
Defined.
