(* ===== verification/PutFile.v ===== *)
(** What PUTFILE promises, from the moment the file is created: the name is only
    taken by a complete file. *)

From S2P Require Export MetaOk SshWire.
From stdpp Require Import list.
#[local] Open Scope Z_scope.

(** * The monitor

    The bytes written, the metadata, how the descriptor and the temporary name
    end, and the interrupts still to come. *)
Record pghost := PG {
  pg_data : bytes; pg_meta : mghost; pg_closed : bool; pg_close_ok : bool; pg_renamed : bool; pg_unlinked : bool; pg_intr : nat
}.
(** A new file with the permission bits [mode]. *)
Definition pghost0 (mode : Z) (intr : nat) : pghost := PG [] (MG true (Some mode) nothing_done) false false false false intr.

Section putfile.
Context (eintr : nat) (fd dfd : Z) (tmp base : bytes) (data : bytes).

Definition put_pre (g : pghost) R (e : posix R) : Prop :=
  match e with
  | write d _ | fchown d _ _ | fchmod d _ | futimens d _ _ | close d => d = fd /\ pg_closed g = false
  | renameat d n d' n' =>
      d = dfd /\ d' = dfd /\ n = tmp /\ n' = base /\ pg_data g = data /\ mg_ok (pg_meta g) = true /\ pg_closed g = true /\ pg_close_ok g = true
  | unlinkat d n _ => d = dfd /\ n = tmp /\ pg_renamed g = false
  | getenv _ | clock_gettime | eprintf _ => True
  | _ => False
  end.
Definition put_adm (g : pghost) R (e : posix R) : R -> Prop :=
  match e in posix R return R -> Prop with
  | write _ d => fun r => match r with Ok w => 0 <= w <= zlen d | Err e => 0 < e /\ (e = EINTR -> (0 < pg_intr g)%nat) end
  | fchown _ _ _ | fchmod _ _ | futimens _ _ _ | close _ | renameat _ _ _ _ => positive_err
  | _ => fun _ => True
  end.
Definition with_meta (m : mghost) (g : pghost) : pghost :=
  PG (pg_data g) m (pg_closed g) (pg_close_ok g) (pg_renamed g) (pg_unlinked g) (pg_intr g).
Definition put_upd (g : pghost) R (e : posix R) : R -> pghost :=
  match e in posix R return R -> pghost with
  | write _ d => fun r =>
      match r with
      | Ok w => PG (pg_data g ++ take (Z.to_nat w) d) (MG (mg_ok (pg_meta g)) (strip (mg_mode (pg_meta g))) (mg_done (pg_meta g))) (pg_closed g)
                  (pg_close_ok g) (pg_renamed g) (pg_unlinked g) (pg_intr g)
      | Err e => PG (pg_data g) (pg_meta g) (pg_closed g) (pg_close_ok g) (pg_renamed g) (pg_unlinked g)
                   (if decide (e = EINTR) then pred (pg_intr g) else pg_intr g)
      end
  | fchown d u v => fun r => with_meta (meta_upd (pg_meta g) _ (fchown d u v) r) g
  | fchmod d m => fun r => with_meta (meta_upd (pg_meta g) _ (fchmod d m) r) g
  | futimens d a m => fun r => with_meta (meta_upd (pg_meta g) _ (futimens d a m) r) g
  | getenv n => fun r => with_meta (meta_upd (pg_meta g) _ (getenv n) r) g
  | close _ => fun r => PG (pg_data g) (pg_meta g) true (is_ok r) (pg_renamed g) (pg_unlinked g) (pg_intr g)
  | renameat _ _ _ _ => fun r => PG (pg_data g) (pg_meta g) (pg_closed g) (pg_close_ok g) (is_ok r) (pg_unlinked g) (pg_intr g)
  | unlinkat _ _ _ => fun _ => PG (pg_data g) (pg_meta g) (pg_closed g) (pg_close_ok g) (pg_renamed g) true (pg_intr g)
  | _ => fun _ => g
  end.
Definition putting : monitor posix := Monitor pghost put_pre put_adm put_upd False.
Abbreviation PM := putting.

(** ** The data *)

(** Written so far: only data, set-id bits and interrupts have changed. *)
Definition wrote (g g' : pghost) : Prop :=
  mg_ok (pg_meta g') = mg_ok (pg_meta g) /\
  (mg_mode (pg_meta g') = mg_mode (pg_meta g) \/ mg_mode (pg_meta g') = strip (mg_mode (pg_meta g))) /\
  pg_closed g' = pg_closed g /\ pg_renamed g' = pg_renamed g /\ pg_unlinked g' = pg_unlinked g.
#[local] Instance wrote_preorder : PreOrder wrote.
Proof.
  split; [intros g; split_and!; auto|]. intros a b c (? & Hm & ? & ? & ?) (? & Hm' & ? & ? & ?). split_and!; try congruence.
  destruct Hm as [Hm|Hm], Hm' as [Hm'|Hm']; rewrite Hm', ?Hm, ?strip_idem; auto.
Qed.
Lemma put_loop_ok fuel d n (g : mstate PM) :
  pg_closed g = false -> (length d + pg_intr g <= fuel)%nat ->
  wp PM (put_loop fuel fd d n) g (fun g' '(_, err) => wrote g g' /\ 0 <= err /\ (err = 0 -> pg_data g' = pg_data g ++ d)).
Proof.
  revert d n g. induction fuel as [|fuel IH]; intros d n g Hc Hf; (destruct d as [|b d]; [cbn; by rewrite app_nil_r|]).
  { simpl in Hf. lia. }
  cbn [put_loop]. set (db := b :: d) in *. split; [by split|]. intros [w|e] Hr; cbn [madm PM putting put_adm] in Hr.
  - case_decide as Hw.
    + subst w. cbn [mupd PM putting put_upd]. split; [split_and!; cbn; auto|]. by split.
    + eapply wp_mono; [apply IH; [done|cbn [pg_intr mupd PM putting put_upd]; rewrite length_drop; unfold zlen in Hr; subst db; cbn [length] in *; lia]|].
      cbn [mupd PM putting put_upd]. intros g' [n' err] (H1 & H2 & H3). split_and!; [|done|].
      * etrans; [|exact H1]. split_and!; cbn; auto.
      * intros He. rewrite (H3 He). cbn [pg_data]. by rewrite <- (assoc_L (++)), take_drop.
  - destruct Hr as [Hpos Hi]. case_decide as He.
    + specialize (Hi He). eapply wp_mono; [apply IH; [done|cbn [pg_intr mupd PM putting put_upd]; rewrite decide_True by done; lia]|].
      cbn [mupd PM putting put_upd]. intros g' [n' err] (H1 & H2 & H3). split_and!; [|done|done]. etrans; [|exact H1]. split_and!; cbn; auto.
    + cbn [mupd PM putting put_upd]. rewrite decide_False by done. split; [split_and!; cbn; auto|]. split; [lia|]. intros ->. lia.
Qed.

(** ** The metadata *)

Lemma put_meta_ok m set s (g : mstate PM) :
  pg_closed g = false -> mg_ok (pg_meta g) = true ->
  wpM PM (apply_meta fd m set) s g (fun g' r s' => exists a, g' = with_meta a g /\ same_server s s' /\ r.1 <= 0 /\ (r.1 = 0 <-> mg_ok a = true) /\
    (mg_ok a = true -> applied (s_cfg s) m (mg_done a) /\
      if set then mg_mode a = mg_mode (pg_meta g) \/ mg_mode a = strip (mg_mode (pg_meta g)) else mg_mode a = Some (mt_mode m &. o07777))).
Proof.
  intros Hc Hm. pose (R := fun (a : mghost) (c : pghost) => c = with_meta a g).
  eapply wpM_mono; [eapply (wpM_sim (metadata fd) PM R) with (g := pg_meta g); [| |unfold R; by destruct g|by apply apply_meta_ok]|].
  - intros [ok mo [ow ti ho]] c T e -> Hp. destruct e; cbn in Hp; try done; (split; [done|]); intros r Hr; (split; [exact Hr|done]).
  - done.
  - intros g' r s' (a & -> & H). by exists a.
Qed.
Lemma ns_put s (g : mstate PM) : wpM PM server_ns s g (fun g' _ s' => g' = g /\ s' = s).
Proof. unfold server_ns. wp_call r Hr. by wp_step. Qed.

(** ** The file *)

(** The permission bits at the end: those asked for, unless they were left as
    the file was created and had set-id bits, which may be lost. *)
Definition mode_right (q : put_req) (set : bool) (created : Z) (g : pghost) : Prop :=
  if set then strip (Some created) = Some created -> mg_mode (pg_meta g) = Some created
  else mg_mode (pg_meta g) = Some (mt_mode (pr_meta q) &. o07777).
Definition put_succeeded (cfg : config) (q : put_req) (inplace set : bool) (created : Z) (g : pghost) : Prop :=
  pg_data g = data /\ mg_ok (pg_meta g) = true /\ pg_close_ok g = true /\ pg_renamed g = negb inplace /\ mode_right q set created g /\
  applied cfg (pr_meta q) (mg_done (pg_meta g)).
Definition put_failed (inplace : bool) (g : pghost) : Prop := pg_renamed g = false /\ pg_unlinked g = negb inplace.

Lemma put_body_ok q finalp inplace set de created intr s :
  pr_data q = data -> (intr <= eintr)%nat ->
  wpM PM (put_body eintr q finalp base tmp inplace set dfd de fd) s (pghost0 created intr) (fun g' _ s' =>
    pg_closed g' = true /\ g_files s' = g_files s /\
    (s_err s' = s_err s /\ put_succeeded (s_cfg s) q inplace set created g' \/
     exists path err, err <> 0 /\ s_err s' = log_op_error_log path err (s_err s) /\ put_failed inplace g')).
Proof.
  intros Hdata Hi. unfold put_body. wp_step. eapply wpM_mono; [apply ns_put|]. cbn beta. intros g1 t0 s1 [-> ->].
  wp_step. apply wpM_lift. rewrite Hdata. eapply wp_mono; [apply put_loop_ok; [done|cbn [pg_intr pghost0]; lia]|]. cbn beta.
  intros g1 [n err] ((Hok & Hmode & Hc & Hre & Hun) & Herr & Hall). unfold add_drain_bytes, add_drain_ns. repeat wp_step_pure.
  eapply wpM_mono; [apply ns_put|]. cbn beta. intros g2 t1 s2 [-> ->]. repeat wp_step_pure.
  cbn [pghost0 pg_meta mg_ok mg_mode pg_closed pg_renamed pg_unlinked pg_data] in *. rewrite app_nil_l in Hall.
  set (s2 := set_g_drain_ns _ _). assert (F2 : same_server s s2) by by split_and!. clearbody s2.
  (* the metadata *)
  apply (wpM_mono PM _ _ _ (fun (g' : pghost) r s' => same_server s s' /\ pg_closed g' = false /\ pg_renamed g' = false /\ pg_unlinked g' = false /\
    0 <= r.1 /\ (r.1 = 0 -> pg_data g' = data /\ mg_ok (pg_meta g') = true /\ mode_right q set created g' /\ applied (s_cfg s) (pr_meta q) (mg_done (pg_meta g'))))).
  { case_decide as He; [|wp_step; split_and!; try done; intros ->; by destruct He].
    wp_step. eapply wpM_mono; [apply put_meta_ok; done|]. cbn beta. intros g3 [st op] s3 (a & -> & F3 & Hle & Hst & Hm). wp_step.
    cbn [fst] in *. split; [by etrans|]. split_and!; [done|done|done|case_decide; lia|]. intros H0. assert (st = 0) as Hz by (case_decide; lia).
    destruct (Hm (proj1 Hst Hz)) as [Happ Hm']. clear Hm. rename Hm' into Hm.
    assert (Hcfg : s_cfg s2 = s_cfg s) by apply F2. rewrite Hcfg in Happ. split_and!; [by apply Hall|by apply Hst| |done]. unfold mode_right. cbn [with_meta pg_meta].
    destruct set; [|done]. intros Hs. destruct Hm as [->| ->], Hmode as [->| ->]; by rewrite ?Hs. }
  intros g3 [err3 op3] s3 (F3 & Hc3 & Hr3 & Hu3 & Hp3 & H3). cbn [fst] in *.
  wp_call rc Hrc. cbn [madm PM putting put_adm] in Hrc. cbn [mupd PM putting put_upd].
  set (g4 := PG _ _ true _ _ _ _). cbv zeta. set (err4 := err_of err3 rc).
  assert (H4 : 0 <= err4 /\ (err4 = 0 -> err3 = 0 /\ is_ok rc = true)).
  { subst err4. unfold err_of. destruct rc as [[]|e]; [by split|]. unfold positive_err in Hrc. case_decide; split; try lia. }
  (* the rename *)
  wp_step. apply (wpM_mono PM _ _ _ (fun (g' : pghost) err s' => s' = s3 /\ pg_closed g' = true /\ pg_unlinked g' = false /\
    ((err = 0 /\ put_succeeded (s_cfg s) q inplace set created g') \/ (err <> 0 /\ pg_renamed g' = false)))).
  { destruct H4 as [Hp4 H4]. destruct (bool_decide (err4 = 0)) eqn:E4; cbn [andb].
    - apply bool_decide_eq_true in E4. destruct (H4 E4) as [E3 Hok4]. destruct (H3 E3) as (D3 & M3 & Q3 & A3). destruct inplace; cbn [negb].
      + wp_step. split_and!; try done. left. split; [done|]. by split_and!.
      + wp_call rr Hrr. wp_step. cbn [mupd PM putting put_upd]. split_and!; try done.
        rewrite E4. destruct rr as [[]|e]; [left; split; [done|]; by split_and!|right]. change (0 < e) in Hrr. split; [unfold err_of; case_decide; lia|done].
    - apply bool_decide_eq_false in E4. wp_step. split_and!; try done. by right. }
  intros g5 err5 s5 (-> & Hc5 & Hu5 & H5). wp_step.
  apply (wpM_mono PM _ _ _ (fun (g' : pghost) (_ : unit) s' => s' = s3 /\ pg_closed g' = true /\
    ((err5 = 0 /\ put_succeeded (s_cfg s) q inplace set created g') \/ (err5 <> 0 /\ put_failed inplace g')))).
  { destruct H5 as [[-> H5]|[Hne H5]]; [wp_step; split_and!; try done; by left|]. rewrite bool_decide_eq_false_2 by done. cbn [negb andb].
    unfold put_failed. destruct inplace; cbn [negb when]; [wp_step; split_and!; try done; by right|].
    wp_call ru Hru. wp_step. cbn. split_and!; try done. by right. }
  intros g6 [] s6 (-> & Hc6 & H6). wp_step.
  apply (wpM_mono PM _ _ _ (fun (g' : pghost) (_ : unit) s' => g' = g6 /\ same_server s3 s')).
  { unfold release_dir. apply wpM_zoom. unfold dir_fd_release. by apply wpM_modify. }
  intros g7 [] s7 [-> F7]. destruct F3 as (A1 & _ & A2), F7 as (B1 & _ & B2), F2 as (C1 & _ & C2).
  destruct H6 as [[-> H6]|[Hne H6]].
  - rewrite decide_True by done. wp_step. split_and!; [done|congruence|]. left. split; [congruence|done].
  - rewrite decide_False by done. unfold log_op_error. wp_step. split_and!; [done|cbn; congruence|]. right.
    exists (diagnostic finalp op3), err5. split; [exact Hne|]. split; [|exact H6]. assert (E : s_err s7 = s_err s) by congruence. rewrite <- E. done.
Qed.
End putfile.

(** C7.  A small file is published whole or not at all. Take the one frame the
    client sends for it (the metadata [st], the bytes [data]) and the server's
    PUTFILE from the moment it has created the file, which it does with the
    file's own mode when its owner may write to it: whatever the kernel answers,
    the descriptor is closed exactly once and the final name is only taken by a
    file that has all the bytes, after its metadata and its close have succeeded;
    then, and only then, no error is logged, its times and (as far as the server
    may) its ownership have been set to those of [st], and its permission bits
    are those of [st], except that set-id bits may be lost where the mode was
    not set again. Otherwise an error is logged and an unlink of the temporary
    name has been issued. *)
Theorem putfile_atomic eintr fd dfd tmp base finalp final st pm inplace data q de intr s :
  path_ok final -> stat_ok st -> is_u32 pm -> (intr <= eintr)%nat ->
  decode_putfile (pe_buf (putfile_head final st pm inplace) ++ data) = Some q ->
  let mode := st_mode st &. o07777 in
  let set := has_bits mode S_IWUSR in
  wpM (putting fd dfd tmp base data) (put_body eintr q finalp base tmp inplace set dfd de fd) s
    (pghost0 (if set then mode else copy_data_mode mode) intr) (fun g' _ s' =>
      pg_closed g' = true /\
      (s_err s' = s_err s /\ pg_data g' = data /\ mg_ok (pg_meta g') = true /\ pg_close_ok g' = true /\ pg_renamed g' = negb inplace /\
         applied (s_cfg s) (meta_of st) (mg_done (pg_meta g')) /\
         (set = false \/ has_bits mode (S_ISUID |. S_ISGID) = false -> mg_mode (pg_meta g') = Some mode) \/
       exists path err, err <> 0 /\ s_err s' = log_op_error_log path err (s_err s) /\ pg_renamed g' = false /\ pg_unlinked g' = negb inplace)).
Proof.
  intros Hp Hst Hpm Hi Hq mode set. rewrite putfile_head_buf in Hq by done. cbn [pe_buf] in Hq. rewrite decode_putfile_buf in Hq by done. injection Hq as <-.
  eapply wpM_mono; [by apply put_body_ok|]. cbn beta. intros g' _ s' (Hc & _ & [[He (H1 & H2 & H3 & H4 & H5 & H6)]|(path & err & H1 & H2 & H3 & H4)]);
    (split; [done|]); [left|right; by exists path, err]. split_and!; try done. intros Hset. unfold mode_right in H5. cbn [pr_meta] in H5.
  assert (Hm : mt_mode (meta_of st) &. o07777 = mode) by (subst mode; unfold meta_of; cbn [mt_mode]; by rewrite <- Z.land_assoc).
  rewrite Hm in H5. destruct set; [|done]. destruct Hset as [?|Hs]; [done|]. apply H5. unfold strip. by rewrite Hs.
Qed.

(** ** A run *)

Definition put_sample (st : stat) : put_req := PutReq (meta_of st) 0 o0755 (str "d/f") (str "hello").
(** The permissive kernel, with the monitor's ghost state alongside. *)
Definition observed (R : Type) (e : posix R) (k : kstate * pghost) : R * (kstate * pghost) :=
  let '(r, ks) := permissive R e k.1 in (r, (ks, put_upd k.2 R e r)).
Lemma observed_ok fd dfd tmp base data : kernel_ok (putting fd dfd tmp base data) observed (fun k g => k.2 = g).
Proof.
  intros [ks g0] g R e Hg Hp. cbn in Hg. subst g0. unfold observed. cbn [fst snd].
  destruct e; try (split; [exact Logic.I|reflexivity]). split; [|reflexivity]. cbn. pose proof (zlen_nonneg data0). lia.
Qed.

Lemma putfile_atomic_witness :
  exists s' k, run observed (put_body 3 (put_sample sample_stat) (str "/srv/d/f") (str "f") (str ".ecopy.tmp.1") false true 4 0 5 server0)
      (Kstate 6 [], pghost0 420 2) = Some ((tt, s'), k) /\
    pg_data k.2 = str "hello" /\ pg_renamed k.2 = true /\ mg_mode (pg_meta k.2) = Some 420 /\ s_err s' = s_err server0.
Proof.
  assert (Hq : decode_putfile (pe_buf (putfile_head (str "d/f") sample_stat o0755 false) ++ str "hello") = Some (put_sample sample_stat)) by (vm_compute; reflexivity).
  assert (Hp : path_ok (str "d/f")) by (apply path_ok_dec; vm_compute; reflexivity).
  assert (Hu : is_u32 o0755) by (vm_compute; split; [discriminate|reflexivity]).
  assert (Hi : (2 <= 3)%nat) by (apply le_S, le_n).
  pose proof (putfile_atomic 3 5 4 (str ".ecopy.tmp.1") (str "f") (str "/srv/d/f") (str "d/f") sample_stat o0755 false (str "hello")
    (put_sample sample_stat) 0%nat 2 server0 Hp sample_stat_ok Hu Hi Hq) as H.
  eapply (wp_run (putting 5 4 (str ".ecopy.tmp.1") (str "f") (str "hello")) observed (fun k g => k.2 = g) _ (Kstate 6 [], pghost0 420 2)) in H
    as ([[] s'] & k & g & Hrun & Hk & H); [|exact id|apply observed_ok|reflexivity].
  assert (E : exists s1 k1, run observed (put_body 3 (put_sample sample_stat) (str "/srv/d/f") (str "f") (str ".ecopy.tmp.1") false true 4 0 5 server0)
      (Kstate 6 [], pghost0 420 2) = Some ((tt, s1), k1) /\ g_err_count (s_err s1) = 0).
  { do 2 eexists. split; [vm_compute; reflexivity|vm_compute; reflexivity]. }
  destruct E as (s1 & k1 & E & Hcount).
  change (run observed (put_body 3 (put_sample sample_stat) (str "/srv/d/f") (str "f") (str ".ecopy.tmp.1") false true 4 0 5 server0)
      (Kstate 6 [], pghost0 420 2) = Some ((tt, s'), k)) in Hrun.
  rewrite E in Hrun. injection Hrun as <- <-. subst g. exists s1, k1. split; [exact E|].
  destruct H as [_ [(H1 & H2 & _ & _ & H5 & _ & H6)|(path & err & _ & H2 & _)]].
  - split; [exact H2|]. split; [exact H5|]. split; [|exact H1]. apply H6. right. vm_compute. reflexivity.
  - exfalso. rewrite H2 in Hcount. unfold log_op_error_log in Hcount. vm_compute in Hcount. discriminate.
Defined.

(** A set-user-id program of another owner, sent to a server that may change
    owners: the change of owner may clear the bit, and nothing sets it again. *)
Definition suid_stat : stat := Stat 1 2 (S_IFREG |. 0x9ED) 1 1000 100 5 8 (Timespec 11 12) (Timespec 13 14) (Timespec 15 16).
Example putfile_loses_setid :
  match run observed (put_body 3 (put_sample suid_stat) (str "/srv/d/f") (str "f") (str ".ecopy.tmp.1") false true 4 0 5 server0)
      (Kstate 6 [], pghost0 0x9ED 2) with
  | Some ((_, s), (_, g)) => pg_renamed g = true /\ g_err_count (s_err s) = 0 /\ mg_mode (pg_meta g) = None
  | None => False
  end.
Proof. by vm_compute. Qed.
