(* ===== verification/EdeletePool.v ===== *)
(** The unlink threads of the deleter (src/edelete.c: [unlink_queue_push],
    [unlink_worker_main], [unlink_pool_finish], [unlink_pool_wake]).

    Every unlink thread has a queue of its own with its own lock, and a batch of
    names goes to the queue its directory is hashed to ([unlink_queue_index_for],
    Edelete.v), so one queue with the walker threads that push to it is the
    whole story; only [g_uq_closed] is shared, and a queue may see it set before
    its own broadcast comes. [ustep] interleaves the critical sections under the
    queue's lock. What running a batch does is [unlink_batch_run] of Edelete.v. *)

From S2P Require Export Prelude.
From stdpp Require Import list relations.
#[local] Open Scope Z_scope.

(** * The queue *)

Definition UNLINK_QUEUE_MAX : Z := 262144.
Definition UNLINK_QUEUE_MIN_PER_WORKER : Z := 4 * 512.
(** [unlink_pool_start]: what the queues of the threads that could be started
    may hold; none is an error. *)
Definition uq_cap (started : Z) : option Z :=
  if decide (started = 0) then None else Some (UNLINK_QUEUE_MIN_PER_WORKER `max` (UNLINK_QUEUE_MAX / started)).

Lemma uq_cap_total started c : 1 <= started -> uq_cap started = Some c -> 1 <= c /\ started * c <= UNLINK_QUEUE_MAX `max` (started * UNLINK_QUEUE_MIN_PER_WORKER).
Proof.
  intros Hs. unfold uq_cap. rewrite decide_False by lia. intros [= <-]. unfold UNLINK_QUEUE_MAX, UNLINK_QUEUE_MIN_PER_WORKER.
  pose proof (Z.mul_div_le 262144 started ltac:(lia)). split; [lia|]. destruct (Z.max_spec (4 * 512) (262144 / started)) as [[_ ->]|[_ ->]]; lia.
Qed.

(** [files] counts names, for the bound. *)
Record uqueue (J : Type) := UQueue { uq_list : list J; uq_files : Z; uq_closed : bool }.
Arguments UQueue {J}.
Arguments uq_list {J}.
Arguments uq_files {J}.
Arguments uq_closed {J}.

(** A walker thread with the batches it is going to push: asleep on not_full;
    woken. *)
Inductive pusher (J : Type) := UIdle (todo : list J) | USpace (i : J) (todo : list J) | UWoken (i : J) (todo : list J).
Arguments UIdle {J}.
Arguments USpace {J}.
Arguments UWoken {J}.
(** The unlink thread: about to look at the queue, asleep on not_empty, working
    through the list it took, gone. *)
Inductive uworker (J : Type) := UTop | UWait | URun (rest : list J) | UExit.
Arguments UTop {J}.
Arguments UWait {J}.
Arguments URun {J}.
Arguments UExit {J}.
(** [unlink_pool_finish]: not called yet; the flag is set, the broadcast on this
    queue still to come; joining; the leftovers freed. *)
Inductive ufinisher := URunning | UClosing | UJoin | UDone.

(** The batches that entered the queue in order, those that left it with whether
    they were run, and those dropped on the way in. *)
Record usys (J : Type) := USys {
  u_queue : uqueue J; u_pushers : list (pusher J); u_worker : uworker J; u_finisher : ufinisher;
  u_stop : bool; u_asked : bool; u_pushed : list J; u_handled : list (J * bool); u_refused : list J
}.
Arguments USys {J}.
Arguments u_queue {J}.
Arguments u_pushers {J}.
Arguments u_worker {J}.
Arguments u_finisher {J}.
Arguments u_stop {J}.
Arguments u_asked {J}.
Arguments u_pushed {J}.
Arguments u_handled {J}.
Arguments u_refused {J}.

Section pool.
Context {J : Type} (count : J -> Z) (cap : Z).
Implicit Types (q : uqueue J) (ps : list (pusher J)) (w : uworker J).

Definition uq_push (i : J) q : uqueue J := UQueue (uq_list q ++ [i]) (uq_files q + count i) (uq_closed q).
Definition uq_take q : uqueue J := UQueue [] 0 (uq_closed q).
Definition uq_close q : uqueue J := UQueue (uq_list q) (uq_files q) true.
(** Must a push wait? *)
Definition uq_full (stop : bool) q : bool := bool_decide (cap <= uq_files q) && negb (uq_closed q) && negb stop.
Definition wake_pusher (p : pusher J) : pusher J := match p with USpace i t => UWoken i t | _ => p end.
Definition wake_unlinker w : uworker J := match w with UWait => UTop | _ => w end.
Definition pushing (p : pusher J) (i : J) (t : list J) : Prop := p = UIdle (i :: t) \/ p = UWoken i t.

Inductive ustep (intr : bool) : usys J -> usys J -> Prop :=
(** [unlink_queue_push]. *)
| us_full n p i t q ps w fin stop ask pd hd rf :
    ps !! n = Some p -> pushing p i t -> uq_full stop q = true ->
    ustep intr (USys q ps w fin stop ask pd hd rf) (USys q (<[n := USpace i t]> ps) w fin stop ask pd hd rf)
| us_refuse n p i t q ps w fin stop ask pd hd rf :
    ps !! n = Some p -> pushing p i t -> uq_closed q || stop = true ->
    ustep intr (USys q ps w fin stop ask pd hd rf) (USys q (<[n := UIdle t]> ps) w fin stop ask pd hd (rf ++ [i]))
| us_push n p i t q ps w fin stop ask pd hd rf :
    ps !! n = Some p -> pushing p i t -> uq_full stop q = false -> uq_closed q || stop = false ->
    ustep intr (USys q ps w fin stop ask pd hd rf) (USys (uq_push i q) (<[n := UIdle t]> ps) (wake_unlinker w) fin stop ask (pd ++ [i]) hd rf)
(** [unlink_worker_main]. *)
| us_sleep q ps fin stop ask pd hd rf :
    uq_list q = [] -> uq_closed q || stop = false ->
    ustep intr (USys q ps UTop fin stop ask pd hd rf) (USys q ps UWait fin stop ask pd hd rf)
| us_leave q ps fin stop ask pd hd rf :
    uq_list q = [] /\ uq_closed q = true \/ stop = true ->
    ustep intr (USys q ps UTop fin stop ask pd hd rf) (USys q ps UExit fin stop ask pd hd rf)
| us_take q ps fin stop ask pd hd rf :
    uq_list q <> [] -> stop = false ->
    ustep intr (USys q ps UTop fin stop ask pd hd rf) (USys (uq_take q) (wake_pusher <$> ps) (URun (uq_list q)) fin stop ask pd hd rf)
| us_run i rest q ps fin stop ask pd hd rf :
    ustep intr (USys q ps (URun (i :: rest)) fin stop ask pd hd rf) (USys q ps (URun rest) fin stop ask pd (hd ++ [(i, negb stop)]) rf)
| us_ran q ps fin stop ask pd hd rf :
    ustep intr (USys q ps (URun []) fin stop ask pd hd rf) (USys q ps UTop fin stop ask pd hd rf)
(** [unlink_pool_finish], when the walk is over. *)
| us_flag q ps w stop ask pd hd rf :
    Forall (eq (UIdle [])) ps ->
    ustep intr (USys q ps w URunning stop ask pd hd rf) (USys (uq_close q) ps w UClosing stop ask pd hd rf)
| us_close q ps w stop ask pd hd rf :
    ustep intr (USys q ps w UClosing stop ask pd hd rf) (USys q (wake_pusher <$> ps) (wake_unlinker w) UJoin stop ask pd hd rf)
| us_joined q ps stop ask pd hd rf :
    ustep intr (USys q ps UExit UJoin stop ask pd hd rf)
      (USys (uq_take q) ps UExit UDone stop ask pd (hd ++ ((fun i => (i, false)) <$> uq_list q)) rf)
(** The signal handler, and [edelete_stop] with [unlink_pool_wake]. *)
| us_shutdown q ps w fin ask pd hd rf :
    intr = true -> ustep intr (USys q ps w fin false ask pd hd rf) (USys q ps w fin true ask pd hd rf)
| us_wake q ps w fin pd hd rf :
    ustep intr (USys q ps w fin true false pd hd rf) (USys q (wake_pusher <$> ps) (wake_unlinker w) fin true true pd hd rf).

(** After [unlink_pool_start]. *)
Definition usys0 (inputs : list (list J)) : usys J := USys (UQueue [] 0 false) (UIdle <$> inputs) UTop URunning false false [] [] [].

(** * What it keeps true *)

Definition utodo (p : pusher J) : list J := match p with UIdle t => t | USpace i t | UWoken i t => i :: t end.
Definition utaken w : list J := match w with URun r => r | _ => [] end.
Definition names (l : list J) : Z := sumZ count l.
(** The threads that sleep for room have reason to, or will still be woken. *)
Definition usleeper (s : usys J) (p : pusher J) : Prop :=
  match p with USpace _ _ => u_stop s = true /\ u_asked s = false \/ uq_full (u_stop s) (u_queue s) = true | _ => True end.

Record uinv (inputs : list (list J)) (s : usys J) : Prop := {
  ui_files : uq_files (u_queue s) = names (uq_list (u_queue s));
  ui_order : u_pushed s = (u_handled s).*1 ++ utaken (u_worker s) ++ uq_list (u_queue s);
  ui_perm : concat inputs ≡ₚ concat (utodo <$> u_pushers s) ++ u_pushed s ++ u_refused s;
  ui_sleep : Forall (usleeper s) (u_pushers s);
  ui_wait : u_worker s = UWait -> uq_list (u_queue s) = [] /\ (uq_closed (u_queue s) = true -> u_finisher s = UClosing) /\ (u_stop s = true -> u_asked s = false);
  ui_closed : uq_closed (u_queue s) = match u_finisher s with URunning => false | _ => true end;
  ui_idle : u_finisher s <> URunning -> Forall (eq (UIdle [])) (u_pushers s);
  ui_exit : u_worker s = UExit -> u_stop s = true \/ uq_list (u_queue s) = [] /\ uq_closed (u_queue s) = true;
  ui_done : u_finisher s = UDone -> u_worker s = UExit /\ uq_list (u_queue s) = [];
  ui_run : u_stop s = false -> u_asked s = false /\ Forall (fun x => snd x = true) (u_handled s) /\ u_refused s = []
}.

Lemma names_app l k : names (l ++ k) = names l + names k.
Proof. unfold names, sumZ. induction l as [|x l IH]; [done|]. cbn. lia. Qed.
Lemma utodo_wake ps : utodo <$> (wake_pusher <$> ps) = utodo <$> ps.
Proof. rewrite <- list_fmap_compose. apply list_fmap_ext. by intros _ [] _. Qed.
Lemma utaken_wake w : utaken (wake_unlinker w) = utaken w.
Proof. by destruct w. Qed.
Lemma woken_unlinker w : wake_unlinker w <> UWait.
Proof. by destruct w. Qed.
Lemma pushing_todo p i t : pushing p i t -> utodo p = i :: t.
Proof. by intros [->| ->]. Qed.
Lemma idle_pushing n p i t ps : Forall (eq (UIdle [])) ps -> ps !! n = Some p -> pushing p i t -> False.
Proof. intros H Hn Hp. pose proof (Forall_lookup_1 _ _ _ _ H Hn) as <-. by destruct Hp. Qed.
Lemma idle_woken ps : Forall (eq (UIdle [])) ps -> Forall (eq (UIdle [])) (wake_pusher <$> ps).
Proof. intros H. apply Forall_fmap. eapply Forall_impl; [exact H|]. by intros p <-. Qed.
Lemma push_perm inputs ps n p i t (R R' : list J) :
  ps !! n = Some p -> utodo p = i :: t -> concat inputs ≡ₚ concat (utodo <$> ps) ++ R -> i :: R ≡ₚ R' ->
  concat inputs ≡ₚ concat (utodo <$> <[n := UIdle t]> ps) ++ R'.
Proof.
  intros Hn Ht H <-. destruct (concat_at utodo ps n p Hn) as (Q & H1 & H2). rewrite H, H1, (H2 (UIdle t)), Ht. cbn. perm.
Qed.
Lemma sleep_perm ps n p i t : ps !! n = Some p -> utodo p = i :: t -> concat (utodo <$> <[n := USpace i t]> ps) ≡ₚ concat (utodo <$> ps).
Proof. intros Hn Ht. destruct (concat_at utodo ps n p Hn) as (Q & H1 & H2). by rewrite H1, (H2 (USpace i t)), Ht. Qed.
Lemma sleepers_mono s s' ps : (forall p, usleeper s p -> usleeper s' p) -> Forall (usleeper s) ps -> Forall (usleeper s') ps.
Proof. intros H Hps. eapply Forall_impl; [exact Hps|exact H]. Qed.
Lemma woken_sleepers s ps : Forall (usleeper s) (wake_pusher <$> ps).
Proof. apply Forall_fmap, Forall_true. by intros []. Qed.

Lemma uinv0 inputs : uinv inputs (usys0 inputs).
Proof.
  split; cbn; try done.
  - rewrite app_nil_r. f_equiv. induction inputs as [|x l IH]; [done|]. cbn. by f_equiv.
  - by apply Forall_fmap, Forall_true.
Qed.

Lemma uinv_step intr inputs s s' : (forall i, 0 < count i) -> uinv inputs s -> ustep intr s s' -> uinv inputs s'.
Proof.
  intros Hc [Hf Ho Hp Hs Hw Hcl Hi He Hd Hr] H. destruct H; cbn in *; split; cbn; rewrite ?utodo_wake, ?utaken_wake, ?names_app; try done; try tauto.
  all: try by apply woken_sleepers.
  all: try (intros E; by apply Hi in E).
  all: try (intros E; exfalso; apply Hi in E; by eauto using idle_pushing).
  all: try (intros E; apply idle_woken; by auto).
  all: try (intros E; by apply woken_unlinker in E).
  all: try (intros E; apply Hd in E as [E _]; discriminate).
  all: try (intros E; specialize (Hr E); tauto).
  all: try (eapply sleepers_mono; [|exact Hs]; intros []; cbn; tauto).
  all: try (apply Forall_insert; [eapply sleepers_mono; [|exact Hs]; intros []; cbn; tauto|cbn; tauto]).
  all: try (intros E; exfalso; assert (Er : fin <> URunning) by congruence; apply Hi in Er; by eauto using idle_pushing).
  all: try (rewrite (sleep_perm _ _ _ _ _ H (pushing_todo _ _ _ H0)); exact Hp).
  all: try (eapply push_perm; [exact H|by apply pushing_todo|exact Hp|rewrite ?(assoc_L (++)); perm]).
  all: try (rewrite Ho, ?fmap_app, <- ?(assoc_L (++)); cbn; rewrite ?app_nil_r; done).
  all: try (by destruct w; auto).
  all: try (eapply Forall_impl; [first [exact H|exact (Hi ltac:(done))]|]; by intros p <-).
  all: try (apply Hi; done).
  - intros E. exfalso. rewrite E, orb_false_r in H1. rewrite H1 in Hcl. eapply idle_pushing; [apply Hi|exact H|exact H0]. by destruct fin.
  - unfold names in *. cbn. lia.
  - apply Forall_insert; [|done]. eapply sleepers_mono; [|exact Hs]. intros []; cbn; try done. intros [?|Hfl]; [by left|right].
    unfold uq_full in *. cbn. apply andb_prop in Hfl as [[Hb%bool_decide_eq_true ->]%andb_prop ->]. pose proof (Hc i). by rewrite bool_decide_true by lia.
  - intros E. apply orb_false_elim in H2 as [E1 E2]. destruct w; try done. destruct (He eq_refl) as [E3|[_ E3]]; congruence.
  - intros _. apply orb_false_elim in H0 as [E1 E2]. split_and!; [done|congruence|congruence].
  - intros E. destruct (Hr E) as (? & ? & ?). split_and!; [done| |done]. apply Forall_app. split; [done|]. rewrite E. by constructor.
  - rewrite Ho, fmap_app, <- list_fmap_compose. cbn. rewrite list_fmap_id, app_nil_r. done.
  - by intros _; apply Hi.
  - intros E. destruct (Hr E) as (? & ? & ?). split_and!; [done| |done]. destruct (He eq_refl) as [E'|[-> _]]; [congruence|]. by rewrite app_nil_r.
  - intros E. destruct (Hd E) as [-> ?]. done.
Qed.

(** The bound is soft by one batch. *)
Lemma files_step intr B s s' : 1 <= cap -> 0 <= B -> (forall i, 0 < count i <= B) -> ustep intr s s' -> uq_files (u_queue s) < cap + B -> uq_files (u_queue s') < cap + B.
Proof.
  intros Hcap HB Hc H. destruct H; cbn; try lia.
  unfold uq_full in *; apply orb_false_elim in H2 as [E1 E2]; rewrite E1, E2, !andb_true_r in H1; apply bool_decide_eq_false in H1; specialize (Hc i); lia.
Qed.

(** * It ends *)

Definition uwork (w : uworker J) : Z := match w with UTop => 3 | UWait => 2 | URun r => 4 + zlen r | UExit => 0 end.
Definition upush (W : Z) (p : pusher J) : Z := match p with USpace _ _ => 1 | _ => 2 end + (W + 6) * zlen (utodo p).
Definition uend (W : Z) (n : ufinisher) : Z := match n with URunning => W + 4 | UClosing => W + 3 | UJoin => 1 | UDone => 0 end.
Definition ueffort_at (W : Z) (s : usys J) : Z :=
  sumZ (upush W) (u_pushers s) + (W + 3) * zlen (uq_list (u_queue s)) + uwork (u_worker s) + uend W (u_finisher s) +
  (if u_stop s then 0 else 1) + (if u_asked s then 0 else W + 2).
Definition ueffort (s : usys J) : Z := ueffort_at (zlen (u_pushers s)) s.

Lemma upush_nonneg W p : 0 <= W -> 0 <= upush W p.
Proof. intros H. unfold upush. pose proof (Z.mul_nonneg_nonneg (W + 6) (zlen (utodo p)) ltac:(lia) (zlen_nonneg _)). destruct p; lia. Qed.
Lemma ueffort_nonneg s : 0 <= ueffort s.
Proof.
  unfold ueffort, ueffort_at. pose proof (zlen_nonneg (u_pushers s)) as H. pose proof (sumZ_nonneg _ (u_pushers s) (fun p => upush_nonneg (zlen (u_pushers s)) p H)).
  pose proof (zlen_nonneg (uq_list (u_queue s))) as Hq.
  assert (0 <= uwork (u_worker s)) by (destruct (u_worker s); cbn; try pose proof (zlen_nonneg rest); lia).
  pose proof (Z.mul_nonneg_nonneg (zlen (u_pushers s) + 3) _ ltac:(lia) Hq).
  destruct (u_finisher s), (u_stop s), (u_asked s); cbn; lia.
Qed.
Lemma uwake_effort W ps : sumZ (upush W) (wake_pusher <$> ps) <= sumZ (upush W) ps + zlen ps.
Proof.
  induction ps as [|p ps IH]; [done|]. rewrite fmap_cons, zlen_cons.
  assert (upush W (wake_pusher p) <= upush W p + 1) by (destruct p; cbn; unfold upush; cbn; lia). unfold sumZ in *. cbn in *. lia.
Qed.
Lemma uwake_work w : uwork (wake_unlinker w) <= uwork w + 1.
Proof. destruct w; cbn; lia. Qed.
Lemma pushing_effort W ps n p i t :
  ps !! n = Some p -> pushing p i t ->
  sumZ (upush W) (<[n := UIdle t]> ps) = sumZ (upush W) ps - (W + 6) /\ sumZ (upush W) (<[n := USpace i t]> ps) = sumZ (upush W) ps - 1.
Proof. intros Hn Hp. rewrite !(sumZ_insert _ _ _ _ _ Hn). unfold upush. destruct Hp as [->| ->]; cbn; zlen_lia. Qed.
Lemma ustep_threads intr s s' : ustep intr s s' -> zlen (u_pushers s') = zlen (u_pushers s).
Proof. intros H. destruct H; cbn; unfold zlen; by rewrite ?length_insert, ?length_fmap. Qed.

Lemma ustep_effort_at intr W s s' : 0 <= W -> zlen (u_pushers s) = W -> ustep intr s s' -> ueffort_at W s' + 1 <= ueffort_at W s.
Proof.
  intros HW Hps H. destruct H; cbn in Hps; unfold ueffort_at; cbn [u_queue u_pushers u_worker u_finisher u_stop u_asked uq_push uq_take uq_close uq_list uwork uend].
  all: repeat rewrite ?zlen_app, ?zlen_cons; change (zlen (@nil J)) with 0; pose proof (zlen_nonneg (uq_list q)) as Hq; pose proof (uwake_effort W ps) as Hw; rewrite Hps in Hw; clear Hps.
  - destruct (pushing_effort W _ _ _ _ _ H H0) as [_ E]. lia.
  - destruct (pushing_effort W _ _ _ _ _ H H0) as [E _]. lia.
  - destruct (pushing_effort W _ _ _ _ _ H H0) as [E _]. pose proof (uwake_work w). lia.
  - lia.
  - lia.
  - assert (1 <= zlen (uq_list q)) by (destruct (uq_list q); [done|rewrite zlen_cons; pose proof (zlen_nonneg l); lia]).
    pose proof (Z.mul_le_mono_nonneg_l 1 (zlen (uq_list q)) (W + 2) ltac:(lia) ltac:(done)). lia.
  - lia.
  - lia.
  - lia.
  - pose proof (uwake_work w). lia.
  - pose proof (Z.mul_nonneg_nonneg (W + 3) _ ltac:(lia) Hq). lia.
  - lia.
  - pose proof (uwake_work w). lia.
Qed.
Lemma ustep_bounded intr k s s' : nsteps (ustep intr) k s s' -> ueffort s' + Z.of_nat k <= ueffort s.
Proof.
  induction 1 as [x|k x y z H _ IH]; [lia|]. unfold ueffort in *. pose proof (ustep_threads _ _ _ H) as E. rewrite E in IH.
  pose proof (ustep_effort_at _ _ _ _ (zlen_nonneg _) eq_refl H). lia.
Qed.

Lemma pushers_idle ps : Forall (eq (UIdle [])) ps \/ exists n p, ps !! n = Some p /\ p <> UIdle [].
Proof.
  induction ps as [|p ps IH]; [by left; constructor|].
  destruct p as [[|i t]|i t|i t]; [|right; by exists 0%nat; eexists; split..].
  destruct IH as [IH|(n & p & Hn & Hp)]; [left; by constructor|right; by exists (S n), p].
Qed.
(** A pusher that is not asleep can go on. *)
Lemma pusher_steps intr q ps w fin stop ask pd hd rf n p :
  ps !! n = Some p -> p <> UIdle [] -> (forall i t, p <> USpace i t) -> exists s', ustep intr (USys q ps w fin stop ask pd hd rf) s'.
Proof.
  intros Hn Hp Hs. assert (Hpush : exists i t, pushing p i t) by (destruct p as [[|i t]|i t|i t]; [done|eexists _, _; by left|by destruct (Hs i t)|eexists _, _; by right]).
  destruct Hpush as (i & t & Hpu). destruct (uq_closed q || stop) eqn:E; [eexists; by eapply us_refuse|].
  destruct (uq_full stop q) eqn:E'; eexists; [by eapply us_full|by eapply us_push].
Qed.
(** The unlink thread, unless it sleeps or is gone. *)
Lemma worker_steps intr q ps w fin stop ask pd hd rf : w <> UWait -> w <> UExit -> exists s', ustep intr (USys q ps w fin stop ask pd hd rf) s'.
Proof.
  intros H1 H2. destruct w as [| |[|i rest]|]; try done; [|eexists; apply us_ran|eexists; apply us_run].
  destruct stop eqn:Es; [eexists; apply us_leave; by right|]. destruct (uq_list q) eqn:El; [|eexists; apply us_take; [by rewrite El|done]].
  destruct (uq_closed q) eqn:Ec; eexists; [apply us_leave; by left|apply us_sleep; [done|by rewrite Ec]].
Qed.

Lemma upool_progress intr inputs s : 1 <= cap -> uinv inputs s -> u_finisher s = UDone \/ exists s', ustep intr s s'.
Proof.
  intros Hcap [Hf _ _ Hs Hw Hcl Hi He Hd Hr]. destruct s as [q ps w fin stop ask pd hd rf]. cbn in *.
  assert (Hcase : w = UWait \/ w = UExit \/ (w <> UWait /\ w <> UExit)) by (destruct w; auto).
  destruct Hcase as [->|[->|[H1 H2]]]; [| |right; by apply worker_steps].
  - right. destruct (Hw eq_refl) as (El & Hc & Ha). rewrite El in Hf. cbn in Hf.
    destruct (uq_closed q) eqn:Ec; [rewrite (Hc eq_refl); eexists; apply us_close|].
    assert (fin = URunning) as -> by (by destruct fin).
    destruct stop; [rewrite (Ha eq_refl); eexists; apply us_wake|].
    destruct (pushers_idle ps) as [Hid|(n & p & Hn & Hp)]; [eexists; by apply us_flag|].
    eapply pusher_steps; [exact Hn|exact Hp|]. intros i t ->. pose proof (Forall_lookup_1 _ _ _ _ Hs Hn) as [[? _]|E]; [done|].
    cbn in E. unfold uq_full in E. rewrite Hf, bool_decide_false in E by (unfold names; cbn; lia). done.
  - destruct fin; [| |right; eexists; apply us_joined|by left].
    + right. destruct (He eq_refl) as [->|[_ E]]; [|congruence]. destruct ask; [|eexists; apply us_wake].
      destruct (pushers_idle ps) as [Hid|(n & p & Hn & Hp)]; [eexists; by apply us_flag|].
      eapply pusher_steps; [exact Hn|exact Hp|]. intros i t ->. pose proof (Forall_lookup_1 _ _ _ _ Hs Hn) as [[_ ?]|E]; [done|].
      cbn in E. unfold uq_full in E. by rewrite !andb_false_r in E.
    + right. eexists. apply us_close.
Qed.

Lemma uinv_reach intr inputs s : (forall i, 0 < count i) -> rtc (ustep intr) (usys0 inputs) s -> uinv inputs s.
Proof. intros Hc. apply (rtc_ind_r (uinv inputs)); [apply uinv0|]. intros; by eapply uinv_step. Qed.
Lemma files_reach intr B inputs s : 1 <= cap -> 0 <= B -> (forall i, 0 < count i <= B) -> rtc (ustep intr) (usys0 inputs) s -> uq_files (u_queue s) < cap + B.
Proof. intros Hcap HB Hc. apply (rtc_ind_r (fun s => uq_files (u_queue s) < cap + B)); [cbn; lia|]. intros; by eapply files_step. Qed.

(** C25.  The queue of an unlink thread. However the walker threads, the unlink
    thread, the end of the walk and an interruption interleave: the names queued
    exceed the bound by less than one batch; the batches leave the queue in the
    order they entered it, so the names of one directory are unlinked in the
    order they were read; at the end every batch has been run or dropped, once,
    and without an interruption all have been run; some thread can always go on
    until the end, so no wake-up is lost; and no run is longer than six steps per
    batch, a step per batch and thread, four per thread and ten. *)
Theorem unlink_queue_correct intr B inputs s :
  1 <= cap -> 0 <= B -> (forall i, 0 < count i <= B) -> rtc (ustep intr) (usys0 inputs) s ->
  names (uq_list (u_queue s)) < cap + B /\
  u_pushed s = (u_handled s).*1 ++ utaken (u_worker s) ++ uq_list (u_queue s) /\
  (u_finisher s = UDone ->
     concat inputs ≡ₚ (u_handled s).*1 ++ u_refused s /\
     (u_stop s = false -> (u_handled s).*1 ≡ₚ concat inputs /\ Forall (fun x => snd x = true) (u_handled s))) /\
  (u_finisher s = UDone \/ exists s', ustep intr s s') /\
  (forall k s', nsteps (ustep intr) k (usys0 inputs) s' -> Z.of_nat k <= (zlen inputs + 6) * zlen (concat inputs) + 4 * zlen inputs + 10).
Proof.
  intros Hcap HB Hc H. assert (Hc' : forall i, 0 < count i) by (intros i; by apply Hc).
  pose proof (uinv_reach _ _ _ Hc' H) as Hi. split_and!.
  - rewrite <- (ui_files _ _ Hi). by eapply files_reach.
  - exact (ui_order _ _ Hi).
  - intros E. destruct (ui_done _ _ Hi E) as [E1 E2]. pose proof (ui_order _ _ Hi) as Ho. pose proof (ui_perm _ _ Hi) as Hp.
    pose proof (ui_idle _ _ Hi ltac:(by rewrite E)) as Hid. rewrite E1, E2, !app_nil_r in Ho.
    assert (Et : concat (utodo <$> u_pushers s) = []) by (clear -Hid; induction Hid as [|p ps <- _ IH]; [done|exact IH]).
    rewrite Et, Ho in Hp. split; [exact Hp|]. intros Es. destruct (ui_run _ _ Hi Es) as (_ & Hh & Er). rewrite Er, app_nil_r in Hp. by split.
  - by apply upool_progress with inputs.
  - intros k s' Hk. apply ustep_bounded in Hk. pose proof (ueffort_nonneg s').
    assert (Hw : forall W (l : list (list J)), sumZ (upush W) (UIdle <$> l) = 2 * zlen l + (W + 6) * zlen (concat l)).
    { intros W. induction l as [|x l IH]; [unfold zlen; cbn; lia|]. rewrite fmap_cons. unfold sumZ in *. cbn. rewrite IH. unfold upush. cbn. zlen_lia. }
    assert (ueffort (usys0 inputs) = (zlen inputs + 6) * zlen (concat inputs) + 4 * zlen inputs + 10); [|lia].
    unfold ueffort, ueffort_at, usys0. cbn [u_queue u_pushers u_worker u_finisher u_stop u_asked uq_list]. rewrite Hw.
    unfold zlen. rewrite length_fmap. cbn. lia.
Qed.
End pool.

(** * Two batches, room for one *)

Lemma two_batches_run : exists s, rtc (ustep (fun _ : nat => 1) 1 false) (usys0 [[7%nat; 8%nat]]) s /\ u_finisher s = UDone /\ u_stop s = false /\ u_handled s = [(7%nat, true); (8%nat, true)].
Proof.
  eexists. split; [|split_and!]; cycle 1.
  - instantiate (1 := USys _ _ _ _ _ _ _ _ _). cbn. reflexivity.
  - cbn. reflexivity.
  - cbn. reflexivity.
  - unfold usys0. cbn.
    eapply rtc_l; [eapply (us_push _ _ _ 0%nat); [done|by left|done|done]|]. cbn.
    eapply rtc_l; [eapply (us_full _ _ _ 0%nat); [done|by left|done]|]. cbn.
    eapply rtc_l; [by apply us_take|]. cbn.
    eapply rtc_l; [apply us_run|]. cbn.
    eapply rtc_l; [eapply (us_push _ _ _ 0%nat); [done|by right|done|done]|]. cbn.
    eapply rtc_l; [apply us_ran|]. cbn.
    eapply rtc_l; [by apply us_take|]. cbn.
    eapply rtc_l; [apply us_run|]. cbn.
    eapply rtc_l; [apply us_ran|]. cbn.
    eapply rtc_l; [apply us_flag; by repeat constructor|]. cbn.
    eapply rtc_l; [apply us_close|]. cbn.
    eapply rtc_l; [apply us_leave; by left|]. cbn.
    eapply rtc_l; [apply us_joined|]. cbn. apply rtc_refl.
Qed.
Lemma unlink_queue_correct_witness : exists s : usys nat, u_finisher s = UDone /\ (u_handled s).*1 ≡ₚ [7%nat; 8%nat].
Proof.
  destruct two_batches_run as (s & Hr & Hd & Hs & _). exists s. split; [exact Hd|].
  destruct (unlink_queue_correct (fun _ : nat => 1) 1 false 1 [[7%nat; 8%nat]] s) as (_ & _ & H & _); [lia|lia|intros i; lia|exact Hr|].
  destruct (H Hd) as [_ H']. destruct (H' Hs) as [H'' _]. exact H''.
Defined.
