(* ===== verification/StatsSlot.v ===== *)
(** The current-file slots of the progress display (src/stats.c:
    [cfile_write_begin], [cfile_write_end], [stats_set_current_file],
    [stats_clear_current_file], [stats_advance_current_file_slot], and the scan of
    [stats_get_progress_snapshot]): a sequence lock.

    One slot, any number of threads that write to it (threads share a slot when
    there are more of them than slots) and one reader. [sstep] interleaves single
    accesses: every byte of a memcpy is a step of its own. Accesses happen in
    program order here; what the C11 orders guarantee is discussed at the end.
    [cap] is the size of the path array, PATH_MAX in the code. *)

From S2P Require Export Prelude.
From stdpp Require Import list relations.
#[local] Open Scope Z_scope.

(** * The slot *)

(** What the sequence lock protects, and the whole [cfile_slot_t]. *)
Record content := Content { ct_path : bytes; ct_total : Z; ct_parallel : Z }.
Record cfile_slot := Slot { sl_seq : Z; sl_done : Z; sl_content : content }.

(** One store. *)
Inductive slot_store := st_path (i : nat) (b : byte) | st_total (v : Z) | st_parallel (v : Z) | st_done (v : Z).
Definition apply_store (c : content) (x : slot_store) : content :=
  match x with
  | st_path i b => Content (<[i := b]> (ct_path c)) (ct_total c) (ct_parallel c)
  | st_total v => Content (ct_path c) v (ct_parallel c)
  | st_parallel v => Content (ct_path c) (ct_total c) v
  | st_done _ => c
  end.
Definition stored_done (x : slot_store) (d : Z) : Z := match x with st_done v => v | _ => d end.

Section slot.
Context (cap : nat).

(** What a thread does with its slot, and the stores this makes. *)
Inductive cop := stats_set_current_file (path : bytes) (total parallel : Z) | stats_clear_current_file.
Definition stores (op : cop) : list slot_store :=
  match op with
  | stats_set_current_file path total parallel =>
      let n := (length path `min` (cap - 1))%nat in
      imap st_path (take n path) ++ [st_path n NUL; st_total total; st_parallel parallel; st_done 0]
  | stats_clear_current_file => [st_path 0 NUL; st_total 0; st_parallel 0; st_done 0]
  end.

(** A writing thread: between files; about to load the sequence number; about
    to exchange it; storing. *)
Inductive swriter :=
| SwIdle (ops : list cop)
| SwLoad (op : cop) (ops : list cop)
| SwCas (seq : Z) (op : cop) (ops : list cop)
| SwIn (seq : Z) (rest : list slot_store) (ops : list cop).

(** The reader's scan of the slot: the first look at the path, the first load,
    strnlen, the other fields, memcpy, the second load; skipped; taken. *)
Inductive sreader :=
| SrPeek | SrSeq
| SrLen (seq : Z) (i : nat)
| SrTotal (seq : Z) (len : nat)
| SrParallel (seq : Z) (len : nat) (total : Z)
| SrDone (seq : Z) (len : nat) (total parallel : Z)
| SrCopy (seq : Z) (len : nat) (total parallel done : Z) (acc : bytes)
| SrCheck (seq : Z) (total parallel done : Z) (acc : bytes)
| SrSkip
| SrTaken (path : bytes) (total parallel done : Z).

(** With the contents completed so far, oldest first. *)
Record ssys := SSys { s_slot : cfile_slot; s_writers : list swriter; s_reader : sreader; s_hist : list content }.

Inductive sstep : ssys -> ssys -> Prop :=
(** [cfile_write_begin]: the exchange may also fail for no reason. *)
| sw_begin n op ops sl ws r h :
    ws !! n = Some (SwIdle (op :: ops)) -> sstep (SSys sl ws r h) (SSys sl (<[n := SwLoad op ops]> ws) r h)
| sw_load n op ops sl ws r h :
    ws !! n = Some (SwLoad op ops) -> Z.even (sl_seq sl) = true ->
    sstep (SSys sl ws r h) (SSys sl (<[n := SwCas (sl_seq sl) op ops]> ws) r h)
| sw_again n seq op ops sl ws r h :
    ws !! n = Some (SwCas seq op ops) -> sstep (SSys sl ws r h) (SSys sl (<[n := SwLoad op ops]> ws) r h)
| sw_claim n op ops sl ws r h :
    ws !! n = Some (SwCas (sl_seq sl) op ops) ->
    sstep (SSys sl ws r h) (SSys (Slot (u64 (sl_seq sl + 1)) (sl_done sl) (sl_content sl)) (<[n := SwIn (sl_seq sl) (stores op) ops]> ws) r h)
| sw_store n seq x rest ops sl ws r h :
    ws !! n = Some (SwIn seq (x :: rest) ops) ->
    sstep (SSys sl ws r h) (SSys (Slot (sl_seq sl) (stored_done x (sl_done sl)) (apply_store (sl_content sl) x)) (<[n := SwIn seq rest ops]> ws) r h)
(** [cfile_write_end]. *)
| sw_end n seq ops sl ws r h :
    ws !! n = Some (SwIn seq [] ops) ->
    sstep (SSys sl ws r h) (SSys (Slot (u64 (seq + 2)) (sl_done sl) (sl_content sl)) (<[n := SwIdle ops]> ws) r (h ++ [sl_content sl]))
(** [stats_advance_current_file_slot]. *)
| sw_advance v sl ws r h :
    sstep (SSys sl ws r h) (SSys (Slot (sl_seq sl) (u64 (sl_done sl + v)) (sl_content sl)) ws r h)
(** The reader. *)
| sr_peek sl ws h :
    sstep (SSys sl ws SrPeek h) (SSys sl ws (if decide (at_ (ct_path (sl_content sl)) 0 = NUL) then SrSkip else SrSeq) h)
| sr_seq sl ws h :
    sstep (SSys sl ws SrSeq h) (SSys sl ws (if Z.even (sl_seq sl) then SrLen (sl_seq sl) 0 else SrSkip) h)
| sr_len seq i sl ws h :
    sstep (SSys sl ws (SrLen seq i) h)
      (SSys sl ws (if decide (i = cap - 1 \/ at_ (ct_path (sl_content sl)) i = NUL)%nat then SrTotal seq i else SrLen seq (S i)) h)
| sr_total seq len sl ws h : sstep (SSys sl ws (SrTotal seq len) h) (SSys sl ws (SrParallel seq len (ct_total (sl_content sl))) h)
| sr_parallel seq len t sl ws h : sstep (SSys sl ws (SrParallel seq len t) h) (SSys sl ws (SrDone seq len t (ct_parallel (sl_content sl))) h)
| sr_done seq len t p sl ws h : sstep (SSys sl ws (SrDone seq len t p) h) (SSys sl ws (SrCopy seq len t p (sl_done sl) []) h)
| sr_copy seq len t p d acc sl ws h :
    sstep (SSys sl ws (SrCopy seq len t p d acc) h)
      (SSys sl ws (if decide (length acc = S len) then SrCheck seq t p d acc
                   else SrCopy seq len t p d (acc ++ [at_ (ct_path (sl_content sl)) (length acc)])) h)
| sr_check seq t p d acc sl ws h :
    sstep (SSys sl ws (SrCheck seq t p d acc) h) (SSys sl ws (if decide (seq = sl_seq sl) then SrTaken acc t p d else SrSkip) h).

(** All slots start zeroed. *)
Definition content0 : content := Content (replicate cap NUL) 0 0.
Definition ssys0 (inputs : list (list cop)) : ssys := SSys (Slot 0 0 content0) (SwIdle <$> inputs) SrPeek [content0].

(** * What stores make *)

Lemma apply_length l c : length (ct_path (foldl apply_store c l)) = length (ct_path c).
Proof. revert c. induction l as [|x l IH]; intros c; [done|]. cbn. rewrite IH. destruct x; cbn; by rewrite ?length_insert. Qed.
Lemma apply_path n l p t q : (n + length l <= length p)%nat ->
  foldl apply_store (Content p t q) (imap (fun i b => st_path (n + i) b) l) = Content (take n p ++ l ++ drop (n + length l) p) t q.
Proof.
  revert n p. induction l as [|b l IH]; intros n p H; cbn [imap length foldl app] in *.
  - by rewrite Nat.add_0_r, take_drop.
  - rewrite Nat.add_0_r. cbn [apply_store ct_path ct_total ct_parallel].
    assert (Hn : (n < length p)%nat) by lia. rewrite (imap_ext _ (fun i b => st_path (S n + i) b)) by (intros; cbn; f_equal; lia).
    rewrite IH by (rewrite length_insert; lia). f_equal.
    rewrite (take_S_r _ n b) by (rewrite list_lookup_insert_eq; done). rewrite take_insert_ge by lia. rewrite <- (assoc_L (++)). cbn [app]. do 3 f_equal.
    rewrite drop_insert_lt by lia. f_equal. lia.
Qed.

(** The contents a thread leaves, as the display reads them. *)
Definition shown (c : content) : bytes * Z * Z := (cstr (ct_path c), ct_total c, ct_parallel c).
Definition wanted (op : cop) : bytes * Z * Z :=
  match op with stats_set_current_file path t p => (take (cap - 1) path, t, p) | stats_clear_current_file => ([], 0, 0) end.
Definition cop_ok (op : cop) : Prop := match op with stats_set_current_file path _ _ => is_cstr path | _ => True end.

Lemma apply_path0 l p t q : (length l <= length p)%nat -> foldl apply_store (Content p t q) (imap st_path l) = Content (l ++ drop (length l) p) t q.
Proof. intros H. exact (apply_path 0 l p t q H). Qed.
Lemma stores_shown op c : (1 <= cap)%nat -> length (ct_path c) = cap -> cop_ok op -> shown (foldl apply_store c (stores op)) = wanted op.
Proof.
  intros Hcap Hl Hop. destruct c as [p t q]. cbn in Hl. destruct op as [path t' q'|]; cbn [stores wanted].
  - cbv zeta. set (n := (length path `min` (cap - 1))%nat).
    assert (Hlen : length (take n path) = n) by (rewrite length_take; unfold n; lia).
    rewrite foldl_app. rewrite apply_path0 by (rewrite Hlen; unfold n; lia).
    cbn. unfold shown. cbn [ct_path ct_total ct_parallel]. f_equal. f_equal. rewrite Hlen.
    rewrite insert_app_r_alt, Hlen, Nat.sub_diag by lia.
    destruct (drop n p) as [|b r] eqn:E; [apply (f_equal length) in E; rewrite length_drop in E; cbn in E; unfold n in E; lia|]. cbn.
    rewrite cstr_app_nul by (by apply Forall_take). unfold n. destruct (decide (length path <= cap - 1)%nat); [rewrite !take_ge by lia; done|]. f_equal. lia.
  - destruct p as [|b r]; [cbn in Hl; lia|]. done.
Qed.

(** * The sequence lock *)

Definition wops (w : swriter) : list cop := match w with SwIdle ops | SwIn _ _ ops => ops | SwLoad op ops | SwCas _ op ops => op :: ops end.
Definition inside (w : swriter) : Prop := match w with SwIn _ _ _ => True | _ => False end.
Definition last_index (s : ssys) : Z := zlen (s_hist s) - 1.

(** Where strnlen stops in a path that does not change. *)
Definition is_len (p : bytes) (len : nat) : Prop := (len <= cap - 1)%nat /\ (forall j, (j < len)%nat -> at_ p j <> NUL) /\ (len = cap - 1 \/ at_ p len = NUL)%nat.
(** What the reader has read so far agrees with the contents [c]. *)
Definition agrees (r : sreader) (c : content) : Prop :=
  match r with
  | SrLen _ i => (i <= cap - 1)%nat /\ forall j, (j < i)%nat -> at_ (ct_path c) j <> NUL
  | SrTotal _ len => is_len (ct_path c) len
  | SrParallel _ len t => is_len (ct_path c) len /\ t = ct_total c
  | SrDone _ len t p => is_len (ct_path c) len /\ t = ct_total c /\ p = ct_parallel c
  | SrCopy _ len t p _ acc => is_len (ct_path c) len /\ t = ct_total c /\ p = ct_parallel c /\ acc = take (length acc) (ct_path c) /\ (length acc <= S len)%nat
  | SrCheck _ t p _ acc | SrTaken acc t p _ => exists len, is_len (ct_path c) len /\ t = ct_total c /\ p = ct_parallel c /\ acc = take (S len) (ct_path c)
  | _ => True
  end.
Definition rseq (r : sreader) : option Z :=
  match r with
  | SrLen q _ | SrTotal q _ | SrParallel q _ _ | SrDone q _ _ _ | SrCopy q _ _ _ _ _ | SrCheck q _ _ _ _ => Some q
  | _ => None
  end.

(** Nobody is inside and the slot is what the last one left, or one is. *)
Definition settled (s : ssys) : Prop :=
  Forall (fun w => ~ inside w) (s_writers s) /\ sl_seq (s_slot s) = u64 (2 * last_index s) /\ last (s_hist s) = Some (sl_content (s_slot s)).
Definition writing (ops : list cop) (s : ssys) : Prop :=
  exists n seq rest todo op pre c,
    s_writers s !! n = Some (SwIn seq rest todo) /\ (forall m w, s_writers s !! m = Some w -> inside w -> m = n) /\
    seq = u64 (2 * last_index s) /\ sl_seq (s_slot s) = u64 (2 * last_index s + 1) /\ last (s_hist s) = Some c /\
    op ∈ ops /\ stores op = pre ++ rest /\ sl_content (s_slot s) = foldl apply_store c pre.

Record sinv (ops : list cop) (s : ssys) : Prop := {
  si_hist : s_hist s !! 0%nat = Some content0;
  si_next : forall k c c', s_hist s !! k = Some c -> s_hist s !! S k = Some c' -> exists op, op ∈ ops /\ c' = foldl apply_store c (stores op);
  si_ops : Forall (fun w => Forall (fun op => op ∈ ops) (wops w)) (s_writers s);
  si_even : Forall (fun w => match w with SwCas q _ _ => Z.even q = true | _ => True end) (s_writers s);
  si_slot : settled s \/ writing ops s;
  si_cap : length (ct_path (sl_content (s_slot s))) = cap;
  si_read : forall q, rseq (s_reader s) = Some q -> exists k, 0 <= k <= last_index s /\ q = u64 (2 * k) /\
    (k = last_index s -> settled s -> agrees (s_reader s) (sl_content (s_slot s)));
  si_taken : forall p t q d, s_reader s = SrTaken p t q d -> exists k c, s_hist s !! k = Some c /\ agrees (s_reader s) c
}.

Lemma even_u64 z : Z.even (u64 z) = Z.even z.
Proof. unfold u64. rewrite (Z.mod_eq z (2 ^ 64)) by done. rewrite Z.even_sub, Z.even_mul. cbn. by destruct (Z.even z). Qed.
Lemma even_twice k : Z.even (2 * k) = true /\ Z.even (2 * k + 1) = false.
Proof. by rewrite Z.even_add, Z.even_mul. Qed.
Lemma u64_twice j k : 0 <= j < 2 ^ 63 -> 0 <= k < 2 ^ 63 -> u64 (2 * j) = u64 (2 * k) -> j = k.
Proof. intros Hj Hk. rewrite !u64_small by (unfold is_u64; lia). lia. Qed.
Lemma u64_succ z : u64 (u64 z + 1) = u64 (z + 1) /\ u64 (u64 z + 2) = u64 (z + 2).
Proof. unfold u64. by rewrite !Zplus_mod_idemp_l. Qed.

Lemma sinv0 inputs : sinv (concat inputs) (ssys0 inputs).
Proof.
  split; cbn; try done.
  - apply Forall_fmap, Forall_forall. intros l Hl. apply Forall_forall. intros op Hop. cbn in Hop. apply list_elem_of_In. apply in_concat. exists l. split; by apply list_elem_of_In.
  - apply Forall_fmap, Forall_true. done.
  - left. split_and!; [|done|done]. apply Forall_fmap, Forall_true. intros x []. 
  - by rewrite length_replicate.
Qed.

Lemma not_both ops s : settled s -> writing ops s -> False.
Proof.
  intros [Hf _] (n & seq & rest & todo & op & pre & c & Hn & _). pose proof (Forall_lookup_1 _ _ _ _ Hf Hn) as H. by apply H.
Qed.
(** A thread outside moves on without touching the slot. *)
Lemma outside_step ops sl ws r h n w w' :
  ws !! n = Some w -> ~ inside w -> ~ inside w' -> wops w = wops w' \/ (exists op, wops w = op :: wops w') ->
  match w' with SwCas q _ _ => Z.even q = true | _ => True end ->
  sinv ops (SSys sl ws r h) -> sinv ops (SSys sl (<[n := w']> ws) r h).
Proof.
  intros Hn Hi Hi' Hops Hev [Hh Hx Ho He Hs Hc Hr Ht]. cbn in *.
  assert (Hback : settled (SSys sl (<[n := w']> ws) r h) -> settled (SSys sl ws r h)).
  { intros (Hf & H1 & H2). split_and!; [|done|done]. cbn in *. rewrite <- (list_insert_id ws n w Hn), <- (list_insert_insert_eq ws n w w').
    by apply Forall_insert. }
  split; cbn; try done.
  - apply Forall_insert; [done|]. pose proof (Forall_lookup_1 _ _ _ _ Ho Hn) as H. cbn beta in H. destruct Hops as [<-|(op & E)]; [done|]. rewrite E in H. by inversion H.
  - by apply Forall_insert.
  - destruct Hs as [(Hf & H1 & H2)|(m & seq & rest & todo & op & pre & c & Hm & Hu & H)]; [left|right].
    + split_and!; [|done|done]. by apply Forall_insert.
    + cbn in Hm, Hu. exists m, seq, rest, todo, op, pre, c. split_and!; try tauto.
      * cbn. rewrite list_lookup_insert_ne; [done|]. intros ->. rewrite Hn in Hm. injection Hm as ->. by apply Hi.
      * cbn. intros k v Hk Hv. destruct (decide (k = n)) as [->|Hne]; [|rewrite list_lookup_insert_ne in Hk by done; by eapply Hu].
        rewrite list_lookup_insert_eq in Hk by (by eapply lookup_lt_Some). injection Hk as <-. done.
  - intros q Hq. destruct (Hr q Hq) as (k & Hk & Eq & Ha). exists k. split; [exact Hk|split; [done|]]. intros Ek Hset. by apply Ha, Hback.
Qed.

(** Entering, storing, leaving. *)
Lemma claim_step ops n op todo sl ws r h :
  ws !! n = Some (SwCas (sl_seq sl) op todo) -> sinv ops (SSys sl ws r h) ->
  sinv ops (SSys (Slot (u64 (sl_seq sl + 1)) (sl_done sl) (sl_content sl)) (<[n := SwIn (sl_seq sl) (stores op) todo]> ws) r h).
Proof.
  intros Hn [Hh Hx Ho He Hs Hc Hr Ht]. cbn in *. pose proof (Forall_lookup_1 _ _ _ _ He Hn) as Hev. cbn in Hev.
  pose proof (Forall_lookup_1 _ _ _ _ Ho Hn) as Hop. cbn in Hop. apply Forall_cons_iff in Hop as [Hop Htodo].
  assert (Hnin : Forall (fun w => ~ inside w) ws /\ sl_seq sl = u64 (2 * (zlen h - 1)) /\ last h = Some (sl_content sl)).
  { destruct Hs as [H|(m & seq & rest & todo' & op' & pre & c & _ & _ & _ & E & _)]; [done|]. exfalso. cbn in E.
    rewrite E, even_u64 in Hev. destruct (even_twice (last_index (SSys sl ws r h))) as [_ E']. congruence. }
  destruct Hnin as (Hf & Eseq & Hlast).
  assert (Hw : writing ops (SSys (Slot (u64 (sl_seq sl + 1)) (sl_done sl) (sl_content sl)) (<[n := SwIn (sl_seq sl) (stores op) todo]> ws) r h)).
  { exists n, (sl_seq sl), (stores op), todo, op, [], (sl_content sl). unfold last_index. cbn. split_and!; try done.
    - apply list_lookup_insert_eq. by eapply lookup_lt_Some.
    - intros m w Hm Hw. destruct (decide (m = n)) as [|Hne]; [done|]. rewrite list_lookup_insert_ne in Hm by done. by destruct (Forall_lookup_1 _ _ _ _ Hf Hm).
    - rewrite Eseq. apply u64_succ. }
  split; cbn; try done.
  - by apply Forall_insert.
  - by apply Forall_insert.
  - by right.
  - intros q Hq. destruct (Hr q Hq) as (k & Hk & Eq & _). exists k. split; [exact Hk|split; [done|]]. intros _ Hset. by destruct (not_both _ _ Hset Hw).
Qed.

Lemma store_step ops n seq x rest todo sl ws r h :
  ws !! n = Some (SwIn seq (x :: rest) todo) -> sinv ops (SSys sl ws r h) ->
  sinv ops (SSys (Slot (sl_seq sl) (stored_done x (sl_done sl)) (apply_store (sl_content sl) x)) (<[n := SwIn seq rest todo]> ws) r h).
Proof.
  intros Hn [Hh Hx Ho He Hs Hc Hr Ht]. cbn in *. pose proof (Forall_lookup_1 _ _ _ _ Ho Hn) as Hop. cbn in Hop.
  assert (Hw : writing ops (SSys (Slot (sl_seq sl) (stored_done x (sl_done sl)) (apply_store (sl_content sl) x)) (<[n := SwIn seq rest todo]> ws) r h)).
  { destruct Hs as [(Hf & _)|(m & seq' & rest' & todo' & op & pre & c & Hm & Hu & E1 & E2 & E3 & E4 & E5 & E6)].
    { by destruct (Forall_lookup_1 _ _ _ _ Hf Hn). }
    cbn in *. assert (n = m) as <- by (by eapply Hu). rewrite Hn in Hm. injection Hm as <- <- <-.
    exists n, seq, rest, todo, op, (pre ++ [x]), c. cbn. split_and!; try done.
    - apply list_lookup_insert_eq. by eapply lookup_lt_Some.
    - intros k w Hk Hin. destruct (decide (k = n)) as [|Hne]; [done|]. rewrite list_lookup_insert_ne in Hk by done. by eapply Hu.
    - by rewrite E5, <- (assoc_L (++)).
    - by rewrite E6, foldl_app. }
  split; cbn; try done.
  - by apply Forall_insert.
  - by apply Forall_insert.
  - by right.
  - destruct x; cbn; by rewrite ?length_insert.
  - intros q Hq. destruct (Hr q Hq) as (k & Hk & Eq & _). exists k. split; [exact Hk|split; [done|]]. intros _ Hset. by destruct (not_both _ _ Hset Hw).
Qed.

Lemma end_step ops n seq todo sl ws r h :
  ws !! n = Some (SwIn seq [] todo) -> sinv ops (SSys sl ws r h) ->
  sinv ops (SSys (Slot (u64 (seq + 2)) (sl_done sl) (sl_content sl)) (<[n := SwIdle todo]> ws) r (h ++ [sl_content sl])).
Proof.
  intros Hn [Hh Hx Ho He Hs Hc Hr Ht]. cbn in *. pose proof (Forall_lookup_1 _ _ _ _ Ho Hn) as Hop. cbn in Hop.
  destruct Hs as [(Hf & _)|(m & seq' & rest' & todo' & op & pre & c & Hm & Hu & E1 & E2 & E3 & E4 & E5 & E6)].
  { by destruct (Forall_lookup_1 _ _ _ _ Hf Hn). }
  unfold last_index in *. cbn in *. assert (n = m) as <- by (by eapply Hu). rewrite Hn in Hm. injection Hm as <- <- <-. rewrite app_nil_r in E5. subst pre.
  assert (Hz : zlen (h ++ [sl_content sl]) - 1 = zlen h) by (unfold zlen; rewrite length_app; cbn; lia).
  split; unfold last_index; cbn; rewrite ?Hz; try done.
  - by apply lookup_app_l_Some.
  - intros k a b Ha Hb. apply lookup_app_Some in Hb as [Hb|[Hl Hb]].
    + rewrite lookup_app_l in Ha by (apply lookup_lt_Some in Hb; lia). by eapply Hx.
    + apply list_lookup_singleton_Some in Hb as [Hk <-]. rewrite lookup_app_l in Ha by lia.
      rewrite last_lookup in E3. replace (Nat.pred (length h)) with k in E3 by lia. rewrite Ha in E3. injection E3 as ->. by exists op.
  - by apply Forall_insert.
  - by apply Forall_insert.
  - left. split_and!; unfold last_index; cbn; rewrite ?Hz, ?last_snoc; [| |done].
    + apply Forall_lookup. intros k w Hk Hin. destruct (decide (k = n)) as [->|Hne].
      * rewrite list_lookup_insert_eq in Hk by (by eapply lookup_lt_Some). by injection Hk as <-.
      * rewrite list_lookup_insert_ne in Hk by done. apply Hne. by eapply Hu.
    + rewrite E1. rewrite (proj2 (u64_succ _)). f_equal. lia.
  - intros q Hq. destruct (Hr q Hq) as (k & Hk & Eq & _). exists k. split_and!; [lia|lia|done|lia].
  - intros p t q d E. destruct (Ht p t q d E) as (k & a & Hk & Ha). exists k, a. split; [by apply lookup_app_l_Some|done].
Qed.

(** The reader goes on with the number it loaded. *)
Lemma read_step ops sl ws r r' h :
  sinv ops (SSys sl ws r h) -> (forall q, rseq r' = Some q -> rseq r = Some q) -> (forall p t q d, r' <> SrTaken p t q d) ->
  (agrees r (sl_content sl) -> agrees r' (sl_content sl)) -> sinv ops (SSys sl ws r' h).
Proof.
  intros [Hh Hx Ho He Hs Hc Hr Ht] Hq Hn Ha. cbn in *. split; cbn; try done.
  - intros q E. destruct (Hr q (Hq q E)) as (k & Hk & Eq & H). exists k. split; [exact Hk|split; [done|]]. intros E1 E2. by apply Ha, H.
  - intros p t q d E. by destruct (Hn p t q d).
Qed.
Lemma at_lookup p i b : p !! i = Some b -> at_ p i = b.
Proof. unfold at_. by intros ->. Qed.

Lemma seq_step ops sl ws h : (1 <= cap)%nat ->
  sinv ops (SSys sl ws SrSeq h) -> Z.even (sl_seq sl) = true -> sinv ops (SSys sl ws (SrLen (sl_seq sl) 0) h).
Proof.
  intros Hcap [Hh Hx Ho He Hs Hc Hr Ht] Hev. cbn in *. split; cbn; try done.
  intros q [= <-]. destruct Hs as [(_ & E & _)|(m & seq & rest & todo & op & pre & c & _ & _ & _ & E & _)].
  - exists (last_index (SSys sl ws SrSeq h)). split; [|split; [exact E|]].
    + unfold last_index. cbn. destruct h; [done|]. unfold zlen. cbn. lia.
    + intros _ _. split; [lia|]. intros j Hj. lia.
  - exfalso. cbn in E. rewrite E, even_u64 in Hev. destruct (even_twice (last_index (SSys sl ws SrSeq h))) as [_ E']. congruence.
Qed.

Lemma check_step ops t p d acc sl ws h : zlen h <= 2 ^ 63 ->
  sinv ops (SSys sl ws (SrCheck (sl_seq sl) t p d acc) h) -> sinv ops (SSys sl ws (SrTaken acc t p d) h).
Proof.
  intros Hb [Hh Hx Ho He Hs Hc Hr Ht]. cbn in *. split; cbn; try done.
  intros p' t' q' d' [= <- <- <- <-]. destruct (Hr _ eq_refl) as (k & Hk & Eq & Ha). unfold last_index in Hk, Ha. cbn in Hk, Ha.
  destruct Hs as [Hset|(m & seq & rest & todo & op & pre & c & _ & _ & _ & E & _)].
  - pose proof Hset as (Hf & E & El). unfold last_index in E. cbn in E, El. rewrite Eq in E. apply u64_twice in E; [|lia|lia].
    rewrite last_lookup in El. exists (Nat.pred (length h)), (sl_content sl). split; [exact El|]. exact (Ha E Hset).
  - exfalso. unfold last_index in E. cbn in E. rewrite Eq in E. apply (f_equal Z.even) in E. rewrite !even_u64 in E.
    destruct (even_twice k) as [E1 _], (even_twice (zlen h - 1)) as [_ E2]. congruence.
Qed.

Lemma sinv_step ops s s' : (1 <= cap)%nat -> zlen (s_hist s') <= 2 ^ 63 -> sinv ops s -> sstep s s' -> sinv ops s'.
Proof.
  intros Hcap Hb Hi H. destruct H; cbn in Hb.
  - eapply outside_step; [exact H|by intros []|by intros []|by left|done|exact Hi].
  - eapply outside_step; [exact H|by intros []|by intros []|by left|done|exact Hi].
  - eapply outside_step; [exact H|by intros []|by intros []|by left|done|exact Hi].
  - by apply claim_step.
  - by eapply store_step.
  - by apply end_step.
  - destruct Hi. by split.
  - eapply read_step; [exact Hi| | |]; by case_decide.
  - destruct (Z.even (sl_seq sl)) eqn:E; [by apply seq_step|]. by eapply read_step; [exact Hi|..].
  - eapply read_step; [exact Hi| | |]; case_decide as E; try done; cbn; intros [H1 H2].
    + split_and!; [done|done|tauto].
    + split; [lia|]. intros j Hj. destruct (decide (j = i)) as [->|]; [tauto|apply H2; lia].
  - eapply read_step; [exact Hi|done|done|]. cbn. by intros.
  - eapply read_step; [exact Hi|done|done|]. cbn. by intros [? ?].
  - eapply read_step; [exact Hi|done|done|]. cbn. intros (? & ? & ?). split_and!; try done. lia.
  - eapply read_step; [exact Hi| | |]; case_decide as E; try done; cbn; intros (Hl & H1 & H2 & H3 & H4).
    + exists len. split_and!; try done. by rewrite <- E.
    + split_and!; try done; [|rewrite length_app; cbn; lia]. rewrite length_app. cbn.
      assert (Hlt : (length acc < length (ct_path (sl_content sl)))%nat) by (pose proof (si_cap _ _ Hi) as Hc; cbn in Hc; rewrite Hc; destruct Hl; lia).
      apply lookup_lt_is_Some in Hlt as [b Hlk]. rewrite (at_lookup _ _ _ Hlk), Nat.add_1_r, (take_S_r _ _ _ Hlk). by f_equal.
  - case_decide as E; [subst seq; by apply check_step with (d := d)|]. by eapply read_step; [exact Hi|..].
Qed.

Lemma hist_grows s s' : sstep s s' -> zlen (s_hist s) <= zlen (s_hist s').
Proof. intros H. destruct H; cbn; try lia. rewrite zlen_app. unfold zlen at 3. cbn. lia. Qed.
Lemma sinv_reach inputs s : (1 <= cap)%nat -> zlen (s_hist s) <= 2 ^ 63 -> rtc sstep (ssys0 inputs) s -> sinv (concat inputs) s.
Proof.
  intros Hcap Hb H. revert s H Hb. refine (rtc_ind_r (fun s => zlen (s_hist s) <= 2 ^ 63 -> sinv (concat inputs) s) _ _ _); [intros _; apply sinv0|].
  intros y z _ Hyz IH Hb. eapply sinv_step; [done|done| |exact Hyz]. apply IH. pose proof (hist_grows _ _ Hyz). lia.
Qed.

Lemma cstr_take p len : (len < length p)%nat -> (forall j, (j < len)%nat -> at_ p j <> NUL) -> at_ p len = NUL -> cstr (take (S len) p) = cstr p.
Proof.
  revert len. induction p as [|b p IH]; intros [|len] Hl Hj H0; cbn in Hl; try lia.
  - assert (b = NUL) as -> by exact H0. done.
  - cbn. case_decide; [done|]. f_equal. apply IH; [lia| |exact H0]. intros j Hlt. apply (Hj (S j)). lia.
Qed.
Lemma len_shown p len : (1 <= cap)%nat -> length p = cap -> is_len p len -> cstr (take (S len) p) = cstr p.
Proof.
  intros Hcap Hp (Hl & Hj & He). destruct (decide (at_ p len = NUL)) as [E|E]; [apply cstr_take; [lia|done|done]|].
  destruct He as [->|]; [|done]. by rewrite take_ge by lia.
Qed.
Lemma hist_shown ops s k c : (1 <= cap)%nat -> Forall cop_ok ops -> sinv ops s -> s_hist s !! k = Some c ->
  length (ct_path c) = cap /\ (shown c = ([], 0, 0) \/ exists op, op ∈ ops /\ shown c = wanted op).
Proof.
  intros Hcap Hok Hi. revert c. induction k as [|k IH]; intros c Hk.
  - rewrite (si_hist _ _ Hi) in Hk. injection Hk as <-. split; [cbn; by rewrite length_replicate|]. left. unfold content0, shown. cbn. by destruct cap; [lia|].
  - destruct (lookup_lt_is_Some_2 (s_hist s) k) as [c0 H0]; [apply lookup_lt_Some in Hk; lia|].
    destruct (si_next _ _ Hi _ _ _ H0 Hk) as (op & Hop & ->). destruct (IH c0 H0) as [Hl _]. split; [by rewrite apply_length|].
    right. exists op. split; [done|]. apply stores_shown; [done|done|]. by eapply Forall_forall.
Qed.

(** C34.  The display never shows a mixture. However threads claim, fill and clear
    a slot they share and the reader looks at it, byte by byte: at most one
    thread is between claim and release, and what the reader accepts is an empty
    slot or exactly the name (cut to the array), the total and the mode of one
    file that one thread announced, provided fewer than 2^63 updates happen in
    one run, so that the sequence number does not come round. *)
Theorem snapshot_consistent inputs s path total parallel done :
  (1 <= cap)%nat -> Forall cop_ok (concat inputs) -> zlen (s_hist s) <= 2 ^ 63 -> rtc sstep (ssys0 inputs) s ->
  (forall m n v w, s_writers s !! m = Some v -> s_writers s !! n = Some w -> inside v -> inside w -> m = n) /\
  (s_reader s = SrTaken path total parallel done ->
     (cstr path, total, parallel) = ([], 0, 0) \/ exists op, op ∈ concat inputs /\ (cstr path, total, parallel) = wanted op).
Proof.
  intros Hcap Hok Hb H. pose proof (sinv_reach _ _ Hcap Hb H) as Hi. split.
  - intros m n v w Hm Hn Hv Hw. destruct (si_slot _ _ Hi) as [[Hf _]|(k & ? & ? & ? & ? & ? & ? & _ & Hu & _)].
    + by destruct (Forall_lookup_1 _ _ _ _ Hf Hm).
    + etrans; [by eapply Hu|symmetry; by eapply Hu].
  - intros E. destruct (si_taken _ _ Hi _ _ _ _ E) as (k & c & Hk & Ha). rewrite E in Ha. destruct Ha as (len & Hl & -> & -> & ->).
    destruct (hist_shown _ _ _ _ Hcap Hok Hi Hk) as [Hlen Hs]. rewrite (len_shown _ _ Hcap Hlen Hl). exact Hs.
Qed.
End slot.

(** The loads and stores above happen in program order. The C code gives the
    second load of the sequence number the order acquire, which does not keep
    the plain loads before it from being delayed past it, and the exchange that
    claims the slot acquire as well, which does not keep the plain stores after
    it from becoming visible first; on a machine that reorders them, this
    theorem does not apply. *)

Lemma one_file_shown : exists s, rtc (sstep 4) (ssys0 4 [[stats_set_current_file (str "ab") 7 1]]) s /\
  s_reader s = SrTaken (str "ab" ++ [NUL]) 7 1 0 /\ zlen (s_hist s) = 2.
Proof.
  eexists. split; [|split]; cycle 1.
  - instantiate (1 := SSys _ _ _ _). cbn. reflexivity.
  - cbn. instantiate (1 := [_; _]). reflexivity.
  - unfold ssys0. cbn.
    eapply rtc_l; [by eapply (sw_begin _ 0%nat)|]. cbn.
    eapply rtc_l; [by eapply (sw_load _ 0%nat)|]. cbn.
    eapply rtc_l; [by eapply (sw_claim _ 0%nat)|]. cbn.
    do 6 (eapply rtc_l; [by eapply (sw_store _ 0%nat)|]; cbn).
    eapply rtc_l; [by eapply (sw_end _ 0%nat)|]. cbn.
    eapply rtc_l; [apply sr_peek|]. cbn.
    eapply rtc_l; [apply sr_seq|]. cbn.
    do 3 (eapply rtc_l; [apply sr_len|]; cbn).
    eapply rtc_l; [apply sr_total|]. eapply rtc_l; [apply sr_parallel|]. eapply rtc_l; [apply sr_done|]. cbn.
    do 4 (eapply rtc_l; [apply sr_copy|]; cbn).
    eapply rtc_l; [apply sr_check|]. cbn. apply rtc_refl.
Qed.
Lemma snapshot_consistent_witness : exists s, s_reader s = SrTaken (str "ab" ++ [NUL]) 7 1 0 /\
  ((str "ab", 7, 1) = ([], 0, 0) \/ exists op, op ∈ [stats_set_current_file (str "ab") 7 1] /\ (str "ab", 7, 1) = wanted 4 op).
Proof.
  destruct one_file_shown as (s & Hr & Hs & Hh). exists s. split; [exact Hs|].
  assert (Hok : Forall cop_ok (concat [[stats_set_current_file (str "ab") 7 1]])) by (repeat constructor; done).
  destruct (snapshot_consistent 4 [[stats_set_current_file (str "ab") 7 1]] s (str "ab" ++ [NUL]) 7 1 0) as [_ H]; [lia|exact Hok|rewrite Hh; lia|exact Hr|].
  exact (H Hs).
Defined.
