(* ===== verification/VerifyPipe.v ===== *)
(** The intake of verification and its feeder (src/verify.c: [verify_queue_file],
    [verify_queue_directory], [verify_feeder_main], [pipeline_flush_gen],
    [verify_pipeline_start], [verify_pipeline_finish], [verify_request_stop],
    [verify_queue_clear]).

    Copying threads put the files they have copied on a bounded list; the feeder
    hands them to the pool of VerifyPool.v: at once when they are durable, else
    in generations behind a barrier that makes the server materialize them.
    Directories wait until the end. [pipestep] interleaves the critical sections
    under g_queue_lock. The pool is seen through the answer of
    [verify_pool_submit], which only refuses after an interruption; spurious
    wake-ups are left out. *)

From Stdlib Require Import SpecFloat.
From S2P Require Export EnvUtil VerifyLocal.
From stdpp Require Import list relations.
#[local] Open Scope Z_scope.

(** * Configuration *)

Definition VERIFY_QUEUE_MAX_DEFAULT : Z := 262144.
Definition VERIFY_QUEUE_MAX_MIN : Z := 1024.
Definition VERIFY_QUEUE_MAX_LIMIT : Z := 100000000.
Definition VERIFY_PIPELINE_OPS_DEFAULT : Z := 4096.

(** DIRECT_COPY_VERIFY_QUEUE_MAX, and whether a warning is printed. *)
Definition verify_queue_max (env : option bytes) : Z * bool :=
  match env with
  | None | Some [] => (VERIFY_QUEUE_MAX_DEFAULT, false)
  | Some s =>
      let r := strtoull s in
      if st_erange r || bool_decide (st_end r = s) || negb (bool_decide (st_end r = []))
         || bool_decide (st_val r < VERIFY_QUEUE_MAX_MIN) || bool_decide (VERIFY_QUEUE_MAX_LIMIT < st_val r)
      then (VERIFY_QUEUE_MAX_DEFAULT, true) else (st_val r, false)
  end.
(** DIRECT_COPY_VERIFY_PIPELINE_OPS. *)
Definition verify_pipeline_ops (env : option bytes) : Z :=
  match env with
  | None | Some [] => VERIFY_PIPELINE_OPS_DEFAULT
  | Some s => let v := st_val (strtol s) in if decide (1 <= v <= 1000000) then v else VERIFY_PIPELINE_OPS_DEFAULT
  end.
Definition clamp_percent (p : spec_float) : spec_float :=
  let p := if SFltb p (f64_of_Z 0) then f64_of_Z 0 else p in
  if SFltb f64_100 p then f64_100 else p.
(** [random_seed], with what getrandom, the clock and getpid answer. *)
Definition random_seed (getrandom : option Z) (sec nsec pid : Z) : Z :=
  match getrandom with Some seed => seed | None => mix64 (Z.lxor (Z.lxor (u64 sec) (u64 (Z.shiftl (u64 nsec) 32))) (u64 pid)) end.
(** The configuration, and the number of checkers. *)
Definition verify_configure (metadata data : bool) (percent : spec_float) (include_skipped : bool) (seed : option Z) (random workers : Z) : verify_config * Z :=
  (VConfig metadata data include_skipped (clamp_percent percent) (match seed with Some s => s | None => random end),
   if decide (workers < 1) then 1 else if decide (128 < workers) then 128 else workers).

Lemma verify_queue_max_ok env : VERIFY_QUEUE_MAX_MIN <= (verify_queue_max env).1 <= VERIFY_QUEUE_MAX_LIMIT.
Proof.
  unfold verify_queue_max. destruct env as [[|b s]|]; [done| |done]. cbv zeta.
  destruct (_ || bool_decide (VERIFY_QUEUE_MAX_LIMIT < _)) eqn:E; [done|]. apply orb_false_elim in E as [E E1]. apply orb_false_elim in E as [_ E2].
  apply bool_decide_eq_false in E1, E2. cbn [fst]. lia.
Qed.
(** A percentage that is not a number passes both tests, here and in main.c. *)
Example nan_percent_kept : clamp_percent S754_nan = S754_nan.
Proof. reflexivity. Qed.

(** * The intake *)

(** What [verify_queue_file] and [verify_queue_directory] let through. *)
Definition verify_enabled (cfg : verify_config) : bool := vc_metadata cfg || vc_data cfg.
Definition wants_file (cfg : verify_config) (include_skipped skipped : bool) : bool :=
  verify_enabled cfg && negb (skipped && negb include_skipped).

(** [g_head], [g_dir_head], [g_pending_count], [g_feeder_started],
    [g_feeder_stop], [g_feeder_failed]. *)
Record intake := Intake { in_queue : list verify_item; in_dirs : list verify_item; in_count : Z; in_started : bool; in_stop : bool; in_failed : bool }.

(** The condition to sleep on g_space_cv. *)
Definition intake_full (max : Z) (q : intake) : bool := in_started q && negb (in_stop q) && bool_decide (max <= in_count q).
(** [append_queued_item_locked]. *)
Definition intake_push (i : verify_item) (q : intake) : intake :=
  Intake (in_queue q ++ [i]) (in_dirs q) (in_count q + 1) (in_started q) (in_stop q) (in_failed q).
Definition intake_push_dir (i : verify_item) (q : intake) : intake :=
  Intake (in_queue q) (in_dirs q ++ [i]) (in_count q) (in_started q) (in_stop q) (in_failed q).
(** The feeder steals the list. *)
Definition intake_take (q : intake) : intake := Intake [] (in_dirs q) (in_count q) (in_started q) (in_stop q) (in_failed q).
Definition intake_settle (stolen : Z) (q : intake) : intake :=
  Intake (in_queue q) (in_dirs q) (in_count q - stolen) (in_started q) (in_stop q) (in_failed q).
Definition intake_stop (q : intake) : intake := Intake (in_queue q) (in_dirs q) (in_count q) (in_started q) true (in_failed q).
Definition intake_fail (ok : bool) (q : intake) : intake :=
  Intake (in_queue q) (in_dirs q) (in_count q) (in_started q) (in_stop q) (in_failed q || negb ok).
(** [verify_pipeline_finish] takes the directories, and at the end empties the
    list, as [verify_queue_clear] does. *)
Definition intake_end (q : intake) : intake := Intake (in_queue q) [] (in_count q) false (in_stop q) (in_failed q).
Definition verify_queue_clear (q : intake) : intake := Intake [] (in_dirs q) 0 (in_started q) (in_stop q) (in_failed q).
(** [verify_run_queued], after a copy without the pipeline: files, then
    directories, go to a pool of their own; [verdict] is [run_pool_list]'s. *)
Definition verify_run_queued (cfg : verify_config) (verdict : list verify_item -> bool) (remote barrier : bool) (q : intake) : intake * bool :=
  (Intake [] [] 0 (in_started q) (in_stop q) (in_failed q),
   verdict (in_queue q ++ in_dirs q) && (negb (remote && verify_enabled cfg) || barrier)).
(** [verify_retarget_path]: every item of the list with the old name. *)
Definition verify_retarget_path (old new : bytes) (q : intake) : intake :=
  Intake ((fun i => if decide (vi_dst i = old) then VItem (vi_src i) new (vi_st i) (vi_skipped i) (vi_is_dir i) (vi_durable i) else i) <$> in_queue q)
    (in_dirs q) (in_count q) (in_started q) (in_stop q) (in_failed q).

(** * Threads *)

(** A copying thread, with the items it is still going to queue: between items;
    asleep on g_space_cv; woken. *)
Inductive producer := PIdle (todo : list verify_item) | PSpace (i : verify_item) (todo : list verify_item) | PWoken (i : verify_item) (todo : list verify_item).

(** The feeder: at the head of its loop, asleep on g_queue_cv, timed out;
    handing on what it stole, with the flags it read and how many it has dealt
    with; about to settle the count; about to release a generation; submitting
    one; gone. *)
Inductive feeder :=
| FTop | FWait | FTimed
| FBatch (rest : list verify_item) (stop shut timed : bool) (stolen : Z)
| FSettle (stop timed : bool) (stolen : Z)
| FRelease (stop timed : bool)
| FFlush (rest : list verify_item) (stop : bool)
| FExit.

(** The thread that finishes the pipeline. *)
Inductive finisher := NRun | NJoin | NDirs (rest : list verify_item) | NDone (ok : bool).

(** What has happened, oldest first; [ev_verdict] is [verify_pool_finish]'s answer. *)
Inductive pevent :=
| ev_queued (i : verify_item) | ev_barrier (ok : bool) | ev_submitted (i : verify_item) | ev_dropped (i : verify_item) | ev_verdict (ok : bool).

Record vpipe := Pipe {
  pi_intake : intake; pi_producers : list producer; pi_feeder : feeder; pi_gen : list verify_item;
  pi_finisher : finisher; pi_shut : bool; pi_asked : bool; pi_log : list pevent
}.

Definition wake_producer (p : producer) : producer := match p with PSpace i todo => PWoken i todo | _ => p end.
Definition wake_feeder (f : feeder) : feeder := match f with FWait => FTop | _ => f end.
(** [verify_pool_submit]'s answer, in the log. *)
Definition submitted (ok : bool) (i : verify_item) : pevent := if ok then ev_submitted i else ev_dropped i.

Section pipe.
Context (remote include_dirs : bool) (max ops : Z).

(** The test at the end of the feeder's round. *)
Definition release_due (gen : list verify_item) (stop timed : bool) : bool :=
  negb (bool_decide (gen = [])) && (bool_decide (ops <= zlen gen) || timed || stop).
Definition feeder_next (stop : bool) : feeder := if stop then FExit else FTop.

(** The end of [verify_pipeline_finish]: the pool, and the barrier of a remote
    run. *)
Definition last_events (pool_ok last_ok : bool) : list pevent := ev_verdict pool_ok :: if remote then [ev_barrier last_ok] else [].

Inductive pipestep (intr : bool) : vpipe -> vpipe -> Prop :=
(** [verify_queue_file]: no room; room. *)
| ps_full n p i todo q ps f gen fin shut ask l :
    ps !! n = Some p -> p = PIdle (i :: todo) \/ p = PWoken i todo -> vi_is_dir i = false -> intake_full max q = true ->
    pipestep intr (Pipe q ps f gen fin shut ask l) (Pipe q (<[n := PSpace i todo]> ps) f gen fin shut ask l)
| ps_queue n p i todo q ps f gen fin shut ask l :
    ps !! n = Some p -> p = PIdle (i :: todo) \/ p = PWoken i todo -> vi_is_dir i = false -> intake_full max q = false ->
    pipestep intr (Pipe q ps f gen fin shut ask l)
      (Pipe (intake_push i q) (<[n := PIdle todo]> ps) (wake_feeder f) gen fin shut ask (l ++ [ev_queued i]))
(** [verify_queue_directory]. *)
| ps_queue_dir n i todo q ps f gen fin shut ask l :
    ps !! n = Some (PIdle (i :: todo)) -> vi_is_dir i = true ->
    pipestep intr (Pipe q ps f gen fin shut ask l) (Pipe (intake_push_dir i q) (<[n := PIdle todo]> ps) f gen fin shut ask (l ++ [ev_queued i]))
(** The feeder sleeps, times out, or steals the list. *)
| ps_sleep q ps gen fin shut ask l :
    in_queue q = [] -> in_stop q = false ->
    pipestep intr (Pipe q ps FTop gen fin shut ask l) (Pipe q ps FWait gen fin shut ask l)
| ps_timeout q ps gen fin shut ask l :
    pipestep intr (Pipe q ps FWait gen fin shut ask l) (Pipe q ps FTimed gen fin shut ask l)
| ps_take f q ps gen fin shut ask l :
    f = FTimed \/ f = FTop /\ (in_queue q <> [] \/ in_stop q = true) ->
    pipestep intr (Pipe q ps f gen fin shut ask l)
      (Pipe (intake_take q) ps (FBatch (in_queue q) (in_stop q) shut (match f with FTimed => true | _ => false end) 0) gen fin shut ask l)
(** One stolen item: dropped, submitted, or added to the generation. *)
| ps_drop i rest stop timed n q ps gen fin shut ask l :
    pipestep intr (Pipe q ps (FBatch (i :: rest) stop true timed n) gen fin shut ask l)
      (Pipe q ps (FBatch rest stop true timed (n + 1)) gen fin shut ask (l ++ [ev_dropped i]))
| ps_durable ok i rest stop timed n q ps gen fin shut ask l :
    vi_durable i = true -> ok = true \/ shut || ask = true ->
    pipestep intr (Pipe q ps (FBatch (i :: rest) stop false timed n) gen fin shut ask l)
      (Pipe (intake_fail ok q) ps (FBatch rest stop false timed (n + 1)) gen fin shut ask (l ++ [submitted ok i]))
| ps_collect i rest stop timed n q ps gen fin shut ask l :
    vi_durable i = false ->
    pipestep intr (Pipe q ps (FBatch (i :: rest) stop false timed n) gen fin shut ask l)
      (Pipe q ps (FBatch rest stop false timed (n + 1)) (gen ++ [i]) fin shut ask l)
| ps_batch_end sd stop timed n q ps gen fin shut ask l :
    pipestep intr (Pipe q ps (FBatch [] stop sd timed n) gen fin shut ask l)
      (Pipe q ps (FSettle stop timed n) (if sd then [] else gen) fin shut ask (l ++ (if sd then ev_dropped <$> gen else [])))
(** The count; the threads that wait for room. *)
| ps_settle stop timed n q ps gen fin shut ask l :
    pipestep intr (Pipe q ps (FSettle stop timed n) gen fin shut ask l)
      (if decide (0 < n) then Pipe (intake_settle n q) (wake_producer <$> ps) (FRelease stop timed) gen fin shut ask l
       else Pipe q ps (FRelease stop timed) gen fin shut ask l)
(** [pipeline_flush_gen]: the barrier, then the generation. *)
| ps_keep stop timed q ps gen fin shut ask l :
    release_due gen stop timed = false ->
    pipestep intr (Pipe q ps (FRelease stop timed) gen fin shut ask l) (Pipe q ps (feeder_next stop) gen fin shut ask l)
| ps_release ok stop timed q ps gen fin shut ask l :
    release_due gen stop timed = true ->
    pipestep intr (Pipe q ps (FRelease stop timed) gen fin shut ask l)
      (Pipe (intake_fail (if remote then ok else true) q) ps (FFlush gen stop) [] fin shut ask (l ++ (if remote then [ev_barrier ok] else [])))
| ps_flush ok i rest stop q ps gen fin shut ask l :
    ok = true \/ shut || ask = true ->
    pipestep intr (Pipe q ps (FFlush (i :: rest) stop) gen fin shut ask l)
      (Pipe (intake_fail ok q) ps (FFlush rest stop) gen fin shut ask (l ++ [submitted ok i]))
| ps_flush_end stop q ps gen fin shut ask l :
    pipestep intr (Pipe q ps (FFlush [] stop) gen fin shut ask l) (Pipe q ps (feeder_next stop) gen fin shut ask l)
(** [verify_pipeline_finish], called when the copying threads have ended. *)
| ps_finish q ps f gen shut ask l :
    Forall (eq (PIdle [])) ps ->
    pipestep intr (Pipe q ps f gen NRun shut ask l) (Pipe (intake_stop q) ps (wake_feeder f) gen NJoin shut ask l)
| ps_joined q ps gen shut ask l :
    pipestep intr (Pipe q ps FExit gen NJoin shut ask l) (Pipe (intake_end q) ps FExit gen (NDirs (in_dirs q)) shut ask l)
| ps_dir ok i rest q ps f gen shut ask l :
    ok = true \/ shut || ask = true ->
    pipestep intr (Pipe q ps f gen (NDirs (i :: rest)) shut ask l)
      (Pipe (intake_fail (ok || negb include_dirs) q) ps f gen (NDirs rest) shut ask (l ++ [submitted (ok && include_dirs) i]))
| ps_done pool_ok last_ok q ps f gen shut ask l :
    pipestep intr (Pipe q ps f gen (NDirs []) shut ask l)
      (Pipe (verify_queue_clear q) ps f gen (NDone (negb (in_failed q) && pool_ok && (last_ok || negb remote))) shut ask
         (l ++ last_events pool_ok last_ok ++ (ev_dropped <$> in_queue q)))
(** The signal handler, and [verify_request_stop]. *)
| ps_shutdown q ps f gen fin ask l :
    intr = true -> pipestep intr (Pipe q ps f gen fin false ask l) (Pipe q ps f gen fin true ask l)
| ps_request q ps f gen fin l :
    pipestep intr (Pipe q ps f gen fin true false l) (Pipe (intake_stop q) (wake_producer <$> ps) (wake_feeder f) gen fin true true l).

(** After [verify_pipeline_start]. *)
Definition pipe0 (inputs : list (list verify_item)) : vpipe :=
  Pipe (Intake [] [] 0 true false false) (PIdle <$> inputs) FTop [] NRun false false [].
End pipe.
