(* ===== verification/VerifyPipeOk.v ===== *)
(** What the intake of VerifyPipe.v guarantees: the list stays bounded and
    nobody sleeps without being woken, what is queued is submitted, once, and
    what the server has not made durable only after a barrier, and the pipeline
    comes to its end. *)

From S2P Require Export VerifyPipe.
From stdpp Require Import list relations.
#[local] Open Scope Z_scope.

(** * The state: bounds, sleepers, flags *)

(** What the feeder holds, how much of the count it accounts for, and the flags
    it goes by. *)
Definition feeder_batch (f : feeder) : list verify_item := match f with FBatch r _ _ _ _ | FFlush r _ => r | _ => [] end.
Definition inflight (f : feeder) : Z := match f with FBatch r _ _ _ n => zlen r + n | FSettle _ _ n => n | _ => 0 end.
Definition stolen (f : feeder) : Z := match f with FBatch _ _ _ _ n | FSettle _ _ n => n | _ => 0 end.
Definition stop_seen (f : feeder) : bool :=
  match f with FBatch _ s _ _ _ | FSettle s _ _ | FRelease s _ | FFlush _ s => s | FExit => true | _ => false end.
Definition dropping (f : feeder) : bool := match f with FBatch _ _ sd _ _ => sd | _ => false end.
Definition rest_dirs (n : finisher) : list verify_item := match n with NDirs r => r | _ => [] end.
Definition todo (p : producer) : list verify_item := match p with PIdle t => t | PSpace i t | PWoken i t => i :: t end.

(** A thread that sleeps for room has reason to. *)
Definition sleeper (max : Z) (q : intake) (p : producer) : Prop :=
  match p with PSpace i _ => vi_is_dir i = false /\ intake_full max q = true | PWoken i _ => vi_is_dir i = false | PIdle _ => True end.
Definition feeder_ok (q : intake) (gen : list verify_item) (f : feeder) : Prop :=
  match f with
  | FWait => in_queue q = [] /\ in_stop q = false
  | FFlush _ _ | FExit => gen = []
  | _ => True
  end.

Section shape.
Context (remote include_dirs : bool) (max ops : Z).

Record pshape (s : vpipe) : Prop := {
  ps_count : in_count (pi_intake s) = zlen (in_queue (pi_intake s)) + inflight (pi_feeder s);
  ps_stolen : 0 <= stolen (pi_feeder s);
  ps_room : in_started (pi_intake s) = true -> in_stop (pi_intake s) = false -> in_count (pi_intake s) <= max;
  ps_sleepers : Forall (sleeper max (pi_intake s)) (pi_producers s);
  ps_feeder : feeder_ok (pi_intake s) (pi_gen s) (pi_feeder s);
  ps_seen : stop_seen (pi_feeder s) = true -> in_stop (pi_intake s) = true;
  ps_join : pi_finisher s <> NRun -> Forall (eq (PIdle [])) (pi_producers s) /\ in_stop (pi_intake s) = true;
  ps_end : match pi_finisher s with NRun | NJoin => in_started (pi_intake s) = true | NDirs _ | NDone _ => pi_feeder s = FExit end;
}.

Lemma sleeper_full q q' p : (intake_full max q = true -> intake_full max q' = true) -> sleeper max q p -> sleeper max q' p.
Proof. destruct p; cbn; naive_solver. Qed.
Lemma sleeper_wake q q' p : sleeper max q p -> sleeper max q' (wake_producer p).
Proof. destruct p; cbn; naive_solver. Qed.
Lemma full_count q : intake_full max q = true <-> in_started q = true /\ in_stop q = false /\ max <= in_count q.
Proof. unfold intake_full. rewrite !andb_true_iff, bool_decide_eq_true, negb_true_iff. tauto. Qed.
Lemma idle_sleepers q ps : Forall (eq (PIdle [])) ps -> Forall (sleeper max q) ps.
Proof. intros H. eapply Forall_impl; [exact H|]. by intros p <-. Qed.
Lemma idle_wake ps : Forall (eq (PIdle [])) ps -> Forall (eq (PIdle [])) (wake_producer <$> ps).
Proof. intros H. apply Forall_fmap. eapply Forall_impl; [exact H|]. by intros p <-. Qed.
Lemma idle_not n p i t ps : Forall (eq (PIdle [])) ps -> ps !! n = Some p -> p = PIdle (i :: t) \/ p = PWoken i t -> False.
Proof. intros H Hn Hp. pose proof (Forall_lookup_1 _ _ _ _ H Hn) as <-. naive_solver. Qed.

Lemma pshape0 inputs : 0 <= max -> pshape (pipe0 inputs).
Proof. intros H. constructor; cbn; try done; [by apply Forall_fmap, Forall_forall|congruence..]. Qed.

Lemma full_push (q : intake) i : intake_full max q = true -> intake_full max (intake_push i q) = true.
Proof. rewrite !full_count. cbn. intros (? & ? & ?). split_and!; [done..|lia]. Qed.
Lemma sleepers_insert q q' n p ps :
  (intake_full max q = true -> intake_full max q' = true) -> sleeper max q' p -> Forall (sleeper max q) ps -> Forall (sleeper max q') (<[n := p]> ps).
Proof. intros Hq Hp H. apply Forall_insert; [|done]. eapply Forall_impl; [exact H|]. intros x. by apply sleeper_full. Qed.
Lemma sleepers_wake q q' ps : Forall (sleeper max q) ps -> Forall (sleeper max q') (wake_producer <$> ps).
Proof. intros H. apply Forall_fmap. eapply Forall_impl; [exact H|]. intros p. apply sleeper_wake. Qed.
Lemma room_push q : intake_full max q = false -> in_started q = true -> in_stop q = false -> in_count q + 1 <= max.
Proof. intros Hf Hs Ho. unfold intake_full in Hf. rewrite Hs, Ho in Hf. cbn in Hf. apply bool_decide_eq_false in Hf. lia. Qed.
Lemma kept_none gen timed : release_due ops gen true timed = false -> gen = [].
Proof. unfold release_due. destruct gen; [done|]. rewrite !orb_true_r. by case_bool_decide. Qed.

Lemma pshape_step intr s s' : 1 <= max -> pshape s -> pipestep remote include_dirs max ops intr s s' -> pshape s'.
Proof.
  intros Hm [Hc Hn Hr Hs Hf Hst Hj He] H.
  destruct H; cbn in *; try case_decide; try (destruct stop; cbn in *); try (destruct f; cbn in *); constructor; cbn in *; try done;
    rewrite ?zlen_app, ?zlen_cons, ?zlen_nil in *; try lia; try (by destruct fin);
    try (intros E; destruct (Hj E); first [by exfalso; eauto using idle_not | split; auto using idle_wake]);
    try (by apply sleepers_wake with (1 := Hs)).
  all: try (decompose [or and] H; discriminate).
  all: try (destruct (Hj ltac:(done)) as [Hi Hi']; first [by auto using idle_sleepers|intros _; by auto]).
  all: try (apply sleepers_insert with q; cbn; [eauto using full_push|done|done]).
  all: try (by apply idle_sleepers).
  all: try (by apply room_push).
  all: try (intros E1 E2; specialize (Hr E1 E2); lia).
  by eapply kept_none.
Qed.

Lemma pshape_reach intr inputs s : 1 <= max -> rtc (pipestep remote include_dirs max ops intr) (pipe0 inputs) s -> pshape s.
Proof. intros Hm. apply (rtc_ind_r pshape); [apply pshape0; lia|]. intros; by eapply pshape_step. Qed.
End shape.

(** * The record *)

Definition sent (l : list pevent) : list verify_item := omap (fun e => match e with ev_submitted i => Some i | _ => None end) l.
Definition dropped (l : list pevent) : list verify_item := omap (fun e => match e with ev_dropped i => Some i | _ => None end) l.
#[local] Arguments sent : simpl never.
#[local] Arguments dropped : simpl never.
#[local] Arguments last_events : simpl never.
(** A barrier after the item was queued. *)
Definition released (l : list pevent) (i : verify_item) : Prop := exists a b c ok, l = a ++ ev_queued i :: b ++ ev_barrier ok :: c.
(** A file is submitted before all directories, and when the server need not
    have it on disk, after a barrier. *)
Definition in_order (remote : bool) (l : list pevent) (e : pevent) : Prop :=
  forall i, e = ev_submitted i -> vi_is_dir i = false ->
  (forall d, ev_submitted d ∈ l -> vi_is_dir d = false) /\ (remote = true -> vi_durable i = false -> released l i).
Definition ordered (remote : bool) (l : list pevent) : Prop := forall k e, l !! k = Some e -> in_order remote (take k l) e.

Lemma sent_app l k : sent (l ++ k) = sent l ++ sent k.
Proof. apply omap_app. Qed.
Lemma dropped_app l k : dropped (l ++ k) = dropped l ++ dropped k.
Proof. apply omap_app. Qed.
Lemma sent_dropped l : sent (ev_dropped <$> l) = [].
Proof. by induction l. Qed.
Lemma dropped_dropped l : dropped (ev_dropped <$> l) = l.
Proof. unfold dropped. induction l as [|i l IH]; [done|]. cbn. by f_equal. Qed.
Lemma nothing_sent : sent [] = [].
Proof. done. Qed.
Lemma dropped_nil : dropped [] = [].
Proof. done. Qed.
Lemma sent_one e : sent [e] = match e with ev_submitted i => [i] | _ => [] end.
Proof. by destruct e. Qed.
Lemma dropped_one e : dropped [e] = match e with ev_dropped i => [i] | _ => [] end.
Proof. by destruct e. Qed.
Lemma sent_last remote a b : sent (last_events remote a b) = [].
Proof. by destruct remote. Qed.
Lemma dropped_last remote a b : dropped (last_events remote a b) = [].
Proof. by destruct remote. Qed.
Lemma elem_sent i l : i ∈ sent l <-> ev_submitted i ∈ l.
Proof.
  unfold sent. rewrite list_elem_of_omap. split; [intros ([] & H & E); by simplify_eq|]. intros H. by exists (ev_submitted i).
Qed.

Lemma released_app l k i : released l i -> released (l ++ k) i.
Proof. intros (a & b & c & ok & ->). exists a, b, (c ++ k), ok. by rewrite <- !(assoc_L (++)), <- app_comm_cons, <- !(assoc_L (++)). Qed.
Lemma released_barrier l i ok : ev_queued i ∈ l -> released (l ++ [ev_barrier ok]) i.
Proof. intros (a & b & ->)%list_elem_of_split. exists a, b, [], ok. by rewrite <- !(assoc_L (++)), <- app_comm_cons. Qed.

Lemma ordered_nil remote : ordered remote [].
Proof. by intros k e H. Qed.
Lemma ordered_snoc remote l e : ordered remote l -> in_order remote l e -> ordered remote (l ++ [e]).
Proof.
  intros H He k x Hk. apply lookup_app_Some in Hk as [Hk|[Hl Hk]].
  - rewrite take_app_le; [by apply H|]. apply lookup_lt_Some in Hk. lia.
  - apply list_lookup_singleton_Some in Hk as [E ->]. rewrite take_app_le by lia. rewrite take_ge by lia. exact He.
Qed.
Lemma ordered_app remote l k : (forall e, e ∈ k -> forall i, e <> ev_submitted i) -> ordered remote l -> ordered remote (l ++ k).
Proof.
  revert l. induction k as [|e k IH]; intros l He H; [by rewrite app_nil_r|].
  rewrite cons_middle, (assoc_L (++)). apply IH; [intros x Hx; apply He; by right|].
  apply ordered_snoc; [done|]. intros i E. exfalso. apply (He e (list_elem_of_here _ _) i E).
Qed.

(** * Conservation *)

Section record.
Context (remote include_dirs : bool) (max ops : Z) (inputs : list (list verify_item)).

Record pcons (s : vpipe) : Prop := {
  pc_perm : concat inputs ≡ₚ concat (todo <$> pi_producers s) ++ in_queue (pi_intake s) ++ in_dirs (pi_intake s) ++
    feeder_batch (pi_feeder s) ++ pi_gen s ++ rest_dirs (pi_finisher s) ++ sent (pi_log s) ++ dropped (pi_log s);
  pc_dirs : Forall (fun i => vi_is_dir i = true) (in_dirs (pi_intake s) ++ rest_dirs (pi_finisher s));
  pc_files : Forall (fun i => vi_is_dir i = false) (in_queue (pi_intake s) ++ feeder_batch (pi_feeder s) ++ pi_gen s);
  pc_clean : pi_shut s = false -> pi_asked s = false /\ dropping (pi_feeder s) = false /\ (in_stop (pi_intake s) = true -> pi_finisher s <> NRun) /\
    (stop_seen (pi_feeder s) = true -> in_queue (pi_intake s) = []) /\ (include_dirs = true -> dropped (pi_log s) = []);
  pc_last : match pi_finisher s with NDirs _ => in_dirs (pi_intake s) = [] | NDone ok => in_dirs (pi_intake s) = [] /\ in_queue (pi_intake s) = [] /\ (ok = true -> in_failed (pi_intake s) = false) | _ => True end
}.

Lemma todo_wake (ps : list producer) : todo <$> (wake_producer <$> ps) = todo <$> ps.
Proof. rewrite <- list_fmap_compose. apply list_fmap_ext. by intros _ [] _. Qed.
Lemma batch_wake f : feeder_batch (wake_feeder f) = feeder_batch f.
Proof. by destruct f. Qed.
Lemma flags_wake f : dropping (wake_feeder f) = dropping f /\ stop_seen (wake_feeder f) = stop_seen f.
Proof. by destruct f. Qed.
Lemma next_flags stop : feeder_batch (feeder_next stop) = [] /\ dropping (feeder_next stop) = false /\ stop_seen (feeder_next stop) = stop.
Proof. by destruct stop. Qed.

Lemma pcons0 : pcons (pipe0 inputs).
Proof.
  split; cbn; try done. rewrite app_nil_r. f_equiv. induction inputs as [|x l IH]; [done|]. cbn. by f_equiv.
Qed.

Lemma feeder_sleep_queue q f : f = FTimed \/ f = FTop /\ (in_queue q <> [] \/ in_stop q = true) -> feeder_batch f = [] /\ dropping f = false.
Proof. intros [->|[-> _]]; done. Qed.
Lemma queue_perm ps n p i t (R : list verify_item) :
  ps !! n = Some p -> todo p = i :: t -> concat inputs ≡ₚ concat (todo <$> ps) ++ R -> concat inputs ≡ₚ concat (todo <$> <[n := PIdle t]> ps) ++ i :: R.
Proof. intros Hn Ht H. destruct (concat_at todo ps n p Hn) as (R' & H1 & H2). rewrite H, H1, (H2 (PIdle t)), Ht. cbn. perm. Qed.
Lemma space_perm ps n p i t : ps !! n = Some p -> todo p = i :: t -> concat (todo <$> <[n := PSpace i t]> ps) ≡ₚ concat (todo <$> ps).
Proof. intros Hn Ht. destruct (concat_at todo ps n p Hn) as (R' & H1 & H2). by rewrite H1, (H2 (PSpace i t)), Ht. Qed.
Lemma awake_todo (p : producer) i t : p = PIdle (i :: t) \/ p = PWoken i t -> todo p = i :: t.
Proof. by intros [->| ->]. Qed.

Lemma pcons_step_perm intr s s' : pcons s -> pipestep remote include_dirs max ops intr s s' ->
  concat inputs ≡ₚ concat (todo <$> pi_producers s') ++ in_queue (pi_intake s') ++ in_dirs (pi_intake s') ++
    feeder_batch (pi_feeder s') ++ pi_gen s' ++ rest_dirs (pi_finisher s') ++ sent (pi_log s') ++ dropped (pi_log s').
Proof.
  intros [Hp _ _ _ Hl] H. destruct H; cbn in *; try case_decide; cbn; rewrite ?todo_wake, ?batch_wake, ?sent_app, ?dropped_app, ?sent_one, ?dropped_one; try done.
  - rewrite (space_perm _ _ _ _ _ H (awake_todo _ _ _ H0)). exact Hp.
  - etrans; [apply (queue_perm _ _ _ _ _ _ H (awake_todo _ _ _ H0) Hp)|]. cbn. perm.
  - etrans; [exact (queue_perm _ _ _ i todo0 _ H eq_refl Hp)|]. cbn. perm.
  - apply feeder_sleep_queue in H as [E _]. etrans; [exact Hp|]. rewrite E. perm.
  - etrans; [exact Hp|]. cbn. perm.
  - etrans; [exact Hp|]. destruct ok; cbn; perm.
  - etrans; [exact Hp|]. perm.
  - etrans; [exact Hp|]. destruct sd; rewrite ?sent_dropped, ?dropped_dropped, ?nothing_sent, ?dropped_nil; cbn; perm.
  - etrans; [exact Hp|]. destruct stop; cbn; perm.
  - etrans; [exact Hp|]. destruct remote; rewrite ?sent_one, ?dropped_one, ?nothing_sent, ?dropped_nil; cbn; perm.
  - etrans; [exact Hp|]. destruct ok; cbn; perm.
  - etrans; [exact Hp|]. destruct stop; cbn; perm.
  - etrans; [exact Hp|]. perm.
  - etrans; [exact Hp|]. destruct (ok && include_dirs); cbn; perm.
  - etrans; [exact Hp|]. rewrite sent_last, dropped_last, sent_dropped, dropped_dropped. cbn. perm.
Qed.

Lemma pcons_step intr s s' : pshape max s -> pcons s -> pipestep remote include_dirs max ops intr s s' -> pcons s'.
Proof.
  intros Hsh Hc0 H. pose proof (pcons_step_perm intr s s' Hc0 H) as Hperm.
  destruct Hc0 as [_ Hd Hf Hc Hl], Hsh as [_ _ _ _ Hfe Hst Hj He].
  destruct H; cbn in *; try case_decide.
  all: split; cbn in *; try exact Hperm; clear Hperm; try done.
  all: rewrite ?batch_wake, ?(proj1 (flags_wake _)), ?(proj2 (flags_wake _)), ?dropped_app, ?dropped_one.
  all: rewrite ?(proj1 (next_flags _)), ?(proj1 (proj2 (next_flags _))), ?(proj2 (proj2 (next_flags _))).
  all: try (destruct sd); try (rewrite ?Forall_app, ?Forall_cons_iff, ?Forall_app, ?Forall_nil in *; tauto).
  all: try (by destruct fin).
  all: try (split_and!; [done|done|by destruct (in_failed q)]).
  all: try (destruct fin; try tauto; exfalso; destruct (Hj ltac:(done)) as [Hi _]; by eauto using idle_not).
  all: intros E; destruct (Hc E) as (A & D & R & Q & I); rewrite ?app_nil_r; try (split_and!; tauto).
  all: try match goal with H : ?ok = true \/ _ || _ = true |- _ => destruct H as [->|Hk]; [|by rewrite E, A in Hk] end.
  all: try destruct remote; split_and!; intros; rewrite ?app_nil_r; try discriminate; try tauto.
  all: try match goal with H : include_dirs = true |- _ => rewrite H; cbn; rewrite app_nil_r; tauto end.
  all: try (exfalso; destruct (Hj (R (Hst ltac:(done)))) as [Hi _]; by eauto using idle_not).
  all: rewrite He in Q; rewrite (Q eq_refl); cbn; rewrite dropped_nil, app_nil_r; tauto.
Qed.

(** * Order *)

Record pord (s : vpipe) : Prop := {
  po_known : Forall (fun i => ev_queued i ∈ pi_log s) (in_queue (pi_intake s) ++ feeder_batch (pi_feeder s) ++ pi_gen s);
  po_flush : remote = true -> match pi_feeder s with FFlush rest _ => Forall (released (pi_log s)) rest | _ => True end;
  po_order : ordered remote (pi_log s);
  po_late : pi_feeder s <> FExit -> forall d, ev_submitted d ∈ pi_log s -> vi_is_dir d = false
}.

Lemma pord0 : pord (pipe0 inputs).
Proof. split; cbn; try done; set_solver. Qed.

Lemma known_app l k p : Forall (fun i : verify_item => ev_queued i ∈ l) p -> Forall (fun i => ev_queued i ∈ l ++ k) p.
Proof. intros H. eapply Forall_impl; [exact H|]. intros i Hi. apply elem_of_app. by left. Qed.
Lemma flush_app l k p : Forall (released l) p -> Forall (released (l ++ k)) p.
Proof. intros H. eapply Forall_impl; [exact H|]. intros i. apply released_app. Qed.
Lemma quiet_dropped (k : list verify_item) e : e ∈ (ev_dropped <$> k) -> forall i, e <> ev_submitted i.
Proof. intros (i & -> & _)%list_elem_of_fmap. done. Qed.
Lemma quiet_last a b (k : list verify_item) e : e ∈ last_events remote a b ++ (ev_dropped <$> k) -> forall i, e <> ev_submitted i.
Proof. intros [H|H]%elem_of_app; [unfold last_events in H; destruct remote; set_solver|by eapply quiet_dropped]. Qed.
Lemma late_app l k d : (forall e, e ∈ k -> forall i, e <> ev_submitted i) -> ev_submitted d ∈ l ++ k -> ev_submitted d ∈ l.
Proof. intros Hk [H|H]%elem_of_app; [done|]. by destruct (Hk _ H d). Qed.

(** What does not concern the feeder. *)
Lemma pord_quiet q q' ps ps' f f' gen gen' fin fin' shut shut' ask ask' l k :
  pord (Pipe q ps f gen fin shut ask l) -> (forall e, e ∈ k -> forall i, e <> ev_submitted i) ->
  Forall (fun i => ev_queued i ∈ l ++ k) (in_queue q' ++ feeder_batch f' ++ gen') ->
  match f' with FFlush rest _ => match f with FFlush rest0 _ => rest = rest0 | _ => remote = true -> Forall (released (l ++ k)) rest end | _ => True end ->
  (f = FExit -> f' = FExit) ->
  pord (Pipe q' ps' f' gen' fin' shut' ask' (l ++ k)).
Proof.
  intros [Hk Hf Ho Hl] Hq Hk' Hf' Hx. cbn in *. split; cbn; [done| |by apply ordered_app|].
  - intros Hr. specialize (Hf Hr). destruct f'; try done. destruct f; try by apply Hf'. subst. by apply flush_app.
  - intros E d Hd%late_app; [|done]. apply Hl; [|done]. naive_solver.
Qed.

(** One item handed to the pool. *)
Lemma pord_submit ok i q q' ps f f' gen gen' fin fin' shut ask l :
  pord (Pipe q ps f gen fin shut ask l) ->
  (vi_is_dir i = false -> f <> FExit /\ (remote = true -> vi_durable i = false -> released l i)) ->
  (vi_is_dir i = true -> f' = FExit) -> (f = FExit -> f' = FExit) ->
  in_queue q' = in_queue q ->
  Forall (fun j => ev_queued j ∈ l) (feeder_batch f' ++ gen') ->
  (remote = true -> match f' with FFlush rest _ => Forall (released l) rest | _ => True end) ->
  pord (Pipe q' ps f' gen' fin' shut ask (l ++ [submitted ok i])).
Proof.
  intros [Hk Hf Ho Hl] Hi Hd Hx Eq Hk' Hf'. cbn in *.
  split; cbn.
  - rewrite Eq. apply known_app. rewrite Forall_app in Hk |- *. tauto.
  - intros Hr. specialize (Hf' Hr). destruct f'; try done. by apply flush_app.
  - apply ordered_snoc; [done|]. intros j E Hj. destruct ok; cbn in E; [|done]. injection E as <-. destruct (Hi Hj) as [Hn Hrel].
    split; [|exact Hrel]. intros d. by apply Hl.
  - intros E d [H|H%list_elem_of_singleton]%elem_of_app; [apply Hl; naive_solver|]. destruct ok; [|done]. cbn in H. injection H as ->.
    destruct (vi_is_dir i); [|done]. by destruct (E (Hd eq_refl)).
Qed.

(** The barrier, which makes the generation fit to be submitted. *)
Lemma pord_release ok stop timed q ps gen fin shut ask l :
  pord (Pipe q ps (FRelease stop timed) gen fin shut ask l) ->
  pord (Pipe (intake_fail (if remote then ok else true) q) ps (FFlush gen stop) [] fin shut ask (l ++ (if remote then [ev_barrier ok] else []))).
Proof.
  intros H. apply (pord_quiet _ _ _ _ _ _ _ _ _ _ _ _ _ _ _ _ H); cbn; [| |intros Hr|done].
  - intros e He i ->. destruct remote; set_solver.
  - rewrite app_nil_r. apply known_app. exact (po_known _ H).
  - rewrite Hr. pose proof (po_known _ H) as Hk. cbn in Hk. apply Forall_app in Hk as [_ Hk]. eapply Forall_impl; [exact Hk|]. intros i. apply released_barrier.
Qed.

Lemma pord_same q q' ps ps' f f' gen gen' fin fin' shut shut' ask ask' l :
  pord (Pipe q ps f gen fin shut ask l) ->
  Forall (fun i => ev_queued i ∈ l) (in_queue q' ++ feeder_batch f' ++ gen') ->
  match f' with FFlush rest _ => match f with FFlush rest0 _ => rest = rest0 | _ => remote = true -> Forall (released l) rest end | _ => True end ->
  (f = FExit -> f' = FExit) ->
  pord (Pipe q' ps' f' gen' fin' shut' ask' l).
Proof.
  intros H Hk Hf Hx. rewrite <- (app_nil_r l) in Hk, Hf |- *. apply (pord_quiet _ _ _ _ _ _ _ _ _ _ _ _ _ _ _ _ H); try done; set_solver.
Qed.

Lemma wake_exit f : f = FExit -> wake_feeder f = FExit.
Proof. by intros ->. Qed.
Lemma flush_wake l f : match wake_feeder f with FFlush rest _ => match f with FFlush rest0 _ => rest = rest0 | _ => remote = true -> Forall (released l) rest end | _ => True end.
Proof. by destruct f. Qed.
Lemma flush_next l stop f : match feeder_next stop with FFlush rest _ => match f with FFlush rest0 _ => rest = rest0 | _ => remote = true -> Forall (released l) rest end | _ => True end.
Proof. by destruct stop. Qed.
Lemma flush_id l f : match f with FFlush rest _ => match f with FFlush rest0 _ => rest = rest0 | _ => remote = true -> Forall (released l) rest end | _ => True end.
Proof. by destruct f. Qed.

Ltac known := cbn; rewrite ?batch_wake, ?(proj1 (next_flags _)), ?app_nil_r; repeat rewrite ?Forall_app, ?Forall_cons_iff; rewrite ?Forall_nil; repeat match goal with |- _ /\ _ => split end;
  try first [tauto|apply known_app; tauto|set_solver].
Ltac same Ho := apply (pord_same _ _ _ _ _ _ _ _ _ _ _ _ _ _ _ Ho);
  [known|first [apply flush_id|apply flush_wake|done|match goal with |- context [feeder_next ?b] => by destruct b end]|first [apply wake_exit|done|by intros [=]]].
Ltac quiet Ho := apply (pord_quiet _ _ _ _ _ _ _ _ _ _ _ _ _ _ _ _ Ho);
  [first [apply quiet_dropped|apply quiet_last|set_solver]|known|first [apply flush_id|apply flush_wake|done|match goal with |- context [feeder_next ?b] => by destruct b end]|first [apply wake_exit|done|by intros [=]]].

Lemma pord_step intr s s' : pshape max s -> pcons s -> pord s -> pipestep remote include_dirs max ops intr s s' -> pord s'.
Proof.
  intros [_ _ _ _ _ _ _ He] [_ Hd Hf _ _] Ho H.
  pose proof (po_known _ Ho) as Hk. pose proof (po_flush _ Ho) as Hfl.
  destruct H; cbn in *; try case_decide.
  all: repeat rewrite ?Forall_app, ?Forall_cons_iff in Hk.
  - same Ho.
  - quiet Ho.
  - quiet Ho.
  - same Ho.
  - same Ho.
  - destruct H as [->|[-> _]]; same Ho.
  - quiet Ho.
  - apply (pord_submit _ _ _ _ _ _ _ _ _ _ _ _ _ _ Ho); cbn; try done.
    + intros _. split; [done|congruence].
    + rewrite !Forall_app, Forall_cons_iff in Hf. destruct Hf as (_ & Hf & _). congruence.
    + apply Forall_app. tauto.
  - same Ho.
  - destruct sd; [quiet Ho|rewrite app_nil_r; same Ho].
  - same Ho.
  - same Ho.
  - same Ho.
  - by apply (pord_release ok stop timed _ _ _ _ _ _ _ Ho).
  - assert (Hrel : remote = true -> released l i /\ Forall (released l) rest) by (intros E; by apply Forall_cons_iff, Hfl).
    apply (pord_submit _ _ _ _ _ _ _ _ _ _ _ _ _ _ Ho); cbn; try done.
    + intros _. split; [done|]. intros E _. by apply Hrel.
    + rewrite !Forall_app, Forall_cons_iff in Hf. destruct Hf as (_ & Hf & _). congruence.
    + apply Forall_app. tauto.
    + intros E. by apply Hrel.
  - same Ho.
  - same Ho.
  - same Ho.
  - subst f. apply (pord_submit _ _ _ _ _ _ _ _ _ _ _ _ _ _ Ho); cbn; try done.
    + rewrite Forall_app, Forall_cons_iff in Hd. destruct Hd as (_ & Hd & _). congruence.
    + tauto.
  - quiet Ho.
  - same Ho.
  - same Ho.
Qed.

(** ** What the answer stands on

    [failing]: whether a failure has been noted, as against the record. *)
Definition quiet (e : pevent) : bool := match e with ev_barrier _ | ev_verdict _ => false | _ => true end.
Definition failing (shut failed : bool) (l : list pevent) : Prop :=
  (failed = false -> forall ok, ev_barrier ok ∈ l -> ok = true) /\ (failed = true -> ev_barrier false ∈ l \/ shut = true) /\
  forall v, ev_verdict v ∉ l.
(** The record at the end: the run of the pipeline, the pool's verdict, the last
    barrier of a remote run, and nothing more that was submitted. *)
Definition concluded (shut ok : bool) (l : list pevent) : Prop :=
  exists l0 pool_ok last_ok rest failed, l = l0 ++ last_events remote pool_ok last_ok ++ (ev_dropped <$> rest) /\
    ok = negb failed && pool_ok && (last_ok || negb remote) /\ failing shut failed l0.
Definition plast (s : vpipe) : Prop :=
  (pi_asked s = true -> pi_shut s = true) /\
  match pi_finisher s with NDone ok => concluded (pi_shut s) ok (pi_log s) | _ => failing (pi_shut s) (in_failed (pi_intake s)) (pi_log s) end.

Lemma failing_app shut failed l k : Forall (fun e => quiet e = true) k -> failing shut failed l -> failing shut failed (l ++ k).
Proof.
  intros Hk (H1 & H2 & H3). rewrite Forall_forall in Hk. split_and!.
  - intros E ok [H|H]%elem_of_app; [by apply H1|]. by specialize (Hk _ H).
  - intros E. destruct (H2 E); [left; apply elem_of_app; by left|by right].
  - intros v [H|H]%elem_of_app; [by apply (H3 v)|]. by specialize (Hk _ H).
Qed.
Lemma failing_shut failed l shut : failing shut failed l -> failing true failed l.
Proof. intros (H1 & H2 & H3). split_and!; [done|by right|done]. Qed.
Lemma failing_submit shut ask ok q l k :
  (ask = true -> shut = true) -> ok = true \/ shut || ask = true -> Forall (fun e => quiet e = true) k ->
  failing shut (in_failed q) l -> failing shut (in_failed (intake_fail ok q)) (l ++ k).
Proof.
  intros Ha Ho Hk H. apply failing_app; [done|]. destruct ok; cbn; rewrite ?orb_false_r, ?orb_true_r; [done|].
  destruct Ho as [|Ho]; [done|]. destruct H as (_ & _ & H). assert (shut = true) by (destruct shut, ask; auto). by split_and!; [|right|].
Qed.
Lemma quiet_submitted ok i : Forall (fun e => quiet e = true) [submitted ok i].
Proof. by destruct ok; repeat constructor. Qed.
Lemma quiet_drops l : Forall (fun e => quiet e = true) (ev_dropped <$> l).
Proof. induction l; by constructor. Qed.
Lemma failing_barrier shut ok q l :
  failing shut (in_failed q) l ->
  failing shut (in_failed (intake_fail (if remote then ok else true) q)) (l ++ (if remote then [ev_barrier ok] else [])).
Proof.
  intros (H1 & H2 & H3). destruct remote; [|cbn; rewrite orb_false_r, app_nil_r; done]. destruct ok; cbn; rewrite ?orb_false_r, ?orb_true_r; split_and!.
  - intros E b [H|H%list_elem_of_singleton]%elem_of_app; [by apply H1|congruence].
  - intros E. destruct (H2 E); [left; apply elem_of_app; by left|by right].
  - intros v [H|H%list_elem_of_singleton]%elem_of_app; [by apply (H3 v)|done].
  - done.
  - left. apply elem_of_app. right. by apply list_elem_of_singleton.
  - intros v [H|H%list_elem_of_singleton]%elem_of_app; [by apply (H3 v)|done].
Qed.

Lemma concluded_shut shut ok l : concluded shut ok l -> concluded true ok l.
Proof. intros (l0 & a & b & r & f & ? & ? & H). exists l0, a, b, r, f. split_and!; [done|done|by eapply failing_shut]. Qed.

Lemma plast0 : plast (pipe0 inputs).
Proof. split; [done|]. cbn. split_and!; [intros _ ? ?%elem_of_nil; done|done|by intros v ?%elem_of_nil]. Qed.

Lemma plast_step intr s s' : pshape max s -> plast s -> pipestep remote include_dirs max ops intr s s' -> plast s'.
Proof.
  intros [_ _ _ _ _ _ Hj He] [Ha Hl] H.
  destruct H; (split; [cbn in *; try case_decide; first [done|exact Ha]|]); cbn in *; try case_decide; cbn in *.
  (* after the end nothing but an interruption *)
  all: try solve [destruct fin; first [exact (failing_shut _ _ _ Hl)|exact (concluded_shut _ _ _ Hl)]].
  all: try (destruct fin as [| |r|ok0]; [| | |exfalso; first [discriminate He|destruct H as [?|[? _]]; congruence|destruct (Hj ltac:(done)) as [Hi _]; eauto using idle_not]]).
  all: try exact Hl.
  all: try (apply failing_app; [by repeat constructor|exact Hl]).
  all: try (apply failing_submit with ask; [done|done|apply quiet_submitted|exact Hl]).
  all: try (apply failing_barrier; exact Hl).
  all: try (destruct sd; [apply failing_app; [apply quiet_drops|exact Hl]|by rewrite app_nil_r]).
  - change (in_failed q || _) with (in_failed (intake_fail (ok || negb include_dirs) q)).
    apply failing_submit with ask; [done|destruct H as [->|]; [by left|by right]|apply quiet_submitted|exact Hl].
  - by exists l, pool_ok, last_ok, (in_queue q), (in_failed q).
Qed.
Lemma reach_ok intr s : 1 <= max -> rtc (pipestep remote include_dirs max ops intr) (pipe0 inputs) s -> pshape max s /\ pcons s /\ pord s /\ plast s.
Proof.
  intros Hm. apply (rtc_ind_r (fun s => pshape max s /\ pcons s /\ pord s /\ plast s)).
  - split_and!; [apply pshape0; lia|apply pcons0|apply pord0|apply plast0].
  - intros y z _ H (H1 & H2 & H3 & H4). split_and!; [by eapply pshape_step|by eapply pcons_step|by eapply pord_step|by eapply plast_step].
Qed.
End record.

(** * The end *)

(** A step other than the feeder's time-out. *)
Definition busy (remote include_dirs : bool) (max ops : Z) (intr : bool) (s s' : vpipe) : Prop :=
  pipestep remote include_dirs max ops intr s s' /\ (pi_feeder s = FWait -> pi_feeder s' <> FTimed).

(** What is left to do: an item costs each stage it still has to pass, and when
    the count is settled every thread may wake for it. *)
Definition phase (f : feeder) : Z :=
  match f with
  | FTop => 10 | FWait => 9 | FTimed => 15
  | FBatch _ s _ _ _ => if s then 5 else 14
  | FSettle s _ _ => if s then 4 else 13
  | FRelease s _ => if s then 3 else 12
  | FFlush _ s => if s then 2 else 11
  | FExit => 0
  end.
Definition held (W : Z) (f : feeder) : Z :=
  match f with FBatch r _ _ _ n => (W + 2) * zlen r + W * (0 `max` n) | FSettle _ _ n => W * (0 `max` n) | FFlush r _ => zlen r | _ => 0 end.
Definition to_queue (W : Z) (p : producer) : Z := match p with PSpace _ _ => 1 | _ => 2 end + (W + 9) * zlen (todo p).
Definition ending (n : finisher) : Z := match n with NRun => 4 | NJoin => 2 | NDirs r => 1 + zlen r | NDone _ => 0 end.
Definition effort_at (W : Z) (s : vpipe) : Z :=
  sumZ (to_queue W) (pi_producers s) + (W + 7) * zlen (in_queue (pi_intake s)) + zlen (in_dirs (pi_intake s)) +
  held W (pi_feeder s) + zlen (pi_gen s) + phase (pi_feeder s) + ending (pi_finisher s) +
  (if pi_asked s then 0 else W + 2) + (if pi_shut s then 0 else 1).
Definition effort (s : vpipe) : Z := effort_at (zlen (pi_producers s)) s.

Lemma to_queue_nonneg W p : 0 <= W -> 0 <= to_queue W p.
Proof. intros H. unfold to_queue. pose proof (zlen_nonneg (todo p)). destruct p; nia. Qed.
Lemma held_nonneg W f : 0 <= W -> 0 <= held W f.
Proof.
  intros H. destruct f; cbn; try pose proof (zlen_nonneg rest); try lia.
Qed.
Lemma phase_nonneg f : 0 <= phase f.
Proof. destruct f; cbn; try destruct stop; lia. Qed.
Lemma ending_nonneg n : 0 <= ending n.
Proof. destruct n; cbn; try pose proof (zlen_nonneg rest); lia. Qed.
Lemma effort_nonneg s : 0 <= effort s.
Proof.
  unfold effort, effort_at. pose proof (zlen_nonneg (pi_producers s)) as H. pose proof (sumZ_nonneg _ (pi_producers s) (fun p => to_queue_nonneg (zlen (pi_producers s)) p H)).
  pose proof (zlen_nonneg (in_queue (pi_intake s))) as Hq. pose proof (zlen_nonneg (in_dirs (pi_intake s))). pose proof (zlen_nonneg (pi_gen s)).
  pose proof (held_nonneg _ (pi_feeder s) H). pose proof (phase_nonneg (pi_feeder s)). pose proof (ending_nonneg (pi_finisher s)).
  assert (0 <= (zlen (pi_producers s) + 7) * zlen (in_queue (pi_intake s))) by (apply Z.mul_nonneg_nonneg; lia).
  destruct (pi_asked s), (pi_shut s); lia.
Qed.
Lemma wake_effort W ps : sumZ (to_queue W) (wake_producer <$> ps) <= sumZ (to_queue W) ps + zlen ps.
Proof.
  induction ps as [|p ps IH]; [done|]. rewrite fmap_cons, zlen_cons.
  assert (to_queue W (wake_producer p) <= to_queue W p + 1) by (destruct p; cbn; unfold to_queue; cbn; lia). unfold sumZ in *. cbn in *. lia.
Qed.
Lemma wake_phase W f : phase (wake_feeder f) <= phase f + 1 /\ held W (wake_feeder f) = held W f.
Proof. destruct f; cbn; lia. Qed.

Section ends.
Context (remote include_dirs : bool) (max ops : Z) (intr : bool).
#[local] Abbreviation bstep := (busy remote include_dirs max ops intr).

Lemma threads_same s s' : bstep s s' -> zlen (pi_producers s') = zlen (pi_producers s).
Proof. intros [H _]. destruct H; cbn; try case_decide; cbn; unfold zlen; by rewrite ?length_insert, ?length_fmap. Qed.
Lemma queue_effort W ps n p i t :
  ps !! n = Some p -> p = PIdle (i :: t) \/ p = PWoken i t ->
  sumZ (to_queue W) (<[n := PIdle t]> ps) = sumZ (to_queue W) ps - (W + 9) /\
  sumZ (to_queue W) (<[n := PSpace i t]> ps) = sumZ (to_queue W) ps - 1.
Proof. intros Hn Hp. rewrite !(sumZ_insert _ _ _ _ _ Hn). unfold to_queue. destruct Hp as [->| ->]; cbn; zlen_lia. Qed.

Lemma stolen_weight W n : 0 <= W -> W * (0 `max` (n + 1)) <= W * (0 `max` n) + W.
Proof. intros H. rewrite <- (Z.mul_1_r W) at 3. rewrite <- Z.mul_add_distr_l. apply Z.mul_le_mono_nonneg_l; lia. Qed.
Lemma settled_weight W n : 0 <= W -> 0 < n -> W <= W * (0 `max` n).
Proof. intros H Hn. rewrite <- (Z.mul_1_r W) at 1. apply Z.mul_le_mono_nonneg_l; lia. Qed.

Lemma busy_effort_at W s s' : 0 <= W -> zlen (pi_producers s) = W -> bstep s s' -> effort_at W s' + 1 <= effort_at W s.
Proof.
  intros HW Hps [H Hb]. destruct H; cbn in Hps, Hb; try case_decide; unfold effort_at; cbn [pi_intake pi_producers pi_feeder pi_gen pi_finisher pi_shut pi_asked intake_push intake_push_dir intake_take intake_settle intake_stop intake_fail intake_end verify_queue_clear in_queue in_dirs held phase ending feeder_next].
  all: repeat rewrite ?zlen_app, ?zlen_cons; change (zlen (@nil verify_item)) with 0; pose proof (zlen_nonneg (in_queue q)) as Hq; try pose proof (zlen_nonneg gen) as Hg; pose proof (wake_effort W ps) as Hw; rewrite Hps in Hw; clear Hps.
  - destruct (queue_effort W _ _ _ _ _ H H0) as [_ E]. lia.
  - destruct (queue_effort W _ _ _ _ _ H H0) as [E _]. destruct (wake_phase W f) as [? ->]. lia.
  - destruct (queue_effort W _ _ _ _ _ H ltac:(by left)) as [E _]. lia.
  - lia.
  - by destruct (Hb eq_refl).
  - assert (HWq : 0 <= W * zlen (in_queue q)) by nia. destruct H as [->|[-> H]]; cbn; [destruct (in_stop q); lia|].
    destruct (in_stop q); [lia|]. assert (zlen (in_queue q) <> 0) by (destruct (in_queue q); [by destruct H|rewrite zlen_cons; pose proof (zlen_nonneg l0); lia]). lia.
  - pose proof (stolen_weight W n HW) as Hs. revert Hs. generalize (W * (0 `max` (n + 1))), (W * (0 `max` n)). intros a b Hs. clear -Hs HW. destruct stop; lia.
  - pose proof (stolen_weight W n HW) as Hs. revert Hs. generalize (W * (0 `max` (n + 1))), (W * (0 `max` n)). intros a b Hs. clear -Hs HW. destruct stop; lia.
  - pose proof (stolen_weight W n HW) as Hs. revert Hs. generalize (W * (0 `max` (n + 1))), (W * (0 `max` n)). intros a b Hs. clear -Hs HW. destruct stop; lia.
  - destruct sd, stop; change (zlen (@nil verify_item)) with 0; lia.
  - pose proof (settled_weight W n HW ltac:(done)) as Hs. revert Hs. generalize (W * (0 `max` n)). intros a Hs. clear -Hs HW Hw. destruct stop; lia.
  - pose proof (Z.mul_nonneg_nonneg W (0 `max` n)). destruct stop; lia.
  - destruct stop; cbn; lia.
  - destruct stop; lia.
  - destruct stop; lia.
  - destruct stop; cbn; lia.
  - destruct (wake_phase W f) as [? ->]. lia.
  - lia.
  - lia.
  - pose proof (Z.mul_nonneg_nonneg W (zlen (in_queue q))). lia.
  - lia.
  - destruct (wake_phase W f) as [? ->]. lia.
Qed.
Lemma busy_effort s s' : bstep s s' -> effort s' + 1 <= effort s.
Proof. intros H. unfold effort. rewrite (threads_same _ _ H). apply busy_effort_at; [apply zlen_nonneg|done|done]. Qed.
Lemma busy_bounded k s s' : nsteps bstep k s s' -> effort s' + Z.of_nat k <= effort s.
Proof. induction 1 as [x|k x y z H _ IH]; [lia|]. apply busy_effort in H. lia. Qed.

(** * Nobody is forgotten *)

Lemma threads_idle ps : Forall (eq (PIdle [])) ps \/ exists n p, ps !! n = Some p /\ p <> PIdle [].
Proof.
  induction ps as [|p ps IH]; [by left; constructor|].
  destruct p as [[|i t]|i t|i t]; [|right; by exists 0%nat; eexists; split..].
  destruct IH as [IH|(n & p & Hn & Hp)]; [left; by constructor|right; by exists (S n), p].
Qed.
(** A thread that is not asleep can queue its item or go to sleep. *)
Lemma producer_steps q ps f gen fin shut ask l n p :
  ps !! n = Some p -> p <> PIdle [] -> sleeper max q p -> intake_full max q = false ->
  exists s', bstep (Pipe q ps f gen fin shut ask l) s' .
Proof.
  intros Hn Hp Hs Hf. destruct p as [[|i t]|i t|i t]; [done| |destruct Hs as [_ E]; congruence|].
  - destruct (vi_is_dir i) eqn:Hd; eexists; split.
    + by eapply ps_queue_dir.
    + by cbn; intros ->.
    + eapply ps_queue; [exact Hn|by left|done|done].
    + by cbn; intros ->.
  - eexists. split; [eapply ps_queue; [exact Hn|by right|exact Hs|done]|by cbn; intros ->].
Qed.
(** The feeder, unless it sleeps or is gone. *)
Lemma feeder_steps q ps f gen fin shut ask l :
  f <> FWait -> f <> FExit -> exists s', bstep (Pipe q ps f gen fin shut ask l) s'.
Proof.
  intros Hw He.
  assert (Hd : forall s', pipestep remote include_dirs max ops intr (Pipe q ps f gen fin shut ask l) s' -> exists s', bstep (Pipe q ps f gen fin shut ask l) s').
  { intros s' H. exists s'. by split; [|cbn; intros ->]. }
  destruct f as [| | |[|i rest] stop sd timed n|stop timed n|stop timed|[|i rest] stop|]; try done.
  - destruct (in_stop q) eqn:Hs; [eapply Hd, ps_take; right; by auto|].
    destruct (in_queue q) eqn:Hq; [eapply Hd; by apply ps_sleep|]. eapply Hd, ps_take. right. rewrite Hq. by auto.
  - eapply Hd, ps_take. by left.
  - eapply Hd, ps_batch_end.
  - destruct sd; [eapply Hd, ps_drop|]. destruct (vi_durable i) eqn:E; [eapply Hd, (ps_durable _ _ _ _ _ true); auto|by eapply Hd, ps_collect].
  - eapply Hd, ps_settle.
  - destruct (release_due ops gen stop timed) eqn:E; [by eapply Hd, (ps_release _ _ _ _ _ true)|by eapply Hd, ps_keep].
  - eapply Hd, ps_flush_end.
  - eapply Hd, (ps_flush _ _ _ _ _ true). by left.
Qed.

Lemma busy_progress s : 1 <= max -> pshape max s -> (exists ok, pi_finisher s = NDone ok) \/ exists s', bstep s s'.
Proof.
  intros Hm [Hc _ _ Hs Hf Hst Hj He]. destruct s as [q ps f gen fin shut ask l]. cbn in *.
  assert (Hcase : f = FWait \/ f = FExit \/ (f <> FWait /\ f <> FExit)) by (destruct f; auto).
  destruct Hcase as [Ef|[Ef|[H1 H2]]]; [| |right; by apply feeder_steps].
  all: assert (Hfull : intake_full max q = false);
    [destruct (intake_full max q) eqn:E; [exfalso|done]; apply full_count in E as (_ & E1 & E2); subst f; cbn in *|].
  - destruct Hf as [Eq _]. rewrite Eq in Hc. unfold zlen in Hc. cbn in Hc. lia.
  - assert (Erun : fin = NRun). { subst f. destruct Hf as [_ Eo]. destruct fin; try done. destruct (Hj ltac:(done)) as [_ E']. congruence. }
    subst fin. right. destruct (threads_idle ps) as [Hi|(n & p & Hn & Hp)]; [eexists; split; [by apply ps_finish|by subst f]|].
    eapply producer_steps; [exact Hn|exact Hp|exact (Forall_lookup_1 _ _ _ _ Hs Hn)|exact Hfull].
  - rewrite Hst in E1; done.
  - subst f. destruct fin as [| |[|i rest]|ok]; [|right; eexists; split..|left; by eexists].
    + destruct (threads_idle ps) as [Hi|(n & p & Hn & Hp)]; right; [eexists; split; [by apply ps_finish|done]|].
      eapply producer_steps; [exact Hn|exact Hp|exact (Forall_lookup_1 _ _ _ _ Hs Hn)|exact Hfull].
    + apply ps_joined.
    + done.
    + by apply (ps_done _ _ _ _ _ true true).
    + done.
    + apply (ps_dir _ _ _ _ _ true). by left.
    + done.
Qed.
End ends.

Lemma concluded_spec remote shut ok l :
  concluded remote shut ok l ->
  (ok = true ->
     (exists l0 rest, l = l0 ++ ev_verdict true :: (if remote then [ev_barrier true] else []) ++ (ev_dropped <$> rest)) /\
     (forall b, ev_barrier b ∈ l -> b = true) /\ (forall v, ev_verdict v ∈ l -> v = true)) /\
  (ok = false -> ev_barrier false ∈ l \/ ev_verdict false ∈ l \/ shut = true).
Proof.
  intros (l0 & pool_ok & last_ok & rest & failed & -> & -> & H1 & H2 & H3). unfold last_events. split.
  - intros [[E1 ->]%andb_prop E2]%andb_prop. apply negb_true_iff in E1. split_and!.
    + exists l0, rest. by destruct remote; [rewrite orb_false_r in E2; subst|].
    + intros b [Hb|Hb]%elem_of_app; [by apply H1|]. apply elem_of_cons in Hb as [|[Hb|(? & ? & _)%list_elem_of_fmap]%elem_of_app]; [done| |done].
      destruct remote; [|by apply elem_of_nil in Hb]. apply list_elem_of_singleton in Hb. injection Hb as ->. by rewrite orb_false_r in E2.
    + intros v [Hv|Hv]%elem_of_app; [by destruct (H3 v)|]. apply elem_of_cons in Hv as [[= ->]|[Hv|(? & ? & _)%list_elem_of_fmap]%elem_of_app]; [done| |done].
      destruct remote; [by apply list_elem_of_singleton in Hv|by apply elem_of_nil in Hv].
  - intros E. destruct failed; [destruct (H2 eq_refl); [left; apply elem_of_app; by left|by right; right]|]. cbn in E.
    destruct pool_ok; [|right; left; set_solver]. cbn in E. apply orb_false_iff in E as [-> E]. apply negb_false_iff in E. subst remote. left. set_solver.
Qed.

Section properties.
Context (remote include_dirs : bool) (max ops : Z) (intr : bool) (inputs : list (list verify_item)).

Lemma ended s ok : pshape max s -> pcons include_dirs inputs s -> pi_finisher s = NDone ok -> concat inputs ≡ₚ sent (pi_log s) ++ dropped (pi_log s).
Proof.
  intros [_ _ _ _ Hf _ Hj He] [Hp _ _ _ Hl] E. destruct s as [q ps f gen fin shut ask l]. cbn in *. subst fin.
  destruct (Hj ltac:(done)) as [Hi _]. destruct Hl as (E1 & E2 & _). subst f. cbn in *. subst gen. rewrite E1, E2 in Hp.
  assert (Et : concat (todo <$> ps) = []) by (clear -Hi; induction Hi as [|p ps <- _ IH]; [done|exact IH]). rewrite Et in Hp. exact Hp.
Qed.

(** C28.  What is queued is verified. However copying threads, feeder, finishing
    thread and interruption interleave: the list is never longer than its bound
    while it is drained; every file is handed to the pool before every
    directory, and a file of a remote run that the server may still have in
    memory only after a barrier that was issued after the file was queued; at
    the end everything queued has been handed to the pool or dropped, once, and
    dropped only after an interruption or when the caller leaves the directories
    out. Success is reported only if the pool, asked after the last item was
    submitted, found nothing wrong and every barrier succeeded, that of a remote
    run after the pool's answer among them; and failure only if a barrier or the
    pool failed or the run was interrupted. *)
Theorem pipeline_verifies s :
  1 <= max -> rtc (pipestep remote include_dirs max ops intr) (pipe0 inputs) s ->
  (in_started (pi_intake s) = true -> in_stop (pi_intake s) = false -> zlen (in_queue (pi_intake s)) <= max) /\
  (forall k i, pi_log s !! k = Some (ev_submitted i) -> vi_is_dir i = false ->
     (forall d, ev_submitted d ∈ take k (pi_log s) -> vi_is_dir d = false) /\
     (remote = true -> vi_durable i = false -> released (take k (pi_log s)) i)) /\
  (forall ok, pi_finisher s = NDone ok ->
     concat inputs ≡ₚ sent (pi_log s) ++ dropped (pi_log s) /\
     (pi_shut s = false -> include_dirs = true -> sent (pi_log s) ≡ₚ concat inputs) /\
     (ok = true ->
        (exists l rest, pi_log s = l ++ ev_verdict true :: (if remote then [ev_barrier true] else []) ++ (ev_dropped <$> rest)) /\
        (forall b, ev_barrier b ∈ pi_log s -> b = true) /\ (forall v, ev_verdict v ∈ pi_log s -> v = true)) /\
     (ok = false -> ev_barrier false ∈ pi_log s \/ ev_verdict false ∈ pi_log s \/ pi_shut s = true)).
Proof.
  intros Hm H. destruct (reach_ok _ _ _ _ _ _ _ Hm H) as (Hs & Hc & Ho & _ & Hl). split_and!.
  - intros E1 E2. pose proof (ps_room _ _ Hs E1 E2). pose proof (ps_count _ _ Hs). pose proof (ps_stolen _ _ Hs).
    assert (0 <= inflight (pi_feeder s)) by (destruct (pi_feeder s); cbn in *; try pose proof (zlen_nonneg rest); lia). lia.
  - intros k i Hk Hd. by apply (po_order _ _ Ho k _ Hk i eq_refl).
  - intros ok E. pose proof (ended s ok Hs Hc E) as Hp. split; [done|]. split.
    + intros Es Ei. destruct (pc_clean _ _ _ Hc Es) as (_ & _ & _ & _ & Hd). rewrite (Hd Ei), app_nil_r in Hp. by symmetry.
    + rewrite E in Hl. by apply concluded_spec.
Qed.

(** C29.  The pipeline of verification comes to its end. In every state it can
    reach, some thread can go on without the feeder's time-out, so no wake-up is
    lost and the time-out only makes verification start earlier; and without
    time-outs no run is longer than the effort left, which at the start is nine
    steps per item and a step per item and thread. *)
Theorem pipeline_ends s :
  1 <= max -> rtc (pipestep remote include_dirs max ops intr) (pipe0 inputs) s ->
  ((exists ok, pi_finisher s = NDone ok) \/ exists s', busy remote include_dirs max ops intr s s') /\
  (forall k s', nsteps (busy remote include_dirs max ops intr) k s s' -> Z.of_nat k <= effort s) /\
  effort (pipe0 inputs) = (zlen inputs + 9) * zlen (concat inputs) + 3 * zlen inputs + 17.
Proof.
  intros Hm H. split_and!.
  - apply busy_progress; [done|]. by eapply pshape_reach.
  - intros k s' Hk. apply busy_bounded in Hk. pose proof (effort_nonneg s'). lia.
  - assert (Hw : forall W l, sumZ (to_queue W) (PIdle <$> l) = 2 * zlen l + (W + 9) * zlen (concat l)).
    { intros W. induction l as [|x l IH]; [unfold zlen; cbn; lia|]. rewrite fmap_cons. unfold sumZ in *. cbn. rewrite IH. unfold to_queue. cbn. zlen_lia. }
    unfold effort, effort_at, pipe0. cbn [pi_producers pi_intake pi_feeder pi_gen pi_finisher pi_shut pi_asked in_queue in_dirs]. rewrite Hw.
    unfold zlen. rewrite length_fmap. cbn. lia.
Qed.
End properties.

(** * One remote file and its directory *)

Definition p_stat : stat := Stat 1 2 S_IFREG 1 0 0 100 8 (Timespec 1 0) (Timespec 2 0) (Timespec 3 0).
Definition p_file : verify_item := VItem (str "/a/f") (str "/b/f") p_stat false false false.
Definition p_dir : verify_item := VItem (str "/a") (str "/b") p_stat false true true.
Definition p_log : list pevent := [ev_queued p_file; ev_queued p_dir; ev_barrier true; ev_submitted p_file; ev_submitted p_dir; ev_verdict true; ev_barrier true].

Lemma one_file_run : exists s, rtc (pipestep true true 1 1 false) (pipe0 [[p_file; p_dir]]) s /\ pi_finisher s = NDone true /\ pi_shut s = false /\ pi_log s = p_log.
Proof.
  eexists. split; [|split_and!]; cycle 1.
  - instantiate (1 := Pipe _ _ _ _ _ _ _ _). cbn. reflexivity.
  - cbn. reflexivity.
  - cbn. reflexivity.
  - unfold pipe0. cbn.
    eapply rtc_l; [eapply (ps_queue _ _ _ _ _ 0%nat); [done|by left|done|done]|]. cbn.
    eapply rtc_l; [eapply (ps_queue_dir _ _ _ _ _ 0%nat); done|]. cbn.
    eapply rtc_l; [apply ps_take; right; split; [done|by left]|]. cbn.
    eapply rtc_l; [by apply ps_collect|]. cbn.
    eapply rtc_l; [apply ps_batch_end|]. cbn.
    eapply rtc_l; [apply ps_settle|]. cbn.
    eapply rtc_l; [by apply (ps_release _ _ _ _ _ true)|]. cbn.
    eapply rtc_l; [apply (ps_flush _ _ _ _ _ true); by left|]. cbn.
    eapply rtc_l; [apply ps_flush_end|]. cbn.
    eapply rtc_l; [apply ps_finish; by repeat constructor|]. cbn.
    eapply rtc_l; [apply ps_take; right; split; [done|by right]|]. cbn.
    eapply rtc_l; [apply ps_batch_end|]. cbn.
    eapply rtc_l; [apply ps_settle|]. cbn.
    eapply rtc_l; [by apply ps_keep|]. cbn.
    eapply rtc_l; [apply ps_joined|]. cbn.
    eapply rtc_l; [apply (ps_dir _ _ _ _ _ true); by left|]. cbn.
    eapply rtc_l; [by apply (ps_done _ _ _ _ _ true true)|]. cbn. apply rtc_refl.
Qed.

Lemma pipeline_verifies_witness : exists s, pi_finisher s = NDone true /\ sent (pi_log s) ≡ₚ [p_file; p_dir] /\ released (take 3 (pi_log s)) p_file.
Proof.
  destruct one_file_run as (s & Hr & Hd & Hs & Hl). exists s. split; [exact Hd|].
  destruct (pipeline_verifies true true 1 1 false [[p_file; p_dir]] s) as (_ & Ho & He); [lia|exact Hr|]. split.
  - destruct (He true Hd) as (_ & H & _). exact (H Hs eq_refl).
  - rewrite Hl in Ho |- *. destruct (Ho 3%nat p_file eq_refl eq_refl) as [_ H]. exact (H eq_refl eq_refl).
Defined.
Lemma pipeline_ends_witness : effort (pipe0 [[p_file; p_dir]]) = 40 /\ exists s, pi_finisher s = NDone true /\ forall k s', nsteps (busy true true 1 1 false) k s s' -> Z.of_nat k <= effort s.
Proof.
  destruct one_file_run as (s & Hr & Hd & _). destruct (pipeline_ends true true 1 1 false [[p_file; p_dir]] s) as (_ & Hb & He); [lia|exact Hr|].
  split; [rewrite He; reflexivity|]. exists s. split; [exact Hd|exact Hb].
Defined.
