(* ===== verification/Destination.v ===== *)
(** The destination (src/main.c): the absolute and canonical paths of the
    command line's operands, the destination directory or file, the directories
    made for it, and what main does with a single file when it has been copied.

    These steps use a few calls nothing else does, so they have a signature of
    their own, [startup]; getcwd(3), stat(2) and realpath(3) are calls. Diagnostics
    carry their subject only, and strdup in [verify_retarget_path] succeeds. *)

From S2P Require Export Prog Posix PathUtils EnvUtil FsUtil VerifyPipe.
From stdpp Require Import list gmap.
#[local] Open Scope Z_scope.

Inductive startup : Type -> Type :=
| s_getcwd : startup (res bytes)
| s_stat (path : bytes) : startup (res stat)
| s_lstat (path : bytes) : startup (res stat)
| s_realpath (path : bytes) : startup (res bytes)
| s_open (path : bytes) (flags : Z) : startup (res Z)
| s_openat (dfd : Z) (name : bytes) (flags : Z) : startup (res Z)
| s_fstatat (dfd : Z) (name : bytes) (flags : Z) : startup (res stat)
| s_mkdirat (dfd : Z) (name : bytes) (mode : Z) : startup (res unit)
| s_close (fd : Z) : startup (res unit)
| s_rename (old new : bytes) : startup (res unit)
| s_say (line : bytes) : startup unit.

Section programs.
Context {S : Type}.
#[local] Abbreviation UM := (M startup S).

Definition fail {A} (line : bytes) : UM (option A) := call (s_say line);; mret None.

(** * Paths *)

Definition to_abs_path (arg : bytes) : UM (option bytes) :=
  if decide (head arg = Some SLASH) then
    mret (if decide (PATH_MAX <= zlen arg) then None else Some (path_rstrip_slashes arg))
  else
    cwd ← call s_getcwd;
    match cwd with
    | Err _ => fail (str "getcwd")
    | Ok cwd => mret (path_rstrip_slashes <$> path_join_fast cwd arg PATH_MAX)
    end.
Definition path_resolve_existing (path : bytes) : UM (option bytes) :=
  if decide (path = []) then fail (str "(empty path)") else
  r ← call (s_realpath path);
  match r with Ok real => mret (Some real) | Err _ => fail path end.
Definition to_canonical_dir_path (arg : bytes) : UM (option bytes) :=
  abs ← to_abs_path arg;
  match abs with None => mret None | Some abs => path_resolve_existing abs end.

(** The longest part that exists, and what is below it. *)
Fixpoint probe_loop (fuel : nat) (arg probe suffix : bytes) : UM (option bytes) :=
  match fuel with
  | O => stuck
  | Datatypes.S fuel =>
      r ← call (s_stat probe);
      match r with
      | Ok st =>
          if negb (S_ISDIR (st_mode st)) then fail probe else
          real ← path_resolve_existing probe;
          match real with
          | None => mret None
          | Some real => match join_parent_suffix real suffix PATH_MAX with Some out => mret (Some out) | None => fail arg end
          end
      | Err e =>
          if negb (bool_decide (e = ENOENT)) then fail probe else
          l ← call (s_lstat probe);
          match l with
          | Ok _ => fail probe
          | Err e =>
              if negb (bool_decide (e = ENOENT)) then fail probe else
              if decide (probe = [SLASH]) then fail probe else
              match strrchr_slash probe with
              | None => fail arg
              | Some i =>
                  let component := drop (Datatypes.S i) probe in
                  if decide (component = []) then fail arg else
                  match prepend_suffix_component suffix PATH_MAX component with
                  | None => fail arg
                  | Some suffix => probe_loop fuel arg (if decide (i = 0%nat) then [SLASH] else take i probe) suffix
                  end
              end
          end
      end
  end.
Definition to_canonical_requested_dir_path (arg : bytes) : UM (option bytes) :=
  abs ← to_abs_path arg;
  match abs with
  | None => fail arg
  | Some abs =>
      match normalize_abs_path_lexically abs PATH_MAX with
      | Err _ => fail arg
      | Ok norm => probe_loop (length norm) arg norm []
      end
  end.

(** * Directories *)

Definition dir_open_flags : Z := O_RDONLY |. O_DIRECTORY |. O_CLOEXEC.
(** Is the component a directory, and did we make it? [None] is an error. *)
Definition make_component (path : bytes) (mode dir_fd : Z) (p : bytes) : UM (option bool) :=
  r ← call (s_fstatat dir_fd p AT_SYMLINK_NOFOLLOW);
  match r with
  | Ok st => if S_ISDIR (st_mode st) then mret (Some false) else fail path
  | Err e =>
      if decide (e = ENOENT) then
        m ← call (s_mkdirat dir_fd p mode);
        match m with
        | Ok _ => mret (Some true)
        | Err e => if decide (e = EEXIST) then mret (Some false) else fail path
        end
      else fail path
  end.
Fixpoint mkdir_loop (path : bytes) (mode : Z) (comps : list bytes) (dir_fd : Z) (created : bool) : UM (option (Z * bool)) :=
  match comps with
  | [] => mret (Some (dir_fd, created))
  | p :: rest =>
      if decide (p = []) then mkdir_loop path mode rest dir_fd created else
      made ← make_component path mode dir_fd p;
      match made with
      | None => call (s_close dir_fd);; mret None
      | Some made =>
          c ← call (s_openat dir_fd p (dir_open_flags |. O_NOFOLLOW));
          match c with
          | Err _ => call (s_say path);; call (s_close dir_fd);; mret None
          | Ok child =>
              call (s_close dir_fd);;
              mkdir_loop path mode rest child (created || (made && bool_decide (rest = [])))
          end
      end
  end.
(** Whether the last component is new. *)
Definition mkdir_p_dir (path : bytes) (mode : Z) : UM (option bool) :=
  if decide (PATH_MAX <= zlen path) then fail path else
  if decide (head path <> Some SLASH) then fail path else
  r ← call (s_open [SLASH] dir_open_flags);
  match r with
  | Err _ => fail [SLASH]
  | Ok fd =>
      d ← mkdir_loop path mode (split_slash (tail path)) fd false;
      match d with
      | None => mret None
      | Some (fd, created) =>
          c ← call (s_close fd);
          match c with Ok _ => mret (Some created) | Err _ => fail path end
      end
  end.
Definition ensure_destination_root (arg : bytes) : UM (option bool) :=
  abs ← to_abs_path arg;
  match abs with None => fail arg | Some abs => mkdir_p_dir abs o0777 end.

(** * The destination of a directory and of a file *)

(** A local directory: its path, and whether it is new. *)
Definition dir_destination (verify_only : bool) (src_abs arg : bytes) : UM (option (bytes * bool)) :=
  dst ← (if verify_only then to_canonical_dir_path arg else to_canonical_requested_dir_path arg);
  match dst with
  | None => mret None
  | Some dst =>
      if is_same_or_child_path src_abs dst || is_same_or_child_path dst src_abs then fail src_abs else
      if verify_only then mret (Some (dst, false)) else
      fresh ← ensure_destination_root dst;
      match fresh with None => mret None | Some fresh => mret (Some (dst, fresh)) end
  end.

(** A local file: the directory and the final name. *)
Definition file_directory (arg src_name : bytes) : UM (option (bytes * bytes)) :=
  st ← call (s_lstat arg);
  if (match st with Ok st => S_ISDIR (st_mode st) | Err _ => false end : bool) then
    d ← to_canonical_dir_path arg;
    mret ((fun d => (d, src_name)) <$> d)
  else
    abs ← to_abs_path arg;
    match (match abs with Some abs => normalize_abs_path_lexically abs PATH_MAX | None => Err ENAMETOOLONG end) with
    | Err _ => fail arg
    | Ok norm =>
        let '(dir, name) := if decide (last arg = Some SLASH) then (norm, src_name) else split_parent_name norm PATH_MAX PATH_MAX in
        d ← to_canonical_requested_dir_path dir;
        mret ((fun d => (d, name)) <$> d)
    end.
(** Where the worker puts the file, and where it should end up. *)
Definition file_destination (verify_only : bool) (src_abs src_name arg : bytes) : UM (option (bytes * bytes)) :=
  d ← file_directory arg src_name;
  match d with
  | None => mret None
  | Some (dir, name) =>
      ok ← (if verify_only then
              st ← call (s_lstat dir);
              if (match st with Ok st => S_ISDIR (st_mode st) | Err _ => false end : bool) then mret (Some false) else fail dir
            else mkdir_p_dir dir o0777);
      match ok, path_join_fast dir src_name PATH_MAX, path_join_fast dir name PATH_MAX with
      | None, _, _ => mret None
      | _, Some enqueue_dst, Some final_dst =>
          if decide (src_abs = final_dst) then fail src_abs else mret (Some (enqueue_dst, final_dst))
      | _, _, _ => fail arg
      end
  end.
End programs.

(** After the workers have stopped: the file gets its final name. The answer is
    finalize_failed; the state is verification's list. *)
Definition finish_single (enqueue_failed : bool) (enqueue_dst final_dst : bytes) : M startup intake bool :=
  if enqueue_failed then mret true else
  if decide (enqueue_dst = final_dst) then mret false else
  r ← call (s_rename enqueue_dst final_dst);
  match r with
  | Err _ => call (s_say final_dst);; mret true
  | Ok _ => modify (verify_retarget_path enqueue_dst final_dst);; mret false
  end.

(** [enqueue] is [workers_enqueue_batch] with one item. *)
Definition enqueue_single_file (enqueue : dir_handle -> bytes -> stat -> FM bool) (src_parent src_name dst_full : bytes) (st : stat) (remote : bool) : FM bool :=
  s ← call (open src_parent dir_open_flags 0);
  match s with
  | Err _ => complain src_parent;; mret false
  | Ok src_fd =>
      let dst_dir := (split_parent_name dst_full PATH_MAX PATH_MAX).1 in
      d ← (if remote then mret (Ok (-1)) else call (open dst_dir dir_open_flags 0) : FM (res Z));
      match d with
      | Err _ => complain dst_dir;; close_ src_fd;; mret false
      | Ok dst_fd =>
          h ← dir_handle_create src_parent dst_dir src_fd dst_fd;
          match h with
          | None => close_ src_fd;; when (bool_decide (0 <= dst_fd)) (close_ dst_fd);; mret false
          | Some h => rc ← enqueue h src_name st; dir_handle_release h;; mret rc
          end
      end
  end.
