(* ===== verification/DestinationOk.v ===== *)
(** What the destination steps of Destination.v do.

    The requested directory is resolved exactly: the longest part of the path
    that exists, as realpath(3) answers it, with the missing components below.
    It is then made by a walk that starts at the root, never follows a link,
    makes nothing but components of that path and gives every descriptor back;
    and neither the source nor the destination is inside the other. *)

From S2P Require Export Destination.
From stdpp Require Import list gmap.
#[local] Open Scope Z_scope.

(** What the calls about whole paths answer while main decides. *)
Record paths := Paths {
  p_cwd : res bytes;
  p_stat : bytes -> res stat;
  p_lstat : bytes -> res stat;
  p_real : bytes -> res bytes
}.

(** Open directories by the components that lead there, the components opened,
    the directories made, and whether a call has failed for a reason of its own. *)
Record walk_ghost := WG { wg_fds : gmap Z (list bytes); wg_walked : list (list bytes); wg_made : list (list bytes); wg_bad : bool }.
Definition flag (b : bool) (g : walk_ghost) : walk_ghost := WG (wg_fds g) (wg_walked g) (wg_made g) (wg_bad g || b).

Section host.
(** [there]: the directories that exist; they stay. *)
Context (w : paths) (mode : Z) (there : list bytes -> Prop).

Definition below (g : walk_ghost) (dfd : Z) (name : bytes) : Prop := is_Some (wg_fds g !! dfd) /\ good name.
Definition wg_at (g : walk_ghost) (fd : Z) : list bytes := default [] (wg_fds g !! fd).

Definition host_pre (g : walk_ghost) R (e : startup R) : Prop :=
  match e with
  | s_open path flags => path = [SLASH] /\ flags = dir_open_flags
  | s_openat dfd name flags => below g dfd name /\ flags = dir_open_flags |. O_NOFOLLOW
  | s_fstatat dfd name flags => below g dfd name /\ flags = AT_SYMLINK_NOFOLLOW
  | s_mkdirat dfd name m => below g dfd name /\ m = mode
  | s_close fd => is_Some (wg_fds g !! fd)
  | s_rename _ _ => False
  | s_getcwd | s_stat _ | s_lstat _ | s_realpath _ | s_say _ => True
  end.
Definition new_fd (g : walk_ghost) (r : res Z) : Prop := match r with Ok fd => wg_fds g !! fd = None | Err _ => True end.
Definition is_there (g : walk_ghost) (cs : list bytes) : Prop := there cs \/ cs ∈ wg_made g.
Definition host_adm (g : walk_ghost) R (e : startup R) : R -> Prop :=
  match e in startup R return R -> Prop with
  | s_getcwd => fun r => r = p_cwd w
  | s_stat p => fun r => r = p_stat w p
  | s_lstat p => fun r => r = p_lstat w p
  | s_realpath p => fun r => r = p_real w p
  | s_open _ _ => fun r => new_fd g r
  | s_openat dfd name _ => fun r => new_fd g r /\ (r = Err ENOENT -> ~ is_there g (wg_at g dfd ++ [name]))
  | s_fstatat dfd name _ => fun r => match r with Ok st => S_ISDIR (st_mode st) = true -> is_there g (wg_at g dfd ++ [name]) | Err _ => True end
  | s_mkdirat dfd name _ => fun r => r = Err EEXIST -> is_there g (wg_at g dfd ++ [name])
  | _ => fun _ => True
  end.
Definition enter (fd : Z) (cs : list bytes) (g : walk_ghost) : walk_ghost :=
  WG (<[fd := cs]> (wg_fds g)) (wg_walked g ++ [cs]) (wg_made g) (wg_bad g).
Definition host_upd (g : walk_ghost) R (e : startup R) : R -> walk_ghost :=
  match e in startup R return R -> walk_ghost with
  | s_open _ _ => fun r => match r with Ok fd => enter fd [] g | Err _ => flag true g end
  | s_openat dfd name _ => fun r =>
      match r with Ok fd => enter fd (wg_at g dfd ++ [name]) g | Err e => flag (negb (bool_decide (e = ENOENT))) g end
  | s_fstatat _ _ _ => fun r =>
      match r with Ok st => flag (negb (S_ISDIR (st_mode st))) g | Err e => flag (negb (bool_decide (e = ENOENT))) g end
  | s_mkdirat dfd name _ => fun r =>
      match r with
      | Ok _ => WG (wg_fds g) (wg_walked g) (wg_made g ++ [wg_at g dfd ++ [name]]) (wg_bad g)
      | Err e => flag (negb (bool_decide (e = EEXIST))) g
      end
  | s_close fd => fun r => WG (delete fd (wg_fds g)) (wg_walked g) (wg_made g) (wg_bad g || negb (is_ok r))
  | _ => fun _ => g
  end.
Definition host : monitor startup := Monitor walk_ghost host_pre host_adm host_upd False.

(** * The requested directory *)

Definition absent (path : bytes) : Prop := p_stat w path = Err ENOENT /\ p_lstat w path = Err ENOENT.
Definition directory (path : bytes) : Prop := exists st, p_stat w path = Ok st /\ S_ISDIR (st_mode st) = true.
(** The longest part of [cs] that exists is a directory whose real path is
    [rs]; the rest of [cs] goes below it. *)
Definition requested (cs ds : list bytes) : Prop :=
  exists pre suf rs, cs = pre ++ suf /\ directory (render pre) /\ p_real w (render pre) = Ok (render rs) /\ Forall proper rs /\
    ds = rs ++ suf /\ zlen (render ds) < PATH_MAX /\
    forall k, (length pre < k <= length cs)%nat -> absent (render (take k cs)).

Lemma requested_at cur suf ds :
  (forall k, (length cur < k <= length (cur ++ suf))%nat -> absent (render (take k (cur ++ suf)))) ->
  ~ absent (render cur) -> requested (cur ++ suf) ds ->
  directory (render cur) /\ exists rs, p_real w (render cur) = Ok (render rs) /\ Forall proper rs /\ ds = rs ++ suf /\ zlen (render ds) < PATH_MAX.
Proof.
  intros Hl Hn (pre & suf' & rs & He & Hd & Hr & Hp & -> & Hz & Hl').
  assert (Hlen : length pre = length cur).
  { destruct (lt_eq_lt_dec (length pre) (length cur)) as [[H|H]|H]; [exfalso|done|exfalso].
    - apply Hn. rewrite <- (take_app_length cur suf). apply Hl'. rewrite length_app. lia.
    - destruct Hd as (st & Hst & _). assert (Ha : absent (render pre)).
      { rewrite <- (take_app_length pre suf'), <- He. apply Hl. rewrite He, length_app. lia. }
      destruct Ha as [Ha _]. congruence. }
  destruct (app_inj_1 cur pre suf suf') as [-> ->]; [done|done|]. split; [done|]. by exists rs.
Qed.

Lemma slashed_cons c suf : slashed (c :: suf) = SLASH :: c ++ slashed suf.
Proof. done. Qed.
Lemma slashed_tail suf : suf <> [] -> SLASH :: tail (slashed suf) = slashed suf.
Proof. by destruct suf. Qed.

Lemma prepend_component c suf :
  good c -> Forall good suf -> zlen (slashed (c :: suf)) < PATH_MAX ->
  prepend_suffix_component (tail (slashed suf)) PATH_MAX c = Some (tail (slashed (c :: suf))).
Proof.
  intros [Hc Hs] Hg Hz. unfold prepend_suffix_component. rewrite slashed_cons, zlen_cons, zlen_app in Hz. cbn [slashed tail].
  destruct Hg as [|d suf [Hd _] Hg].
  - simpl. rewrite decide_False by (change (zlen (slashed [])) with 0 in Hz; lia). by rewrite app_nil_r.
  - assert (Ht : tail (slashed (d :: suf)) <> []) by (simpl; by destruct d).
    pose proof (slashed_tail (d :: suf) ltac:(done)) as He. revert He Ht. generalize (tail (slashed (d :: suf))). intros t He Ht.
    rewrite <- He in Hz |- *. rewrite zlen_cons in Hz. rewrite decide_False by done.
    unfold path_join_fast. rewrite decide_False by (vm_compute; done).
    rewrite (decide_False (P := c = [SLASH])) by (intros ->; set_solver). rewrite decide_False by lia. simpl.
    rewrite decide_False by (rewrite zlen_app, zlen_cons; lia). done.
Qed.
Lemma join_parent_render rs suf :
  Forall good rs -> Forall good suf ->
  join_parent_suffix (render rs) (tail (slashed suf)) PATH_MAX =
    if decide (zlen (render (rs ++ suf)) < PATH_MAX) then Some (render (rs ++ suf)) else None.
Proof.
  intros Hr Hs. unfold join_parent_suffix. destruct Hs as [|d suf [Hd ?] Hs].
  - simpl. rewrite app_nil_r. repeat case_decide; (done || lia).
  - rewrite decide_False by (simpl; destruct d; done). unfold path_join_fast. rewrite decide_False by (vm_compute; done).
    rewrite (render_cons (rs ++ _)) by (by destruct rs). pose proof (slashed_tail (d :: suf) ltac:(done)) as He.
    rewrite slashed_app. revert He. generalize (tail (slashed (d :: suf))). intros t <-. rewrite zlen_app, zlen_cons.
    replace (if decide (render rs = [SLASH]) then [] else render rs) with (slashed rs).
    + repeat case_decide; (done || lia).
    + case_decide as H0; [apply (render_root rs Hr) in H0; by subst|]. by rewrite render_cons by (by intros ->).
Qed.

Lemma probe_up cur c :
  Forall good cur -> good c ->
  strrchr_slash (render (cur ++ [c])) = Some (length (slashed cur)) /\
  drop (S (length (slashed cur))) (render (cur ++ [c])) = c /\
  (if decide (length (slashed cur) = 0%nat) then [SLASH] else take (length (slashed cur)) (render (cur ++ [c]))) = render cur.
Proof.
  intros Hg [Hc Hs]. rewrite render_snoc, strrchr_slashed by done. split; [done|]. split.
  - rewrite drop_app_ge by lia. by replace (S (length (slashed cur)) - length (slashed cur))%nat with 1%nat by lia.
  - rewrite take_app_length. case_decide as H0; [by destruct cur|]. by rewrite render_cons by (by intros ->).
Qed.

Context {St : Type}.
Implicit Types (s : St).
Context (Hcwd : forall c, p_cwd w = Ok c -> head c = Some SLASH).
Context (Hreal : forall p r, p_real w p = Ok r -> exists rs, Forall proper rs /\ r = render rs).

Lemma fail_ok {A} line s g (Q : _ -> option A -> _ -> Prop) : Q g None s -> wpM host (fail line) s g Q.
Proof. intros H. unfold fail. by wp_call u Hu. Qed.

Lemma resolve_existing_ok path s g :
  path <> [] ->
  wpM host (path_resolve_existing path) s g (fun g' out s' => s' = s /\ g' = g /\ out = match p_real w path with Ok r => Some r | Err _ => None end).
Proof.
  intros Hp. unfold path_resolve_existing. rewrite decide_False by done. wp_call r Hr. simpl in Hr. subst r.
  destruct (p_real w path); [by apply wpM_ret|by apply fail_ok].
Qed.

Lemma render_nonempty cs : render cs <> [].
Proof. by destruct cs. Qed.

Lemma probe_loop_ok fuel arg cur suf s g :
  Forall good cur -> Forall good suf -> zlen (render (cur ++ suf)) < PATH_MAX -> (length cur < fuel)%nat ->
  (forall k, (length cur < k <= length (cur ++ suf))%nat -> absent (render (take k (cur ++ suf)))) ->
  wpM host (probe_loop fuel arg (render cur) (tail (slashed suf))) s g (fun g' out s' =>
    s' = s /\ g' = g /\ (forall o, out = Some o -> exists ds, o = render ds /\ requested (cur ++ suf) ds) /\
    (forall ds, requested (cur ++ suf) ds -> out = Some (render ds))).
Proof.
  revert cur suf g. induction fuel as [|fuel IH]; intros cur suf g Hg Hs Hz Hfuel Hl; [lia|]. simpl.
  assert (Hno : (~ absent (render cur)) -> ~ (directory (render cur) /\ exists r, p_real w (render cur) = Ok r) ->
    wpM host (fail (A := bytes) (render cur)) s g (fun g' out s' =>
    s' = s /\ g' = g /\ (forall o, out = Some o -> exists ds, o = render ds /\ requested (cur ++ suf) ds) /\
    (forall ds, requested (cur ++ suf) ds -> out = Some (render ds)))).
  { intros Ha Hn. apply fail_ok. split_and!; [done|done|done|]. intros ds Hd. destruct Hn.
    destruct (requested_at _ _ _ Hl Ha Hd) as (? & rs & ? & _). split; [done|]. by eexists. }
  wp_call r Hr. simpl in Hr. subst r. destruct (p_stat w (render cur)) as [st|e] eqn:Hst.
  - assert (Ha : ~ absent (render cur)) by (intros [Ha _]; congruence).
    destruct (S_ISDIR (st_mode st)) eqn:Hdir; simpl; [|apply Hno; [done|intros ((st' & ? & ?) & _); congruence]].
    apply wpM_bind. eapply wpM_mono; [apply resolve_existing_ok, render_nonempty|]. cbn beta. intros g' out s' (-> & -> & ->).
    destruct (p_real w (render cur)) as [real|] eqn:Hr.
    2:{ apply wpM_ret. split_and!; [done|done|done|]. intros ds Hd. destruct (requested_at _ _ _ Hl Ha Hd) as (? & rs & ? & _). congruence. }
    destruct (Hreal _ _ Hr) as (rs & Hrs & ->). rewrite join_parent_render by auto using Forall_proper_good.
    case_decide as Hfit.
    + apply wpM_ret. split_and!; [done|done| |].
      * intros o [= <-]. exists (rs ++ suf). split; [done|]. exists cur, suf, rs. split_and!; try done. by exists st.
      * intros ds Hd. destruct (requested_at _ _ _ Hl Ha Hd) as (_ & rs' & Hrs' & Hp' & -> & _). rewrite Hr in Hrs'. injection Hrs' as Hrr.
        by rewrite <- (tokens_render rs), Hrr, tokens_render by (by apply Forall_proper_good).
    + apply fail_ok. split_and!; [done|done|done|]. intros ds Hd. destruct Hfit.
      destruct (requested_at _ _ _ Hl Ha Hd) as (_ & rs' & Hrs' & Hp' & -> & Hz'). rewrite Hr in Hrs'. injection Hrs' as Hrr.
      by rewrite <- (tokens_render rs), Hrr, tokens_render by (by apply Forall_proper_good).
  - assert (Hnd : ~ (directory (render cur) /\ exists r, p_real w (render cur) = Ok r)) by (intros ((? & ? & _) & _); congruence).
    case_bool_decide as He; simpl; [subst e|apply Hno; [intros [? _]; congruence|done]].
    wp_call l Hlr. simpl in Hlr. subst l. destruct (p_lstat w (render cur)) as [st|e] eqn:Hls; [apply Hno; [intros [_ ?]; congruence|done]|].
    case_bool_decide as He; simpl; [subst e|apply Hno; [intros [_ ?]; congruence|done]].
    destruct cur as [|c cur _] using rev_ind.
    { change (render []) with [SLASH]. rewrite decide_True by done. apply fail_ok. split_and!; [done|done|done|].
      intros ds (pre & suf' & rs & He & (st & Hd & _) & _ & _ & _ & _ & Hl'). destruct pre as [|b pre]; [simpl in *; congruence|].
      exfalso. assert (Ha : absent (render (take (length (b :: pre)) ([] ++ suf)))) by (apply Hl; rewrite He, length_app; simpl; lia).
      rewrite He, take_app_length in Ha. destruct Ha. congruence. }
    apply list.Forall_app in Hg as [Hg Hc]. inversion_clear Hc as [|? ? Hc' _].
    rewrite decide_False by (rewrite render_root by (apply list.Forall_app; by split; [|constructor]); by destruct cur).
    destruct (probe_up cur c Hg Hc') as (-> & -> & ->). rewrite decide_False by (by destruct Hc').
    rewrite <- (assoc_L (++)) in Hz, Hl |- *. rewrite prepend_component; [|done|done|].
    2:{ rewrite (render_cons (cur ++ _)) in Hz by (by destruct cur). rewrite slashed_app, zlen_app in Hz.
        change ([c] ++ suf) with (c :: suf) in Hz. pose proof (zlen_nonneg (slashed cur)). lia. }
    apply (IH cur (c :: suf)); [done|by constructor|done|rewrite length_app in Hfuel; simpl in Hfuel; lia|].
    intros k Hk. destruct (decide (k = length cur + 1)%nat) as [->|Hne].
    + rewrite (cons_middle c cur suf), (assoc_L (++)). replace (length cur + 1)%nat with (length (cur ++ [c])) by (rewrite length_app; simpl; lia).
      rewrite take_app_length. by split.
    + apply Hl. rewrite length_app. simpl in *. lia.
Qed.

(** The argument below the working directory. *)
Definition abs_of (arg : bytes) : option bytes :=
  if decide (head arg = Some SLASH) then (if decide (PATH_MAX <= zlen arg) then None else Some arg)
  else match p_cwd w with Ok cwd => path_join_fast cwd arg PATH_MAX | Err _ => None end.
Definition comps_of (arg : bytes) : option (list bytes) := (fun a => norm_comps (tokens a)) <$> abs_of arg.

Lemma join_fast_abs base name out :
  head base = Some SLASH -> path_join_fast base name PATH_MAX = Some out -> head out = Some SLASH /\ zlen out < PATH_MAX.
Proof.
  intros Hh. unfold path_join_fast. case_decide; [done|]. destruct (decide (base = [SLASH])) as [->|Hb]; simpl; (case_decide as Hz; [done|]).
  - intros [= <-]. simpl. split; [done|]. zlen_lia.
  - intros [= <-]. split; [by destruct base|]. zlen_lia.
Qed.
Lemma abs_of_spec arg a : abs_of arg = Some a -> head a = Some SLASH /\ zlen a < PATH_MAX.
Proof.
  unfold abs_of. case_decide as Hh; [case_decide; [done|]; intros [= <-]; split; [done|lia]|].
  destruct (p_cwd w) as [c|] eqn:Hc; [|done]. by apply join_fast_abs, Hcwd.
Qed.
Lemma normalize_rstrip a :
  head a = Some SLASH -> zlen a < PATH_MAX ->
  normalize_abs_path_lexically (path_rstrip_slashes a) PATH_MAX = Ok (render (norm_comps (tokens a))) /\
  zlen (render (norm_comps (tokens a))) < PATH_MAX.
Proof.
  intros Hh Hz. destruct (rstrip_slashes_spec a) as (k & He & Hne). split; [|pose proof (norm_comps_length a Hh); lia].
  rewrite normalize_lexically_eq, normalize_abs_eq, tokens_rstrip; [done| |].
  - destruct (path_rstrip_slashes a) as [|b l]; [by destruct Hne; [intros ->|]|]. rewrite He in Hh. done.
  - rewrite He in Hz. rewrite zlen_app in Hz. pose proof (zlen_nonneg (replicate k SLASH)). lia.
Qed.
Lemma to_abs_ok arg s g :
  wpM host (to_abs_path arg) s g (fun g' out s' => s' = s /\ g' = g /\ out = path_rstrip_slashes <$> abs_of arg).
Proof.
  unfold to_abs_path, abs_of. case_decide.
  - apply wpM_ret. split_and!; [done|done|]. by case_decide.
  - wp_call r Hr. simpl in Hr. subst r. destruct (p_cwd w); [by apply wpM_ret|by apply fail_ok].
Qed.

Lemma render_fuel cs : Forall good cs -> (length cs < length (render cs))%nat.
Proof.
  destruct cs as [|c cs]; [simpl; lia|]. intros Hg. change (render (c :: cs)) with (slashed (c :: cs)).
  assert (H : forall l, Forall good l -> (2 * length l <= length (slashed l))%nat).
  { clear. induction 1 as [|c l [Hc _] _ IH]; simpl; [lia|]. destruct c; [done|]. simpl. rewrite length_app. lia. }
  pose proof (H _ Hg). simpl in *. lia.
Qed.
Lemma requested_dir_ok arg s g :
  wpM host (to_canonical_requested_dir_path arg) s g (fun g' out s' =>
    s' = s /\ g' = g /\
    (forall o, out = Some o -> exists cs ds, comps_of arg = Some cs /\ o = render ds /\ requested cs ds) /\
    (forall cs ds, comps_of arg = Some cs -> requested cs ds -> out = Some (render ds))).
Proof.
  unfold to_canonical_requested_dir_path, comps_of. apply wpM_bind.
  eapply wpM_mono; [apply to_abs_ok|]. cbn beta. intros g' abs s' (-> & -> & ->).
  destruct (abs_of arg) as [a|] eqn:Ha; simpl; [|apply fail_ok; by split_and!].
  destruct (abs_of_spec _ _ Ha) as [Hh Hz]. destruct (normalize_rstrip a Hh Hz) as [-> Hz'].
  pose proof (Forall_proper_good _ (norm_comps_proper _ (tokens_good a))) as Hg.
  change (@nil byte) with (tail (slashed [])).
  eapply wpM_mono; [apply (probe_loop_ok _ _ _ []); rewrite ?app_nil_r; try done|].
  - by apply render_fuel.
  - intros k Hk. lia.
  - cbn beta. rewrite app_nil_r. intros g' out s' (-> & -> & H1 & H2). split_and!; [done|done| |].
    + intros o Ho. destruct (H1 o Ho) as (ds & ? & ?). by exists (norm_comps (tokens a)), ds.
    + intros cs ds [= <-]. apply H2.
Qed.
Lemma requested_unique cs ds ds' : requested cs ds -> requested cs ds' -> ds = ds'.
Proof.
  intros (pre & suf & rs & -> & (st & Hst & Hdir) & Hr & Hp & -> & _ & Hl) H'.
  destruct (requested_at pre suf ds') as (_ & rs' & Hr' & Hp' & -> & _); [done|intros [Ha _]; congruence|done|].
  rewrite Hr in Hr'. injection Hr' as E. f_equal. rewrite <- (tokens_render rs), <- (tokens_render rs'), E; auto using Forall_proper_good.
Qed.
Lemma requested_proper cs ds : Forall proper cs -> requested cs ds -> Forall proper ds.
Proof.
  intros Hc (pre & suf & rs & -> & _ & _ & Hr & -> & _). apply list.Forall_app in Hc as [_ Hc]. by apply list.Forall_app.
Qed.
Lemma comps_of_proper arg cs : comps_of arg = Some cs -> Forall proper cs.
Proof. unfold comps_of. destruct (abs_of arg); [|done]. intros [= <-]. apply norm_comps_proper, tokens_good. Qed.

(** * Making it *)

Lemma make_component_ok path dir_fd p s g :
  below g dir_fd p ->
  wpM host (make_component path mode dir_fd p) s g (fun g' out s' => s' = s /\
    wg_fds g' = wg_fds g /\ wg_walked g' = wg_walked g /\ (wg_bad g = true -> wg_bad g' = true) /\
    wg_made g' = wg_made g ++ (if decide (out = Some true) then [wg_at g dir_fd ++ [p]] else []) /\
    match out with None => wg_bad g' = true | Some _ => is_there g' (wg_at g dir_fd ++ [p]) end).
Proof.
  intros Hb. unfold make_component. wp_call r Hr. simpl in Hr. destruct r as [st|e]; simpl.
  - destruct (S_ISDIR _); [apply wpM_ret|apply fail_ok]; simpl; rewrite app_nil_r, ?orb_true_r; split_and!; try done; [by intros ->|by apply Hr].
  - case_decide as He; [|apply fail_ok; simpl; rewrite bool_decide_false, app_nil_r, orb_true_r by done; by split_and!].
    wp_call m Hm. simpl in Hm. subst e. destruct m as [[]|e']; simpl.
    + apply wpM_ret. simpl. split_and!; try done; [by intros ->|right; set_solver].
    + destruct (decide (e' = EEXIST)) as [He'|He']; [apply wpM_ret|apply fail_ok]; simpl; rewrite app_nil_r.
      * subst e'. split_and!; try done; [by intros ->|by apply Hm].
      * rewrite (bool_decide_false (e' = EEXIST)), orb_true_r by done. by split_and!.
Qed.

(** The directories made while walking [comps] from [at_]. *)
Definition made_below (at_ comps : list bytes) (ms : list (list bytes)) : Prop :=
  forall m, m ∈ ms -> exists k, (0 < k <= length comps)%nat /\ m = at_ ++ take k comps.

Lemma mkdir_loop_ok path comps dir_fd created at_ s g :
  Forall good comps -> wg_fds g !! dir_fd = Some at_ -> at_ ∈ wg_walked g ->
  wpM host (mkdir_loop path mode comps dir_fd created) s g (fun g' out s' => s' = s /\
    exists ms, wg_made g' = wg_made g ++ ms /\ made_below at_ comps ms /\ wg_walked g ⊆ wg_walked g' /\ (wg_bad g = true -> wg_bad g' = true) /\
    match out with
    | None => wg_fds g' = delete dir_fd (wg_fds g) /\ wg_bad g' = true
    | Some (fd, c) => wg_fds g' = <[fd := at_ ++ comps]> (delete dir_fd (wg_fds g)) /\ delete dir_fd (wg_fds g) !! fd = None /\
        at_ ++ comps ∈ wg_walked g' /\ c = created || bool_decide (at_ ++ comps ∈ ms)
    end).
Proof.
  revert dir_fd created at_ g. induction comps as [|p rest IH]; intros dir_fd created at_ g Hg Hfd Hw; simpl.
  { apply wpM_ret. split; [done|]. exists []. rewrite !app_nil_r. split_and!; [done|by intros ? ?%elem_of_nil|done|done| |by simplify_map_eq|done|].
    - by rewrite insert_delete_id.
    - rewrite bool_decide_false by (by intros ?%elem_of_nil). by rewrite orb_false_r. }
  inversion_clear Hg as [|? ? Hp Hrest]. rewrite decide_False by (by destruct Hp).
  apply wpM_bind. eapply wpM_mono; [by apply make_component_ok; split; [eexists|]|]. cbn beta. intros g1 made s' (-> & F1 & W1 & B1 & M1 & Hthere).
  unfold wg_at in M1, Hthere. rewrite Hfd in M1, Hthere. simpl in M1, Hthere. destruct made as [made|].
  2:{ wp_call u Hu; [simpl; rewrite F1; by eexists|]. apply wpM_ret. split; [done|]. exists []. simpl. rewrite F1, W1, Hthere. by split_and!; [|by intros ? ?%elem_of_nil| | | |]. }
  set (now := if decide (Some made = Some true) then [at_ ++ [p]] else []).
  assert (Hnow : made_below at_ (p :: rest) now).
  { intros m. unfold now. case_decide; [|by intros ?%elem_of_nil]. intros ->%list_elem_of_singleton. exists 1%nat. simpl. split; [lia|done]. }
  assert (Hat : wg_at g1 dir_fd = at_) by (unfold wg_at; by rewrite F1, Hfd).
  apply wpM_bind, wpM_call; [split; [split; [rewrite F1; by eexists|done]|done]|]. intros c [Hc Hno]. rewrite Hat in Hno. destruct c as [child|e].
  2:{ wp_call u Hu. wp_call u' Hu'; [simpl; rewrite F1; by eexists|]. apply wpM_ret. split; [done|]. exists now. simpl.
      assert (e <> ENOENT) by (intros ->; by apply Hno). rewrite bool_decide_false, orb_true_r, F1, W1 by done. by split_and!. }
  simpl in Hc. simpl. unfold enter. rewrite Hat. simpl. wp_call u Hu; [simpl; rewrite F1; by apply lookup_insert_is_Some'; right; eexists|].
  assert (Hne : dir_fd <> child) by (intros ->; rewrite F1 in Hc; congruence).
  eapply wpM_mono; [apply (IH child _ (at_ ++ [p])); [done| |simpl; set_solver]|].
  { simpl. rewrite lookup_delete_ne by done. by rewrite lookup_insert_eq. }
  cbn beta. intros g' out s' (-> & ms & Hm & Hb & Hsub & Hbad & Hout). split; [done|]. simpl in *. rewrite M1, <- (assoc_L (++)) in Hm. rewrite W1 in Hsub. rewrite F1 in Hout, Hc.
  exists (now ++ ms). split; [done|]. split; [|split; [set_solver|split; [intros Hg; apply Hbad; by rewrite (B1 Hg)|]]].
  - intros m [Hin|Hin]%elem_of_app; [by apply Hnow|]. destruct (Hb m Hin) as (k & Hk & ->). exists (S k). simpl. split; [lia|].
    by rewrite <- (assoc_L (++)).
  - assert (Hdel : delete child (delete dir_fd (<[child := at_ ++ [p]]> (wg_fds g))) = delete dir_fd (wg_fds g)).
    { rewrite delete_delete, delete_insert_id by done. done. }
    rewrite Hdel in Hout. destruct out as [[fd c]|]; [|done]. rewrite <- (assoc_L (++)) in Hout. simpl in Hout.
    destruct Hout as (? & ? & ? & ->). split_and!; [done|done|done|]. rewrite <- orb_assoc. f_equal. apply eq_bool_prop_intro.
    rewrite orb_True, andb_True, !bool_decide_spec, elem_of_app. unfold now.
    assert (Hne' : rest <> [] -> at_ ++ p :: rest <> at_ ++ [p]) by (intros Hr [= ->]%(inj _); done).
    case_decide as Hd; rewrite ?list_elem_of_singleton, ?elem_of_nil.
    + injection Hd as ->. destruct (decide (rest = [])) as [->|]; naive_solver.
    + destruct made; [done|]. naive_solver.
Qed.

Lemma split_render cs : Forall good cs -> cs <> [] -> split_slash (tail (render cs)) = cs.
Proof.
  intros Hg Hn. rewrite render_cons by done. destruct Hg as [|c cs [_ Hc] Hg]; [done|]. clear Hn. simpl. revert c Hc.
  induction Hg as [|d cs [_ Hd] Hg IH]; intros c Hc.
  - by rewrite split_slash_app by (done || by left).
  - change (slashed (d :: cs)) with (SLASH :: d ++ slashed cs). rewrite split_slash_join, IH by done.
    rewrite <- (app_nil_r c) at 1. by rewrite split_slash_app by (done || by left).
Qed.

(** What a walk may leave behind: the descriptors it found, and directories of [cs] alone. *)
Definition walked_only (cs : list bytes) (g g' : walk_ghost) (ms : list (list bytes)) : Prop :=
  wg_fds g' = wg_fds g /\ wg_made g' = wg_made g ++ ms /\ made_below [] cs ms.

Lemma mkdir_p_ok cs s g :
  Forall good cs ->
  wpM host (mkdir_p_dir (render cs) mode) s g (fun g' out s' => s' = s /\
    exists ms, walked_only cs g g' ms /\
      match out with
      | Some c => cs ∈ wg_walked g' /\ c = bool_decide (cs ∈ ms)
      | None => PATH_MAX <= zlen (render cs) \/ wg_bad g' = true
      end).
Proof.
  intros Hg. assert (Hnone : made_below [] cs []) by by intros ? ?%elem_of_nil.
  unfold mkdir_p_dir, walked_only. case_decide; [apply fail_ok; split; [done|]; exists []; rewrite app_nil_r; by split; [|left]|].
  rewrite decide_False by (by rewrite render_head; intros []).
  wp_call r Hr. simpl in Hr. destruct r as [fd|e]; [|apply fail_ok; split; [done|]; exists []; simpl; rewrite app_nil_r, orb_true_r; by split; [|right]].
  simpl. apply wpM_bind.
  assert (Hloop : wpM host (mkdir_loop (render cs) mode (split_slash (tail (render cs))) fd false) s (enter fd [] g) (fun g' out s' => s' = s /\
    exists ms, wg_made g' = wg_made g ++ ms /\ made_below [] cs ms /\
    match out with
    | None => wg_fds g' = wg_fds g /\ wg_bad g' = true
    | Some (fd, c) => wg_fds g' = <[fd := cs]> (wg_fds g) /\ wg_fds g !! fd = None /\ cs ∈ wg_walked g' /\ c = bool_decide (cs ∈ ms)
    end)).
  { destruct (decide (cs = [])) as [->|Hne].
    { simpl. apply wpM_ret. split; [done|]. exists []. rewrite app_nil_r. by split_and!; [| | | |set_solver|]. }
    rewrite split_render by done. eapply wpM_mono; [apply (mkdir_loop_ok _ _ _ _ []); [done|by simpl; rewrite lookup_insert_eq|set_solver]|].
    cbn beta. intros g' out s' (-> & ms & Hm & Hb & _ & _ & Hout). split; [done|]. exists ms. simpl in *.
    rewrite delete_insert_id in Hout by done. split; [done|]. split; [done|]. by destruct out as [[fd1 c]|]. }
  eapply wpM_mono; [exact Hloop|]. cbn beta. intros g' out s' (-> & ms & Hm & Hb & Hout). destruct out as [[fd' c]|].
  - destruct Hout as (Hf & Hn & Hw & ->). wp_call u Hu; [simpl; rewrite Hf, lookup_insert_eq; by eexists|].
    destruct u; [apply wpM_ret|apply fail_ok]; (split; [done|]); exists ms; simpl; rewrite Hf, delete_insert_id by done; (split; [done|]).
    + done.
    + right. by rewrite orb_true_r.
  - destruct Hout as [Hf Hbad]. apply wpM_ret. split; [done|]. exists ms. by split; [|right].
Qed.
End host.

Lemma rstrip_render cs : Forall good cs -> path_rstrip_slashes (render cs) = render cs.
Proof.
  intros Hg. destruct (rstrip_slashes_spec (render cs)) as (k & He & _). destruct k as [|k]; [by rewrite app_nil_r in He|].
  destruct cs as [|c cs _] using rev_ind; [done|]. exfalso. apply list.Forall_app in Hg as [_ Hc]. inversion_clear Hc as [|? ? [Hc' Hs] _].
  rewrite render_snoc, replicate_S_end, (assoc_L (++)) in He. destruct c as [|b c _] using rev_ind; [done|].
  rewrite app_comm_cons, (assoc_L (++)) in He. apply app_inj_tail in He as [_ ->]. set_solver.
Qed.

(** Neither contains the other. *)
Definition apart (ss ds : list bytes) : Prop := ~ ss `prefix_of` ds /\ ~ ds `prefix_of` ss.
Lemma same_or_child_render a b : Forall good a -> Forall good b -> is_same_or_child_path (render a) (render b) = true <-> a `prefix_of` b.
Proof. apply path_under_root_spec. Qed.
Lemma overlap_render a b o :
  Forall good a -> Forall good b ->
  is_same_or_child_path (render a) (render b) || is_same_or_child_path (render b) (render a) = o -> if o then ~ apart a b else apart a b.
Proof.
  intros Ha Hb Ho. pose proof (same_or_child_render a b Ha Hb) as H1. pose proof (same_or_child_render b a Hb Ha) as H2. unfold apart. destruct o.
  - apply orb_true_iff in Ho. tauto.
  - apply orb_false_iff in Ho as [E1 E2]. rewrite E1 in H1. rewrite E2 in H2. split; [intros H%H1|intros H%H2]; done.
Qed.

(** ** Names and what they hold *)

Definition rename_in (old new : bytes) (names : gmap bytes bytes) : gmap bytes bytes :=
  match names !! old with Some c => <[new := c]> (delete old names) | None => names end.
(** rename(2) is atomic, and needs its first argument. *)
Definition naming_pre (_ : gmap bytes bytes) R (e : startup R) : Prop := match e with s_rename _ _ | s_say _ => True | _ => False end.
Definition naming_adm (names : gmap bytes bytes) R (e : startup R) : R -> Prop :=
  match e in startup R return R -> Prop with
  | s_rename old _ => fun r => match r with Ok _ => is_Some (names !! old) | Err _ => True end
  | _ => fun _ => True
  end.
Definition naming_upd (names : gmap bytes bytes) R (e : startup R) : R -> gmap bytes bytes :=
  match e in startup R return R -> gmap bytes bytes with
  | s_rename old new => fun r => match r with Ok _ => rename_in old new names | Err _ => names end
  | _ => fun _ => names
  end.
Definition naming : monitor startup := Monitor (gmap bytes bytes) naming_pre naming_adm naming_upd False.

(** What the last step leaves: on success the content is under its final name
    alone and no other name has changed; on failure nothing has. *)
Definition finished (enq final : bytes) (names : gmap bytes bytes) (items : intake) (names' : gmap bytes bytes) (bad : bool) (items' : intake) : Prop :=
  if bad then names' = names /\ items' = items
  else (forall c, names !! enq = Some c -> names' !! final = Some c) /\ (enq <> final -> names' !! enq = None) /\
    (forall n, n <> enq -> n <> final -> names' !! n = names !! n) /\
    items' = if decide (enq = final) then items else verify_retarget_path enq final items.

Lemma finish_single_ok failed enq final names items :
  wpM naming (finish_single failed enq final) items names (fun names' bad items' =>
    (failed = true -> bad = true) /\ finished enq final names items names' bad items').
Proof.
  unfold finish_single, finished. destruct failed; [by apply wpM_ret|].
  case_decide as He; [subst; by apply wpM_ret|]. wp_call r Hr. simpl in Hr. destruct r as [[]|e].
  - apply wpM_bind, wpM_modify, wpM_ret. split; [done|]. simpl. destruct Hr as [c Hc]. unfold rename_in. rewrite Hc. split_and!.
    + intros c' [= <-]. by rewrite lookup_insert_eq.
    + intros _. rewrite lookup_insert_ne, lookup_delete_eq by done. done.
    + intros n H1 H2. by rewrite lookup_insert_ne, lookup_delete_ne by done.
    + done.
  - wp_call u Hu. by apply wpM_ret.
Qed.

Section destination.
Context (w : paths) (there : list bytes -> Prop).
Context (Hcwd : forall c, p_cwd w = Ok c -> head c = Some SLASH).
Context (Hreal : forall p r, p_real w p = Ok r -> exists rs, Forall proper rs /\ r = render rs).
Context {St : Type}.
Implicit Types (s : St).

Lemma canonical_dir_ok m arg s g :
  wpM (host w m there) (to_canonical_dir_path arg) s g (fun g' out s' => s' = s /\ g' = g /\
    (forall o, out = Some o -> exists a ds, abs_of w arg = Some a /\ p_real w (path_rstrip_slashes a) = Ok o /\ o = render ds /\ Forall proper ds) /\
    (out = None -> forall a, abs_of w arg = Some a -> forall o, p_real w (path_rstrip_slashes a) <> Ok o)).
Proof.
  unfold to_canonical_dir_path. apply wpM_bind. eapply wpM_mono; [by apply to_abs_ok|]. cbn beta. intros g' abs s' (-> & -> & ->).
  destruct (abs_of w arg) as [a|] eqn:Ha; [|by apply wpM_ret].
  destruct (abs_of_spec w Hcwd _ _ Ha) as [Hh _]. eapply wpM_mono; [apply resolve_existing_ok|].
  - destruct (rstrip_slashes_spec a) as (k & _ & Hne). apply Hne. by destruct a.
  - cbn beta. intros g' out s' (-> & -> & ->). split; [done|]. split; [done|]. split.
    2:{ destruct (p_real w _) as [r|] eqn:Hr; [done|]. intros _ ? [= <-] o. by rewrite Hr. }
    intros o. destruct (p_real w _) as [r|] eqn:Hr; [|done]. intros [= <-]. destruct (Hreal _ _ Hr) as (ds & ? & ?). by exists a, ds.
Qed.

Lemma ensure_root_ok ds s g :
  Forall good ds -> zlen (render ds) < PATH_MAX ->
  wpM (host w o0777 there) (ensure_destination_root (render ds)) s g (fun g' out s' => s' = s /\
    exists ms, walked_only ds g g' ms /\ match out with Some c => ds ∈ wg_walked g' /\ c = bool_decide (ds ∈ ms) | None => wg_bad g' = true end).
Proof.
  intros Hg Hz. unfold ensure_destination_root. apply wpM_bind. eapply wpM_mono; [by apply to_abs_ok|].
  cbn beta. intros g' abs s' (-> & -> & ->). unfold abs_of. rewrite decide_True by apply render_head. rewrite decide_False by lia.
  simpl. rewrite rstrip_render by done. eapply wpM_mono; [by apply mkdir_p_ok|]. cbn beta. intros g' [c|] s' (-> & ms & H1 & H2).
  - split; [done|]. by exists ms.
  - split; [done|]. exists ms. split; [done|]. destruct H2; [lia|done].
Qed.

(** ** A single file *)

Lemma is_dir_lstat m path s g :
  wpM (host w m there) (call (s_lstat path)) s g (fun g' r s' => s' = s /\ g' = g /\ r = p_lstat w path).
Proof. by wp_call r Hr. Qed.

Lemma comps_of_render cs : Forall proper cs -> zlen (render cs) < PATH_MAX -> comps_of w (render cs) = Some cs.
Proof.
  intros Hp Hz. unfold comps_of, abs_of. rewrite decide_True by apply render_head. rewrite decide_False by lia.
  simpl. by rewrite tokens_render, norm_comps_id by auto using Forall_proper_good.
Qed.

(** The name the file ends up with: its own, or the last one of the argument. *)
Definition name_of (arg src_name name : bytes) : Prop :=
  name = src_name \/ name = [] \/ exists cs, comps_of w arg = Some (cs ++ [name]).

(** The directory exists as realpath(3) says, or is the requested one. *)
Lemma file_directory_ok m arg src_name s g :
  wpM (host w m there) (file_directory arg src_name) s g (fun g' out s' => s' = s /\ g' = g /\
    forall dir name, out = Some (dir, name) -> exists ds, dir = render ds /\ Forall proper ds /\
      name_of arg src_name name).
Proof.
  unfold file_directory. apply wpM_bind. eapply wpM_mono; [apply is_dir_lstat|]. cbn beta. intros g' st s' (-> & -> & ->).
  destruct (match p_lstat w arg with Ok _ => _ | Err _ => _ end).
  - apply wpM_bind. eapply wpM_mono; [apply canonical_dir_ok|]. cbn beta. intros g' out s' (-> & -> & Ho & _).
    apply wpM_ret. split_and!; [done|done|]. intros dir name. destruct out as [d|]; [|done]. intros [= <- <-].
    destruct (Ho d eq_refl) as (a & ds & _ & _ & -> & Hp). exists ds. split_and!; [done|done|by left].
  - apply wpM_bind. eapply wpM_mono; [by apply to_abs_ok|]. cbn beta. intros g' abs s' (-> & -> & ->).
    unfold name_of, comps_of. destruct (abs_of w arg) as [a|] eqn:Ha; simpl; [|by apply fail_ok].
    destruct (abs_of_spec w Hcwd _ _ Ha) as [Hh Hz]. destruct (normalize_rstrip a Hh Hz) as [-> Hz'].
    pose proof (norm_comps_proper _ (tokens_good a)) as Hp. set (cs := norm_comps (tokens a)) in *.
    assert (Hreq : forall pre name, Forall proper pre -> zlen (render pre) < PATH_MAX ->
      (name = src_name \/ name = [] \/ exists cs', Some cs = Some (cs' ++ [name])) ->
      wpM (host w m there) (to_canonical_requested_dir_path (render pre) ≫= fun d => mret ((fun d => (d, name)) <$> d)) s g (fun g' out s' => s' = s /\ g' = g /\
        forall dir name, out = Some (dir, name) -> exists ds, dir = render ds /\ Forall proper ds /\
          (name = src_name \/ name = [] \/ exists cs', Some cs = Some (cs' ++ [name])))).
    { intros pre name Hpre Hzp Hname. apply wpM_bind. eapply wpM_mono; [by apply requested_dir_ok|]. cbn beta. intros g' out s' (-> & -> & Ho & _).
      apply wpM_ret. split_and!; [done|done|]. intros dir n. destruct out as [d|]; [|done]. intros [= <- <-].
      destruct (Ho d eq_refl) as (pre' & ds & Hc & -> & Hr). exists ds. split_and!; [done| |done].
      eapply requested_proper; [|exact Hr]. by eapply comps_of_proper. }
    case_decide; [apply Hreq; [done|done|by left]|].
    destruct cs as [|c cs' _] using rev_ind; [apply (Hreq []); [constructor|done|right; by left]|].
    apply list.Forall_app in Hp as [Hp Hc]. inversion_clear Hc as [|? ? [Hc' _] _]. pose proof (zlen_render_snoc cs' c Hc').
    assert (0 < zlen c) by (destruct Hc' as [Hc' _]; destruct c; [done|]; rewrite zlen_cons; pose proof (zlen_nonneg c); lia).
    assert (zlen c < PATH_MAX).
    { rewrite render_snoc, zlen_app, zlen_cons in Hz'. pose proof (zlen_nonneg (slashed cs')). lia. }
    rewrite split_parent_name_eq, split_dir_base_render by (done || lia || by apply Forall_proper_good).
    apply Hreq; [done|lia|]. right. right. by exists cs'.
Qed.
Lemma join_fast_render cs n out : Forall good cs -> path_join_fast (render cs) n PATH_MAX = Some out -> out = render (cs ++ [n]).
Proof.
  intros Hg. unfold path_join_fast. case_decide; [done|]. case_decide; [done|]. intros [= <-]. rewrite render_snoc. f_equal.
  case_decide as Hroot; [apply (render_root cs Hg) in Hroot; by subst|]. by rewrite render_cons by (by intros ->).
Qed.

Definition file_post (verify_only : bool) (src_abs src_name arg : bytes) (g g' : walk_ghost) (out : option (bytes * bytes)) : Prop :=
  wg_fds g' = wg_fds g /\
  exists ds ms, wg_made g' = wg_made g ++ ms /\ made_below [] ds ms /\ (verify_only = true -> ms = []) /\
    forall enq final, out = Some (enq, final) -> exists name, name_of arg src_name name /\ src_abs <> final /\
      enq = render (ds ++ [src_name]) /\ final = render (ds ++ [name]) /\ (verify_only = false -> ds ∈ wg_walked g').

Lemma file_destination_ok verify_only src_abs src_name arg s g :
  wpM (host w o0777 there) (file_destination verify_only src_abs src_name arg) s g (fun g' out s' => s' = s /\ file_post verify_only src_abs src_name arg g g' out).
Proof.
  unfold file_destination. apply wpM_bind. eapply wpM_mono; [apply file_directory_ok|]. cbn beta. intros g' out s' (-> & -> & Ho).
  assert (Hnone : file_post verify_only src_abs src_name arg g g None).
  { split; [done|]. exists [], []. rewrite app_nil_r. split_and!; [done|by intros ? ?%elem_of_nil|done|done]. }
  destruct out as [[dir name]|]; [|by apply wpM_ret].
  destruct (Ho _ _ eq_refl) as (ds & -> & Hp%Forall_proper_good & Hn). clear Ho. apply wpM_bind.
  assert (Hok : wpM (host w o0777 there) (if verify_only then
              st ← call (s_lstat (render ds));
              if (match st with Ok st => S_ISDIR (st_mode st) | Err _ => false end : bool) then mret (Some false) else fail (render ds)
            else mkdir_p_dir (render ds) o0777) s g (fun g' ok s' => s' = s /\ wg_fds g' = wg_fds g /\
    exists ms, wg_made g' = wg_made g ++ ms /\ made_below [] ds ms /\ (verify_only = true -> ms = []) /\
      (ok <> None -> verify_only = false -> ds ∈ wg_walked g'))).
  { destruct verify_only.
    - apply wpM_bind. eapply wpM_mono; [apply is_dir_lstat|]. cbn beta. intros g' st s' (-> & -> & ->).
      destruct (match p_lstat w (render ds) with Ok _ => _ | Err _ => _ end); [apply wpM_ret|apply fail_ok];
        (split_and!; [done|done|]; exists []; rewrite app_nil_r; by split_and!; [|by intros ? ?%elem_of_nil| |]).
    - eapply wpM_mono; [by apply mkdir_p_ok|]. cbn beta. intros g' ok s' (-> & ms & (Hf & Hm & Hb) & Hc). split_and!; [done|done|].
      exists ms. split_and!; [done|done|done|]. intros Hne _. destruct ok as [c|]; [|done]. by destruct Hc. }
  eapply wpM_mono; [exact Hok|]. cbn beta. intros g1 ok s' (-> & Hf & ms & Hm & Hb & Hv & Hw).
  assert (Hquit : wpM (host w o0777 there) (mret None) s g1 (fun g' out s' => s' = s /\ file_post verify_only src_abs src_name arg g g' out)).
  { apply wpM_ret. split; [done|]. split; [done|]. exists ds, ms. by split_and!. }
  destruct ok as [c|]; [|exact Hquit].
  destruct (path_join_fast (render ds) src_name PATH_MAX) as [enq|] eqn:He; [|apply fail_ok; exact Hquit].
  destruct (path_join_fast (render ds) name PATH_MAX) as [final|] eqn:Hfin; [|apply fail_ok; exact Hquit].
  case_decide; [apply fail_ok; exact Hquit|]. apply wpM_ret. split; [done|]. split; [done|]. exists ds, ms. split_and!; [done|done|done|].
  intros ? ? [= <- <-]. exists name. split_and!; [done|done|by apply join_fast_render|by apply join_fast_render|by apply Hw].
Qed.

(** What [dir_destination] leaves: [fds] are open as before. *)
Definition dir_post (verify_only : bool) (ss : list bytes) (arg : bytes) (fds : gmap Z (list bytes)) (g' : walk_ghost) (out : option (bytes * bool)) : Prop :=
  wg_fds g' = fds /\
  (wg_made g' <> [] -> verify_only = false /\ exists cs ds, comps_of w arg = Some cs /\ requested w cs ds /\ apart ss ds /\ made_below [] ds (wg_made g')) /\
  match out with
  | Some (dst, fresh) => exists ds, dst = render ds /\ apart ss ds /\
      if verify_only then fresh = false /\ exists a, abs_of w arg = Some a /\ p_real w (path_rstrip_slashes a) = Ok dst
      else ds ∈ wg_walked g' /\ fresh = bool_decide (ds ∈ wg_made g') /\ exists cs, comps_of w arg = Some cs /\ requested w cs ds
  | None => wg_bad g' = true \/
      if verify_only then forall a ds, abs_of w arg = Some a -> p_real w (path_rstrip_slashes a) = Ok (render ds) -> Forall proper ds -> ~ apart ss ds
      else forall cs ds, comps_of w arg = Some cs -> requested w cs ds -> ~ apart ss ds
  end.

(** * What is promised *)

(** The destination of a directory copy, whatever the kernel answers while
    it is made: directories are opened one component at a time from the root,
    never through a link, and every descriptor is closed again; only components
    of the resolved destination are made, and none at all in verify-only mode
    or when source and destination overlap. The destination accepted does not
    contain the source nor lie in it; it exists (verify-only) or was walked to
    its end, and is called fresh exactly when its last component was made here.
    It is refused only when a call has failed for a reason of its own (not that
    something is missing, or already there), when the path cannot be resolved,
    or when it overlaps the source. *)
Theorem dir_destination_safe verify_only ss arg s fds :
  Forall proper ss ->
  wpM (host w o0777 there) (dir_destination verify_only (render ss) arg) s (WG fds [] [] false) (fun g' out s' =>
    s' = s /\ dir_post verify_only ss arg fds g' out).
Proof.
  intros Hss%Forall_proper_good. unfold dir_destination, dir_post. apply wpM_bind. destruct verify_only.
  - eapply wpM_mono; [apply canonical_dir_ok|]. cbn beta. intros g' out s' (-> & -> & Hout & Hno).
    destruct out as [dst|].
    2:{ apply wpM_ret. split_and!; [done|done|done|]. right. intros a ds Ha Hr. by destruct (Hno eq_refl a Ha (render ds)). }
    destruct (Hout _ eq_refl) as (a & ds & Ha & Hr & -> & Hp). destruct (_ || _) eqn:Hov.
    + apply fail_ok. split_and!; [done|done|done|]. right. intros a' ds' Ha' Hr' Hp'. assert (a' = a) as -> by congruence. rewrite Hr in Hr'. injection Hr' as E.
      assert (ds' = ds) as -> by (rewrite <- (tokens_render ds), <- (tokens_render ds'), E; auto using Forall_proper_good).
      by apply overlap_render in Hov; auto using Forall_proper_good.
    + apply overlap_render in Hov; [|done|by apply Forall_proper_good]. apply wpM_ret. split_and!; [done|done|done|].
      exists ds. split; [done|]. split; [exact Hov|]. split; [done|]. by exists a.
  - eapply wpM_mono; [by apply requested_dir_ok|]. cbn beta. intros g' out s' (-> & -> & Hout & Hyes).
    destruct out as [dst|].
    2:{ apply wpM_ret. split_and!; [done|done|done|]. right. intros cs ds Hcs Hr. by specialize (Hyes cs ds Hcs Hr). }
    destruct (Hout _ eq_refl) as (cs & ds & Hcs & -> & Hr). pose proof (requested_proper w _ _ (comps_of_proper w _ _ Hcs) Hr) as Hp.
    destruct (_ || _) eqn:Hov.
    { apply fail_ok. split_and!; [done|done|done|]. right. intros cs' ds' Hcs' Hr'. specialize (Hyes cs' ds' Hcs' Hr'). injection Hyes as E.
      pose proof (requested_proper w _ _ (comps_of_proper w _ _ Hcs') Hr') as Hp'.
      assert (ds' = ds) as -> by (rewrite <- (tokens_render ds), <- (tokens_render ds'), E; auto using Forall_proper_good).
      by apply overlap_render in Hov; auto using Forall_proper_good. }
    apply overlap_render in Hov; [|done|by apply Forall_proper_good].
    apply wpM_bind. eapply wpM_mono; [apply ensure_root_ok; [by apply Forall_proper_good|by destruct Hr as (? & ? & ? & ? & ? & ? & ? & ? & ? & _)]|].
    cbn beta. intros g' out s' (-> & ms & (Hf & Hm & Hb) & Hc). simpl in Hm. subst ms.
    destruct out as [fresh|]; apply wpM_ret; (split; [done|]; split; [done|]; split; [intros _; split; [done|]; by exists cs, ds|]).
    + destruct Hc as [? ->]. exists ds. split; [done|]. split; [exact Hov|]. split; [done|]. split; [done|]. by exists cs.
    + by left.
Qed.

(** A single file. Its destination directory is made like that of a tree
    (nothing in verify-only mode); the name the copy is made under and the final
    name are in that one directory, and the final name is not the source's
    path. When the copy is done and had the content [c], finishing without an
    error leaves [c] under the final name and nothing under the other, touches
    no third name, and has verification look under the final name; an error
    changes nothing. *)
Theorem single_file_placed verify_only src_abs src_name arg s g :
  wpM (host w o0777 there) (file_destination verify_only src_abs src_name arg) s g (fun g' out s' => s' = s /\
    file_post verify_only src_abs src_name arg g g' out /\
    forall enq final, out = Some (enq, final) -> forall failed names items,
      wpM naming (finish_single failed enq final) items names (fun names' bad items' =>
        (failed = true -> bad = true) /\ finished enq final names items names' bad items')).
Proof.
  eapply wpM_mono; [apply file_destination_ok|]. cbn beta. intros g' out s' [-> H]. split_and!; [done|done|].
  intros. apply finish_single_ok.
Qed.
End destination.

(** * A host *)

Definition host_answer (w : paths) (there : list (list bytes)) (g : walk_ghost) (n : Z) R (e : startup R) : R :=
  match e in startup R return R with
  | s_getcwd => p_cwd w
  | s_stat p => p_stat w p
  | s_lstat p => p_lstat w p
  | s_realpath p => p_real w p
  | s_open _ _ => Ok n
  | s_openat _ _ _ => Ok n
  | s_fstatat dfd name _ => if decide (wg_at g dfd ++ [name] ∈ there) then Ok dir_stat else Err ENOENT
  | s_mkdirat _ _ _ => Ok tt
  | s_close _ => Ok tt
  | s_rename _ _ => Ok tt
  | s_say _ => tt
  end.
Definition host_kernel (w : paths) (there : list (list bytes)) (R : Type) (e : startup R) (k : walk_ghost * Z) : R * (walk_ghost * Z) :=
  let r := host_answer w there k.1 k.2 R e in (r, (host_upd k.1 R e r, k.2 + 1)).
Lemma host_kernel_ok w there m :
  kernel_ok (host w m (fun p => p ∈ there)) (host_kernel w there) (fun k g => g = k.1 /\ forall fd, k.2 <= fd -> wg_fds g !! fd = None).
Proof.
  intros [g n] g' R e [-> Hfds] Hpre. cbn [fst snd] in *. split; [|split; [done|]].
  - destruct e; cbn; try done; try by apply Hfds.
    + split; [by apply Hfds|done].
    + case_decide; [|done]. intros _. by left.
  - intros fd Hfd. specialize (Hfds fd ltac:(cbn in Hfd; lia)). cbn in Hfd. destruct e; cbn; try done.
    + by rewrite lookup_insert_ne by lia.
    + by rewrite lookup_insert_ne by lia.
    + by case_decide.
    + apply lookup_delete_None. by right.
Qed.

(** /mnt is a link to /data/mnt; nothing else is there. *)
Definition w_ex : paths := Paths (Ok (str "/home"))
  (fun p => if decide (p = [SLASH] \/ p = str "/mnt") then Ok dir_stat else Err ENOENT) (fun p => Err ENOENT)
  (fun p => if decide (p = [SLASH]) then Ok [SLASH] else if decide (p = str "/mnt") then Ok (str "/data/mnt") else Err ENOENT).
Lemma w_ex_cwd c : p_cwd w_ex = Ok c -> head c = Some SLASH.
Proof. by intros [= <-]. Qed.
Lemma w_ex_real p r : p_real w_ex p = Ok r -> exists rs, Forall proper rs /\ r = render rs.
Proof.
  simpl. repeat case_decide; intros [= <-]; [by exists []|]. exists [str "data"; str "mnt"].
  split; [apply (bool_decide_unpack _); by vm_compute|done].
Qed.
Definition there_ex : list (list bytes) := [[str "data"]; [str "data"; str "mnt"]].

Lemma dir_destination_safe_witness :
  exists k, run (host_kernel w_ex there_ex) (dir_destination false (str "/src/x") (str "/mnt/a/../b/c") tt) (WG ∅ [] [] false, 3) =
    Some ((Some (str "/data/mnt/b/c", true), tt), k) /\
  wg_fds k.1 = ∅ /\ apart [str "src"; str "x"] [str "data"; str "mnt"; str "b"; str "c"] /\
  made_below [] [str "data"; str "mnt"; str "b"; str "c"] (wg_made k.1).
Proof.
  assert (Hs : Forall proper [str "src"; str "x"]) by (apply (bool_decide_unpack _); by vm_compute).
  pose proof (dir_destination_safe w_ex (fun p => p ∈ there_ex) w_ex_cwd w_ex_real false [str "src"; str "x"] (str "/mnt/a/../b/c") tt ∅ Hs) as H.
  destruct (wp_run (host w_ex o0777 (fun p => p ∈ there_ex)) (host_kernel w_ex there_ex) (fun k g => g = k.1 /\ forall fd, k.2 <= fd -> wg_fds g !! fd = None)
    _ (WG ∅ [] [] false, 3) (WG ∅ [] [] false) _ (fun x => x) (host_kernel_ok _ _ _) (conj eq_refl (fun fd _ => lookup_empty fd)) H)
    as ([out u] & k & g & Hrun & [Hg _] & Hq).
  cbn beta iota in Hq. destruct u, Hq as (_ & Hf & Hm & Hout). subst g.
  assert (E : exists k1, run (host_kernel w_ex there_ex) (dir_destination false (str "/src/x") (str "/mnt/a/../b/c") tt) (WG ∅ [] [] false, 3) =
    Some ((Some (str "/data/mnt/b/c", true), tt), k1) /\ wg_made k1.1 <> []).
  { eexists. split; [vm_compute; reflexivity|by vm_compute]. }
  destruct E as (k1 & E & Hne). change (str "/src/x") with (render [str "src"; str "x"]) in E. rewrite Hrun in E. injection E as -> ->.
  exists k1. split; [exact Hrun|]. split; [exact Hf|].
  destruct (Hm Hne) as (_ & _ & ds & _ & _ & Hap & Hb). destruct Hout as (ds' & Ed & Hap' & Hw & _ & cs & Hcs & Hr).
  assert (ds' = [str "data"; str "mnt"; str "b"; str "c"]) as ->.
  { pose proof (requested_proper w_ex _ _ (comps_of_proper w_ex _ _ Hcs) Hr) as Hp%Forall_proper_good. rewrite <- (tokens_render ds' Hp), <- Ed. by vm_compute. }
  split; [exact Hap'|]. destruct (Hm Hne) as (_ & cs2 & ds2 & Hcs2 & Hr2 & _ & Hb2).
  assert (ds2 = [str "data"; str "mnt"; str "b"; str "c"]) as <-; [|exact Hb2].
  assert (cs2 = cs) as -> by congruence. clear -Hr Hr2 Hcs. by eapply requested_unique.
Defined.

(** * A source that does not survive

    The worker makes the copy under the source's name in the destination
    directory; only the final name is compared with the source's path. When the
    directory is the source's own, the file under the source's name is the
    source itself, and the rename takes it away. *)
Definition w_home : paths := Paths (Ok (str "/home"))
  (fun p => if decide (p = str "/a") then Ok dir_stat else Err ENOENT) (fun p => Err ENOENT)
  (fun p => if decide (p = str "/a") then Ok (str "/a") else Err ENOENT).
Example source_taken :
  (exists k, run (host_kernel w_home [[str "a"]]) (file_destination false (str "/a/f") (str "f") (str "/a/g") tt) (WG ∅ [] [] false, 3) =
    Some ((Some (str "/a/f", str "/a/g"), tt), k)) /\
  forall c, rename_in (str "/a/f") (str "/a/g") {[ str "/a/f" := c ]} = {[ str "/a/g" := c ]}.
Proof.
  split; [eexists; vm_compute; reflexivity|]. intros c. unfold rename_in. rewrite lookup_singleton_eq, delete_singleton_eq. apply insert_empty.
Qed.
